(* ===== verification/_CoqProject ===== *)
-Q . S2P
Prelude.v
PyValue.v
Times.v
Floats.v
Magnitude.v
Numeric.v
ModelManager.v
Admission.v
DiskCache.v
Asyncio.v
Vad.v
SessionTranscript.v
RtSession.v
RtSessionSpec.v
Recorder.v
Connection.v
Diarization.v
Smoothing.v
DiarizeChunks.v
Transcript.v
Chunking.v
MissedSpeech.v
Assembly.v
Models.v
Catalog.v
Registry.v
Selector.v
Dag.v
Store.v
Pagination.v
Webhooks.v
Endpoints.v
SessionRecords.v
Cleanup.v
Delivery.v
Events.v
Effects.v
RegistryKeys.v
Auth.v
Settings.v
Sessions.v
SessionSpec.v
SessionPool.v
Streams.v
RateLimiter.v
Scheduler.v
Groups.v
Engine.v
PostProcessor.v
Handlers.v
Scanner.v
Reconciler.v
Jobs.v
Slots.v
Access.v
ModelRegistry.v
ModelRegistrySpec.v
Invariants.v
Recovery.v
System.v
Retention.v
Queueing.v
Retries.v
Outcomes.v
Lifecycle.v
Divergences.v
Sweeps.v
Consumer.v
