(* ===== verification/Prelude.v ===== *)
(** * Dalston: a verification of the transcription server

    Dalston transcribes audio.  A gateway accepts a job; the orchestrator
    chooses an engine for each stage (prepare, transcribe, align, diarize and,
    after the job, pii_detect and audio_redact), builds a graph of tasks, queues
    each task on the stream of its engine when its dependencies are done,
    reacts to the events that engines and gateway publish, assembles the transcript
    and ends the job; sweeps recover what crashes leave behind, webhooks tell the
    owner of the job, and cleanup removes what is kept too long.  Realtime sessions
    are given a worker, cut into utterances and transcribed one by one.
    This library is a shallow embedding of that path: every definition is a
    translation of a Python function, and the theorems say what the path
    guarantees, in the presence of failing engines, redelivered events and
    orchestrators that die.

    ** Parts, in dependency order

    - [Prelude]: results ([res]), stable sorting, strings, tactics.
    - [PyValue]: floats (binary64, executable), insertion-ordered dictionaries,
      JSON values with the accesses the code makes and the exceptions these raise.
      [Times], [Floats], [Magnitude], [Numeric]: the order of times, the size of floats
      and loops over them, how large a quotient is, words of texts, numbers as texts.
    - [ModelManager], [Admission], [DiskCache]: the process of an engine
      ([engine_sdk/model_manager.py], [admission.py], [disk_cache.py]): models in
      memory with their references, places for batch tasks and sessions, models on
      disk.  They share no state with one another but for the ids of loaded models.
    - [Asyncio]: coroutines as trees that go on from [await] to [await], tasks on one
      event loop, and a logic of them (below).
    - [Vad], [SessionTranscript]: [realtime_sdk/vad.py] and [assembler.py], the
      detector and the transcript of one realtime session.  [RtSession]: the session
      itself ([realtime_sdk/session.py], with [protocol.py] and the interface of
      [context.py]): a main task, the monitor of the lag and the decoder over the state
      [Live].  [RtSessionSpec]: its theorems, and sessions that run.  [Recorder]: where a
      session stores its audio and transcript ([realtime_sdk/audio_recorder.py] and
      [S3SessionStorage] of [context.py]); it is an instance of the class
      [SessionStorage] that [RtSession] is written against.  [Connection]: from a
      connection and its query to a session ([realtime_sdk/base.py]).
    - [Diarization], [Transcript]: [common/transcript.py] and the classes of
      [common/pipeline_types.py] it reads; [Smoothing], [MissedSpeech] and
      [Assembly] hold theorems about them.
    - [DiarizeChunks]: the speakers of long audio ([engine_sdk/diarize_chunking.py], and the
      branch into it of [engines/stt-diarize/pyannote-4.0/engine.py]).
    - [Chunking]: long audio in one engine, the rest of a transcription engine's process
      ([engine_sdk/vad.py], [engine_sdk/base_transcribe.py]).
    - [Models]: [common/models.py], [common/artifacts.py],
      [common/pipeline_types.py], [orchestrator/defaults.py].
    - [Catalog]: [orchestrator/catalog.py], the strict parse of the engine
      catalog and its queries.
    - [Registry]: the records of [common/registry.py] and the queries on them; a
      registry is the list of records Redis yields.
    - [Selector]: [orchestrator/engine_selector.py], from job parameters to an
      engine per stage.  State: none; it reads the registry, the catalog and
      the models table.
    - [Dag]: [orchestrator/dag.py], from the selection to a list of tasks.
    - [Store]: the rows of [db/models.py], the Redis keys, the events of
      [common/events.py] and the exceptions of [orchestrator/exceptions.py];
      the record [world].
    - [Pagination]: the listings in pages of [gateway/services/jobs.py],
      [console.py], [webhook_endpoints.py] and [realtime_sessions.py]: one definition over
      the class [Row], with [list_jobs] and [list_jobs_admin].
    - [Webhooks], [Endpoints]: the two tables of webhooks ([WebhookDB]) and their
      operations: [orchestrator/delivery.py], [_handle_job_webhook] of
      [orchestrator/distributed_main.py], [gateway/services/webhook.py] and
      [webhook_endpoints.py].  [Delivery]: any number of delivery workers, the ends of
      jobs and the owners of endpoints as a step relation, and its theorems.
    - [SessionRecords], [Cleanup]: the rows of realtime sessions
      ([gateway/services/realtime_sessions.py]), retention ([common/retention.py]) and the
      sweep of [orchestrator/cleanup.py]; [Retention] composes the sweep with [System].
    - [Events]: the text of durable events, their envelopes and their routing
      ([common/durable_events.py], [common/events.py], and the first half of
      [_dispatch_event_dict]).
    - [Effects]: the monad [M] of the effectful code (below).
    - [RegistryKeys]: the hashes and sets of Redis behind such a list: registration,
      heartbeats, deregistration and reads of [common/registry.py], what the two
      engine loops put into a heartbeat ([engine_sdk/runner.py],
      [realtime_sdk/base.py]), and the reconciler's clean-up of instances.
    - [Auth]: API keys and session tokens ([gateway/services/auth.py],
      [middleware/auth.py]).  [Access]: principals, permissions and the guarded
      operations on jobs, sessions and webhook endpoints ([gateway/security/], the
      [*_authorized] methods of the services, the routes that cancel a job and rotate
      a secret); it meets [Jobs], [SessionRecords] and [Endpoints].
    - [ModelRegistry]: the table of models with their files in object storage
      ([gateway/services/model_registry.py]), which models of HuggingFace an engine can
      load ([hf_resolver.py]), and the routes of [gateway/api/v1/models.py]: coroutines of
      [Asyncio], one step per command of the database or of S3.  [Selector] reads this
      table.  [ModelRegistrySpec]: its theorems, and runs in which operations clash.
    - [Settings]: [gateway/services/settings.py], the overrides of administrators, with
      the cache of each gateway process.
    - [Sessions]: realtime sessions ([orchestrator/session_allocator.py],
      [session_health.py], [session_coordinator.py]).  Gateways run these at the
      same time on the counters and sets of Redis, so an operation is a tree of
      commands ([prog]).  [SessionSpec]: what each does when it runs alone;
      [SessionPool]: threads interleaved command by command, and abandoned.
    - [Streams]: the producer side of [common/streams.py].
    - [RateLimiter]: [gateway/services/rate_limiter.py].
    - [Scheduler]: [orchestrator/scheduler.py] ([queue_task] and what it calls).
      Its class [Env] is what the handlers are run against.
    - [Groups]: consumer groups, and the consumer side of [common/streams.py]
      and [common/streams_sync.py].
    - [Engine]: the polling loop of [engine_sdk/runner.py]; its class
      [EngineProcess] says which engine it is and what it computes.
    - [PostProcessor]: [orchestrator/post_processor.py].
    - [Handlers]: [orchestrator/handlers.py], [orchestrator/stats.py] and the
      retention step of [gateway/services/artifacts.py].
    - [Scanner]: [orchestrator/scanner.py], tasks of dead engines and expired
      waits, under a leader lock.  [Reconciler]: [orchestrator/reconciler.py],
      the five recovery passes.  Both meet the handlers in the database, the
      streams and the events they publish.
    - [Jobs]: the operations of [gateway/services/jobs.py] that change jobs and
      the two cancellation routes; meets [Handlers] in the database, the
      cancellation flag, the slot counters and the events.
    - [Slots], [Invariants], [Recovery], [System], [Queueing], [Retries],
      [Outcomes], [Lifecycle], [Divergences], [Sweeps]: theorems about the parts
      together.  [System] also holds [dispatch] of
      [orchestrator/distributed_main.py] and the transition system.
    - [Consumer]: the consumption of durable events and the event loop of
      [orchestrator/distributed_main.py], with its theorems.

    A Python function and its definition share their name, but for the
    leading underscores; a class's fields keep theirs, with a prefix where
    Rocq's records need one ([j_] for a job's row, [tm_] for a task's row,
    [t_] for a task of the graph).

    ** The effectful code

    [M A] is [world → world * res exn A]: state passing with exceptions,
    [catch] for [try]/[except].  The world holds the clock, the session's view
    of the database ([w_db]) and what is committed ([w_disk]), Redis, the two
    channels of events, and the documents of object storage.  Reads, and
    assignments to session objects, are free; each external effect (a commit, a
    Redis command, a publication, an upload) is atomic and uses one unit of
    [w_budget]: the process dies, with [Crash], before the effect for which none
    is left, and [except Exception] does not catch that.  [None] is a process
    that does not die.  When a handler ends, in whatever way, what it did not
    commit is lost ([run_handler]).  Quantifying over the budget, as [sys_step]
    does, covers a death at every point of every handler.

    Two ways of reasoning: [rel R m] says that [m] stays in the preorder [R]
    however it ends, and composes through handlers (the tactic [steps] does
    it); and lemmas in the style of [rel_run] follow a run that returns.

    ** The realtime session

    There a handler is not atomic: at every [await] the other tasks and the world get
    in.  [co S A] is a coroutine over the state [S]: it returns, runs up to the next
    [await], or waits for a condition.  A [Loop] is a state with its tasks; a step
    resumes a task that may go on (with [CancelledError] when it was cancelled) or is a
    move of the world: a message, the clock, the thread of the engine.  [loop_reach] is
    every interleaving.  [wp] is a rely/guarantee logic: a task states what it
    needs of the others' moves ([R]) and what it promises of its own ([G]) between
    two [await]s, and [reach_ok] puts the tasks together.

    ** What is proved

    - [System], [Invariants], [Recovery]: after any sequence of events, gateway
      operations, scans, reconciliations, crashes and changes of Redis by others, retries are bounded, scheduled
      tasks have completed dependencies, a job has one task per stage; rows
      persist and statuses only move forward (the orders are
      [task_status_reach] and [job_status_reach], the closures of the moves the
      code makes).
    - [Retries]: a failed attempt is retried once however often its event is
      delivered to processes that die.  Messages are deduplicated by a key that
      lives a day; the theorem is about redelivery within its life.
    - [Slots]: the counters of concurrent jobs, incremented and decremented by
      the gateway and decremented by the orchestrator under one guard key,
      refine a specification in which a job gives its slot back once.
    - [Queueing]: admission and its refusals, binding resolution, timeouts, and
      the effects of [queue_task].
    - [Outcomes], [Lifecycle]: dependents of a completed task advance; how jobs
      end, on success, failure and cancellation.
    - [Selector], [Registry], [Catalog]: the chosen engine is capable and of
      the highest rank among the capable ones; the exact errors; selected stages.
    - [Dag]: the graph is a topological order with one root, its build is total
      on parameters of the declared types, its bindings name the prepared audio.
    - [RateLimiter]: the sliding window admits no more than its limit in any
      minute, unless requests share a tick of the script's number format.
    - [Jobs]: the listing order is a topological order.
    - [Events], [Consumer]: what publishers write is what handlers are called
      with; no durable event is lost, wherever orchestrators die; the decision
      to acknowledge, retry or dead-letter.
    - [Engine], [Recovery]: an engine acknowledges a message only once the end of
      its attempt is on the durable stream, and takes messages only from dead
      owners; the reconciler acknowledges no unfinished task that it has not
      queued again.
    - [Sweeps]: what becomes of a task whose engine dies and of a task that
      fails before it starts.
    - [Diarization], [Smoothing], [MissedSpeech], [Assembly]: splitting and
      merging lose no word and no span of speech; what the missed-speech warning
      counts; the segments of a transcript.
    - [Chunking]: passes over long audio end, and their chunks hold all the speech that
      was detected, once; what the offline detector finds; what merging keeps.
    - [SessionSpec]: the outcome of an acquisition, of a release and of the sweep
      for orphaned sessions.  [SessionPool]: whatever the interleaving, a worker
      serves no more sessions than its capacity; and the run in which the sweep
      breaks that.
    - [ModelManager]: a model in use stays loaded and is the one acquired, whatever
      threads do; which model makes room.  [Admission]: realtime sessions keep
      their places.  [DiskCache]: what a pass removes, and names that come back.
      [Vad]: every utterance has its chunks, once.  [SessionTranscript]: the times of
      the segments.
    - [RtSessionSpec]: whatever the tasks of a realtime session do to one another, what
      its client is told and in which order, when it is terminated for its lag, and
      that the engine hears what was sent, once; and a session that is terminated for a
      lag it does not have.
    - [Recorder]: a recording holds the audio of its session, whatever calls to S3 fail.
      [Connection]: what a client asks for is within its limits or refused.
    - [DiarizeChunks]: a voice has one name in all chunks; runs of the back-off that do not
      end or lose their result.
    - [Pagination]: following cursors gives the sorted list, each row once, also while
      the table changes.
    - [Delivery]: what the state of a delivery says of the calls that were made; one
      delivery per endpoint however often an event is handled; the end of the locks.
    - [Cleanup], [Retention]: sessions are purged when their time is over and not before;
      jobs never are.
    - [RegistryKeys]: the queries on the keys of Redis refine the queries on the list
      of records; and the run after which a live engine is no longer listed.
    - [Auth], [Access]: a single-use token lets one request in, and when it lets in
      more; no operation on a job without the permission and the right to it; the
      listings show what a principal may read.
    - [ModelRegistrySpec]: a model that is ready has all its files, whatever interleaves,
      dies or fails, unless it is removed; what a removal and a synchronisation do.
    - [Settings]: what an update does to the table and to the caches, how old a value
      that is read can be, and that it has the type of its definition.
    - [Divergences]: pairs of paths that should agree and do not.

    ** Bounds and fuel

    Loops over lists are structural.  Kahn's algorithm ([Jobs.kahn]) has the
    number of tasks as fuel, and [kahn_enough] shows that it needs no more;
    merging short parts ([Diarization.merge_short]) has the number of parts,
    and [merge_short_spec] shows that this is enough.  The claim of stale events
    goes round at most as often as the code lets it ([Consumer.claim_loop]), and
    [XAUTOCLAIM] examines ten entries per entry asked for, as Redis does.  Loops whose
    condition is on floats ([Chunking]) have more rounds than there are floats
    ([Floats.float_fuel]); they end because what they compare is strictly monotone, and
    a round that a rounding makes repeat itself for ever is a result of its own.
    The loops of a realtime session do not end by themselves: they are followed for [n]
    rounds ([RtSession.start]), after which the task waits for ever, and the theorems
    hold for every [n].
    Python integers are [Z] (they do not overflow); floats are binary64 with
    their rounding; times are microseconds in [Z]; identifiers are [N], and the
    [i]-th call of [uuid4()] of a build is the [i]-th of a sequence whose
    distinctness is a hypothesis of the theorems that need it.

    ** Parameters

    What a process is started with or reads from outside is an argument: the
    settings, the registry and the catalog at the time of a call, the models
    table, the responses engines leave in object storage.  [Env] gathers them
    for the handlers together with [stage_config_valid] (pydantic's validation
    of a stage's configuration), [pydantic] (its validation of the responses the
    transcript is assembled from) and [fresh_uuid].  [EngineProcess] is an
    engine, [Recovery] what the reconciler asks object storage, [EventText] the
    JSON codec of events with its laws, [EventConsumer] the entries of the
    durable stream and the limit of deliveries, [SessionIds] the session ids
    drawn one after the other, which are distinct.  [Silero] is the network that hears
    speech, [SessionEngine] what a session asks of numpy, audioop, soxr and its
    engine, [ModelHub] what HuggingFace says and gives, [S3] the calls of an object store with their laws ([S3Laws]), [DiarizeEngine]
    the diarization of a chunk with its embeddings and their clustering.  The answers of the network to webhooks, what the checks of a URL say,
    the loading of a model, what a scan of a directory sees, the SHA-256 of a key and the
    fields of the settings object are arguments.  [System] lets the environment
    differ at every step.

    ** Not modelled

    Logs, metrics and tracing change no modelled state and are left out of
    the definitions, as are the tracing identifiers in task metadata.  Handlers
    are atomic but for their death: two orchestrators interleaving within one
    handler are not modelled (in [Consumer] they interleave between events and
    between reads), and rows are read in the order of identifiers where a query
    has no order.  A command of the database or of Redis does not fail except by
    the death of the process, so the engine's giving up on a durable event after
    three failed writes is not there.  A message id is a position in a stream,
    and trimming by [MAXLEN] happens as a step of the environment.

    Of the modelled files, left out are: statistics ([get_stream_info]), the
    sleeping loops of the sweeps with their counters of consecutive errors, and the
    engine's HTTP server and memory profiles; the texts of errors, and the labels of
    settings.  Webhooks: the signature, the checks of a URL, exceptions
    inside a delivery (which leave the row due), and the interleaving of the calls of one
    batch, which commit one after the other.  A row of a delivery is written as
    SQLAlchemy does, column by column where the value differs from the one read.

    The reads of the registry that an acquisition makes are one command in
    [Sessions]; the start and stop of the coordinator are left out.

    Of a realtime session, logs, spans and metrics are left out, the text of an exception
    is a parameter, a message that cannot be sent counts as sent (the code only logs
    it), and the wait for the end of the decoder either ends in time or does not.

    Of the table of models, the parser of the YAML files, the thread that measures a
    download (its reports are moves of the world) and the audit are left out.

    The HTTP server and the registration loop around the sessions, the memory budgets of
    engines, the files of audio and the other routes of the gateway share no state
    with the parts above but through the operations that are modelled, and are left
    out.  Migrations, the web console, command-line tools, engines and deployment are outside
    the program's core. *)

(** ** Shared vocabulary

    Exceptions as values, the result monad in which fallible Python code is
    written, stable sorting (the contract of Python's [sorted]), string helpers
    and the tactics used by every component. *)

From stdpp Require Export base gmap sets list strings pretty sorting.
From Stdlib Require Export ZArith Ascii Lia ZifyBool.

Declare Scope dalston_scope.
Delimit Scope dalston_scope with dalston.

(** ** Results of fallible code

    [res E A]: a Python call that returns an [A] or raises an [E]. *)

Inductive res (E A : Type) : Type :=
  | Ok (a : A)
  | Raise (e : E).
Arguments Ok {E A} a.
Arguments Raise {E A} e.

#[export] Instance res_eq_dec {E A} `{EqDecision E, EqDecision A} : EqDecision (res E A).
Proof. solve_decision. Defined.

Definition res_bind {E A B} (m : res E A) (k : A → res E B) : res E B :=
  match m with Ok a => k a | Raise e => Raise e end.

#[export] Instance res_mret E : MRet (res E) := λ _ a, Ok a.
#[export] Instance res_mbind E : MBind (res E) := λ _ _ k m, res_bind m k.
#[export] Instance res_fmap E : FMap (res E) :=
  λ _ _ f m, match m with Ok a => Ok (f a) | Raise e => Raise e end.

Definition is_ok {E A} (m : res E A) : bool :=
  match m with Ok _ => true | Raise _ => false end.

Lemma bind_Ok {E A B} (m : res E A) (k : A → res E B) b :
  m ≫= k = Ok b ↔ ∃ a, m = Ok a ∧ k a = Ok b.
Proof. destruct m as [a|e]; split; cbn; naive_solver. Qed.

Lemma bind_Raise {E A B} (m : res E A) (k : A → res E B) e :
  m ≫= k = Raise e ↔ m = Raise e ∨ ∃ a, m = Ok a ∧ k a = Raise e.
Proof. destruct m as [a|e']; split; cbn; naive_solver. Qed.

(** Left fold in the result monad: a [for] loop whose body may raise. *)
Fixpoint res_foldl {E A B} (f : B → A → res E B) (b : B) (l : list A) : res E B :=
  match l with
  | [] => Ok b
  | a :: l => res_bind (f b a) (λ b', res_foldl f b' l)
  end.

(** ** Stable sorting

    Python's [sorted(l, key=k)] is stable, and [reverse=True] keeps the order
    of equal elements.  [stable_sort before l] places [x] before [y] when
    [before x y], and keeps the order of [l] among the others: an element goes
    in front of the first one that is strictly worse. *)
Section stable_sort.
Context {A : Type} (before : A → A → bool).

Fixpoint sort_insert (x : A) (l : list A) : list A :=
  match l with
  | [] => [x]
  | y :: l' => if before y x then y :: sort_insert x l' else x :: y :: l'
  end.

Definition stable_sort (l : list A) : list A := foldr sort_insert [] l.

Lemma sort_insert_perm x l : sort_insert x l ≡ₚ x :: l.
Proof.
  induction l as [|y l IH]; cbn; [done|].
  destruct (before y x); [|done]. rewrite IH. by constructor.
Qed.

Lemma stable_sort_perm l : stable_sort l ≡ₚ l.
Proof.
  induction l as [|x l IH]; cbn; [done|]. by rewrite sort_insert_perm, IH.
Qed.

Lemma stable_sort_nil l : stable_sort l = [] ↔ l = [].
Proof.
  split; [|by intros ->]. intros Hs.
  apply Permutation_nil_r. by rewrite <-(stable_sort_perm l), Hs.
Qed.

Lemma elem_of_stable_sort x l : x ∈ stable_sort l ↔ x ∈ l.
Proof. by rewrite stable_sort_perm. Qed.

(** With a strict order whose incomparability is transitive through the
    elements that satisfy [P], nothing of a list of such elements goes before
    the head of the sorted list. *)
Context (P : A → Prop).
Hypothesis before_irrefl : ∀ x, before x x = false.
Hypothesis before_trans : ∀ x y z,
  before x y = true → before y z = true → before x z = true.
Hypothesis before_neg_trans : ∀ x y z,
  P y → before x y = false → before y z = false → before x z = false.

Definition sorted_by (l : list A) : Prop :=
  StronglySorted (λ x y, before y x = false) l.

Lemma before_asym x y : before x y = true → before y x = false.
Proof.
  intros Hxy. destruct (before y x) eqn:Hyx; [|done].
  by rewrite <-(before_irrefl x), (before_trans x y x).
Qed.

Lemma sort_insert_sorted x l : Forall P l → sorted_by l → sorted_by (sort_insert x l).
Proof.
  intros HP. induction 1 as [|y l Hl IH Hy]; cbn; [by repeat constructor|].
  apply Forall_cons in HP as [HPy HPl].
  destruct (before y x) eqn:Hyx.
  - constructor; [by apply IH|]. rewrite sort_insert_perm.
    constructor; [by apply before_asym|done].
  - constructor; [by constructor|]. constructor; [done|].
    eapply Forall_impl; [exact Hy|]. cbn. eauto using before_neg_trans.
Qed.

Lemma stable_sort_sorted l : Forall P l → sorted_by (stable_sort l).
Proof.
  induction 1; cbn; [constructor|]. apply sort_insert_sorted; [|done].
  by rewrite stable_sort_perm.
Qed.

Lemma stable_sort_head l x l' y :
  Forall P l → stable_sort l = x :: l' → y ∈ l → before y x = false.
Proof.
  intros HP Hs Hy. pose proof (stable_sort_sorted l HP) as Hsort.
  rewrite <-elem_of_stable_sort, Hs in Hy. rewrite Hs in Hsort.
  apply StronglySorted_inv in Hsort as [_ Hall].
  rewrite elem_of_cons in Hy. destruct Hy as [->|Hy]; [apply before_irrefl|].
  by eapply Forall_forall in Hall.
Qed.
End stable_sort.

Lemma Forall_True {A} (l : list A) : Forall (λ _, True) l.
Proof. by apply Forall_true. Qed.

(** ** Strings

    Python strings are modelled as byte strings; [lower] and [strip] act on
    their ASCII part. *)

Fixpoint str_map (f : ascii → ascii) (s : string) : string :=
  match s with
  | EmptyString => EmptyString
  | String c s => String (f c) (str_map f s)
  end.

Definition ascii_lower (c : ascii) : ascii :=
  let n := Ascii.nat_of_ascii c in
  if (65 <=? n) && (n <=? 90) then Ascii.ascii_of_nat (n + 32) else c.

Definition lower (s : string) : string := str_map ascii_lower s.

Definition ascii_is_space (c : ascii) : bool :=
  let n := Ascii.nat_of_ascii c in
  ((9 <=? n) && (n <=? 13)) || ((28 <=? n) && (n <=? 32)).

Fixpoint lstrip (s : string) : string :=
  match s with
  | EmptyString => EmptyString
  | String c s' => if ascii_is_space c then lstrip s' else s
  end.

Definition strip (s : string) : string := String.rev (lstrip (String.rev (lstrip s))).

(** [needle in haystack] on strings. *)
Fixpoint contains (needle hay : string) : bool :=
  String.prefix needle hay ||
  match hay with EmptyString => false | String _ hay' => contains needle hay' end.

Lemma str_map_length f s : String.length (str_map f s) = String.length s.
Proof. induction s; cbn; congruence. Qed.

(** The number [n] in decimal, as [str(n)] and f-strings print it. *)
Definition str_nat (n : nat) : string := pretty n.
Definition str_Z (z : Z) : string := pretty z.

#[export] Instance str_nat_inj : Inj (=) (=) str_nat.
Proof. unfold str_nat. apply _. Qed.

(** [f"{n:0wd}"]: padded with zeros to [w] characters. *)
Definition str_padded (w n : nat) : string :=
  String.concat "" (replicate (w - String.length (str_nat n)) "0") +:+ str_nat n.

Lemma string_app_inj_l (s s1 s2 : string) : s +:+ s1 = s +:+ s2 → s1 = s2.
Proof. induction s as [|c s IH]; cbn; [done|]. intros [=]. by apply IH. Qed.

(** [k in [s1, ..., sn]] for strings. *)
Definition mem_str (k : string) (l : list string) : bool := existsb (String.eqb k) l.

Lemma mem_str_spec k l : mem_str k l = true ↔ k ∈ l.
Proof.
  unfold mem_str. rewrite existsb_exists, list_elem_of_In. split.
  - by intros (x & Hx & ->%String.eqb_eq).
  - intros. exists k. split; [done|apply String.eqb_refl].
Qed.

(** ** Generic list and option lemmas *)

Lemma filter_nil_Forall {A} (P : A → Prop) `{∀ x, Decision (P x)} (l : list A) :
  filter P l = [] ↔ Forall (λ x, ¬ P x) l.
Proof.
  induction l as [|x l IH]; [done|]. rewrite filter_cons, Forall_cons.
  case_decide; split; [done|naive_solver|naive_solver|naive_solver].
Qed.

Lemma elem_of_filter_b {A} (f : A → bool) (l : list A) x :
  x ∈ List.filter f l ↔ x ∈ l ∧ f x = true.
Proof. by rewrite !list_elem_of_In, filter_In. Qed.

Lemma NoDup_filter_b {A} (f : A → bool) l : NoDup l → NoDup (List.filter f l).
Proof. rewrite !NoDup_ListNoDup. apply List.NoDup_filter. Qed.

(** The last of a list, with a default for the empty one. *)
Lemma last_cons_default {A} (l : list A) x d : List.last (x :: l) d = List.last l x.
Proof.
  revert x d. induction l as [|y l IH]; intros x d; [done|].
  change (List.last (x :: y :: l) d) with (List.last (y :: l) d). by rewrite !IH.
Qed.

Lemma elem_of_rev {A} (x : A) l : x ∈ rev l ↔ x ∈ l.
Proof. by rewrite !list_elem_of_In, <-in_rev. Qed.

(** Neighbours are related. *)
Fixpoint chain {A} (R : A → A → Prop) (l : list A) : Prop :=
  match l with
  | x :: ((y :: _) as rest) => R x y ∧ chain R rest
  | _ => True
  end.

Lemma chain_snoc {A} (R : A → A → Prop) l x y :
  chain R (l ++ [x] ++ [y]) ↔ chain R (l ++ [x]) ∧ R x y.
Proof.
  induction l as [|z l IH]; cbn; [naive_solver|].
  destruct l as [|z' l]; cbn in *; [naive_solver|]. rewrite IH. naive_solver.
Qed.

(** First match of a boolean test, as in [next((x for x in l if f x), None)]. *)
Fixpoint find_first {A} (f : A → bool) (l : list A) : option A :=
  match l with
  | [] => None
  | x :: l => if f x then Some x else find_first f l
  end.

Lemma find_first_Some {A} (f : A → bool) l x :
  find_first f l = Some x → x ∈ l ∧ f x = true.
Proof.
  induction l as [|y l IH]; cbn; [done|]. destruct (f y) eqn:Hy.
  - intros [= ->]. split; [by apply elem_of_cons; left|done].
  - intros [Hx Hf]%IH. split; [by apply elem_of_cons; right|done].
Qed.

Lemma find_first_None {A} (f : A → bool) l :
  find_first f l = None ↔ ∀ x, x ∈ l → f x = false.
Proof.
  induction l as [|y l IH]; cbn.
  - split; [intros _ x Hx; inversion Hx|done].
  - setoid_rewrite elem_of_cons. destruct (f y) eqn:Hy; [|rewrite IH; naive_solver].
    split; [done|]. intros H. rewrite (H y) in Hy; [done|by left].
Qed.

Lemma foldl_invariant {A B} (P : A → Prop) (f : A → B → A) l a :
  P a → (∀ a b, P a → P (f a b)) → P (foldl f a l).
Proof. intros Ha Hf. revert a Ha. induction l as [|b l IH]; cbn; auto. Qed.

(** ** Tactics and hints *)

Create HintDb dalston.
#[export] Hint Resolve stable_sort_perm Forall_True : dalston.
#[export] Hint Rewrite @elem_of_stable_sort @bind_Ok : dalston.

(** Splits a [res] equation [x ≫= k = Ok y] of the context into its steps. *)
Ltac inv_ok :=
  repeat match goal with
  | H : mbind _ _ = Ok _ |- _ =>
      apply bind_Ok in H; destruct H as (? & ? & ?)
  | H : Ok _ = Ok _ |- _ => injection H as H; subst
  | H : Raise _ = Ok _ |- _ => discriminate H
  | H : Ok _ = Raise _ |- _ => discriminate H
  | H : mret _ = Ok _ |- _ => unfold mret, res_mret in H
  end.

(** Case analysis on every [match] and [if] of the goal. *)
Ltac split_matches := repeat (case_match; simplify_eq/=; try done).

(** Evaluates a closed statement about executable definitions. *)
Ltac run := vm_compute; repeat split; congruence.
