(* ===== verification/PyValue.v ===== *)
(** * Python values: floats, dictionaries and JSON values

    A Python float is an IEEE-754 binary64 number, here the executable
    [spec_float] of the Standard Library with its rounding.  A dictionary is an
    association list in insertion order ([dict]); job parameters, task
    configurations and responses are JSON values ([json]). *)

From Stdlib Require Export SpecFloat.
From S2P Require Import Prelude.

(** ** Exceptions raised by built-in operations *)

Inductive pyexn : Type :=
  | TypeError
  | ValueError
  | KeyError (k : string)
  | AttributeError
  | OverflowError.

#[export] Instance pyexn_eq_dec : EqDecision pyexn.
Proof. solve_decision. Defined.

(** ** Floats *)

Abbreviation pyfloat := spec_float.

#[export] Instance spec_float_eq_dec : EqDecision spec_float.
Proof. solve_decision. Defined.

Definition fmul (x y : pyfloat) : pyfloat := SFmul 53 1024 x y.
Definition flt (x y : pyfloat) : bool := SFltb x y.
Definition fle (x y : pyfloat) : bool := SFleb x y.
Definition fneg (x : pyfloat) : pyfloat := SFopp x.
Definition float_of_Z (z : Z) : pyfloat := binary_normalize 53 1024 z 0 false.
(** The literal [n / d], correctly rounded; decimal literals are written so. *)
Definition float_lit (n d : Z) : pyfloat :=
  SFdiv 53 1024 (float_of_Z n) (float_of_Z d).
Definition fzero : pyfloat := S754_zero false.
Definition finf : pyfloat := S754_infinity false.

Definition is_nan (x : pyfloat) : bool :=
  match x with S754_nan => true | _ => false end.

(** Truth value: every float but the zeros ([nan] included) is true. *)
Definition f_truthy (x : pyfloat) : bool :=
  match x with S754_zero _ => false | _ => true end.

(** [int(x)]: truncation toward zero. *)
Definition f_int (x : pyfloat) : res pyexn Z :=
  match x with
  | S754_zero _ => Ok 0%Z
  | S754_nan => Raise ValueError
  | S754_infinity _ => Raise OverflowError
  | S754_finite s m e =>
      let a := if (0 <=? e)%Z then Z.shiftl (Zpos m) e else Z.shiftr (Zpos m) (- e) in
      Ok (if s then - a else a)%Z
  end.

(** The order of floats other than [nan]: a lexicographic rank. *)
Definition f_rank (x : pyfloat) : Z * Z * Z :=
  match x with
  | S754_nan => (0, 0, 0)
  | S754_infinity s => if s then (-2, 0, 0) else (2, 0, 0)
  | S754_zero _ => (0, 0, 0)
  | S754_finite false m e => (1, e, Zpos m)
  | S754_finite true m e => (-1, - e, Zneg m)
  end%Z.

Definition rank_lt (a b : Z * Z * Z) : bool :=
  let '(a1, a2, a3) := a in
  let '(b1, b2, b3) := b in
  (a1 <? b1)%Z || ((a1 =? b1)%Z && ((a2 <? b2)%Z || ((a2 =? b2)%Z && (a3 <? b3)%Z))).

Lemma rank_lt_spec a b : rank_lt a b = true ↔
  (a.1.1 < b.1.1 ∨ a.1.1 = b.1.1 ∧ (a.1.2 < b.1.2 ∨ a.1.2 = b.1.2 ∧ a.2 < b.2))%Z.
Proof.
  destruct a as [[a1 a2] a3], b as [[b1 b2] b3]; cbn.
  rewrite !orb_true_iff, !andb_true_iff, !orb_true_iff, !andb_true_iff,
    !Z.ltb_lt, !Z.eqb_eq. done.
Qed.

Lemma flt_rank x y :
  is_nan x = false → is_nan y = false → flt x y = rank_lt (f_rank x) (f_rank y).
Proof.
  intros Hx Hy. apply eq_bool_prop_intro. rewrite !Is_true_true, rank_lt_spec.
  unfold flt, SFltb.
  destruct x as [[]|[]| |[] m e], y as [[]|[]| |[] m' e']; try done; cbn;
    try (split; [done|lia]); try (split; [lia|done]).
  - destruct (Z.compare_spec e e') as [->|He|He]; cbn; [|split; [done|lia]|split; [lia|done]].
    change (Pos.compare_cont Eq m m') with (Pos.compare m m').
    destruct (Pos.compare_spec m m') as [->|Hm|Hm]; cbn; split; (done || lia).
  - destruct (Z.compare_spec e e') as [->|He|He]; cbn; [|split; [lia|done]|split; [done|lia]].
    change (Pos.compare_cont Eq m m') with (Pos.compare m m').
    destruct (Pos.compare_spec m m') as [->|Hm|Hm]; cbn; split; (done || lia).
Qed.

Lemma flt_irrefl x : flt x x = false.
Proof.
  destruct (is_nan x) eqn:Hx; [by destruct x|].
  apply not_true_is_false. rewrite flt_rank, rank_lt_spec by done. lia.
Qed.

Lemma flt_trans x y z : flt x y = true → flt y z = true → flt x z = true.
Proof.
  destruct (is_nan x) eqn:Hx; [by destruct x|].
  destruct (is_nan y) eqn:Hy; [by destruct y, x as [| | |[]]|].
  destruct (is_nan z) eqn:Hz; [by destruct z, y as [| | |[]]|].
  rewrite !flt_rank, !rank_lt_spec by done. lia.
Qed.

Lemma flt_neg_trans x y z :
  is_nan y = false → flt x y = false → flt y z = false → flt x z = false.
Proof.
  intros Hy. destruct (is_nan x) eqn:Hx; [by destruct x|].
  destruct (is_nan z) eqn:Hz; [by destruct z, x as [| | |[]]|].
  rewrite <-!not_true_iff_false, !flt_rank, !rank_lt_spec by done. lia.
Qed.

(** ** Dictionaries

    [dset] is [d[k] = v]: it updates in place or appends, so iteration is in
    insertion order.  [dmerge d1 d2] is [{**d1, **d2}]. *)

Abbreviation dict A := (list (string * A)).

Section dict.
Context {A : Type}.
Implicit Types (d : dict A) (k : string) (v : A).

Fixpoint dget k d : option A :=
  match d with
  | [] => None
  | (k', v) :: d => if String.eqb k' k then Some v else dget k d
  end.

Definition dhas k d : bool := match dget k d with Some _ => true | None => false end.

Fixpoint dset k v d : dict A :=
  match d with
  | [] => [(k, v)]
  | (k', v') :: d => if String.eqb k' k then (k', v) :: d else (k', v') :: dset k v d
  end.

Definition dset_opt k (o : option A) d : dict A :=
  match o with Some v => dset k v d | None => d end.

Definition dmerge d1 d2 : dict A := foldl (λ d '(k, v), dset k v d) d1 d2.

Definition dkeys d : list string := d.*1.
Definition dvals d : list A := d.*2.

(** [{k: v for k, v in d.items() if k != key}] *)
Definition dwithout k d : dict A := List.filter (λ kv, negb (String.eqb kv.1 k)) d.

Lemma dget_dset k v d k' :
  dget k' (dset k v d) = if String.eqb k k' then Some v else dget k' d.
Proof.
  induction d as [|[j w] d IH]; cbn; [done|].
  destruct (String.eqb_spec j k) as [->|Hjk]; cbn; [by case_match|].
  rewrite IH. destruct (String.eqb_spec j k'), (String.eqb_spec k k'); congruence.
Qed.

Lemma dget_dset_eq k v d : dget k (dset k v d) = Some v.
Proof. by rewrite dget_dset, String.eqb_refl. Qed.

Lemma dget_dset_ne k k' v d : k ≠ k' → dget k' (dset k v d) = dget k' d.
Proof. intros Hk%String.eqb_neq. by rewrite dget_dset, Hk. Qed.

Lemma dget_Some_elem k v d : dget k d = Some v → (k, v) ∈ d.
Proof.
  induction d as [|[j w] d IH]; cbn; [done|].
  destruct (String.eqb_spec j k) as [->|]; [intros [= ->]; by left|intros; right; auto].
Qed.

Lemma dget_None_keys k d : dget k d = None ↔ k ∉ dkeys d.
Proof.
  unfold dkeys. induction d as [|[j w] d IH]; cbn.
  - split; [intros _ H; inversion H|done].
  - rewrite elem_of_cons. destruct (String.eqb_spec j k); naive_solver.
Qed.

Lemma dhas_false k d : dhas k d = false ↔ dget k d = None.
Proof. unfold dhas. by destruct (dget k d). Qed.

Lemma dhas_true k d : dhas k d = true ↔ is_Some (dget k d).
Proof. unfold dhas, is_Some. destruct (dget k d); naive_solver. Qed.

Lemma dkeys_dset k v d :
  dkeys (dset k v d) = if dhas k d then dkeys d else dkeys d ++ [k].
Proof.
  induction d as [|[j w] d IH]; cbn; [done|]. unfold dhas in *; cbn.
  destruct (String.eqb_spec j k); cbn; [done|]. unfold dkeys in *. cbn.
  rewrite IH. by case_match.
Qed.

Lemma NoDup_dkeys_dset k v d : NoDup (dkeys d) → NoDup (dkeys (dset k v d)).
Proof.
  intros Hd. rewrite dkeys_dset. destruct (dhas k d) eqn:Hk; [done|].
  apply NoDup_app. split_and!; [done| |by apply NoDup_singleton].
  intros x Hx ->%list_elem_of_singleton.
  by apply dhas_false, dget_None_keys in Hk.
Qed.

Lemma dget_app k d1 d2 :
  dget k (d1 ++ d2) = match dget k d1 with Some v => Some v | None => dget k d2 end.
Proof. induction d1 as [|[j w] d IH]; cbn; [done|]. by destruct (String.eqb j k). Qed.

Lemma dget_dmerge k d1 d2 :
  NoDup (dkeys d2) →
  dget k (dmerge d1 d2) = match dget k d2 with Some v => Some v | None => dget k d1 end.
Proof.
  unfold dmerge, dkeys. revert d1.
  induction d2 as [|[j w] d2 IH]; intros d1; cbn; [done|].
  intros [Hj Hd2]%NoDup_cons. rewrite IH by done.
  destruct (String.eqb_spec j k); subst.
  - apply dget_None_keys in Hj. unfold dkeys in Hj. by rewrite Hj, dget_dset_eq.
  - by rewrite dget_dset_ne by done.
Qed.

Lemma dget_dwithout k d k' :
  dget k' (dwithout k d) = if String.eqb k k' then None else dget k' d.
Proof.
  unfold dwithout. induction d as [|[j w] d IH]; cbn; [by case_match|].
  destruct (String.eqb_spec j k); cbn; rewrite IH;
    destruct (String.eqb_spec k k'), (String.eqb_spec j k'); congruence.
Qed.
End dict.

#[export] Hint Rewrite @dget_dset_eq @dget_dset_ne using done : dalston.

(** ** JSON values *)

Inductive json : Type :=
  | JNull
  | JBool (b : bool)
  | JInt (z : Z)
  | JFloat (f : pyfloat)
  | JStr (s : string)
  | JList (l : list json)
  | JObj (d : list (string * json)).

(** [bool(v)]. *)
Definition truthy (v : json) : bool :=
  match v with
  | JNull => false
  | JBool b => b
  | JInt z => negb (z =? 0)%Z
  | JFloat f => f_truthy f
  | JStr s => negb (String.eqb s EmptyString)
  | JList l => negb (length l =? 0)
  | JObj d => negb (length d =? 0)
  end.

(** [d.get(k)]: a missing key reads as [None]. *)
Definition jget (k : string) (d : dict json) : json := default JNull (dget k d).

(** [d.get(k, dflt)]. *)
Definition jget_or (k : string) (dflt : json) (d : dict json) : json :=
  default dflt (dget k d).

Definition is_null (v : json) : bool := match v with JNull => true | _ => false end.

(** [v == s] for a string [s]. *)
Definition jeq_str (v : json) (s : string) : bool :=
  match v with JStr s' => String.eqb s' s | _ => false end.

(** [v in {s1, ..., sn}] for a set of strings: unhashable values raise. *)
Definition jin_strs (v : json) (l : list string) : res pyexn bool :=
  match v with
  | JStr s => Ok (mem_str s l)
  | JList _ | JObj _ => Raise TypeError
  | _ => Ok false
  end.

(** [v > 0]. *)
Definition jpositive (v : json) : res pyexn bool :=
  match v with
  | JBool b => Ok b
  | JInt z => Ok (0 <? z)%Z
  | JFloat f => Ok (flt fzero f)
  | _ => Raise TypeError
  end.

(** [k in v] for a string [k]. *)
Definition json_has (k : string) (v : json) : res pyexn bool :=
  match v with
  | JObj d => Ok (dhas k d)
  | JList l => Ok (existsb (λ x, jeq_str x k) l)
  | JStr s => Ok (contains k s)
  | _ => Raise TypeError
  end.

(** [v[k]] for a string [k]. *)
Definition json_index (k : string) (v : json) : res pyexn json :=
  match v with
  | JObj d => match dget k d with Some x => Ok x | None => Raise (KeyError k) end
  | _ => Raise TypeError
  end.

(** [len(v)]; of a string, the bytes of its encoding. *)
Definition json_len (v : json) : res pyexn Z :=
  match v with
  | JObj d => Ok (Z.of_nat (length d))
  | JList l => Ok (Z.of_nat (length l))
  | JStr s => Ok (Z.of_nat (String.length s))
  | _ => Raise TypeError
  end.

(** [v.get(k, dflt)] *)
Definition json_get_or (k : string) (dflt v : json) : res pyexn json :=
  match v with JObj d => Ok (jget_or k dflt d) | _ => Raise AttributeError end.

Fixpoint str_chars (s : string) : list json :=
  match s with
  | EmptyString => []
  | String c s => JStr (String c EmptyString) :: str_chars s
  end.

(** [for x in v] *)
Definition json_iter (v : json) : res pyexn (list json) :=
  match v with
  | JList l => Ok l
  | JStr s => Ok (str_chars s)
  | JObj d => Ok (map JStr (dkeys d))
  | _ => Raise TypeError
  end.

Lemma jin_strs_true v l : jin_strs v l = Ok true ↔ ∃ s, v = JStr s ∧ s ∈ l.
Proof.
  setoid_rewrite <-mem_str_spec.
  destruct v; cbn; (split; [intros [=]; eauto|intros (s' & Hs & ?); congruence]).
Qed.

Lemma jget_dset_eq k v d : jget k (dset k v d) = v.
Proof. unfold jget. by rewrite dget_dset_eq. Qed.

Lemma jget_dset_ne k k' v d : k ≠ k' → jget k' (dset k v d) = jget k' d.
Proof. intros. unfold jget. by rewrite dget_dset_ne. Qed.
