(* ===== verification/Times.v ===== *)
(** * Times and words

    Floats used as seconds: the remaining arithmetic, Python's [min] and [max],
    and a decision procedure for their order ([forder]); texts as lists of
    words ([str.split], [str.join]); sorting by a pair of times. *)

From S2P Require Import Prelude PyValue.

Definition fadd (x y : pyfloat) : pyfloat := SFadd 53 1024 x y.
Definition fsub (x y : pyfloat) : pyfloat := SFsub 53 1024 x y.
Definition fdiv (x y : pyfloat) : pyfloat := SFdiv 53 1024 x y.
Definition feq (x y : pyfloat) : bool := SFeqb x y.

(** [min] and [max] of two arguments keep the first unless the second is
    strictly better. *)
Definition fmin (x y : pyfloat) : pyfloat := if flt y x then y else x.
Definition fmax (x y : pyfloat) : pyfloat := if flt x y then y else x.

(** ** The order of floats other than [nan] *)

Definition num (x : pyfloat) : Prop := is_nan x = false.

Definition rank : Type := Z * Z * Z.
Definition rlt (a b : rank) : Prop := rank_lt a b = true.
Definition rle (a b : rank) : Prop := ¬ rlt b a.

Lemma rlt_irrefl a : ¬ rlt a a.
Proof. unfold rlt. rewrite rank_lt_spec. lia. Qed.
Lemma rlt_trans a b c : rlt a b → rlt b c → rlt a c.
Proof. unfold rlt. rewrite !rank_lt_spec. lia. Qed.
Lemma rlt_rle_trans a b c : rlt a b → rle b c → rlt a c.
Proof. unfold rle, rlt. rewrite !rank_lt_spec. lia. Qed.
Lemma rle_rlt_trans a b c : rle a b → rlt b c → rlt a c.
Proof. unfold rle, rlt. rewrite !rank_lt_spec. lia. Qed.
Lemma rle_trans a b c : rle a b → rle b c → rle a c.
Proof. unfold rle, rlt. rewrite !rank_lt_spec. lia. Qed.
Lemma rle_refl a : rle a a.
Proof. apply rlt_irrefl. Qed.
Lemma rle_antisym a b : rle a b → rle b a → a = b.
Proof.
  unfold rle, rlt. rewrite !rank_lt_spec.
  destruct a as [[a1 a2] a3], b as [[b1 b2] b3]; cbn. intros. f_equal; [f_equal|]; lia.
Qed.
Lemma rlt_dec a b : rlt a b ∨ rle b a.
Proof. unfold rle, rlt. destruct (rank_lt a b); [by left|by right]. Qed.

(** Closes a goal that follows from [rlt] and [rle] facts by transitivity. *)
Ltac rank_absurd :=
  match goal with
  | H : rlt ?x ?x |- _ => destruct (rlt_irrefl x H)
  | H : rlt ?x ?y, K : rle ?y ?x |- _ => destruct (K H)
  | H : rlt ?x ?y, K : rlt ?y ?z |- _ =>
      lazymatch goal with _ : rlt x z |- _ => fail | _ => pose proof (rlt_trans x y z H K) end
  | H : rlt ?x ?y, K : rle ?y ?z |- _ =>
      lazymatch goal with _ : rlt x z |- _ => fail | _ => pose proof (rlt_rle_trans x y z H K) end
  | H : rle ?x ?y, K : rlt ?y ?z |- _ =>
      lazymatch goal with _ : rlt x z |- _ => fail | _ => pose proof (rle_rlt_trans x y z H K) end
  | H : rle ?x ?y, K : rle ?y ?z |- _ =>
      lazymatch goal with _ : rle x z |- _ => fail | _ =>
        lazymatch x with z => fail | _ => pose proof (rle_trans x y z H K) end end
  end.
Ltac rank_order :=
  intros; subst;
  repeat match goal with
         | H : f_rank ?x = f_rank ?x |- _ => clear H
         | H : f_rank _ = f_rank _ |- _ => rewrite H in *; clear H end;
  lazymatch goal with
  | |- rlt ?x ?y => destruct (rlt_dec x y) as [?|?]; [assumption|exfalso]
  | |- rle ?x ?y => intros ?
  | |- @eq _ _ _ => apply rle_antisym; intros ?
  | _ => exfalso
  end; solve [repeat rank_absurd].

Lemma flt_num x y : flt x y = true → num x ∧ num y.
Proof. unfold num. destruct x as [|[]| |], y as [|[]| |]; try done; cbn; by case_match. Qed.
Lemma fle_num x y : fle x y = true → num x ∧ num y.
Proof. unfold num. destruct x as [|[]| |], y as [|[]| |]; try done; cbn; by case_match. Qed.

Lemma flt_spec x y : num x → num y → flt x y = true ↔ rlt (f_rank x) (f_rank y).
Proof. intros Hx Hy. rewrite flt_rank by assumption. reflexivity. Qed.

Lemma flt_false x y : num x → num y → flt x y = false ↔ rle (f_rank y) (f_rank x).
Proof.
  intros Hx Hy. rewrite <-not_true_iff_false, flt_spec by assumption.
  done.
Qed.

Lemma fcompare_swap x y : num x → num y → SFcompare x y = CompOpp <$> SFcompare y x.
Proof.
  unfold num. destruct x as [[]|[]| |[] m e], y as [[]|[]| |[] m' e']; try done; cbn; intros _ _;
    rewrite (Z.compare_antisym e e');
    destruct (e ?= e')%Z; cbn; try done; f_equal;
    change (Pos.compare_cont Eq m m') with (Pos.compare m m');
    change (Pos.compare_cont Eq m' m) with (Pos.compare m' m);
    by rewrite (Pos.compare_antisym m m'), ?CompOpp_involutive.
Qed.

(** Comparable floats: [<=] is the negation of the reverse [<], and [==] the
    absence of both. *)
Lemma fle_flt x y : num x → num y → fle x y = negb (flt y x).
Proof.
  intros Hx Hy. unfold fle, flt, SFleb, SFltb. rewrite (fcompare_swap y x) by done.
  assert (SFcompare x y ≠ None) as Hc.
  { unfold num in *. destruct x as [[]|[]| |[]], y as [[]|[]| |[]]; try done; cbn; by case_match. }
  destruct (SFcompare x y) as [[]|]; done.
Qed.

Lemma feq_flt x y : num x → num y → feq x y = negb (flt x y) && negb (flt y x).
Proof.
  intros Hx Hy. unfold feq, flt, SFeqb, SFltb. rewrite (fcompare_swap y x) by done.
  assert (SFcompare x y ≠ None) as Hc.
  { unfold num in *. destruct x as [[]|[]| |[]], y as [[]|[]| |[]]; try done; cbn; by case_match. }
  destruct (SFcompare x y) as [[]|]; done.
Qed.

Lemma feq_num x y : feq x y = true → num x ∧ num y.
Proof. unfold num. destruct x as [|[]| |], y as [|[]| |]; try done; cbn; by case_match. Qed.

Lemma fle_spec x y : num x → num y → fle x y = true ↔ rle (f_rank x) (f_rank y).
Proof. intros. by rewrite fle_flt, negb_true_iff, flt_false. Qed.
Lemma fle_false x y : num x → num y → fle x y = false ↔ rlt (f_rank y) (f_rank x).
Proof. intros. by rewrite fle_flt, negb_false_iff, flt_spec. Qed.
Lemma feq_spec x y : num x → num y → feq x y = true ↔ f_rank x = f_rank y.
Proof.
  intros. rewrite feq_flt, andb_true_iff, !negb_true_iff, !flt_false by done.
  split; [intros []; rank_order|intros ->]. split; rank_order.
Qed.
Lemma feq_false x y : num x → num y → feq x y = false ↔ f_rank x ≠ f_rank y.
Proof. intros. by rewrite <-not_true_iff_false, feq_spec. Qed.

Lemma fmin_num x y : num x → num y → num (fmin x y).
Proof. unfold fmin. by case_match. Qed.
Lemma fmax_num x y : num x → num y → num (fmax x y).
Proof. unfold fmax. by case_match. Qed.
(** [max(0.0, x)] is a number, [nan] included. *)
Lemma fmax_num_l x y : num x → num (fmax x y).
Proof. intros Hx. unfold fmax. destruct (flt x y) eqn:H; [by apply flt_num in H as []|done]. Qed.
Lemma fmin_num_l x y : num x → num (fmin x y).
Proof. intros Hx. unfold fmin. destruct (flt y x) eqn:H; [by apply flt_num in H as []|done]. Qed.
Lemma fzero_num : num fzero.
Proof. done. Qed.
#[export] Hint Resolve fmin_num fmax_num fzero_num : num.

(** Side conditions [num x]. *)
Ltac num := first [assumption | solve [auto with num]].

(** Decides goals about [flt], [fle], [feq], [fmin] and [fmax] on numbers. *)
Ltac forder_split :=
  repeat match goal with
  | |- context [fmin ?x ?y] => unfold fmin; destruct (flt y x) eqn:?
  | |- context [fmax ?x ?y] => unfold fmax; destruct (flt x y) eqn:?
  | H : context [fmin ?x ?y] |- _ => unfold fmin in H; destruct (flt y x) eqn:?
  | H : context [fmax ?x ?y] |- _ => unfold fmax in H; destruct (flt x y) eqn:?
  end.
Ltac forder_hyps :=
  repeat match goal with
  | H : flt ?x ?y = true |- _ =>
      let N := fresh "N" in
      pose proof (flt_num x y H) as N; destruct N; apply flt_spec in H; [|assumption..]
  | H : fle ?x ?y = true |- _ =>
      let N := fresh "N" in
      pose proof (fle_num x y H) as N; destruct N; apply fle_spec in H; [|assumption..]
  | H : feq ?x ?y = true |- _ =>
      let N := fresh "N" in
      pose proof (feq_num x y H) as N; destruct N; apply feq_spec in H; [|assumption..]
  end;
  repeat match goal with
  | H : flt ?x ?y = false |- _ => apply flt_false in H; [|num..]
  | H : fle ?x ?y = false |- _ => apply fle_false in H; [|num..]
  | H : feq ?x ?y = false |- _ => apply feq_false in H; [|num..]
  end.
Ltac forder_goal :=
  lazymatch goal with
  | |- flt _ _ = true => apply flt_spec; [num..|]
  | |- fle _ _ = true => apply fle_spec; [num..|]
  | |- feq _ _ = true => apply feq_spec; [num..|]
  | |- flt _ _ = false => apply flt_false; [num..|]
  | |- fle _ _ = false => apply fle_false; [num..|]
  | |- False => idtac
  | _ => exfalso
  end.
Ltac forder :=
  intros; forder_split; first [discriminate | forder_hyps; forder_goal; rank_order].

Lemma fle_trans x y z : fle x y = true → fle y z = true → fle x z = true.
Proof. forder. Qed.
Lemma fle_refl x : num x → fle x x = true.
Proof. intros. apply fle_spec; [done..|apply rle_refl]. Qed.

(** ** Sorting by a pair of times *)

(** [a < b] on tuples of two floats. *)
Definition pair_lt (a b : pyfloat * pyfloat) : bool :=
  if feq a.1 b.1 then flt a.2 b.2 else flt a.1 b.1.

Definition num2 (a : pyfloat * pyfloat) : Prop := num a.1 ∧ num a.2.

Lemma pair_lt_irrefl a : pair_lt a a = false.
Proof. unfold pair_lt. rewrite !flt_irrefl. by case_match. Qed.

Lemma pair_lt_spec a b :
  pair_lt a b = true ↔ flt a.1 b.1 = true ∨ feq a.1 b.1 = true ∧ flt a.2 b.2 = true.
Proof.
  unfold pair_lt. destruct (feq a.1 b.1) eqn:He; split.
  - intros H. right. done.
  - intros [H|[_ H]]; [|done]. exfalso. forder.
  - intros H. left. done.
  - intros [H|[H _]]; done.
Qed.

Lemma pair_lt_trans a b c : pair_lt a b = true → pair_lt b c = true → pair_lt a c = true.
Proof.
  rewrite !pair_lt_spec. intros [H1|[H1 H1']] [H2|[H2 H2']].
  - left. forder.
  - left. forder.
  - left. forder.
  - right. split; forder.
Qed.

Lemma pair_lt_neg_trans a b c :
  num2 b → pair_lt a b = false → pair_lt b c = false → pair_lt a c = false.
Proof.
  intros [Hb1 Hb2]. rewrite <-!not_true_iff_false, !pair_lt_spec. intros H1 H2 [H|[H H']].
  - destruct (flt a.1 b.1) eqn:Hab; [naive_solver|]. apply H2. left. forder.
  - destruct (flt a.1 b.1) eqn:Hab; [naive_solver|].
    destruct (flt b.1 c.1) eqn:Hbc; [naive_solver|].
    destruct (flt a.2 b.2) eqn:Hab2.
    + apply H1. right. split; [forder|done].
    + apply H2. right. split; forder.
Qed.

(** Neither comes first: the first times are in order. *)
Lemma pair_lt_false_fst a b :
  num a.1 → num b.1 → pair_lt b a = false → fle a.1 b.1 = true.
Proof.
  intros Ha Hb H. destruct (flt b.1 a.1) eqn:Hlt; [|forder].
  assert (pair_lt b a = true) by (apply pair_lt_spec; by left). congruence.
Qed.

(** ** Texts as lists of words *)

(** [s.split()], with the word being read in [word]. *)
Fixpoint split_from (word s : string) : list string :=
  match s with
  | EmptyString => if String.eqb word EmptyString then [] else [word]
  | String c s =>
      if ascii_is_space c
      then (if String.eqb word EmptyString then [] else [word]) ++ split_from EmptyString s
      else split_from (word +:+ String c EmptyString) s
  end.
Definition py_split (s : string) : list string := split_from EmptyString s.

(** [" ".join(words)] *)
Definition join_words (words : list string) : string := String.concat " " words.

Definition rstrip (s : string) : string := String.rev (lstrip (String.rev s)).

Definition blank (s : string) : bool := String.eqb (strip s) EmptyString.

(** A word: not empty, without spaces. *)
Fixpoint no_space (s : string) : bool :=
  match s with
  | EmptyString => true
  | String c s => negb (ascii_is_space c) && no_space s
  end.
Definition is_word (s : string) : Prop := s ≠ EmptyString ∧ no_space s = true.

Lemma string_app_cons c s1 s2 : String c s1 +:+ s2 = String c (s1 +:+ s2).
Proof. done. Qed.
Lemma string_app_nil_r s : s +:+ "" = s.
Proof. induction s as [|c s IH]; [done|]. by rewrite string_app_cons, IH. Qed.

Lemma no_space_app s1 s2 : no_space (s1 +:+ s2) = no_space s1 && no_space s2.
Proof.
  induction s1 as [|c s1 IH]; [done|]. rewrite string_app_cons. cbn.
  by rewrite IH, andb_assoc.
Qed.

Lemma string_app_char w c s : (w +:+ String c EmptyString) +:+ s = w +:+ String c s.
Proof. induction w as [|d w IH]; [done|]. by rewrite !string_app_cons, IH. Qed.

Lemma split_from_word w1 w2 s :
  no_space w2 = true → split_from w1 (w2 +:+ s) = split_from (w1 +:+ w2) s.
Proof.
  revert w1. induction w2 as [|c w2 IH]; intros w1; cbn.
  - intros _. by rewrite string_app_nil_r.
  - intros [Hc Hw]%andb_true_iff. apply negb_true_iff in Hc.
    rewrite string_app_cons. cbn. rewrite Hc, IH by done. by rewrite string_app_char.
Qed.

Lemma split_from_words w s :
  no_space w = true → Forall is_word (split_from w s).
Proof.
  revert w. induction s as [|c s IH]; intros w Hw; cbn.
  - destruct (String.eqb_spec w ""); [constructor|by repeat constructor].
  - destruct (ascii_is_space c) eqn:Hc.
    + apply Forall_app. split; [|by apply IH].
      destruct (String.eqb_spec w ""); [constructor|by repeat constructor].
    + apply IH. rewrite no_space_app. cbn. by rewrite Hw, Hc.
Qed.

(** The words of a text, and a text of words. *)
Lemma py_split_words s : Forall is_word (py_split s).
Proof. by apply split_from_words. Qed.

Lemma py_split_join words : Forall is_word words → py_split (join_words words) = words.
Proof.
  unfold py_split, join_words.
  induction 1 as [|w words [Hne Hw] Hws IH]; [done|].
  assert (∀ s, w +:+ s = "" → w = "") as Happ by (by destruct w).
  destruct words as [|w' words].
  - cbn. rewrite <-(string_app_nil_r w) at 1. rewrite split_from_word by done.
    change ("" +:+ w) with w. cbn. destruct (String.eqb_spec w ""); done.
  - change (String.concat " " (w :: w' :: words)) with
      (w +:+ String " " (String.concat " " (w' :: words))).
    rewrite split_from_word by done. change ("" +:+ w) with w. cbn [split_from].
    change (ascii_is_space " ") with true. cbv iota. rewrite IH. destruct (String.eqb_spec w ""); done.
Qed.
