(* ===== verification/Floats.v ===== *)
(** * The size of floats

    What arithmetic on binary64 gives whatever it rounds: a mantissa below 2^53
    and an exponent of at least -1074, and of sums of non-negative numbers a
    number.  A strictly monotone sequence of such floats is finite: [fkey] counts
    them.  Loops on floats have a fuel of more rounds than there are floats
    ([iter_until], which stops early, so that they are executable all the same). *)

From S2P Require Import Prelude PyValue Times.

(** ** Loops with a binary fuel *)

Section iter_until.
Context {A B : Type} (f : A → A + B).

(** At most [p] rounds of [f], until it yields a result. *)
Fixpoint iter_until (p : positive) (a : A) : A + B :=
  match p with
  | xH => f a
  | xO p => match iter_until p a with inl a => iter_until p a | inr b => inr b end
  | xI p =>
      match f a with
      | inl a => match iter_until p a with inl a => iter_until p a | inr b => inr b end
      | inr b => inr b
      end
  end.

Lemma iter_until_inv (P : A → Prop) (Q : B → Prop) p a :
  (∀ a, P a → match f a with inl a' => P a' | inr b => Q b end) →
  P a → match iter_until p a with inl a' => P a' | inr b => Q b end.
Proof.
  intros Hf. revert a. induction p as [p IH|p IH|]; intros a Ha; cbn; [| |by apply Hf].
  - specialize (Hf a Ha). destruct (f a) as [a1|]; [|done].
    specialize (IH a1 Hf) as H1. destruct (iter_until p a1) as [a2|]; [by apply IH|done].
  - specialize (IH a Ha) as H1. destruct (iter_until p a) as [a2|]; [by apply IH|done].
Qed.

(** A measure that no state of the loop brings below zero bounds the rounds. *)
Lemma iter_until_ends (P : A → Prop) (m : A → Z) p a :
  (∀ a, P a → (0 ≤ m a)%Z) →
  (∀ a a', P a → f a = inl a' → P a' ∧ (m a' < m a)%Z) →
  P a → (m a < Zpos p)%Z → ∃ b, iter_until p a = inr b.
Proof.
  intros Hm Hf Ha Hp.
  assert (Hk : ∀ p a a', P a → iter_until p a = inl a' → P a' ∧ (m a' + Zpos p ≤ m a)%Z).
  { clear -Hf. induction p as [p IH|p IH|]; intros a a' Ha; cbn.
    - destruct (f a) as [a1|] eqn:H1; [|done].
      destruct (iter_until p a1) as [a2|] eqn:H2; [|done]. intros H3.
      apply Hf in H1 as [? ?]; [|done]. apply IH in H2 as [? ?]; [|done].
      apply IH in H3 as [? ?]; [|done]. split; [done|lia].
    - destruct (iter_until p a) as [a2|] eqn:H2; [|done]. intros H3.
      apply IH in H2 as [? ?]; [|done]. apply IH in H3 as [? ?]; [|done]. split; [done|lia].
    - intros H1%Hf; [|done]. destruct H1. split; [done|lia]. }
  destruct (iter_until p a) as [a'|b] eqn:Hr; [|by exists b].
  apply Hk in Hr as [Ha' ?]; [|done]. apply Hm in Ha'. lia.
Qed.
End iter_until.

(** ** Sizes *)

Definition sized (x : pyfloat) : Prop :=
  match x with S754_finite _ m e => (Zpos m < 2 ^ 53 ∧ -1074 ≤ e ∧ e ≤ 971)%Z | _ => True end.

Lemma digits2_pos_spec m : (2 ^ (Zpos (digits2_pos m) - 1) ≤ Zpos m < 2 ^ Zpos (digits2_pos m))%Z.
Proof.
  induction m as [m IH|m IH|]; [| |cbn; lia].
  all: cbn [digits2_pos]; rewrite Pos2Z.inj_succ.
  all: replace (Z.succ (Zpos (digits2_pos m)) - 1)%Z with (Z.succ (Zpos (digits2_pos m) - 1)) by lia.
  all: rewrite !Z.pow_succ_r by lia; lia.
Qed.

Lemma shr_1_m r : (0 ≤ shr_m r)%Z → shr_m (shr_1 r) = (shr_m r / 2)%Z.
Proof.
  destruct r as [[|[m|m|]|] ? ?]; cbn; intros; try done; try lia.
  - apply (Z.div_unique _ _ _ 1); lia.
  - apply (Z.div_unique _ _ _ 0); lia.
Qed.

Lemma iter_shr_m p r :
  (0 ≤ shr_m r)%Z → shr_m (iter_pos shr_1 p r) = (shr_m r / 2 ^ Zpos p)%Z.
Proof.
  revert r. induction p as [p IH|p IH|]; intros r Hr; cbn [iter_pos].
  - assert (H1 := shr_1_m r Hr).
    assert (0 ≤ shr_m (shr_1 r))%Z by (rewrite H1; apply Z.div_pos; lia).
    assert (H2 := IH (shr_1 r) ltac:(done)).
    assert (0 ≤ shr_m (iter_pos shr_1 p (shr_1 r)))%Z by (rewrite H2; apply Z.div_pos; lia).
    rewrite IH, H2, H1 by done. rewrite !Z.div_div by lia. f_equal.
    replace (Zpos (xI p)) with (1 + (Zpos p + Zpos p))%Z by lia.
    rewrite !Z.pow_add_r by lia. lia.
  - assert (H2 := IH r Hr).
    assert (0 ≤ shr_m (iter_pos shr_1 p r))%Z by (rewrite H2; apply Z.div_pos; lia).
    rewrite IH, H2 by done. rewrite !Z.div_div by lia. f_equal.
    replace (Zpos (xO p)) with (Zpos p + Zpos p)%Z by lia.
    rewrite !Z.pow_add_r by lia. lia.
  - rewrite shr_1_m by done. done.
Qed.

Lemma shr_fexp_size m e l :
  (0 ≤ m)%Z →
  let '(r, e') := shr_fexp 53 1024 m e l in (0 ≤ shr_m r < 2 ^ 53 ∧ -1074 ≤ e')%Z.
Proof.
  intros Hm. unfold shr_fexp. set (n := (fexp 53 1024 (Zdigits2 m + e) - e)%Z).
  assert (Hrec : shr_m (shr_record_of_loc m l) = m) by (by destruct l as [|[]]).
  assert (Hfexp : (fexp 53 1024 (Zdigits2 m + e) = Z.max (Zdigits2 m + e - 53) (-1074))%Z) by done.
  assert (Hdig : (m < 2 ^ Zdigits2 m ∧ 0 ≤ Zdigits2 m)%Z).
  { destruct m as [|m|m]; cbn [Zdigits2]; [done| |lia]. pose proof (digits2_pos_spec m). lia. }
  assert (Hsmall : (Zdigits2 m ≤ 53 → m < 2 ^ 53)%Z).
  { intros ?. enough (2 ^ Zdigits2 m ≤ 2 ^ 53)%Z by lia. apply Z.pow_le_mono_r; lia. }
  unfold shr. destruct n as [|p|p] eqn:Hn; subst n; rewrite ?Hrec; [lia| |lia].
  rewrite iter_shr_m by (rewrite Hrec; lia). rewrite Hrec.
  split; [|lia]. split; [apply Z.div_pos; lia|].
  apply Z.div_lt_upper_bound; [lia|]. rewrite <-Z.pow_add_r by lia.
  enough (2 ^ Zdigits2 m ≤ 2 ^ (Zpos p + 53))%Z by lia. apply Z.pow_le_mono_r; lia.
Qed.

(** Whatever is rounded, the result has the size of a float, and it is a number. *)
Lemma binary_round_aux_size s m e l :
  (0 ≤ m)%Z →
  sized (binary_round_aux 53 1024 s m e l) ∧ num (binary_round_aux 53 1024 s m e l).
Proof.
  intros Hm. unfold binary_round_aux. pose proof (shr_fexp_size m e l Hm) as H1.
  destruct (shr_fexp 53 1024 m e l) as [r e'].
  assert (Hn : (0 ≤ round_nearest_even (shr_m r) (loc_of_shr_record r))%Z).
  { unfold round_nearest_even. repeat case_match; lia. }
  pose proof (shr_fexp_size _ e' loc_Exact Hn) as H2.
  destruct (shr_fexp 53 1024 _ e' loc_Exact) as [r' e'']. destruct (shr_m r') as [|q|q]; [done| |lia].
  destruct (e'' <=? 1024 - 53)%Z eqn:He; [|done]. split; [|done]. cbn. lia.
Qed.

Lemma binary_normalize_size m e s :
  sized (binary_normalize 53 1024 m e s) ∧ num (binary_normalize 53 1024 m e s).
Proof.
  unfold binary_normalize, binary_round. destruct m as [|m|m]; [done| |];
    (destruct (shl_align _ _ _); by apply binary_round_aux_size).
Qed.

Lemma float_of_Z_size z : sized (float_of_Z z) ∧ num (float_of_Z z).
Proof. apply binary_normalize_size. Qed.

Lemma fadd_size x y : sized x → sized y → sized (fadd x y).
Proof.
  unfold fadd. destruct x as [[]|[]| |s m e], y as [[]|[]| |s' m' e']; try done.
  intros _ _. apply binary_normalize_size.
Qed.

Lemma fdiv_finite s m e s' m' e' :
  sized (fdiv (S754_finite s m e) (S754_finite s' m' e')) ∧
  num (fdiv (S754_finite s m e) (S754_finite s' m' e')).
Proof.
  unfold fdiv, SFdiv. destruct (SFdiv_core_binary _ _ _ _ _ _) as [[q eq] lq] eqn:Hq.
  apply binary_round_aux_size. unfold SFdiv_core_binary in Hq.
  set (m1 := match _ with Z0 => _ | Zpos _ => _ | Zneg _ => _ end) in Hq.
  assert (Hm1 : (0 ≤ m1)%Z).
  { subst m1. match goal with |- context [match ?x with Z0 => _ | Zpos _ => _ | Zneg _ => _ end] =>
      destruct x end; try apply Z.shiftl_nonneg; lia. }
  pose proof (Z_div_mod m1 (Zpos m') ltac:(lia)) as Hdiv.
  destruct (Z.div_eucl m1 (Zpos m')) as [q' r']. injection Hq as <- _ _.
  destruct Hdiv as [Heq Hr]. nia.
Qed.

Lemma fdiv_size x y : sized x → sized y → sized (fdiv x y).
Proof.
  destruct x as [[]|[]| |s m e], y as [[]|[]| |s' m' e']; try done.
  intros _ _. apply fdiv_finite.
Qed.

Lemma fmin_size x y : sized x → sized y → sized (fmin x y).
Proof. unfold fmin. by case_match. Qed.
Lemma fmax_size x y : sized x → sized y → sized (fmax x y).
Proof. unfold fmax. by case_match. Qed.

(** Sums of non-negative numbers are numbers. *)
Lemma fadd_num x y : fle fzero x = true → fle fzero y = true → num (fadd x y).
Proof.
  unfold fadd. destruct x as [[]|[]| |[] m e], y as [[]|[]| |[] m' e']; try done.
  intros _ _. apply binary_normalize_size.
Qed.

(** ** Counting *)

(** The position of a float among all of them. *)
Definition fkey (x : pyfloat) : Z :=
  match x with
  | S754_nan | S754_zero _ => 0
  | S754_infinity s => if s then - 2 ^ 65 else 2 ^ 65
  | S754_finite false m e => (e + 1075) * 2 ^ 53 + Zpos m
  | S754_finite true m e => - ((e + 1075) * 2 ^ 53 + Zpos m)
  end%Z.

(** More than there are floats. *)
Definition float_fuel : positive := 2 ^ 68.

Lemma fkey_bound x : sized x → (- 2 ^ 65 ≤ fkey x ≤ 2 ^ 65)%Z.
Proof. destruct x as [|[]| |[] m e]; cbn -[Z.pow]; lia. Qed.

Lemma fkey_lt x y : sized x → sized y → flt x y = true → (fkey x < fkey y)%Z.
Proof.
  intros Hx Hy Hlt. destruct (flt_num x y Hlt). apply flt_spec in Hlt; [|done..].
  unfold rlt in Hlt. apply rank_lt_spec in Hlt.
  destruct x as [|[]| |[] m e], y as [|[]| |[] m' e']; cbn -[Z.pow] in *; lia.
Qed.
