(* ===== verification/Magnitude.v ===== *)
(** * The magnitude of floats

    How far the rounding of binary64 moves a positive number: [mag], one more than the
    exponent of its highest bit, grows by at most one.  With the magnitude of a
    quotient this bounds what the code computes from numbers it has checked. *)

From S2P Require Import Prelude PyValue Times Floats.

Definition mag (m : positive) (e : Z) : Z := (Zpos (digits2_pos m) + e)%Z.

Lemma digits_unique m k : (2 ^ (k - 1) ≤ Zpos m < 2 ^ k)%Z → Zpos (digits2_pos m) = k.
Proof.
  intros [Hlo Hhi]. pose proof (digits2_pos_spec m) as [Hl Hh]. set (d := Zpos (digits2_pos m)) in *.
  assert (0 ≤ k)%Z by (destruct (Z.neg_nonneg_cases k); [rewrite Z.pow_neg_r in Hhi by done; lia|done]).
  destruct (Z.lt_trichotomy d k) as [Hlt|[?|Hlt]]; [|done|]; exfalso.
  - assert (2 ^ d ≤ 2 ^ (k - 1))%Z by (apply Z.pow_le_mono_r; lia). lia.
  - assert (2 ^ k ≤ 2 ^ (d - 1))%Z by (apply Z.pow_le_mono_r; lia). lia.
Qed.

(** Halving [p] times. *)
Lemma digits_shr m p :
  (Zpos p < Zpos (digits2_pos m))%Z →
  ∃ m', (Zpos m / 2 ^ Zpos p = Zpos m')%Z ∧ (Zpos (digits2_pos m') = Zpos (digits2_pos m) - Zpos p)%Z.
Proof.
  intros Hp. pose proof (digits2_pos_spec m) as [Hl Hh]. set (d := Zpos (digits2_pos m)) in *.
  assert (2 ^ (d - Zpos p - 1) ≤ Zpos m / 2 ^ Zpos p)%Z as Hlo.
  { apply Z.div_le_lower_bound; [lia|]. rewrite <- Z.pow_add_r by lia.
    by replace (Zpos p + (d - Zpos p - 1))%Z with (d - 1)%Z by lia. }
  assert (Zpos m / 2 ^ Zpos p < 2 ^ (d - Zpos p))%Z as Hhi.
  { apply Z.div_lt_upper_bound; [lia|]. rewrite <- Z.pow_add_r by lia.
    by replace (Zpos p + (d - Zpos p))%Z with d by lia. }
  assert (0 < 2 ^ (d - Zpos p - 1))%Z by (apply Z.pow_pos_nonneg; lia).
  destruct (Zpos m / 2 ^ Zpos p)%Z as [|m'|] eqn:Hq; [lia| |lia].
  exists m'. split; [done|]. by apply digits_unique.
Qed.

Lemma shr_fexp_mag m e l :
  (-1074 < mag m e)%Z →
  ∃ r m' e', shr_fexp 53 1024 (Zpos m) e l = (r, e') ∧ shr_m r = Zpos m' ∧ mag m' e' = mag m e ∧
    (e' ≤ Z.max e (Z.max (mag m e - 53) (-1074)))%Z.
Proof.
  intros Hm. unfold shr_fexp. set (n := (fexp 53 1024 (Zdigits2 (Zpos m) + e) - e)%Z).
  assert (shr_m (shr_record_of_loc (Zpos m) l) = Zpos m) as Hrec by (by destruct l as [|[]]).
  assert (n = Z.max (mag m e - 53) (-1074) - e)%Z as Hn by done. clearbody n. unfold mag in *.
  unfold shr. destruct n as [|p|p].
  1, 3: eexists _, m, e; split_and!; [done|done|done|lia].
  destruct (digits_shr m p) as (m' & Hq & Hd); [lia|].
  eexists _, m', (e + Zpos p)%Z. split_and!; [done| | |lia].
  - rewrite iter_shr_m by (rewrite Hrec; lia). by rewrite Hrec.
  - rewrite Hd. lia.
Qed.

Lemma digits_succ m : (Zpos (digits2_pos m) ≤ Zpos (digits2_pos (Pos.succ m)) ≤ Zpos (digits2_pos m) + 1)%Z.
Proof.
  induction m as [m IH|m IH|]; [change (Pos.succ m~1) with (Pos.succ m)~0%positive|
    change (Pos.succ m~0) with m~1%positive|done];
    cbn [digits2_pos]; rewrite !Pos2Z.inj_succ; lia.
Qed.

Lemma binary_round_aux_mag s m e l :
  (-1074 < mag m e ≤ 900)%Z → (e ≤ 900)%Z →
  ∃ m' e', binary_round_aux 53 1024 s (Zpos m) e l = S754_finite s m' e' ∧
    (mag m e ≤ mag m' e' ≤ mag m e + 1)%Z.
Proof.
  intros Hm He. unfold binary_round_aux.
  destruct (shr_fexp_mag m e l) as (r & m1 & e1 & -> & Hr & Hm1 & He1); [lia|]. rewrite Hr.
  assert (∃ m2, round_nearest_even (Zpos m1) (loc_of_shr_record r) = Zpos m2 ∧ (m2 = m1 ∨ m2 = Pos.succ m1))
    as (m2 & -> & Hm2).
  { unfold round_nearest_even. repeat case_match; eexists; (split; [reflexivity|]); lia. }
  assert (mag m1 e1 ≤ mag m2 e1 ≤ mag m1 e1 + 1)%Z as Hmag.
  { pose proof (digits_succ m1). unfold mag. destruct Hm2 as [->| ->]; lia. }
  destruct (shr_fexp_mag m2 e1 loc_Exact) as (r3 & m3 & e3 & -> & -> & Hm3 & He3); [lia|].
  destruct (Z.leb_spec e3 (1024 - 53)); [|lia]. exists m3, e3. split; [done|]. lia.
Qed.

Lemma digits_shl m p : Zpos (digits2_pos (Pos.iter xO m p)) = (Zpos (digits2_pos m) + Zpos p)%Z.
Proof.
  induction p as [|p IH] using Pos.peano_ind; [cbn; lia|]. rewrite Pos.iter_succ. cbn [digits2_pos].
  rewrite Pos2Z.inj_succ, IH. lia.
Qed.

Lemma float_of_Z_mag z :
  (0 < z < 2 ^ 900)%Z →
  ∃ m e, float_of_Z z = S754_finite false m e ∧ (Zdigits2 z ≤ mag m e ≤ Zdigits2 z + 1)%Z.
Proof.
  intros Hz. destruct z as [|z|]; [lia| |lia]. unfold float_of_Z, binary_normalize, binary_round.
  pose proof (digits2_pos_spec z) as [Hl _]. set (d := Zpos (digits2_pos z)) in *.
  assert (d - 1 < 900)%Z as Hd by (apply (Z.pow_lt_mono_r_iff 2); [lia..|]; lia).
  assert (fexp 53 1024 (d + 0) = d - 53)%Z as -> by (unfold fexp, SpecFloat.emin; lia).
  assert (mag z 0 = d) as Hz0 by (unfold mag; lia).
  unfold shl_align. destruct (d - 53 - 0)%Z as [|p|p] eqn:Hp.
  - destruct (binary_round_aux_mag false z 0 loc_Exact) as (m & e & -> & Hm); [lia|lia|].
    exists m, e. split; [done|]. change (Zdigits2 (Zpos z)) with d. lia.
  - destruct (binary_round_aux_mag false z 0 loc_Exact) as (m & e & -> & Hm); [lia|lia|].
    exists m, e. split; [done|]. change (Zdigits2 (Zpos z)) with d. lia.
  - assert (mag (Pos.iter xO z p) (d - 53) = d) as Hmag by (unfold mag; rewrite digits_shl; lia).
    destruct (binary_round_aux_mag false (Pos.iter xO z p) (d - 53) loc_Exact) as (m & e & -> & Hm); [lia|lia|].
    exists m, e. split; [done|]. change (Zdigits2 (Zpos z)) with d. lia.
Qed.

Lemma fdiv_mag s1 s2 m1 e1 m2 e2 :
  (-900 ≤ mag m1 e1 - mag m2 e2 ≤ 800)%Z →
  ∃ m e, fdiv (S754_finite s1 m1 e1) (S754_finite s2 m2 e2) = S754_finite (xorb s1 s2) m e ∧
    (mag m1 e1 - mag m2 e2 ≤ mag m e ≤ mag m1 e1 - mag m2 e2 + 2)%Z.
Proof.
  intros Hr. unfold fdiv, SFdiv, SFdiv_core_binary.
  change (Zdigits2 (Zpos m1) + e1 - (Zdigits2 (Zpos m2) + e2))%Z with (mag m1 e1 - mag m2 e2)%Z.
  set (k := (mag m1 e1 - mag m2 e2)%Z) in *.
  assert (fexp 53 1024 k = k - 53)%Z as -> by (unfold fexp, SpecFloat.emin; lia).
  set (e' := Z.min (k - 53) (e1 - e2)). set (s := (e1 - e2 - e')%Z).
  assert (0 ≤ s)%Z as Hs by lia.
  assert (match s with Z0 => Zpos m1 | Zpos _ => Z.shiftl (Zpos m1) s | Zneg _ => Z0 end =
    Zpos m1 * 2 ^ s)%Z as ->.
  { destruct s; [lia| |lia]. by rewrite Z.shiftl_mul_pow2. }
  pose proof (digits2_pos_spec m1) as [Hl1 Hh1]. pose proof (digits2_pos_spec m2) as [Hl2 Hh2].
  set (d1 := Zpos (digits2_pos m1)) in *. set (d2 := Zpos (digits2_pos m2)) in *.
  assert (k = d1 + e1 - (d2 + e2))%Z as Hk by done.
  set (j := (d1 + s - d2)%Z). assert (53 ≤ j)%Z as Hj by (unfold j, s, e'; lia).
  pose proof (Z_div_mod (Zpos m1 * 2 ^ s) (Zpos m2) ltac:(lia)) as Hdiv.
  destruct (Z.div_eucl (Zpos m1 * 2 ^ s) (Zpos m2)) as [q r]. destruct Hdiv as [Heq Hrem].
  assert (2 ^ (d1 - 1) * 2 ^ s = 2 ^ d2 * 2 ^ (j - 1))%Z as Hlo
    by (rewrite <- !Z.pow_add_r by lia; f_equal; lia).
  assert (2 ^ d1 * 2 ^ s = 2 ^ (d2 - 1) * 2 ^ (j + 1))%Z as Hhi
    by (rewrite <- !Z.pow_add_r by lia; f_equal; lia).
  assert (0 < 2 ^ s)%Z by (apply Z.pow_pos_nonneg; lia).
  assert (0 < 2 ^ (j - 1))%Z by (apply Z.pow_pos_nonneg; lia).
  assert (0 < 2 ^ (j + 1))%Z by (apply Z.pow_pos_nonneg; lia).
  assert (2 ^ (j - 1) ≤ q)%Z as Hql.
  { apply Z.lt_succ_r. destruct (Z.lt_ge_cases q (2 ^ (j - 1))) as [Hlt|]; [exfalso|lia].
    assert (Zpos m2 * q + r < Zpos m2 * 2 ^ (j - 1))%Z by nia. nia. }
  assert (q < 2 ^ (j + 1))%Z as Hqh.
  { destruct (Z.lt_ge_cases q (2 ^ (j + 1))) as [|Hge]; [done|exfalso].
    assert (Zpos m2 * 2 ^ (j + 1) ≤ Zpos m1 * 2 ^ s)%Z by nia. nia. }
  destruct q as [|q|q]; [lia| |lia].
  assert (j ≤ Zpos (digits2_pos q) ≤ j + 1)%Z as Hd.
  { pose proof (digits2_pos_spec q) as [Hl Hh]. split.
    - destruct (Z.lt_ge_cases (Zpos (digits2_pos q)) j); [exfalso|done].
      assert (2 ^ Zpos (digits2_pos q) ≤ 2 ^ (j - 1))%Z by (apply Z.pow_le_mono_r; lia). lia.
    - destruct (Z.lt_ge_cases (j + 1) (Zpos (digits2_pos q))); [exfalso|done].
      assert (2 ^ (j + 1) ≤ 2 ^ (Zpos (digits2_pos q) - 1))%Z by (apply Z.pow_le_mono_r; lia). lia. }
  assert (mag q e' = Zpos (digits2_pos q) + e')%Z as Hmag by done.
  assert (j + e' = k)%Z as Hjk by (unfold j, s; lia).
  destruct (binary_round_aux_mag (xorb s1 s2) q e' (new_location (Zpos m2) r)) as (m & e & -> & Hm); [lia|lia|].
  exists m, e. split; [done|]. lia.
Qed.

(** A float of at least one has an integer part. *)
Lemma f_int_mag m e : (1 ≤ mag m e)%Z → ∃ n, f_int (S754_finite false m e) = Ok n ∧ (0 < n)%Z.
Proof.
  intros Hm. cbn. destruct (Z.leb_spec 0 e); eexists; (split; [done|]).
  - rewrite Z.shiftl_mul_pow2 by done. assert (0 < 2 ^ e)%Z by (apply Z.pow_pos_nonneg; lia). lia.
  - rewrite Z.shiftr_div_pow2 by lia. apply Z.div_str_pos. split; [apply Z.pow_pos_nonneg; lia|].
    pose proof (digits2_pos_spec m) as [Hl _]. unfold mag in Hm.
    assert (2 ^ (- e) ≤ 2 ^ (Zpos (digits2_pos m) - 1))%Z by (apply Z.pow_le_mono_r; lia). lia.
Qed.
