(* ===== verification/Numeric.v ===== *)
(** * Numbers read and written as text

    The built-ins [float(v)], [round(x, 3)], [sum] of floats and the format
    [.1f], on values the program takes from JSON documents and request
    parameters. *)

From S2P Require Import Prelude PyValue Times.

(** ** Rounding to decimals *)

(** [n / d] to the nearest integer, ties to even. *)
Definition round_half_even (n d : Z) : Z :=
  let q := (n / d)%Z in
  let r := (n mod d)%Z in
  match (2 * r ?= d)%Z with
  | Lt => q
  | Gt => q + 1
  | Eq => if Z.even q then q else q + 1
  end%Z.

(** [m * 2^e * scale] to the nearest integer. *)
Definition scaled (m : positive) (e scale : Z) : Z :=
  if (0 <=? e)%Z then (Zpos m * 2 ^ e * scale)%Z
  else round_half_even (Zpos m * scale) (2 ^ (- e)).

(** [int(round(x))] *)
Definition round_int (x : pyfloat) : res pyexn Z :=
  match x with
  | S754_zero _ => Ok 0%Z
  | S754_nan => Raise ValueError
  | S754_infinity _ => Raise OverflowError
  | S754_finite s m e => Ok (if s then - scaled m e 1 else scaled m e 1)%Z
  end.

(** The float nearest to [n / d]; [s] is its sign. *)
Definition float_of_ratio (s : bool) (n d : Z) : pyfloat :=
  match n, d with
  | Zpos n, Zpos d => SFdiv 53 1024 (S754_finite s n 0) (S754_finite false d 0)
  | _, _ => S754_zero s
  end.

(** [round(x, 3)] of a float: the decimal of three places nearest to its exact
    value, as a float.  A float of exponent [-9] or more is its own rounding:
    its neighbours are further away than half a thousandth. *)
Definition round3 (x : pyfloat) : pyfloat :=
  match x with
  | S754_finite s m e =>
      if (-9 <=? e)%Z then x else float_of_ratio s (scaled m e 1000) 1000
  | _ => x
  end.

(** [round(v, 3)] of a JSON value. *)
Definition json_round3 (v : json) : res pyexn json :=
  match v with
  | JFloat f => Ok (JFloat (round3 f))
  | JInt z => Ok (JInt z)
  | JBool b => Ok (JInt (if b then 1 else 0))
  | _ => Raise TypeError
  end.

(** [f"{x:.1f}"] *)
Definition tenths (s : bool) (t : Z) : string :=
  (if s then "-" else "") +:+ str_Z (t / 10) +:+ "." +:+ str_Z (t mod 10).
Definition format_1f (x : pyfloat) : string :=
  match x with
  | S754_zero s => tenths s 0
  | S754_infinity s => if s then "-inf" else "inf"
  | S754_nan => "nan"
  | S754_finite s m e => tenths s (scaled m e 10)
  end.

(** ** Sums *)

Definition fabs (x : pyfloat) : pyfloat := SFabs x.
Definition is_finite (x : pyfloat) : bool :=
  match x with S754_zero _ | S754_finite _ _ _ => true | _ => false end.

(** One step of [sum] on floats: the running sum and its compensation. *)
Definition sum_step (acc : pyfloat * pyfloat) (x : pyfloat) : pyfloat * pyfloat :=
  let '(sum, c) := acc in
  let t := fadd sum x in
  (t, fadd c (if fle (fabs x) (fabs sum) then fadd (fsub sum t) x else fadd (fsub x t) sum)).

(** [sum(l)]; of no elements, the integer zero, here as a float. *)
Definition py_sum (l : list pyfloat) : pyfloat :=
  match l with
  | [] => fzero
  | x :: l =>
      let '(sum, c) := foldl sum_step (fadd fzero x, fzero) l in
      if f_truthy c && is_finite c then fadd sum c else sum
  end.

(** ** [float(s)] *)

Definition digit_value (c : ascii) : option Z :=
  let n := Ascii.nat_of_ascii c in
  if (48 <=? n) && (n <=? 57) then Some (Z.of_nat n - 48)%Z else None.

(** A run of digits, with single underscores between them: its value, the
    number of its digits and what follows. *)
Fixpoint digits (acc : Z) (n : nat) (l : list ascii) : Z * nat * list ascii :=
  match l with
  | [] => (acc, n, [])
  | c :: rest =>
      match digit_value c with
      | Some d => digits (acc * 10 + d) (S n) rest
      | None =>
          if Ascii.eqb c "_" && negb (n =? 0) &&
             match rest with c' :: _ => bool_decide (is_Some (digit_value c')) | [] => false end
          then digits acc n rest else (acc, n, l)
      end
  end.

(** The exponent, at the end of the text. *)
Definition exponent (l : list ascii) : option Z :=
  match l with
  | [] => Some 0%Z
  | c :: rest =>
      if Ascii.eqb c "e" || Ascii.eqb c "E" then
        let '(neg, rest) := match rest with
          | "-"%char :: r => (true, r)
          | "+"%char :: r => (false, r)
          | _ => (false, rest)
          end in
        match digits 0 0 rest with
        | (v, S _, []) => Some (if (neg : bool) then - v else v)%Z
        | _ => None
        end
      else None
  end.

(** [m * 10^k] *)
Definition decimal_float (s : bool) (m k : Z) : pyfloat :=
  if (0 <=? k)%Z then float_of_ratio s (m * 10 ^ k) 1 else float_of_ratio s m (10 ^ (- k)).

Definition unsigned_float (s : bool) (l : list ascii) : option pyfloat :=
  let '(ip, ni, rest) := digits 0 0 l in
  let '(m, nf, rest) := match rest with "."%char :: r => digits 0 0 r | _ => (0%Z, 0, rest) end in
  if ni + nf =? 0 then None
  else
    k ← exponent rest;
    Some (decimal_float s (ip * 10 ^ Z.of_nat nf + m) (k - Z.of_nat nf)).

Definition special_float (s : bool) (text : string) : option pyfloat :=
  if mem_str (lower text) ["inf"; "infinity"] then Some (S754_infinity s)
  else if String.eqb (lower text) "nan" then Some S754_nan else None.

(** The float a text denotes; [None] where [float] raises [ValueError]. *)
Definition float_of_string (text : string) : option pyfloat :=
  let l := String.list_ascii_of_string (strip text) in
  let '(s, l) := match l with
    | "-"%char :: r => (true, r)
    | "+"%char :: r => (false, r)
    | _ => (false, l)
    end in
  match special_float s (String.string_of_list_ascii l) with
  | Some f => Some f
  | None => unsigned_float s l
  end.

(** [float(v)] *)
Definition json_float (v : json) : res pyexn pyfloat :=
  match v with
  | JFloat f => Ok f
  | JInt z =>
      match float_of_Z z with
      | S754_infinity _ => Raise OverflowError
      | f => Ok f
      end
  | JBool b => Ok (float_of_Z (if b then 1 else 0))
  | JStr s => match float_of_string s with Some f => Ok f | None => Raise ValueError end
  | JNull | JList _ | JObj _ => Raise TypeError
  end.

Example float_of_string_ex :
  map float_of_string [" 1.5 "; "-2e-1"; "1_000"; "1__0"; ""; "-Inf"; ".5e+1"; "1e400"; "abc"] =
  [Some (float_lit 3 2); Some (float_lit (-1) 5); Some (float_of_Z 1000); None; None;
   Some (S754_infinity true); Some (float_of_Z 5); Some finf; None].
Proof. vm_compute. reflexivity. Qed.
Example rounding_ex :
  (round3 (float_lit 12345 10000), map format_1f [float_lit 5 100; float_lit 25 100; float_lit (-199) 100])
  = (float_lit 1234 1000, ["0.1"; "0.2"; "-2.0"]).
Proof. vm_compute. reflexivity. Qed.
Example sum_ex : py_sum (replicate 10 (float_lit 1 10)) = float_of_Z 1.
Proof. vm_compute. reflexivity. Qed.

(** ** Padded numbers *)

(** The number a text of digits denotes, [acc] being read already. *)
Fixpoint decode (acc : N) (s : string) : N :=
  match s with
  | EmptyString => acc
  | String c s => decode (acc * 10 + (Ascii.N_of_ascii c - 48)) s
  end.

Lemma decode_app acc s1 s2 : decode acc (s1 +:+ s2) = decode (decode acc s1) s2.
Proof.
  revert acc. induction s1 as [|c s1 IH]; intros acc; [done|].
  rewrite string_app_cons. cbn. apply IH.
Qed.

Lemma decode_char x : (x < 10)%N → (Ascii.N_of_ascii (pretty_N_char x) - 48 = x)%N.
Proof.
  intros Hx. destruct x as [|p]; [done|].
  do 4 (destruct p as [p|p|]; try done); lia.
Qed.

Lemma decode_pretty_N_go x s : decode 0 (pretty_N_go x s) = decode x s.
Proof.
  revert s. induction (N.lt_wf_0 x) as [x _ IH]. intros s.
  destruct (decide (x = 0)%N) as [->|Hx]; [by rewrite pretty_N_go_0|].
  rewrite pretty_N_go_step by lia. rewrite IH by (apply N.div_lt; lia). cbn.
  rewrite decode_char by (apply N.mod_lt; lia). f_equal.
  pose proof (N.div_mod x 10 ltac:(lia)). lia.
Qed.

Lemma decode_str_nat n : decode 0 (str_nat n) = N.of_nat n.
Proof.
  unfold str_nat, pretty, pretty_nat, pretty, pretty_N.
  case_decide as H; [by rewrite H|]. by rewrite decode_pretty_N_go.
Qed.

Lemma decode_zeros k : decode 0 (String.concat "" (replicate k "0")) = 0%N.
Proof.
  induction k as [|k IH]; [done|]. cbn [replicate]. destruct k as [|k]; [done|].
  change (String.concat "" ("0" :: replicate (S k) "0")) with
    ("0" +:+ "" +:+ String.concat "" (replicate (S k) "0")).
  rewrite !decode_app. exact IH.
Qed.

Lemma decode_padded w n : decode 0 (str_padded w n) = N.of_nat n.
Proof. unfold str_padded. by rewrite decode_app, decode_zeros, decode_str_nat. Qed.

#[export] Instance str_padded_inj w : Inj (=) (=) (str_padded w).
Proof. intros n m H. apply (f_equal (decode 0)) in H. rewrite !decode_padded in H. lia. Qed.
