(* ===== verification/ModelManager.v ===== *)
(** * The models an engine keeps in memory

    Models [dalston/engine_sdk/model_manager.py].  The manager's lock makes each
    operation atomic, so threads that use it at the same time are a sequence
    of its operations.  What [_load_model] answers, and when, are arguments. *)

From S2P Require Import Prelude PyValue.

Section manager.
Context {T : Type}.

(** ** State *)

Record LoadedModel := {
  lm_model_id : string;
  lm_model : T;
  lm_loaded_at : Z;
  lm_last_used_at : Z;
  lm_ref_count : Z;
  lm_size_bytes : option Z;
}.

(** The manager, with the models it has loaded and those it has unloaded since
    it was created. *)
Record ModelManager := {
  mm_ttl_seconds : Z;
  mm_max_loaded : Z;
  mm_models : dict LoadedModel;
  mm_loaded : list T;
  mm_unloaded : list T;
}.

Inductive manager_error : Type :=
  | NoneIdle (in_use : list (string * Z))
  | LoadFailed
  | KeyMissing.

Definition new_manager (ttl_seconds max_loaded : Z) : ModelManager := {|
  mm_ttl_seconds := ttl_seconds; mm_max_loaded := max_loaded; mm_models := [];
  mm_loaded := []; mm_unloaded := [] |}.

Definition set_models (d : dict LoadedModel) (m : ModelManager) : ModelManager := {|
  mm_ttl_seconds := mm_ttl_seconds m; mm_max_loaded := mm_max_loaded m; mm_models := d;
  mm_loaded := mm_loaded m; mm_unloaded := mm_unloaded m |}.

(** ** Operations *)

Definition touch (now : Z) (e : LoadedModel) : LoadedModel := {|
  lm_model_id := lm_model_id e; lm_model := lm_model e; lm_loaded_at := lm_loaded_at e;
  lm_last_used_at := now; lm_ref_count := lm_ref_count e; lm_size_bytes := lm_size_bytes e |}.

Definition set_ref_count (n : Z) (e : LoadedModel) : LoadedModel := {|
  lm_model_id := lm_model_id e; lm_model := lm_model e; lm_loaded_at := lm_loaded_at e;
  lm_last_used_at := lm_last_used_at e; lm_ref_count := n; lm_size_bytes := lm_size_bytes e |}.

Definition idle_seconds (now : Z) (e : LoadedModel) : Z := now - lm_last_used_at e.
Definition loaded_seconds (now : Z) (e : LoadedModel) : Z := now - lm_loaded_at e.

Definition is_loaded (model_id : string) (m : ModelManager) : bool := dhas model_id (mm_models m).
Definition loaded_models (m : ModelManager) : list string := dkeys (mm_models m).

Definition _evict (model_id : string) (m : ModelManager) : ModelManager :=
  match dget model_id (mm_models m) with
  | None => m
  | Some e => {|
      mm_ttl_seconds := mm_ttl_seconds m; mm_max_loaded := mm_max_loaded m;
      mm_models := dwithout model_id (mm_models m);
      mm_loaded := mm_loaded m; mm_unloaded := mm_unloaded m ++ [lm_model e] |}
  end.

(** [min(l, key=key)]: the first of the least. *)
Fixpoint min_by {A} (key : A → Z) (x : A) (l : list A) : A :=
  match l with
  | [] => x
  | y :: l => if (key y <? key x)%Z then min_by key y l else min_by key x l
  end.

Definition idle (kv : string * LoadedModel) : bool := (lm_ref_count kv.2 =? 0)%Z.

Definition _maybe_evict_for_capacity (m : ModelManager) : res manager_error ModelManager :=
  if (Z.of_nat (length (mm_models m)) <? mm_max_loaded m)%Z then Ok m
  else
    match List.filter idle (mm_models m) with
    | [] => Raise (NoneIdle (map (λ kv, (kv.1, lm_ref_count kv.2)) (mm_models m)))
    | c :: candidates =>
        let '(lru_id, _) := min_by (λ kv, lm_last_used_at kv.2) c candidates in
        Ok (_evict lru_id m)
    end.

(** [response]: what [_load_model] returns, [None] for an exception; [t]: the
    time when it does. *)
Definition _load_and_register (model_id : string) (response : option T) (t : Z) (m : ModelManager)
    : ModelManager * res manager_error () :=
  match response with
  | None => (m, Raise LoadFailed)
  | Some model =>
      let e := {| lm_model_id := model_id; lm_model := model; lm_loaded_at := t;
                  lm_last_used_at := t; lm_ref_count := 0; lm_size_bytes := None |} in
      ({| mm_ttl_seconds := mm_ttl_seconds m; mm_max_loaded := mm_max_loaded m;
          mm_models := dset model_id e (mm_models m);
          mm_loaded := mm_loaded m ++ [model]; mm_unloaded := mm_unloaded m |}, Ok ())
  end.

(** The end of [acquire]: [self._models[model_id]], counted and touched. *)
Definition take_reference (model_id : string) (now : Z) (m : ModelManager)
    : ModelManager * res manager_error T :=
  match dget model_id (mm_models m) with
  | Some e =>
      (set_models (dset model_id (touch now (set_ref_count (lm_ref_count e + 1) e)) (mm_models m)) m,
       Ok (lm_model e))
  | None => (m, Raise KeyMissing)
  end.

Definition acquire (model_id : string) (response : option T) (t now : Z) (m : ModelManager)
    : ModelManager * res manager_error T :=
  if is_loaded model_id m then take_reference model_id now m
  else
    match _maybe_evict_for_capacity m with
    | Raise e => (m, Raise e)
    | Ok m =>
        let '(m, r) := _load_and_register model_id response t m in
        match r with
        | Raise e => (m, Raise e)
        | Ok _ => take_reference model_id now m
        end
    end.

Definition release (model_id : string) (m : ModelManager) : ModelManager :=
  match dget model_id (mm_models m) with
  | Some e =>
      set_models (dset model_id (set_ref_count (Z.max 0 (lm_ref_count e - 1)) e) (mm_models m)) m
  | None => m
  end.

Definition expired (now : Z) (m : ModelManager) (kv : string * LoadedModel) : bool :=
  idle kv && (mm_ttl_seconds m <? now - lm_last_used_at kv.2)%Z.

Definition _evict_expired (now : Z) (m : ModelManager) : ModelManager :=
  foldl (λ m model_id, _evict model_id m) m (dkeys (List.filter (expired now m) (mm_models m))).

Definition shutdown (m : ModelManager) : ModelManager :=
  foldl (λ m model_id, _evict model_id m) m (dkeys (mm_models m)).

(** ** Threads that use the manager

    Each has the models it holds: it acquires one, uses what it got and releases
    it ([try: ... finally: release]).  [held] has an entry for every acquisition
    that is not yet released. *)

Inductive use : ModelManager * list (string * T) → ModelManager * list (string * T) → Prop :=
  | use_acquire m held model_id response t now m' model :
      (∀ x, response = Some x → x ∉ mm_loaded m) →
      acquire model_id response t now m = (m', Ok model) →
      use (m, held) (m', (model_id, model) :: held)
  | use_refused m held model_id response t now m' e :
      (∀ x, response = Some x → x ∉ mm_loaded m) →
      acquire model_id response t now m = (m', Raise e) →
      use (m, held) (m', held)
  | use_release m held1 model_id model held2 :
      use (m, held1 ++ (model_id, model) :: held2) (release model_id m, held1 ++ held2)
  | use_expire m held now : use (m, held) (_evict_expired now m, held).

Definition uses := rtc use.

(** ** Tables *)

Lemma dwithout_absent {A} k (d : dict A) : dget k d = None → dwithout k d = d.
Proof.
  unfold dwithout. induction d as [|[j w] d IH]; cbn; [done|].
  destruct (String.eqb j k); cbn; [done|]. intros Hd. by rewrite IH.
Qed.

Lemma dwithout_perm {A} k (v : A) d :
  NoDup (dkeys d) → dget k d = Some v → d ≡ₚ (k, v) :: dwithout k d.
Proof.
  unfold dkeys, dwithout. induction d as [|[j w] d IH]; cbn; [done|].
  intros [Hj Hnd]%NoDup_cons. destruct (String.eqb_spec j k) as [->|Hne]; cbn.
  - intros [= ->]. change (List.filter _ d) with (dwithout k d).
    by rewrite dwithout_absent by by apply dget_None_keys.
  - intros Hk. rewrite (IH Hnd Hk) at 1. apply perm_swap.
Qed.

Lemma dset_absent {A} k (v : A) d : dget k d = None → dset k v d = d ++ [(k, v)].
Proof.
  induction d as [|[j w] d IH]; cbn; [done|]. destruct (String.eqb j k); [done|].
  intros Hd. by rewrite IH.
Qed.

Lemma dset_perm {A} k (v w : A) d :
  NoDup (dkeys d) → dget k d = Some w → dset k v d ≡ₚ (k, v) :: dwithout k d.
Proof.
  intros Hnd Hk. rewrite (dwithout_perm k v (dset k v d)).
  - f_equiv. clear Hnd Hk. unfold dwithout. induction d as [|[j u] d IH]; cbn; [by rewrite String.eqb_refl|].
    destruct (String.eqb_spec j k) as [->|]; cbn; [by rewrite String.eqb_refl|].
    destruct (String.eqb_spec j k); [done|]. cbn. by rewrite IH.
  - by apply NoDup_dkeys_dset.
  - apply dget_dset_eq.
Qed.

Lemma dwithout_keys {A} k (d : dict A) j : j ∈ dkeys (dwithout k d) ↔ j ∈ dkeys d ∧ j ≠ k.
Proof.
  unfold dkeys. rewrite !list_elem_of_fmap. split.
  - intros ([j' v] & -> & Hin). apply elem_of_filter_b in Hin as [Hin Hne]. cbn in *.
    split; [by exists (j', v)|]. intros ->. by rewrite String.eqb_refl in Hne.
  - intros [([j' v] & -> & Hin) Hne]. exists (j', v). split; [done|]. apply elem_of_filter_b.
    split; [done|]. cbn. by destruct (String.eqb_spec j' k).
Qed.

Lemma NoDup_dwithout {A} k (d : dict A) : NoDup (dkeys d) → NoDup (dkeys (dwithout k d)).
Proof.
  unfold dkeys, dwithout. induction d as [|[j w] d IH]; cbn; [done|].
  intros [Hj Hnd]%NoDup_cons. destruct (String.eqb j k); cbn; [by apply IH|].
  apply NoDup_cons. split; [|by apply IH]. contradict Hj.
  by apply (dwithout_keys k d j) in Hj as [? _].
Qed.

Lemma min_by_spec {A} (key : A → Z) x l :
  min_by key x l ∈ x :: l ∧ ∀ y, y ∈ x :: l → (key (min_by key x l) <= key y)%Z.
Proof.
  revert x. induction l as [|y l IH]; intros x; cbn.
  - split; [by left|]. intros y ->%list_elem_of_singleton. lia.
  - destruct (Z.ltb_spec (key y) (key x)) as [Hlt|Hge].
    + destruct (IH y) as [Hin Hle]. split; [by right|]. intros z [->|Hz]%elem_of_cons; [|by apply Hle].
      assert (key (min_by key y l) <= key y)%Z by (apply Hle; by left). lia.
    + destruct (IH x) as [Hin Hle]. split.
      * apply elem_of_cons in Hin as [->|Hin]; [by left|by right; right].
      * intros z [->|[->|Hz]%elem_of_cons]%elem_of_cons; [apply Hle; by left| |apply Hle; by right].
        assert (key (min_by key x l) <= key x)%Z by (apply Hle; by left). lia.
Qed.

(** ** The invariant *)

Definition holders (model_id : string) (held : list (string * T)) : nat :=
  length (List.filter (λ h, String.eqb h.1 model_id) held).

Definition models_of (d : dict LoadedModel) : list T := map (λ kv, lm_model kv.2) d.

Record manager_ok (m : ModelManager) (held : list (string * T)) : Prop := {
  mo_keys : NoDup (dkeys (mm_models m));
  mo_counts : ∀ id e, dget id (mm_models m) = Some e → lm_ref_count e = Z.of_nat (holders id held);
  mo_held : ∀ id x, (id, x) ∈ held → ∃ e, dget id (mm_models m) = Some e ∧ lm_model e = x;
  mo_accounted : models_of (mm_models m) ++ mm_unloaded m ≡ₚ mm_loaded m;
  mo_loaded : NoDup (mm_loaded m);
  mo_size : (Z.of_nat (length (mm_models m)) <= Z.max 0 (mm_max_loaded m))%Z;
}.

Lemma holders_zero id held x : holders id held = 0 → (id, x) ∉ held.
Proof.
  unfold holders. intros Hz Hin.
  assert ((id, x) ∈ List.filter (λ h, String.eqb h.1 id) held) as Hf
    by (apply elem_of_filter_b; cbn; by rewrite String.eqb_refl).
  destruct (List.filter _ held); [by apply elem_of_nil in Hf|done].
Qed.

Lemma evict_ok id m held :
  manager_ok m held → holders id held = 0 → manager_ok (_evict id m) held.
Proof.
  intros [Hk Hc Hh Ha Hl Hs] Hz. unfold _evict.
  destruct (dget id (mm_models m)) as [e|] eqn:He; [|done].
  pose proof (dwithout_perm _ _ _ Hk He) as Hp. split; cbn.
  - by apply NoDup_dwithout.
  - intros id' e'. rewrite dget_dwithout. destruct (String.eqb id id'); [done|]. apply Hc.
  - intros id' x Hin. rewrite dget_dwithout. destruct (String.eqb_spec id id') as [<-|]; [|by apply Hh].
    by apply (holders_zero _ _ x) in Hz.
  - rewrite <- Ha. rewrite Permutation_app_comm, <- app_assoc. cbn.
    rewrite Permutation_app_comm. cbn. unfold models_of. rewrite (Permutation_map _ Hp). cbn. done.
  - done.
  - rewrite Hp in Hs. cbn in Hs. lia.
Qed.

Lemma elem_dget {A} k (v : A) d : NoDup (dkeys d) → (k, v) ∈ d → dget k d = Some v.
Proof.
  unfold dkeys. induction d as [|[j w] d IH]; cbn; [by intros _ ?%elem_of_nil|].
  intros [Hj Hnd]%NoDup_cons [[= -> ->]|Hin]%elem_of_cons; [by rewrite String.eqb_refl|].
  destruct (String.eqb_spec j k) as [->|]; [|by apply IH].
  exfalso. apply Hj, list_elem_of_fmap. by exists (k, v).
Qed.

Lemma idle_holders m held id e :
  manager_ok m held → (id, e) ∈ mm_models m → idle (id, e) = true → holders id held = 0.
Proof.
  intros Hm Hin Hidle. apply elem_dget in Hin; [|apply Hm].
  apply (mo_counts _ _ Hm) in Hin. unfold idle in Hidle. cbn in Hidle. lia.
Qed.

Lemma evict_all_ok ids m held :
  manager_ok m held → (∀ id, id ∈ ids → holders id held = 0) →
  manager_ok (foldl (λ m id, _evict id m) m ids) held.
Proof.
  revert m. induction ids as [|id ids IH]; intros m Hm Hids; [done|]. cbn.
  apply IH; [apply evict_ok; [done|apply Hids; by left]|]. intros id' Hin. apply Hids. by right.
Qed.

Lemma expire_ok now m held : manager_ok m held → manager_ok (_evict_expired now m) held.
Proof.
  intros Hm. apply evict_all_ok; [done|]. intros id ([id' e] & -> & Hin)%list_elem_of_fmap.
  apply elem_of_filter_b in Hin as [Hin Hexp]. apply andb_true_iff in Hexp as [Hidle _].
  by eapply idle_holders.
Qed.

(** The least recently used of the idle models. *)
Definition lru (m : ModelManager) (kv : string * LoadedModel) : Prop :=
  kv ∈ mm_models m ∧ idle kv = true ∧
  ∀ kv', kv' ∈ mm_models m → idle kv' = true → (lm_last_used_at kv.2 <= lm_last_used_at kv'.2)%Z.

Lemma capacity_outcome m :
  match _maybe_evict_for_capacity m with
  | Ok m' =>
      (Z.of_nat (length (mm_models m)) < mm_max_loaded m)%Z ∧ m' = m ∨
      (mm_max_loaded m <= Z.of_nat (length (mm_models m)))%Z ∧ ∃ kv, lru m kv ∧ m' = _evict kv.1 m
  | Raise e =>
      (mm_max_loaded m <= Z.of_nat (length (mm_models m)))%Z ∧
      (∀ kv, kv ∈ mm_models m → idle kv = false) ∧
      e = NoneIdle (map (λ kv, (kv.1, lm_ref_count kv.2)) (mm_models m))
  end.
Proof.
  unfold _maybe_evict_for_capacity. destruct (Z.ltb_spec (Z.of_nat (length (mm_models m))) (mm_max_loaded m));
    [by left|].
  destruct (List.filter idle (mm_models m)) as [|c l] eqn:Hf.
  - split; [done|]. split; [|done]. intros kv Hin. destruct (idle kv) eqn:Hidle; [|done].
    assert (kv ∈ List.filter idle (mm_models m)) as Hc by by apply elem_of_filter_b.
    rewrite Hf in Hc. by apply elem_of_nil in Hc.
  - destruct (min_by_spec (λ kv, lm_last_used_at kv.2) c l) as [Hin Hle].
    destruct (min_by _ c l) as [id e]. right. split; [done|]. exists (id, e). split; [|done].
    rewrite <- Hf in Hin. apply elem_of_filter_b in Hin as [Hin Hidle].
    split_and!; try done. intros kv' Hin' Hidle'. apply Hle. rewrite <- Hf. by apply elem_of_filter_b.
Qed.

Lemma evict_elem id e m :
  NoDup (dkeys (mm_models m)) → dget id (mm_models m) = Some e →
  _evict id m = {|
    mm_ttl_seconds := mm_ttl_seconds m; mm_max_loaded := mm_max_loaded m;
    mm_models := dwithout id (mm_models m); mm_loaded := mm_loaded m;
    mm_unloaded := mm_unloaded m ++ [lm_model e] |} ∧
  S (length (dwithout id (mm_models m))) = length (mm_models m).
Proof.
  intros Hnd He. unfold _evict. rewrite He. split; [done|].
  by rewrite (dwithout_perm _ _ _ Hnd He) at 2.
Qed.

Lemma capacity_ok m m' held :
  manager_ok m held → _maybe_evict_for_capacity m = Ok m' →
  manager_ok m' held ∧ (Z.of_nat (length (mm_models m')) < mm_max_loaded m')%Z ∧
  mm_loaded m' = mm_loaded m ∧ ∀ id, dget id (mm_models m) = None → dget id (mm_models m') = None.
Proof.
  intros Hm He. pose proof (capacity_outcome m) as Ho. rewrite He in Ho.
  destruct Ho as [[Hlt ->]|(Hge & [id e] & (Hin & Hidle & _) & ->)]; [done|]. cbn [fst].
  pose proof (elem_dget _ _ _ (mo_keys _ _ Hm) Hin) as Hget.
  destruct (evict_elem _ _ _ (mo_keys _ _ Hm) Hget) as [Heq Hlen].
  split; [by apply evict_ok; [|eapply idle_holders]|]. rewrite Heq. cbn.
  pose proof (mo_size _ _ Hm). split; [lia|]. split; [done|]. intros id' Hn.
  rewrite dget_dwithout, Hn. by case_match.
Qed.

Lemma not_held m held id : manager_ok m held → dget id (mm_models m) = None → holders id held = 0.
Proof.
  intros Hm Hn. unfold holders. destruct (List.filter _ held) as [|[id' x] l] eqn:Hf; [done|].
  assert ((id', x) ∈ List.filter (λ h, String.eqb h.1 id) held) as Hin by (rewrite Hf; by left).
  apply elem_of_filter_b in Hin as [Hin Heq]. cbn in Heq. apply String.eqb_eq in Heq as ->.
  apply (mo_held _ _ Hm) in Hin as (e & He & _). congruence.
Qed.

Lemma load_ok id x t m held :
  manager_ok m held → dget id (mm_models m) = None →
  (Z.of_nat (length (mm_models m)) < mm_max_loaded m)%Z → x ∉ mm_loaded m →
  manager_ok (_load_and_register id (Some x) t m).1 held.
Proof.
  intros Hm Hn Hlt Hx. pose proof (not_held _ _ _ Hm Hn) as Hz. destruct Hm as [Hk Hc Hh Ha Hl Hs].
  split; cbn.
  - by apply NoDup_dkeys_dset.
  - intros id' e. rewrite dget_dset. destruct (String.eqb_spec id id') as [<-|]; [|apply Hc].
    intros [= <-]. cbn. lia.
  - intros id' y Hin. destruct (Hh _ _ Hin) as (e & He & <-). rewrite dget_dset.
    destruct (String.eqb_spec id id') as [<-|]; [congruence|by eauto].
  - rewrite dset_absent by done. unfold models_of. rewrite map_app. cbn. rewrite <- Ha.
    unfold models_of. solve_Permutation.
  - apply NoDup_app. split; [done|]. split; [|apply NoDup_singleton]. by intros y Hy ->%list_elem_of_singleton.
  - rewrite dset_absent, length_app by done. cbn. lia.
Qed.

Lemma models_of_update id e e' d :
  NoDup (dkeys d) → dget id d = Some e → lm_model e' = lm_model e →
  models_of (dset id e' d) ≡ₚ models_of d ∧ length (dset id e' d) = length d.
Proof.
  intros Hnd He Hm. pose proof (dwithout_perm _ _ _ Hnd He) as Hp.
  pose proof (dset_perm id e' e d Hnd He) as Hp'. split.
  - unfold models_of. rewrite (Permutation_map _ Hp'), (Permutation_map _ Hp). cbn. by rewrite Hm.
  - apply Permutation_length in Hp, Hp'. cbn in *. lia.
Qed.

(** An entry whose count changes with its holders. *)
Lemma update_ok id e e' m held held' :
  manager_ok m held → dget id (mm_models m) = Some e → lm_model e' = lm_model e →
  lm_ref_count e' = Z.of_nat (holders id held') →
  (∀ id', id' ≠ id → holders id' held' = holders id' held) →
  (∀ id' x, (id', x) ∈ held' → (id', x) ∈ held ∨ (id' = id ∧ x = lm_model e)) →
  manager_ok (set_models (dset id e' (mm_models m)) m) held'.
Proof.
  intros [Hk Hc Hh Ha Hl Hs] He Hme Hre Hother Hheld.
  destruct (models_of_update id e e' (mm_models m) Hk He Hme) as [Hp Hlen]. split; cbn.
  - by apply NoDup_dkeys_dset.
  - intros id' e0. rewrite dget_dset. destruct (String.eqb_spec id id') as [<-|Hne].
    + by intros [= <-].
    + rewrite Hother by done. apply Hc.
  - intros id' x Hin. rewrite dget_dset. destruct (String.eqb_spec id id') as [<-|Hne].
    + exists e'. split; [done|]. rewrite Hme. destruct (Hheld _ _ Hin) as [Hin'|[_ ->]]; [|done].
      destruct (Hh _ _ Hin') as (e0 & He0 & <-). congruence.
    + destruct (Hheld _ _ Hin) as [?|[-> _]]; [by apply Hh|done].
  - by rewrite Hp.
  - done.
  - by rewrite Hlen.
Qed.

Lemma take_ok id now m held :
  manager_ok m held →
  match take_reference id now m with
  | (m', Ok x) => manager_ok m' ((id, x) :: held)
  | (m', Raise e) => m' = m ∧ dget id (mm_models m) = None
  end.
Proof.
  intros Hm. unfold take_reference. destruct (dget id (mm_models m)) as [e|] eqn:He; [|done].
  eapply update_ok; [done|exact He|done| | |].
  - cbn. unfold holders. cbn. rewrite String.eqb_refl. cbn.
    pose proof (mo_counts _ _ Hm _ _ He) as Hc. unfold holders in Hc. lia.
  - intros id' Hne. unfold holders. cbn. by destruct (String.eqb_spec id id').
  - intros id' x [[= -> ->]|?]%elem_of_cons; [by right|by left].
Qed.

Lemma manager_release_ok id x m held1 held2 :
  manager_ok m (held1 ++ (id, x) :: held2) → manager_ok (release id m) (held1 ++ held2).
Proof.
  intros Hm. assert ((id, x) ∈ held1 ++ (id, x) :: held2) as Hin by (apply elem_of_app; right; by left).
  destruct (mo_held _ _ Hm _ _ Hin) as (e & He & <-). unfold release. rewrite He.
  assert (∀ id', holders id' (held1 ++ (id, lm_model e) :: held2) =
            holders id' (held1 ++ held2) + if String.eqb id id' then 1 else 0) as Hholders.
  { intros id'. unfold holders. rewrite !List.filter_app, !length_app. cbn.
    destruct (String.eqb id id'); cbn; lia. }
  eapply update_ok; [done|exact He|done| | |].
  - cbn. rewrite (mo_counts _ _ Hm _ _ He), Hholders, String.eqb_refl. lia.
  - intros id' Hne. rewrite Hholders. destruct (String.eqb_spec id id'); [done|lia].
  - intros id' y Hy. left. set_solver.
Qed.

Lemma manager_acquire_ok id response t now m held :
  manager_ok m held → (∀ x, response = Some x → x ∉ mm_loaded m) →
  match acquire id response t now m with
  | (m', Ok x) => manager_ok m' ((id, x) :: held)
  | (m', Raise e) => manager_ok m' held ∧ e ≠ KeyMissing
  end.
Proof.
  intros Hm Hfresh. unfold acquire. destruct (is_loaded id m) eqn:Hl.
  - pose proof (take_ok id now m held Hm) as Ht. apply dhas_true in Hl as [e He].
    unfold take_reference in *. by rewrite He in *.
  - apply dhas_false in Hl. destruct (_maybe_evict_for_capacity m) as [m1|e] eqn:Hcap.
    + destruct (capacity_ok _ _ _ Hm Hcap) as (Hm1 & Hlt & Hld & Hnone).
      destruct response as [x|]; cbn; [|done].
      pose proof (load_ok id x t m1 held Hm1 (Hnone _ Hl) Hlt) as Hload. cbn in Hload.
      rewrite Hld in Hload at 1. specialize (Hload (Hfresh _ eq_refl)).
      apply (take_ok id now) in Hload. revert Hload. unfold take_reference. cbn.
      by rewrite dget_dset_eq.
    + split; [done|]. pose proof (capacity_outcome m) as Ho. rewrite Hcap in Ho.
      by destruct Ho as (_ & _ & ->).
Qed.

Lemma use_ok x y : use x y → manager_ok x.1 x.2 → manager_ok y.1 y.2.
Proof.
  intros Hu Hm. destruct Hu as [m held id r t now m' x Hf Ha|m held id r t now m' e Hf Ha|m h1 id x h2|m held now];
    cbn in *.
  - pose proof (manager_acquire_ok id r t now m held Hm Hf) as Ho. by rewrite Ha in Ho.
  - pose proof (manager_acquire_ok id r t now m held Hm Hf) as Ho. rewrite Ha in Ho. by destruct Ho.
  - by eapply manager_release_ok.
  - by apply expire_ok.
Qed.

Lemma evict_max id m : mm_max_loaded (_evict id m) = mm_max_loaded m.
Proof. unfold _evict. by destruct (dget id (mm_models m)). Qed.

Lemma evict_all_max ids m : mm_max_loaded (foldl (λ m id, _evict id m) m ids) = mm_max_loaded m.
Proof. revert m. induction ids as [|id ids IH]; intros m; [done|]. cbn. by rewrite IH, evict_max. Qed.

Lemma acquire_max id r t now m : mm_max_loaded (acquire id r t now m).1 = mm_max_loaded m.
Proof.
  assert (∀ m', mm_max_loaded (take_reference id now m').1 = mm_max_loaded m') as Htake.
  { intros m'. unfold take_reference. by destruct (dget id (mm_models m')). }
  unfold acquire. destruct (is_loaded id m); [done|].
  destruct (_maybe_evict_for_capacity m) as [m1|] eqn:Hc; [|done].
  assert (mm_max_loaded m1 = mm_max_loaded m) as <-.
  { pose proof (capacity_outcome m) as Ho. rewrite Hc in Ho.
    destruct Ho as [[_ ->]|(_ & kv & _ & ->)]; [done|apply evict_max]. }
  destruct r; cbn -[take_reference]; [by rewrite Htake|done].
Qed.

Lemma use_max x y : use x y → mm_max_loaded y.1 = mm_max_loaded x.1.
Proof.
  intros [m held id r t now m' x0 _ Ha|m held id r t now m' e _ Ha|m h1 id x0 h2|m held now]; cbn.
  - by rewrite <- (acquire_max id r t now m), Ha.
  - by rewrite <- (acquire_max id r t now m), Ha.
  - unfold release. by destruct (dget id (mm_models m)).
  - apply evict_all_max.
Qed.

Lemma new_manager_ok ttl n : manager_ok (new_manager ttl n) [].
Proof.
  split; cbn; try done; try constructor; [|lia]. by intros id x ?%elem_of_nil.
Qed.

(** C35: However threads acquire and release models, while others expire, every model in use is
    loaded, with a reference for each of its users, and has not been unloaded; there are never
    more models in memory than allowed; and each model that was loaded is either in memory or
    was unloaded, once. *)
Theorem models_in_use ttl max_loaded m held :
  uses (new_manager ttl max_loaded, []) (m, held) →
  (∀ id x, (id, x) ∈ held → x ∉ mm_unloaded m ∧ ∃ e, dget id (mm_models m) = Some e ∧
     lm_model e = x ∧ lm_ref_count e = Z.of_nat (holders id held)) ∧
  (Z.of_nat (length (mm_models m)) <= Z.max 0 max_loaded)%Z ∧
  models_of (mm_models m) ++ mm_unloaded m ≡ₚ mm_loaded m ∧ NoDup (mm_loaded m).
Proof.
  intros Huses.
  assert (∀ x y, uses x y → manager_ok x.1 x.2 → manager_ok y.1 y.2 ∧
            mm_max_loaded y.1 = mm_max_loaded x.1) as Hinv.
  { clear. intros x y Hxy. induction Hxy as [x|x y z Hu _ IH]; [done|]. intros Hx.
    destruct (IH (use_ok _ _ Hu Hx)) as [Hz Heq]. split; [done|]. rewrite Heq. by apply use_max. }
  destruct (Hinv _ _ Huses (new_manager_ok _ _)) as [Hm Hmax]. cbn [fst snd] in *.
  cbn in Hmax. rewrite <- Hmax. destruct Hm as [Hk Hc Hh Ha Hl Hs]. split_and!; try done.
  intros id x Hin. destruct (Hh _ _ Hin) as (e & He & <-). split; [|by eauto].
  intros Hu. rewrite <- Ha in Hl. apply NoDup_app in Hl as (_ & Hl & _). eapply Hl; [|exact Hu].
  apply list_elem_of_In, in_map_iff. exists (id, e). split; [done|]. by apply list_elem_of_In, dget_Some_elem.
Qed.

(** Acquiring a model that is not in memory, when no more may be loaded, unloads the least
    recently used of the models that nobody uses and puts the new one in its place, with one
    reference; if all are in use it is refused, and nothing changes. *)
Theorem acquire_evicts_lru id x t now m :
  NoDup (dkeys (mm_models m)) → is_loaded id m = false →
  (mm_max_loaded m <= Z.of_nat (length (mm_models m)))%Z →
  let '(m', r) := acquire id (Some x) t now m in
  match r with
  | Raise e => m' = m ∧ (∀ kv, kv ∈ mm_models m → idle kv = false) ∧
      e = NoneIdle (map (λ kv, (kv.1, lm_ref_count kv.2)) (mm_models m))
  | Ok y => y = x ∧ ∃ victim e, lru m (victim, e) ∧
      mm_models m' = dwithout victim (mm_models m) ++
        [(id, {| lm_model_id := id; lm_model := x; lm_loaded_at := t; lm_last_used_at := now;
                 lm_ref_count := 1; lm_size_bytes := None |})] ∧
      mm_unloaded m' = mm_unloaded m ++ [lm_model e]
  end.
Proof.
  intros Hnd Hl Hfull. unfold acquire. rewrite Hl. pose proof (capacity_outcome m) as Ho.
  destruct (_maybe_evict_for_capacity m) as [m1|e]; [|by destruct Ho as (_ & ? & ->)].
  destruct Ho as [[? _]|(_ & [victim e] & Hlru & ->)]; [lia|]. cbn [fst].
  destruct (evict_elem victim e m Hnd) as [-> _].
  { apply elem_dget; [done|]. by destruct Hlru as [? _]. }
  apply dhas_false in Hl. assert (dget id (dwithout victim (mm_models m)) = None) as Hn.
  { rewrite dget_dwithout, Hl. by case_match. }
  cbn. unfold take_reference. cbn. rewrite dset_absent by done. rewrite dget_app, Hn. cbn.
  rewrite String.eqb_refl. cbn. split; [done|]. exists victim, e. split_and!; try done.
  clear Hlru Hnd Hl. revert Hn. induction (dwithout victim _) as [|[j w] d IH]; cbn.
  - by rewrite String.eqb_refl.
  - destruct (String.eqb j id); [done|]. intros Hn. by rewrite IH.
Qed.

Lemma evict_models id m : mm_models (_evict id m) = dwithout id (mm_models m).
Proof.
  unfold _evict. destruct (dget id (mm_models m)) as [e|] eqn:He; [done|]. by rewrite dwithout_absent.
Qed.

Lemma evict_all_models ids m :
  mm_models (foldl (λ m id, _evict id m) m ids) =
  List.filter (λ kv, negb (mem_str kv.1 ids)) (mm_models m).
Proof.
  revert m. induction ids as [|id ids IH]; intros m; cbn.
  - symmetry. induction (mm_models m) as [|kv d IHd]; cbn; [done|]. by rewrite IHd.
  - rewrite IH, evict_models. unfold dwithout.
    induction (mm_models m) as [|[j e] d IHd]; cbn; [done|].
    destruct (String.eqb j id); cbn; rewrite IHd; done.
Qed.

(** The models that are idle for longer than the limit, and only they, are unloaded. *)
Lemma evict_expired_spec now m :
  NoDup (dkeys (mm_models m)) →
  mm_models (_evict_expired now m) = List.filter (λ kv, negb (expired now m kv)) (mm_models m).
Proof.
  intros Hnd. unfold _evict_expired. rewrite evict_all_models. apply List.filter_ext_in.
  intros [id e] Hin%list_elem_of_In. f_equal. apply eq_bool_prop_intro. rewrite !Is_true_true, mem_str_spec.
  unfold dkeys. rewrite list_elem_of_fmap. setoid_rewrite elem_of_filter_b. cbn. split.
  - intros ([id' e'] & Heq & Hin' & Hexp). cbn in Heq. subst id'.
    apply elem_dget in Hin, Hin'; [|done..]. congruence.
  - intros Hexp. by exists (id, e).
Qed.

Lemma shutdown_spec m : mm_models (shutdown m) = [].
Proof.
  unfold shutdown. rewrite evict_all_models.
  assert (∀ d, d ⊆ mm_models m → List.filter (λ kv, negb (mem_str kv.1 (dkeys (mm_models m)))) d = []) as Hd.
  { induction d as [|kv d IH]; intros Hsub; [done|]. cbn.
    assert (mem_str kv.1 (dkeys (mm_models m)) = true) as ->.
    { apply mem_str_spec, list_elem_of_fmap_2, Hsub. by left. }
    apply IH. intros x Hx. apply Hsub. by right. }
  by apply Hd.
Qed.
End manager.
Arguments LoadedModel T : clear implicits.
Arguments ModelManager T : clear implicits.

(** ** A manager with one place *)

Module ManagerDemo.

Definition entry (id : string) (model used ref : Z) : string * LoadedModel Z :=
  (id, {| lm_model_id := id; lm_model := model; lm_loaded_at := 0; lm_last_used_at := used;
          lm_ref_count := ref; lm_size_bytes := None |}).

Lemma models_in_use_witness :
  ∃ m : ModelManager Z, uses (new_manager 3600 1, []) (m, [("tiny", 2%Z)]) ∧
    mm_unloaded m = [1%Z] ∧ 2%Z ∉ mm_unloaded m.
Proof.
  eexists ?[m]. assert (uses (T:=Z) (new_manager 3600 1, []) (?m, [("tiny", 2%Z)])) as Hu.
  { eapply rtc_l; [apply (use_acquire _ _ "large" (Some 1%Z) 5 6); [|vm_compute; reflexivity]|].
    { intros x [= <-]. by apply not_elem_of_nil. }
    eapply rtc_l; [apply (use_release _ [] "large" 1%Z [])|].
    eapply rtc_l; [apply (use_acquire _ _ "tiny" (Some 2%Z) 8 9); [|vm_compute; reflexivity]|apply rtc_refl].
    intros x [= <-]. vm_compute. by intros [?|?%not_elem_of_nil]%elem_of_cons. }
  split; [exact Hu|]. split; [reflexivity|].
  destruct (models_in_use _ _ _ _ Hu) as [Hheld _]. by destruct (Hheld "tiny" 2%Z) as [? _]; [left|].
Defined.

Definition full_manager : ModelManager Z := {|
  mm_ttl_seconds := 3600; mm_max_loaded := 3;
  mm_models := [entry "a" 1 10 1; entry "b" 2 30 0; entry "c" 3 20 0];
  mm_loaded := [1; 2; 3]%Z; mm_unloaded := [] |}.

Lemma acquire_evicts_lru_witness :
  loaded_models (acquire "d" (Some 4%Z) 40 41 full_manager).1 = ["a"; "b"; "d"] ∧
  ∃ victim e, lru full_manager (victim, e) ∧
    mm_unloaded (acquire "d" (Some 4%Z) 40 41 full_manager).1 = [lm_model e].
Proof.
  split; [vm_compute; reflexivity|].
  pose proof (acquire_evicts_lru "d" 4%Z 40 41 full_manager) as Ht.
  destruct Ht as (_ & victim & e & Hlru & _ & Hu).
  - apply (bool_decide_unpack _). by vm_compute.
  - done.
  - cbn. lia.
  - by exists victim, e.
Defined.

End ManagerDemo.
