(* ===== verification/Admission.v ===== *)
(** * Admission of batch tasks and realtime sessions

    Models [dalston/engine_sdk/admission.py].  The lock of the controller makes
    each method atomic. *)

From S2P Require Import Prelude.

Record AdmissionConfig := {
  rt_reservation : Z;
  batch_max_inflight : Z;
  total_capacity : Z;
}.

Definition default_admission : AdmissionConfig :=
  {| rt_reservation := 2; batch_max_inflight := 4; total_capacity := 6 |}.

(** [env]: what an environment variable holds, read by [int()]; unset and empty
    count as absent, text that is no number stops the start of the engine. *)
Definition from_env (rt batch total : option Z) (dflt : AdmissionConfig) : AdmissionConfig := {|
  rt_reservation := default (rt_reservation dflt) rt;
  batch_max_inflight := default (batch_max_inflight dflt) batch;
  total_capacity := default (total_capacity dflt) total |}.

Record AdmissionController := {
  ac_config : AdmissionConfig;
  ac_active_batch : Z;
  ac_active_rt : Z;
}.

Definition new_controller (config : AdmissionConfig) : AdmissionController :=
  {| ac_config := config; ac_active_batch := 0; ac_active_rt := 0 |}.

Definition set_active (batch rt : Z) (c : AdmissionController) : AdmissionController :=
  {| ac_config := ac_config c; ac_active_batch := batch; ac_active_rt := rt |}.

Definition total_active (c : AdmissionController) : Z := ac_active_batch c + ac_active_rt c.

Definition can_accept_batch (c : AdmissionController) : bool :=
  if (batch_max_inflight (ac_config c) <=? ac_active_batch c)%Z then false
  else
    let available := (total_capacity (ac_config c) - total_active c)%Z in
    if (available <=? 0)%Z then false
    else if (rt_reservation (ac_config c) <=? ac_active_rt c)%Z then true
    else
      let rt_shortfall := (rt_reservation (ac_config c) - ac_active_rt c)%Z in
      (rt_shortfall <? available)%Z.

Definition can_accept_rt (c : AdmissionController) : bool :=
  (total_active c <? total_capacity (ac_config c))%Z.

Definition admit_batch (c : AdmissionController) : AdmissionController * bool :=
  if can_accept_batch c then (set_active (ac_active_batch c + 1) (ac_active_rt c) c, true)
  else (c, false).

Definition admit_rt (c : AdmissionController) : AdmissionController * bool :=
  if can_accept_rt c then (set_active (ac_active_batch c) (ac_active_rt c + 1) c, true)
  else (c, false).

Definition release_batch (c : AdmissionController) : AdmissionController :=
  set_active (Z.max 0 (ac_active_batch c - 1)) (ac_active_rt c) c.

Definition release_rt (c : AdmissionController) : AdmissionController :=
  set_active (ac_active_batch c) (Z.max 0 (ac_active_rt c - 1)) c.

Definition reconfigure (config : AdmissionConfig) (c : AdmissionController) : AdmissionController :=
  {| ac_config := config; ac_active_batch := ac_active_batch c; ac_active_rt := ac_active_rt c |}.

Record AdmissionStatus := {
  as_active_batch : Z;
  as_active_rt : Z;
  as_total_active : Z;
  as_total_capacity : Z;
  as_available : Z;
  as_can_accept_batch : bool;
  as_can_accept_rt : bool;
  as_rt_reservation : Z;
  as_batch_max_inflight : Z;
}.

Definition get_status (c : AdmissionController) : AdmissionStatus := {|
  as_active_batch := ac_active_batch c; as_active_rt := ac_active_rt c;
  as_total_active := total_active c; as_total_capacity := total_capacity (ac_config c);
  as_available := total_capacity (ac_config c) - total_active c;
  as_can_accept_batch := can_accept_batch c; as_can_accept_rt := can_accept_rt c;
  as_rt_reservation := rt_reservation (ac_config c);
  as_batch_max_inflight := batch_max_inflight (ac_config c) |}.

(** ** Any sequence of calls *)

Inductive admission_op : Type := AdmitBatch | AdmitRt | ReleaseBatch | ReleaseRt.

Definition admission_step (c : AdmissionController) (op : admission_op) : AdmissionController :=
  match op with
  | AdmitBatch => (admit_batch c).1
  | AdmitRt => (admit_rt c).1
  | ReleaseBatch => release_batch c
  | ReleaseRt => release_rt c
  end.

Record admission_ok (c : AdmissionController) : Prop := {
  ao_batch : (0 <= ac_active_batch c <= Z.max 0 (batch_max_inflight (ac_config c)))%Z;
  ao_rt : (0 <= ac_active_rt c)%Z;
  ao_room : (ac_active_batch c + Z.max (ac_active_rt c) (rt_reservation (ac_config c)) <=
             total_capacity (ac_config c))%Z;
}.

Lemma admission_step_ok c op : admission_ok c → admission_ok (admission_step c op).
Proof.
  intros [Hb Hr Hroom].
  destruct op; cbn; unfold admit_batch, admit_rt, can_accept_batch, can_accept_rt, total_active in *;
    repeat case_match; split; cbn; lia.
Qed.

(** With a reservation that fits the capacity, whatever is admitted and released, in any
    order and even if releases are repeated, a realtime session is accepted as long as fewer
    sessions run than are reserved for; batch tasks stay within their limit and all work
    within the capacity. *)
Theorem rt_never_starved config ops :
  (0 <= rt_reservation config <= total_capacity config)%Z →
  let c := foldl admission_step (new_controller config) ops in
  (ac_active_rt c < rt_reservation config → can_accept_rt c = true)%Z ∧
  (0 <= ac_active_batch c <= Z.max 0 (batch_max_inflight config))%Z ∧
  (total_active c <= total_capacity config)%Z.
Proof.
  intros Hc c.
  assert (admission_ok c ∧ ac_config c = config) as [[Hb Hr Hroom] Heq].
  { apply (foldl_invariant (λ c, admission_ok c ∧ ac_config c = config)).
    - split; [|done]. split; cbn; lia.
    - intros c' op [Hok <-]. split; [by apply admission_step_ok|].
      destruct op; cbn; unfold admit_batch, admit_rt; by repeat case_match. }
  rewrite Heq in *. split_and!; unfold can_accept_rt, total_active in *; rewrite ?Heq; lia.
Qed.

Lemma rt_never_starved_witness :
  let c := foldl admission_step (new_controller default_admission)
             [AdmitBatch; AdmitBatch; AdmitBatch; AdmitBatch; AdmitBatch; AdmitRt] in
  ac_active_batch c = 4%Z ∧ can_accept_batch c = false ∧ can_accept_rt c = true.
Proof.
  split; [reflexivity|]. split; [reflexivity|].
  apply (rt_never_starved default_admission [AdmitBatch; AdmitBatch; AdmitBatch; AdmitBatch;
    AdmitBatch; AdmitRt]); [cbn; lia|vm_compute; reflexivity].
Defined.

(** Limits that have been tightened are respected by what is admitted from then on. *)
Lemma admit_batch_limits c c' :
  admit_batch c = (c', true) →
  (ac_active_batch c' <= batch_max_inflight (ac_config c) ∧
   total_active c' <= total_capacity (ac_config c))%Z.
Proof.
  unfold admit_batch, can_accept_batch, total_active. intros Ha.
  repeat case_match; simplify_eq; cbn; lia.
Qed.

Lemma admit_rt_limits c c' :
  admit_rt c = (c', true) → (total_active c' <= total_capacity (ac_config c))%Z.
Proof.
  unfold admit_rt, can_accept_rt, total_active. intros Ha. case_match; simplify_eq; cbn. lia.
Qed.
