(* ===== verification/DiskCache.v ===== *)
(** * The models an engine keeps on disk

    Models [dalston/engine_sdk/disk_cache.py], and the directory names of
    [dalston/engine_sdk/model_storage.py].  What the file system holds, and which
    models are loaded, are arguments. *)

From S2P Require Import Prelude PyValue Times.

(** ** Names *)

Definition slash : ascii := "/"%char.
Definition dash : ascii := "-"%char.

(** [model_id.replace("/", "--")] *)
Fixpoint safe_id (s : string) : string :=
  match s with
  | EmptyString => EmptyString
  | String c s =>
      if Ascii.eqb c slash then String dash (String dash (safe_id s)) else String c (safe_id s)
  end.

(** [name.replace("--", "/")] *)
Fixpoint unsafe_id (s : string) : string :=
  match s with
  | String c (String c' s' as rest) =>
      if Ascii.eqb c dash && Ascii.eqb c' dash then String slash (unsafe_id s')
      else String c (unsafe_id rest)
  | _ => s
  end.

(** [s.removeprefix(p)] *)
Definition removeprefix (p s : string) : string :=
  if String.prefix p s then String.substring (String.length p) (String.length s - String.length p) s
  else s.

(** ** What a scan sees *)

Record CacheItem := {
  ci_name : string;
  ci_is_dir : bool;
  ci_complete : bool;            (* has a .complete marker *)
  ci_files : list Z;             (* sizes of the files whose size can be read *)
  ci_marker : option pyfloat;    (* the time in .last_accessed, if it can be read *)
  ci_mtime : option pyfloat;
}.

Record CacheDir := {
  cd_path : string;
  cd_exists : bool;
  cd_items : list CacheItem;
}.

Record CacheEntry := {
  ce_model_id : string;
  ce_path : string * string;
  ce_size_bytes : Z;
  ce_last_accessed : pyfloat;
  ce_is_hf : bool;
}.

Definition _dir_to_model_id (name : string) (is_hf : bool) : string :=
  if is_hf then unsafe_id (removeprefix "models--" name) else unsafe_id name.

Definition _dir_size (item : CacheItem) : Z := foldl Z.add 0%Z (ci_files item).

Definition _read_access_time (item : CacheItem) : pyfloat :=
  match ci_marker item with
  | Some t => t
  | None => default fzero (ci_mtime item)
  end.

Record Evictor := {
  ev_hf_cache_dirs : list string;
  ev_max_gb : pyfloat;
  ev_max_age_hours : pyfloat;
}.

Definition is_enabled (v : Evictor) : bool :=
  flt fzero (ev_max_gb v) || flt fzero (ev_max_age_hours v).

Definition scan_item (v : Evictor) (dir : string) (item : CacheItem) : option CacheEntry :=
  let is_hf := mem_str dir (ev_hf_cache_dirs v) in
  if negb (ci_is_dir item) then None
  else if is_hf && negb (String.prefix "models--" (ci_name item)) then None
  else if negb is_hf && negb (ci_complete item) then None
  else Some {|
    ce_model_id := _dir_to_model_id (ci_name item) is_hf; ce_path := (dir, ci_name item);
    ce_size_bytes := _dir_size item; ce_last_accessed := _read_access_time item;
    ce_is_hf := is_hf |}.

Definition _scan_entries (v : Evictor) (dirs : list CacheDir) : list CacheEntry :=
  dirs ≫= λ d, if cd_exists d then omap (scan_item v (cd_path d)) (cd_items d) else [].

(** ** Eviction *)

Record EvictedModel := {
  em_model_id : string;
  em_path : string * string;
  em_size_bytes : Z;
  em_reason : string;
}.

Record EvictionResult := {
  ev_scanned : nat;
  ev_evicted : list EvictedModel;      (* in the order of the removals *)
  ev_skipped_loaded : nat;
  ev_total_size_after : Z;
}.

Definition evicted (reason : string) (e : CacheEntry) : EvictedModel := {|
  em_model_id := ce_model_id e; em_path := ce_path e; em_size_bytes := ce_size_bytes e;
  em_reason := reason |}.

(** The age of an entry is over the limit. *)
Definition too_old (v : Evictor) (now : pyfloat) (e : CacheEntry) : bool :=
  flt (fmul (ev_max_age_hours v) (float_of_Z 3600)) (fsub now (ce_last_accessed e)).

Definition older (e1 e2 : CacheEntry) : bool := flt (ce_last_accessed e1) (ce_last_accessed e2).

(** The loop of the budget pass, oldest first: what it removes, and the size
    that is left. *)
Fixpoint budget_pass (max_bytes total : Z) (eligible : list CacheEntry) : list CacheEntry * Z :=
  match eligible with
  | [] => ([], total)
  | e :: eligible =>
      if (total <=? max_bytes)%Z then ([], total)
      else let '(gone, total') := budget_pass max_bytes (total - ce_size_bytes e) eligible in
           (e :: gone, total')
  end.

Definition size_of (l : list CacheEntry) : Z := foldr (λ e n, (ce_size_bytes e + n)%Z) 0%Z l.

Definition max_bytes (v : Evictor) : res pyexn Z :=
  f_int (fmul (fmul (fmul (ev_max_gb v) (float_of_Z 1024)) (float_of_Z 1024)) (float_of_Z 1024)).

(** The removals of a pass, and its result unless it raises. *)
Definition scan_and_evict (v : Evictor) (is_model_loaded : string → bool) (now : pyfloat)
    (dirs : list CacheDir) : list EvictedModel * res pyexn EvictionResult :=
  let entries := _scan_entries v dirs in
  let eligible := List.filter (λ e, negb (is_model_loaded (ce_model_id e))) entries in
  let skipped := length (List.filter (λ e, is_model_loaded (ce_model_id e)) entries) in
  let by_age := flt fzero (ev_max_age_hours v) in
  let old := if by_age then List.filter (too_old v now) eligible else [] in
  let surviving :=
    if by_age then List.filter (λ e, negb (too_old v now e)) eligible else eligible in
  let left := List.filter (λ e, negb (bool_decide (ce_path e ∈ map ce_path old))) entries in
  let result evicted total := {|
    ev_scanned := length entries; ev_evicted := evicted; ev_skipped_loaded := skipped;
    ev_total_size_after := total |} in
  if flt fzero (ev_max_gb v) then
    match max_bytes v with
    | Raise e => (map (evicted "ttl") old, Raise e)
    | Ok limit =>
        let '(gone, total) := budget_pass limit (size_of left) (stable_sort older surviving) in
        let all := map (evicted "ttl") old ++ map (evicted "budget") gone in
        (all, Ok (result all total))
    end
  else (map (evicted "ttl") old, Ok (result (map (evicted "ttl") old) (size_of left))).

(** ** Names come back

    ... unless a dash meets another dash or a slash. *)

Fixpoint plain_dashes (s : string) : Prop :=
  match s with
  | String c (String c' _ as rest) => (c = dash → c' ≠ dash ∧ c' ≠ slash) ∧ plain_dashes rest
  | _ => True
  end.

Lemma unsafe_id_step c s :
  (∀ s', c = dash → s ≠ String dash s') → unsafe_id (String c s) = String c (unsafe_id s).
Proof.
  destruct s as [|c' s']; intros Hc; [done|]. cbn.
  destruct (Ascii.eqb_spec c dash) as [->|]; [|done]. cbn.
  destruct (Ascii.eqb_spec c' dash) as [->|]; [|done]. by destruct (Hc s').
Qed.

Lemma unsafe_safe_id s : plain_dashes s → unsafe_id (safe_id s) = s.
Proof.
  induction s as [|c s IH]; intros Hs; [done|]. cbn [safe_id].
  assert (plain_dashes s) as Hs' by (destruct s; [done|by destruct Hs]).
  destruct (Ascii.eqb_spec c slash) as [->|Hne].
  - change (unsafe_id _) with (String slash (unsafe_id (safe_id s))). by rewrite IH.
  - rewrite unsafe_id_step; [by rewrite IH|]. intros s' -> Heq.
    destruct s as [|c' s0]; [done|]. destruct Hs as [Hc _]. destruct (Hc eq_refl) as [Hd Hsl].
    cbn in Heq. destruct (Ascii.eqb_spec c' slash); [done|]. by injection Heq.
Qed.

(** ** Lists of entries *)

Lemma size_of_cons e l : size_of (e :: l) = (ce_size_bytes e + size_of l)%Z.
Proof. done. Qed.

Lemma size_of_app l1 l2 : size_of (l1 ++ l2) = (size_of l1 + size_of l2)%Z.
Proof. unfold size_of. induction l1 as [|e l IH]; cbn [foldr app]; lia. Qed.

#[export] Instance size_of_proper : Proper ((≡ₚ) ==> (=)) size_of.
Proof.
  intros l1 l2. unfold size_of. induction 1; cbn [foldr]; lia.
Qed.

(** What a pass leaves: the entries of other paths. *)
Definition others (gone l : list CacheEntry) : list CacheEntry :=
  List.filter (λ e, negb (bool_decide (ce_path e ∈ map ce_path gone))) l.

#[export] Instance filter_b_proper {A} (f : A → bool) : Proper ((≡ₚ) ==> (≡ₚ)) (List.filter f).
Proof.
  induction 1 as [|x l1 l2 _ IH|x y l|l1 l2 l3 _ IH1 _ IH2]; cbn.
  - done.
  - destruct (f x); [by constructor|done].
  - destruct (f x), (f y); try done. apply perm_swap.
  - by etrans.
Qed.

Lemma others_perm gone l :
  NoDup (map ce_path l) → NoDup gone → gone ⊆ l → l ≡ₚ gone ++ others gone l.
Proof.
  intros Hnd Hg Hsub. pose proof (NoDup_submseteq gone l Hg Hsub) as [k Hk]%submseteq_Permutation.
  assert (others gone l ≡ₚ k) as ->; [|done]. unfold others. rewrite Hk at 1. rewrite List.filter_app.
  assert (NoDup (map ce_path gone ++ map ce_path k)) as (_ & Hdis & _)%NoDup_app
    by (rewrite <- map_app; by rewrite <- (Permutation_map ce_path Hk)).
  rewrite (List.forallb_filter_id _ k).
  - assert (List.filter (λ e, negb (bool_decide (ce_path e ∈ map ce_path gone))) gone = []) as ->; [|done].
    assert (∀ l', l' ⊆ gone → List.filter (λ e, negb (bool_decide (ce_path e ∈ map ce_path gone))) l' = [])
      as Hnil; [|by apply Hnil].
    induction l' as [|e l' IH]; intros Hl; [done|]. cbn. rewrite bool_decide_true.
    + cbn. apply IH. intros x Hx. apply Hl. by right.
    + apply list_elem_of_In, in_map, list_elem_of_In, Hl. by left.
  - apply forallb_forall. intros e He%list_elem_of_In. rewrite bool_decide_false; [done|].
    intros Hin. eapply Hdis; [done|]. apply list_elem_of_In, in_map. by apply list_elem_of_In.
Qed.

Lemma others_size gone l :
  NoDup (map ce_path l) → NoDup gone → gone ⊆ l →
  size_of l = (size_of gone + size_of (others gone l))%Z.
Proof. intros Hnd Hg Hsub. rewrite <- size_of_app. by apply size_of_proper, others_perm. Qed.

Lemma budget_pass_spec limit total l :
  let '(gone, total') := budget_pass limit total l in
  ∃ rest, l = gone ++ rest ∧ total' = (total - size_of gone)%Z ∧
    ((total' <= limit)%Z ∨ rest = []) ∧
    (∀ g1 e g2, gone = g1 ++ e :: g2 → (limit < total - size_of g1)%Z).
Proof.
  revert total. induction l as [|e l IH]; intros total; cbn.
  - exists []. split_and!; try done; [cbn; lia|by right|]. by intros [|??] ? ? ?.
  - destruct (Z.leb_spec total limit).
    + exists (e :: l). split_and!; try done; [cbn; lia|by left|]. by intros [|??] ? ? ?.
    + specialize (IH (total - ce_size_bytes e)%Z). destruct (budget_pass _ _ l) as [gone total'].
      destruct IH as (rest & -> & -> & Hend & Hwhile). exists rest.
      split_and!; try done; [rewrite size_of_cons; lia|].
      intros [|x g1] e' g2 [= <- Heq]; [cbn; lia|].
      specialize (Hwhile _ _ _ Heq). rewrite size_of_cons. lia.
Qed.

(** ** A pass *)

Section pass.
Context (v : Evictor) (is_model_loaded : string → bool) (now : pyfloat) (dirs : list CacheDir).

Let entries := _scan_entries v dirs.
Let eligible := List.filter (λ e, negb (is_model_loaded (ce_model_id e))) entries.
Let by_age := flt fzero (ev_max_age_hours v).

(** What the two limits remove, and the order of the second. *)
Definition old_entries : list CacheEntry :=
  if by_age then List.filter (too_old v now) eligible else [].
Definition by_last_use : list CacheEntry :=
  stable_sort older
    (if by_age then List.filter (λ e, negb (too_old v now e)) eligible else eligible).

Hypothesis paths_distinct : NoDup (map ce_path entries).

Lemma old_entries_spec e :
  e ∈ old_entries →
  e ∈ entries ∧ is_model_loaded (ce_model_id e) = false ∧ by_age = true ∧ too_old v now e = true.
Proof.
  unfold old_entries. destruct by_age; [|by intros ?%elem_of_nil].
  intros [[? ?]%elem_of_filter_b ?]%elem_of_filter_b. split_and!; try done. by apply negb_true_iff.
Qed.

Lemma by_last_use_spec e :
  e ∈ by_last_use ↔ e ∈ entries ∧ is_model_loaded (ce_model_id e) = false ∧ e ∉ old_entries.
Proof.
  unfold by_last_use, old_entries. rewrite elem_of_stable_sort.
  destruct by_age; rewrite ?elem_of_filter_b, ?elem_of_nil; unfold eligible;
    rewrite !elem_of_filter_b, ?negb_true_iff; [|naive_solver].
  destruct (too_old v now e); naive_solver.
Qed.

Lemma entries_nodup : NoDup entries.
Proof. eapply (NoDup_fmap_1 ce_path). exact paths_distinct. Qed.

Lemma candidates_nodup : NoDup (old_entries ++ by_last_use).
Proof.
  assert (NoDup eligible) as He by apply NoDup_filter_b, entries_nodup.
  apply NoDup_app. split_and!.
  - unfold old_entries. destruct by_age; [by apply NoDup_filter_b|constructor].
  - intros e He1 (_ & _ & Hn)%by_last_use_spec. done.
  - unfold by_last_use. rewrite stable_sort_perm. destruct by_age; [by apply NoDup_filter_b|done].
Qed.

Lemma by_last_use_sorted :
  (∀ e, e ∈ entries → is_nan (ce_last_accessed e) = false) → sorted_by older by_last_use.
Proof.
  intros times_known. apply (stable_sort_sorted older (λ e, is_nan (ce_last_accessed e) = false)).
  - intros x. apply flt_irrefl.
  - intros x y z. apply flt_trans.
  - intros x y z Hy. by apply flt_neg_trans.
  - apply Forall_forall. intros e He. apply times_known.
    unfold eligible in He. destruct by_age; repeat (apply elem_of_filter_b in He as [He _]); done.
Qed.

(** The entries that a pass removes for their age and for the budget. *)
Definition pass_removes : list CacheEntry :=
  if flt fzero (ev_max_gb v) then
    match max_bytes v with
    | Raise _ => []
    | Ok limit => (budget_pass limit (size_of (others old_entries entries)) by_last_use).1
    end
  else [].

Lemma scan_and_evict_removals :
  (scan_and_evict v is_model_loaded now dirs).1 =
  map (evicted "ttl") old_entries ++ map (evicted "budget") pass_removes.
Proof.
  unfold scan_and_evict, pass_removes. destruct (flt fzero (ev_max_gb v)).
  - destruct (max_bytes v) as [limit|]; [|by rewrite app_nil_r].
    unfold others, by_last_use, old_entries, eligible, by_age, entries.
    by destruct (budget_pass _ _ _).
  - by rewrite app_nil_r.
Qed.

Lemma pass_removes_prefix : ∃ rest, by_last_use = pass_removes ++ rest ∧
  ∀ limit, flt fzero (ev_max_gb v) = true → max_bytes v = Ok limit →
    (size_of (others (old_entries ++ pass_removes) entries) <= limit)%Z ∨ rest = [].
Proof.
  unfold pass_removes. destruct (flt fzero (ev_max_gb v)) eqn:Hgb; [|by exists by_last_use].
  destruct (max_bytes v) as [limit|]; [|by exists by_last_use].
  pose proof (budget_pass_spec limit (size_of (others old_entries entries)) by_last_use) as Hb.
  pose proof candidates_nodup as Hnd. pose proof by_last_use_spec as Hspec.
  destruct (budget_pass _ _ _) as [gone total]. destruct Hb as (rest & Heq & -> & Hend & _).
  exists rest. split; [done|]. intros limit' _ [= <-]. destruct Hend as [Hle|?]; [left|by right].
  cbn [fst]. rewrite Heq in Hnd, Hspec. rewrite app_assoc in Hnd. apply NoDup_app in Hnd as (Hnd & _ & _).
  assert (old_entries ++ gone ⊆ entries) as Hsub.
  { intros e [He|He]%elem_of_app; [by apply old_entries_spec in He as [? _]|].
    apply Hspec, elem_of_app. by left. }
  pose proof (others_size _ _ paths_distinct Hnd Hsub) as Hs. rewrite size_of_app in Hs.
  apply NoDup_app in Hnd as (Hold & _ & _).
  assert (size_of entries = size_of old_entries + size_of (others old_entries entries))%Z; [|lia].
  apply others_size; [done..|]. intros e He. apply Hsub, elem_of_app. by left.
Qed.

Lemma removed_entries e :
  e ∈ old_entries ++ pass_removes → e ∈ entries ∧ is_model_loaded (ce_model_id e) = false.
Proof.
  intros [He|He]%elem_of_app; [by apply old_entries_spec in He as (? & ? & _)|].
  destruct pass_removes_prefix as (rest & Heq & _).
  assert (e ∈ by_last_use) as (? & ? & _)%by_last_use_spec; [|done]. rewrite Heq. set_solver.
Qed.

Lemma removed_nodup : NoDup (old_entries ++ pass_removes).
Proof.
  destruct pass_removes_prefix as (rest & Heq & _). pose proof candidates_nodup as Hnd.
  rewrite Heq, app_assoc in Hnd. by apply NoDup_app in Hnd as (? & _ & _).
Qed.

Lemma scan_and_evict_total r removed :
  scan_and_evict v is_model_loaded now dirs = (removed, Ok r) →
  ev_evicted r = removed ∧
  ev_total_size_after r = size_of (others (old_entries ++ pass_removes) entries).
Proof.
  pose proof removed_nodup as Hnd. pose proof removed_entries as Hin. revert Hnd Hin.
  assert (size_of entries = size_of old_entries + size_of (others old_entries entries))%Z as Hold.
  { apply others_size; [done| |].
    - pose proof candidates_nodup as Hnd. by apply NoDup_app in Hnd as (? & _ & _).
    - intros e He. by apply old_entries_spec in He as [? _]. }
  unfold scan_and_evict, pass_removes. destruct (flt fzero (ev_max_gb v)).
  - destruct (max_bytes v) as [limit|]; [|done]. change (stable_sort older _) with by_last_use.
    change (List.filter _ entries) with (others old_entries entries).
    pose proof (budget_pass_spec limit (size_of (others old_entries entries)) by_last_use) as Hb.
    destruct (budget_pass _ _ _) as [gone total]. destruct Hb as (rest & _ & -> & _). cbn [fst].
    intros Hnd Hin [= <- <-]. split; [done|]. cbn [ev_total_size_after].
    pose proof (others_size (old_entries ++ gone) entries paths_distinct Hnd (λ e He, proj1 (Hin e He))) as Hs.
    rewrite size_of_app in Hs. lia.
  - intros _ _ [= <- <-]. split; [done|]. cbn. by rewrite app_nil_r.
Qed.

Lemma left_unloaded e :
  e ∈ others (old_entries ++ pass_removes) entries → is_model_loaded (ce_model_id e) = false →
  ∃ rest, by_last_use = pass_removes ++ rest ∧ e ∈ rest.
Proof.
  intros [He Hleft]%elem_of_filter_b Hl. destruct pass_removes_prefix as (rest & Heq & _).
  exists rest. split; [done|]. apply negb_true_iff, bool_decide_eq_false in Hleft.
  assert (e ∉ old_entries ++ pass_removes) as Hn.
  { contradict Hleft. by apply list_elem_of_In, in_map, list_elem_of_In. }
  assert (e ∈ by_last_use) as Hin by (apply by_last_use_spec; set_solver).
  rewrite Heq in Hin. set_solver.
Qed.
End pass.

(** A pass of the disk evictor removes no model that is loaded.  For their age it removes
    exactly the other models over the limit; for the budget the least recently used of the
    rest, and then what remains is within the budget or consists of loaded models.  The size
    it reports is that of what remains. *)
Theorem scan_and_evict_spec v is_model_loaded now dirs removed r :
  let entries := _scan_entries v dirs in
  NoDup (map ce_path entries) → (∀ e, e ∈ entries → is_nan (ce_last_accessed e) = false) →
  scan_and_evict v is_model_loaded now dirs = (removed, Ok r) →
  ∃ old gone,
    let left := others (old ++ gone) entries in
    removed = map (evicted "ttl") old ++ map (evicted "budget") gone ∧ ev_evicted r = removed ∧
    (∀ e, e ∈ old ++ gone → e ∈ entries ∧ is_model_loaded (ce_model_id e) = false) ∧
    (∀ e, e ∈ old ↔ e ∈ entries ∧ is_model_loaded (ce_model_id e) = false ∧
       flt fzero (ev_max_age_hours v) = true ∧ too_old v now e = true) ∧
    ev_total_size_after r = size_of left ∧
    (∀ e e', e ∈ gone → e' ∈ left → is_model_loaded (ce_model_id e') = false → older e' e = false) ∧
    (∀ limit, flt fzero (ev_max_gb v) = true → max_bytes v = Ok limit →
       (ev_total_size_after r <= limit)%Z ∨
       ∀ e, e ∈ left → is_model_loaded (ce_model_id e) = true).
Proof.
  intros entries Hpaths Htimes Hrun.
  destruct (scan_and_evict_total _ _ _ _ Hpaths _ _ Hrun) as [Hev Htotal].
  pose proof (scan_and_evict_removals v is_model_loaded now dirs) as Hrem. rewrite Hrun in Hrem.
  exists (old_entries v is_model_loaded now dirs), (pass_removes v is_model_loaded now dirs).
  split_and!; try done.
  - apply (removed_entries v is_model_loaded now dirs Hpaths).
  - intros e. split; [apply old_entries_spec|]. intros (He & Hl & Hage & Hold).
    unfold old_entries. rewrite Hage. apply elem_of_filter_b. split; [|done].
    apply elem_of_filter_b. by rewrite Hl.
  - intros e e' He He' Hl. destruct (left_unloaded _ _ _ _ Hpaths _ He' Hl) as (rest & Heq & Hrest).
    pose proof (by_last_use_sorted v is_model_loaded now dirs Htimes) as Hsort. rewrite Heq in Hsort.
    by eapply (StronglySorted_app_1_elem_of (λ x y, older y x = false)).
  - intros limit Hgb Hlim. rewrite Htotal.
    destruct (pass_removes_prefix v is_model_loaded now dirs Hpaths) as (rest & Heq & Hend).
    destruct (Hend limit Hgb Hlim) as [?| ->]; [by left|right]. intros e He.
    destruct (is_model_loaded (ce_model_id e)) eqn:Hl; [done|].
    destruct (left_unloaded _ _ _ _ Hpaths _ He Hl) as (rest' & Heq' & Hin). rewrite Heq in Heq'.
    apply app_inv_head in Heq' as <-. by apply elem_of_nil in Hin.
Qed.

(** ** A cache over its budget *)

Module CacheDemo.

Definition item (name : string) (used : Z) (gb : Z) : CacheItem := {|
  ci_name := name; ci_is_dir := true; ci_complete := true;
  ci_files := [gb * 1024 * 1024 * 1024]%Z; ci_marker := Some (float_of_Z used); ci_mtime := None |}.

Definition cache : list CacheDir := [{| cd_path := "/models/s3-cache"; cd_exists := true;
  cd_items := [item "Systran--large" 900 3; item "nvidia--parakeet" 500 2; item "tiny" 800 1;
               item "old" 1 1] |}].

Definition limits : Evictor := {| ev_hf_cache_dirs := []; ev_max_gb := float_of_Z 4;
  ev_max_age_hours := float_lit 2 10 |}.

Definition in_use (id : string) : bool := String.eqb id "nvidia/parakeet".

Lemma scan_and_evict_spec_witness :
  ∃ removed r, scan_and_evict limits in_use (float_of_Z 1000) cache = (removed, Ok r) ∧
    map em_model_id removed = ["old"; "tiny"; "Systran/large"] ∧
    ∃ old gone, removed = map (evicted "ttl") old ++ map (evicted "budget") gone ∧
      ∀ e, e ∈ old ++ gone → in_use (ce_model_id e) = false.
Proof.
  do 2 eexists. assert (scan_and_evict limits in_use (float_of_Z 1000) cache = _) as Hrun
    by (vm_compute; reflexivity).
  split; [exact Hrun|]. split; [reflexivity|].
  assert (NoDup (map ce_path (_scan_entries limits cache))) as Hpaths
    by (apply (bool_decide_unpack _); by vm_compute).
  assert (Forall (λ e, is_nan (ce_last_accessed e) = false) (_scan_entries limits cache)) as Htimes
    by (vm_compute; by repeat constructor).
  destruct (scan_and_evict_spec _ _ _ _ _ _ Hpaths (proj1 (Forall_forall _ _) Htimes) Hrun)
    as (old & gone & Hrem & _ & Hin & _).
  exists old, gone. split; [exact Hrem|]. intros e He. by apply Hin in He as [_ ?].
Defined.

End CacheDemo.
