(* ===== verification/Asyncio.v ===== *)
(** * Tasks of an event loop

    What [asyncio] gives a program: tasks that run alone from one [await] to the
    next.  A task is a tree of pieces of code on a shared state ([Run]) and of
    points where other tasks get in ([Await]), which it leaves when what it waits
    for is ready or when it is cancelled.  The world outside moves in the same
    places.  [wp] states what a task does given what the others may do; [reach_ok]
    puts the tasks together. *)

From S2P Require Import Prelude.

(** An exception with its text, or [CancelledError], which [except Exception] does
    not catch. *)
Inductive task_exn : Type :=
  | Failure (text : string)
  | Cancelled.
#[export] Instance task_exn_eq_dec : EqDecision task_exn.
Proof. solve_decision. Defined.

Section co.
Context {S : Type}.

Inductive co (A : Type) : Type :=
  | Ret (r : res task_exn A)
  | Run (f : S → S) (k : S → co A)          (* [k] is given the state before *)
  | Await (ready : S → bool) (k : res task_exn () → co A).
Arguments Ret {A} r.
Arguments Run {A} f k.
Arguments Await {A} ready k.

Fixpoint cbind {A B} (c : co A) (f : A → co B) : co B :=
  match c with
  | Ret (Ok a) => f a
  | Ret (Raise e) => Ret (Raise e)
  | Run g k => Run g (λ s, cbind (k s) f)
  | Await ready k => Await ready (λ r, cbind (k r) f)
  end.

(** What comes after [c], however it ends. *)
Fixpoint cthen {A B} (c : co A) (f : res task_exn A → co B) : co B :=
  match c with
  | Ret r => f r
  | Run g k => Run g (λ s, cthen (k s) f)
  | Await ready k => Await ready (λ r, cthen (k r) f)
  end.

(** [try: c except Exception as e: h(str(e))] *)
Definition ctry {A} (c : co A) (h : string → co A) : co A :=
  cthen c (λ r, match r with Raise (Failure text) => h text | _ => Ret r end).

(** [try: c finally: f] *)
Definition cfinally {A} (c : co A) (f : co ()) : co A :=
  cthen c (λ r, cbind f (λ _, Ret r)).

Definition raise {A} (text : string) : co A := Ret (Raise (Failure text)).
Definition read {A} (f : S → A) : co A := Run id (λ s, Ret (Ok (f s))).
Definition modify (f : S → S) : co () := Run f (λ _, Ret (Ok ())).
Definition await (ready : S → bool) : co () := Await ready Ret.
Definition switch : co () := await (λ _, true).
Definition lift {A} (r : res string A) : co A :=
  match r with Ok a => Ret (Ok a) | Raise text => raise text end.

(** ** Running *)

(** To the next [await], or to the end. *)
Fixpoint advance {A} (c : co A) (s : S) : S * co A :=
  match c with
  | Run f k => advance (k s) (f s)
  | _ => (s, c)
  end.

(** ** How a task ends *)

(** Along the ways in which it is not cancelled, or, with [any], along all ways. *)
Fixpoint outcome {A} (any : bool) (P : res task_exn A → Prop) (c : co A) : Prop :=
  match c with
  | Ret r => P r
  | Run _ k => ∀ s, outcome any P (k s)
  | Await _ k => outcome any P (k (Ok ())) ∧ (any = true → outcome any P (k (Raise Cancelled)))
  end.

Lemma outcome_mono {A} any (P P' : res task_exn A → Prop) c :
  outcome any P c → (∀ r, P r → P' r) → outcome any P' c.
Proof. intros H HP. induction c as [r|f k IH|ready k IH]; cbn in *; [auto..|]. destruct H. split; auto. Qed.

Lemma outcome_then {A B} any P (P' : res task_exn B → Prop) (c : co A) f :
  outcome any P c → (∀ r, P r → outcome any P' (f r)) → outcome any P' (cthen c f).
Proof. intros H HP. induction c as [r|g k IH|ready k IH]; cbn in *; [auto..|]. destruct H. split; auto. Qed.

Lemma outcome_bind {A B} any P (P' : res task_exn B → Prop) (c : co A) f :
  outcome any P c → (∀ a, P (Ok a) → outcome any P' (f a)) → (∀ e, P (Raise e) → P' (Raise e)) →
  outcome any P' (cbind c f).
Proof.
  intros H HP He. induction c as [[a|e]|g k IH|ready k IH]; cbn in *; [auto..|]. destruct H. split; auto.
Qed.

(** It returns. *)
Definition returns {A} (c : co A) : Prop := outcome false (λ r, is_ok r = true) c.
(** It does not cancel itself. *)
Definition uncancelled {A} (c : co A) : Prop := outcome false (λ r, r ≠ Raise Cancelled) c.
(** It returns or is cancelled. *)
Definition harmless {A} (c : co A) : Prop := outcome true (λ r, ∀ t, r ≠ Raise (Failure t)) c.

Lemma harmless_bind {A B} (c : co A) (f : A → co B) :
  harmless c → (∀ a, harmless (f a)) → harmless (cbind c f).
Proof.
  intros Hc Hf. eapply outcome_bind; [exact Hc|intros a _; apply Hf|]. intros e He t [= ->]. by eapply He.
Qed.
Lemma harmless_finally {A} (c : co A) f : harmless c → harmless f → harmless (cfinally c f).
Proof.
  intros Hc Hf. eapply outcome_then; [exact Hc|]. intros r Hr.
  eapply outcome_bind; [exact Hf|intros a _; exact Hr|]. intros e He t [= ->]. by eapply He.
Qed.
Lemma returns_uncancelled {A} (c : co A) : returns c → uncancelled c.
Proof. intros H. eapply outcome_mono; [exact H|]. by intros [?|?]. Qed.
Lemma returns_bind {A B} (c : co A) (f : A → co B) :
  returns c → (∀ a, returns (f a)) → returns (cbind c f).
Proof. intros Hc Hf. eapply outcome_bind; [exact Hc|intros a _; apply Hf|done]. Qed.
Lemma uncancelled_bind {A B} (c : co A) (f : A → co B) :
  uncancelled c → (∀ a, uncancelled (f a)) → uncancelled (cbind c f).
Proof. intros Hc Hf. eapply outcome_bind; [exact Hc|intros a _; apply Hf|congruence]. Qed.
Lemma returns_try {A} (c : co A) h : uncancelled c → (∀ t, returns (h t)) → returns (ctry c h).
Proof.
  intros Hc Hh. eapply outcome_then; [exact Hc|]. intros [a|[t|]] Hr; [done|apply Hh|done].
Qed.
Lemma uncancelled_try {A} (c : co A) h :
  uncancelled c → (∀ t, uncancelled (h t)) → uncancelled (ctry c h).
Proof.
  intros Hc Hh. eapply outcome_then; [exact Hc|]. intros [a|[t|]] Hr; [done|apply Hh|done].
Qed.
Lemma uncancelled_finally {A} (c : co A) f : uncancelled c → uncancelled f → uncancelled (cfinally c f).
Proof.
  intros Hc Hf. eapply outcome_then; [exact Hc|]. intros r Hr.
  eapply outcome_bind; [exact Hf|by intros|congruence].
Qed.
Lemma returns_finally {A} (c : co A) f : returns c → returns f → returns (cfinally c f).
Proof.
  intros Hc Hf. eapply outcome_then; [exact Hc|]. intros r Hr.
  eapply outcome_bind; [exact Hf|by intros|done].
Qed.

(** ** What a task does, given what the others may do *)

Section wp.
Context (R G : S → S → Prop) (cancelled : S → bool).

(** [s0] is the state at the last point where others got in, [s] the state now.
    Whenever others get in, [G] holds from [s0] to [s]; the others, and the world
    outside, move by [R]. *)
Fixpoint wp {A} (c : co A) (Q : res task_exn A → S → S → Prop) (s0 s : S) : Prop :=
  match c with
  | Ret r => Q r s0 s
  | Run f k => wp (k s) Q s0 (f s)
  | Await ready k =>
      G s0 s ∧ ∀ s', R s s' →
        (cancelled s' = false → ready s' = true → wp (k (Ok ())) Q s' s') ∧
        (cancelled s' = true → wp (k (Raise Cancelled)) Q s' s')
  end.

Lemma wp_mono {A} (c : co A) (Q Q' : res task_exn A → S → S → Prop) s0 s :
  wp c Q s0 s → (∀ r s0 s, Q r s0 s → Q' r s0 s) → wp c Q' s0 s.
Proof.
  intros H HQ. revert s0 s H. induction c as [r|f' k IH|ready k IH]; intros s0 s; cbn.
  - apply HQ.
  - by apply IH.
  - intros [HG H]. split; [done|]. intros s' Hs. destruct (H s' Hs) as [H1 H2].
    split; intros; by apply IH; auto.
Qed.

Lemma wp_then {A B} (c : co A) (f : res task_exn A → co B) Q s0 s :
  wp c (λ r s0 s, wp (f r) Q s0 s) s0 s → wp (cthen c f) Q s0 s.
Proof.
  revert s0 s. induction c as [r|f' k IH|ready k IH]; intros s0 s; cbn; [done| |].
  - by apply IH.
  - intros [HG H]. split; [done|]. intros s' Hs. destruct (H s' Hs) as [H1 H2].
    split; intros; apply IH; auto.
Qed.

Lemma wp_bind {A B} (c : co A) (f : A → co B) Q s0 s :
  wp c (λ r s0 s, match r with Ok a => wp (f a) Q s0 s | Raise e => Q (Raise e) s0 s end) s0 s →
  wp (cbind c f) Q s0 s.
Proof.
  revert s0 s. induction c as [[a|e]|f' k IH|ready k IH]; intros s0 s; cbn; [done|done| |].
  - by apply IH.
  - intros [HG H]. split; [done|]. intros s' Hs. destruct (H s' Hs) as [H1 H2].
    split; intros; apply IH; auto.
Qed.

Lemma wp_try {A} (c : co A) h Q s0 s :
  wp c (λ r s0 s, match r with Raise (Failure t) => wp (h t) Q s0 s | _ => Q r s0 s end) s0 s →
  wp (ctry c h) Q s0 s.
Proof.
  intros H. apply wp_then. eapply wp_mono; [exact H|]. by intros [a|[t|]] ? ?.
Qed.

Lemma wp_finally {A} (c : co A) f Q s0 s :
  wp c (λ r s0 s, wp f (λ r' s0 s, match r' with Ok _ => Q r s0 s | Raise e => Q (Raise e) s0 s end) s0 s)
    s0 s → wp (cfinally c f) Q s0 s.
Proof.
  intros H. apply wp_then. eapply wp_mono; [exact H|]. intros r s1 s2 Hr. apply wp_bind.
  eapply wp_mono; [exact Hr|]. by intros [?|?] ? ?.
Qed.

Lemma wp_outcome {A} any P (c : co A) Q s0 s :
  outcome any P c → (any = false → ∀ s, cancelled s = false) → wp c Q s0 s →
  wp c (λ r s0 s, P r ∧ Q r s0 s) s0 s.
Proof.
  intros Ho Hnc. revert s0 s Ho. induction c as [r|f' k IH|ready k IH]; intros s0 s; cbn; [done|auto|].
  intros [Ho1 Ho2] [HG H]. split; [done|]. intros s' Hs. destruct (H s' Hs) as [H1 H2].
  split; [auto|]. intros Hc. destruct any; [auto|]. by rewrite Hnc in Hc.
Qed.

Lemma wp_read {A} (f : S → A) Q s0 s : Q (Ok (f s)) s0 s → wp (read f) Q s0 s.
Proof. done. Qed.
Lemma wp_modify f Q s0 s : Q (Ok ()) s0 (f s) → wp (modify f) Q s0 s.
Proof. done. Qed.

(** A task ends with [F], and with [G] for the others. *)
Definition ends_in {A} (F : res task_exn A → S → Prop) (r : res task_exn A) (s0 s : S) : Prop :=
  G s0 s ∧ F r s.

(** A task as others see it: at an [await], or returned. *)
Definition waits {A} (c : co A) (F : res task_exn A → S → Prop) (s : S) : Prop :=
  match c with
  | Ret r => F r s
  | Run _ _ => False
  | Await ready k =>
      ∀ s', R s s' →
        (cancelled s' = false → ready s' = true → wp (k (Ok ())) (ends_in F) s' s') ∧
        (cancelled s' = true → wp (k (Raise Cancelled)) (ends_in F) s' s')
  end.

Lemma advance_wp {A} (c : co A) F s0 s :
  wp c (ends_in F) s0 s → G s0 (advance c s).1 ∧ waits (advance c s).2 F (advance c s).1.
Proof.
  intros H. revert s H. induction c as [r|f' k IH|ready k IH]; intros s; cbn; [done| |done].
  by apply IH.
Qed.
End wp.
End co.

Arguments co S A : clear implicits.
Arguments Ret {S A} r.
Arguments Run {S A} f k.
Arguments Await {S A} ready k.

#[export] Instance co_ret S : MRet (co S) := λ A a, Ret (Ok a).
#[export] Instance co_bind S : MBind (co S) := λ A B f c, cbind c f.

(** [for x in l: f(x)] *)
Definition cfor {S A} (f : A → co S ()) (l : list A) : co S () :=
  foldr (λ x rest, cbind (f x) (λ _, rest)) (mret ()) l.

(** ** Tasks together *)

(** What the world outside does to the state, and which tasks are cancelled. *)
Class EventLoop (S : Type) := {
  move : Type;
  outside : move → S → option S;
  cancelled : nat → S → bool;
}.
Arguments move S {_}.

Section loop.
Context {S : Type} `{EventLoop S}.

Record Loop := {
  l_state : S;
  l_tasks : list (co S ());
}.

(** How the [await] of the [i]-th task ends, if it ends. *)
Definition awaited (i : nat) (ready : S → bool) (s : S) : option (res task_exn ()) :=
  if cancelled i s then Some (Raise Cancelled) else if ready s then Some (Ok ()) else None.

(** The [i]-th task goes on, to its next [await]. *)
Definition resume (i : nat) (l : Loop) : option Loop :=
  match l_tasks l !! i with
  | Some (Await ready k) =>
      r ← awaited i ready (l_state l);
      let '(s, c) := advance (k r) (l_state l) in
      Some {| l_state := s; l_tasks := <[i := c]> (l_tasks l) |}
  | _ => None
  end.

Inductive choice := Resume (i : nat) | Outside (m : move S).

Definition loop_step (l : Loop) (x : choice) : option Loop :=
  match x with
  | Resume i => resume i l
  | Outside m => s ← outside m (l_state l); Some {| l_state := s; l_tasks := l_tasks l |}
  end.

Inductive loop_reach (l : Loop) : Loop → Prop :=
  | reach_here : loop_reach l l
  | reach_step l1 l2 x : loop_reach l l1 → loop_step l1 x = Some l2 → loop_reach l l2.

(** A schedule: choices that are not possible are passed over. *)
Definition follow (l : Loop) (xs : list choice) : Loop :=
  foldl (λ l x, default l (loop_step l x)) l xs.

Lemma follow_reach l xs : loop_reach l (follow l xs).
Proof.
  induction xs as [|x xs IH] using rev_ind; [constructor|].
  unfold follow in *. rewrite foldl_app. cbn. destruct (loop_step _ x) as [l'|] eqn:Hx; cbn; [|done].
  by eapply reach_step.
Qed.

(** Rely and guarantee: what each task assumes of the others is what they, and the
    world outside, do. *)
Section reach_ok.
Context (R G : nat → S → S → Prop) (F : nat → res task_exn () → S → Prop).
Context (R_trans : ∀ i s1 s2 s3, R i s1 s2 → R i s2 s3 → R i s1 s3).
Context (R_refl : ∀ i s, R i s s).
Context (G_R : ∀ i j s s', i ≠ j → G i s s' → R j s s').
Context (outside_R : ∀ i m s s', outside m s = Some s' → R i s s').
Context (F_R : ∀ i r s s', F i r s → R i s s' → F i r s').

Definition all_wait (l : Loop) : Prop :=
  ∀ i c, l_tasks l !! i = Some c → waits (R i) (G i) (cancelled i) c (F i) (l_state l).

Lemma waits_later i c s s' :
  waits (R i) (G i) (cancelled i) c (F i) s → R i s s' →
  waits (R i) (G i) (cancelled i) c (F i) s'.
Proof.
  intros Hc Hs. destruct c as [r| |ready k]; cbn in *; [|done|].
  - by eapply F_R.
  - intros s1 Hs1. apply Hc. by eapply R_trans.
Qed.

Lemma resume_ok l l' i :
  all_wait l → resume i l = Some l' → G i (l_state l) (l_state l') ∧ all_wait l'.
Proof.
  intros Hl. unfold resume. destruct (l_tasks l !! i) as [[| |ready k]|] eqn:Hi; [done|done| |done].
  destruct (awaited i ready (l_state l)) as [r|] eqn:Hr; [|done]. cbn.
  destruct (Hl _ _ Hi (l_state l) (R_refl _ _)) as [Hok Hcan].
  assert (wp (R i) (G i) (cancelled i) (k r) (ends_in (G i) (F i)) (l_state l) (l_state l)) as Hk.
  { revert Hr. unfold awaited. destruct (cancelled i (l_state l)); [intros [= <-]; by apply Hcan|].
    destruct (ready (l_state l)); [intros [= <-]; by apply Hok|done]. }
  apply advance_wp in Hk as [HG Hk].
  destruct (advance (k r) (l_state l)) as [s c]. cbn in *. intros [= <-].
  split; [done|]. intros j d. cbn. destruct (decide (i = j)) as [<-|Hij].
  - rewrite list_lookup_insert_eq by (by apply lookup_lt_Some in Hi). by intros [= <-].
  - rewrite list_lookup_insert_ne by done. intros Hd. eapply waits_later; [by apply Hl|eauto].
Qed.

(** Every step is one that the tasks, or the world, guarantee. *)
Lemma step_ok l l' x :
  all_wait l → loop_step l x = Some l' →
  ((∃ i, G i (l_state l) (l_state l')) ∨ (∃ m, outside m (l_state l) = Some (l_state l'))) ∧
  all_wait l'.
Proof.
  intros Hl. destruct x as [i|m]; cbn.
  - intros [? ?]%resume_ok; eauto.
  - destruct (outside m (l_state l)) as [s|] eqn:Hm; [|done]. cbn. intros [= <-].
    split; [right; by exists m|]. intros j d Hd. cbn in *.
    eapply waits_later; [by apply Hl|eauto].
Qed.

Lemma reach_ok l l' : all_wait l → loop_reach l l' → all_wait l'.
Proof. intros Hl. induction 1; [done|]. by eapply step_ok. Qed.

(** What holds at first, and is kept by every guarantee and by the world, always holds. *)
Lemma reach_inv (I : S → Prop) l l' :
  all_wait l → (∀ i s s', G i s s' → I s → I s') →
  (∀ m s s', outside m s = Some s' → I s → I s') →
  I (l_state l) → loop_reach l l' → I (l_state l').
Proof.
  intros Hl HG Ho Hi Hr. induction Hr as [|l1 l2 x Hr IH Hx]; [done|].
  destruct (step_ok _ _ _ (reach_ok _ _ Hl Hr) Hx) as [[[i Hs]|[m Hs]] _]; eauto.
Qed.

(** What a task has returned. *)
Lemma reach_returned l l' i r :
  all_wait l → loop_reach l l' → l_tasks l' !! i = Some (Ret r) → F i r (l_state l').
Proof. intros Hl Hr Hi. by apply (reach_ok _ _ Hl Hr) in Hi. Qed.
End reach_ok.

End loop.
