(* ===== verification/Vad.v ===== *)
(** * Utterances of a realtime session

    Models [dalston/realtime_sdk/vad.py]: the state machine that cuts a stream
    of audio chunks into utterances.  Silero's model, which keeps a state of
    its own and gives the probability of speech in a window, is an argument. *)

From S2P Require Import Prelude PyValue Times.

Inductive VADState : Type := SILENCE | SPEECH.
Inductive vad_event : Type := speech_start | speech_end.

Record VADConfig := {
  vc_speech_threshold : pyfloat;
  vc_min_speech_duration : pyfloat;
  vc_min_silence_duration : pyfloat;
  vc_sample_rate : Z;
  vc_lookback_chunks : Z;
}.

Definition default_vad : VADConfig := {|
  vc_speech_threshold := float_lit 5 10;
  vc_min_speech_duration := fdiv (float_of_Z 250) (float_of_Z 1000);
  vc_min_silence_duration := fdiv (float_of_Z 400) (float_of_Z 1000);
  vc_sample_rate := 16000; vc_lookback_chunks := 3 |}.

(** A sample, the state of the model, and its answer on a window. *)
Class Silero (sample model : Type) := {
  silence_sample : sample;
  silero_window : Z → model → list sample → pyfloat * model;
  silero_reset : model → model;
}.

Section vad.
Context {sample model : Type} `{Silero sample model}.
Implicit Type audio : list sample.

Record VADProcessor := {
  vp_config : VADConfig;
  vp_model : model;
  vp_state : VADState;
  vp_speech_buffer : list (list sample);
  vp_lookback_buffer : list (list sample);
  vp_silence_duration : pyfloat;
  vp_speech_duration : pyfloat;
}.

Record VADResult := {
  vr_event : option vad_event;
  vr_speech_audio : option (list sample);
}.

Definition new_vad (config : VADConfig) (m : model) : VADProcessor := {|
  vp_config := config; vp_model := m; vp_state := SILENCE; vp_speech_buffer := [];
  vp_lookback_buffer := []; vp_silence_duration := fzero; vp_speech_duration := fzero |}.

(** ** Probability of speech *)

Definition window_size (config : VADConfig) : nat :=
  if (vc_sample_rate config =? 16000)%Z then 512 else 256.

(** The largest probability in [n] windows from the start of [audio]. *)
Fixpoint max_prob (config : VADConfig) (n : nat) (m : model) audio (acc : pyfloat)
    : pyfloat * model :=
  match n with
  | O => (acc, m)
  | S n =>
      let '(prob, m) := silero_window (vc_sample_rate config) m (take (window_size config) audio) in
      max_prob config n m (drop (window_size config) audio) (fmax acc prob)
  end.

Definition _get_speech_prob (config : VADConfig) (m : model) audio : pyfloat * model :=
  let w := window_size config in
  let audio := audio ++ repeat silence_sample (w - length audio) in
  max_prob config ((length audio - w) / w + 1) m audio fzero.

(** ** The state machine *)

Definition set_speech (st : VADState) (buffer : list (list sample)) (silence speech : pyfloat)
    (v : VADProcessor) : VADProcessor := {|
  vp_config := vp_config v; vp_model := vp_model v; vp_state := st; vp_speech_buffer := buffer;
  vp_lookback_buffer := vp_lookback_buffer v; vp_silence_duration := silence;
  vp_speech_duration := speech |}.

Definition _reset_speech_state (v : VADProcessor) : VADProcessor :=
  set_speech SILENCE [] fzero fzero v.

Definition chunk_seconds (config : VADConfig) audio : pyfloat :=
  fdiv (float_of_Z (Z.of_nat (length audio))) (float_of_Z (vc_sample_rate config)).

Definition push_lookback (config : VADConfig) audio (l : list (list sample))
    : list (list sample) :=
  let l := l ++ [audio] in
  if (vc_lookback_chunks config <? Z.of_nat (length l))%Z then tail l else l.

(** The chunk is heard and goes to the lookback buffer. *)
Definition hear (v : VADProcessor) audio : VADProcessor * bool :=
  let '(prob, m) := _get_speech_prob (vp_config v) (vp_model v) audio in
  ({| vp_config := vp_config v; vp_model := m; vp_state := vp_state v;
      vp_speech_buffer := vp_speech_buffer v;
      vp_lookback_buffer := push_lookback (vp_config v) audio (vp_lookback_buffer v);
      vp_silence_duration := vp_silence_duration v; vp_speech_duration := vp_speech_duration v |},
   flt (vc_speech_threshold (vp_config v)) prob).

Definition no_event : VADResult := {| vr_event := None; vr_speech_audio := None |}.

Definition process_chunk (v : VADProcessor) audio : VADProcessor * VADResult :=
  let chunk_duration := chunk_seconds (vp_config v) audio in
  let '(v, is_speech) := hear v audio in
  match vp_state v with
  | SILENCE =>
      if (is_speech : bool) then
        (set_speech SPEECH (vp_lookback_buffer v) fzero chunk_duration v,
         {| vr_event := Some speech_start; vr_speech_audio := None |})
      else (v, no_event)
  | SPEECH =>
      let buffer := vp_speech_buffer v ++ [audio] in
      if (is_speech : bool) then
        (set_speech SPEECH buffer fzero (fadd (vp_speech_duration v) chunk_duration) v, no_event)
      else
        let silence := fadd (vp_silence_duration v) chunk_duration in
        if fle (vc_min_silence_duration (vp_config v)) silence then
          (_reset_speech_state v,
           {| vr_event := Some speech_end;
              vr_speech_audio :=
                if fle (vc_min_speech_duration (vp_config v)) (vp_speech_duration v)
                then Some (concat buffer) else None |})
        else (set_speech SPEECH buffer silence (vp_speech_duration v) v, no_event)
  end.

Definition flush (v : VADProcessor) : VADProcessor * option (list sample) :=
  (_reset_speech_state v,
   match vp_state v, vp_speech_buffer v with
   | SPEECH, _ :: _ =>
       if fle (vc_min_speech_duration (vp_config v)) (vp_speech_duration v)
       then Some (concat (vp_speech_buffer v)) else None
   | _, _ => None
   end).

Definition clear (v : VADProcessor) : VADProcessor := _reset_speech_state v.

Definition reset (v : VADProcessor) : VADProcessor := {|
  vp_config := vp_config v; vp_model := silero_reset (vp_model v); vp_state := SILENCE;
  vp_speech_buffer := []; vp_lookback_buffer := []; vp_silence_duration := fzero;
  vp_speech_duration := fzero |}.

Definition is_speaking (v : VADProcessor) : bool :=
  match vp_state v with SPEECH => true | SILENCE => false end.

Definition get_speech_buffer_samples (v : VADProcessor) : nat :=
  foldr (λ chunk n, length chunk + n) 0 (vp_speech_buffer v).

(** The state is kept: the caller announces that speech continues. *)
Definition force_endpoint (v : VADProcessor) : VADProcessor * option (list sample) :=
  match vp_speech_buffer v with
  | [] => (v, None)
  | buffer => (set_speech (vp_state v) [] fzero fzero v, Some (concat buffer))
  end.

(** ** Sessions that are listened to *)

Record heard := {
  hd_audio : list sample;
  hd_speech : bool;
  hd_result : VADResult;
}.

Definition hd_event (h : heard) : option vad_event := vr_event (hd_result h).

Inductive listened (config : VADConfig) (m : model) : list heard → VADProcessor → Prop :=
  | listened_nil : listened config m [] (new_vad config m)
  | listened_chunk tr v audio v' r :
      listened config m tr v → process_chunk v audio = (v', r) →
      listened config m
        (tr ++ [{| hd_audio := audio; hd_speech := (hear v audio).2; hd_result := r |}]) v'.

Definition lastn {A} (n : nat) (l : list A) : list A := drop (length l - n) l.

(** The chunks before [tr] ends that belong to an utterance begun and not ended. *)
Definition open_utterance (tr l0 : list heard) (st : heard) (mid : list heard) : Prop :=
  tr = l0 ++ st :: mid ∧ hd_event st = Some speech_start ∧ Forall (λ h, hd_event h = None) mid.

(** The chunks of an utterance: those before its start that are looked back to, and its own. *)
Definition utterance_chunks (config : VADConfig) (l0 : list heard) (st : heard) (mid : list heard)
    : list (list sample) :=
  lastn (Z.to_nat (vc_lookback_chunks config) - 1) (map hd_audio l0) ++
  hd_audio st :: map hd_audio mid.

Lemma lastn_snoc {A} n (l : list A) x : 1 ≤ n → lastn n (l ++ [x]) = lastn (n - 1) l ++ [x].
Proof.
  intros Hn. unfold lastn. rewrite length_app. cbn.
  rewrite drop_app_le by lia. do 2 f_equal. lia.
Qed.

Lemma lastn_length {A} n (l : list A) : length (lastn n l) = n `min` length l.
Proof. unfold lastn. rewrite length_drop. lia. Qed.

Lemma push_lookback_lastn config audio l :
  (1 <= vc_lookback_chunks config)%Z →
  let n := Z.to_nat (vc_lookback_chunks config) in
  push_lookback config audio (lastn n l) = lastn n (l ++ [audio]).
Proof.
  intros Hn n. unfold push_lookback. rewrite length_app, lastn_length. cbn [length].
  rewrite lastn_snoc by lia. unfold lastn. destruct (Z.ltb_spec (vc_lookback_chunks config)
    (Z.of_nat (n `min` length l + 1))) as [Hlt|Hge].
  - assert (n ≤ length l) as Hle by lia.
    replace (length l - (n - 1)) with (S (length l - n)) by lia.
    destruct (lookup_lt_is_Some_2 l (length l - n)) as [x Hx]; [lia|].
    by rewrite (drop_S _ _ _ Hx).
  - replace (length l - n) with 0 by lia. by replace (length l - (n - 1)) with 0 by lia.
Qed.

(** ** The state and what was heard *)

Record vad_ok (config : VADConfig) (tr : list heard) (v : VADProcessor) : Prop := {
  vo_config : vp_config v = config;
  vo_lookback : vp_lookback_buffer v = lastn (Z.to_nat (vc_lookback_chunks config)) (map hd_audio tr);
  vo_state :
    match vp_state v with
    | SILENCE => vp_speech_buffer v = [] ∧ ∀ l0 st mid, ¬ open_utterance tr l0 st mid
    | SPEECH => ∃ l0 st mid, open_utterance tr l0 st mid ∧
        vp_speech_buffer v = utterance_chunks config l0 st mid
    end;
}.

Lemma hear_config v audio :
  vp_config (hear v audio).1 = vp_config v ∧ vp_state (hear v audio).1 = vp_state v ∧
  vp_speech_buffer (hear v audio).1 = vp_speech_buffer v ∧
  vp_lookback_buffer (hear v audio).1 = push_lookback (vp_config v) audio (vp_lookback_buffer v).
Proof. unfold hear. by destruct (_get_speech_prob _ _ _). Qed.

(** What one chunk does, in terms of what was heard before. *)
Inductive chunk_outcome (config : VADConfig) (tr : list heard) (audio : list sample)
    (speech : bool) (r : VADResult) : VADState → list (list sample) → Prop :=
  | outcome_silence :
      speech = false → r = no_event → (∀ l0 st mid, ¬ open_utterance tr l0 st mid) →
      chunk_outcome config tr audio speech r SILENCE []
  | outcome_start :
      speech = true → vr_event r = Some speech_start → vr_speech_audio r = None →
      (∀ l0 st mid, ¬ open_utterance tr l0 st mid) →
      chunk_outcome config tr audio speech r SPEECH
        (lastn (Z.to_nat (vc_lookback_chunks config) - 1) (map hd_audio tr) ++ [audio])
  | outcome_more l0 st mid :
      r = no_event → open_utterance tr l0 st mid →
      chunk_outcome config tr audio speech r SPEECH (utterance_chunks config l0 st mid ++ [audio])
  | outcome_end l0 st mid :
      speech = false → vr_event r = Some speech_end → open_utterance tr l0 st mid →
      (vr_speech_audio r = None ∨
       vr_speech_audio r = Some (concat (utterance_chunks config l0 st mid ++ [audio]))) →
      chunk_outcome config tr audio speech r SILENCE [].

Lemma process_chunk_outcome config tr v audio v' r :
  (1 <= vc_lookback_chunks config)%Z → vad_ok config tr v → process_chunk v audio = (v', r) →
  chunk_outcome config tr audio (hear v audio).2 r (vp_state v') (vp_speech_buffer v').
Proof.
  intros Hn [Hc Hl Hs]. unfold process_chunk.
  destruct (hear_config v audio) as (Hhc & Hhs & Hhb & Hhl). revert Hhc Hhs Hhb Hhl.
  destruct (hear v audio) as [v1 speech]. cbn [fst snd]. intros Hhc Hhs Hhb Hhl.
  rewrite Hhs, Hhb, Hhl, Hl, Hc, push_lookback_lastn by done.
  destruct (vp_state v) eqn:Hst.
  - destruct Hs as [Hbuf Hclosed]. destruct speech; intros [= <- <-].
    + cbn. rewrite lastn_snoc by lia. by apply outcome_start.
    + rewrite Hhs, Hhb, Hbuf. by apply outcome_silence.
  - destruct Hs as (l0 & st & mid & Hopen & ->).
    destruct speech; [intros [= <- <-]; by apply outcome_more|].
    destruct (fle _ _); intros [= <- <-]; [|by apply outcome_more].
    eapply outcome_end; [done..|exact Hopen|]. cbn. case_match; auto.
Qed.

Lemma open_snoc_quiet tr l0 st mid h :
  open_utterance tr l0 st mid → hd_event h = None → open_utterance (tr ++ [h]) l0 st (mid ++ [h]).
Proof.
  intros (-> & Hst & Hmid) Hh. split; [by rewrite <- app_assoc|]. split; [done|].
  apply Forall_app. by split; [|constructor].
Qed.

Lemma open_snoc_inv tr l0 st mid h :
  open_utterance (tr ++ [h]) l0 st mid →
  (l0 = tr ∧ st = h ∧ mid = [] ∧ hd_event h = Some speech_start) ∨
  (∃ mid', mid = mid' ++ [h] ∧ hd_event h = None ∧ open_utterance tr l0 st mid').
Proof.
  intros (Heq & Hst & Hmid). destruct mid as [|x mid _] using rev_ind.
  - apply app_inj_tail in Heq as [-> ->]. by left.
  - right. exists mid. change (l0 ++ st :: mid ++ [x]) with (l0 ++ (st :: mid) ++ [x]) in Heq.
    rewrite app_assoc in Heq. apply app_inj_tail in Heq as [-> ->].
    apply Forall_app in Hmid as [Hmid Hx]. apply Forall_cons in Hx as [Hx _]. by split_and!.
Qed.

Lemma listened_ok config m tr v :
  (1 <= vc_lookback_chunks config)%Z → listened config m tr v → vad_ok config tr v.
Proof.
  intros Hn. induction 1 as [|tr v audio v' r Hl IH Hp].
  - split; cbn; [done| |].
    + by unfold lastn.
    + split; [done|]. by intros [|??] ? ? [? _].
  - pose proof (process_chunk_outcome _ _ _ _ _ _ Hn IH Hp) as Ho.
    assert (vp_config v' = config ∧ vp_lookback_buffer v' = (hear v audio).1.(vp_lookback_buffer))
      as [Hc Hlb].
    { destruct (hear_config v audio) as (Hhc & _). rewrite (vo_config _ _ _ IH) in Hhc. revert Hp.
      unfold process_chunk. destruct (hear v audio) as [v1 sp]. cbn [fst] in *.
      destruct (vp_state v1), sp; repeat case_match; intros [= <- _]; by split. }
    split; [done| |].
    + rewrite Hlb. destruct (hear_config v audio) as (_ & _ & _ & ->).
      rewrite (vo_config _ _ _ IH), (vo_lookback _ _ _ IH), push_lookback_lastn by done.
      by rewrite map_app.
    + set (h := {| hd_audio := audio |}). assert (hd_audio h = audio ∧ hd_result h = r) as [Ha Hr] by done.
      clearbody h. destruct Ho as [Hsp -> Hno|Hsp He Hau Hno|l0 st mid -> Hopen|l0 st mid Hsp He Hopen _].
      * split; [done|]. intros l0 st mid [(_ & _ & _ & He)|(mid' & _ & _ & Ho)]%open_snoc_inv.
        -- unfold hd_event in He. by rewrite Hr in He.
        -- by apply Hno in Ho.
      * exists tr, h, []. split; [split_and!; [done| |constructor]; unfold hd_event; by rewrite Hr|].
        unfold utterance_chunks. by rewrite Ha.
      * exists l0, st, (mid ++ [h]). split.
        -- apply open_snoc_quiet; [done|]. unfold hd_event. by rewrite Hr.
        -- unfold utterance_chunks. rewrite map_app, <- app_assoc. cbn. by rewrite Ha.
      * split; [done|]. intros l1 st' mid' [(_ & _ & _ & He')|(? & _ & He' & _)]%open_snoc_inv;
          unfold hd_event in He'; rewrite Hr in He'; congruence.
Qed.

(** What a session hears is cut into utterances.  A chunk judged to be speech starts an
    utterance or lies in one that has started and not ended; an utterance starts only when
    none is open; and the audio handed over at its end, or when the session is flushed, is
    every chunk from its start to its end, in order, after the chunks looked back to. *)
Theorem utterances_cut config m tr v :
  (1 <= vc_lookback_chunks config)%Z → listened config m tr v →
  (∀ l1 h l2, tr = l1 ++ h :: l2 →
     (hd_speech h = true →
        hd_event h = Some speech_start ∨ hd_event h = None ∧ ∃ l0 st mid, open_utterance l1 l0 st mid) ∧
     match hd_event h with
     | None => vr_speech_audio (hd_result h) = None
     | Some speech_start =>
         vr_speech_audio (hd_result h) = None ∧ ∀ l0 st mid, ¬ open_utterance l1 l0 st mid
     | Some speech_end => ∃ l0 st mid, open_utterance l1 l0 st mid ∧
         (vr_speech_audio (hd_result h) = None ∨ vr_speech_audio (hd_result h) =
            Some (concat (utterance_chunks config l0 st mid ++ [hd_audio h])))
     end) ∧
  (∀ audio, (flush v).2 = Some audio → ∃ l0 st mid,
     open_utterance tr l0 st mid ∧ audio = concat (utterance_chunks config l0 st mid)).
Proof.
  intros Hn Hl. split.
  - induction Hl as [|tr v audio v' r Hl IH Hp]; [by intros [|??] ? ?|].
    intros l1 h l2 Heq. destruct l2 as [|x l2 _] using rev_ind.
    + apply app_inj_tail in Heq as [<- <-]. cbn [hd_speech hd_result hd_audio]. unfold hd_event. cbn [hd_result].
      pose proof (process_chunk_outcome _ _ _ _ _ _ Hn (listened_ok _ _ _ _ Hn Hl) Hp) as Ho.
      destruct Ho as [-> -> Hno|_ He Hau Hno|l0 st mid -> Hopen|l0 st mid -> He Hopen Hau]; cbn; [done|..].
      * rewrite He. split; [by left|done].
      * split; [|done]. intros _. right. eauto.
      * rewrite He. split; [done|]. by exists l0, st, mid.
    + change (h :: l2 ++ [x]) with ((h :: l2) ++ [x]) in Heq. rewrite app_assoc in Heq.
      apply app_inj_tail in Heq as [-> _]. by eapply IH.
  - intros audio. unfold flush. cbn [snd]. pose proof (vo_state _ _ _ (listened_ok _ _ _ _ Hn Hl)) as Hs.
    destruct (vp_state v); [done|]. destruct Hs as (l0 & st & mid & Hopen & ->). intros Hf.
    exists l0, st, mid. split; [done|]. repeat case_match; congruence.
Qed.
End vad.
Arguments VADProcessor sample model : clear implicits.
Arguments VADResult sample : clear implicits.

(** The lookback buffer does not shrink: a chunk comes in and one goes out, also when a
    session has asked for fewer. *)
Lemma push_lookback_length {sample} config (audio : list sample) l :
  (vc_lookback_chunks config <= Z.of_nat (length l))%Z → 
  length (push_lookback config audio l) = length l.
Proof.
  intros Hle. unfold push_lookback. rewrite length_app. cbn [length].
  destruct (Z.ltb_spec (vc_lookback_chunks config) (Z.of_nat (length l + 1))); [|lia].
  destruct l as [|x l]; [done|]. cbn. rewrite length_app. cbn. lia.
Qed.

(** ** A session *)

Module VadDemo.

(** A model that hears speech in positive samples. *)
#[local] Instance sign_model : Silero Z () := {|
  silence_sample := 0%Z;
  silero_window _ _ audio := (if existsb (λ x, (0 <? x)%Z) audio then float_of_Z 1 else fzero, ());
  silero_reset := id |}.

Definition quick : VADConfig := {|
  vc_speech_threshold := float_lit 5 10; vc_min_speech_duration := fzero;
  vc_min_silence_duration := float_of_Z 2; vc_sample_rate := 1; vc_lookback_chunks := 2 |}.

Fixpoint listen (chunks : list (list Z)) (tr : list heard) (v : VADProcessor Z ())
    : list heard * VADProcessor Z () :=
  match chunks with
  | [] => (tr, v)
  | audio :: chunks =>
      let '(v', r) := process_chunk v audio in
      listen chunks (tr ++ [{| hd_audio := audio; hd_speech := (hear v audio).2; hd_result := r |}]) v'
  end.

Lemma listen_listened config m chunks tr v :
  listened config m tr v → listened config m (listen chunks tr v).1 (listen chunks tr v).2.
Proof.
  revert tr v. induction chunks as [|audio chunks IH]; intros tr v Hl; [done|]. cbn [listen].
  destruct (process_chunk v audio) as [v' r] eqn:Hp. apply IH. by econstructor.
Qed.

Definition session : list (list Z) :=
  [[0]; [-1]; [5]; [6]; [0]; [0]; [7]; [8]]%Z.

Lemma utterances_cut_witness :
  map (λ h : heard, vr_speech_audio (hd_result h)) (listen session [] (new_vad quick ())).1 =
    [None; None; None; None; None; Some [-1; 5; 6; 0; 0]%Z; None; None] ∧
  ∃ l0 st mid, open_utterance (listen session [] (new_vad quick ())).1 l0 st mid ∧
    [0; 7; 8]%Z = concat (utterance_chunks quick l0 st mid).
Proof.
  split; [vm_compute; reflexivity|].
  assert (listened quick () (listen session [] (new_vad quick ())).1
            (listen session [] (new_vad quick ())).2) as Hl by (apply listen_listened; constructor).
  destruct (utterances_cut quick () _ _ ltac:(cbn; lia) Hl) as [_ Hflush]. apply Hflush.
  vm_compute. reflexivity.
Defined.

End VadDemo.
