(* ===== verification/SessionTranscript.v ===== *)
(** * The transcript of a realtime session

    Models [dalston/realtime_sdk/assembler.py]: utterances are put one after the
    other on the session's timeline. *)

From S2P Require Import Prelude PyValue Times Numeric.

(** What an engine returns for an utterance (of
    [dalston/common/pipeline_types.py], the fields that are read). *)
Record UtteranceWord := {
  uw_text : string;
  uw_start : pyfloat;
  uw_end : pyfloat;
  uw_confidence : option pyfloat;
}.

Record UtteranceSegment := {
  us_words : option (list UtteranceWord);
  us_confidence : option pyfloat;
}.

Record Utterance := {
  ut_text : string;
  ut_segments : list UtteranceSegment;
  ut_language_confidence : option pyfloat;
}.

Record Word := {
  wd_word : string;
  wd_start : pyfloat;
  wd_end : pyfloat;
  wd_confidence : pyfloat;
}.

Record Segment := {
  sm_id : string;
  sm_start : pyfloat;
  sm_end : pyfloat;
  sm_text : string;
  sm_words : list Word;
  sm_confidence : pyfloat;
}.

Record TranscriptAssembler := {
  as_segments : list Segment;
  as_current_time : pyfloat;
  as_segment_counter : nat;
}.

Definition new_assembler : TranscriptAssembler :=
  {| as_segments := []; as_current_time := fzero; as_segment_counter := 0 |}.

Definition adjust_word (offset : pyfloat) (w : UtteranceWord) : Word := {|
  wd_word := uw_text w; wd_start := fadd offset (uw_start w); wd_end := fadd offset (uw_end w);
  wd_confidence := default fzero (uw_confidence w) |}.

Definition adjusted_words (offset : pyfloat) (t : Utterance) : list Word :=
  ut_segments t ≫= λ s, map (adjust_word offset) (default [] (us_words s)).

Definition overall_confidence (t : Utterance) : pyfloat :=
  match omap us_confidence (ut_segments t) with
  | [] => default fzero (ut_language_confidence t)
  | confidences =>
      fdiv (py_sum confidences) (float_of_Z (Z.of_nat (length confidences)))
  end.

Definition add_transcript (t : Utterance) (audio_duration : pyfloat) (a : TranscriptAssembler)
    : TranscriptAssembler * Segment :=
  let segment := {|
    sm_id := "seg_" +:+ str_padded 4 (as_segment_counter a);
    sm_start := as_current_time a;
    sm_end := fadd (as_current_time a) audio_duration;
    sm_text := ut_text t;
    sm_words := adjusted_words (as_current_time a) t;
    sm_confidence := overall_confidence t |} in
  ({| as_segments := as_segments a ++ [segment]; as_current_time := sm_end segment;
      as_segment_counter := S (as_segment_counter a) |}, segment).

Definition get_full_transcript (a : TranscriptAssembler) : string :=
  join_words (List.filter (λ s, negb (String.eqb s "")) (map sm_text (as_segments a))).

Definition get_segments (a : TranscriptAssembler) : list Segment := as_segments a.
Definition segment_count (a : TranscriptAssembler) : nat := length (as_segments a).
Definition reset_assembler (a : TranscriptAssembler) : TranscriptAssembler := new_assembler.

(** A session: its utterances with the lengths of their audio. *)
Definition assemble (l : list (Utterance * pyfloat)) : TranscriptAssembler :=
  foldl (λ a '(t, d), (add_transcript t d a).1) new_assembler l.

Lemma assemble_snoc l t d :
  assemble (l ++ [(t, d)]) = (add_transcript t d (assemble l)).1.
Proof. unfold assemble. by rewrite foldl_app. Qed.

Lemma assemble_length l : length (as_segments (assemble l)) = length l ∧
  as_segment_counter (assemble l) = length l.
Proof.
  induction l as [|[t d] l [IH1 IH2]] using rev_ind; [done|]. rewrite assemble_snoc, length_app. cbn.
  rewrite length_app, IH1, IH2. cbn. lia.
Qed.

Lemma assemble_time l : as_current_time (assemble l) = foldl fadd fzero l.*2.
Proof.
  induction l as [|[t d] l IH] using rev_ind; [done|].
  rewrite assemble_snoc, fmap_app, foldl_app. cbn. by rewrite IH.
Qed.

(** The transcript of a session.  It has a segment for each utterance, in order, with an id
    of its own; each begins where the one before ends, at the sum of the lengths of the
    utterances before it, and ends after the length of its own; its words are those of the
    utterance, moved by its begin. *)
Theorem session_timeline l i t d :
  l !! i = Some (t, d) →
  length (as_segments (assemble l)) = length l ∧
  (∃ s, as_segments (assemble l) !! i = Some s ∧
    sm_start s = foldl fadd fzero (take i l).*2 ∧ sm_end s = fadd (sm_start s) d ∧
    sm_text s = ut_text t ∧ sm_words s = adjusted_words (sm_start s) t) ∧
  NoDup (map sm_id (as_segments (assemble l))) ∧
  get_full_transcript (assemble l) =
    join_words (List.filter (λ x, negb (String.eqb x "")) (map (λ u, ut_text u.1) l)).
Proof.
  intros Hi. split; [apply assemble_length|]. split_and!.
  - revert Hi. induction l as [|[t' d'] l IH] using rev_ind; [done|]. rewrite assemble_snoc.
    destruct (decide (i < length l)) as [Hlt|Hge].
    + rewrite lookup_app_l, take_app_le by lia. intros Hi. destruct (IH Hi) as (s & Hs & Hrest).
      exists s. split; [|done]. cbn. by rewrite lookup_app_l by (rewrite (proj1 (assemble_length l)); lia).
    + intros Hi. assert (i = length l) as ->.
      { apply lookup_lt_Some in Hi. rewrite length_app in Hi. cbn in Hi. lia. }
      rewrite lookup_app_r, Nat.sub_diag in Hi by lia. injection Hi as -> ->.
      rewrite take_app_length, <- assemble_time. exists (add_transcript t d (assemble l)).2.
      split_and!; [|done..]. cbn.
      rewrite lookup_app_r by (rewrite (proj1 (assemble_length l)); lia).
      by rewrite (proj1 (assemble_length l)), Nat.sub_diag.
  - clear Hi. assert (map sm_id (as_segments (assemble l)) =
      map (λ k, "seg_" +:+ str_padded 4 k) (seq 0 (length l))) as ->.
    { induction l as [|[t' d'] l IH] using rev_ind; [done|]. rewrite assemble_snoc, length_app. cbn [length].
      rewrite seq_app, map_app. cbn. by rewrite map_app, IH, (proj2 (assemble_length l)). }
    apply NoDup_fmap_2; [|apply NoDup_seq].
    intros x y Hxy%string_app_inj_l. by apply (inj (str_padded 4)).
  - clear Hi. unfold get_full_transcript. do 2 f_equal.
    induction l as [|[t' d'] l IH] using rev_ind; [done|]. rewrite assemble_snoc. cbn.
    by rewrite !map_app, IH.
Qed.

(** ** Two utterances *)

Definition demo_word (x : string) : UtteranceWord :=
  {| uw_text := x; uw_start := fzero; uw_end := float_of_Z 1; uw_confidence := None |}.
Definition said (x : string) : Utterance := {|
  ut_text := x; ut_segments := [{| us_words := Some [demo_word x]; us_confidence := None |}];
  ut_language_confidence := None |}.
Definition demo_session : list (Utterance * pyfloat) :=
  [(said "one", float_of_Z 2); (said "two", float_of_Z 3)].

Lemma session_timeline_witness :
  get_full_transcript (assemble demo_session) = "one two" ∧
  ∃ s, as_segments (assemble demo_session) !! 1 = Some s ∧ sm_start s = float_of_Z 2.
Proof.
  split; [vm_compute; reflexivity|].
  destruct (session_timeline demo_session 1 (said "two") (float_of_Z 3))
    as (_ & (s & Hs & Hstart & _) & _); [reflexivity|].
  exists s. split; [exact Hs|]. rewrite Hstart. vm_compute. reflexivity.
Defined.
