(* ===== verification/RtSession.v ===== *)
(** * A realtime session

    Models [dalston/realtime_sdk/session.py], with the messages of
    [dalston/realtime_sdk/protocol.py]: one WebSocket session, from its audio to its
    transcript.  Its tasks are the main loop, the monitor of the lag and, for engines
    that decode as the audio comes, the decoder; they meet in the state [Live].

    The engine, numpy, audioop and soxr are arguments ([SessionEngine], and [Silero] of
    [Vad]), the storage of the session is the interface of
    [dalston/realtime_sdk/context.py] ([SessionStorage]).  A message of the client is
    given as [json.loads] reads it.  Logs, metrics and spans are left out. *)

From Stdlib Require Import Strings.Byte.
From S2P Require Import Prelude PyValue Times Numeric Asyncio Vad SessionTranscript.

Abbreviation bytes := (list Byte.byte).

(** ** Messages *)

Record WordInfo := {
  wi_word : string;
  wi_start : pyfloat;
  wi_end : pyfloat;
  wi_confidence : pyfloat;
}.

Record SegmentInfo := {
  si_start : pyfloat;
  si_end : pyfloat;
  si_text : string;
}.

Record SessionConfigInfo := {
  sc_sample_rate : Z;
  sc_encoding : string;
  sc_channels : Z;
  sc_language : json;
  sc_model : option string;
}.

Inductive ServerMessage : Type :=
  | SessionBegin (session_id : string) (config : SessionConfigInfo)
  | TranscriptPartial (text : string) (start end_ : pyfloat)
  | TranscriptFinal (text : string) (start end_ confidence : pyfloat)
      (words : option (list WordInfo))
  | VADSpeechStart (timestamp : pyfloat)
  | VADSpeechEnd (timestamp : pyfloat)
  | SessionEnd (session_id : string) (total_audio_seconds total_speech_duration : pyfloat)
      (transcript : string) (segments : list SegmentInfo) (audio_uri transcript_uri : option string)
  | ErrorMessage (code message : string) (recoverable : bool)
  | LagWarning (lag_seconds warning_threshold_seconds hard_threshold_seconds : pyfloat)
  | SessionTerminated (session_id reason : string) (recoverable : bool).

Definition LAG_EXCEEDED : string := "lag_exceeded".
Definition INTERNAL_ERROR : string := "internal_error".
Definition INVALID_MESSAGE : string := "invalid_message".

Definition message_type (m : ServerMessage) : string :=
  match m with
  | SessionBegin _ _ => "session.begin"
  | TranscriptPartial _ _ _ => "transcript.partial"
  | TranscriptFinal _ _ _ _ _ => "transcript.final"
  | VADSpeechStart _ => "vad.speech_start"
  | VADSpeechEnd _ => "vad.speech_end"
  | SessionEnd _ _ _ _ _ _ _ => "session.end"
  | ErrorMessage _ _ _ => "error"
  | LagWarning _ _ _ => "warning"
  | SessionTerminated _ _ _ => "session.terminated"
  end.

Definition opt_str (o : option string) : json := match o with Some s => JStr s | None => JNull end.

Definition WordInfo_to_dict (w : WordInfo) : json :=
  JObj [("word", JStr (wi_word w)); ("start", JFloat (wi_start w)); ("end", JFloat (wi_end w));
        ("confidence", JFloat (wi_confidence w))].
Definition SegmentInfo_to_dict (s : SegmentInfo) : json :=
  JObj [("start", JFloat (si_start s)); ("end", JFloat (si_end s)); ("text", JStr (si_text s))].
Definition SessionConfigInfo_to_dict (c : SessionConfigInfo) : json :=
  JObj [("sample_rate", JInt (sc_sample_rate c)); ("encoding", JStr (sc_encoding c));
        ("channels", JInt (sc_channels c)); ("language", sc_language c);
        ("model", opt_str (sc_model c))].

(** A key that is left out when there is no value. *)
Definition key_opt {A} (k : string) (f : A → json) (o : option A) : dict json :=
  match o with Some a => [(k, f a)] | None => [] end.

Definition message_to_dict (m : ServerMessage) : dict json :=
  ("type", JStr (message_type m)) ::
  match m with
  | SessionBegin sid c => [("session_id", JStr sid); ("config", SessionConfigInfo_to_dict c)]
  | TranscriptPartial text start end_ =>
      [("text", JStr text); ("start", JFloat start); ("end", JFloat end_)]
  | TranscriptFinal text start end_ confidence words =>
      [("text", JStr text); ("start", JFloat start); ("end", JFloat end_);
       ("confidence", JFloat confidence)] ++
      key_opt "words" (λ l, JList (map WordInfo_to_dict l)) words
  | VADSpeechStart t | VADSpeechEnd t => [("timestamp", JFloat t)]
  | SessionEnd sid total speech transcript segments audio_uri transcript_uri =>
      [("session_id", JStr sid); ("total_audio_seconds", JFloat total);
       ("total_speech_duration", JFloat speech); ("transcript", JStr transcript);
       ("segments", JList (map SegmentInfo_to_dict segments))] ++
      key_opt "audio_uri" JStr audio_uri ++ key_opt "transcript_uri" JStr transcript_uri
  | ErrorMessage code message recoverable =>
      [("code", JStr code); ("message", JStr message); ("recoverable", JBool recoverable)]
  | LagWarning lag warning hard =>
      [("code", JStr "processing_lag"); ("message", JStr "Processing lag is above threshold");
       ("lag_seconds", JFloat lag); ("warning_threshold_seconds", JFloat warning);
       ("hard_threshold_seconds", JFloat hard)]
  | SessionTerminated sid reason recoverable =>
      [("session_id", JStr sid); ("reason", JStr reason); ("recoverable", JBool recoverable)]
  end.

Inductive ClientMessage : Type :=
  | ConfigUpdateMessage (language vad_threshold min_silence_duration_ms prefix_padding_ms : json)
  | FlushMessage
  | ClearMessage
  | EndMessage.

(** ** Configuration *)

Record SessionConfig := {
  cf_session_id : string;
  cf_language : json;
  cf_model : option string;
  cf_encoding : string;
  cf_client_sample_rate : option Z;
  cf_sample_rate : Z;
  cf_resample_quality : string;
  cf_channels : Z;
  cf_enable_vad : bool;
  cf_interim_results : bool;
  cf_word_timestamps : bool;
  cf_vocabulary : option (list string);
  cf_max_utterance_duration : pyfloat;
  cf_vad_threshold : json;
  cf_min_speech_duration_ms : Z;
  cf_min_silence_duration_ms : json;
  cf_prefix_padding_ms : json;
  cf_store_audio : bool;
  cf_store_transcript : bool;
  cf_lag_warning_seconds : pyfloat;
  cf_lag_hard_seconds : pyfloat;
  cf_lag_hard_grace_seconds : pyfloat;
  cf_debug_chunk_sleep_initial_seconds : pyfloat;
  cf_debug_chunk_sleep_increment_seconds : pyfloat;
}.

(** What a client may change. *)
Definition put_config (language vad_threshold min_silence prefix : json) (c : SessionConfig)
    : SessionConfig := {|
  cf_session_id := cf_session_id c; cf_language := language; cf_model := cf_model c;
  cf_encoding := cf_encoding c; cf_client_sample_rate := cf_client_sample_rate c;
  cf_sample_rate := cf_sample_rate c; cf_resample_quality := cf_resample_quality c;
  cf_channels := cf_channels c; cf_enable_vad := cf_enable_vad c;
  cf_interim_results := cf_interim_results c; cf_word_timestamps := cf_word_timestamps c;
  cf_vocabulary := cf_vocabulary c; cf_max_utterance_duration := cf_max_utterance_duration c;
  cf_vad_threshold := vad_threshold; cf_min_speech_duration_ms := cf_min_speech_duration_ms c;
  cf_min_silence_duration_ms := min_silence; cf_prefix_padding_ms := prefix;
  cf_store_audio := cf_store_audio c; cf_store_transcript := cf_store_transcript c;
  cf_lag_warning_seconds := cf_lag_warning_seconds c; cf_lag_hard_seconds := cf_lag_hard_seconds c;
  cf_lag_hard_grace_seconds := cf_lag_hard_grace_seconds c;
  cf_debug_chunk_sleep_initial_seconds := cf_debug_chunk_sleep_initial_seconds c;
  cf_debug_chunk_sleep_increment_seconds := cf_debug_chunk_sleep_increment_seconds c |}.

Record TranscriptionRequest := {
  rq_loaded_model_id : option string;
  rq_language : option string;
  rq_vocabulary : option (list string);
  rq_word_timestamps : bool;
  rq_vad_filter : bool;
  rq_task : string;
}.

(** ** What the session calls *)

(** numpy, audioop and soxr on audio; the engine, whose [n]-th answer may depend on what
    it did before; the texts of exceptions and of values. *)
Class SessionEngine (sample : Type) := {
  np_int16 : bytes → res pyexn (list sample);            (* over 32768.0 *)
  np_float32 : bytes → res pyexn (list sample);
  ulaw2lin : bytes → bytes;
  alaw2lin : bytes → bytes;
  soxr_resample : list sample → Z → Z → string → list sample;
  transcribe_fn : nat → list sample → TranscriptionRequest → res string Utterance;
  exn_text : pyexn → string;
  validation_text : json → string;
  value_text : json → string;
}.

(** [SessionStorage] and its only implementation's constructor. *)
Class SessionStorage := {
  storage : Type;
  new_storage : bool → bool → storage;
  storage_start : string → SessionConfig → storage → storage * res string ();
  append_audio : bytes → storage → storage * res string ();
  save_transcript : json → storage → storage * res string ();
  finalize : storage → storage * res string (option string * option string);
  abort : storage → storage * res string ();
}.

(** [parse_client_message], of what [json.loads] yields. *)
Definition parse_client_message `{SessionEngine sample} (data : res string json)
    : res string ClientMessage :=
  match data with
  | Raise e => Raise ("Invalid JSON: " +:+ e)
  | Ok (JObj parsed) =>
      let msg_type := jget "type" parsed in
      if jeq_str msg_type "config" then
        Ok (ConfigUpdateMessage (jget "language" parsed) (jget "vad_threshold" parsed)
              (jget "min_silence_duration_ms" parsed) (jget "prefix_padding_ms" parsed))
      else if jeq_str msg_type "flush" then Ok FlushMessage
      else if jeq_str msg_type "clear" then Ok ClearMessage
      else if jeq_str msg_type "end" then Ok EndMessage
      else Raise ("Unknown message type: " +:+ value_text msg_type)
  | Ok _ => Raise "Message must be a JSON object"
  end.

(** ** Numbers of the client *)

(** [v / 1000.0] *)
Definition json_ms (v : json) : res pyexn pyfloat :=
  match v with
  | JStr _ => Raise TypeError
  | _ => x ← json_float v; Ok (fdiv x (float_of_Z 1000))
  end.

(** [v / d] for an integer [d]: two integers are divided exactly. *)
Definition json_div (v : json) (d : Z) : res pyexn pyfloat :=
  match v with
  | JStr _ => Raise TypeError
  | JInt z =>
      match float_of_ratio (z <? 0)%Z (Z.abs z) d with
      | S754_infinity _ => Raise OverflowError
      | q => Ok q
      end
  | _ => x ← json_float v; Ok (fdiv x (float_of_Z d))
  end.

(** Whether [v] can be compared with a float. *)
Definition comparable (v : json) : bool :=
  match v with JBool _ | JInt _ | JFloat _ => true | _ => false end.

(** A number as a float: an integer beyond the floats is beyond every probability. *)
Definition threshold_of (v : json) : pyfloat :=
  match v with
  | JFloat f => f
  | JInt z => float_of_Z z
  | JBool b => float_of_Z (if b then 1 else 0)
  | _ => fzero
  end.

(** [max(1, int(round(x)))] *)
Definition lookback_of (x : pyfloat) : res pyexn Z := n ← round_int x; Ok (Z.max 1 n).

Section session.
Context {sample model : Type} `{Silero sample model, SessionEngine sample, SessionStorage}.
Implicit Type audio : list sample.

(** ** The audio buffer *)

Record AudioBuffer := {
  ab_sample_rate : Z;
  ab_client_sample_rate : Z;
  ab_encoding : string;
  ab_channels : Z;
  ab_chunk_duration_ms : Z;
  ab_quality : string;
  ab_chunk_samples : Z;
  ab_buffer : list sample;
  ab_total_samples : Z;
}.

Definition RESAMPLE_QUALITY_PROFILES : dict string :=
  [("fast", "MQ"); ("balanced", "HQ"); ("high", "VHQ")].

Definition SUPPORTED_ENCODINGS : list string := ["pcm_s16le"; "pcm_f32le"; "mulaw"; "alaw"].

(** [client_sample_rate or sample_rate] *)
Definition client_rate (client : option Z) (rate : Z) : Z :=
  match client with Some c => if (c =? 0)%Z then rate else c | None => rate end.

Definition new_audio_buffer (cfg : SessionConfig) : res pyexn AudioBuffer :=
  if negb (mem_str (cf_encoding cfg) SUPPORTED_ENCODINGS) then Raise ValueError
  else
    let channels := Z.max 1 (cf_channels cfg) in
    n ← f_int (fdiv (float_of_Z (cf_sample_rate cfg * 100)) (float_of_Z 1000));
    Ok {| ab_sample_rate := cf_sample_rate cfg;
          ab_client_sample_rate := client_rate (cf_client_sample_rate cfg) (cf_sample_rate cfg);
          ab_encoding := cf_encoding cfg; ab_channels := channels; ab_chunk_duration_ms := 100;
          ab_quality := default "HQ" (dget (cf_resample_quality cfg) RESAMPLE_QUALITY_PROFILES);
          ab_chunk_samples := n * channels; ab_buffer := []; ab_total_samples := 0 |}.

Definition set_buffer (l : list sample) (total : Z) (b : AudioBuffer) : AudioBuffer := {|
  ab_sample_rate := ab_sample_rate b; ab_client_sample_rate := ab_client_sample_rate b;
  ab_encoding := ab_encoding b; ab_channels := ab_channels b;
  ab_chunk_duration_ms := ab_chunk_duration_ms b; ab_quality := ab_quality b;
  ab_chunk_samples := ab_chunk_samples b; ab_buffer := l; ab_total_samples := total |}.

Definition _decode_audio (b : AudioBuffer) (data : bytes) : res pyexn (list sample) :=
  if String.eqb (ab_encoding b) "pcm_s16le" then np_int16 data
  else if String.eqb (ab_encoding b) "pcm_f32le" then np_float32 data
  else if String.eqb (ab_encoding b) "mulaw" then np_int16 (ulaw2lin data)
  else if String.eqb (ab_encoding b) "alaw" then np_int16 (alaw2lin data)
  else Raise ValueError.

Definition _resample_if_needed (b : AudioBuffer) (samples : list sample) : list sample :=
  if (ab_client_sample_rate b =? ab_sample_rate b)%Z || (length samples =? 0) then samples
  else soxr_resample samples (ab_client_sample_rate b) (ab_sample_rate b) (ab_quality b).

Definition add_audio (data : bytes) (b : AudioBuffer) : res pyexn AudioBuffer :=
  samples ← _decode_audio b data;
  let samples := _resample_if_needed b samples in
  Ok (set_buffer (ab_buffer b ++ samples) (ab_total_samples b + Z.of_nat (length samples)) b).

Definition get_chunk (b : AudioBuffer) : AudioBuffer * option (list sample) :=
  if (Z.of_nat (length (ab_buffer b)) <? ab_chunk_samples b)%Z then (b, None)
  else
    let n := Z.to_nat (ab_chunk_samples b) in
    (set_buffer (drop n (ab_buffer b)) (ab_total_samples b) b, Some (take n (ab_buffer b))).

Definition flush_buffer (b : AudioBuffer) : AudioBuffer * option (list sample) :=
  match ab_buffer b with
  | [] => (b, None)
  | l => (set_buffer [] (ab_total_samples b) b, Some l)
  end.

Definition seconds_of_samples (n rate channels : Z) : pyfloat :=
  fdiv (float_of_Z n) (float_of_Z (rate * channels)).

Definition get_buffered_duration (b : AudioBuffer) : pyfloat :=
  seconds_of_samples (Z.of_nat (length (ab_buffer b))) (ab_sample_rate b) (ab_channels b).
Definition get_total_duration (b : AudioBuffer) : pyfloat :=
  seconds_of_samples (ab_total_samples b) (ab_sample_rate b) (ab_channels b).

Definition clear_buffer (b : AudioBuffer) : AudioBuffer * pyfloat :=
  (set_buffer [] (ab_total_samples b) b, get_buffered_duration b).

(** ** State *)

(** What a session did, in order: the messages given to the socket; what it heard, after
    decoding and resampling; what it gave to the engine for a final transcript; what it
    threw away unheard; the measures of its lag; the status it reported at the end. *)
Inductive session_event : Type :=
  | Sent (m : ServerMessage)
  | Heard audio
  | Given audio
  | Dropped audio
  | Measured (now lag : pyfloat)
  | Reported (status : string).

Inductive Incoming : Type :=
  | Binary (data : bytes)
  | Text (data : res string json)
  | Closed (failure : option string).

Record Lag := {
  lg_received : pyfloat;
  lg_processed : pyfloat;
  lg_discarded : pyfloat;
  lg_hard_exceeded_since : option pyfloat;
  lg_last_warning_at : option pyfloat;
  lg_locked : option nat;                       (* [_lag_eval_lock], and the task that holds it *)
}.

(** The decoder of an engine that decodes as the audio comes. *)
Record Streaming := {
  sg_active : bool;
  sg_queue : option (list (option (list sample)));  (* [_streaming_chunk_queue] *)
  sg_parts : list string;
  sg_words : list Word;
  sg_word_count : nat;
  sg_thread : bool;                             (* the thread of the engine runs *)
  sg_results : list (option Utterance);         (* [result_queue] *)
}.

Record Recording := {
  rc_storage : option storage;
  rc_raw : list bytes;
  rc_raw_bytes : Z;
  rc_init_failed : bool;
}.

Record AsyncTask := {
  tk_created : bool;
  tk_cancel : bool;
  tk_done : option (res task_exn ());
}.

Record Live := {
  lv_config : SessionConfig;
  lv_native_streaming : bool;
  lv_buffer : AudioBuffer;
  lv_vad : option (VADProcessor sample model);
  lv_assembler : TranscriptAssembler;
  lv_error : option string;
  lv_ended : bool;
  lv_lag_terminated : bool;
  lv_close_requested : bool;
  lv_chunks_since_partial : Z;
  lv_speech_audio_buffer : list (list sample);
  lv_next_debug_chunk_sleep : pyfloat;
  lv_lag : Lag;
  lv_streaming : Streaming;
  lv_recording : Recording;
  lv_monitor : AsyncTask;
  lv_decoder : AsyncTask;
  lv_clock : pyfloat;                           (* [time.monotonic()] *)
  lv_inbox : list Incoming;
  lv_calls : nat;                               (* of the engine *)
  lv_trace : list session_event;
}.

Definition lv_set_config (x : SessionConfig) (s : Live) : Live := {|
  lv_config := x; lv_native_streaming := lv_native_streaming s; lv_buffer := lv_buffer s;
  lv_vad := lv_vad s; lv_assembler := lv_assembler s; lv_error := lv_error s;
  lv_ended := lv_ended s; lv_lag_terminated := lv_lag_terminated s;
  lv_close_requested := lv_close_requested s; lv_chunks_since_partial := lv_chunks_since_partial s;
  lv_speech_audio_buffer := lv_speech_audio_buffer s;
  lv_next_debug_chunk_sleep := lv_next_debug_chunk_sleep s; lv_lag := lv_lag s;
  lv_streaming := lv_streaming s; lv_recording := lv_recording s; lv_monitor := lv_monitor s;
  lv_decoder := lv_decoder s; lv_clock := lv_clock s; lv_inbox := lv_inbox s;
  lv_calls := lv_calls s; lv_trace := lv_trace s |}.
Definition lv_set_buffer (x : AudioBuffer) (s : Live) : Live := {|
  lv_config := lv_config s; lv_native_streaming := lv_native_streaming s; lv_buffer := x;
  lv_vad := lv_vad s; lv_assembler := lv_assembler s; lv_error := lv_error s;
  lv_ended := lv_ended s; lv_lag_terminated := lv_lag_terminated s;
  lv_close_requested := lv_close_requested s; lv_chunks_since_partial := lv_chunks_since_partial s;
  lv_speech_audio_buffer := lv_speech_audio_buffer s;
  lv_next_debug_chunk_sleep := lv_next_debug_chunk_sleep s; lv_lag := lv_lag s;
  lv_streaming := lv_streaming s; lv_recording := lv_recording s; lv_monitor := lv_monitor s;
  lv_decoder := lv_decoder s; lv_clock := lv_clock s; lv_inbox := lv_inbox s;
  lv_calls := lv_calls s; lv_trace := lv_trace s |}.
Definition lv_set_vad (x : option (VADProcessor sample model)) (s : Live) : Live := {|
  lv_config := lv_config s; lv_native_streaming := lv_native_streaming s; lv_buffer := lv_buffer s;
  lv_vad := x; lv_assembler := lv_assembler s; lv_error := lv_error s; lv_ended := lv_ended s;
  lv_lag_terminated := lv_lag_terminated s; lv_close_requested := lv_close_requested s;
  lv_chunks_since_partial := lv_chunks_since_partial s;
  lv_speech_audio_buffer := lv_speech_audio_buffer s;
  lv_next_debug_chunk_sleep := lv_next_debug_chunk_sleep s; lv_lag := lv_lag s;
  lv_streaming := lv_streaming s; lv_recording := lv_recording s; lv_monitor := lv_monitor s;
  lv_decoder := lv_decoder s; lv_clock := lv_clock s; lv_inbox := lv_inbox s;
  lv_calls := lv_calls s; lv_trace := lv_trace s |}.
Definition lv_set_assembler (x : TranscriptAssembler) (s : Live) : Live := {|
  lv_config := lv_config s; lv_native_streaming := lv_native_streaming s; lv_buffer := lv_buffer s;
  lv_vad := lv_vad s; lv_assembler := x; lv_error := lv_error s; lv_ended := lv_ended s;
  lv_lag_terminated := lv_lag_terminated s; lv_close_requested := lv_close_requested s;
  lv_chunks_since_partial := lv_chunks_since_partial s;
  lv_speech_audio_buffer := lv_speech_audio_buffer s;
  lv_next_debug_chunk_sleep := lv_next_debug_chunk_sleep s; lv_lag := lv_lag s;
  lv_streaming := lv_streaming s; lv_recording := lv_recording s; lv_monitor := lv_monitor s;
  lv_decoder := lv_decoder s; lv_clock := lv_clock s; lv_inbox := lv_inbox s;
  lv_calls := lv_calls s; lv_trace := lv_trace s |}.
Definition lv_set_lag (x : Lag) (s : Live) : Live := {|
  lv_config := lv_config s; lv_native_streaming := lv_native_streaming s; lv_buffer := lv_buffer s;
  lv_vad := lv_vad s; lv_assembler := lv_assembler s; lv_error := lv_error s;
  lv_ended := lv_ended s; lv_lag_terminated := lv_lag_terminated s;
  lv_close_requested := lv_close_requested s; lv_chunks_since_partial := lv_chunks_since_partial s;
  lv_speech_audio_buffer := lv_speech_audio_buffer s;
  lv_next_debug_chunk_sleep := lv_next_debug_chunk_sleep s; lv_lag := x;
  lv_streaming := lv_streaming s; lv_recording := lv_recording s; lv_monitor := lv_monitor s;
  lv_decoder := lv_decoder s; lv_clock := lv_clock s; lv_inbox := lv_inbox s;
  lv_calls := lv_calls s; lv_trace := lv_trace s |}.
Definition lv_set_streaming (x : Streaming) (s : Live) : Live := {|
  lv_config := lv_config s; lv_native_streaming := lv_native_streaming s; lv_buffer := lv_buffer s;
  lv_vad := lv_vad s; lv_assembler := lv_assembler s; lv_error := lv_error s;
  lv_ended := lv_ended s; lv_lag_terminated := lv_lag_terminated s;
  lv_close_requested := lv_close_requested s; lv_chunks_since_partial := lv_chunks_since_partial s;
  lv_speech_audio_buffer := lv_speech_audio_buffer s;
  lv_next_debug_chunk_sleep := lv_next_debug_chunk_sleep s; lv_lag := lv_lag s; lv_streaming := x;
  lv_recording := lv_recording s; lv_monitor := lv_monitor s; lv_decoder := lv_decoder s;
  lv_clock := lv_clock s; lv_inbox := lv_inbox s; lv_calls := lv_calls s; lv_trace := lv_trace s |}.
Definition lv_set_recording (x : Recording) (s : Live) : Live := {|
  lv_config := lv_config s; lv_native_streaming := lv_native_streaming s; lv_buffer := lv_buffer s;
  lv_vad := lv_vad s; lv_assembler := lv_assembler s; lv_error := lv_error s;
  lv_ended := lv_ended s; lv_lag_terminated := lv_lag_terminated s;
  lv_close_requested := lv_close_requested s; lv_chunks_since_partial := lv_chunks_since_partial s;
  lv_speech_audio_buffer := lv_speech_audio_buffer s;
  lv_next_debug_chunk_sleep := lv_next_debug_chunk_sleep s; lv_lag := lv_lag s;
  lv_streaming := lv_streaming s; lv_recording := x; lv_monitor := lv_monitor s;
  lv_decoder := lv_decoder s; lv_clock := lv_clock s; lv_inbox := lv_inbox s;
  lv_calls := lv_calls s; lv_trace := lv_trace s |}.
Definition lv_set_monitor (x : AsyncTask) (s : Live) : Live := {|
  lv_config := lv_config s; lv_native_streaming := lv_native_streaming s; lv_buffer := lv_buffer s;
  lv_vad := lv_vad s; lv_assembler := lv_assembler s; lv_error := lv_error s;
  lv_ended := lv_ended s; lv_lag_terminated := lv_lag_terminated s;
  lv_close_requested := lv_close_requested s; lv_chunks_since_partial := lv_chunks_since_partial s;
  lv_speech_audio_buffer := lv_speech_audio_buffer s;
  lv_next_debug_chunk_sleep := lv_next_debug_chunk_sleep s; lv_lag := lv_lag s;
  lv_streaming := lv_streaming s; lv_recording := lv_recording s; lv_monitor := x;
  lv_decoder := lv_decoder s; lv_clock := lv_clock s; lv_inbox := lv_inbox s;
  lv_calls := lv_calls s; lv_trace := lv_trace s |}.
Definition lv_set_decoder (x : AsyncTask) (s : Live) : Live := {|
  lv_config := lv_config s; lv_native_streaming := lv_native_streaming s; lv_buffer := lv_buffer s;
  lv_vad := lv_vad s; lv_assembler := lv_assembler s; lv_error := lv_error s;
  lv_ended := lv_ended s; lv_lag_terminated := lv_lag_terminated s;
  lv_close_requested := lv_close_requested s; lv_chunks_since_partial := lv_chunks_since_partial s;
  lv_speech_audio_buffer := lv_speech_audio_buffer s;
  lv_next_debug_chunk_sleep := lv_next_debug_chunk_sleep s; lv_lag := lv_lag s;
  lv_streaming := lv_streaming s; lv_recording := lv_recording s; lv_monitor := lv_monitor s;
  lv_decoder := x; lv_clock := lv_clock s; lv_inbox := lv_inbox s; lv_calls := lv_calls s;
  lv_trace := lv_trace s |}.
Definition lv_set_clock (x : pyfloat) (s : Live) : Live := {|
  lv_config := lv_config s; lv_native_streaming := lv_native_streaming s; lv_buffer := lv_buffer s;
  lv_vad := lv_vad s; lv_assembler := lv_assembler s; lv_error := lv_error s;
  lv_ended := lv_ended s; lv_lag_terminated := lv_lag_terminated s;
  lv_close_requested := lv_close_requested s; lv_chunks_since_partial := lv_chunks_since_partial s;
  lv_speech_audio_buffer := lv_speech_audio_buffer s;
  lv_next_debug_chunk_sleep := lv_next_debug_chunk_sleep s; lv_lag := lv_lag s;
  lv_streaming := lv_streaming s; lv_recording := lv_recording s; lv_monitor := lv_monitor s;
  lv_decoder := lv_decoder s; lv_clock := x; lv_inbox := lv_inbox s; lv_calls := lv_calls s;
  lv_trace := lv_trace s |}.
Definition lv_set_inbox (x : list Incoming) (s : Live) : Live := {|
  lv_config := lv_config s; lv_native_streaming := lv_native_streaming s; lv_buffer := lv_buffer s;
  lv_vad := lv_vad s; lv_assembler := lv_assembler s; lv_error := lv_error s;
  lv_ended := lv_ended s; lv_lag_terminated := lv_lag_terminated s;
  lv_close_requested := lv_close_requested s; lv_chunks_since_partial := lv_chunks_since_partial s;
  lv_speech_audio_buffer := lv_speech_audio_buffer s;
  lv_next_debug_chunk_sleep := lv_next_debug_chunk_sleep s; lv_lag := lv_lag s;
  lv_streaming := lv_streaming s; lv_recording := lv_recording s; lv_monitor := lv_monitor s;
  lv_decoder := lv_decoder s; lv_clock := lv_clock s; lv_inbox := x; lv_calls := lv_calls s;
  lv_trace := lv_trace s |}.
Definition lv_set_calls (x : nat) (s : Live) : Live := {|
  lv_config := lv_config s; lv_native_streaming := lv_native_streaming s; lv_buffer := lv_buffer s;
  lv_vad := lv_vad s; lv_assembler := lv_assembler s; lv_error := lv_error s;
  lv_ended := lv_ended s; lv_lag_terminated := lv_lag_terminated s;
  lv_close_requested := lv_close_requested s; lv_chunks_since_partial := lv_chunks_since_partial s;
  lv_speech_audio_buffer := lv_speech_audio_buffer s;
  lv_next_debug_chunk_sleep := lv_next_debug_chunk_sleep s; lv_lag := lv_lag s;
  lv_streaming := lv_streaming s; lv_recording := lv_recording s; lv_monitor := lv_monitor s;
  lv_decoder := lv_decoder s; lv_clock := lv_clock s; lv_inbox := lv_inbox s; lv_calls := x;
  lv_trace := lv_trace s |}.
Definition lv_set_next_debug_chunk_sleep (x : pyfloat) (s : Live) : Live := {|
  lv_config := lv_config s; lv_native_streaming := lv_native_streaming s; lv_buffer := lv_buffer s;
  lv_vad := lv_vad s; lv_assembler := lv_assembler s; lv_error := lv_error s;
  lv_ended := lv_ended s; lv_lag_terminated := lv_lag_terminated s;
  lv_close_requested := lv_close_requested s; lv_chunks_since_partial := lv_chunks_since_partial s;
  lv_speech_audio_buffer := lv_speech_audio_buffer s; lv_next_debug_chunk_sleep := x;
  lv_lag := lv_lag s; lv_streaming := lv_streaming s; lv_recording := lv_recording s;
  lv_monitor := lv_monitor s; lv_decoder := lv_decoder s; lv_clock := lv_clock s;
  lv_inbox := lv_inbox s; lv_calls := lv_calls s; lv_trace := lv_trace s |}.
Definition lv_set_close_requested (x : bool) (s : Live) : Live := {|
  lv_config := lv_config s; lv_native_streaming := lv_native_streaming s; lv_buffer := lv_buffer s;
  lv_vad := lv_vad s; lv_assembler := lv_assembler s; lv_error := lv_error s;
  lv_ended := lv_ended s; lv_lag_terminated := lv_lag_terminated s; lv_close_requested := x;
  lv_chunks_since_partial := lv_chunks_since_partial s;
  lv_speech_audio_buffer := lv_speech_audio_buffer s;
  lv_next_debug_chunk_sleep := lv_next_debug_chunk_sleep s; lv_lag := lv_lag s;
  lv_streaming := lv_streaming s; lv_recording := lv_recording s; lv_monitor := lv_monitor s;
  lv_decoder := lv_decoder s; lv_clock := lv_clock s; lv_inbox := lv_inbox s;
  lv_calls := lv_calls s; lv_trace := lv_trace s |}.
Definition lv_set_trace (x : list session_event) (s : Live) : Live := {|
  lv_config := lv_config s; lv_native_streaming := lv_native_streaming s; lv_buffer := lv_buffer s;
  lv_vad := lv_vad s; lv_assembler := lv_assembler s; lv_error := lv_error s;
  lv_ended := lv_ended s; lv_lag_terminated := lv_lag_terminated s;
  lv_close_requested := lv_close_requested s; lv_chunks_since_partial := lv_chunks_since_partial s;
  lv_speech_audio_buffer := lv_speech_audio_buffer s;
  lv_next_debug_chunk_sleep := lv_next_debug_chunk_sleep s; lv_lag := lv_lag s;
  lv_streaming := lv_streaming s; lv_recording := lv_recording s; lv_monitor := lv_monitor s;
  lv_decoder := lv_decoder s; lv_clock := lv_clock s; lv_inbox := lv_inbox s;
  lv_calls := lv_calls s; lv_trace := x |}.
Definition emit (e : session_event) (s : Live) : Live :=
  lv_set_trace (lv_trace s ++ [e]) s.
Definition lv_set_error (x : string) (s : Live) : Live := {|
  lv_config := lv_config s; lv_native_streaming := lv_native_streaming s; lv_buffer := lv_buffer s;
  lv_vad := lv_vad s; lv_assembler := lv_assembler s; lv_error := Some x; lv_ended := lv_ended s;
  lv_lag_terminated := lv_lag_terminated s; lv_close_requested := lv_close_requested s;
  lv_chunks_since_partial := lv_chunks_since_partial s;
  lv_speech_audio_buffer := lv_speech_audio_buffer s;
  lv_next_debug_chunk_sleep := lv_next_debug_chunk_sleep s; lv_lag := lv_lag s;
  lv_streaming := lv_streaming s; lv_recording := lv_recording s; lv_monitor := lv_monitor s;
  lv_decoder := lv_decoder s; lv_clock := lv_clock s; lv_inbox := lv_inbox s;
  lv_calls := lv_calls s; lv_trace := lv_trace s |}.
Definition lv_set_ended (s : Live) : Live := {|
  lv_config := lv_config s; lv_native_streaming := lv_native_streaming s; lv_buffer := lv_buffer s;
  lv_vad := lv_vad s; lv_assembler := lv_assembler s; lv_error := lv_error s; lv_ended := true;
  lv_lag_terminated := lv_lag_terminated s; lv_close_requested := lv_close_requested s;
  lv_chunks_since_partial := lv_chunks_since_partial s;
  lv_speech_audio_buffer := lv_speech_audio_buffer s;
  lv_next_debug_chunk_sleep := lv_next_debug_chunk_sleep s; lv_lag := lv_lag s;
  lv_streaming := lv_streaming s; lv_recording := lv_recording s; lv_monitor := lv_monitor s;
  lv_decoder := lv_decoder s; lv_clock := lv_clock s; lv_inbox := lv_inbox s;
  lv_calls := lv_calls s; lv_trace := lv_trace s |}.
Definition lv_terminate (x : string) (s : Live) : Live := {|
  lv_config := lv_config s; lv_native_streaming := lv_native_streaming s; lv_buffer := lv_buffer s;
  lv_vad := lv_vad s; lv_assembler := lv_assembler s; lv_error := Some x; lv_ended := true;
  lv_lag_terminated := true; lv_close_requested := lv_close_requested s;
  lv_chunks_since_partial := lv_chunks_since_partial s;
  lv_speech_audio_buffer := lv_speech_audio_buffer s;
  lv_next_debug_chunk_sleep := lv_next_debug_chunk_sleep s; lv_lag := lv_lag s;
  lv_streaming := lv_streaming s; lv_recording := lv_recording s; lv_monitor := lv_monitor s;
  lv_decoder := lv_decoder s; lv_clock := lv_clock s; lv_inbox := lv_inbox s;
  lv_calls := lv_calls s; lv_trace := lv_trace s |}.
Definition lv_set_speech (buffer : list (list sample)) (n : Z) (s : Live) : Live := {|
  lv_config := lv_config s; lv_native_streaming := lv_native_streaming s; lv_buffer := lv_buffer s;
  lv_vad := lv_vad s; lv_assembler := lv_assembler s; lv_error := lv_error s;
  lv_ended := lv_ended s; lv_lag_terminated := lv_lag_terminated s;
  lv_close_requested := lv_close_requested s; lv_chunks_since_partial := n;
  lv_speech_audio_buffer := buffer; lv_next_debug_chunk_sleep := lv_next_debug_chunk_sleep s;
  lv_lag := lv_lag s; lv_streaming := lv_streaming s; lv_recording := lv_recording s;
  lv_monitor := lv_monitor s; lv_decoder := lv_decoder s; lv_clock := lv_clock s;
  lv_inbox := lv_inbox s; lv_calls := lv_calls s; lv_trace := lv_trace s |}.

Definition set_lag_received (x : pyfloat) (l : Lag) : Lag := {|
  lg_received := x; lg_processed := lg_processed l; lg_discarded := lg_discarded l;
  lg_hard_exceeded_since := lg_hard_exceeded_since l; lg_last_warning_at := lg_last_warning_at l;
  lg_locked := lg_locked l |}.
Definition set_lag_processed (x : pyfloat) (l : Lag) : Lag := {|
  lg_received := lg_received l; lg_processed := x; lg_discarded := lg_discarded l;
  lg_hard_exceeded_since := lg_hard_exceeded_since l; lg_last_warning_at := lg_last_warning_at l;
  lg_locked := lg_locked l |}.
Definition set_lag_discarded (x : pyfloat) (l : Lag) : Lag := {|
  lg_received := lg_received l; lg_processed := lg_processed l; lg_discarded := x;
  lg_hard_exceeded_since := lg_hard_exceeded_since l; lg_last_warning_at := lg_last_warning_at l;
  lg_locked := lg_locked l |}.
Definition set_lag_since (x : option pyfloat) (l : Lag) : Lag := {|
  lg_received := lg_received l; lg_processed := lg_processed l; lg_discarded := lg_discarded l;
  lg_hard_exceeded_since := x; lg_last_warning_at := lg_last_warning_at l;
  lg_locked := lg_locked l |}.
Definition set_lag_warned (x : pyfloat) (l : Lag) : Lag := {|
  lg_received := lg_received l; lg_processed := lg_processed l; lg_discarded := lg_discarded l;
  lg_hard_exceeded_since := lg_hard_exceeded_since l; lg_last_warning_at := Some x;
  lg_locked := lg_locked l |}.
Definition set_lag_locked (x : option nat) (l : Lag) : Lag := {|
  lg_received := lg_received l; lg_processed := lg_processed l; lg_discarded := lg_discarded l;
  lg_hard_exceeded_since := lg_hard_exceeded_since l; lg_last_warning_at := lg_last_warning_at l;
  lg_locked := x |}.
Definition lag_change (f : Lag → Lag) : co Live () := modify (λ s, lv_set_lag (f (lv_lag s)) s).

Definition set_sg_queue (x : option (list (option (list sample)))) (g : Streaming) : Streaming := {|
  sg_active := sg_active g; sg_queue := x; sg_parts := sg_parts g; sg_words := sg_words g;
  sg_word_count := sg_word_count g; sg_thread := sg_thread g; sg_results := sg_results g |}.
Definition set_sg_words (parts : list string) (words : list Word) (n : nat) (g : Streaming)
    : Streaming := {|
  sg_active := sg_active g; sg_queue := sg_queue g; sg_parts := parts; sg_words := words;
  sg_word_count := n; sg_thread := sg_thread g; sg_results := sg_results g |}.
Definition set_sg_results (thread : bool) (x : list (option Utterance)) (g : Streaming)
    : Streaming := {|
  sg_active := sg_active g; sg_queue := sg_queue g; sg_parts := sg_parts g;
  sg_words := sg_words g; sg_word_count := sg_word_count g; sg_thread := thread;
  sg_results := x |}.
Definition streaming_change (f : Streaming → Streaming) : co Live () :=
  modify (λ s, lv_set_streaming (f (lv_streaming s)) s).

Definition set_rc_storage (x : option storage) (r : Recording) : Recording := {|
  rc_storage := x; rc_raw := rc_raw r; rc_raw_bytes := rc_raw_bytes r;
  rc_init_failed := rc_init_failed r |}.
Definition set_rc_raw (x : list bytes) (n : Z) (failed : bool) (r : Recording) : Recording := {|
  rc_storage := rc_storage r; rc_raw := x; rc_raw_bytes := n; rc_init_failed := failed |}.
Definition recording_change (f : Recording → Recording) : co Live () :=
  modify (λ s, lv_set_recording (f (lv_recording s)) s).

Definition get {A} (f : Live → A) : co Live A := read f.
(** Code that changes the state and has a value. *)
Definition act {A} (f : Live → Live * A) : co Live A :=
  Run (λ s, (f s).1) (λ s, Ret (Ok (f s).2)).
Definition py {A} (r : res pyexn A) : co Live A :=
  match r with Ok a => Ret (Ok a) | Raise e => raise (exn_text e) end.
Definition skip : co Live () := mret ().

(** ** Messages out *)

Definition after_termination (m : ServerMessage) : bool :=
  mem_str (message_type m) ["error"; "session.terminated"].

Definition _send (m : ServerMessage) : co Live () :=
  terminated ← get lv_lag_terminated;
  if terminated && negb (after_termination m) then skip
  else modify (emit (Sent m));; switch.

Definition _send_error (code message : string) (recoverable : bool) : co Live () :=
  _send (ErrorMessage code message recoverable).

Definition _send_session_begin : co Live () :=
  c ← get lv_config;
  _send (SessionBegin (cf_session_id c) {| sc_sample_rate := cf_sample_rate c;
    sc_encoding := cf_encoding c; sc_channels := cf_channels c; sc_language := cf_language c;
    sc_model := cf_model c |}).

(** ** Lag *)

Definition LAG_WARNING_RATE_LIMIT_SECONDS : pyfloat := float_of_Z 1.

Definition _samples_to_seconds (c : SessionConfig) (sample_count : Z) : pyfloat :=
  if (sample_count <=? 0)%Z then fzero
  else seconds_of_samples sample_count (cf_sample_rate c) (cf_channels c).

Definition bytes_per_sample (encoding : string) : Z :=
  if String.eqb encoding "pcm_s16le" then 2
  else if String.eqb encoding "pcm_f32le" then 4
  else if mem_str encoding ["mulaw"; "alaw"] then 1
  else 2.

Definition _audio_bytes_to_seconds (c : SessionConfig) (byte_count : Z) : pyfloat :=
  if (byte_count <=? 0)%Z then fzero
  else fdiv (float_of_Z byte_count)
         (float_of_Z (bytes_per_sample (cf_encoding c) * cf_sample_rate c * cf_channels c)).

Definition _record_received_audio (byte_count : Z) : co Live () :=
  c ← get lv_config;
  lag_change (λ l, set_lag_received (fadd (lg_received l) (_audio_bytes_to_seconds c byte_count)) l).

Definition _record_processed_audio (x : pyfloat) : co Live () :=
  if flt fzero x then lag_change (λ l, set_lag_processed (fadd (lg_processed l) x) l) else skip.

Definition _record_discarded_audio (x : pyfloat) : co Live () :=
  if flt fzero x then lag_change (λ l, set_lag_discarded (fadd (lg_discarded l) x) l) else skip.

Definition _lag_seconds (l : Lag) : pyfloat :=
  fmax fzero (fsub (fsub (lg_received l) (lg_processed l)) (lg_discarded l)).

Definition _terminate_for_lag : co Live () :=
  s ← get id;
  if lv_ended s then skip
  else
    modify (lv_terminate LAG_EXCEEDED);;
    _send_error LAG_EXCEEDED "Realtime lag budget exceeded" false;;
    _send (SessionTerminated (cf_session_id (lv_config s)) LAG_EXCEEDED false);;
    switch.                                     (* [websocket.close] *)

Definition warning_due (l : Lag) (check_time : pyfloat) : bool :=
  match lg_last_warning_at l with
  | None => true
  | Some t => fle LAG_WARNING_RATE_LIMIT_SECONDS (fsub check_time t)
  end.

(** What is done under the lock. *)
Definition evaluate (check_time : pyfloat) : co Live () :=
  s ← get id;
  if lv_ended s then skip
  else
    let c := lv_config s in
    let lag_seconds := _lag_seconds (lv_lag s) in
    (if fle (cf_lag_warning_seconds c) lag_seconds && warning_due (lv_lag s) check_time then
       _send (LagWarning (round3 lag_seconds) (cf_lag_warning_seconds c) (cf_lag_hard_seconds c));;
       lag_change (set_lag_warned check_time)
     else skip);;
    modify (emit (Measured check_time lag_seconds));;
    if flt lag_seconds (cf_lag_hard_seconds c) then lag_change (set_lag_since None)
    else
      since ← get (λ s, lg_hard_exceeded_since (lv_lag s));
      match since with
      | None => lag_change (set_lag_since (Some check_time))
      | Some t =>
          if flt (fsub check_time t) (cf_lag_hard_grace_seconds c) then skip
          else _terminate_for_lag
      end.

(** [async with self._lag_eval_lock], for the task [i]. *)
Definition locking (i : nat) (body : co Live ()) : co Live () :=
  locked ← get (λ s, lg_locked (lv_lag s));
  (if bool_decide (is_Some locked) then await (λ s, bool_decide (lg_locked (lv_lag s) = None)) else skip);;
  lag_change (set_lag_locked (Some i));;
  cfinally body (lag_change (set_lag_locked None)).

Definition _evaluate_lag_budget (i : nat) : co Live () :=
  s ← get id;
  if lv_ended s then skip else locking i (evaluate (lv_clock s)).

(** A loop that has gone round more often than it is followed. *)
Definition blocked : co Live () := await (λ _, false).

Fixpoint _lag_monitor_loop (n : nat) : co Live () :=
  ended ← get lv_ended;
  if (ended : bool) then skip
  else
    match n with
    | O => blocked
    | S n => _evaluate_lag_budget 1;; switch;; _lag_monitor_loop n
    end.

Definition set_task_done (r : res task_exn ()) (t : AsyncTask) : AsyncTask :=
  {| tk_created := tk_created t; tk_cancel := tk_cancel t; tk_done := Some r |}.
Definition created_task : AsyncTask := {| tk_created := true; tk_cancel := false; tk_done := None |}.
Definition cancel_async (t : AsyncTask) : AsyncTask :=
  {| tk_created := tk_created t; tk_cancel := true; tk_done := tk_done t |}.

(** The task: [CancelledError] ends the loop. *)
Definition monitor_task (n : nat) : co Live () :=
  cthen (await (λ s, tk_created (lv_monitor s));; _lag_monitor_loop n) (λ r,
    modify (λ s, lv_set_monitor (set_task_done r (lv_monitor s)) s)).

(** [await task], and what [except CancelledError: pass] lets through. *)
Definition await_monitor : co Live () :=
  await (λ s, bool_decide (is_Some (tk_done (lv_monitor s))));;
  done ← get (λ s, tk_done (lv_monitor s));
  match done with Some (Raise (Failure text)) => raise text | _ => skip end.

Definition _stop_lag_monitor : co Live () :=
  created ← get (λ s, tk_created (lv_monitor s));
  if (created : bool) then
    modify (λ s, lv_set_monitor (cancel_async (lv_monitor s)) s);;
    await_monitor
  else skip.

(** ** Transcription *)

(** A pydantic field [language: str | None], set to what the configuration holds. *)
Definition language_field (v : json) : res string (option string) :=
  match v with
  | JStr s => Ok (Some s)
  | JNull => Ok None
  | _ => Raise (validation_text v)
  end.

Definition _build_transcribe_params (c : SessionConfig) : res string TranscriptionRequest :=
  language ← language_field (cf_language c);
  Ok {| rq_loaded_model_id := cf_model c; rq_language := language;
        rq_vocabulary := cf_vocabulary c; rq_word_timestamps := cf_word_timestamps c;
        rq_vad_filter := cf_enable_vad c; rq_task := "transcribe" |}.

(** [asyncio.to_thread(self._transcribe_fn, audio, params)]; [e] tells of it. *)
Definition call_engine (e : list session_event) audio (params : TranscriptionRequest) : co Live Utterance :=
  n ← act (λ s, (lv_set_calls (S (lv_calls s)) (lv_set_trace (lv_trace s ++ e) s), lv_calls s));
  switch;;
  lift (transcribe_fn n audio params).

Definition word_info (w : Word) : WordInfo := {|
  wi_word := wd_word w; wi_start := wd_start w; wi_end := wd_end w;
  wi_confidence := wd_confidence w |}.

Definition final_message (c : SessionConfig) (segment : Segment) : ServerMessage :=
  let words := if cf_word_timestamps c
    then match sm_words segment with [] => None | l => Some (map word_info l) end else None in
  TranscriptFinal (sm_text segment) (sm_start segment) (sm_end segment) (sm_confidence segment) words.

Definition assemble_segment (t : Utterance) (d : pyfloat) : co Live Segment :=
  act (λ s, let '(a, segment) := add_transcript t d (lv_assembler s) in
    (lv_set_assembler a s, segment)).

Definition samples_of audio : Z := Z.of_nat (length audio).

Definition _transcribe_and_send audio : co Live () :=
  ended ← get lv_ended;
  if (ended : bool) then skip
  else
    ctry (
      c ← get lv_config;
      params ← lift (_build_transcribe_params c);
      let audio_duration := _samples_to_seconds c (samples_of audio) in
      result ← call_engine [Given audio] audio params;
      s ← get id;
      if lv_ended s || String.eqb (ut_text result) "" then skip
      else
        segment ← assemble_segment result audio_duration;
        _send (final_message (lv_config s) segment))
    (λ text, _send_error INTERNAL_ERROR ("Transcription failed: " +:+ text) true).

Definition _send_partial_result : co Live () :=
  s ← get id;
  match lv_ended s, lv_speech_audio_buffer s with
  | true, _ | _, [] => skip
  | false, chunks =>
      ctry (
        let audio := concat chunks in
        params ← lift (_build_transcribe_params (lv_config s));
        result ← call_engine [] audio params;
        s ← get id;
        if lv_ended s || String.eqb (ut_text result) "" then skip
        else
          let audio_duration := _samples_to_seconds (lv_config s) (samples_of audio) in
          let start_time := as_current_time (lv_assembler s) in
          _send (TranscriptPartial (ut_text result) start_time (fadd start_time audio_duration)))
      (λ _, skip)
  end.

(** ** Streaming decode *)

(** [_extract_words] *)
Definition _extract_words (t : Utterance) : list Word :=
  ut_segments t ≫= λ s, map (λ w, {|
    wd_word := uw_text w; wd_start := uw_start w; wd_end := uw_end w;
    wd_confidence := default fzero (uw_confidence w) |}) (default [] (us_words s)).

(** What the final transcript of streamed words is built from. *)
Definition streamed_utterance (parts : list string) (words : list Word) : Utterance * pyfloat :=
  let confidences := List.filter f_truthy (map wd_confidence words) in
  let avg_confidence := match confidences with
    | [] => float_lit 95 100
    | _ => fdiv (py_sum confidences) (float_of_Z (Z.of_nat (length confidences)))
    end in
  let audio_duration := match last words with Some w => wd_end w | None => fzero end in
  ({| ut_text := join_words parts;
      ut_segments := [{| us_words := Some (map (λ w, {|
        uw_text := wd_word w; uw_start := wd_start w; uw_end := wd_end w;
        uw_confidence := Some (wd_confidence w) |}) words); us_confidence := Some avg_confidence |}];
      ut_language_confidence := Some avg_confidence |}, audio_duration).

Definition _flush_streaming_final : co Live () :=
  s ← get id;
  match sg_parts (lv_streaming s) with
  | [] => skip
  | parts =>
      let '(result, audio_duration) := streamed_utterance parts (sg_words (lv_streaming s)) in
      match cf_language (lv_config s) with
      | JStr _ =>                               (* [Transcript(language=...)] takes only a string *)
          segment ← assemble_segment result audio_duration;
          _send (final_message (lv_config s) segment);;
          streaming_change (set_sg_words [] [] 0)
      | v => raise (validation_text v)
      end
  end.

(** The queue takes a hundred chunks. *)
Definition put_chunk (x : option (list sample)) : co Live () :=
  g ← get lv_streaming;
  match sg_queue g with
  | None => skip
  | Some _ =>
      await (λ s, match sg_queue (lv_streaming s) with
                  | Some l => length l <? 100 | None => true end);;
      streaming_change (λ g, set_sg_queue (l ← sg_queue g; Some (l ++ [x])) g)
  end.

(** One result of the decoder. *)
Definition streamed (result : Utterance) : co Live () :=
  match _extract_words result with
  | [] => skip
  | word :: _ as words =>
      if String.eqb (ut_text result) "" then skip
      else
        streaming_change (λ g, set_sg_words (sg_parts g ++ [ut_text result]) (sg_words g ++ words)
          (sg_word_count g + length words) g);;
        s ← get id;
        if cf_interim_results (lv_config s) then
          _send (TranscriptPartial (join_words (sg_parts (lv_streaming s))) (wd_start word)
            (wd_end word))
        else skip
  end.

Definition next_result : co Live (option Utterance) :=
  await (λ s, negb (length (sg_results (lv_streaming s)) =? 0));;
  act (λ s, let g := lv_streaming s in
    (lv_set_streaming (set_sg_results (sg_thread g) (tail (sg_results g)) g) s,
     default None (head (sg_results g)))).

(** The loop over the results of the thread. *)
Fixpoint _streaming_decode_loop (n : nat) : co Live () :=
  match n with
  | O => blocked
  | S n =>
      result ← next_result;
      match result with
      | None => skip
      | Some result =>
          ended ← get lv_ended;
          if (ended : bool) then skip else streamed result;; _streaming_decode_loop n
      end
  end.

(** The task; [except Exception] only logs. *)
Definition decoder_task (n : nat) : co Live () :=
  cthen (
    await (λ s, tk_created (lv_decoder s));;
    streaming_change (λ g, set_sg_results true (sg_results g) g);;  (* [run_in_executor] *)
    ctry (_streaming_decode_loop n) (λ _, skip)) (λ r,
    modify (λ s, lv_set_decoder (set_task_done r (lv_decoder s)) s)).

(** [asyncio.wait_for]: the task ends in time, or it is cancelled and waited for. *)
Definition _stop_streaming_decode : co Live () :=
  put_chunk None;;
  created ← get (λ s, tk_created (lv_decoder s));
  if (created : bool) then
    switch;;
    ended ← get (λ s, bool_decide (is_Some (tk_done (lv_decoder s))));
    if (ended : bool) then skip
    else
      modify (λ s, lv_set_decoder (cancel_async (lv_decoder s)) s);;
      await (λ s, bool_decide (is_Some (tk_done (lv_decoder s))))
  else skip.

(** ** Chunks *)

Definition _maybe_apply_debug_chunk_sleep : co Live () :=
  delay_seconds ← act (λ s,
    let d := lv_next_debug_chunk_sleep s in
    (lv_set_next_debug_chunk_sleep
       (fmax fzero (fadd d (cf_debug_chunk_sleep_increment_seconds (lv_config s)))) s, d));
  if fle delay_seconds fzero then skip else switch.

Definition current_time : co Live pyfloat := get (λ s, as_current_time (lv_assembler s)).
Definition set_speech_state (buffer : list (list sample)) (n : Z) : co Live () :=
  modify (lv_set_speech buffer n).
Definition hear_audio (v : VADProcessor sample model) audio : co Live (VADResult sample) :=
  c ← get lv_config;
  if negb (comparable (cf_vad_threshold c)) then raise (exn_text TypeError)
  else act (λ s, let '(v, r) := process_chunk v audio in (lv_set_vad (Some v) s, r)).

Definition speech_started : co Live () := t ← current_time; _send (VADSpeechStart t).
Definition speech_ended : co Live () := t ← current_time; _send (VADSpeechEnd t).

(** [if audio is not None and len(audio) > 0] *)
Definition transcribe_some (o : option (list sample)) : co Live () :=
  match o with
  | Some (_ :: _ as audio) => _transcribe_and_send audio
  | _ => skip
  end.

Definition _process_chunk_streaming audio : co Live () :=
  put_chunk (Some audio);;
  v ← get lv_vad;
  match v with
  | None => skip
  | Some v =>
      r ← hear_audio v audio;
      match vr_event r with
      | Some speech_start => speech_started
      | Some speech_end => speech_ended;; _flush_streaming_final
      | None => skip
      end
  end.

Definition PARTIAL_RESULT_INTERVAL_CHUNKS : Z := 5.

Definition partial_if_due : co Live () :=
  n ← get lv_chunks_since_partial;
  if (PARTIAL_RESULT_INTERVAL_CHUNKS <=? n)%Z then
    _send_partial_result;;
    modify (λ s, lv_set_speech (lv_speech_audio_buffer s) 0 s)
  else skip.

(** The chunk is kept for the transcripts of what is being said. *)
Definition accumulate audio : co Live () :=
  modify (λ s, lv_set_speech (lv_speech_audio_buffer s ++ [audio]) (lv_chunks_since_partial s + 1) s).

Definition _process_chunk_no_vad audio : co Live () :=
  s ← get id;
  if lv_ended s then skip
  else
    accumulate audio;;
    (if lv_native_streaming s && cf_interim_results (lv_config s) then partial_if_due else skip);;
    s ← get id;
    let max := cf_max_utterance_duration (lv_config s) in
    if flt fzero max &&
       fle max (_samples_to_seconds (lv_config s) (samples_of (concat (lv_speech_audio_buffer s))))
    then
      (match lv_speech_audio_buffer s with
       | [] => skip
       | chunks => _transcribe_and_send (concat chunks)
       end);;
      set_speech_state [] 0
    else skip.

Definition force_vad_endpoint (v : VADProcessor sample model) : co Live (option (list sample)) :=
  act (λ s, let '(v, o) := force_endpoint v in (lv_set_vad (Some v) s, o)).

Definition _check_max_utterance_duration (v : VADProcessor sample model) : co Live () :=
  c ← get lv_config;
  if fle (cf_max_utterance_duration c)
       (_samples_to_seconds c (Z.of_nat (get_speech_buffer_samples v))) then
    (if cf_enable_vad c then speech_ended else skip);;
    speech_audio ← force_vad_endpoint v;
    transcribe_some speech_audio;;
    set_speech_state [] 0;;
    (if cf_enable_vad c then speech_started else skip)
  else skip.

Definition _process_chunk_vad (v : VADProcessor sample model) audio : co Live () :=
  r ← hear_audio v audio;
  s ← get id;
  (match vr_event r with
   | Some speech_start => set_speech_state [] 0;; speech_started
   | Some speech_end => speech_ended;; set_speech_state [] 0;; transcribe_some (vr_speech_audio r)
   | None =>
       if match lv_vad s with Some v => is_speaking v | None => false end &&
          lv_native_streaming s && cf_interim_results (lv_config s)
       then accumulate audio;; partial_if_due
       else skip
   end);;
  s ← get id;
  match lv_vad s with
  | Some v =>
      if is_speaking v && flt fzero (cf_max_utterance_duration (lv_config s))
      then _check_max_utterance_duration v else skip
  | None => skip
  end.

Definition _process_chunk audio : co Live () :=
  s ← get id;
  if lv_ended s then skip
  else
    _maybe_apply_debug_chunk_sleep;;
    s ← get id;
    if sg_active (lv_streaming s) then _process_chunk_streaming audio
    else
      match lv_vad s with
      | None => _process_chunk_no_vad audio
      | Some v => _process_chunk_vad v audio
      end.

(** ** Storage *)

Definition MAX_RAW_AUDIO_BUFFER_BYTES : Z := 10 * 1024 * 1024.

(** A call on the storage of the session. *)
Definition on_storage {A} (f : storage → storage * res string A) : co Live A :=
  r ← act (λ s,
    match rc_storage (lv_recording s) with
    | Some x =>
        let '(x, r) := f x in (lv_set_recording (set_rc_storage (Some x) (lv_recording s)) s, r)
    | None => (s, Raise (exn_text AttributeError))
    end);
  switch;;
  lift r.

Definition _init_storage : co Live () :=
  c ← get lv_config;
  if negb (cf_store_audio c) && negb (cf_store_transcript c) then skip
  else
    ctry (
      recording_change (set_rc_storage (Some (new_storage (cf_store_audio c) (cf_store_transcript c))));;
      on_storage (storage_start (cf_session_id c) c);;
      raw ← get (λ s, rc_raw (lv_recording s));
      cfor (λ chunk, on_storage (append_audio chunk)) raw;;
      recording_change (λ r, set_rc_raw [] 0 (rc_init_failed r) r))
    (λ _, recording_change (set_rc_raw [] 0 true)).

Definition _cleanup_storage : co Live () :=
  r ← get lv_recording;
  match rc_storage r with
  | None => skip
  | Some _ => ctry (on_storage abort) (λ _, skip);; recording_change (set_rc_storage None)
  end.

Definition record_raw_audio (data : bytes) : co Live () :=
  s ← get id;
  if negb (cf_store_audio (lv_config s)) then skip
  else
    match rc_storage (lv_recording s) with
    | Some _ => ctry (on_storage (append_audio data)) (λ _, skip)
    | None =>
        if rc_init_failed (lv_recording s) then skip
        else
          let new_size := (rc_raw_bytes (lv_recording s) + Z.of_nat (length data))%Z in
          if (new_size <=? MAX_RAW_AUDIO_BUFFER_BYTES)%Z then
            recording_change (λ r, set_rc_raw (rc_raw r ++ [data]) new_size false r)
          else recording_change (set_rc_raw [] 0 true)
    end.

(** ** Messages in *)

Definition buffer_add (data : bytes) : co Live () :=
  b ← get lv_buffer;
  b' ← py (add_audio data b);
  modify (λ s, emit (Heard (drop (length (ab_buffer b)) (ab_buffer b'))) (lv_set_buffer b' s)).

Definition buffer_chunk : co Live (option (list sample)) :=
  act (λ s, let '(b, o) := get_chunk (lv_buffer s) in (lv_set_buffer b s, o)).

(** The loop on the chunks of the buffer, which only this task changes.  A buffer of [n]
    samples has at most [n] chunks; if chunks are empty, the loop does not end. *)
Fixpoint process_chunks (n : nat) : co Live () :=
  ended ← get lv_ended;
  if (ended : bool) then skip
  else
    match n with
    | O => blocked
    | S n =>
        chunk ← buffer_chunk;
        match chunk with
        | None => skip
        | Some audio =>
            _process_chunk audio;;
            c ← get lv_config;
            _record_processed_audio (_samples_to_seconds c (samples_of audio));;
            _evaluate_lag_budget 0;;
            process_chunks n
        end
    end.

Definition _handle_audio (data : bytes) : co Live () :=
  ended ← get lv_ended;
  if (ended : bool) then skip
  else
    record_raw_audio data;;
    buffer_add data;;
    _record_received_audio (Z.of_nat (length data));;
    _evaluate_lag_budget 0;;
    n ← get (λ s, length (ab_buffer (lv_buffer s)));
    process_chunks (S n).

Definition set_vad_settings (threshold silence : pyfloat) (lookback : Z)
    (v : VADProcessor sample model) : VADProcessor sample model :=
  let c := vp_config v in
  {| vp_config := {| vc_speech_threshold := threshold;
       vc_min_speech_duration := vc_min_speech_duration c; vc_min_silence_duration := silence;
       vc_sample_rate := vc_sample_rate c; vc_lookback_chunks := lookback |};
     vp_model := vp_model v; vp_state := vp_state v; vp_speech_buffer := vp_speech_buffer v;
     vp_lookback_buffer := vp_lookback_buffer v; vp_silence_duration := vp_silence_duration v;
     vp_speech_duration := vp_speech_duration v |}.

Definition change_config (f : SessionConfig → SessionConfig) : co Live () :=
  modify (λ s, lv_set_config (f (lv_config s)) s).
Definition change_vad (f : VADProcessor sample model → VADProcessor sample model) : co Live () :=
  modify (λ s, lv_set_vad (option_map f (lv_vad s)) s).

(** [if self._vad is not None: ...], with a number that may fail to be one. *)
Definition update_vad {A} (r : res pyexn A)
    (f : A → VADProcessor sample model → VADProcessor sample model) : co Live () :=
  v ← get lv_vad;
  match v with
  | None => skip
  | Some _ => x ← py r; change_vad (f x)
  end.

(** The parts of a configuration that are in effect. *)
Definition _update_config (language vad_threshold min_silence prefix : json) : co Live () :=
  (if truthy language then
     change_config (λ c, put_config language (cf_vad_threshold c) (cf_min_silence_duration_ms c)
       (cf_prefix_padding_ms c) c)
   else skip);;
  (if is_null vad_threshold then skip
   else
     change_config (λ c, put_config (cf_language c) vad_threshold (cf_min_silence_duration_ms c)
       (cf_prefix_padding_ms c) c);;
     change_vad (λ v, set_vad_settings (threshold_of vad_threshold)
       (vc_min_silence_duration (vp_config v)) (vc_lookback_chunks (vp_config v)) v));;
  (if is_null min_silence then skip
   else
     change_config (λ c, put_config (cf_language c) (cf_vad_threshold c) min_silence
       (cf_prefix_padding_ms c) c);;
     update_vad (json_ms min_silence) (λ x v, set_vad_settings (vc_speech_threshold (vp_config v)) x
       (vc_lookback_chunks (vp_config v)) v));;
  (if is_null prefix then skip
   else
     change_config (λ c, put_config (cf_language c) (cf_vad_threshold c)
       (cf_min_silence_duration_ms c) prefix c);;
     b ← get lv_buffer;
     update_vad (q ← json_div prefix (ab_chunk_duration_ms b); lookback_of q)
       (λ n v, set_vad_settings (vc_speech_threshold (vp_config v))
         (vc_min_silence_duration (vp_config v)) n v)).

(** [self._vad.flush()], if there is a detector. *)
Definition flush_vad : co Live (option (list sample)) :=
  act (λ s,
    match lv_vad s with
    | Some v => let '(v, o) := flush v in (lv_set_vad (Some v) s, o)
    | None => (s, None)
    end).

Definition _flush : co Live () :=
  s ← get id;
  let streaming := sg_active (lv_streaming s) in
  (if streaming then _flush_streaming_final else skip);;
  remaining ← flush_vad;
  (if streaming then skip else transcribe_some remaining);;
  remaining ← act (λ s, let '(b, o) := flush_buffer (lv_buffer s) in (lv_set_buffer b s, o));
  match remaining with
  | None => skip
  | Some audio =>
      c ← get lv_config;
      let remaining_duration := _samples_to_seconds c (samples_of audio) in
      if flt (float_lit 1 10) remaining_duration then
        (if streaming then skip else _transcribe_and_send audio);;
        _record_processed_audio remaining_duration
      else modify (emit (Dropped audio));; _record_discarded_audio remaining_duration
  end.

Definition _clear : co Live () :=
  change_vad clear;;
  discarded ← act (λ s, let '(b, d) := clear_buffer (lv_buffer s) in
    (emit (Dropped (ab_buffer (lv_buffer s))) (lv_set_buffer b s), d));
  _record_discarded_audio discarded;;
  set_speech_state [] 0;;
  streaming_change (set_sg_words [] [] 0).

Definition utterance_json (i : nat) (s : Segment) : json :=
  JObj [("id", JInt (Z.of_nat i)); ("start", JFloat (sm_start s)); ("end", JFloat (sm_end s));
        ("text", JStr (sm_text s));
        ("words", JList (map (λ w, WordInfo_to_dict (word_info w)) (sm_words s)))].

Definition transcript_data (s : Live) : json :=
  let a := lv_assembler s in
  JObj [("session_id", JStr (cf_session_id (lv_config s))); ("language", cf_language (lv_config s));
        ("duration_seconds", JFloat (as_current_time a)); ("text", JStr (get_full_transcript a));
        ("utterances", JList (imap utterance_json (get_segments a)))].

(** The uris of what was stored, if it could be. *)
Definition finalize_storage : co Live (option string * option string) :=
  s ← get id;
  match rc_storage (lv_recording s) with
  | None => mret (None, None)
  | Some _ =>
      ctry (on_storage (save_transcript (transcript_data s));; on_storage finalize)
        (λ _, mret (None, None))
  end.

Definition _send_session_end : co Live () :=
  s ← get id;
  (match lv_vad s with
   | Some _ => remaining ← flush_vad; transcribe_some remaining
   | None =>
       match lv_speech_audio_buffer s with
       | [] => skip
       | chunks =>
           _transcribe_and_send (concat chunks);;
           modify (λ s, lv_set_speech [] (lv_chunks_since_partial s) s)
       end
   end);;
  segments ← get (λ s, map (λ s, {| si_start := sm_start s; si_end := sm_end s;
    si_text := sm_text s |}) (get_segments (lv_assembler s)));
  uris ← finalize_storage;
  _cleanup_storage;;
  s ← get id;
  _send (SessionEnd (cf_session_id (lv_config s)) (get_total_duration (lv_buffer s))
    (as_current_time (lv_assembler s)) (get_full_transcript (lv_assembler s)) segments
    uris.1 uris.2);;
  modify lv_set_ended.

Definition _end : co Live () :=
  s ← get id;
  if sg_active (lv_streaming s) then modify (lv_set_close_requested true)
  else _send_session_end;; modify lv_set_ended.

Definition _handle_control (message : res string json) : co Live () :=
  ended ← get lv_ended;
  if (ended : bool) then skip
  else
    match parse_client_message message with
    | Raise text => _send_error INVALID_MESSAGE text true
    | Ok parsed =>
        (match parsed with
         | ConfigUpdateMessage language threshold silence prefix =>
             _update_config language threshold silence prefix
         | FlushMessage => _flush
         | ClearMessage => _clear
         | EndMessage => _end
         end);;
        _evaluate_lag_budget 0
    end.

(** ** The session *)

Definition next_incoming : co Live Incoming :=
  await (λ s, negb (length (lv_inbox s) =? 0));;
  act (λ s, (lv_set_inbox (tail (lv_inbox s)) s, default (Closed None) (head (lv_inbox s)))).

(** [async for message in self.websocket], for at most [n] messages. *)
Fixpoint messages (n : nat) : co Live () :=
  match n with
  | O => blocked
  | S n =>
      message ← next_incoming;
      let next :=
        s ← get id;
        if lv_ended s || lv_close_requested s then skip else messages n in
      match message with
      | Closed None => skip
      | Closed (Some text) => raise text
      | Binary data => _handle_audio data;; next
      | Text data => _handle_control data;; next
      end
  end.

Definition failed (text : string) : co Live () :=
  terminated ← get lv_lag_terminated;
  if (terminated : bool) then skip
  else
    modify (lv_set_error text);;
    _send_error INTERNAL_ERROR ("Internal error: " +:+ text) false.

Definition finish : co Live () :=
  s ← get id;
  (if sg_active (lv_streaming s) then _stop_streaming_decode;; _flush_streaming_final else skip);;
  _stop_lag_monitor;;
  ended ← get lv_ended;
  (if (ended : bool) then skip else ctry _send_session_end (λ _, skip));;
  r ← get lv_recording;
  match rc_storage r with Some _ => _cleanup_storage | None => skip end.

(** ["error" if self._error else "completed"] *)
Definition session_status (s : Live) : string :=
  if String.eqb (default "" (lv_error s)) "" then "completed" else "error".

Definition main_task (n : nat) : co Live () :=
  _send_session_begin;;
  _init_storage;;
  modify (λ s, lv_set_monitor created_task s);;
  s ← get id;
  (if sg_active (lv_streaming s) then
     streaming_change (set_sg_queue (Some []));;
     modify (λ s, lv_set_decoder created_task s)
   else skip);;
  cfinally (ctry (messages n) failed) finish;;
  modify (λ s, emit (Reported (session_status s)) s).

Definition new_vad_config (c : SessionConfig) : res pyexn VADConfig :=
  silence ← json_ms (cf_min_silence_duration_ms c);
  padding ← json_float (cf_prefix_padding_ms c);
  lookback ← lookback_of (fdiv padding (float_of_Z 100));
  Ok {| vc_speech_threshold := threshold_of (cf_vad_threshold c);
        vc_min_speech_duration := fdiv (float_of_Z (cf_min_speech_duration_ms c)) (float_of_Z 1000);
        vc_min_silence_duration := silence; vc_sample_rate := cf_sample_rate c;
        vc_lookback_chunks := lookback |}.

(** [SessionHandler(...)]; [m] is the model of the detector. *)
Definition new_session (c : SessionConfig) (m : model) (native_streaming streaming : bool)
    (clock : pyfloat) : res pyexn Live :=
  buffer ← new_audio_buffer c;
  vad ← (if cf_enable_vad c then vc ← new_vad_config c; Ok (Some (new_vad vc m)) else Ok None);
  let no_task := {| tk_created := false; tk_cancel := false; tk_done := None |} in
  Ok {| lv_config := c; lv_native_streaming := native_streaming; lv_buffer := buffer; lv_vad := vad;
        lv_assembler := new_assembler; lv_error := None; lv_ended := false;
        lv_lag_terminated := false; lv_close_requested := false; lv_chunks_since_partial := 0;
        lv_speech_audio_buffer := [];
        lv_next_debug_chunk_sleep := cf_debug_chunk_sleep_initial_seconds c;
        lv_lag := {| lg_received := fzero; lg_processed := fzero; lg_discarded := fzero;
          lg_hard_exceeded_since := None; lg_last_warning_at := None; lg_locked := None |};
        lv_streaming := {| sg_active := streaming; sg_queue := None; sg_parts := []; sg_words := [];
          sg_word_count := 0; sg_thread := false; sg_results := [] |};
        lv_recording := {| rc_storage := None; rc_raw := []; rc_raw_bytes := 0;
          rc_init_failed := false |};
        lv_monitor := no_task; lv_decoder := no_task; lv_clock := clock; lv_inbox := [];
        lv_calls := 0; lv_trace := [] |}.

(** ** The loop *)

(** What the world does: the client sends, of what it sends, or the connection closes; time
    passes; the thread of the engine takes a chunk, yields a result, or ends. *)
Inductive world_move : Type :=
  | Arrive (m : Incoming)
  | Tick (t : pyfloat)
  | Take
  | Yield (t : Utterance)
  | ThreadEnds.

Definition world (client : Incoming → bool) (m : world_move) (s : Live) : option Live :=
  let g := lv_streaming s in
  match m with
  | Arrive m => if client m then Some (lv_set_inbox (lv_inbox s ++ [m]) s) else None
  | Tick t => if flt (lv_clock s) t then Some (lv_set_clock t s) else None
  | Take =>
      match sg_queue g with
      | Some (_ :: l) =>
          if sg_thread g then Some (lv_set_streaming (set_sg_queue (Some l) g) s) else None
      | _ => None
      end
  | Yield t =>
      if sg_thread g
      then Some (lv_set_streaming (set_sg_results true (sg_results g ++ [Some t]) g) s) else None
  | ThreadEnds =>
      if sg_thread g
      then Some (lv_set_streaming (set_sg_results false (sg_results g ++ [None]) g) s) else None
  end.

Definition task_cancelled (t : AsyncTask) : bool :=
  tk_cancel t && bool_decide (tk_done t = None).

(** The main task is the first; [client] are the messages the client may send. *)
Definition session_loop (client : Incoming → bool) : EventLoop Live := {|
  move := world_move;
  outside := world client;
  cancelled i s :=
    match i with
    | 1 => task_cancelled (lv_monitor s)
    | 2 => task_cancelled (lv_decoder s)
    | _ => false
    end;
|}.

(** A session; loops are followed for [n] rounds. *)
Definition start (n : nat) (s : Live) : Loop := {|
  l_state := s;
  l_tasks := [switch;; main_task n; monitor_task n; decoder_task n];
|}.
End session.
