(* ===== verification/RtSessionSpec.v ===== *)
(** * What a realtime session promises

    The tasks of [RtSession] under any schedule: what is sent and in which order, when a
    session is terminated for its lag, and what becomes of its audio. *)

From Stdlib Require Import Strings.Byte.
From S2P Require Import Prelude PyValue Times Numeric Asyncio Vad SessionTranscript RtSession.

Section spec.
Context {sample model : Type} `{Silero sample model, SessionEngine sample, SessionStorage}.
Abbreviation St := (Live (sample := sample) (model := model)).
Implicit Type s : St.
Abbreviation trace := (list (session_event (sample := sample))).

(** ** What a trace says *)

Definition sents (tr : trace) : list ServerMessage :=
  omap (λ e, match e with Sent m => Some m | _ => None end) tr.
Definition givens (tr : trace) : list (list sample) :=
  omap (λ e, match e with Given a => Some a | _ => None end) tr.
Definition heards (tr : trace) : list (list sample) :=
  omap (λ e, match e with Heard a => Some a | _ => None end) tr.
Definition measures (tr : trace) : list (pyfloat * pyfloat) :=
  omap (λ e, match e with Measured t lag => Some (t, lag) | _ => None end) tr.

Definition is_begin (m : ServerMessage) : bool := match m with SessionBegin _ _ => true | _ => false end.
Definition is_end (m : ServerMessage) : bool :=
  match m with SessionEnd _ _ _ _ _ _ _ => true | _ => false end.
Definition is_terminated (m : ServerMessage) : bool :=
  match m with SessionTerminated _ _ _ => true | _ => false end.
Definition is_lag_error (m : ServerMessage) : bool :=
  match m with ErrorMessage code _ _ => String.eqb code LAG_EXCEEDED | _ => false end.
Definition how_many (f : ServerMessage → bool) (tr : trace) : nat :=
  length (List.filter f (sents tr)).

(** The measures from one at [t] on all show a lag of [hard] or more. *)
Definition hard_run (hard t : pyfloat) (tr : trace) : Prop :=
  ∃ l1 lag l2, tr = l1 ++ Measured t lag :: l2 ∧
    Forall (λ m, flt m.2 hard = false) (measures (Measured t lag :: l2)).

(** Two measures at least [grace] apart, and none from the one to the other below [hard]. *)
Definition justified (hard grace : pyfloat) (tr : trace) : Prop :=
  ∃ l1 t lag l2 now lag' l3, tr = l1 ++ (Measured t lag :: l2 ++ [Measured now lag']) ++ l3 ∧
    Forall (λ m, flt m.2 hard = false) (measures (Measured t lag :: l2 ++ [Measured now lag'])) ∧
    flt (fsub now t) grace = false.

Lemma sents_app l1 l2 : sents (l1 ++ l2) = sents l1 ++ sents l2.
Proof. apply omap_app. Qed.
Lemma givens_app l1 l2 : givens (l1 ++ l2) = givens l1 ++ givens l2.
Proof. apply omap_app. Qed.
Lemma heards_app l1 l2 : heards (l1 ++ l2) = heards l1 ++ heards l2.
Proof. apply omap_app. Qed.
Lemma measures_app l1 l2 : measures (l1 ++ l2) = measures l1 ++ measures l2.
Proof. apply omap_app. Qed.
Lemma how_many_app f l1 l2 : how_many f (l1 ++ l2) = how_many f l1 + how_many f l2.
Proof. unfold how_many. by rewrite sents_app, List.filter_app, length_app. Qed.

Lemma hard_run_more hard t tr l : measures l = [] → hard_run hard t tr → hard_run hard t (tr ++ l).
Proof.
  intros Hl (l1 & lag & l2 & -> & Hall). exists l1, lag, (l2 ++ l). rewrite <- app_assoc. split; [done|].
  rewrite app_comm_cons, measures_app, Hl, app_nil_r. done.
Qed.

Lemma hard_run_measured hard t tr now lag :
  flt lag hard = false → hard_run hard t tr → hard_run hard t (tr ++ [Measured now lag]).
Proof.
  intros Hl (l1 & lag0 & l2 & -> & Hall). exists l1, lag0, (l2 ++ [Measured now lag]).
  rewrite <- app_assoc. split; [done|].
  rewrite app_comm_cons, measures_app. apply Forall_app. split; [done|]. by constructor.
Qed.

Lemma hard_run_start hard tr now lag :
  flt lag hard = false → hard_run hard now (tr ++ [Measured now lag]).
Proof. intros Hl. exists tr, lag, []. split; [done|]. by constructor. Qed.

Lemma justified_more hard grace tr l : justified hard grace tr → justified hard grace (tr ++ l).
Proof.
  intros (l1 & t & lag & l2 & now & lag' & l3 & -> & Hj). exists l1, t, lag, l2, now, lag', (l3 ++ l).
  split; [|done]. by rewrite <- !app_assoc.
Qed.

Lemma justified_now hard grace t tr now lag :
  flt lag hard = false → flt (fsub now t) grace = false → hard_run hard t tr →
  justified hard grace (tr ++ [Measured now lag]).
Proof.
  intros Hl Hg (l1 & lag0 & l2 & -> & Hall). exists l1, t, lag0, l2, now, lag, [].
  split; [by rewrite app_nil_r, <- app_assoc|]. split; [|done].
  rewrite app_comm_cons, measures_app. apply Forall_app. split; [done|]. by constructor.
Qed.

(** ** The invariant *)

Definition begun_with (tr : trace) : Prop := ∃ m, head (sents tr) = Some m ∧ is_begin m = true.

Lemma begun_with_app tr l : begun_with tr → begun_with (tr ++ l).
Proof.
  intros (m & Hm & Hb). exists m. split; [|done]. rewrite sents_app. by destruct (sents tr).
Qed.

Record session_ok (tr : trace) (terminated ended created : bool) (since : option pyfloat)
    (hard grace : pyfloat) (monitor : option (res task_exn ())) : Prop := {
  so_begun : begun_with tr ∨ tr = [] ∧ created = false;
  so_ended : terminated = true → ended = true;
  so_lag_error : how_many is_lag_error tr = if terminated then 1 else 0;
  so_after : ∀ l1 m l2, tr = l1 ++ Sent m :: l2 → is_lag_error m = true →
    Forall (λ m, after_termination m = true) (sents l2);
  so_terminated : how_many is_terminated tr ≤ if terminated then 1 else 0;
  so_since : ∀ t, since = Some t → hard_run hard t tr;
  so_justified : terminated = true → justified hard grace tr;
  so_ends : how_many is_end tr ≤ 1;
  so_monitor : ∀ t, monitor ≠ Some (Raise (Failure t));
}.

Definition since_of s : option pyfloat := lg_hard_exceeded_since (lv_lag s).
Definition lock_of s : option nat := lg_locked (lv_lag s).
Definition created_of s : bool := tk_created (lv_monitor s) || tk_created (lv_decoder s).
Definition done_of s : option (res task_exn ()) := tk_done (lv_monitor s).
(** What never changes: the limits of the lag, and whether the decoder streams. *)
Definition limits_of s : pyfloat * pyfloat * bool :=
  (cf_lag_hard_seconds (lv_config s), cf_lag_hard_grace_seconds (lv_config s),
   sg_active (lv_streaming s)).
Definition inv s : Prop :=
  session_ok (lv_trace s) (lv_lag_terminated s) (lv_ended s) (created_of s) (since_of s)
    (limits_of s).1.1 (limits_of s).1.2 (done_of s).
Definition begun s : Prop := begun_with (lv_trace s).

(** What the invariant looks at. *)
Definition obs s :=
  (lv_trace s, lv_lag_terminated s, lv_ended s, created_of s, since_of s, limits_of s, lock_of s,
   done_of s, lv_inbox s).

(** What only the main task changes. *)
Definition own s :=
  (lv_config s, lv_buffer s, lv_vad s, lv_speech_audio_buffer s, sg_active (lv_streaming s),
   rc_storage (lv_recording s), how_many is_end (lv_trace s), givens (lv_trace s),
   heards (lv_trace s)).

(** ** What tasks do to one another *)

Context (client : Incoming → bool).

(** What the client may send is all that has come. *)
Definition allowed s : Prop := Forall (λ m, client m = true) (lv_inbox s).

Record base s s' : Prop := {
  ba_ended : lv_ended s = true → lv_ended s' = true;
  ba_terminated : lv_lag_terminated s = true → lv_lag_terminated s' = true;
  ba_limits : limits_of s' = limits_of s;
  ba_trace : lv_trace s `prefix_of` lv_trace s';
  ba_inv : inv s → inv s';
  ba_allowed : allowed s → allowed s';
}.

Definition locked_by (i : nat) s s' : Prop :=
  lock_of s = Some i →
  lock_of s' = Some i ∧ how_many is_terminated (lv_trace s') = how_many is_terminated (lv_trace s).

(** A session ends by its main task, or is terminated. *)
Definition why_ended s s' : Prop :=
  (lv_ended s = true → lv_ended s' = true) ∧
  (lv_lag_terminated s = true → lv_lag_terminated s' = true) ∧
  (lv_ended s' = true → lv_ended s = true ∨ lv_lag_terminated s' = true).

Record main_kept s s' : Prop := {
  mk_own : own s' = own s;
  mk_silent : lv_trace s = [] → lv_trace s' = [];
  mk_ended : why_ended s s';
}.

(** What the others, and the world, may do to the [i]-th task, and what it may do to them. *)
Record R (i : nat) s s' : Prop := {
  R_base : base s s';
  R_locked : locked_by i s s';
  R_main : i = 0 → main_kept s s';
}.
Record G (i : nat) s s' : Prop := {
  G_base : base s s';
  G_locked : ∀ j, j ≠ i → locked_by j s s';
  G_main : i ≠ 0 → main_kept s s';
}.

#[local] Instance base_refl : Reflexive base.
Proof. intros s. split; auto. Qed.
#[local] Instance base_trans : Transitive base.
Proof.
  intros s1 s2 s3 [] []. split; auto; [congruence|by etrans].
Qed.
#[local] Instance locked_by_refl i : Reflexive (locked_by i).
Proof. by intros s. Qed.
#[local] Instance locked_by_trans i : Transitive (locked_by i).
Proof. intros s1 s2 s3 H12 H23 Hs. destruct (H12 Hs) as [Hs2 ?]. destruct (H23 Hs2). split; congruence. Qed.
#[local] Instance why_ended_refl : Reflexive why_ended.
Proof. intros s. split_and!; auto. Qed.
#[local] Instance why_ended_trans : Transitive why_ended.
Proof.
  intros s1 s2 s3 (Hm1 & Ht1 & He1) (Hm2 & Ht2 & He2). split_and!; [auto|auto|].
  intros [He|He]%He2; [|auto]. destruct (He1 He); auto.
Qed.
#[local] Instance main_kept_refl : Reflexive main_kept.
Proof. by intros s. Qed.
#[local] Instance main_kept_trans : Transitive main_kept.
Proof. intros s1 s2 s3 [] []. split; [congruence|auto|by etrans]. Qed.
#[local] Instance R_refl i : Reflexive (R i).
Proof. intros s. by split. Qed.
#[local] Instance R_trans i : Transitive (R i).
Proof. intros s1 s2 s3 [] []. split; [by etrans|by etrans|intros; etrans; eauto]. Qed.
#[local] Instance G_refl i : Reflexive (G i).
Proof. intros s. by split. Qed.
#[local] Instance G_trans i : Transitive (G i).
Proof. intros s1 s2 s3 [] []. split; [by etrans|intros; etrans; eauto|intros; etrans; eauto]. Qed.

Lemma G_R i j s s' : i ≠ j → G i s s' → R j s s'.
Proof. intros Hij [Hb Hl Hm]. split; [done|auto|]. intros ->. by apply Hm. Qed.

Lemma base_begun s s' : base s s' → begun s → begun s'.
Proof.
  intros Hb Hbegun. destruct (ba_trace _ _ Hb) as [l Hl]. unfold begun. rewrite Hl.
  by apply begun_with_app.
Qed.

Lemma begun_trace s : begun s → lv_trace s ≠ [].
Proof. intros (m & Hm & _) Hn. by rewrite Hn in Hm. Qed.

(** ** Steps *)

Lemma base_quiet s s' : obs s' = obs s → base s s'.
Proof.
  unfold obs. intros [= Ht Hterm He Hc Hsince Hhard Hgrace Hactive Hlock Hdone Hinbox].
  assert (limits_of s' = limits_of s) as Hl by (unfold limits_of; congruence).
  split; [congruence|congruence|done|by rewrite Ht| |].
  - unfold inv. by rewrite Ht, Hterm, He, Hc, Hsince, Hl, Hdone.
  - unfold allowed. by rewrite Hinbox.
Qed.

Lemma locked_quiet i s s' : obs s' = obs s → locked_by i s s'.
Proof. unfold obs. intros [= Ht _ _ _ _ _ _ _ Hlock _ _] Hs. by rewrite Ht, Hlock. Qed.

Lemma own_kept s s' : obs s' = obs s → own s' = own s → main_kept s s'.
Proof.
  intros Ho ?. unfold obs in Ho. injection Ho as Ht Hterm Hend. split; [done|congruence|].
  split_and!; rewrite ?Hterm, ?Hend; auto.
Qed.

Lemma kept_begun s s' :
  begun s → own s' = own s → lv_ended s' = lv_ended s → lv_lag_terminated s' = lv_lag_terminated s →
  main_kept s s'.
Proof.
  intros Hb Hw He Ht. split; [done|intros Hn; by apply begun_trace in Hb|].
  split_and!; rewrite ?Ht, ?He; auto.
Qed.

Lemma G_quiet i s s' : obs s' = obs s → (i ≠ 0 → own s' = own s) → G i s s'.
Proof.
  intros Ho Hw. split; [by apply base_quiet|intros; by apply locked_quiet|].
  intros Hi. apply own_kept; auto.
Qed.

Lemma emit_trace e s : lv_trace (emit e s) = lv_trace s ++ [e].
Proof. done. Qed.

(** An event that is no measure and says nothing of a termination. *)
Definition plain_event (terminated : bool) (ends : nat) (e : session_event (sample := sample)) : Prop :=
  match e with
  | Sent m => is_lag_error m = false ∧ is_terminated m = false ∧
      (terminated = true → after_termination m = true) ∧ (is_end m = true → ends = 0)
  | Measured _ _ => False
  | _ => True
  end.

Lemma plain_counts terminated ends e :
  plain_event terminated ends e →
  how_many is_lag_error [e] = 0 ∧ how_many is_terminated [e] = 0 ∧ measures [e] = [] ∧
  (how_many is_end [e] = 0 ∨ ends = 0 ∧ how_many is_end [e] = 1).
Proof.
  destruct e as [m| | | | |]; try by (cbn; intros; split_and!; auto).
  intros (Hp1 & Hp2 & _ & Hp3). unfold how_many. cbn. rewrite Hp1, Hp2.
  split_and!; [done..|]. destruct (is_end m); auto.
Qed.

Lemma no_lag_error tr : how_many is_lag_error tr = 0 → ∀ l1 m l2, tr = l1 ++ Sent m :: l2 → is_lag_error m = false.
Proof.
  intros Hn l1 m l2 ->. revert Hn. change (Sent m :: l2) with ([Sent m] ++ l2).
  rewrite !how_many_app. unfold how_many at 2. cbn. destruct (is_lag_error m); [cbn; lia|done].
Qed.

(** After the error only what may follow it. *)
Lemma after_snoc tr e :
  (∀ l1 m l2, tr = l1 ++ Sent m :: l2 → is_lag_error m = true →
    Forall (λ m, after_termination m = true) (sents l2)) →
  (0 < how_many is_lag_error tr → Forall (λ m, after_termination m = true) (sents [e])) →
  ∀ l1 m l2, tr ++ [e] = l1 ++ Sent m :: l2 → is_lag_error m = true →
    Forall (λ m, after_termination m = true) (sents l2).
Proof.
  intros Ha He l1 m l2 Heq Hm. destruct l2 as [|x l2 _] using rev_ind; [constructor|].
  rewrite app_comm_cons, app_assoc in Heq. apply app_inj_tail in Heq as [Htr ->].
  rewrite sents_app. apply Forall_app. split; [by eapply Ha|]. apply He. rewrite Htr.
  change (Sent m :: l2) with ([Sent m] ++ l2). rewrite !how_many_app. unfold how_many at 2. cbn. rewrite Hm.
  cbn. lia.
Qed.

Lemma ok_snoc tr terminated ended created since hard grace done e :
  session_ok tr terminated ended created since hard grace done → begun_with tr → plain_event terminated (how_many is_end tr) e →
  session_ok (tr ++ [e]) terminated ended created since hard grace done.
Proof.
  intros [_ He Hl Ha Ht Hs Hj Hn0 Hm0] Hb Hp. destruct (plain_counts _ _ _ Hp) as (Hl1 & Ht1 & Hm1 & He1). split.
  - left. by apply begun_with_app.
  - done.
  - rewrite how_many_app. lia.
  - apply after_snoc; [done|]. rewrite Hl. destruct terminated; [|lia]. intros _.
    destruct e; try constructor; [|constructor]. by apply Hp.
  - rewrite how_many_app. lia.
  - intros t Hsince. apply hard_run_more; auto.
  - intros Hterm. apply justified_more. auto.
  - rewrite how_many_app. destruct He1 as [->|[Hz ->]]; lia.
  - done.
Qed.

Lemma inv_emit s e : inv s → begun s → plain_event (lv_lag_terminated s) (how_many is_end (lv_trace s)) e → inv (emit e s).
Proof. intros Hi Hb Hp. by apply ok_snoc. Qed.

Lemma base_emit s e : begun s → plain_event (lv_lag_terminated s) (how_many is_end (lv_trace s)) e → base s (emit e s).
Proof.
  intros Hb Hp. split; [done|done|done|by eexists| |done]. intros Hi. by apply inv_emit.
Qed.

Lemma locked_emit i s e : plain_event (lv_lag_terminated s) (how_many is_end (lv_trace s)) e → locked_by i s (emit e s).
Proof.
  intros Hp Hs. split; [done|]. rewrite emit_trace, how_many_app. apply plain_counts in Hp. lia.
Qed.

Lemma G_emit i s e :
  begun s → plain_event (lv_lag_terminated s) (how_many is_end (lv_trace s)) e → (i ≠ 0 → own (emit e s) = own s) →
  G i s (emit e s).
Proof.
  intros Hb Hp Hw. split; [by apply base_emit| |].
  - intros j _. by apply locked_emit.
  - intros Hi. by apply kept_begun; auto.
Qed.

(** ** Code that keeps the invariant *)

#[local] Arguments cancelled : simpl never.
#[local] Instance the_loop : EventLoop St :=
  session_loop client.

Section stay.
Context (i : nat) (keep : St → St → Prop).
Context `{!Reflexive keep, !Transitive keep}.
Context (keep_step : ∀ s s', base s s' → main_kept s s' → locked_by i s s' → keep s s').
Context (keep_R : ∀ s s', R i s s' → keep s s').

(** [c] stays in the invariant, and in [keep], wherever it ends or lets others in. *)
Definition stay {A} (c : co St A) : Prop :=
  ∀ z s0 s, inv s → begun s → keep z s → G i s0 s →
    wp (R i) (G i) (cancelled i) c (λ _ s0 s, inv s ∧ begun s ∧ keep z s ∧ G i s0 s) s0 s.

Lemma stay_ret {A} (r : res task_exn A) : stay (Ret r).
Proof. by intros z s0 s Hi Hb Hk HG. Qed.

Lemma stay_bind {A B} (c : co St A) (f : A → co St B) :
  stay c → (∀ a, stay (f a)) → stay (cbind c f).
Proof.
  intros Hc Hf z s0 s Hi Hb Hk HG. apply wp_bind. eapply wp_mono; [by apply (Hc z)|].
  intros [a|e] s1 s2 (?&?&?&?); [|done]. by apply Hf.
Qed.

Lemma stay_then {A B} (c : co St A) (f : res task_exn A → co St B) :
  stay c → (∀ r, stay (f r)) → stay (cthen c f).
Proof.
  intros Hc Hf z s0 s Hi Hb Hk HG. apply wp_then. eapply wp_mono; [by apply (Hc z)|].
  intros r s1 s2 (?&?&?&?). by apply Hf.
Qed.

Lemma stay_try {A} (c : co St A) h : stay c → (∀ t, stay (h t)) → stay (ctry c h).
Proof. intros Hc Hh. apply stay_then; [done|]. intros [?|[?|]]; auto using stay_ret. Qed.

Lemma stay_finally {A} (c : co St A) f : stay c → stay f → stay (cfinally c f).
Proof. intros Hc Hf. apply stay_then; [done|]. intros r. apply stay_bind; auto using stay_ret. Qed.

Lemma stay_get {A} (f : St → A) : stay (get f).
Proof. by intros z s0 s Hi Hb Hk HG. Qed.

Lemma stay_await ready : stay (await ready).
Proof.
  intros z s0 s Hi Hb Hk HG. cbn. split; [done|]. intros s' Hs. pose proof (R_base _ _ _ Hs) as Hbase.
  assert (inv s' ∧ begun s' ∧ keep z s' ∧ G i s' s').
  { split_and!; [by apply Hbase|by eapply base_begun|by etrans; [|apply keep_R]|done]. }
  by split.
Qed.

Lemma stay_switch : stay switch.
Proof. apply stay_await. Qed.

Lemma stay_lift {A} (r : res string A) : stay (lift r).
Proof. destruct r; apply stay_ret. Qed.
Lemma stay_py {A} (r : res pyexn A) : stay (py r).
Proof. destruct r; apply stay_ret. Qed.

Lemma stay_run {A} f (k : St → co St A) :
  (∀ s, inv s → begun s → G i s (f s) ∧ keep s (f s)) → (∀ s, stay (k s)) → stay (Run f k).
Proof.
  intros Hf Hk z s0 s Hi Hb Hkeep HG. cbn. destruct (Hf s Hi Hb) as [HG' Hkeep'].
  apply Hk; [by apply HG'|by eapply base_begun; [apply HG'|]|by etrans|by etrans].
Qed.

Lemma stay_modify f : (∀ s, inv s → begun s → G i s (f s) ∧ keep s (f s)) → stay (modify f).
Proof. intros Hf. apply stay_run; [done|]. intros s. apply stay_ret. Qed.

Lemma stay_act {A} (f : St → St * A) :
  (∀ s, inv s → begun s → G i s (f s).1 ∧ keep s (f s).1) → stay (act f).
Proof. intros Hf. apply stay_run; [done|]. intros s. apply stay_ret. Qed.

(** A change that nobody looks at. *)
Lemma quiet_step s s' : obs s' = obs s → own s' = own s → G i s s' ∧ keep s s'.
Proof.
  intros Ho Hw. split; [by apply G_quiet|]. apply keep_step; [by apply base_quiet|by apply own_kept|by apply locked_quiet].
Qed.

Lemma stay_quiet f : (∀ s, obs (f s) = obs s ∧ own (f s) = own s) → stay (modify f).
Proof. intros Hf. apply stay_modify. intros s _ _. destruct (Hf s). by apply quiet_step. Qed.

Lemma stay_send m :
  is_lag_error m = false → is_terminated m = false → is_end m = false → stay (_send m).
Proof.
  intros Hl Ht He z s0 s Hi Hb Hk HG.
  unfold _send, get, read, modify, skip. cbn [mbind mret co_bind co_ret cbind wp id].
  destruct (lv_lag_terminated s && negb (after_termination m)) eqn:Hm; cbn [wp]; [done|].
  assert (plain_event (lv_lag_terminated s) (how_many is_end (lv_trace s)) (Sent m)) as Hp.
  { split_and!; [done..| |by rewrite He]. intros Hterm. rewrite Hterm in Hm.
    by destruct (after_termination m). }
  assert (own (emit (Sent m) s) = own s) as Hw
    by (unfold own; rewrite emit_trace, how_many_app, givens_app, heards_app, !app_nil_r;
        unfold how_many at 2; cbn; rewrite He; cbn; by rewrite Nat.add_0_r).
  assert (G i s (emit (Sent m) s)) as HG' by (by apply G_emit).
  assert (base s (emit (Sent m) s)) as Hbase by (by apply base_emit).
  apply stay_switch; [by apply inv_emit|by eapply base_begun| |by etrans].
  etrans; [done|]. apply keep_step; [done|by apply kept_begun|by apply locked_emit].
Qed.
End stay.

(** ** The lag *)

Section lag.
Context (i : nat) (keep : St → St → Prop).
Context `{!Reflexive keep, !Transitive keep}.
Context (keep_own : ∀ s s', base s s' → main_kept s s' → keep s s').
Context (keep_R : ∀ s s', R i s s' → keep s s').
Context (keep_limits : ∀ s s', keep s s' → limits_of s' = limits_of s).

(** What is kept while the task holds the lock. *)
Definition keep_locked s s' : Prop := keep s s' ∧ locked_by i s s'.
#[local] Instance keep_locked_refl : Reflexive keep_locked.
Proof. by intros s. Qed.
#[local] Instance keep_locked_trans : Transitive keep_locked.
Proof. intros s1 s2 s3 [] []. split; by etrans. Qed.

Definition stay_locked {A} (c : co St A) : Prop := stay i keep_locked c.

Lemma stay_locked_send m :
  is_lag_error m = false → is_terminated m = false → is_end m = false → stay_locked (_send m).
Proof.
  apply stay_send; [apply _|..]; unfold keep_locked; [auto|]. intros s s' Hs. split; [auto|apply Hs].
Qed.

(** One evaluation has come to its decision, in one go. *)
Lemma inv_decided s s' now lag :
  inv s → begun s → lv_trace s' = lv_trace s ++ [Measured now lag] →
  lv_lag_terminated s' = lv_lag_terminated s → lv_ended s' = lv_ended s →
  limits_of s' = limits_of s → lock_of s' = lock_of s → done_of s' = done_of s →
  lv_inbox s' = lv_inbox s → own s' = own s →
  (∀ t, since_of s' = Some t → hard_run (limits_of s).1.1 t (lv_trace s')) →
  G i s s' ∧ keep_locked s s'.
Proof.
  intros [_ He Hl Ha Ht Hs Hj Hn0 Hm0] Hb Htr Hterm Hend Hlim Hlock Hdone Hinbox Hown Hsince.
  assert (base s s') as Hbase.
  { split; [congruence|congruence|done|by rewrite Htr; eexists| |unfold allowed; by rewrite Hinbox].
    intros _.
    unfold inv. rewrite Hterm, Hend, Hlim, Hdone. split; [|done| | | | | | |done].
    - left. rewrite Htr. by apply begun_with_app.
    - rewrite Htr, how_many_app, Hl. unfold how_many. cbn. lia.
    - rewrite Htr. apply after_snoc; [done|]. intros _. constructor.
    - rewrite Htr, how_many_app. unfold how_many at 2. cbn. lia.
    - done.
    - intros Hterm'. rewrite Htr. apply justified_more. auto.
    - rewrite Htr, how_many_app. unfold how_many at 2. cbn. lia. }
  assert (∀ j, locked_by j s s') as Hlocked.
  { intros j Hj'. rewrite Hlock, Htr, how_many_app. unfold how_many at 2. cbn. split; [done|lia]. }
  assert (main_kept s s') as Hmain by (by apply kept_begun).
  split; [by split|]. split; auto.
Qed.

(** The state a termination leaves at its first [await]. *)
Definition terminating (now lag : pyfloat) s : St :=
  emit (Sent (ErrorMessage LAG_EXCEEDED "Realtime lag budget exceeded" false))
    (lv_terminate LAG_EXCEEDED (emit (Measured now lag) s)).

Lemma terminating_ok s now lag t :
  inv s → begun s → lv_ended s = false → since_of s = Some t →
  flt lag (limits_of s).1.1 = false → flt (fsub now t) (limits_of s).1.2 = false →
  let s' := terminating now lag s in
  inv s' ∧ G i s s' ∧ keep s s' ∧ lv_lag_terminated s' = true ∧ lock_of s' = lock_of s ∧
  how_many is_terminated (lv_trace s') = 0.
Proof.
  intros Hinv Hb Hend Hsince Hhard Hgrace s'. pose proof Hinv as [_ He Hl Ha Ht Hs Hj Hn0 Hm0].
  assert (lv_lag_terminated s = false) as Hterm.
  { destruct (lv_lag_terminated s); [|done]. rewrite He in Hend by done. done. }
  rewrite Hterm in Hl, Ht.
  assert (lv_trace s' = lv_trace s ++ [Measured now lag] ++
    [Sent (ErrorMessage LAG_EXCEEDED "Realtime lag budget exceeded" false)]) as Htr
    by (subst s'; unfold terminating; rewrite !emit_trace; cbn; by rewrite <- app_assoc).
  assert (how_many is_terminated (lv_trace s') = 0) as Hcount.
  { rewrite Htr, how_many_app. unfold how_many at 2. cbn. lia. }
  assert (inv s') as Hinv'.
  { unfold inv. change (lv_lag_terminated s') with true. change (lv_ended s') with true.
    change (since_of s') with (since_of s). change (limits_of s') with (limits_of s).
    change (done_of s') with (done_of s). rewrite Htr, app_assoc.
    assert (session_ok (lv_trace s ++ [Measured now lag]) false false true (since_of s) (limits_of s).1.1
      (limits_of s).1.2 (done_of s)) as [Hb1 _ Hl1 Ha1 Ht1 Hs1 _ Hn1 _].
    { split; [left; by apply begun_with_app|done| | | | |done| |done].
      - rewrite how_many_app, Hl. done.
      - apply after_snoc; [done|]. constructor.
      - rewrite how_many_app. unfold how_many at 2. cbn. lia.
      - intros t' Ht'. apply hard_run_measured; auto.
      - rewrite how_many_app. unfold how_many at 2. cbn. lia. }
    split; [left; apply begun_with_app; by apply begun_with_app|done| | | | | | |done].
    - rewrite how_many_app, Hl1. done.
    - apply after_snoc; [done|]. rewrite Hl1. lia.
    - rewrite how_many_app. unfold how_many at 2. cbn. lia.
    - intros t' Ht'. apply hard_run_more; auto.
    - intros _. apply justified_more. eapply justified_now; eauto.
    - rewrite how_many_app. unfold how_many at 2. cbn. lia. }
  assert (base s s') as Hbase.
  { split; [done|done|done|by rewrite Htr; eexists|done|done]. }
  assert (own s' = own s) as Hown.
  { unfold own. rewrite Htr, how_many_app, givens_app, heards_app. cbn.
    rewrite !app_nil_r. unfold how_many at 2. cbn. by rewrite Nat.add_0_r. }
  assert (main_kept s s') as Hmain.
  { split; [done|intros Hn; by apply begun_trace in Hb|]. split_and!; [done|done|by right]. }
  split_and!; [done| |auto|done|done|done].
  split; [done| |done]. intros j _ Hlock. split; [done|].
  rewrite Hcount. lia.
Qed.

Lemma terminated_sent s m :
  inv s → begun s → is_terminated m = true → is_lag_error m = false → after_termination m = true →
  is_end m = false → lv_lag_terminated s = true →
  how_many is_terminated (lv_trace s) = 0 → lock_of s = Some i →
  inv (emit (Sent m) s) ∧ G i s (emit (Sent m) s) ∧ keep s (emit (Sent m) s).
Proof.
  intros Hinv Hb Hm Hle Hafter Hend Hterm Hcount Hlock. pose proof Hinv as [_ He Hl Ha Ht Hs Hj Hn0 Hm0].
  assert (inv (emit (Sent m) s)) as Hinv'.
  { unfold inv. cbn [lv_lag_terminated emit lv_set_trace lv_ended]. rewrite emit_trace.
    split; [left; by apply begun_with_app|done| | | | | | |done].
    - rewrite how_many_app, Hl. unfold how_many. cbn. rewrite Hle. cbn. lia.
    - apply after_snoc; [done|]. intros _. by constructor.
    - rewrite how_many_app, Hcount. unfold how_many. cbn. rewrite Hm, Hterm. cbn. lia.
    - intros t' Ht'. apply hard_run_more; auto.
    - intros _. apply justified_more. auto.
    - rewrite how_many_app. unfold how_many at 2. cbn. rewrite Hend. cbn. lia. }
  assert (base s (emit (Sent m) s)) as Hbase by (split; [done|done|done|by eexists|done|done]).
  assert (main_kept s (emit (Sent m) s)) as Hmain.
  { apply kept_begun; [done| |done|done].
    unfold own. rewrite emit_trace, how_many_app, givens_app, heards_app, !app_nil_r.
    unfold how_many at 2. cbn. rewrite Hend. cbn. by rewrite Nat.add_0_r. }
  split_and!; [done| |auto]. split; [done| |done].
  intros j Hj' Hjl. congruence.
Qed.

(** What an evaluation leaves, however it ends. *)
Definition evaluated z s0 s : Prop :=
  inv s ∧ begun s ∧ keep z s ∧ G i s0 s ∧ lock_of s = Some i.

Lemma evaluated_R z s s' : inv s → begun s → keep z s → lock_of s = Some i → R i s s' → evaluated z s' s'.
Proof.
  intros Hi Hb Hk Hl Hs. pose proof (R_base _ _ _ Hs) as Hbase.
  split_and!; [by apply Hbase|by eapply base_begun|etrans; eauto|done|by apply Hs].
Qed.

Lemma terminate_ok z s0 s now lag t :
  inv s → begun s → keep z s → G i s0 s → lock_of s = Some i → since_of s = Some t →
  flt lag (limits_of s).1.1 = false → flt (fsub now t) (limits_of s).1.2 = false → lv_ended s = false →
  wp (R i) (G i) (cancelled i) _terminate_for_lag (λ _, evaluated z) s0 (emit (Measured now lag) s).
Proof.
  intros Hi Hb Hk HG Hlock Hsince Hhard Hgrace Hend.
  destruct (terminating_ok s now lag t) as (Hi1 & HG1 & Hk1 & Hterm1 & Hlock1 & Hcount1); [done..|].
  assert (begun (terminating now lag s)) as Hb1 by (eapply base_begun; [apply HG1|done]).
  unfold _terminate_for_lag, _send_error, _send, get, read, modify, switch, await.
  cbn [mbind mret co_bind co_ret cbind wp id].
  change (lv_ended (emit (Measured now lag) s)) with (lv_ended s). rewrite Hend.
  cbn [mbind mret co_bind co_ret cbind wp id].
  change (lv_lag_terminated (lv_terminate LAG_EXCEEDED (emit (Measured now lag) s)) &&
    negb (after_termination (ErrorMessage LAG_EXCEEDED "Realtime lag budget exceeded" false))) with false.
  cbn [mbind mret co_bind co_ret cbind wp id].
  change (emit (Sent (ErrorMessage LAG_EXCEEDED "Realtime lag budget exceeded" false))
    (lv_terminate LAG_EXCEEDED (emit (Measured now lag) s))) with (terminating now lag s).
  rewrite Hlock in Hlock1.
  split; [by etrans|]. intros s2 Hs2.
  destruct (evaluated_R z (terminating now lag s) s2) as (Hi2 & Hb2 & Hk2 & _ & Hlock2);
    [done|done|by etrans|done|done|].
  assert (lv_lag_terminated s2 = true) as Hterm2 by (by apply (R_base _ _ _ Hs2)).
  assert (how_many is_terminated (lv_trace s2) = 0) as Hcount2.
  { rewrite <- Hcount1. apply (R_locked _ _ _ Hs2). done. }
  split; [intros _ _|intros _; by split_and!].
  set (m := SessionTerminated _ _ _).
  replace (lv_lag_terminated s2 && negb (after_termination m)) with false by (by rewrite andb_false_r).
  cbn [mbind mret co_bind co_ret cbind wp id].
  destruct (terminated_sent s2 m) as (Hi3 & HG3 & Hk3); [done..|].
  assert (begun (emit (Sent m) s2)) as Hb3 by (eapply base_begun; [apply HG3|done]).
  split; [done|]. intros s4 Hs4.
  destruct (evaluated_R z (emit (Sent m) s2) s4) as (Hi4 & Hb4 & Hk4 & _ & Hlock4);
    [done|done|by etrans|done|done|].
  split; [intros _ _|intros _; by split_and!].
  split; [done|]. intros s5 Hs5.
  assert (evaluated z s5 s5) as He by (by apply (evaluated_R z s4 s5)). by split.
Qed.
(** The decision, in one go after the measure. *)
Lemma decided z s0 s s' now lag :
  inv s → begun s → keep z s → G i s0 s → lock_of s = Some i →
  obs s' = obs (lv_set_lag (lv_lag s') (emit (Measured now lag) s)) →
  own s' = own (emit (Measured now lag) s) → lock_of s' = lock_of s →
  (∀ t, since_of s' = Some t → hard_run (limits_of s).1.1 t (lv_trace s ++ [Measured now lag])) →
  evaluated z s0 s'.
Proof.
  intros Hi Hb Hk HG Hlock Hobs Hown Hlock' Hrun.
  pose proof (f_equal (λ x, x.1.1.1.1.1.1.1.1) Hobs : lv_trace s' = lv_trace s ++ _) as Htr.
  pose proof (f_equal (λ x, x.1.1.1.1.1.1.1.2) Hobs : lv_lag_terminated s' = lv_lag_terminated s) as Hterm.
  pose proof (f_equal (λ x, x.1.1.1.1.1.1.2) Hobs : lv_ended s' = lv_ended s) as Hend.
  pose proof (f_equal (λ x, x.1.1.1.2) Hobs : limits_of s' = limits_of s) as Hlim.
  pose proof (f_equal (λ x, x.1.2) Hobs : done_of s' = done_of s) as Hdone.
  pose proof (f_equal (λ x, x.2) Hobs : lv_inbox s' = lv_inbox s) as Hinbox.
  destruct (inv_decided s s' now lag) as [HG' [Hk' Hl']];
    [done|done|done|done|done|done|done|done|done| | |].
  { rewrite Hown. unfold own. rewrite emit_trace, how_many_app, givens_app, heards_app.
    unfold how_many at 2. cbn. by rewrite Nat.add_0_r, !app_nil_r. }
  { intros t Ht. rewrite Htr. by apply Hrun. }
  split_and!; [|by eapply base_begun; [apply HG'|]|by etrans|by etrans|by apply Hl'].
  by apply (ba_inv _ _ (G_base _ _ _ HG')).
Qed.

Lemma warned z s0 s c now lag due :
  inv s → begun s → keep z s → G i s0 s → lock_of s = Some i →
  wp (R i) (G i) (cancelled i)
    (if (due : bool) then
       _send (LagWarning lag (cf_lag_warning_seconds c) (cf_lag_hard_seconds c));;
       lag_change (set_lag_warned now)
     else skip)
    (λ _, evaluated z) s0 s.
Proof.
  intros Hi Hb Hk HG Hlock. destruct due; [|by split_and!].
  apply (wp_mono _ _ _ _ (λ _ s0 s2, inv s2 ∧ begun s2 ∧ keep_locked s s2 ∧ G i s0 s2)).
  - assert (stay_locked (_send (LagWarning lag (cf_lag_warning_seconds c) (cf_lag_hard_seconds c));;
      lag_change (set_lag_warned now))) as Hst; [|by apply Hst].
    apply stay_bind; [by apply stay_locked_send|]. intros []. unfold lag_change.
    apply stay_quiet; [apply _|unfold keep_locked; intros; split; auto|by intros s'].
  - intros _ s1 s2 (Hi2 & Hb2 & [Hk2 Hl2] & HG2). split_and!; [done|done|by etrans|done|by apply Hl2].
Qed.

Lemma evaluate_ok z s0 s now :
  inv s → begun s → keep z s → G i s0 s → lock_of s = Some i →
  wp (R i) (G i) (cancelled i) (evaluate now) (λ _, evaluated z) s0 s.
Proof.
  intros Hi Hb Hk HG Hlock. unfold evaluate, get, read, modify, skip.
  cbn [mbind mret co_bind co_ret cbind wp id]. destruct (lv_ended s) eqn:Hend; [by split_and!|].
  set (c := lv_config s). set (lag := _lag_seconds (lv_lag s)).
  apply wp_bind. eapply wp_mono; [by apply warned|].
  intros [[]|e] s1 s2 (Hi2 & Hb2 & Hk2 & HG2 & Hlock2); [|by split_and!].
  cbn [mbind mret co_bind co_ret cbind wp id]. unfold lag_change, modify.
  assert (limits_of s2 = limits_of s) as Hlim.
  { rewrite (keep_limits _ _ Hk2). by rewrite (keep_limits _ _ Hk). }
  pose proof (so_since _ _ _ _ _ _ _ _ Hi2) as Hsince2.
  destruct (flt lag (cf_lag_hard_seconds c)) eqn:Hhard; cbn [wp].
  { by apply (decided z s1 s2 _ now lag). }
  change (cf_lag_hard_seconds c) with (limits_of s).1.1 in Hhard. rewrite <- Hlim in Hhard.
  change (lg_hard_exceeded_since (lv_lag (emit (Measured now lag) s2))) with (since_of s2).
  destruct (since_of s2) as [t|] eqn:Hsince; cbn [wp].
  - assert (∀ t', Some t = Some t' → hard_run (limits_of s2).1.1 t' (lv_trace s2 ++ [Measured now lag])) as Hrun.
    { intros t' Ht'. apply hard_run_measured; auto. }
    destruct (flt (fsub now t) (cf_lag_hard_grace_seconds c)) eqn:Hgrace; cbn [wp].
    { apply (decided z s1 s2 _ now lag); try done. intros t' Ht'. apply Hrun.
      by rewrite <- Hsince. }
    change (cf_lag_hard_grace_seconds c) with (limits_of s).1.2 in Hgrace. rewrite <- Hlim in Hgrace.
    destruct (lv_ended s2) eqn:Hend2; [|by apply (terminate_ok z s1 s2 now lag t)].
    unfold _terminate_for_lag, get, read. cbn [mbind mret co_bind co_ret cbind wp id].
    change (lv_ended (emit (Measured now lag) s2)) with (lv_ended s2). rewrite Hend2. cbn [wp skip mret co_ret].
    apply (decided z s1 s2 _ now lag); try done. intros t' Ht'. apply Hrun.
    by rewrite <- Hsince.
  - apply (decided z s1 s2 _ now lag); try done. intros t' [= <-].
    by apply hard_run_start.
Qed.
Lemma lock_only_step s x :
  inv s → begun s → (∀ j, j ≠ i → lock_of s ≠ Some j) →
  let s' := lv_set_lag (set_lag_locked x (lv_lag s)) s in
  inv s' ∧ begun s' ∧ G i s s' ∧ keep s s' ∧ lock_of s' = x.
Proof.
  intros Hi Hb Hl s'. assert (base s s') as Hbase by (by split).
  assert (main_kept s s') as Hm by (by apply kept_begun).
  split_and!; [done|done| |auto|done]. split; [done| |done].
  intros j Hj Hj'. by apply Hl in Hj'.
Qed.

Lemma locking_ok z s0 s body :
  inv s → begun s → keep z s → G i s0 s →
  (∀ z s0 s, inv s → begun s → keep z s → G i s0 s → lock_of s = Some i →
    wp (R i) (G i) (cancelled i) body (λ _, evaluated z) s0 s) →
  wp (R i) (G i) (cancelled i) (locking i body)
    (λ _ s0 s, inv s ∧ begun s ∧ keep z s ∧ G i s0 s) s0 s.
Proof.
  intros Hi Hb Hk HG Hbody.
  assert (∀ s0 s, inv s → begun s → keep z s → G i s0 s → lock_of s = None →
    wp (R i) (G i) (cancelled i)
      (lag_change (set_lag_locked (Some i));; cfinally body (lag_change (set_lag_locked None)))
      (λ _ s0 s, inv s ∧ begun s ∧ keep z s ∧ G i s0 s) s0 s) as Hheld.
  { clear -Hbody keep_own Transitive0. intros s0 s Hi Hb Hk HG Hlock.
    destruct (lock_only_step s (Some i) Hi Hb) as (Hi1 & Hb1 & HG1 & Hk1 & Hl1); [by rewrite Hlock|].
    unfold lag_change, modify. cbn [mbind co_bind cbind wp]. apply wp_finally.
    eapply wp_mono; [apply (Hbody z); [done|done|by etrans|by etrans|done]|].
    intros r s1 s2 (Hi2 & Hb2 & Hk2 & HG2 & Hl2). cbn [wp].
    destruct (lock_only_step s2 None Hi2 Hb2) as (Hi3 & Hb3 & HG3 & Hk3 & _); [congruence|].
    split_and!; [done|done|by etrans|by etrans]. }
  unfold locking, get, read. cbn [mbind co_bind cbind wp id]. apply wp_bind.
  change (lg_locked (lv_lag s)) with (lock_of s).
  destruct (bool_decide (is_Some (lock_of s))) eqn:Hlock.
  - unfold await. cbn [wp]. split; [done|]. intros s' Hs. pose proof (R_base _ _ _ Hs) as Hbase.
    assert (inv s' ∧ begun s' ∧ keep z s' ∧ G i s' s') as (? & ? & ? & ?).
    { split_and!; [by apply Hbase|by eapply base_begun|etrans; eauto|done]. }
    split; [|by intros]. intros _ Hready%bool_decide_eq_true. by apply Hheld.
  - apply bool_decide_eq_false in Hlock. unfold skip. cbn [mret co_ret wp]. apply Hheld; [done..|].
    destruct (lock_of s); [|done]. exfalso. apply Hlock. by eexists.
Qed.

Lemma stay_evaluate : stay i keep (_evaluate_lag_budget i).
Proof.
  intros z s0 s Hi Hb Hk HG. unfold _evaluate_lag_budget, get, read. cbn [mbind co_bind cbind wp id].
  destruct (lv_ended s); [by split_and!|]. apply locking_ok; [done..|]. intros. by apply evaluate_ok.
Qed.
End lag.

(** ** The other tasks *)

Definition same_limits s s' : Prop := limits_of s' = limits_of s.
#[local] Instance same_limits_refl : Reflexive same_limits.
Proof. by intros s. Qed.
#[local] Instance same_limits_trans : Transitive same_limits.
Proof. unfold same_limits. intros s1 s2 s3. congruence. Qed.

Lemma same_limits_base s s' : base s s' → same_limits s s'.
Proof. intros Hb. apply Hb. Qed.
Lemma same_limits_R i s s' : R i s s' → same_limits s s'.
Proof. intros HR. apply (R_base _ _ _ HR). Qed.
#[local] Hint Resolve same_limits_base same_limits_R : core.

(** Code by its form; what is left are the operations it calls. *)
Ltac by_form :=
  lazymatch goal with
  | |- stay _ _ (mbind _ _) => apply stay_bind; [|intros ?]
  | |- stay _ _ (cbind _ _) => apply stay_bind; [|intros ?]
  | |- stay _ _ (mret _) => apply stay_ret
  | |- stay _ _ (Ret _) => apply stay_ret
  | |- stay _ _ (raise _) => apply stay_ret
  | |- stay _ _ skip => apply stay_ret
  | |- stay _ _ (get _) => apply stay_get
  | |- stay _ _ (lift _) => apply stay_lift
  | |- stay _ _ (py _) => apply stay_py
  | |- stay _ _ switch => apply stay_switch; [apply _|eauto]
  | |- stay _ _ blocked => apply stay_await; [apply _|eauto]
  | |- stay _ _ (await _) => apply stay_await; [apply _|eauto]
  | |- stay _ _ (ctry _ _) => apply stay_try; [|intros ?]
  | |- stay _ _ (cfinally _ _) => apply stay_finally
  | |- stay _ _ (_send _) => apply stay_send; [apply _|eauto|eauto|done|done|done]
  | |- stay _ _ (if ?b then _ else _) => destruct b
  | |- stay _ _ (match ?x with _ => _ end) => destruct x
  | |- stay _ _ (let _ := _ in _) => cbv zeta
  end.

Lemma side_monitor n : stay 1 same_limits (_lag_monitor_loop n).
Proof.
  induction n as [|n IH]; cbn [_lag_monitor_loop]; repeat by_form; [|apply IH].
  apply stay_evaluate; [apply _|apply _|eauto|eauto|done].
Qed.

Lemma stay_side_quiet i f :
  (∀ s, obs (f s) = obs s ∧ own (f s) = own s) → stay i same_limits (modify f).
Proof. intros Hf. apply stay_quiet; [apply _|eauto|done]. Qed.

Lemma side_streamed t : stay 2 same_limits (streamed t).
Proof.
  unfold streamed, streaming_change. repeat by_form. by apply stay_side_quiet.
Qed.

Lemma side_decoder n : stay 2 same_limits (_streaming_decode_loop n).
Proof.
  induction n as [|n IH]; cbn [_streaming_decode_loop]; repeat by_form.
  - unfold next_result. repeat by_form. apply stay_act; [apply _|]. intros s _ _.
    apply quiet_step; [eauto|done|done].
  - apply side_streamed.
  - apply IH.
Qed.

(** ** The main task, but for the end of the session *)

Record calm s s' : Prop := {
  ca_limits : same_limits s s';
  ca_ends : how_many is_end (lv_trace s') = how_many is_end (lv_trace s);
  ca_ended : why_ended s s';
}.
#[local] Instance calm_refl : Reflexive calm.
Proof. by intros s. Qed.
#[local] Instance calm_trans : Transitive calm.
Proof. intros s1 s2 s3 [] []. split; [by etrans|congruence|by etrans]. Qed.

Lemma calm_base s s' : base s s' → main_kept s s' → calm s s'.
Proof. intros Hb [Hw _ He]. split; [apply Hb| |done]. unfold own in Hw. congruence. Qed.
Lemma calm_R s s' : R 0 s s' → calm s s'.
Proof. intros [Hb _ Hm]. by apply calm_base; [|apply Hm]. Qed.
Lemma calm_step s s' : base s s' → main_kept s s' → locked_by 0 s s' → calm s s'.
Proof. intros ? ? _. by apply calm_base. Qed.
#[local] Hint Resolve calm_base calm_R calm_step : core.

(** What the main task notes down that is no message and no measure. *)
Definition silent (e : session_event (sample := sample)) : bool :=
  match e with Sent _ | Measured _ _ => false | _ => true end.

Definition main_step s s' : Prop :=
  obs s' = obs s ∨ ∃ e, silent e = true ∧ obs s' = obs (emit e s).

Lemma why_quiet s s' : obs s' = obs s → why_ended s s'.
Proof.
  intros Ho. unfold obs in Ho. injection Ho as Ht Hterm Hend.
  split_and!; rewrite ?Hterm, ?Hend; auto.
Qed.

Lemma main_step_ok s s' : inv s → begun s → main_step s s' → G 0 s s' ∧ calm s s'.
Proof.
  intros Hi Hb [Ho|(e & He & Ho)].
  - pose proof (f_equal (λ x, x.1.1.1.1.1.1.1.1) Ho : lv_trace s' = lv_trace s) as Ht.
    pose proof (f_equal (λ x, x.1.1.1.2) Ho : limits_of s' = limits_of s) as Hl.
    split; [by apply G_quiet|]. split; [done|by rewrite Ht|by apply why_quiet].
  - assert (plain_event (lv_lag_terminated s) (how_many is_end (lv_trace s)) e) as Hp by (by destruct e).
    pose proof (f_equal (λ x, x.1.1.1.1.1.1.1.1) Ho : lv_trace s' = lv_trace s ++ [e]) as Ht.
    pose proof (f_equal (λ x, x.1.1.1.2) Ho : limits_of s' = limits_of s) as Hl.
    split; [etrans; [by apply (G_emit 0 s e)|by apply G_quiet]|].
    split; [done| |by apply (why_quiet (emit e s))]. rewrite Ht, how_many_app. by destruct e.
Qed.

Lemma main_modify f : (∀ s, main_step s (f s)) → stay 0 calm (modify f).
Proof. intros Hf. apply stay_modify; [apply _|]. intros s Hi Hb. by apply main_step_ok. Qed.
Lemma main_act {A} (f : St → St * A) : (∀ s, main_step s (f s).1) → stay 0 calm (act f).
Proof. intros Hf. apply stay_act; [apply _|]. intros s Hi Hb. by apply main_step_ok. Qed.

Ltac main_form :=
  first
  [ by_form
  | lazymatch goal with
    | |- stay _ _ (modify _) => apply main_modify; intros ?; left; reflexivity
    | |- stay _ _ (act _) =>
        apply main_act; intros ?; left; repeat case_match; reflexivity
    end ].

Lemma main_evaluate : stay 0 calm (_evaluate_lag_budget 0).
Proof. apply stay_evaluate; [apply _|apply _|eauto|eauto|]. by intros s s' []. Qed.

Lemma main_call e audio params :
  (e = [] ∨ ∃ a, e = [Given a]) → stay 0 calm (call_engine e audio params).
Proof.
  intros He. unfold call_engine. repeat by_form. apply main_act. intros s. destruct He as [->|[a ->]].
  - left. unfold obs. cbn. by rewrite app_nil_r.
  - right. by exists (Given a).
Qed.

Lemma main_assemble t d : stay 0 calm (assemble_segment t d).
Proof. apply main_act. intros s. by left. Qed.

Lemma main_transcribe audio : stay 0 calm (_transcribe_and_send audio).
Proof.
  unfold _transcribe_and_send, _send_error. repeat main_form; [|apply main_assemble].
  apply main_call. eauto.
Qed.

Lemma main_transcribe_some o : stay 0 calm (transcribe_some o).
Proof. unfold transcribe_some. repeat main_form. apply main_transcribe. Qed.

Lemma main_partial : stay 0 calm _send_partial_result.
Proof. unfold _send_partial_result. repeat main_form; apply main_call; by left. Qed.

Lemma main_flush_streaming : stay 0 calm _flush_streaming_final.
Proof.
  unfold _flush_streaming_final, streaming_change. repeat main_form; apply main_assemble.
Qed.

Lemma main_put x : stay 0 calm (put_chunk x).
Proof. unfold put_chunk, streaming_change. repeat main_form. Qed.

Lemma main_stop_streaming : stay 0 calm _stop_streaming_decode.
Proof. unfold _stop_streaming_decode. repeat main_form. apply main_put. Qed.

Lemma main_hear v audio : stay 0 calm (hear_audio v audio).
Proof.
  unfold hear_audio. repeat main_form.
Qed.

Lemma main_speech_started : stay 0 calm speech_started.
Proof. unfold speech_started, current_time. repeat main_form. Qed.
Lemma main_speech_ended : stay 0 calm speech_ended.
Proof. unfold speech_ended, current_time. repeat main_form. Qed.

Lemma main_speech_state l n : stay 0 calm (set_speech_state l n).
Proof. apply main_modify. by left. Qed.
Lemma main_accumulate audio : stay 0 calm (accumulate audio).
Proof. apply main_modify. by left. Qed.
Lemma main_partial_if_due : stay 0 calm partial_if_due.
Proof. unfold partial_if_due. repeat main_form. apply main_partial. Qed.

#[local] Hint Resolve main_evaluate main_transcribe main_transcribe_some main_flush_streaming
  main_put main_hear main_speech_started main_speech_ended main_speech_state main_accumulate
  main_partial_if_due main_stop_streaming main_partial : main.
Ltac main_auto := repeat main_form; auto with main nocore.

Lemma main_max_utterance v : stay 0 calm (_check_max_utterance_duration v).
Proof.
  unfold _check_max_utterance_duration, force_vad_endpoint. main_auto.
Qed.

Lemma main_chunk audio : stay 0 calm (_process_chunk audio).
Proof.
  unfold _process_chunk, _maybe_apply_debug_chunk_sleep, _process_chunk_streaming,
    _process_chunk_no_vad, _process_chunk_vad. main_auto; apply main_max_utterance.
Qed.
#[local] Hint Resolve main_chunk : main.

Lemma main_on_storage {A} (f : storage → storage * res string A) : stay 0 calm (on_storage f).
Proof. unfold on_storage. main_auto. Qed.
#[local] Hint Resolve main_on_storage : main.

Lemma main_for {A} (f : A → co St ()) l : (∀ a, stay 0 calm (f a)) → stay 0 calm (cfor f l).
Proof. intros Hf. induction l as [|a l IH]; cbn [cfor foldr]; main_auto. Qed.

Lemma main_init_storage : stay 0 calm _init_storage.
Proof.
  unfold _init_storage, recording_change. main_auto. apply main_for. intros chunk. apply main_on_storage.
Qed.

Lemma main_cleanup : stay 0 calm _cleanup_storage.
Proof. unfold _cleanup_storage, recording_change. main_auto. Qed.

Lemma main_finalize : stay 0 calm finalize_storage.
Proof. unfold finalize_storage. main_auto. Qed.

Lemma main_record_raw data : stay 0 calm (record_raw_audio data).
Proof. unfold record_raw_audio, recording_change. main_auto. Qed.

Lemma main_buffer_add data : stay 0 calm (buffer_add data).
Proof.
  unfold buffer_add. repeat main_form. apply main_modify. intros s. right. by eexists (Heard _).
Qed.

Lemma main_processed x : stay 0 calm (_record_processed_audio x).
Proof. unfold _record_processed_audio, lag_change. main_auto. Qed.
Lemma main_discarded x : stay 0 calm (_record_discarded_audio x).
Proof. unfold _record_discarded_audio, lag_change. main_auto. Qed.
Lemma main_received n : stay 0 calm (_record_received_audio n).
Proof. unfold _record_received_audio, lag_change. main_auto. Qed.
#[local] Hint Resolve main_init_storage main_cleanup main_finalize main_record_raw main_buffer_add
  main_processed main_discarded main_received : main.

Lemma main_buffer_chunk : stay 0 calm buffer_chunk.
Proof. apply main_act. intros s. unfold get_chunk. case_match; by left. Qed.
#[local] Hint Resolve main_buffer_chunk : main.

Lemma main_chunks n : stay 0 calm (process_chunks n).
Proof. induction n as [|n IH]; cbn [process_chunks]; main_auto. Qed.
#[local] Hint Resolve main_chunks : main.

Lemma main_audio data : stay 0 calm (_handle_audio data).
Proof. unfold _handle_audio. main_auto. Qed.

Lemma main_change_config f :
  (∀ c, cf_lag_hard_seconds (f c) = cf_lag_hard_seconds c ∧
        cf_lag_hard_grace_seconds (f c) = cf_lag_hard_grace_seconds c) →
  stay 0 calm (change_config f).
Proof.
  intros Hf. apply main_modify. intros s. left. unfold obs, limits_of. cbn.
  destruct (Hf (lv_config s)) as [-> ->]. done.
Qed.
Lemma main_change_vad f : stay 0 calm (change_vad f).
Proof. apply main_modify. by left. Qed.
#[local] Hint Resolve main_change_vad : main.
Lemma main_update_vad {A} (r : res pyexn A) f : stay 0 calm (update_vad r f).
Proof. unfold update_vad. main_auto. Qed.
#[local] Hint Resolve main_update_vad : main.

Lemma main_update_config a b c d : stay 0 calm (_update_config a b c d).
Proof. unfold _update_config. main_auto; by apply main_change_config. Qed.

Lemma main_flush_vad : stay 0 calm flush_vad.
Proof. apply main_act. intros s. unfold flush. by repeat case_match; left. Qed.
#[local] Hint Resolve main_flush_vad : main.

Lemma main_dropped (f : St → list sample) : stay 0 calm (modify (λ s, emit (Dropped (f s)) s)).
Proof. apply main_modify. intros s. right. by eexists (Dropped _). Qed.
#[local] Hint Resolve main_dropped : main.

Lemma main_flush : stay 0 calm _flush.
Proof.
  unfold _flush. main_auto.
Qed.

Lemma main_clear : stay 0 calm _clear.
Proof.
  unfold _clear, streaming_change. main_auto.
  apply main_act. intros s. right. by eexists (Dropped _).
Qed.
#[local] Hint Resolve main_audio main_update_config main_flush main_clear : main.

(** ** How the main task ends *)

Ltac leaf :=
  unfold returns, uncancelled, harmless, skip, get, act, modify, read, await, switch, blocked, raise, id;
  cbn [outcome mret co_ret]; intros; repeat split; intros; first [reflexivity|discriminate].
Ltac out_form :=
  lazymatch goal with
  | |- uncancelled (mbind _ _) => apply uncancelled_bind; [|intros ?]
  | |- uncancelled (cbind _ _) => apply uncancelled_bind; [|intros ?]
  | |- harmless (mbind _ _) => apply harmless_bind; [|intros ?]
  | |- harmless (cbind _ _) => apply harmless_bind; [|intros ?]
  | |- harmless (cfinally _ _) => apply harmless_finally
  | |- uncancelled (ctry _ _) => apply uncancelled_try; [|intros ?]
  | |- uncancelled (cfinally _ _) => apply uncancelled_finally
  | |- returns (mbind _ _) => apply returns_bind; [|intros ?]
  | |- returns (cbind _ _) => apply returns_bind; [|intros ?]
  | |- returns (ctry _ _) => apply returns_try; [|intros ?]
  | |- returns (cfinally _ _) => apply returns_finally
  | |- _ (mret _) => leaf
  | |- _ (Ret _) => leaf
  | |- _ (raise _) => leaf
  | |- _ skip => leaf
  | |- _ (get _) => leaf
  | |- _ (act _) => leaf
  | |- _ (modify _) => leaf
  | |- _ (await _) => leaf
  | |- _ switch => leaf
  | |- _ blocked => leaf
  | |- _ (lift ?r) => destruct r; unfold lift; leaf
  | |- _ (py ?r) => destruct r; unfold py; leaf
  | |- _ (if ?b then _ else _) => destruct b
  | |- _ (match ?x with _ => _ end) => destruct x
  | |- _ (let _ := _ in _) => cbv zeta
  end.
Ltac out := repeat out_form; auto with out nocore.

Lemma out_send m : returns (_send (sample := sample) (model := model) m).
Proof. unfold _send. out. Qed.
#[local] Hint Resolve out_send returns_uncancelled : out.

Lemma out_evaluate : returns (_evaluate_lag_budget (sample := sample) (model := model) 0).
Proof.
  unfold _evaluate_lag_budget, locking, evaluate, _terminate_for_lag, _send_error, lag_change. out.
Qed.

Lemma out_engine e audio p : uncancelled (call_engine (sample := sample) (model := model) e audio p).
Proof. unfold call_engine. out. Qed.
#[local] Hint Resolve out_evaluate out_engine : out.

Lemma out_transcribe audio : returns (_transcribe_and_send (sample := sample) (model := model) audio).
Proof. unfold _transcribe_and_send, assemble_segment, _send_error. out. Qed.
#[local] Hint Resolve out_transcribe : out.
Lemma out_transcribe_some o : returns (transcribe_some (sample := sample) (model := model) o).
Proof. unfold transcribe_some. out. Qed.
Lemma out_partial : returns (_send_partial_result (sample := sample) (model := model)).
Proof. unfold _send_partial_result. out. Qed.
#[local] Hint Resolve out_transcribe_some out_partial : out.

Lemma out_flush_streaming : uncancelled (_flush_streaming_final (sample := sample) (model := model)).
Proof. unfold _flush_streaming_final, assemble_segment, streaming_change. out. Qed.
Lemma out_put x : returns (put_chunk (sample := sample) (model := model) x).
Proof. unfold put_chunk, streaming_change. out. Qed.
#[local] Hint Resolve out_flush_streaming out_put : out.

Lemma out_max_utterance v : returns (_check_max_utterance_duration (sample := sample) (model := model) v).
Proof.
  unfold _check_max_utterance_duration, force_vad_endpoint, speech_ended, speech_started,
    current_time, set_speech_state. out.
Qed.
#[local] Hint Resolve out_max_utterance : out.

Lemma out_chunk audio : uncancelled (_process_chunk (sample := sample) (model := model) audio).
Proof.
  unfold _process_chunk, _maybe_apply_debug_chunk_sleep, _process_chunk_streaming,
    _process_chunk_no_vad, _process_chunk_vad, hear_audio, partial_if_due, accumulate, speech_ended,
    speech_started, current_time, set_speech_state. out.
Qed.
#[local] Hint Resolve out_chunk : out.

Lemma out_on_storage {A} (f : storage → storage * res string A) :
  uncancelled (on_storage (sample := sample) (model := model) f).
Proof. unfold on_storage. out. Qed.
#[local] Hint Resolve out_on_storage : out.

Lemma out_for {A} (f : A → co St ()) l : (∀ a, uncancelled (f a)) → uncancelled (cfor f l).
Proof. intros Hf. induction l as [|a l IH]; cbn [cfor foldr]; out. Qed.

Lemma out_init_storage : returns (_init_storage (sample := sample) (model := model)).
Proof. unfold _init_storage, recording_change. out. apply out_for. intros. out. Qed.
Lemma out_cleanup : returns (_cleanup_storage (sample := sample) (model := model)).
Proof. unfold _cleanup_storage, recording_change. out. Qed.
Lemma out_finalize : returns (finalize_storage (sample := sample) (model := model)).
Proof. unfold finalize_storage. out. Qed.
#[local] Hint Resolve out_init_storage out_cleanup out_finalize : out.

Lemma out_session_end : returns (_send_session_end (sample := sample) (model := model)).
Proof. unfold _send_session_end, flush_vad. out. Qed.
#[local] Hint Resolve out_session_end : out.

Lemma out_chunks n : uncancelled (process_chunks (sample := sample) (model := model) n).
Proof.
  induction n as [|n IH]; cbn [process_chunks]; unfold buffer_chunk, _record_processed_audio, lag_change; out.
Qed.
#[local] Hint Resolve out_chunks : out.

Lemma out_audio data : uncancelled (_handle_audio (sample := sample) (model := model) data).
Proof.
  unfold _handle_audio, record_raw_audio, buffer_add, _record_received_audio, recording_change,
    lag_change. out.
Qed.

Lemma out_control data : uncancelled (_handle_control (sample := sample) (model := model) data).
Proof.
  unfold _handle_control, _clear, _send_error, _update_config, update_vad, change_config, change_vad, _flush,
    flush_vad, _record_processed_audio, _record_discarded_audio, set_speech_state,
    streaming_change, lag_change, _end. out.
Qed.
#[local] Hint Resolve out_audio out_control : out.

Lemma out_messages n : uncancelled (messages (sample := sample) (model := model) n).
Proof. induction n as [|n IH]; cbn [messages]; unfold next_incoming; out. Qed.

(** ** The end of the session *)

(** At most one [session.end], and none while the session is open; an ended session has
    said so, or was terminated. *)
Record account s : Prop := {
  ac_ends : how_many is_end (lv_trace s) ≤ 1;
  ac_open : lv_ended s = false → how_many is_end (lv_trace s) = 0;
  ac_told : lv_ended s = true →
    lv_lag_terminated s = true ∨ how_many is_end (lv_trace s) = 1;
}.

Definition accounts s s' : Prop := account s → account s'.
#[local] Instance accounts_refl : Reflexive accounts.
Proof. by intros s ?. Qed.
#[local] Instance accounts_trans : Transitive accounts.
Proof. intros s1 s2 s3 H12 H23 Hs. auto. Qed.

Lemma calm_accounts s s' : calm s s' → accounts s s'.
Proof.
  intros [_ He (Hm & Ht & Hw)] [Hends Hopen Htold]. split; rewrite He; [done| |].
  - intros Hs'. apply Hopen. destruct (lv_ended s); [|done]. by rewrite Hm in Hs'.
  - intros [Hs|Hs]%Hw; [|by left]. destruct (Htold Hs); auto.
Qed.

Lemma stay_weaken {A} (keep keep' : St → St → Prop) (c : co St A) :
  Reflexive keep → Transitive keep' → (∀ s s', keep s s' → keep' s s') →
  stay 0 keep c → stay 0 keep' c.
Proof.
  intros Hr Ht Hk Hc z s0 s Hi Hb Hz HG. eapply wp_mono; [by apply (Hc s)|].
  intros r s1 s2 (Hi2 & Hb2 & Hk2 & HG2). split_and!; [done|done|etrans; eauto|done].
Qed.

Lemma stay_accounts {A} (c : co St A) : stay 0 calm c → stay 0 accounts c.
Proof. apply stay_weaken; [apply _|apply _|apply calm_accounts]. Qed.

Lemma accounts_R s s' : R 0 s s' → accounts s s'.
Proof. intros HR. apply calm_accounts. auto. Qed.

(** In between, the session is as it should be. *)
Definition at_ease s : Prop := inv s ∧ begun s ∧ account s.
Definition eases {A} (c : co St A) : Prop :=
  ∀ s0 s, at_ease s → G 0 s0 s →
    wp (R 0) (G 0) (cancelled 0) c (λ _ s0 s, at_ease s ∧ G 0 s0 s) s0 s.

Lemma eases_stay {A} (c : co St A) : stay 0 calm c → eases c.
Proof.
  intros Hc%stay_accounts s0 s (Hi & Hb & Ha) HG. eapply wp_mono; [by apply (Hc s)|].
  intros r s1 s2 (Hi2 & Hb2 & Hk2 & HG2). split; [|done]. split_and!; [done|done|by apply Hk2].
Qed.

Lemma eases_bind {A B} (c : co St A) (f : A → co St B) :
  eases c → (∀ a, eases (f a)) → eases (cbind c f).
Proof.
  intros Hc Hf s0 s Hs HG. apply wp_bind. eapply wp_mono; [by apply Hc|].
  intros [a|e] s1 s2 [Hs2 HG2]; [by apply Hf|done].
Qed.

Lemma eases_try {A} (c : co St A) h : eases c → (∀ t, eases (h t)) → eases (ctry c h).
Proof.
  intros Hc Hh s0 s Hs HG. apply wp_try. eapply wp_mono; [by apply Hc|].
  intros [a|[t|]] s1 s2 [Hs2 HG2]; [done|by apply Hh|done].
Qed.

Lemma at_ease_R s s' : at_ease s → R 0 s s' → at_ease s'.
Proof.
  intros (Hi & Hb & Ha) HR. pose proof (R_base _ _ _ HR) as Hbase.
  split_and!; [by apply Hbase|by eapply base_begun|by apply (accounts_R s)].
Qed.

(** [session.end] is given to the socket, and the session has ended. *)
Lemma set_ended_ok s0 s :
  inv s → begun s → G 0 s0 s → how_many is_end (lv_trace s) ≤ 1 →
  (lv_lag_terminated s = true ∨ how_many is_end (lv_trace s) = 1) →
  at_ease (lv_set_ended s) ∧ G 0 s0 (lv_set_ended s) ∧ lv_ended (lv_set_ended s) = true.
Proof.
  intros Hi Hb HG Hle Htold. pose proof Hi as [Hb0 He Hl Ha Ht Hs Hj Hn0 Hm0].
  assert (inv (lv_set_ended s)) as Hi' by (by split).
  assert (base s (lv_set_ended s)) as Hbase by (by split).
  split_and!; [split_and!; [done|done|by split]| |done].
  etrans; [done|]. split; [done|by intros|done].
Qed.

Definition has_ended (s0 s : St) : Prop := at_ease s ∧ G 0 s0 s ∧ lv_ended s = true.

Lemma send_end_ok s0 s m :
  inv s → begun s → G 0 s0 s → how_many is_end (lv_trace s) = 0 →
  is_end m = true → is_lag_error m = false → is_terminated m = false → after_termination m = false →
  wp (R 0) (G 0) (cancelled 0) (_send m;; modify lv_set_ended) (λ _, has_ended) s0 s.
Proof.
  intros Hi Hb HG Hn He Hl Ht Ha. unfold _send, get, read, modify, skip.
  cbn [mbind mret co_bind co_ret cbind wp id]. apply wp_bind.
  rewrite Ha, andb_true_r. destruct (lv_lag_terminated s) eqn:Hterm; cbn [wp mret co_ret].
  - destruct (set_ended_ok s0 s) as (? & ? & ?); [done|done|done|lia|by left|]. by split_and!.
  - assert (plain_event (lv_lag_terminated s) (how_many is_end (lv_trace s)) (Sent m)) as Hp by (by rewrite Hterm).
    assert (G 0 s (emit (Sent m) s)) as HG' by (by apply G_emit).
    assert (how_many is_end (lv_trace (emit (Sent m) s)) = 1) as Hone.
    { rewrite emit_trace, how_many_app, Hn. unfold how_many. cbn. by rewrite He. }
    split; [by etrans|]. intros s' HR. pose proof (R_base _ _ _ HR) as Hbase.
    split; [|done]. intros _ _. cbn [wp].
    assert (how_many is_end (lv_trace s') = 1) as Hone'.
    { rewrite <- Hone. by apply (ca_ends _ _ (calm_R _ _ HR)). }
    assert (inv s') as Hi' by (by apply Hbase, inv_emit).
    assert (begun s') as Hb' by (apply (base_begun _ _ Hbase), (base_begun s), Hb; apply HG').
    destruct (set_ended_ok s' s') as (? & ? & ?); [done|done|done|lia|by right|].
    by split_and!.
Qed.

(** A piece that returns, and what comes after it. *)
Lemma calm_bind {A B} (c : co St A) (f : A → co St B) Q s0 s :
  stay 0 calm c → returns c → inv s → begun s → G 0 s0 s →
  (∀ a s1 s2, inv s2 → begun s2 → calm s s2 → G 0 s1 s2 → wp (R 0) (G 0) (cancelled 0) (f a) Q s1 s2) →
  wp (R 0) (G 0) (cancelled 0) (cbind c f) Q s0 s.
Proof.
  intros Hc Hr Hi Hb HG Hf. apply wp_bind.
  eapply wp_mono; [eapply (wp_outcome _ _ _ false); [exact Hr|done|by apply (Hc s)]|].
  intros [a|e] s1 s2 [Ha (Hi2 & Hb2 & Hk2 & HG2)]; [by apply Hf|done].
Qed.

Lemma get_bind {A B} i (g : St → A) (f : A → co St B) Q s0 s :
  wp (R i) (G i) (cancelled i) (f (g s)) Q s0 s → wp (R i) (G i) (cancelled i) (get g ≫= f) Q s0 s.
Proof. done. Qed.

Lemma session_end_ok s0 s :
  inv s → begun s → G 0 s0 s → how_many is_end (lv_trace s) = 0 →
  wp (R 0) (G 0) (cancelled 0) _send_session_end
    (λ r s0 s', is_ok r = true ∧ has_ended s0 s') s0 s.
Proof.
  intros Hi Hb HG Hn. apply (wp_outcome _ _ _ false); [apply out_session_end|done|].
  unfold _send_session_end. apply get_bind. apply calm_bind; [main_auto|unfold flush_vad; out|done..|].
  intros [] s1 s2 Hi2 Hb2 Hc2 HG2. apply get_bind.
  apply calm_bind; [apply main_finalize|out|done..|].
  intros uris s3 s4 Hi4 Hb4 Hc4 HG4.
  apply calm_bind; [apply main_cleanup|out|done..|].
  intros [] s5 s6 Hi6 Hb6 Hc6 HG6. apply get_bind.
  apply send_end_ok; [done..| |done|done|done|done].
  by rewrite (ca_ends _ _ Hc6), (ca_ends _ _ Hc4), (ca_ends _ _ Hc2).
Qed.

(** ** The main task *)

Lemma eases_audio data : eases (_handle_audio data).
Proof. apply eases_stay, main_audio. Qed.

Lemma main_send_error code text b :
  String.eqb code LAG_EXCEEDED = false → stay 0 calm (_send_error code text b).
Proof. intros Hc. unfold _send_error. repeat main_form. Qed.

Lemma eases_control data : eases (_handle_control data).
Proof.
  intros s0 s (Hi & Hb & Ha) HG. unfold _handle_control, get, read. cbn [mbind co_bind cbind wp id].
  destruct (lv_ended s) eqn:Hend; [by split|].
  destruct (parse_client_message data) as [parsed|text].
  2: { apply eases_stay; [by apply main_send_error|done|done]. }
  assert (eases (_evaluate_lag_budget 0)) as Heval by (apply eases_stay, main_evaluate).
  destruct parsed as [a b c d| | |].
  - apply eases_bind; [apply eases_stay, main_update_config|intros []; apply Heval|done|done].
  - apply eases_bind; [apply eases_stay, main_flush|intros []; apply Heval|done|done].
  - apply eases_bind; [apply eases_stay, main_clear|intros []; apply Heval|done|done].
  - apply wp_bind. unfold _end, get, read. cbn [mbind co_bind cbind wp id].
    destruct (sg_active (lv_streaming s)); cbn [wp].
    + apply Heval; [split_and!; [done|done|by destruct Ha; split]|].
      etrans; [done|]. by apply G_quiet.
    + apply wp_bind. eapply wp_mono; [apply session_end_ok; [done..|by apply Ha]|].
      intros [[]|e] s1 s2 [Hok (Hs2 & HG2 & He2)]; [|done]. unfold modify. cbn [wp].
      destruct Hs2 as (Hi2 & Hb2 & Ha2).
      destruct (set_ended_ok s1 s2) as (Hs3 & HG3 & _); [done..|apply Ha2|by apply Ha2|].
      by apply Heval.
Qed.

Lemma next_step s : let s' := lv_set_inbox (tail (lv_inbox s)) s in G 0 s s' ∧ main_kept s s'.
Proof.
  intros s'. assert (main_kept s s') as Hm by (split; [done|done|split_and!; auto]).
  split; [|done]. split; [|by intros j|done]. split; [done|done|done|done|done|].
  unfold allowed. cbn. destruct (lv_inbox s); [done|]. by inversion 1.
Qed.

Lemma main_next : stay 0 calm next_incoming.
Proof.
  unfold next_incoming. repeat by_form. apply stay_act; [apply _|]. intros s Hi Hb.
  destruct (next_step s) as [HG Hm]. split; [done|]. apply calm_base; [apply HG|done].
Qed.

Lemma eases_messages n : eases (messages n).
Proof.
  induction n as [|n IH]; cbn [messages].
  - apply eases_stay. unfold blocked. main_auto.
  - apply eases_bind; [apply eases_stay, main_next|].
    assert (eases (s ← get id;
      if lv_ended s || lv_close_requested s then skip else messages n)) as Hnext.
    { apply eases_bind; [apply eases_stay; main_auto|]. intros s.
      destruct (_ || _); [apply eases_stay; main_auto|apply IH]. }
    intros [data|data|[text|]]; cbv zeta.
    + apply eases_bind; [apply eases_audio|by intros []].
    + apply eases_bind; [apply eases_control|by intros []].
    + apply eases_stay. main_auto.
    + apply eases_stay. main_auto.
Qed.

Lemma base_ended_R s s' : R 0 s s' → lv_ended s = true → lv_ended s' = true.
Proof. intros HR. apply (R_base _ _ _ HR). Qed.

(** What the ended session still does. *)
Lemma ended_stay {A} (c : co St A) s0 s :
  stay 0 calm c → has_ended s0 s → wp (R 0) (G 0) (cancelled 0) c (λ _, has_ended) s0 s.
Proof.
  intros Hc ((Hi & Hb & Ha) & HG & He). eapply wp_mono; [by apply (Hc s)|].
  intros r s1 s2 (Hi2 & Hb2 & Hk2 & HG2).
  split_and!; [|done|by apply (ca_ended _ _ Hk2)]. split_and!; [done|done|].
  by apply (calm_accounts _ _ Hk2).
Qed.

Definition streams s : bool := sg_active (lv_streaming s).

(** At the end: in order; ended, if no exception got out; and none gets out of a session
    that does not stream. *)
Definition finished (r : res task_exn ()) (s : St) : Prop :=
  at_ease s ∧ (is_ok r = true → lv_ended s = true) ∧ (streams s = false → is_ok r = true).

Lemma same_limits_streams s s' : same_limits s s' → streams s' = streams s.
Proof. intros Hl. exact (f_equal snd Hl). Qed.

Lemma calm_streams s s' : calm s s' → streams s' = streams s.
Proof. intros Hc. by apply same_limits_streams, Hc. Qed.

(** A piece of the main task, with what it keeps. *)
Lemma calm_ease {A} (c : co St A) s0 s :
  stay 0 calm c → at_ease s → G 0 s0 s →
  wp (R 0) (G 0) (cancelled 0) c (λ _ s0 s', at_ease s' ∧ G 0 s0 s' ∧ streams s' = streams s) s0 s.
Proof.
  intros Hc (Hi & Hb & Ha) HG. eapply wp_mono; [by apply (Hc s)|].
  intros r s1 s2 (Hi2 & Hb2 & Hk2 & HG2). split_and!; [|done|by apply calm_streams].
  split_and!; [done|done|by apply (calm_accounts s)].
Qed.

Lemma created_ok s0 s s' :
  at_ease s → G 0 s0 s → lv_trace s' = lv_trace s → lv_lag_terminated s' = lv_lag_terminated s →
  lv_ended s' = lv_ended s → since_of s' = since_of s → limits_of s' = limits_of s →
  lock_of s' = lock_of s → (∀ t, done_of s' ≠ Some (Raise (Failure t))) →
  lv_inbox s' = lv_inbox s → at_ease s' ∧ G 0 s0 s'.
Proof.
  intros (Hi & Hb & [Ha1 Ha2 Ha3]) HG Ht Hterm He Hs Hl Hlock Hd Hinbox.
  pose proof Hi as [Hb0 Hte Hle Haf Hterms Hsi Hj Hm0].
  assert (begun s') as Hb' by (unfold begun; by rewrite Ht).
  assert (inv s') as Hi'.
  { unfold inv. rewrite Ht, Hterm, He, Hs, Hl. split; auto. }
  split; [split_and!; [done|done|]|].
  - split; rewrite ?Ht, ?Hterm, ?He; auto.
  - etrans; [done|]. split; [split; [congruence|congruence|done|by rewrite Ht|done|]| |done].
    { unfold allowed. by rewrite Hinbox. }
    intros j _ Hj'. rewrite Hlock, Ht. done.
Qed.

(** The monitor has not failed. *)
Lemma stop_monitor_ok s0 s :
  at_ease s → G 0 s0 s →
  wp (R 0) (G 0) (cancelled 0) _stop_lag_monitor
    (λ r s0 s, is_ok r = true ∧ at_ease s ∧ G 0 s0 s) s0 s.
Proof.
  intros Hs HG. unfold _stop_lag_monitor. apply get_bind.
  destruct (tk_created (lv_monitor s)); [|by split].
  unfold modify, await_monitor, await. cbn [mbind co_bind cbind wp].
  set (s1 := lv_set_monitor (cancel_async (lv_monitor s)) s).
  assert (at_ease s1 ∧ G 0 s0 s1) as [Hs1 HG1].
  { apply (created_ok s0 s); try done. apply Hs. }
  split; [done|]. intros s2 HR. pose proof (at_ease_R _ _ Hs1 HR) as Hs2.
  split; [|done]. intros _ _. apply get_bind. destruct Hs2 as (Hi2 & Hb2 & Ha2).
  destruct (tk_done (lv_monitor s2)) as [[[]|[t|]]|] eqn:Hd; [by split_and!| |by split_and!|by split_and!].
  by destruct (so_monitor _ _ _ _ _ _ _ _ Hi2 t).
Qed.

Lemma main_finish_ok s0 s :
  at_ease s → G 0 s0 s →
  wp (R 0) (G 0) (cancelled 0) finish (λ r s0 s, G 0 s0 s ∧ finished r s) s0 s.
Proof.
  intros Hs HG. unfold finish. apply get_bind. apply wp_bind.
  apply (wp_mono _ _ _ _ (λ r s0 s, at_ease s ∧ G 0 s0 s ∧ (streams s = false → is_ok r = true))).
  { change (sg_active (lv_streaming (id s))) with (streams s). destruct (streams s) eqn:Hst.
    - eapply wp_mono; [apply calm_ease; [|done|done]; main_auto|].
      intros r s1 s2 (? & ? & ->). split_and!; [done|done|congruence].
    - by split_and!. }
  intros [[]|e] s1 s2 (Hs2 & HG2 & Hok2).
  2: { split; [done|]. by split_and!. }
  apply wp_bind. eapply wp_mono; [by apply stop_monitor_ok|].
  intros [[]|e] s3 s4 (Hok & Hs4 & HG4); [|done]. apply get_bind. apply wp_bind.
  apply (wp_mono _ _ _ _ (λ r s0 s, is_ok r = true ∧ has_ended s0 s)).
  - destruct (lv_ended s4) eqn:He; [by split_and!|]. destruct Hs4 as (Hi4 & Hb4 & Ha4).
    apply wp_try. eapply wp_mono; [apply session_end_ok; [done..|by apply Ha4]|].
    by intros [a|e] s5 s6 [Hok6 Hs6].
  - intros [[]|e] s5 s6 [Hok6 Hs6]; [|done].
    apply get_bind. eapply wp_mono.
    + apply (wp_outcome _ _ _ false); [|done|apply ended_stay; [|done]].
      * destruct (rc_storage _); [apply out_cleanup|done].
      * destruct (rc_storage _); [apply main_cleanup|apply stay_ret].
    + intros r s7 s8 (Hr & ? & ? & ?). split; [done|]. by split_and!.
Qed.

(** A session before its first message. *)
Record fresh s : Prop := {
  fr_inv : inv s;
  fr_trace : lv_trace s = [];
  fr_ended : lv_ended s = false;
}.

Lemma fresh_R s s' : fresh s → R 0 s s' → fresh s'.
Proof.
  intros [Hi Ht He] HR. pose proof (R_base _ _ _ HR) as Hbase.
  destruct (R_main _ _ _ HR eq_refl) as [Hown Hsil (_ & _ & Hend)].
  assert (inv s') as Hi' by (by apply Hbase). split; [done|by apply Hsil|].
  destruct (lv_ended s') eqn:He'; [|done]. destruct (Hend eq_refl) as [?|Hterm]; [congruence|].
  pose proof (so_lag_error _ _ _ _ _ _ _ _ Hi') as Hl. rewrite (Hsil Ht), Hterm in Hl. done.
Qed.

Lemma begin_ok s0 s m :
  fresh s → G 0 s0 s → is_begin m = true →
  at_ease (emit (Sent m) s) ∧ G 0 s0 (emit (Sent m) s).
Proof.
  intros [Hi Ht He] HG Hm. pose proof Hi as [Hb0 Hte Hl Ha Hterms Hs Hj Hm0].
  rewrite Ht in Hl. destruct (lv_lag_terminated s) eqn:Hterm; [done|].
  assert (lv_trace (emit (Sent m) s) = [Sent m]) as Htr by (by rewrite emit_trace, Ht).
  assert (begun (emit (Sent m) s)) as Hb by (exists m; by rewrite Htr).
  assert (how_many is_end [Sent m] = 0 ∧ how_many is_lag_error [Sent m] = 0 ∧
    how_many is_terminated [Sent m] = 0) as (Hn1 & Hn2 & Hn3) by (by destruct m).
  assert (inv (emit (Sent m) s)) as Hi'.
  { unfold inv. rewrite Htr. cbn [lv_lag_terminated emit lv_set_trace]. rewrite Hterm.
    split; [left; exists m; by split|done|done| |by rewrite Hn3| |done|rewrite Hn1; lia|done].
    - apply (after_snoc []); [by intros [] ? ?|]. unfold how_many. cbn. lia.
    - intros t Ht'. apply (hard_run_more _ _ [] [_]); [done|]. rewrite <- Ht. by apply Hs. }
  split; [split_and!; [done|done|]|].
  - split; rewrite Htr, Hn1; [lia|done|]. cbn. by rewrite He.
  - etrans; [done|]. split; [split; [done|done|done|by eexists|done|done]| |done].
    intros j Hj'' Hlock. split; [done|]. by rewrite Htr, Hn3, Ht.
Qed.

Lemma eases_failed t : eases (failed t).
Proof. apply eases_stay. unfold failed. main_auto. by apply main_send_error. Qed.

Definition main_loop (n : nat) : co St () :=
  cfinally (ctry (messages n) failed) finish;;
  modify (λ s, emit (Reported (session_status s)) s).

Lemma main_loop_ok n s0 s :
  at_ease s → G 0 s0 s →
  wp (R 0) (G 0) (cancelled 0) (main_loop n) (ends_in (G 0) finished) s0 s.
Proof.
  intros Hs HG. unfold main_loop. apply wp_bind, wp_finally.
  eapply wp_mono.
  { apply (wp_outcome _ _ _ false); [apply returns_try; [apply out_messages|]|done|].
    - intros t. unfold failed, _send_error. out.
    - apply eases_try; [apply eases_messages|apply eases_failed|done|done]. }
  intros r s1 s2 [Hok [Hs2 HG2]]. eapply wp_mono; [by apply main_finish_ok|].
  intros [[]|e] s3 s4 [HG4 (Hs4 & He4 & Hst4)]; [|by split].
  destruct r as [[]|e]; [|done].
  assert (stay 0 calm (modify (λ s : St, emit (Reported (session_status s)) s))) as Hst.
  { apply main_modify. intros s'. right. by eexists (Reported _). }
  eapply wp_mono.
  { apply (wp_outcome _ _ _ false); [|done|apply (ended_stay _ s3 s4 Hst); split_and!; auto].
    instantiate (1 := λ r, is_ok r = true). done. }
  intros r s5 s6 (Hr & Hs6 & HG6 & He6). split; [done|]. by split_and!.
Qed.

Lemma main_ok n s :
  fresh s → wp (R 0) (G 0) (cancelled 0) (main_task n) (ends_in (G 0) finished) s s.
Proof.
  intros Hf. unfold main_task, _send_session_begin. apply wp_bind.
  apply get_bind. unfold _send. apply get_bind.
  assert (lv_lag_terminated s = false) as Hterm.
  { destruct (lv_lag_terminated s) eqn:Ht; [|done]. pose proof (so_lag_error _ _ _ _ _ _ _ _ (fr_inv _ Hf)) as Hl.
    by rewrite (fr_trace _ Hf), Ht in Hl. }
  rewrite Hterm. set (m := SessionBegin _ _). cbn [andb mbind co_bind cbind wp].
  destruct (begin_ok s s m Hf) as [Hs HG]; [done|done|]. split; [done|]. intros s1 HR1.
  split; [|done]. intros _ _. cbn [wp].
  apply wp_bind. eapply wp_mono.
  { apply (wp_outcome _ _ _ false); [apply out_init_storage|done|].
    apply eases_stay; [apply main_init_storage|by eapply at_ease_R|done]. }
  intros [[]|e] s2 s3 [Hok3 [Hs3 HG3]]; [|done].
  set (s4 := lv_set_monitor created_task s3).
  assert (at_ease s4 ∧ G 0 s2 s4) as [Hs4 HG4] by (by apply (created_ok s2 s3)).
  change (wp (R 0) (G 0) (cancelled 0)
    (s ← get id; (if sg_active (lv_streaming s) then
       streaming_change (set_sg_queue (Some []));; modify (λ s, lv_set_decoder created_task s)
     else skip);; main_loop n) (ends_in (G 0) finished) s2 s4).
  apply get_bind. apply wp_bind.
  apply (wp_mono _ _ _ _ (λ r s0 s, is_ok r = true ∧ at_ease s ∧ G 0 s0 s)).
  - destruct (sg_active (lv_streaming (id s4))); [|by split]. cbn [mbind co_bind cbind wp].
    unfold streaming_change, modify. cbn [mbind co_bind cbind wp]. split; [done|].
    by apply (created_ok s2 s4).
  - intros [[]|e] s5 s6 [Hok [Hs6 HG6]]; [|done]. by apply main_loop_ok.
Qed.

(** ** All tasks together *)

Definition final (i : nat) (r : res task_exn ()) s : Prop :=
  match i with 0 => finished r s | _ => True end.

Lemma final_R i r s s' : final i r s → R i s s' → final i r s'.
Proof.
  destruct i as [|i]; [|done]. intros (Hs & He & Hst) HR.
  assert (streams s' = streams s) as Hsame by (by apply same_limits_streams, (same_limits_R 0)).
  split_and!; [by eapply at_ease_R| |by rewrite Hsame]. intros Hr. apply (base_ended_R _ _ HR). auto.
Qed.

Lemma world_R i (m : move St) s s' : outside m s = Some s' → R i s s'.
Proof.
  change (world client m s = Some s' → R i s s'). intros Hw.
  destruct m as [m| | | |]; cbn in Hw.
  1: { destruct (client m) eqn:Hm; [|done]. injection Hw as <-.
    assert (main_kept s (lv_set_inbox (lv_inbox s ++ [m]) s)) as Hk by (split; [done|done|split_and!; auto]).
    split; [|by intros|done]. split; [done|done|done|done|done|].
    intros Ha. apply Forall_app. by split; [|constructor]. }
  all: assert (obs s' = obs s ∧ own s' = own s) as [Ho Hown] by (repeat case_match; simplify_eq; done).
  all: split; [by apply base_quiet|by apply locked_quiet|intros _; by apply own_kept].
Qed.

Lemma done_step s r :
  (∀ t, r ≠ Raise (Failure t)) → G 1 s (lv_set_monitor (set_task_done r (lv_monitor s)) s).
Proof.
  intros Hr. split; [split; try done|by intros j|by intros _; split; [| |split_and!; auto]].
  intros [Hb0 He Hl Ha Ht Hs Hj Hn0 Hm0]. split; try done.
  intros t Heq. cbn in Heq. injection Heq. apply Hr.
Qed.

Lemma out_monitor n : harmless (_lag_monitor_loop (sample := sample) (model := model) n).
Proof.
  assert (∀ m, harmless (_send (sample := sample) (model := model) m)) as Hsend.
  { intros m. unfold _send. out. }
  assert (harmless (_evaluate_lag_budget (sample := sample) (model := model) 1)) as Heval.
  { unfold _evaluate_lag_budget, locking, evaluate, _terminate_for_lag, _send_error, lag_change.
    out; apply Hsend. }
  induction n as [|n IH]; cbn [_lag_monitor_loop]; out.
Qed.

Lemma begun_created s : inv s → created_of s = true → begun s.
Proof. intros Hi Hc. destruct (so_begun _ _ _ _ _ _ _ _ Hi) as [?|[_ ?]]; [done|congruence]. Qed.

Lemma side_R {A} i c s0 s :
  stay (A := A) i same_limits c → inv s → begun s → G i s0 s →
  wp (R i) (G i) (cancelled i) c (λ _ s0 s, inv s ∧ begun s ∧ G i s0 s) s0 s.
Proof.
  intros Hc Hi Hb HG. eapply wp_mono; [by apply (Hc s)|]. by intros r s1 s2 (? & ? & _ & ?).
Qed.

Lemma monitor_ok n s : inv s → waits (R 1) (G 1) (cancelled 1) (monitor_task n) (final 1) s.
Proof.
  intros Hi s' HR. assert (inv s') as Hi' by (by apply (R_base _ _ _ HR)).
  assert (∀ r s0 s, inv s → begun s → G 1 s0 s → (∀ t, r ≠ Raise (Failure t)) →
    wp (R 1) (G 1) (cancelled 1) (modify (λ s, lv_set_monitor (set_task_done r (lv_monitor s)) s))
      (ends_in (G 1) (final 1)) s0 s) as Hdone.
  { intros r s0 s1 Hi1 Hb1 HG1 Hr. split; [|done]. etrans; [done|]. by apply done_step. }
  split.
  - intros _ Hc. assert (begun s') as Hb' by (apply begun_created; [done|]; unfold created_of; by rewrite Hc).
    apply wp_then. eapply wp_mono.
    { apply (wp_outcome _ _ _ true); [apply out_monitor|done|].
      by apply side_R; [apply side_monitor|..]. }
    intros r s1 s2 [Hr (Hi2 & Hb2 & HG2)]. by apply Hdone.
  - intros _. split; [|done]. by apply done_step.
Qed.

Lemma decoder_ok n s : inv s → waits (R 2) (G 2) (cancelled 2) (decoder_task n) (final 2) s.
Proof.
  intros Hi s' HR. assert (inv s') as Hi' by (by apply (R_base _ _ _ HR)). split.
  - intros _ Hc. assert (begun s') as Hb'.
    { apply begun_created; [done|]. unfold created_of. by rewrite Hc, orb_true_r. }
    assert (stay 2 same_limits (streaming_change (λ g, set_sg_results true (sg_results g) g);;
      ctry (_streaming_decode_loop n) (λ _, skip))) as Hst.
    { unfold streaming_change. repeat by_form; [by apply stay_side_quiet|apply side_decoder]. }
    apply wp_then. eapply wp_mono; [by apply (side_R 2 _ _ _ Hst)|].
    intros r s1 s2 (Hi2 & Hb2 & HG2). split; [|done]. etrans; [done|]. by apply G_quiet.
  - intros _. split; [|done]. by apply G_quiet.
Qed.

Lemma start_waits n s : fresh s → all_wait R G final (start n s).
Proof.
  intros Hf i c. unfold start. cbn [l_tasks l_state].
  destruct i as [|[|[|i]]]; cbn; [| | |done]; intros [= <-].
  - intros s' HR. split; [|done]. intros _ _. apply main_ok. by eapply fresh_R.
  - apply monitor_ok, Hf.
  - apply decoder_ok, Hf.
Qed.

Lemma new_session_fresh c m native streaming clock s :
  new_session c m native streaming clock = Ok s → fresh s ∧ limits_of s =
    (cf_lag_hard_seconds c, cf_lag_hard_grace_seconds c, streaming).
Proof.
  unfold new_session. destruct (new_audio_buffer c) as [b|]; [|done]. cbn [mbind res_mbind res_bind].
  destruct (if cf_enable_vad c then _ else _) as [v|]; [|done]. cbn [mbind res_mbind res_bind].
  intros [= <-]. split; [|done]. split; [|done|done].
  split; cbn; try done; first [by right|by intros [] ? ?|lia|unfold how_many; cbn; lia].
Qed.

(** A session at any time: its invariant, and what its main task has returned. *)
Lemma session_reach n s l :
  fresh s → loop_reach (start n s) l →
  inv (l_state l) ∧ limits_of (l_state l) = limits_of s ∧
  (∀ r, l_tasks l !! 0 = Some (Ret r) → finished r (l_state l)).
Proof.
  intros Hf Hl. pose proof (start_waits n s Hf) as Hw.
  assert (∀ P : St → Prop, (∀ s s', base s s' → P s → P s') → P s → P (l_state l)) as Hinv.
  { intros P HP Hs.
    apply (reach_inv R G final R_trans R_refl G_R world_R final_R P (start n s)); try done.
    - intros i s1 s2 HG. apply HP, HG.
    - intros m s1 s2 Hm. apply HP. by apply (R_base 0), (world_R 0 m). }
  split_and!.
  - apply (Hinv inv); [by intros s1 s2 []|apply Hf].
  - apply (Hinv (λ s', limits_of s' = limits_of s)); [|done]. intros s1 s2 [] ?. congruence.
  - intros r Hr.
    by apply (reach_returned R G final R_trans R_refl G_R world_R final_R (start n s) l 0).
Qed.

(** ** Audio without a detector *)

(** What bears on the audio of a session that neither detects speech nor streams. *)
Definition heard_of s :=
  (lv_config s, lv_vad s, lv_buffer s, lv_speech_audio_buffer s, streams s, givens (lv_trace s),
   heards (lv_trace s), how_many is_end (lv_trace s)).

Record kept s s' : Prop := {
  ke_heard : heard_of s' = heard_of s;
  ke_ended : why_ended s s';
  ke_allowed : allowed s → allowed s';
}.
#[local] Instance kept_refl : Reflexive kept.
Proof. intros s. by split. Qed.
#[local] Instance kept_trans : Transitive kept.
Proof. intros s1 s2 s3 [] []. split; [congruence|by etrans|auto]. Qed.

Lemma kept_base s s' : base s s' → main_kept s s' → kept s s'.
Proof.
  intros Hb [Hw _ He]. split; [|done|apply Hb]. unfold own in Hw. unfold heard_of, streams. congruence.
Qed.
Lemma kept_R s s' : R 0 s s' → kept s s'.
Proof. intros [Hb _ Hm]. by apply kept_base; [|apply Hm]. Qed.
Lemma kept_step s s' : base s s' → main_kept s s' → locked_by 0 s s' → kept s s'.
Proof. intros ? ? _. by apply kept_base. Qed.
#[local] Hint Resolve kept_base kept_R kept_step : core.

Lemma kept_modify f :
  (∀ s, main_step s (f s) ∧ heard_of (f s) = heard_of s) → stay 0 kept (modify f).
Proof.
  intros Hf. apply stay_modify; [apply _|]. intros s Hi Hb. destruct (Hf s) as [Hm Hh].
  destruct (main_step_ok _ _ Hi Hb Hm) as [HG Hc]. split; [done|]. split; [done|apply Hc|apply HG].
Qed.
Lemma kept_act {A} (f : St → St * A) :
  (∀ s, main_step s (f s).1 ∧ heard_of (f s).1 = heard_of s) → stay 0 kept (act f).
Proof.
  intros Hf. apply stay_act; [apply _|]. intros s Hi Hb. destruct (Hf s) as [Hm Hh].
  destruct (main_step_ok _ _ Hi Hb Hm) as [HG Hc]. split; [done|]. split; [done|apply Hc|apply HG].
Qed.

Ltac kept_form :=
  first
  [ by_form
  | lazymatch goal with
    | |- stay _ _ (modify _) => apply kept_modify; intros ?; split; [left|]; reflexivity
    | |- stay _ _ (act _) =>
        apply kept_act; intros ?; split; [left|]; repeat case_match; reflexivity
    end ].
Ltac kept_auto := repeat kept_form; auto with kept nocore.

Lemma kept_evaluate : stay 0 kept (_evaluate_lag_budget 0).
Proof.
  apply stay_evaluate; [apply _|apply _|eauto|eauto|]. intros s s' [Hh _ _].
  unfold limits_of. unfold heard_of, streams in Hh. congruence.
Qed.
Lemma kept_call audio params : stay 0 kept (call_engine [] audio params).
Proof.
  unfold call_engine. repeat kept_form. apply kept_act. intros s. unfold main_step, obs, heard_of. cbn.
  rewrite app_nil_r. by split; [left|].
Qed.
#[local] Hint Resolve kept_evaluate kept_call : kept.
Lemma kept_partial : stay 0 kept partial_if_due.
Proof. unfold partial_if_due, _send_partial_result. kept_auto. Qed.
Lemma kept_on_storage {A} (f : storage → storage * res string A) : stay 0 kept (on_storage f).
Proof. unfold on_storage. kept_auto. Qed.
#[local] Hint Resolve kept_partial kept_on_storage : kept.
Lemma kept_cleanup : stay 0 kept _cleanup_storage.
Proof. unfold _cleanup_storage, recording_change. kept_auto. Qed.
Lemma kept_finalize : stay 0 kept finalize_storage.
Proof. unfold finalize_storage. kept_auto. Qed.
Lemma kept_record_raw data : stay 0 kept (record_raw_audio data).
Proof. unfold record_raw_audio, recording_change. kept_auto. Qed.
Lemma kept_received n : stay 0 kept (_record_received_audio n).
Proof. unfold _record_received_audio, lag_change. kept_auto. Qed.
Lemma kept_processed x : stay 0 kept (_record_processed_audio x).
Proof. unfold _record_processed_audio, lag_change. kept_auto. Qed.
Lemma kept_sleep : stay 0 kept _maybe_apply_debug_chunk_sleep.
Proof. unfold _maybe_apply_debug_chunk_sleep. kept_auto. Qed.
Lemma kept_error code text b :
  String.eqb code LAG_EXCEEDED = false → stay 0 kept (_send_error code text b).
Proof. intros Hc. unfold _send_error. repeat kept_form. Qed.
Lemma kept_failed t : stay 0 kept (failed t).
Proof. unfold failed. kept_auto. by apply kept_error. Qed.
Lemma kept_for {A} (f : A → co St ()) l : (∀ a, stay 0 kept (f a)) → stay 0 kept (cfor f l).
Proof. intros Hf. induction l as [|a l IH]; cbn [cfor foldr]; kept_auto. Qed.
Lemma kept_init_storage : stay 0 kept _init_storage.
Proof.
  unfold _init_storage, recording_change. kept_auto. apply kept_for. intros chunk. apply kept_on_storage.
Qed.
#[local] Hint Resolve kept_cleanup kept_finalize kept_record_raw kept_received kept_processed
  kept_sleep kept_init_storage kept_failed : kept.

Lemma kept_assemble t d : stay 0 kept (assemble_segment t d).
Proof. apply kept_act. intros s. by split; [left|]. Qed.
#[local] Hint Resolve kept_assemble : kept.

(** What was heard is what the engine was given, what waits to be given, the chunk [ex] in
    the hands of the main task, and what is in the buffer; until a termination. *)
Record sound (n bound : nat) (waiting : list (list sample)) (ex : list sample) s : Prop := {
  sn_vad : lv_vad s = None;
  sn_streams : streams s = false;
  sn_language : ∃ l, cf_language (lv_config s) = JStr l;
  sn_chunk : ab_chunk_samples (lv_buffer s) = Z.of_nat n;
  sn_open : lv_ended s = true → lv_lag_terminated s = true;
  sn_ends : how_many is_end (lv_trace s) = 0;
  sn_given : concat (givens (lv_trace s)) `prefix_of` concat (heards (lv_trace s));
  sn_all : lv_lag_terminated s = false →
    concat (heards (lv_trace s)) =
      concat (givens (lv_trace s)) ++ concat waiting ++ ex ++ ab_buffer (lv_buffer s) ∧
    length (ab_buffer (lv_buffer s)) < bound;
}.

Lemma kept_sound n bound w ex s s' : kept s s' → sound n bound w ex s → sound n bound w ex s'.
Proof.
  intros [Hh (Hm & Ht & Hw) _] [Hv Hst Hl Hc Ho Hn Hg Ha].
  unfold heard_of in Hh. injection Hh as Hc' Hv' Hb' Hsp' Hst' Hg' Hh' Hn'.
  split; rewrite ?Hc', ?Hv', ?Hb', ?Hst', ?Hg', ?Hh', ?Hn'; auto.
  - intros [He|He]%Hw; [|done]. auto.
  - intros Hterm. apply Ha. destruct (lv_lag_terminated s); [|done]. by rewrite Ht in Hterm.
Qed.

Definition good s : Prop := inv s ∧ begun s ∧ allowed s.

(** [c] takes [P] to [P'], however it ends. *)
Definition does {A} (P P' : St → Prop) (c : co St A) : Prop :=
  ∀ s0 s, good s → G 0 s0 s → P s →
    wp (R 0) (G 0) (cancelled 0) c (λ _ s0 s, good s ∧ G 0 s0 s ∧ P' s) s0 s.

Lemma does_stay {A} P (c : co St A) :
  stay 0 kept c → (∀ s s', kept s s' → P s → P s') → does P P c.
Proof.
  intros Hc HP s0 s (Hi & Hb & Ha) HG Hs. eapply wp_mono; [by apply (Hc s)|].
  intros r s1 s2 (Hi2 & Hb2 & Hk2 & HG2). split_and!; [|done|by eapply HP].
  split_and!; [done|done|by apply Hk2].
Qed.

Lemma does_bind {A B} P P1 P2 (c : co St A) (f : A → co St B) :
  does P P1 c → returns c → (∀ a, does P1 P2 (f a)) → does P P2 (cbind c f).
Proof.
  intros Hc Hr Hf s0 s Hgood HG Hs. apply wp_bind.
  eapply wp_mono; [apply (wp_outcome _ _ _ false); [exact Hr|done|by apply Hc]|].
  intros [a|e] s1 s2 [Hok (Hg2 & HG2 & HP2)]; [by apply Hf|done].
Qed.

(** The same, and returns. *)
Definition does_ok {A} (P P' : St → Prop) (c : co St A) : Prop :=
  ∀ s0 s, good s → G 0 s0 s → P s →
    wp (R 0) (G 0) (cancelled 0) c (λ r s0 s, is_ok r = true ∧ good s ∧ G 0 s0 s ∧ P' s) s0 s.

Lemma does_returns {A} P P' (c : co St A) : returns c → does P P' c → does_ok P P' c.
Proof.
  intros Hr Hc s0 s Hgood HG Hs. apply (wp_outcome _ _ _ false); [exact Hr|done|by apply Hc].
Qed.

Lemma does_any {A} P P' (c : co St A) : does_ok P P' c → does P P' c.
Proof.
  intros Hc s0 s Hgood HG Hs. eapply wp_mono; [by apply Hc|]. by intros r s1 s2 [_ ?].
Qed.

Lemma does_ok_bind {A B} P P1 P2 (c : co St A) (f : A → co St B) :
  does_ok P P1 c → (∀ a, does_ok P1 P2 (f a)) → does_ok P P2 (cbind c f).
Proof.
  intros Hc Hf s0 s Hgood HG Hs. apply wp_bind. eapply wp_mono; [by apply Hc|].
  intros [a|e] s1 s2 (Hok & Hg2 & HG2 & HP2); [by apply Hf|done].
Qed.

Lemma does_seq {A B} P P1 P2 (c : co St A) (f : A → co St B) :
  does_ok P P1 c → (∀ a, does P1 P2 (f a)) → does P P2 (cbind c f).
Proof.
  intros Hc Hf s0 s Hgood HG Hs. apply wp_bind. eapply wp_mono; [by apply Hc|].
  intros [a|e] s1 s2 (Hok & Hg2 & HG2 & HP2); [by apply Hf|done].
Qed.

Lemma does_get {A B} P P' (g : St → A) (f : A → co St B) :
  (∀ s0 s, good s → G 0 s0 s → P s →
    wp (R 0) (G 0) (cancelled 0) (f (g s)) (λ _ s0 s, good s ∧ G 0 s0 s ∧ P' s) s0 s) →
  does P P' (get g ≫= f).
Proof. intros Hf s0 s Hgood HG Hs. by apply get_bind, Hf. Qed.

Lemma good_step s s' :
  good s → main_step s s' → lv_inbox s' = lv_inbox s → good s' ∧ G 0 s s'.
Proof.
  intros (Hi & Hb & Ha) Hm Hin. destruct (main_step_ok _ _ Hi Hb Hm) as [HG _].
  split; [|done]. split_and!; [by apply HG|by eapply base_begun; [apply HG|]|]. unfold allowed. by rewrite Hin.
Qed.

Lemma does_modify P P' f :
  (∀ s, main_step s (f s) ∧ lv_inbox (f s) = lv_inbox s) → (∀ s, P s → P' (f s)) →
  does P P' (modify f).
Proof.
  intros Hf HP s0 s Hgood HG Hs. destruct (Hf s) as [Hm Hin].
  destruct (good_step s (f s)) as [Hg2 HG2]; [done..|]. unfold modify. cbn [wp].
  split_and!; [done|by etrans|by apply HP].
Qed.

Lemma does_skip (P P' : St → Prop) : (∀ s, P s → P' s) → does P P' skip.
Proof. intros HP s0 s Hgood HG Hs. split_and!; [done|done|by apply HP]. Qed.

Lemma given_sound n bound w ex s :
  sound n bound w ex s →
  sound n bound [] ex (lv_set_calls (S (lv_calls s)) (lv_set_trace (lv_trace s ++ [Given (concat w)]) s)) ∨
  lv_lag_terminated s = true.
Proof.
  intros [Hv Hst Hl Hc Ho Hn Hg Ha]. destruct (lv_lag_terminated s) eqn:Hterm; [by right|left].
  destruct (Ha eq_refl) as [Heq Hlen].
  assert (concat (givens (lv_trace s ++ [Given (concat w)])) = concat (givens (lv_trace s)) ++ concat w) as Hgiv.
  { rewrite givens_app, concat_app. cbn. by rewrite app_nil_r. }
  assert (heards (lv_trace s ++ [Given (concat w)]) = heards (lv_trace s)) as Hheard.
  { rewrite heards_app. cbn. by rewrite app_nil_r. }
  split; cbn [lv_vad lv_buffer lv_config lv_ended lv_lag_terminated lv_trace lv_set_calls lv_set_trace];
    try done; rewrite ?Hgiv, ?Hheard.
  - by rewrite Hterm.
  - rewrite how_many_app, Hn. done.
  - rewrite Heq. eexists. by rewrite <- app_assoc.
  - intros _. rewrite Heq, <- app_assoc. done.
Qed.

(** What waits is given, all at once. *)
Lemma does_transcribe n bound w ex :
  does (sound n bound w ex) (sound n bound [] ex) (_transcribe_and_send (concat w)).
Proof.
  intros s0 s Hgood HG Hs. unfold _transcribe_and_send. apply get_bind.
  destruct (lv_ended s) eqn:He.
  { split_and!; [done|done|]. destruct Hs as [Hv Hst Hl Hc Ho Hn Hg Ha]. split; try done.
    intros Hterm. rewrite Ho in Hterm; done. }
  apply wp_try, get_bind. unfold _build_transcribe_params, language_field.
  destruct (sn_language _ _ _ _ _ Hs) as [l ->].
  cbn [mbind res_mbind res_bind]. cbn [lift co_bind cbind]. unfold call_engine, act.
  cbn [mbind co_bind cbind wp fst snd].
  set (s1 := lv_set_calls _ _).
  destruct (good_step s s1) as [Hg1 HG1]; [done|right; by exists (Given (concat w))|done|].
  assert (sound n bound [] ex s1) as Hs1.
  { destruct (given_sound _ _ _ _ _ Hs) as [?|Hterm]; [done|]. exfalso.
    destruct Hgood as (Hi & _). rewrite (so_ended _ _ _ _ _ _ _ _ Hi Hterm) in He. done. }
  match goal with |- wp _ _ _ ?c _ _ _ => assert (stay 0 kept c) as Hst by kept_auto end.
  destruct Hg1 as (Hi1 & Hb1 & Ha1).
  eapply wp_mono; [apply (Hst s1); [done|done|done|by etrans]|].
  intros r s2 s3 (Hi3 & Hb3 & Hk3 & HG3).
  assert (good s3) as Hg3 by (split_and!; [done|done|by apply Hk3]).
  assert (sound n bound [] ex s3) as Hs3 by (by eapply kept_sound).
  destruct r as [[]|[t|]]; [done| |done].
  apply (does_stay (sound n bound [] ex)); [by apply kept_error|apply kept_sound|done|done|done].
Qed.

Definition sounds (n bound : nat) (ex : list sample) s : Prop :=
  sound n bound (lv_speech_audio_buffer s) ex s.

Lemma kept_sounds n bound ex s s' : kept s s' → sounds n bound ex s → sounds n bound ex s'.
Proof.
  intros Hk Hs. unfold sounds.
  replace (lv_speech_audio_buffer s') with (lv_speech_audio_buffer s); [by eapply kept_sound|].
  destruct Hk as [Hh _ _]. unfold heard_of in Hh. congruence.
Qed.

Lemma sound_ended n b b' w w' ex ex' s :
  lv_ended s = true → sound n b w ex s → sound n b' w' ex' s.
Proof. intros He [Hv Hst Hl Hc Ho Hn Hg Ha]. split; try done. rewrite Ho; done. Qed.

Lemma sound_bound n b b' w ex s : b ≤ b' → sound n b w ex s → sound n b' w ex s.
Proof.
  intros Hb [Hv Hst Hl Hc Ho Hn Hg Ha]. split; try done. intros Ht. destruct (Ha Ht). split; [done|lia].
Qed.

Lemma does_kept {A} n b ex (c : co St A) : stay 0 kept c → does (sounds n b ex) (sounds n b ex) c.
Proof. intros Hc. apply does_stay; [done|]. intros s s'. apply kept_sounds. Qed.

Lemma sounds_accumulate n b audio s k :
  sounds n b audio s → sounds n b [] (lv_set_speech (lv_speech_audio_buffer s ++ [audio]) k s).
Proof.
  intros [Hv Hst Hl Hc Ho Hn Hg Ha]. split; try done. intros Ht. destruct (Ha Ht) as [Heq Hlen].
  split; [|done]. cbn [lv_trace lv_set_speech lv_speech_audio_buffer lv_buffer].
  rewrite Heq, concat_app. cbn [concat app]. by rewrite app_nil_r, <- app_assoc.
Qed.

Lemma does_chunk_no_vad n b audio :
  does (sounds n b audio) (sounds n b []) (_process_chunk_no_vad audio).
Proof.
  unfold _process_chunk_no_vad. apply does_get. intros s0 s Hgood HG Hs.
  change (lv_ended (id s)) with (lv_ended s). destruct (lv_ended s) eqn:He.
  { split_and!; [done|done|]. by apply (sound_ended n b b (lv_speech_audio_buffer s) _ audio). }
  revert s0 s Hgood HG Hs He.
  assert (∀ due, does (sounds n b audio) (sounds n b []) (
    accumulate audio;; (if (due : bool) then partial_if_due else skip);;
    s ← get id;
    let max := cf_max_utterance_duration (lv_config s) in
    if flt fzero max &&
       fle max (_samples_to_seconds (lv_config s) (samples_of (concat (lv_speech_audio_buffer s))))
    then
      (match lv_speech_audio_buffer s with
       | [] => skip
       | chunks => _transcribe_and_send (concat chunks)
       end);;
      set_speech_state [] 0
    else skip)) as Hrest; [|intros s0 s Hgood HG Hs _; by apply Hrest].
  intros due. apply (does_bind _ (sounds n b [])).
  { apply does_modify; [|intros s; apply sounds_accumulate]. intros s. by split; [left|]. }
  { done. }
  intros []. apply (does_bind _ (sounds n b [])).
  { apply does_kept. destruct due; [apply kept_partial|apply stay_ret]. }
  { destruct due; [unfold partial_if_due; out|done]. }
  intros []. apply does_get. intros s0 s Hgood HG Hs. cbv zeta.
  destruct (_ && _); [|by split_and!].
  assert (∀ P, does P (sound n b [] []) (match lv_speech_audio_buffer (id s) with
      | [] => skip | chunks => _transcribe_and_send (concat chunks) end) →
    does P (sounds n b []) ((match lv_speech_audio_buffer (id s) with
      | [] => skip | chunks => _transcribe_and_send (concat chunks) end);; set_speech_state [] 0)) as Hthen.
  { intros P Hc. apply (does_bind _ (sound n b [] [])); [done| |].
    - destruct (lv_speech_audio_buffer (id s)); out.
    - intros []. apply does_modify; [intros s'; by split; [left|]|].
      intros s' [Hv Hst Hl Hch Ho Hn Hg Ha]. by split. }
  apply (Hthen (λ s', sound n b (lv_speech_audio_buffer s) [] s')); [|done|done|done].
  change (lv_speech_audio_buffer (id s)) with (lv_speech_audio_buffer s).
  destruct (lv_speech_audio_buffer s) as [|x w]; [by apply does_skip|apply does_transcribe].
Qed.

Lemma does_kept_ok {A} n b ex (c : co St A) :
  stay 0 kept c → returns c → does_ok (sounds n b ex) (sounds n b ex) c.
Proof. intros Hc Hr. by apply does_returns, does_kept. Qed.

Lemma does_chunk n b audio : does_ok (sounds n b audio) (sounds n b []) (_process_chunk audio).
Proof.
  intros s0 s Hgood HG Hs. unfold _process_chunk. apply get_bind.
  change (lv_ended (id s)) with (lv_ended s). destruct (lv_ended s) eqn:He.
  { split_and!; [done|done|done|]. by apply (sound_ended n b b (lv_speech_audio_buffer s) _ audio). }
  assert (does_ok (sounds n b audio) (sounds n b []) (_maybe_apply_debug_chunk_sleep;;
    s ← get id;
    if sg_active (lv_streaming s) then _process_chunk_streaming audio
    else
      match lv_vad s with
      | None => _process_chunk_no_vad audio
      | Some v => _process_chunk_vad v audio
      end)) as Hrest; [|by apply Hrest].
  apply (does_ok_bind _ (sounds n b audio)).
  { apply does_kept_ok; [apply kept_sleep|]. unfold _maybe_apply_debug_chunk_sleep. out. }
  clear. intros [] s0 s Hgood HG Hs. apply get_bind.
  change (sg_active (lv_streaming (id s))) with (streams s). rewrite (sn_streams _ _ _ _ _ Hs).
  change (lv_vad (id s)) with (lv_vad s). rewrite (sn_vad _ _ _ _ _ Hs).
  apply (does_returns (sounds n b audio) (sounds n b [])); [|apply does_chunk_no_vad|done..].
  unfold _process_chunk_no_vad, accumulate, partial_if_due, set_speech_state. out.
Qed.

Lemma out_processed x : returns (_record_processed_audio (sample := sample) (model := model) x).
Proof. unfold _record_processed_audio, lag_change. out. Qed.

Lemma does_chunks n m : 1 ≤ n → does_ok (sounds n m []) (sounds n n []) (process_chunks m).
Proof.
  intros Hpos. induction m as [|m IH]; cbn [process_chunks];
    intros s0 s Hgood HG Hs; apply get_bind; destruct (lv_ended s) eqn:He.
  { split_and!; [done|done|done|]. by apply (sound_ended n 0 n (lv_speech_audio_buffer s) _ []). }
  { split; [exact HG|]. intros s' _. by split. }
  { split_and!; [done|done|done|]. by apply (sound_ended n (S m) n (lv_speech_audio_buffer s) _ []). }
  unfold buffer_chunk, act. cbn [mbind co_bind cbind wp].
  destruct Hs as [Hv Hst Hl Hc Ho Hn Hg Ha].
  destruct (get_chunk (lv_buffer s)) as [b o] eqn:Hchunk. cbn [fst snd].
  revert Hchunk. unfold get_chunk. rewrite Hc.
  destruct (Z.ltb_spec (Z.of_nat (length (ab_buffer (lv_buffer s)))) (Z.of_nat n)) as [Hlt|Hge];
    intros [= <- <-]; cbn [wp].
  - destruct (good_step s (lv_set_buffer (lv_buffer s) s)) as [Hg1 HG1]; [done|by left|done|].
    split_and!; [done|done|by etrans|]. split; try done. intros Ht. destruct (Ha Ht). split; [done|].
    change (length (ab_buffer (lv_buffer s)) < n). lia.
  - rewrite Nat2Z.id. set (audio := take n (ab_buffer (lv_buffer s))). set (s1 := lv_set_buffer _ s).
    destruct (good_step s s1) as [Hg1 HG1]; [done|by left|done|].
    assert (sounds n m audio s1) as Hs1.
    { split; try done. intros Ht. destruct (Ha Ht) as [Heq Hlen]. split.
      - change (concat (heards (lv_trace s)) = concat (givens (lv_trace s)) ++
          concat (lv_speech_audio_buffer s) ++ audio ++ drop n (ab_buffer (lv_buffer s))).
        rewrite Heq. unfold audio. by rewrite take_drop.
      - change (length (drop n (ab_buffer (lv_buffer s))) < m). rewrite length_drop. lia. }
    assert (does_ok (sounds n m audio) (sounds n n []) (_process_chunk audio;;
      c ← get lv_config; _record_processed_audio (_samples_to_seconds c (samples_of audio));;
      _evaluate_lag_budget 0;; process_chunks m)) as Hrest; [|apply Hrest; [done|by etrans|done]].
    apply (does_ok_bind _ (sounds n m [])); [apply does_chunk|]. intros [].
    apply (does_ok_bind _ (sounds n m [])); [by apply does_kept_ok; [apply stay_get|]|]. intros c.
    apply (does_ok_bind _ (sounds n m [])); [by apply does_kept_ok; [apply kept_processed|apply out_processed]|].
    intros []. apply (does_ok_bind _ (sounds n m [])); [|by intros []].
    apply does_kept_ok; [apply kept_evaluate|apply out_evaluate].
Qed.

(** What is left of the audio when the session has ended. *)
Record closed (n : nat) s : Prop := {
  cl_streams : streams s = false;
  cl_given : concat (givens (lv_trace s)) `prefix_of` concat (heards (lv_trace s));
  cl_all : lv_lag_terminated s = false → ∃ rest,
    concat (heards (lv_trace s)) = concat (givens (lv_trace s)) ++ rest ∧ length rest < n;
}.

Lemma kept_closed n s s' : kept s s' → closed n s → closed n s'.
Proof.
  intros [Hh (Hm & Ht & Hw) _] [Hst Hg Ha]. unfold heard_of in Hh. injection Hh as _ _ _ _ Hst' Hg' Hh' _.
  split; rewrite ?Hst', ?Hg', ?Hh'; [done|done|]. intros Hterm. apply Ha.
  destruct (lv_lag_terminated s); [|done]. by rewrite Ht in Hterm.
Qed.

Lemma sound_closed n s : sound n n [] [] s → closed n s.
Proof. intros [Hv Hst Hl Hc Ho Hn Hg Ha]. split; [done|done|]. intros Ht. destruct (Ha Ht). eauto. Qed.

Lemma sound_terminated n b w ex s : sound n b w ex s → lv_ended s = true → closed n s.
Proof. intros [Hv Hst Hl Hc Ho Hn Hg Ha] He. split; [done|done|]. by rewrite Ho. Qed.

Definition over (n : nat) s : Prop := lv_ended s = true ∧ closed n s.

Lemma kept_over n s s' : kept s s' → over n s → over n s'.
Proof. intros Hk [He Hc]. split; [by apply (ke_ended _ _ Hk)|by eapply kept_closed]. Qed.

Lemma set_ended_good s : good s → good (lv_set_ended s) ∧ G 0 s (lv_set_ended s).
Proof.
  intros (Hi & Hb & Ha). pose proof Hi as [Hb0 He Hl Haf Ht Hs Hj Hn0 Hm0].
  assert (inv (lv_set_ended s)) as Hi' by (by split).
  split; [by split_and!|]. split; [by split|by intros|done].
Qed.

Lemma does_end_message n m :
  is_end m = true → is_lag_error m = false → is_terminated m = false → after_termination m = false →
  does_ok (sound n n [] []) (over n) (_send m;; modify lv_set_ended).
Proof.
  intros He Hl Ht Hafter s0 s Hgood HG Hs. unfold _send. apply wp_bind, get_bind.
  assert (∀ s0 s, good s → G 0 s0 s → sound n n [] [] s ∨ closed n s →
    wp (R 0) (G 0) (cancelled 0) (modify lv_set_ended)
      (λ r s0 s, is_ok r = true ∧ good s ∧ G 0 s0 s ∧ over n s) s0 s) as Hset.
  { clear. intros s0 s Hgood HG Hs. destruct (set_ended_good s Hgood) as [Hg2 HG2]. unfold modify. cbn [wp].
    split_and!; [done|done|by etrans|]. split; [done|].
    assert (closed n s) as [Hc0 Hc1 Hc2] by (by destruct Hs as [Hs|?]; [apply sound_closed|]).
    by split. }
  rewrite Hafter, andb_true_r. destruct (lv_lag_terminated s) eqn:Hterm; [by apply Hset; [..|left]|].
  assert (plain_event (lv_lag_terminated s) (how_many is_end (lv_trace s)) (Sent m)) as Hp.
  { split_and!; [done|done|by rewrite Hterm|]. intros _. apply Hs. }
  destruct Hgood as (Hi & Hb & Hall).
  assert (G 0 s (emit (Sent m) s)) as HG' by (by apply G_emit).
  assert (closed n (emit (Sent m) s)) as Hc.
  { apply sound_closed in Hs as [Hst Hg Ha].
    split; rewrite ?emit_trace, ?givens_app, ?heards_app, ?app_nil_r; done. }
  unfold modify at 1, switch, await. cbn [mbind co_bind cbind wp].
  split; [by etrans|]. intros s' HR. pose proof (R_base _ _ _ HR) as Hbase. split; [|done]. intros _ _. cbn [wp].
  apply Hset; [|done|right; eapply kept_closed; [by apply kept_R|done]].
  split_and!; [by apply Hbase, inv_emit|apply (base_begun _ _ Hbase), (base_begun s), Hb; apply HG'|by apply Hbase].
Qed.

Lemma does_session_end n : does_ok (sounds n n []) (over n) _send_session_end.
Proof.
  intros s0 s Hgood HG Hs. unfold _send_session_end. apply get_bind.
  change (lv_vad (id s)) with (lv_vad s). rewrite (sn_vad _ _ _ _ _ Hs).
  change (lv_speech_audio_buffer (id s)) with (lv_speech_audio_buffer s).
  assert (∀ c : co St (), does_ok (sound n n (lv_speech_audio_buffer s) []) (sound n n [] []) c →
    does_ok (sound n n (lv_speech_audio_buffer s) []) (over n) (c;;
      segments ← get (λ s, map (λ x, {| si_start := sm_start x; si_end := sm_end x;
        si_text := sm_text x |}) (get_segments (lv_assembler s)));
      uris ← finalize_storage;
      _cleanup_storage;;
      s ← get id;
      _send (SessionEnd (cf_session_id (lv_config s)) (get_total_duration (lv_buffer s))
        (as_current_time (lv_assembler s)) (get_full_transcript (lv_assembler s)) segments
        uris.1 uris.2);;
      modify lv_set_ended)) as Hrest; [|apply Hrest; [|done|done|done]].
  - clear. intros c Hc.
    assert (∀ A (c : co St A), stay 0 kept c → returns c → does_ok (sound n n [] []) (sound n n [] []) c) as Hkept.
    { intros A c' Hc' Hr. apply does_returns; [done|]. apply does_stay; [done|]. intros s1 s2. apply kept_sound. }
    apply (does_ok_bind _ (sound n n [] [])); [done|]. intros [].
    apply (does_ok_bind _ (sound n n [] [])); [apply Hkept; [apply stay_get|done]|]. intros segments.
    apply (does_ok_bind _ (sound n n [] [])); [apply Hkept; [apply kept_finalize|apply out_finalize]|]. intros uris.
    apply (does_ok_bind _ (sound n n [] [])); [apply Hkept; [apply kept_cleanup|apply out_cleanup]|]. intros [].
    apply (does_ok_bind _ (sound n n [] [])); [apply Hkept; [apply stay_get|done]|]. intros s'.
    by apply does_end_message.
  - destruct (lv_speech_audio_buffer s) as [|x w].
    + intros s1 s2 Hg2 HG2 Hs2. by split_and!.
    + apply (does_ok_bind _ (sound n n [] [])).
      { apply does_returns; [apply out_transcribe|apply does_transcribe]. }
      intros []. apply does_returns; [done|]. apply does_modify; [intros s'; by split; [left|]|].
      intros s' [Hv Hst Hl Hc Ho Hn Hg Ha]. by split.
Qed.

(** A message that is audio, asks for the end, or is not understood. *)
Definition audio_only (m : Incoming) : bool :=
  match m with
  | Text d =>
      match parse_client_message d with
      | Ok (ConfigUpdateMessage _ _ _ _) | Ok FlushMessage | Ok ClearMessage => false
      | _ => true
      end
  | _ => true
  end.

Section audio_only.
Context (n : nat) (n_pos : 1 ≤ n) (only : ∀ m, client m = true → audio_only m = true).

Lemma sounds_heard data s b' :
  sounds n n [] s → add_audio data (lv_buffer s) = Ok b' →
  sounds n (S (length (ab_buffer b'))) []
    (emit (Heard (drop (length (ab_buffer (lv_buffer s))) (ab_buffer b'))) (lv_set_buffer b' s)).
Proof.
  intros [Hv Hst Hl Hc Ho Hn Hg Ha]. unfold add_audio.
  destruct (_decode_audio (lv_buffer s) data) as [samples|]; [|done]. cbn [mbind res_mbind res_bind].
  set (more := _resample_if_needed _ _). intros [= <-]. cbn [ab_buffer set_buffer].
  rewrite drop_app_length. unfold sounds.
  assert (concat (heards (lv_trace s ++ [Heard more])) = concat (heards (lv_trace s)) ++ more) as Hh.
  { rewrite heards_app, concat_app. cbn. by rewrite app_nil_r. }
  split; cbn [lv_vad lv_buffer lv_config lv_ended lv_lag_terminated lv_trace lv_set_buffer emit
    lv_set_trace lv_speech_audio_buffer]; try done.
  - by rewrite how_many_app, Hn.
  - rewrite Hh, givens_app, app_nil_r. by apply prefix_app_r.
  - intros Ht. destruct (Ha Ht) as [Heq _]. rewrite Hh, givens_app, app_nil_r, Heq. cbn [ab_buffer set_buffer].
    split; [by rewrite <- !app_assoc|lia].
Qed.

Lemma does_audio data : does (sounds n n []) (sounds n n []) (_handle_audio data).
Proof.
  unfold _handle_audio. apply does_get. intros s0 s Hgood HG Hs.
  destruct (lv_ended s); [by split_and!|]. revert s0 s Hgood HG Hs.
  assert (does (sounds n n []) (sounds n n []) (record_raw_audio data;; buffer_add data;;
    _record_received_audio (Z.of_nat (length data));; _evaluate_lag_budget 0;;
    m ← get (λ s, length (ab_buffer (lv_buffer s))); process_chunks (S m))) as Hrest; [|apply Hrest].
  apply (does_seq _ (sounds n n [])).
  { apply does_kept_ok; [apply kept_record_raw|]. unfold record_raw_audio, recording_change. out. }
  intros []. intros s0 s Hgood HG Hs. apply wp_bind. unfold buffer_add. apply get_bind, wp_bind.
  destruct (add_audio data (lv_buffer s)) as [b'|e] eqn:Hadd; cbn [py wp raise]; [|by split_and!].
  unfold modify. cbn [wp]. set (s1 := emit _ _).
  destruct (good_step s s1) as [Hg1 HG1]; [done|right; by eexists (Heard _)|done|].
  assert (sounds n (S (length (ab_buffer (lv_buffer s1)))) [] s1) as Hs1 by (by apply (sounds_heard data)).
  set (b := S (length (ab_buffer (lv_buffer s1)))) in *.
  assert (does (sounds n b []) (sounds n n []) (_record_received_audio (Z.of_nat (length data));;
    _evaluate_lag_budget 0;;
    m ← get (λ s, length (ab_buffer (lv_buffer s))); process_chunks (S m))) as Hrest;
    [|apply Hrest; [done|by etrans|done]].
  apply (does_seq _ (sounds n b [])).
  { apply does_kept_ok; [apply kept_received|]. unfold _record_received_audio, lag_change. out. }
  intros []. apply (does_seq _ (sounds n b [])).
  { apply does_kept_ok; [apply kept_evaluate|apply out_evaluate]. }
  intros []. apply does_get. intros s2 s3 Hg3 HG3 Hs3.
  apply (does_any (sounds n (S (length (ab_buffer (lv_buffer s3)))) [])); [by apply does_chunks|done|done|].
  destruct Hs3 as [Hv Hst Hl Hc Ho Hn Hg Ha]. split; try done. intros Ht. destruct (Ha Ht). split; [done|lia].
Qed.

Definition handled s : Prop := sounds n n [] s ∨ over n s.

Lemma kept_handled s s' : kept s s' → handled s → handled s'.
Proof. intros Hk [Hs|Hs]; [left; by eapply kept_sounds|right; by eapply kept_over]. Qed.

Lemma does_control d :
  audio_only (Text d) = true → does (sounds n n []) handled (_handle_control d).
Proof.
  intros Hd. unfold _handle_control. apply does_get. intros s0 s Hgood HG Hs.
  destruct (lv_ended s); [split_and!; [done|done|by left]|].
  assert (does handled handled (_evaluate_lag_budget 0)) as Heval.
  { apply does_stay; [apply kept_evaluate|apply kept_handled]. }
  cbn [audio_only] in Hd. destruct (parse_client_message d) as [[| | |]|text]; try done.
  - assert (does (sounds n n []) handled (_end;; _evaluate_lag_budget 0)) as Hrest; [|by apply Hrest].
    apply (does_seq _ handled); [|intros []; apply Heval].
    clear s0 s Hgood HG Hs. intros s0 s Hgood HG Hs. unfold _end. apply get_bind.
    change (sg_active (lv_streaming (id s))) with (streams s). rewrite (sn_streams _ _ _ _ _ Hs).
    apply wp_bind. eapply wp_mono; [by apply does_session_end|].
    intros [[]|e] s1 s2 (Hok & Hg2 & HG2 & He2 & Hc2); [|done]. unfold modify. cbn [wp].
    destruct (set_ended_good s2 Hg2) as [Hg3 HG3].
    split_and!; [done|done|by etrans|]. right. split; [done|]. destruct Hc2. by split.
  - apply (does_stay handled); [by apply kept_error|apply kept_handled|done|done|by left].
Qed.

Lemma next_ok P s0 s :
  good s → G 0 s0 s → P s → (∀ s s', kept s s' → P s → P s') →
  wp (R 0) (G 0) (cancelled 0) next_incoming
    (λ r s0 s, ∃ m, r = Ok m ∧ audio_only m = true ∧ good s ∧ G 0 s0 s ∧ P s) s0 s.
Proof.
  intros Hgood HG Hs HP. unfold next_incoming, await, act. cbn [mbind co_bind cbind wp].
  split; [done|]. intros s1 HR. split; [|done]. intros _ _. cbn [wp].
  pose proof (R_base _ _ _ HR) as Hbase. destruct Hgood as (Hi & Hb & Ha).
  assert (allowed s1) as Ha1 by (by apply Hbase).
  destruct (next_step s1) as [HG1 Hm1]. pose proof (G_base _ _ _ HG1) as Hbase1.
  eexists. split; [done|]. split.
  { unfold allowed in Ha1. destruct (lv_inbox s1); [done|]. inversion Ha1. by apply only. }
  split_and!; [|done|].
  - split_and!; [by apply Hbase1, Hbase|by eapply base_begun, base_begun|by apply Hbase1].
  - eapply HP; [by apply kept_base|]. eapply HP; [by apply kept_R|done].
Qed.

Lemma does_messages k : does (sounds n n []) handled (messages k).
Proof.
  induction k as [|k IH]; cbn [messages].
  { intros s0 s Hgood HG Hs. apply (does_stay handled); [apply stay_await; [apply _|eauto]|apply kept_handled|done|done|].
    by left. }
  intros s0 s Hgood HG Hs. apply wp_bind.
  eapply wp_mono; [apply (next_ok (sounds n n [])); [done|done|done|intros s1 s2; apply kept_sounds]|].
  intros r s1 s2 (m & -> & Hm & Hg2 & HG2 & Hs2).
  assert (does handled handled (s ← get id;
    if lv_ended s || lv_close_requested s then skip else messages k)) as Hnext.
  { apply does_get. intros s3 s4 Hg4 HG4 Hs4.
    change (lv_ended (id s4)) with (lv_ended s4). change (lv_close_requested (id s4)) with (lv_close_requested s4).
    destruct (lv_ended s4 || lv_close_requested s4) eqn:He; [by split_and!|].
    destruct Hs4 as [Hs4|[He4 _]]; [by apply IH|]. by rewrite He4 in He. }
  destruct m as [data|data|[text|]]; cbv zeta.
  - apply wp_bind. eapply wp_mono; [by apply does_audio|].
    intros [[]|e] s3 s4 (Hg4 & HG4 & Hs4); [apply Hnext; [done|done|by left]|]. by split_and!; [..|left].
  - apply wp_bind. eapply wp_mono; [by apply does_control|].
    intros [[]|e] s3 s4 (Hg4 & HG4 & Hs4); [by apply Hnext|]. by split_and!.
  - by split_and!; [..|left].
  - by split_and!; [..|left].
Qed.

Lemma sound_account b w ex s : sound n b w ex s → account s.
Proof. intros [Hv Hst Hl Hc Ho Hn Hg Ha]. split; [lia|done|]. intros He. left. auto. Qed.

Lemma does_finish s0 s :
  good s → G 0 s0 s → handled s →
  wp (R 0) (G 0) (cancelled 0) finish
    (λ r s0 s, good s ∧ G 0 s0 s ∧ (is_ok r = true → closed n s)) s0 s.
Proof.
  intros Hgood HG Hs. unfold finish. apply get_bind. change (sg_active (lv_streaming (id s))) with (streams s).
  assert (streams s = false) as -> by (by destruct Hs as [[]|[_ []]]).
  apply wp_bind. cbn [skip mret co_ret wp].
  assert (stay 0 kept _stop_lag_monitor) as Hstop.
  { unfold _stop_lag_monitor, await_monitor. kept_auto. }
  apply wp_bind.
  eapply wp_mono; [apply (does_stay handled); [exact Hstop|apply kept_handled|done|done|done]|].
  intros [[]|e] s1 s2 (Hg2 & HG2 & Hs2); [|by split_and!].
  apply get_bind, wp_bind.
  apply (wp_mono _ _ _ _ (λ r s0 s, good s ∧ G 0 s0 s ∧ over n s)).
  - destruct (lv_ended s2) eqn:He.
    + split_and!; [done|done|]. destruct Hs2 as [Hs2|?]; [|done]. split; [done|].
      by eapply sound_terminated.
    + destruct Hs2 as [Hs2|[? _]]; [|congruence]. apply wp_try.
      eapply wp_mono; [by apply does_session_end|]. by intros [a|e] s3 s4 (Hok & ? & ? & ?).
  - intros [[]|e] s3 s4 (Hg4 & HG4 & Hs4); [|by split_and!]. apply get_bind.
    eapply wp_mono; [apply (does_stay (over n)); [|apply kept_over|done|done|done]|].
    + destruct (rc_storage _); [apply kept_cleanup|apply stay_ret].
    + intros r s5 s6 (Hg6 & HG6 & [_ Hc6]). by split_and!.
Qed.

Definition final_audio (r : res task_exn ()) s : Prop := is_ok r = true → closed n s.

Lemma does_loop k s0 s :
  good s → G 0 s0 s → sounds n n [] s →
  wp (R 0) (G 0) (cancelled 0) (main_loop k) (ends_in (G 0) final_audio) s0 s.
Proof.
  intros Hgood HG Hs. unfold main_loop. apply wp_bind, wp_finally, wp_try.
  eapply wp_mono; [by apply does_messages|].
  intros r s1 s2 (Hg2 & HG2 & Hs2).
  assert (∀ (r : res task_exn ()) s0 s, good s → G 0 s0 s → handled s →
    wp (R 0) (G 0) (cancelled 0) finish (λ r' s0 s,
      match r' with
      | Ok _ => match r with
        | Ok _ => wp (R 0) (G 0) (cancelled 0)
            (modify (λ s, emit (Reported (session_status s)) s)) (ends_in (G 0) final_audio) s0 s
        | Raise e => ends_in (G 0) final_audio (Raise e) s0 s
        end
      | Raise e => ends_in (G 0) final_audio (Raise e) s0 s
      end) s0 s) as Hfin.
  { clear -n_pos only. intros r s0 s Hgood HG Hs. eapply wp_mono; [by apply does_finish|].
    intros [[]|e] s1 s2 (Hg2 & HG2 & Hc2); [|by split].
    destruct r as [[]|e]; [|by split]. unfold modify. cbn [wp].
    destruct (good_step s2 (emit (Reported (session_status s2)) s2)) as [Hg3 HG3];
      [done|right; by eexists (Reported _)|done|].
    split; [by etrans|]. intros _. destruct (Hc2 eq_refl) as [Hst Hg Ha].
    split; rewrite ?emit_trace, ?givens_app, ?heards_app, ?app_nil_r; done. }
  destruct r as [[]|[t|]]; [by apply (Hfin (Ok ()))| |by apply (Hfin (Raise Cancelled))].
  eapply wp_mono; [apply (does_stay handled); [apply kept_failed|apply kept_handled|done|done|done]|].
  intros [[]|e] s3 s4 (Hg4 & HG4 & Hs4); [by apply (Hfin (Ok ()))|by apply (Hfin (Raise e))].
Qed.

(** A session that has heard nothing. *)
Definition blank s : Prop := fresh s ∧ allowed s ∧ sounds n n [] s.

Lemma blank_R s s' : blank s → R 0 s s' → blank s'.
Proof.
  intros (Hf & Ha & Hs) HR. split_and!; [by eapply fresh_R|by apply (R_base _ _ _ HR)|].
  eapply kept_sounds; [by apply kept_R|done].
Qed.

Lemma main_audio_ok k s :
  blank s → wp (R 0) (G 0) (cancelled 0) (main_task k) (ends_in (G 0) final_audio) s s.
Proof.
  intros (Hf & Hall & Hs). unfold main_task, _send_session_begin. apply wp_bind.
  apply get_bind. unfold _send. apply get_bind.
  assert (lv_lag_terminated s = false) as Hterm.
  { destruct (lv_lag_terminated s) eqn:Ht; [|done].
    pose proof (so_lag_error _ _ _ _ _ _ _ _ (fr_inv _ Hf)) as Hl. by rewrite (fr_trace _ Hf), Ht in Hl. }
  rewrite Hterm. set (m := SessionBegin _ _). cbn [andb mbind co_bind cbind wp].
  destruct (begin_ok s s m Hf) as [(Hi1 & Hb1 & _) HG]; [done|done|].
  split; [done|]. intros s1 HR1. pose proof (R_base _ _ _ HR1) as Hbase1.
  split; [|done]. intros _ _. cbn [wp].
  assert (good s1) as Hg1 by (split_and!; [by apply Hbase1|by eapply base_begun|by apply Hbase1]).
  assert (sounds n n [] s1) as Hs1.
  { eapply kept_sounds; [by apply kept_R|]. eapply kept_sounds; [|done]. split; [|by split_and!; auto|done].
    unfold heard_of, streams. rewrite emit_trace, givens_app, heards_app, how_many_app, !app_nil_r.
    by rewrite Nat.add_0_r. }
  apply wp_bind. eapply wp_mono.
  { apply (does_kept_ok n n []); [apply kept_init_storage|apply out_init_storage|done|done|done]. }
  intros [[]|e] s2 s3 (Hok3 & Hg3 & HG3 & Hs3); [|done].
  set (s4 := lv_set_monitor created_task s3).
  destruct Hg3 as (Hi3 & Hb3 & Ha3).
  assert (at_ease s4 ∧ G 0 s2 s4) as [(Hi4 & Hb4 & _) HG4].
  { apply (created_ok s2 s3); try done. split_and!; [done|done|by eapply sound_account]. }
  assert (sounds n n [] s4) as Hs4 by (by eapply kept_sounds; [|done]; split; [|split_and!; auto|]).
  change (wp (R 0) (G 0) (cancelled 0)
    (s ← get id; (if sg_active (lv_streaming s) then
       streaming_change (set_sg_queue (Some []));; modify (λ s, lv_set_decoder created_task s)
     else skip);; main_loop k) (ends_in (G 0) final_audio) s2 s4).
  apply get_bind. change (sg_active (lv_streaming (id s4))) with (streams s4).
  rewrite (sn_streams _ _ _ _ _ Hs4). by apply does_loop.
Qed.

Definition final_of (i : nat) (r : res task_exn ()) s : Prop :=
  match i with 0 => final_audio r s | _ => True end.

Lemma audio_reach k s l r :
  blank s → loop_reach (start k s) l → l_tasks l !! 0 = Some (Ret r) → final_audio r (l_state l).
Proof.
  intros Hb Hl Hr.
  apply (reach_returned R G final_of R_trans R_refl G_R world_R) with (l := start k s) (i := 0); [| |done|done].
  - intros [|i] r' s1 s2; [|done]. intros H1' HR Hok. eapply kept_closed; [by apply kept_R|auto].
  - intros i c. unfold start. cbn [l_tasks l_state].
    destruct i as [|[|[|i]]]; cbn; [| | |done]; intros [= <-].
    + intros s' HR. split; [|done]. intros _ _. apply main_audio_ok. by eapply blank_R.
    + apply monitor_ok, Hb.
    + apply decoder_ok, Hb.
Qed.
End audio_only.

(** ** The promises *)

Lemma sents_split tr ms1 m ms2 :
  sents tr = ms1 ++ m :: ms2 → ∃ l1 l2, tr = l1 ++ Sent m :: l2 ∧ sents l2 = ms2.
Proof.
  revert ms1. induction tr as [|e tr IH]; intros ms1 Heq; [by destruct ms1|].
  assert (sents (e :: tr) = sents tr ∨ ∃ m', e = Sent m' ∧ sents (e :: tr) = m' :: sents tr) as Hcase.
  { destruct e as [m'| | | | |]; [right; by exists m'|by left..]. }
  destruct Hcase as [Hsame|(m' & -> & Hm')].
  - rewrite Hsame in Heq. destruct (IH _ Heq) as (l1 & l2 & -> & <-). by exists (e :: l1), l2.
  - rewrite Hm' in Heq. destruct ms1 as [|m1 ms1].
    + injection Heq as -> <-. by exists [], tr.
    + injection Heq as -> Heq. destruct (IH _ Heq) as (l1 & l2 & -> & <-). by exists (Sent m1 :: l1), l2.
Qed.


(** C20: A session is terminated for its lag only when it has lagged: between two evaluations at
    least the grace period apart, the second of which terminates it, every evaluation, of the
    main task or of the monitor, found a lag of at least the hard limit. *)
Theorem session_lag k c m native streaming clock s l :
  new_session c m native streaming clock = Ok s → loop_reach (start k s) l →
  0 < how_many is_lag_error (lv_trace (l_state l)) →
  justified (cf_lag_hard_seconds c) (cf_lag_hard_grace_seconds c) (lv_trace (l_state l)).
Proof.
  intros Hnew Hl Hpos. destruct (new_session_fresh _ _ _ _ _ _ Hnew) as [Hf Hlim].
  destruct (session_reach k s l Hf Hl) as ([Hb He Hle Ha Ht Hs Hj Hn Hm] & Hlim' & _).
  rewrite Hlim', Hlim in Hj. apply Hj. rewrite Hle in Hpos.
  by destruct (lv_lag_terminated (l_state l)); [|apply Nat.lt_irrefl in Hpos].
Qed.

Lemma new_session_blank c m native clock s :
  new_session c m native false clock = Ok s → cf_enable_vad c = false →
  (∃ lang, cf_language c = JStr lang) → (0 < ab_chunk_samples (lv_buffer s))%Z →
  blank (Z.to_nat (ab_chunk_samples (lv_buffer s))) s.
Proof.
  intros Hnew Hvad Hlang Hpos. destruct (new_session_fresh _ _ _ _ _ _ Hnew) as [Hf _].
  revert Hnew. unfold new_session, new_audio_buffer. rewrite Hvad.
  destruct (negb _); [done|]. cbn [mbind res_mbind res_bind].
  destruct (f_int _) as [n|]; [|done]. cbn [mbind res_mbind res_bind]. intros [= <-].
  split_and!; [done|constructor|]. cbn [lv_buffer ab_chunk_samples] in *.
  split; try done.
  - cbn [lv_buffer ab_chunk_samples]. by rewrite Z2Nat.id by lia.
  - intros _. cbn [lv_buffer ab_buffer length]. split; [done|lia].
Qed.

End spec.

(** ** Sessions that run *)

Module RtDemo.
#[local] Instance demo_detector : Silero () () := {|
  silence_sample := (); silero_window _ m _ := (fzero, m); silero_reset m := m |}.

Fixpoint int16s (l : bytes) : list () :=
  match l with _ :: _ :: l => () :: int16s l | _ => [] end.

(** An engine that always hears the same, and a resampler that keeps the duration. *)
#[local] Instance demo_engine : SessionEngine () := {|
  np_int16 b := Ok (int16s b); np_float32 b := Raise ValueError; ulaw2lin b := b; alaw2lin b := b;
  soxr_resample l a b _ := repeat () (Z.to_nat (Z.of_nat (length l) * b / a));
  transcribe_fn _ _ _ :=
    Ok {| ut_text := "words"; ut_segments := []; ut_language_confidence := None |};
  exn_text _ := "error"; validation_text _ := "invalid"; value_text _ := "value" |}.

#[local] Instance demo_storage : SessionStorage := {|
  storage := (); new_storage _ _ := (); storage_start _ _ s := (s, Ok ());
  append_audio _ s := (s, Ok ()); save_transcript _ s := (s, Ok ());
  finalize s := (s, Ok (None, None)); abort s := (s, Ok ()) |}.

(** The defaults of [_parse_connection_params], but for the detector, the storage and the hard
    limit of the lag with its grace period. *)
Definition demo_config (client_rate rate : Z) (vad : bool) (hard grace : Z) : SessionConfig := {|
  cf_session_id := "sess_1"; cf_language := JStr "auto"; cf_model := None;
  cf_encoding := "pcm_s16le"; cf_client_sample_rate := Some client_rate; cf_sample_rate := rate;
  cf_resample_quality := "balanced"; cf_channels := 1; cf_enable_vad := vad;
  cf_interim_results := true; cf_word_timestamps := false; cf_vocabulary := None;
  cf_max_utterance_duration := float_of_Z 30; cf_vad_threshold := JFloat (float_lit 1 2);
  cf_min_speech_duration_ms := 250; cf_min_silence_duration_ms := JInt 400;
  cf_prefix_padding_ms := JInt 300; cf_store_audio := false; cf_store_transcript := false;
  cf_lag_warning_seconds := float_of_Z 3; cf_lag_hard_seconds := float_of_Z hard;
  cf_lag_hard_grace_seconds := float_of_Z grace; cf_debug_chunk_sleep_initial_seconds := fzero;
  cf_debug_chunk_sleep_increment_seconds := fzero |}.

Definition demo_client (m : Incoming) : bool := audio_only m.
#[local] Instance demo_loop : EventLoop (Live (sample := ()) (model := ())) := session_loop demo_client.

Abbreviation demo_state := (Live (sample := ()) (model := ())).
Abbreviation demo_choice := (choice (S := demo_state)).

(** The main task goes on [n] times; a message comes at the time [t]. *)
Definition main (n : nat) : list demo_choice := repeat (Resume 0) n.
Definition comes (t : pyfloat) (m : Incoming) : list demo_choice :=
  [Outside (Tick t : move demo_state); Outside (Arrive m : move demo_state)].

Definition run (c : SessionConfig) (n : nat) (xs : list demo_choice) : option Loop :=
  match new_session c () false false fzero with
  | Ok s => Some (follow (start n s) xs)
  | Raise _ => None
  end.

Definition silence (bytes : nat) : Incoming := Binary (repeat Byte.x00 bytes).
Definition bye : Incoming := Text (Ok (JObj [("type", JStr "end")])).

(** Half a second at a time from a client of the OpenAI protocol, at 24 kHz, to a worker at 16 kHz
    that is done with each message before the next one comes. *)
Definition half_second (i : nat) : list demo_choice :=
  comes (fdiv (float_of_Z (Z.of_nat i)) (float_of_Z 2)) (silence 24000) ++ main 12.
Definition openai_session (i : nat) : option Loop :=
  run (demo_config 24000 16000 true 5 2) 100 (main 6 ++ concat (map half_second (seq 1 i))).

Definition caught_up (o : option (Loop (S := demo_state))) : bool :=
  match o with
  | Some l => (length (ab_buffer (lv_buffer (l_state l))) =? 0) &&
      (length (lv_inbox (l_state l)) =? 0) && negb (lv_ended (l_state l))
  | None => false
  end.
Definition lag_errors (o : option (Loop (S := demo_state))) : nat :=
  match o with Some l => how_many is_lag_error (lv_trace (l_state l)) | None => 0 end.

(** A session at 24 kHz, the rate of the OpenAI protocol, on a worker at 16 kHz that is always
    done with a message before the next one comes, with the default limits: after 23 messages of
    half a second nothing is left to do, and on the 24th the session is terminated for its lag.
    The audio received is counted at the worker's rate, as if it were longer than it is. *)
Theorem resampled_session_terminated :
  caught_up (openai_session 23) = true ∧ lag_errors (openai_session 23) = 0 ∧
  lag_errors (openai_session 24) = 1.
Proof. split_and!; vm_compute; reflexivity. Qed.

(** A chunk and a tail of a hundred samples, and then the end; the monitor of the lag, cancelled,
    has to go on once before the main task is done. *)
Definition short_session : list demo_choice :=
  main 6 ++ comes (float_lit 1 2) (silence 3400) ++ main 12 ++ comes (float_of_Z 1) bye ++
  main 20 ++ [Resume 1] ++ main 10.
Definition ended (o : option (Loop (S := demo_state))) : bool :=
  match o with
  | Some l => match l_tasks l !! 0 with Some (Ret (Ok ())) => true | _ => false end
  | None => false
  end.

Lemma ended_task l : ended (Some l) = true → l_tasks l !! 0 = Some (Ret (Ok ())).
Proof. cbn [ended]. by destruct (l_tasks l !! 0) as [[[[]|]| |]|]. Qed.

(** What holds of every run of a session holds of the run that was computed. *)
Definition holds (P : Loop (S := demo_state) → Prop) (o : option Loop) : Prop :=
  match o with Some l => P l | None => False end.

Lemma run_ended (P : Loop → Prop) c n xs :
  (∀ s l, new_session c () false false fzero = Ok s → loop_reach (start n s) l →
    l_tasks l !! 0 = Some (Ret (Ok ())) → P l) →
  ended (run c n xs) = true → holds P (run c n xs).
Proof.
  intros HP He. unfold run in *. destruct (new_session _ _ _ _ _) as [s|] eqn:E; [|done].
  apply (HP s); [done|apply follow_reach|by apply ended_task].
Qed.

Lemma run_lagged (P : Loop → Prop) c n xs :
  (∀ s l, new_session c () false false fzero = Ok s → loop_reach (start n s) l →
    0 < how_many is_lag_error (lv_trace (l_state l)) → P l) →
  0 < lag_errors (run c n xs) → holds P (run c n xs).
Proof.
  intros HP He. unfold run in *. destruct (new_session _ _ _ _ _) as [s|] eqn:E; [|by apply Nat.lt_irrefl in He].
  apply (HP s); [done|apply follow_reach|done].
Qed.


Lemma session_lag_witness :
  holds (λ l, justified (float_of_Z 1) (float_of_Z 0) (lv_trace (l_state l)))
    (run (demo_config 24000 16000 true 1 0) 60 (main 6 ++ concat (map half_second (seq 1 4)))).
Proof.
  apply run_lagged; [|apply Nat.ltb_lt; vm_compute; reflexivity]. intros s l Hs Hl Hpos.
  exact (session_lag demo_client _ _ _ _ _ _ _ _ Hs Hl Hpos).
Defined.

End RtDemo.
