(* ===== verification/Recorder.v ===== *)
(** * The recording of a realtime session

    Models [dalston/realtime_sdk/audio_recorder.py] and [S3SessionStorage] of
    [dalston/realtime_sdk/context.py], which implements the interface [SessionStorage]
    of [RtSession].

    S3 is the class [S3], its documented behaviour [S3Laws].  Any of its calls may fail.
    The theorem: whichever calls failed, a recording that has a uri is a WAV file of all
    the audio that was written since its upload was created, in order and once. *)

From Stdlib Require Import Strings.Byte Strings.String.
From S2P Require Import Prelude PyValue RtSession.

(** ** Code with a state that may raise *)

Definition io (S A : Type) : Type := S → S * res string A.

#[export] Instance io_mret {S} : MRet (io S) := λ A a s, (s, Ok a).
#[export] Instance io_mbind {S} : MBind (io S) := λ A B f m s,
  match m s with
  | (s, Ok a) => f a s
  | (s, Raise e) => (s, Raise e)
  end.

Definition ask {S A} (f : S → A) : io S A := λ s, (s, Ok (f s)).
Definition assign {S} (f : S → S) : io S () := λ s, (f s, Ok ()).
Definition fail_with {S A} (text : string) : io S A := λ s, (s, Raise text).
Definition from_res {S A} (r : res string A) : io S A := λ s, (s, r).
(** [try: m except Exception: pass] *)
Definition quietly {S} (m : io S ()) : io S () := λ s, ((m s).1, Ok ()).

Lemma io_bind_ok {S A B} (m : io S A) (f : A → io S B) s s' b :
  (m ≫= f) s = (s', Ok b) → ∃ s1 a, m s = (s1, Ok a) ∧ f a s1 = (s', Ok b).
Proof. unfold mbind, io_mbind. destruct (m s) as [s1 [a|e]]; [|done]. intros Hb. by exists s1, a. Qed.

Lemma io_ret_ok {S A} (a b : A) (s s' : S) : (mret a : io S A) s = (s', Ok b) → s' = s ∧ b = a.
Proof. by intros [= <- <-]. Qed.

(** ** WAV files, as the module [wave] writes them *)

Definition byte_of (z : Z) : Byte.byte := default Byte.x00 (Byte.of_N (Z.to_N (z mod 256))).

(** The [n] bytes of an unsigned number, the lowest first. *)
Fixpoint le (n : nat) (z : Z) : bytes :=
  match n with O => [] | S n => byte_of z :: le n (z / 256) end.

(** [struct.pack] of an unsigned integer of [n] bytes. *)
Definition pack (n : nat) (z : Z) : res string bytes :=
  if ((0 <=? z) && (z <? 2 ^ (8 * Z.of_nat n)))%Z then Ok (le n z) else Raise "argument out of range".

Definition ascii_bytes (s : string) : bytes := map byte_of_ascii (String.list_ascii_of_string s).

Definition wav_file (nchannels framerate sampwidth : Z) (data : bytes) : res string bytes :=
  let datalength := Z.of_nat (length data) in
  if (framerate <=? 0)%Z then Raise "bad frame rate"
  else
    size ← pack 4 (36 + datalength);
    format_size ← pack 4 16;
    format ← pack 2 1;
    channels ← pack 2 nchannels;
    rate ← pack 4 framerate;
    byte_rate ← pack 4 (nchannels * framerate * sampwidth);
    block ← pack 2 (nchannels * sampwidth);
    bits ← pack 2 (sampwidth * 8);
    data_size ← pack 4 datalength;
    Ok (ascii_bytes "RIFF" ++ size ++ ascii_bytes "WAVE" ++ ascii_bytes "fmt " ++ format_size ++
        format ++ channels ++ rate ++ byte_rate ++ block ++ bits ++ ascii_bytes "data" ++
        data_size ++ data).

(** ** S3 *)

(** A bucket and a key. *)
Definition address : Type := string * string.

Class S3 (s3 : Type) := {
  open_client : io s3 ();
  close_client : io s3 ();
  create_multipart_upload : address → io s3 string;
  upload_part : address → option string → Z → bytes → io s3 string;
  complete_multipart_upload : address → option string → list (Z * string) → io s3 ();
  abort_multipart_upload : address → option string → io s3 ();
  get_object : address → io s3 bytes;
  put_object : address → bytes → io s3 ();
  delete_object : address → io s3 ();
}.

(** What a session needs from its environment: the bucket of the settings, and JSON texts. *)
Class StorageEnv := {
  s3_bucket : option string;
  dumps_indented : json → bytes;
}.

(** The documentation of S3: a part that was uploaded is there under its number until it
    is uploaded again; completing an upload joins the parts that are named, in ascending
    order; nothing but [put_object], [delete_object] and the completion changes an
    object, and only the one they name. *)
Class S3Laws {s3} (api : S3 s3) := {
  object_at : address → s3 → option bytes;
  part_at : address → option string → Z → s3 → option (string * bytes);
  upload_part_ok a u n b s s' etag :
    upload_part a u n b s = (s', Ok etag) → part_at a u n s' = Some (etag, b);
  upload_part_others a u n b s n' :
    n' ≠ n → part_at a u n' (upload_part a u n b s).1 = part_at a u n' s;
  complete_ok a u ps datas s s' :
    complete_multipart_upload a u ps s = (s', Ok ()) → StronglySorted Z.lt (map fst ps) →
    Forall2 (λ p b, part_at a u p.1 s = Some (p.2, b)) ps datas →
    object_at a s' = Some (concat datas);
  get_object_ok a s s' b : get_object a s = (s', Ok b) → object_at a s = Some b;
  put_object_ok a b s s' : put_object a b s = (s', Ok ()) → object_at a s' = Some b;
  put_object_others a b s a' : a' ≠ a → object_at a' (put_object a b s).1 = object_at a' s;
  delete_object_others a s a' : a' ≠ a → object_at a' (delete_object a s).1 = object_at a' s;
  abort_keeps a u s a' : object_at a' (abort_multipart_upload a u s).1 = object_at a' s;
  close_keeps s a' : object_at a' (close_client s).1 = object_at a' s;
}.

Section recorder.
Context {s3 : Type} `{S3 s3, StorageEnv}.

(** ** The recorder of the audio *)

Record AudioRecorder := {
  ar_bucket : string;
  ar_sample_rate : Z;
  ar_channels : Z;
  ar_bits_per_sample : Z;
  ar_upload_id : option string;
  ar_parts : list (Z * string);                 (* part numbers with their ETags *)
  ar_key : string;
  ar_final_key : string;
  ar_buffer : bytes;
  ar_total_bytes : Z;
  ar_started : bool;
  ar_finalized : bool;
}.

Definition FLUSH_THRESHOLD : Z := 5 * 1024 * 1024.

Definition new_recorder (session_id bucket : string) (sample_rate : Z) : AudioRecorder := {|
  ar_bucket := bucket; ar_sample_rate := sample_rate; ar_channels := 1; ar_bits_per_sample := 16;
  ar_upload_id := None; ar_parts := []; ar_key := "sessions/" +:+ session_id +:+ "/audio.raw";
  ar_final_key := "sessions/" +:+ session_id +:+ "/audio.wav"; ar_buffer := [];
  ar_total_bytes := 0; ar_started := false; ar_finalized := false |}.

Definition ar_started_as (upload_id : string) (r : AudioRecorder) : AudioRecorder := {|
  ar_bucket := ar_bucket r; ar_sample_rate := ar_sample_rate r; ar_channels := ar_channels r;
  ar_bits_per_sample := ar_bits_per_sample r; ar_upload_id := Some upload_id; ar_parts := ar_parts r;
  ar_key := ar_key r; ar_final_key := ar_final_key r; ar_buffer := ar_buffer r;
  ar_total_bytes := ar_total_bytes r; ar_started := true; ar_finalized := ar_finalized r |}.
Definition ar_write (data : bytes) (r : AudioRecorder) : AudioRecorder := {|
  ar_bucket := ar_bucket r; ar_sample_rate := ar_sample_rate r; ar_channels := ar_channels r;
  ar_bits_per_sample := ar_bits_per_sample r; ar_upload_id := ar_upload_id r; ar_parts := ar_parts r;
  ar_key := ar_key r; ar_final_key := ar_final_key r; ar_buffer := ar_buffer r ++ data;
  ar_total_bytes := ar_total_bytes r + Z.of_nat (length data); ar_started := ar_started r;
  ar_finalized := ar_finalized r |}.
Definition ar_uploaded (part : Z * string) (r : AudioRecorder) : AudioRecorder := {|
  ar_bucket := ar_bucket r; ar_sample_rate := ar_sample_rate r; ar_channels := ar_channels r;
  ar_bits_per_sample := ar_bits_per_sample r; ar_upload_id := ar_upload_id r;
  ar_parts := ar_parts r ++ [part]; ar_key := ar_key r; ar_final_key := ar_final_key r;
  ar_buffer := []; ar_total_bytes := ar_total_bytes r; ar_started := ar_started r;
  ar_finalized := ar_finalized r |}.
Definition ar_set_finalized (r : AudioRecorder) : AudioRecorder := {|
  ar_bucket := ar_bucket r; ar_sample_rate := ar_sample_rate r; ar_channels := ar_channels r;
  ar_bits_per_sample := ar_bits_per_sample r; ar_upload_id := ar_upload_id r; ar_parts := ar_parts r;
  ar_key := ar_key r; ar_final_key := ar_final_key r; ar_buffer := ar_buffer r;
  ar_total_bytes := ar_total_bytes r; ar_started := ar_started r; ar_finalized := true |}.

(** A recorder works on S3. *)
Abbreviation recording := (io (AudioRecorder * s3)).

Definition of_recorder {A} (f : AudioRecorder → A) : recording A := ask (λ x, f x.1).
Definition update_recorder (f : AudioRecorder → AudioRecorder) : recording () :=
  assign (λ x, (f x.1, x.2)).
Definition call_s3 {A} (f : io s3 A) : recording A := λ x,
  let '(s, r) := f x.2 in ((x.1, s), r).

Definition raw_address (r : AudioRecorder) : address := (ar_bucket r, ar_key r).
Definition wav_address (r : AudioRecorder) : address := (ar_bucket r, ar_final_key r).
Definition uri (a : address) : string := "s3://" +:+ a.1 +:+ "/" +:+ a.2.

Definition recorder_start : recording () :=
  r ← of_recorder id;
  if ar_started r then mret ()
  else
    upload_id ← call_s3 (create_multipart_upload (raw_address r));
    update_recorder (ar_started_as upload_id).

Definition _flush_part : recording () :=
  r ← of_recorder id;
  match ar_buffer r with
  | [] => mret ()
  | data =>
      let part_number := (Z.of_nat (length (ar_parts r)) + 1)%Z in
      etag ← call_s3 (upload_part (raw_address r) (ar_upload_id r) part_number data);
      update_recorder (ar_uploaded (part_number, etag))
  end.

Definition recorder_write (audio_data : bytes) : recording () :=
  started ← of_recorder ar_started;
  (if (started : bool) then mret () else recorder_start);;
  finalized ← of_recorder ar_finalized;
  if (finalized : bool) then fail_with "Cannot write to finalized recorder"
  else
    update_recorder (ar_write audio_data);;
    buffered ← of_recorder (λ r, Z.of_nat (length (ar_buffer r)));
    if (FLUSH_THRESHOLD <=? buffered)%Z then _flush_part else mret ().

Definition _convert_to_wav : recording () :=
  r ← of_recorder id;
  raw_data ← call_s3 (get_object (raw_address r));
  wav ← from_res (wav_file (ar_channels r) (ar_sample_rate r) (ar_bits_per_sample r / 8) raw_data);
  call_s3 (put_object (wav_address r) wav);;
  call_s3 (delete_object (raw_address r)).

Definition _abort : recording () :=
  r ← of_recorder id;
  (match ar_upload_id r with
   | Some upload_id =>
       if String.eqb upload_id "" then mret ()
       else quietly (call_s3 (abort_multipart_upload (raw_address r) (Some upload_id)))
   | None => mret ()
   end);;
  update_recorder ar_set_finalized.

Definition recorder_finalize : recording (option string) :=
  r ← of_recorder id;
  if ar_finalized r then mret (Some (uri (wav_address r)))
  else if negb (ar_started r) then mret None
  else
    update_recorder ar_set_finalized;;
    _flush_part;;
    parts ← of_recorder ar_parts;
    match parts with
    | [] => _abort;; mret None
    | _ =>
        call_s3 (complete_multipart_upload (raw_address r) (ar_upload_id r) parts);;
        _convert_to_wav;;
        mret (Some (uri (wav_address r)))
    end.

(** ** The storage of a session *)

Record S3SessionStorage := {
  ss_store_audio : bool;
  ss_store_transcript : bool;
  ss_client : bool;                             (* [_s3_context_manager] is there *)
  ss_audio_recorder : option AudioRecorder;
  ss_transcript_recorder : option address;
  ss_pending_transcript : option json;
  ss_s3 : s3;
}.

Definition new_s3_storage (s : s3) (store_audio store_transcript : bool) : S3SessionStorage := {|
  ss_store_audio := store_audio; ss_store_transcript := store_transcript; ss_client := false;
  ss_audio_recorder := None; ss_transcript_recorder := None; ss_pending_transcript := None;
  ss_s3 := s |}.

Definition ss_set_client (b : bool) (x : S3SessionStorage) : S3SessionStorage := {|
  ss_store_audio := ss_store_audio x; ss_store_transcript := ss_store_transcript x; ss_client := b;
  ss_audio_recorder := ss_audio_recorder x; ss_transcript_recorder := ss_transcript_recorder x;
  ss_pending_transcript := ss_pending_transcript x; ss_s3 := ss_s3 x |}.
Definition ss_set_audio (o : option AudioRecorder) (s : s3) (x : S3SessionStorage)
    : S3SessionStorage := {|
  ss_store_audio := ss_store_audio x; ss_store_transcript := ss_store_transcript x;
  ss_client := ss_client x; ss_audio_recorder := o;
  ss_transcript_recorder := ss_transcript_recorder x;
  ss_pending_transcript := ss_pending_transcript x; ss_s3 := s |}.
Definition ss_set_transcript (o : option address) (pending : option json) (x : S3SessionStorage)
    : S3SessionStorage := {|
  ss_store_audio := ss_store_audio x; ss_store_transcript := ss_store_transcript x;
  ss_client := ss_client x; ss_audio_recorder := ss_audio_recorder x; ss_transcript_recorder := o;
  ss_pending_transcript := pending; ss_s3 := ss_s3 x |}.

(** Where [TranscriptRecorder] puts the transcript. *)
Definition json_of (bucket session_id : string) : address :=
  (bucket, "sessions/" +:+ session_id +:+ "/transcript.json").

Abbreviation storing := (io S3SessionStorage).

(** A call on the recorder, if there is one. *)
Definition with_recorder {A} (none : A) (f : recording A) : storing A := λ x,
  match ss_audio_recorder x with
  | None => (x, Ok none)
  | Some r => let '((r, s), a) := f (r, ss_s3 x) in (ss_set_audio (Some r) s x, a)
  end.
Definition on_client {A} (f : io s3 A) : storing A := λ x,
  let '(s, a) := f (ss_s3 x) in (ss_set_audio (ss_audio_recorder x) s x, a).

Definition s3_start (session_id : string) (config : SessionConfig) : storing () :=
  x ← ask id;
  if negb (ss_store_audio x) && negb (ss_store_transcript x) then mret ()
  else
    match s3_bucket with
    | None | Some "" => fail_with "S3_BUCKET must be configured when storage is enabled"
    | Some bucket =>
        assign (ss_set_client true);;
        on_client open_client;;
        (if ss_store_audio x then
           assign (λ x, ss_set_audio
             (Some (new_recorder session_id bucket (cf_sample_rate config))) (ss_s3 x) x);;
           with_recorder () recorder_start
         else mret ());;
        if ss_store_transcript x then
          assign (λ x, ss_set_transcript
            (Some (json_of bucket session_id))
            (ss_pending_transcript x) x)
        else mret ()
    end.

Definition s3_append_audio (chunk : bytes) : storing () := with_recorder () (recorder_write chunk).

Definition s3_save_transcript (transcript_data : json) : storing () :=
  assign (λ x, ss_set_transcript (ss_transcript_recorder x) (Some transcript_data) x).

Definition s3_abort : storing () :=
  quietly (with_recorder () _abort);;
  client ← ask ss_client;
  (if (client : bool) then quietly (on_client close_client) else mret ());;
  assign (ss_set_client false).

(** [TranscriptRecorder.save] *)
Definition transcript_save (a : address) (transcript : json) : storing string :=
  on_client (put_object a (dumps_indented transcript));;
  mret (uri a).

Definition s3_finalize : storing (option string * option string) :=
  audio_ref ← with_recorder None recorder_finalize;
  x ← ask id;
  transcript_ref ← (match ss_transcript_recorder x, ss_pending_transcript x with
    | Some a, Some transcript => ref ← transcript_save a transcript; mret (Some ref)
    | _, _ => mret None
    end);
  s3_abort;;
  mret (audio_ref, transcript_ref).

(** The implementation of the interface; [s] is S3 as the session finds it. *)
Definition s3_session_storage (s : s3) : SessionStorage := {|
  storage := S3SessionStorage;
  new_storage := new_s3_storage s;
  storage_start := s3_start;
  append_audio := s3_append_audio;
  save_transcript := s3_save_transcript;
  finalize := s3_finalize;
  abort := s3_abort;
|}.
End recorder.

(** ** What is recorded *)

Section laws.
Context {s3 : Type} {api : S3 s3} `{!S3Laws api, StorageEnv}.
Implicit Types (r : AudioRecorder) (s : s3) (x : S3SessionStorage (s3 := s3)).

(** The state passing, in the open. *)
Ltac io :=
  unfold mbind, mret, io_mbind, io_mret, of_recorder, update_recorder, call_s3, quietly, fail_with,
    from_res, ask, assign; cbn [fst snd id].

(** What a recorder keeps while it is not finalized. *)
Definition same_recording r r' : Prop :=
  (ar_bucket r', ar_sample_rate r', ar_channels r', ar_bits_per_sample r', ar_key r', ar_final_key r',
   ar_finalized r') =
  (ar_bucket r, ar_sample_rate r, ar_channels r, ar_bits_per_sample r, ar_key r, ar_final_key r,
   ar_finalized r).

#[local] Instance same_recording_preorder : PreOrder same_recording.
Proof. split; [done|]. intros a b c Hab Hbc. unfold same_recording in *. congruence. Qed.

(** The parts that were uploaded hold [b]. *)
Definition uploaded_as r s (b : bytes) : Prop :=
  ∃ datas, b = concat datas ∧ StronglySorted Z.lt (map fst (ar_parts r)) ∧
    Forall (λ p, (p.1 ≤ Z.of_nat (length (ar_parts r)))%Z) (ar_parts r) ∧
    Forall2 (λ p d, part_at (raw_address r) (ar_upload_id r) p.1 s = Some (p.2, d))
      (ar_parts r) datas.

(** All that was written is uploaded or in the buffer. *)
Definition holds_audio r s (b : bytes) : Prop :=
  ∃ up, uploaded_as r s up ∧ b = up ++ ar_buffer r.

Lemma flush_part_ok r s r' s' o b :
  _flush_part (r, s) = ((r', s'), o) → holds_audio r s b →
  same_recording r r' ∧ ar_started r' = ar_started r ∧ ar_upload_id r' = ar_upload_id r ∧
  holds_audio r' s' b ∧ (o = Ok () → uploaded_as r' s' b).
Proof.
  intros Hrun Hb. revert Hrun. unfold _flush_part. io. destruct Hb as (up & Hup & ->). destruct (ar_buffer r) as [|c l] eqn:Hl.
  { intros [= <- <- <-]. rewrite app_nil_r. split_and!; [done|done|done| |done].
    exists up. rewrite Hl, app_nil_r. done. }
  cbn [fst snd]. set (n := (Z.of_nat (length (ar_parts r)) + 1)%Z).
  destruct Hup as (datas & -> & Hsort & Hmax & Hparts).
  destruct (upload_part (raw_address r) (ar_upload_id r) n (c :: l) s) as [s1 e] eqn:Hpart.
  assert (Forall2 (λ p d, part_at (raw_address r) (ar_upload_id r) p.1 s1 = Some (p.2, d))
    (ar_parts r) datas) as Hkept.
  { rewrite Forall2_same_length_lookup in Hparts |- *. destruct Hparts as [Hlen Hparts]. split; [done|].
    intros i p d Hp Hd. change s1 with (s1, e).1. rewrite <- Hpart, upload_part_others; [by eapply Hparts|].
    rewrite Forall_lookup in Hmax. specialize (Hmax i p Hp). unfold n. lia. }
  destruct e as [etag|e]; intros [= <- <- <-].
  - assert (uploaded_as (ar_uploaded (n, etag) r) s1 (concat datas ++ c :: l)) as Hup.
    { exists (datas ++ [c :: l]). cbn [ar_uploaded ar_parts]. rewrite concat_app, map_app. cbn [concat map].
      split_and!.
      - by rewrite app_nil_r.
      - apply StronglySorted_app_2; [|done|by repeat constructor].
        rewrite Forall_forall in Hmax. intros z1 z2 Hz1 ->%list_elem_of_singleton.
        apply list_elem_of_fmap in Hz1 as (p & -> & Hp). specialize (Hmax p Hp). cbn. unfold n. lia.
      - rewrite length_app. cbn. apply Forall_app. split; [|repeat constructor; cbn; lia].
        eapply Forall_impl; [done|]. cbn. intros. lia.
      - apply Forall2_app; [done|]. constructor; [|constructor]. by apply upload_part_ok in Hpart. }
    split_and!; [done|done|done| |done]. eexists. split; [done|]. cbn. by rewrite app_nil_r.
  - split_and!; [done|done|done| |done]. exists (concat datas). split; [|by rewrite Hl].
    by exists datas.
Qed.

Lemma uploaded_as_same r r' s b :
  raw_address r' = raw_address r → ar_upload_id r' = ar_upload_id r → ar_parts r' = ar_parts r →
  uploaded_as r s b → uploaded_as r' s b.
Proof. unfold uploaded_as. by intros -> -> ->. Qed.

(** A recorder before its upload is created, and after. *)
Definition fresh r : Prop :=
  ar_started r = false ∧ ar_parts r = [] ∧ ar_buffer r = [].
Definition recording_since r s (b : bytes) : Prop :=
  ar_started r = true ∧ holds_audio r s b.

Lemma start_ok r s r' s' o :
  recorder_start (r, s) = ((r', s'), o) → fresh r →
  same_recording r r' ∧
  (o = Ok () ∧ recording_since r' s' [] ∨ o ≠ Ok () ∧ fresh r').
Proof.
  intros Hrun (Hnew & Hparts & Hbuf). revert Hrun. unfold recorder_start. io. rewrite Hnew. cbn [fst snd].
  destruct (create_multipart_upload (raw_address r) s) as [s1 [u|e]]; intros [= <- <- <-].
  - split; [done|]. left. split; [done|]. split; [done|]. exists []. split; [|by cbn; rewrite Hbuf].
    exists []. cbn. rewrite Hparts. split_and!; [done|constructor..].
  - split; [done|]. by right.
Qed.

Lemma buffer_ok r s data b :
  recording_since r s b → recording_since (ar_write data r) s (b ++ data).
Proof.
  intros [Hs (up & Hup & ->)]. split; [done|]. exists up. split; [|by cbn [ar_write ar_buffer]; rewrite app_assoc].
  by apply (uploaded_as_same r).
Qed.

Lemma flush_since r s r' s' o b :
  _flush_part (r, s) = ((r', s'), o) → recording_since r s b →
  same_recording r r' ∧ recording_since r' s' b ∧ (o = Ok () → uploaded_as r' s' b).
Proof.
  intros Hrun [Hs Hb]. destruct (flush_part_ok _ _ _ _ _ _ Hrun Hb) as (H1' & H2 & _ & H4 & H5).
  split_and!; [done| |done]. split; [by rewrite H2|done].
Qed.

Lemma write_started r s r' s' o data b :
  recorder_write data (r, s) = ((r', s'), o) → recording_since r s b → ar_finalized r = false →
  same_recording r r' ∧ recording_since r' s' (b ++ data).
Proof.
  intros Hrun Hb Hf. pose proof (buffer_ok _ _ data _ Hb) as Hb'. revert Hrun. unfold recorder_write. io.
  rewrite (proj1 Hb). cbn [fst snd]. rewrite Hf. destruct (_ <=? _)%Z.
  - intros Hrun. by destruct (flush_since _ _ _ _ _ _ Hrun Hb') as (? & ? & _).
  - by intros [= <- <- <-].
Qed.

Lemma write_fresh r s r' s' o data :
  recorder_write data (r, s) = ((r', s'), o) → fresh r → ar_finalized r = false →
  same_recording r r' ∧ (fresh r' ∨ recording_since r' s' data).
Proof.
  intros Hrun Hr Hf. revert Hrun. unfold recorder_write. unfold mbind at 1, io_mbind at 1. io.
  rewrite (proj1 Hr). destruct (recorder_start (r, s)) as [[r1 s1] o1] eqn:Hstart.
  destruct (start_ok _ _ _ _ _ Hstart Hr) as [Hsame Hcases].
  destruct Hcases as [[-> Hb]|[Ho Hfresh]].
  - intros Hrun. assert (ar_finalized r1 = false) as Hf1 by (injection Hsame; congruence).
    assert (recorder_write data (r1, s1) = ((r', s'), o)) as Hw.
    { rewrite <- Hrun. unfold recorder_write. io. by rewrite (proj1 Hb). }
    destruct (write_started _ _ _ _ _ _ _ Hw Hb Hf1) as [Hs Hd].
    split; [by etrans|by right].
  - destruct o1 as [[]|e]; [done|]. intros [= <- <- <-]. split; [done|by left].
Qed.

(** *** The end of a recording *)

Lemma convert_ok r s r' s' b :
  _convert_to_wav (r, s) = ((r', s'), Ok ()) → object_at (raw_address r) s = Some b →
  wav_address r ≠ raw_address r →
  ∃ wav, wav_file (ar_channels r) (ar_sample_rate r) (ar_bits_per_sample r / 8) b = Ok wav ∧
    object_at (wav_address r) s' = Some wav.
Proof.
  intros Hrun Hb Hne. revert Hrun. unfold _convert_to_wav. io.
  destruct (get_object (raw_address r) s) as [s1 [b'|e]] eqn:Hget; [|done]. cbn [fst snd].
  apply get_object_ok in Hget. rewrite Hb in Hget. injection Hget as <-.
  destruct (wav_file _ _ _ b) as [wav|e]; [|done]. cbn [fst snd].
  destruct (put_object (wav_address r) wav s1) as [s2 [[]|e]] eqn:Hput; [|done]. cbn [fst snd].
  destruct (delete_object (raw_address r) s2) as [s3' o] eqn:Hdel. intros [= <- <- ->].
  exists wav. split; [done|]. apply put_object_ok in Hput. rewrite <- Hput.
  change s3' with (s3', @Ok string () ()).1. rewrite <- Hdel. by apply delete_object_others.
Qed.

Lemma finalized_since r s b : recording_since r s b → recording_since (ar_set_finalized r) s b.
Proof.
  intros [Hs (up & Hup & ->)]. split; [done|]. exists up. split; [|done]. by apply (uploaded_as_same r).
Qed.

Lemma recorder_finalize_ok r s r' s' b u :
  recorder_finalize (r, s) = ((r', s'), Ok (Some u)) → recording_since r s b →
  ar_finalized r = false → wav_address r ≠ raw_address r →
  u = uri (wav_address r) ∧
  ∃ wav, wav_file (ar_channels r) (ar_sample_rate r) (ar_bits_per_sample r / 8) b = Ok wav ∧
    object_at (wav_address r) s' = Some wav.
Proof.
  intros Hrun Hb Hf Hne. revert Hrun. unfold recorder_finalize. io. rewrite Hf, (proj1 Hb). cbn [negb fst snd].
  destruct (_flush_part (ar_set_finalized r, s)) as [[r1 s1] [[]|e]] eqn:Hflush; [|done].
  destruct (flush_since _ _ _ _ _ _ Hflush (finalized_since _ _ _ Hb)) as (Hsame & Hb1 & Hup).
  destruct (Hup eq_refl) as (datas & -> & Hsort & _ & Hparts).
  assert (raw_address r1 = raw_address r ∧ ar_upload_id r1 = ar_upload_id r) as [Hraw Hid].
  { destruct (flush_part_ok _ _ _ _ _ _ Hflush (proj2 (finalized_since _ _ _ Hb))) as (_ & _ & Hid & _).
    split; [|done]. unfold raw_address. injection Hsame. cbn. by intros _ _ -> _ _ _ ->. }
  rewrite Hraw, Hid in Hparts. cbn [fst snd].
  assert (same_recording (ar_set_finalized r) r1) as Hsame' by done.
  destruct (ar_parts r1) as [|p l] eqn:Hl.
  { destruct (_abort (r1, s1)) as [x [[]|e]]; discriminate. }
  cbn [fst snd]. destruct (complete_multipart_upload (raw_address r) (ar_upload_id r) (p :: l) s1)
    as [s2 [[]|e]] eqn:Hdone; [|done].
  apply (complete_ok _ _ _ _ _ _ Hdone Hsort) in Hparts.
  cbn [fst snd]. destruct (_convert_to_wav (r1, s2)) as [[r2 s4] [[]|e]] eqn:Hconv; [|done].
  intros [= <- <- <-]. split; [done|].
  assert (wav_address r1 = wav_address r ∧ ar_channels r1 = ar_channels r ∧
    ar_sample_rate r1 = ar_sample_rate r ∧ ar_bits_per_sample r1 = ar_bits_per_sample r)
    as (Hwav & <- & <- & <-).
  { unfold wav_address. injection Hsame'. cbn. by intros _ -> _ -> -> -> ->. }
  rewrite <- Hwav. apply (convert_ok _ _ _ _ _ Hconv); rewrite ?Hraw, ?Hwav; done.
Qed.

(** *** The storage of a session *)

Definition wav_of (bucket session_id : string) : address :=
  (bucket, "sessions/" +:+ session_id +:+ "/audio.wav").

(** The recorder of the storage: before its upload is created, or with what it holds. *)
Definition recorded (session_id bucket : string) (rate : Z) (b : option bytes) x : Prop :=
  (∀ a, ss_transcript_recorder x = Some a → a = json_of bucket session_id) ∧
  ∃ r, ss_audio_recorder x = Some r ∧ same_recording (new_recorder session_id bucket rate) r ∧
    match b with Some b => recording_since r (ss_s3 x) b | None => fresh r end.

Definition appended (chunks : list bytes) x := foldl (λ x c, (s3_append_audio c x).1) x chunks.

Lemma same_fields sid bucket rate r :
  same_recording (new_recorder sid bucket rate) r →
  wav_address r = wav_of bucket sid ∧
  raw_address r = (bucket, "sessions/" +:+ sid +:+ "/audio.raw") ∧
  ar_sample_rate r = rate ∧ ar_channels r = 1%Z ∧ ar_bits_per_sample r = 16%Z ∧ ar_finalized r = false.
Proof.
  destruct r. unfold same_recording, new_recorder, wav_address, raw_address, wav_of.
  cbn -[String.append]. intros [= -> -> -> -> -> -> ->]. done.
Qed.

Lemma recorder_open sid bucket rate r :
  same_recording (new_recorder sid bucket rate) r → ar_finalized r = false.
Proof. intros Hs. by destruct (same_fields _ _ _ _ Hs) as (_ & _ & _ & _ & _ & ?). Qed.

Lemma append_recorded sid bucket rate b c x :
  recorded sid bucket rate b x →
  (∃ b', b = Some b' ∧ recorded sid bucket rate (Some (b' ++ c)) (s3_append_audio c x).1) ∨
  b = None ∧ (recorded sid bucket rate None (s3_append_audio c x).1 ∨
    recorded sid bucket rate (Some c) (s3_append_audio c x).1).
Proof.
  intros (Ht & r & Hr & Hsame & Hb). pose proof (recorder_open _ _ _ _ Hsame) as Hf.
  unfold s3_append_audio, with_recorder. rewrite Hr.
  destruct (recorder_write c (r, ss_s3 x)) as [[r' s'] o] eqn:Hw. cbn [fst].
  destruct b as [b|]; [left|right].
  - destruct (write_started _ _ _ _ _ _ _ Hw Hb Hf) as [Hs Hb'].
    exists b. split; [done|]. split; [done|]. exists r'. split_and!; [done|by etrans|done].
  - destruct (write_fresh _ _ _ _ _ _ Hw Hb Hf) as [Hs [Hb'|Hb']]; (split; [done|]); [left|right];
      (split; [done|]); exists r'; split_and!; (done || by etrans).
Qed.

Lemma appended_started sid bucket rate chunks b x :
  recorded sid bucket rate (Some b) x →
  recorded sid bucket rate (Some (b ++ concat chunks)) (appended chunks x).
Proof.
  revert b x. induction chunks as [|c l IH]; intros b x Hb; [by rewrite app_nil_r|]. cbn [concat].
  destruct (append_recorded _ _ _ _ c _ Hb) as [(b' & [= <-] & Hc)|[? _]]; [|done].
  rewrite app_assoc. by apply IH.
Qed.

Lemma appended_fresh sid bucket rate chunks x :
  recorded sid bucket rate None x →
  recorded sid bucket rate None (appended chunks x) ∨
  ∃ lost kept, chunks = lost ++ kept ∧
    recorded sid bucket rate (Some (concat kept)) (appended chunks x).
Proof.
  revert x. induction chunks as [|c l IH]; intros x Hx; [by left|].
  destruct (append_recorded _ _ _ _ c _ Hx) as [(? & ? & _)|[_ [Hc|Hc]]]; [done| |].
  - destruct (IH _ Hc) as [?|(lost & kept & -> & Hk)]; [by left|right]. by exists (c :: lost), kept.
  - right. exists [], (c :: l). split; [done|]. by apply (appended_started _ _ _ l).
Qed.

Lemma appended_none chunks x : ss_audio_recorder x = None → appended chunks x = x.
Proof.
  intros Hx. induction chunks as [|c l IH]; [done|]. cbn. unfold s3_append_audio, with_recorder.
  by rewrite Hx.
Qed.

Lemma s3_start_ok sid cfg s t x o1 :
  s3_start sid cfg (new_s3_storage s true t) = (x, o1) →
  o1 ≠ Ok () ∧ ss_audio_recorder x = None ∨
  ∃ bucket, s3_bucket = Some bucket ∧
    (recorded sid bucket (cf_sample_rate cfg) (Some []) x ∨
     o1 ≠ Ok () ∧ recorded sid bucket (cf_sample_rate cfg) None x).
Proof.
  unfold s3_start. io. cbn [new_s3_storage ss_store_audio negb andb].
  destruct s3_bucket as [bucket|] eqn:Hbucket; [|intros [= <- <-]; by left].
  destruct (decide (bucket = "")) as [->|Hne]; [intros [= <- <-]; by left|].
  destruct bucket as [|a b]; [done|]. clear Hne. set (bucket := String a b) in *.
  unfold on_client. cbn [ss_set_client new_s3_storage ss_s3 ss_audio_recorder].
  destruct (open_client s) as [s1 [[]|e]]; [|intros [= <- <-]; by left].
  unfold with_recorder. cbn [ss_set_audio ss_s3 ss_audio_recorder ss_store_transcript].
  set (r0 := new_recorder sid bucket (cf_sample_rate cfg)).
  destruct (recorder_start (r0, s1)) as [[r1 s2] o] eqn:Hstart.
  destruct (start_ok _ _ _ _ _ Hstart) as [Hsame Ho]; [done|].
  intros Hrun. right. exists bucket. split; [done|].
  destruct Ho as [[-> Hb]|[Ho Hfresh]].
  - left. revert Hrun. destruct t; intros [= <- <-]; (split; [by intros a' [= <-]|by exists r1]).
  - destruct o as [[]|e]; [done|]. revert Hrun. intros [= <- <-]. right. split; [done|]. split; [done|]. by exists r1.
Qed.

Lemma abort_ok x x' o a :
  s3_abort x = (x', o) → object_at a (ss_s3 x') = object_at a (ss_s3 x).
Proof.
  intros Hrun. assert (∀ r s, object_at a (_abort (r, s)).1.2 = object_at a s) as Hrec.
  { intros r s. unfold _abort. io. destruct (ar_upload_id r) as [u|]; [|done].
    destruct (String.eqb u ""); [done|]. cbn [fst snd].
    destruct (abort_multipart_upload (raw_address r) (Some u) s) as [s1 o1] eqn:Hab. cbn [fst snd].
    change s1 with (s1, o1).1. rewrite <- Hab. apply abort_keeps. }
  revert Hrun. unfold s3_abort. io. unfold with_recorder, on_client.
  assert (∀ y, object_at a (ss_s3 (y : S3SessionStorage (s3 := s3))) = object_at a (ss_s3 x) →
    ((let '(s, r0) := (if ss_client y
       then λ y, ((let '(s, a0) := close_client (ss_s3 y) in (ss_set_audio (ss_audio_recorder y) s y, a0)).1, Ok ())
       else λ y, (y, Ok ())) y in
      match r0 with Ok _ => (ss_set_client false s, Ok ()) | Raise e => (s, Raise e) end) = (x', o)) →
    object_at a (ss_s3 x') = object_at a (ss_s3 x)) as Hclose.
  { intros y Hy. destruct (ss_client y); [|by intros [= <- <-]].
    destruct (close_client (ss_s3 y)) as [s1 o1] eqn:Hcl. cbn. intros [= <- <-]. cbn. rewrite <- Hy.
    change s1 with (s1, o1).1. rewrite <- Hcl. apply close_keeps. }
  destruct (ss_audio_recorder x) as [r|]; [|by apply Hclose].
  specialize (Hrec r (ss_s3 x)). destruct (_abort (r, ss_s3 x)) as [[r1 s1] o1]. cbn [fst snd] in *.
  by apply Hclose.
Qed.

Lemma transcript_kept a b transcript x x' ref :
  transcript_save b transcript x = (x', Ok ref) → a ≠ b →
  object_at a (ss_s3 x') = object_at a (ss_s3 x).
Proof.
  unfold transcript_save, on_client. intros (x1 & [] & Hput & [-> _]%io_ret_ok)%io_bind_ok Hne.
  destruct (put_object b _ (ss_s3 x)) as [s o] eqn:Hs. injection Hput as <- ->. cbn.
  change s with (s, @Ok string () ()).1. rewrite <- Hs. by apply put_object_others.
Qed.

(** What the storage does once its recorder has ended. *)
Lemma storage_finalize_ok sid bucket rate b transcript x x' u ref :
  recorded sid bucket rate b x →
  (s3_save_transcript transcript;; s3_finalize) x = (x', Ok (Some u, ref)) →
  ∃ b' wav, b = Some b' ∧ u = uri (wav_of bucket sid) ∧ wav_file 1 rate 2 b' = Ok wav ∧
    object_at (wav_of bucket sid) (ss_s3 x') = Some wav.
Proof.
  intros (Ht & r & Hr & Hsame & Hb) Hrun. pose proof (recorder_open _ _ _ _ Hsame) as Hf.
  apply io_bind_ok in Hrun as (x1 & [] & [= <-] & Hrun).
  apply io_bind_ok in Hrun as (x2 & audio & Hfin & Hrun). revert Hfin. unfold with_recorder.
  cbn [ss_set_transcript ss_audio_recorder ss_s3]. rewrite Hr.
  destruct (recorder_finalize (r, ss_s3 x)) as [[r' s] o] eqn:Hrec. intros [= <- ->].
  apply io_bind_ok in Hrun as (x3 & y & [= <- <-] & Hrun).
  apply io_bind_ok in Hrun as (x4 & json & Hjson & Hrun).
  apply io_bind_ok in Hrun as (x5 & [] & Hab & [-> [= <- <-]]%io_ret_ok).
  destruct b as [b|].
  2: { revert Hrec. destruct Hb as (Hs & _). unfold recorder_finalize. io. by rewrite Hf, Hs. }
  destruct (same_fields _ _ _ _ Hsame) as (Hwav & Hraw & Hrate & Hch & Hbits & _).
  destruct (recorder_finalize_ok _ _ _ _ _ _ Hrec Hb Hf) as (-> & wav & Hw & Hobj).
  { rewrite Hwav, Hraw. intros [= Hk]. by apply string_app_inj_l, string_app_inj_l in Hk. }
  exists b, wav. rewrite Hwav in *. split_and!; [done|done| |].
  - by rewrite <- Hw, Hch, Hrate, Hbits.
  - rewrite <- Hobj, (abort_ok _ _ _ _ Hab). clear Hab. revert Hjson.
    cbn [ss_set_audio ss_set_transcript ss_transcript_recorder ss_pending_transcript].
    destruct (ss_transcript_recorder x) as [a|]; [|by intros [= <- <-]].
    rewrite (Ht a eq_refl). intros (x6 & ref' & Hsave & [-> _]%io_ret_ok)%io_bind_ok.
    apply (transcript_kept (wav_of bucket sid)) in Hsave; [done|].
    unfold wav_of, json_of. intros [= Hk]. by apply string_app_inj_l, string_app_inj_l in Hk.
Qed.

(** C21: The recording of a realtime session, whichever calls to S3 failed on the way.  When the storage
    ends with a uri for the audio, the object there is a WAV file, at the rate of the worker, of the chunks
    that were appended, in order and each once: of all of them, or, if the storage could not be
    started, of those since the upload could first be created. *)
Theorem recording_saved sid cfg t s0 x1 o1 chunks transcript x2 u ref :
  s3_start sid cfg (new_s3_storage s0 true t) = (x1, o1) →
  (s3_save_transcript transcript;; s3_finalize) (appended chunks x1) = (x2, Ok (Some u, ref)) →
  ∃ bucket lost kept wav, s3_bucket = Some bucket ∧ u = uri (wav_of bucket sid) ∧
    chunks = lost ++ kept ∧ (o1 = Ok () → lost = []) ∧
    wav_file 1 (cf_sample_rate cfg) 2 (concat kept) = Ok wav ∧
    object_at (wav_of bucket sid) (ss_s3 x2) = Some wav.
Proof.
  intros Hstart Hend.
  destruct (s3_start_ok _ _ _ _ _ _ Hstart) as [[_ Hnone]|(bucket & Hbucket & [Hb|[Ho Hb]])].
  - exfalso. rewrite appended_none in Hend by done.
    apply io_bind_ok in Hend as (x3 & [] & [= <-] & Hend).
    apply io_bind_ok in Hend as (x4 & audio & Hfin & Hend). revert Hfin. unfold with_recorder.
    cbn [ss_set_transcript ss_audio_recorder]. rewrite Hnone. intros [= <- <-].
    apply io_bind_ok in Hend as (x5 & y & _ & Hend). apply io_bind_ok in Hend as (x6 & json & _ & Hend).
    by apply io_bind_ok in Hend as (x7 & [] & _ & [_ [=]]%io_ret_ok).
  - destruct (storage_finalize_ok _ _ _ _ _ _ _ _ _ (appended_started _ _ _ chunks [] _ Hb) Hend)
      as (b & wav & [= <-] & Hu & Hwav & Hobj). by exists bucket, [], chunks, wav.
  - destruct (appended_fresh _ _ _ chunks _ Hb) as [Hf|(lost & kept & Hc & Hk)].
    + by destruct (storage_finalize_ok _ _ _ _ _ _ _ _ _ Hf Hend) as (b & wav & [=] & _).
    + destruct (storage_finalize_ok _ _ _ _ _ _ _ _ _ Hk Hend) as (b & wav & [= <-] & Hu & Hwav & Hobj).
      by exists bucket, lost, kept, wav.
Qed.
End laws.

(** ** A recording *)

Module RecorderDemo.
(** S3 in memory, whose calls fail when they are told to. *)
Record bucket_store := {
  bs_objects : gmap address bytes;
  bs_parts : gmap (address * option string * Z) (string * bytes);
  bs_outages : list bool;
}.

Definition put_at (a : address) (b : option bytes) (s : bucket_store) : bucket_store := {|
  bs_objects := partial_alter (λ _, b) a (bs_objects s); bs_parts := bs_parts s;
  bs_outages := bs_outages s |}.
Definition put_part (k : address * option string * Z) (p : string * bytes) (s : bucket_store)
    : bucket_store := {|
  bs_objects := bs_objects s; bs_parts := <[k := p]> (bs_parts s); bs_outages := bs_outages s |}.

(** A call, unless there is an outage. *)
Definition up {A} (f : io bucket_store A) : io bucket_store A := λ s,
  let s' := {| bs_objects := bs_objects s; bs_parts := bs_parts s; bs_outages := tail (bs_outages s) |} in
  match bs_outages s with
  | true :: _ => (s', Raise "unavailable")
  | _ => f s'
  end.

Definition joined (a : address) (u : option string) (ps : list (Z * string)) (s : bucket_store)
    : option (list bytes) :=
  mapM (λ p : Z * string, '(etag, b) ← bs_parts s !! (a, u, p.1);
    if bool_decide (etag = p.2) then Some b else None) ps.

#[local] Instance demo_s3 : S3 bucket_store := {|
  open_client := up (mret ());
  close_client := up (mret ());
  create_multipart_upload _ := up (mret "upload");
  upload_part a u n b := up (λ s, (put_part (a, u, n) ("etag", b) s, Ok "etag"));
  complete_multipart_upload a u ps := up (λ s,
    match joined a u ps s with
    | Some l => (put_at a (Some (concat l)) s, Ok ())
    | None => (s, Raise "InvalidPart")
    end);
  abort_multipart_upload _ _ := up (mret ());
  get_object a := up (λ s, (s, match bs_objects s !! a with Some b => Ok b | None => Raise "NoSuchKey" end));
  put_object a b := up (λ s, (put_at a (Some b) s, Ok ()));
  delete_object a := up (λ s, (put_at a None s, Ok ()));
|}.

Lemma up_ok {A} (f : io bucket_store A) s s' a :
  up f s = (s', Ok a) → ∃ s1, bs_objects s1 = bs_objects s ∧ bs_parts s1 = bs_parts s ∧ f s1 = (s', Ok a).
Proof. unfold up. destruct (bs_outages s) as [|[] l]; [|done|]; intros Hf; eexists; (split_and!; [| |exact Hf]); done. Qed.

Lemma up_keeps {A B} (f : io bucket_store A) (g : bucket_store → B) s :
  (∀ s1, bs_objects s1 = bs_objects s → bs_parts s1 = bs_parts s → g s1 = g s ∧ g (f s1).1 = g s) →
  g (up f s).1 = g s.
Proof. unfold up. intros Hg. destruct (bs_outages s) as [|[] l]; by apply Hg. Qed.

#[local] Instance demo_laws : S3Laws demo_s3.
Proof.
  apply (Build_S3Laws _ demo_s3 (λ a s, bs_objects s !! a) (λ a u n s, bs_parts s !! (a, u, n))).
  - intros a u n b s s' etag (s1 & _ & _ & [= <- <-])%up_ok. apply lookup_insert_eq.
  - intros a u n b s n' Hn. apply (up_keeps _ (λ s, bs_parts s !! (a, u, n'))). intros s1 _ Hp. cbn.
    rewrite Hp, lookup_insert_ne; [done|]. by intros [=].
  - intros a u ps datas s s' (s1 & _ & Hp & Hrun)%up_ok _ Hparts.
    assert (joined a u ps s1 = Some datas) as Hj.
    { unfold joined. apply mapM_Some. eapply Forall2_impl; [exact Hparts|]. intros p b Hb. cbn in Hb.
      rewrite Hp, Hb. cbn. by rewrite bool_decide_eq_true_2. }
    rewrite Hj in Hrun. injection Hrun as <-. apply lookup_partial_alter_eq.
  - intros a s s' b (s1 & Ho & _ & [= <- Hb])%up_ok. rewrite <- Ho.
    destruct (bs_objects s1 !! a) as [b'|]; [by injection Hb as ->|done].
  - intros a b s s' (s1 & _ & _ & [= <-])%up_ok. apply lookup_partial_alter_eq.
  - intros a b s a' Ha. apply (up_keeps _ (λ s, bs_objects s !! a')). intros s1 Ho _. cbn.
    rewrite Ho. split; [done|]. by apply lookup_partial_alter_ne.
  - intros a s a' Ha. apply (up_keeps _ (λ s, bs_objects s !! a')). intros s1 Ho _. cbn.
    rewrite Ho. split; [done|]. by apply lookup_partial_alter_ne.
  - intros a u s a'. apply (up_keeps _ (λ s, bs_objects s !! a')). intros s1 Ho _. cbn. by rewrite Ho.
  - intros s a'. apply (up_keeps _ (λ s, bs_objects s !! a')). intros s1 Ho _. cbn. by rewrite Ho.
Defined.

#[local] Instance demo_env : StorageEnv := {|
  s3_bucket := Some "bucket"; dumps_indented _ := ascii_bytes "{}" |}.

(** The upload cannot be created when the storage starts, nor with the first chunk. *)
Definition outages : bucket_store :=
  {| bs_objects := ∅; bs_parts := ∅; bs_outages := [false; true; true; false] |}.
Definition demo_session_config : SessionConfig := {|
  cf_session_id := "sess_1"; cf_language := JStr "auto"; cf_model := None;
  cf_encoding := "pcm_s16le"; cf_client_sample_rate := None; cf_sample_rate := 16000;
  cf_resample_quality := "balanced"; cf_channels := 1; cf_enable_vad := false;
  cf_interim_results := true; cf_word_timestamps := false; cf_vocabulary := None;
  cf_max_utterance_duration := fzero; cf_vad_threshold := JFloat fzero;
  cf_min_speech_duration_ms := 250; cf_min_silence_duration_ms := JInt 400;
  cf_prefix_padding_ms := JInt 250; cf_store_audio := true; cf_store_transcript := true;
  cf_lag_warning_seconds := fzero; cf_lag_hard_seconds := fzero; cf_lag_hard_grace_seconds := fzero;
  cf_debug_chunk_sleep_initial_seconds := fzero; cf_debug_chunk_sleep_increment_seconds := fzero |}.
(** What comes before the upload is lost, and the transcript with it. *)
Definition chunks : list bytes := map ascii_bytes ["lost"; "kept, "; "too"].
Definition started := s3_start "sess_1" demo_session_config (new_s3_storage outages true true).
Definition ended := (s3_save_transcript JNull;; s3_finalize) (appended chunks started.1).

Example demo_recording :
  ended.2 = Ok (Some "s3://bucket/sessions/sess_1/audio.wav", None) ∧
  bs_objects (ss_s3 ended.1) !! wav_of "bucket" "sess_1" =
    match wav_file 1 16000 2 (ascii_bytes "kept, too") with Ok b => Some b | Raise _ => None end.
Proof. split; vm_compute; reflexivity. Qed.

Lemma recording_saved_witness :
  ∃ bucket lost kept wav, chunks = lost ++ kept ∧ wav_file 1 16000 2 (concat kept) = Ok wav ∧
    object_at (wav_of bucket "sess_1") (ss_s3 ended.1) = Some wav.
Proof.
  assert (ended = (ended.1, Ok (Some "s3://bucket/sessions/sess_1/audio.wav", None))) as Hend
    by (rewrite (surjective_pairing ended) at 1; f_equal; vm_compute; reflexivity).
  destruct (recording_saved "sess_1" demo_session_config true outages started.1 started.2 chunks JNull _ _ _
    (surjective_pairing _) Hend) as (bucket & lost & kept & wav & _ & _ & Hc & _ & Hw & Ho).
  exists bucket, lost, kept, wav. split; [exact Hc|]. split; [exact Hw|exact Ho].
Defined.
End RecorderDemo.
