(* ===== verification/Connection.v ===== *)
(** * Connections of a realtime server

    Models [_handle_connection] and [_parse_connection_params] of
    [dalston/realtime_sdk/base.py]: from the path of a WebSocket request to a session of
    [RtSession], or to the code the socket is closed with.

    The query is given as [parse_qs] yields it, the vocabulary as [json.loads] reads it, the
    environment as [os.environ].  The theorem: what a client sends, or an operator sets,
    never gets beyond the limits of the parameters, and every session that is opened can
    be run. *)

From S2P Require Import Prelude PyValue Times Floats Magnitude Numeric Vad SessionTranscript RtSession.

(** ** Numbers in a query *)

(** [int(text)]: at most 4300 digits. *)
Definition int_of_string (text : string) : option Z :=
  let l := String.list_ascii_of_string (strip text) in
  let '(s, l) := match l with
    | "-"%char :: r => (true, r)
    | "+"%char :: r => (false, r)
    | _ => (false, l)
    end in
  match digits 0 0 l with
  | (v, S n, []) => if 4300 <? S n then None else Some (if (s : bool) then - v else v)%Z
  | _ => None
  end.

Example int_of_string_ex :
  map int_of_string [" 16000 "; "-7"; "+1_000"; "1.5"; ""; "0x10"] =
  [Some 16000%Z; Some (-7)%Z; Some 1000%Z; None; None; None].
Proof. reflexivity. Qed.

Definition below_min {A} (lt : A → A → bool) (v : A) (min_val : option A) : bool :=
  match min_val with Some m => lt v m | None => false end.
Definition above_max {A} (lt : A → A → bool) (v : A) (max_val : option A) : bool :=
  match max_val with Some m => lt m v | None => false end.

Section params.
Variable params : dict (list string).           (* [parse_qs(parsed.query)] *)
Variable environ : dict string.

(** The first value of a parameter, if it has any. *)
Definition param_text (name : string) : option string :=
  match dget name params with Some (v :: _) => Some v | _ => None end.

Definition get_param (name fallback : string) : string := default fallback (param_text name).

Definition get_bool_param (name : string) (fallback : bool) : bool :=
  match param_text name with
  | Some text => mem_str (lower text) ["true"; "1"; "yes"]
  | None => fallback
  end.

Definition checked {A} (lt : A → A → bool) (v : A) (min_val max_val : option A) : res pyexn A :=
  if below_min lt v min_val then Raise ValueError
  else if above_max lt v max_val then Raise ValueError
  else Ok v.

(** A number within its limits.  What is no number gives [fallback], unchecked. *)
Definition get_number {A} (of_string : string → option A) (lt : A → A → bool)
    (name : string) (fallback : A) (min_val max_val : option A) : res pyexn A :=
  match param_text name with
  | Some text =>
      match of_string text with
      | Some v => checked lt v min_val max_val
      | None => Ok fallback
      end
  | None => checked lt fallback min_val max_val
  end.

Definition get_int_param := get_number int_of_string Z.ltb.
Definition get_float_param := get_number float_of_string flt.

(** [float(os.environ.get(name, text))], and [int] of it. *)
Definition env_float (name text : string) : res pyexn pyfloat :=
  match float_of_string (default text (dget name environ)) with
  | Some f => Ok f
  | None => Raise ValueError
  end.
Definition env_int (name text : string) : res pyexn Z :=
  match int_of_string (default text (dget name environ)) with
  | Some z => Ok z
  | None => Raise ValueError
  end.

(** ** The parameters of a connection *)

Definition MIN_SAMPLE_RATE : Z := 8000.
Definition MAX_SAMPLE_RATE : Z := 48000.

(** A JSON array of texts, not empty. *)
Definition vocabulary_of (json_loads : string → option json) (text : string) : option (list string) :=
  if String.eqb text "" then None
  else
    match json_loads text with
    | Some (JList l) =>
        match mapM (λ v, match v with JStr s => Some s | _ => None end) l with
        | Some [] | None => None
        | Some terms => Some terms
        end
    | _ => None
    end.

Definition thousandth : pyfloat := float_lit 1 1000.

(** [fresh] is the id that is drawn when the gateway sends none. *)
Definition _parse_connection_params (fresh : string) (json_loads : string → option json)
    : res pyexn SessionConfig :=
  let session_id := let id := get_param "session_id" "" in if String.eqb id "" then fresh else id in
  let model := let name := get_param "model" "" in if String.eqb name "" then None else Some name in
  let vocabulary := vocabulary_of json_loads (get_param "vocabulary" "") in
  warning ← env_float "DALSTON_REALTIME_LAG_WARNING_SECONDS" "3.0";
  lag_warning_seconds ← get_float_param "lag_warning_seconds" warning (Some thousandth) None;
  hard ← env_float "DALSTON_REALTIME_LAG_HARD_SECONDS" "5.0";
  lag_hard_seconds ← get_float_param "lag_hard_seconds" hard (Some thousandth) None;
  grace ← env_float "DALSTON_REALTIME_LAG_HARD_GRACE_SECONDS" "2.0";
  lag_hard_grace_seconds ← get_float_param "lag_hard_grace_seconds" grace (Some thousandth) None;
  sleep ← env_float "DALSTON_REALTIME_DEBUG_CHUNK_SLEEP_INITIAL_SECONDS" "0.0";
  debug_chunk_sleep_initial_seconds ←
    get_float_param "debug_chunk_sleep_initial_seconds" sleep (Some fzero) None;
  step ← env_float "DALSTON_REALTIME_DEBUG_CHUNK_SLEEP_INCREMENT_SECONDS" "0.0";
  debug_chunk_sleep_increment_seconds ←
    get_float_param "debug_chunk_sleep_increment_seconds" step (Some fzero) None;
  if fle lag_hard_seconds lag_warning_seconds then Raise ValueError
  else
    sample_rate ← get_int_param "sample_rate" 16000%Z (Some MIN_SAMPLE_RATE) (Some MAX_SAMPLE_RATE);
    client_sample_rate ← get_int_param "client_sample_rate" sample_rate (Some MIN_SAMPLE_RATE)
      (Some MAX_SAMPLE_RATE);
    let resample_quality := get_param "resample_quality"
      (default "balanced" (dget "DALSTON_REALTIME_RESAMPLE_QUALITY" environ)) in
    if negb (dhas resample_quality RESAMPLE_QUALITY_PROFILES) then Raise ValueError
    else
      channels ← get_int_param "channels" 1%Z (Some 1%Z) (Some 2%Z);
      longest ← env_float "DALSTON_REALTIME_MAX_UTTERANCE_DURATION" "30.0";
      max_utterance_duration ← get_float_param "max_utterance_duration" longest (Some fzero)
        (Some (float_of_Z 300));
      vad_threshold ← get_float_param "vad_threshold" (float_lit 1 2) (Some fzero) (Some (float_of_Z 1));
      min_speech_duration_ms ← get_int_param "min_speech_duration_ms" 250%Z (Some 50%Z) (Some 2000%Z);
      silence ← env_int "DALSTON_REALTIME_MIN_SILENCE_DURATION_MS" "400";
      min_silence_duration_ms ← get_int_param "min_silence_duration_ms" silence (Some 50%Z) (Some 2000%Z);
      prefix_padding_ms ← get_int_param "prefix_padding_ms" 300%Z (Some 0%Z) (Some 5000%Z);
      Ok {| cf_session_id := session_id; cf_language := JStr (get_param "language" "auto");
            cf_model := model; cf_encoding := get_param "encoding" "pcm_s16le";
            cf_client_sample_rate := Some client_sample_rate; cf_sample_rate := sample_rate;
            cf_resample_quality := resample_quality; cf_channels := channels;
            cf_enable_vad := get_bool_param "enable_vad" true;
            cf_interim_results := get_bool_param "interim_results" true;
            cf_word_timestamps := get_bool_param "word_timestamps" false; cf_vocabulary := vocabulary;
            cf_max_utterance_duration := max_utterance_duration;
            cf_vad_threshold := JFloat vad_threshold;
            cf_min_speech_duration_ms := min_speech_duration_ms;
            cf_min_silence_duration_ms := JInt min_silence_duration_ms;
            cf_prefix_padding_ms := JInt prefix_padding_ms;
            cf_store_audio := get_bool_param "store_audio" true;
            cf_store_transcript := get_bool_param "store_transcript" true;
            cf_lag_warning_seconds := lag_warning_seconds; cf_lag_hard_seconds := lag_hard_seconds;
            cf_lag_hard_grace_seconds := lag_hard_grace_seconds;
            cf_debug_chunk_sleep_initial_seconds := debug_chunk_sleep_initial_seconds;
            cf_debug_chunk_sleep_increment_seconds := debug_chunk_sleep_increment_seconds |}.
End params.

(** ** Connections *)

Section connection.
Context {sample model : Type} `{Silero sample model, SessionEngine sample, SessionStorage}.

(** What becomes of a connection: an answer to a health check, a socket that is closed with a
    code, an exception that ends the handler, or a session. *)
Inductive reception :=
  | HealthAnswered
  | SocketClosed (code : Z)
  | HandlerFailed (e : pyexn)
  | SessionOpened (s : Live (sample := sample) (model := model)).

Definition WS_CLOSE_PROTOCOL_ERROR : Z := 1002.
Definition WS_CLOSE_POLICY_VIOLATION : Z := 1008.
Definition WS_CLOSE_TRY_AGAIN_LATER : Z := 1013.

(** [sessions] are open; the engine says whether it streams, and whether it decodes with the
    model of the session as the audio comes. *)
Definition _handle_connection (path : string) (sessions max_sessions : nat) (config : res pyexn SessionConfig)
    (m : model) (native_streaming : bool) (decodes : option string → bool) (clock : pyfloat) : reception :=
  if String.eqb path "/health" || String.prefix "/health?" path then HealthAnswered
  else if negb (String.prefix "/session" path) then SocketClosed WS_CLOSE_POLICY_VIOLATION
  else if max_sessions <=? sessions then SocketClosed WS_CLOSE_TRY_AGAIN_LATER
  else
    match config with
    | Raise ValueError => SocketClosed WS_CLOSE_PROTOCOL_ERROR
    | Raise e => HandlerFailed e
    | Ok c =>
        match new_session c m native_streaming (decodes (cf_model c)) clock with
        | Ok s => SessionOpened s
        | Raise e => HandlerFailed e
        end
    end.
End connection.

(** ** Limits *)

(** Neither below [lo] nor above [hi]; [nan] is neither. *)
Definition float_within (lo hi x : pyfloat) : Prop := flt x lo = false ∧ flt hi x = false.

Record well_configured (c : SessionConfig) : Prop := {
  wc_rate : (8000 ≤ cf_sample_rate c ≤ 48000)%Z;
  wc_client_rate : ∃ r, cf_client_sample_rate c = Some r ∧ (8000 ≤ r ≤ 48000)%Z;
  wc_channels : (1 ≤ cf_channels c ≤ 2)%Z;
  wc_quality : dhas (cf_resample_quality c) RESAMPLE_QUALITY_PROFILES = true;
  wc_language : ∃ l, cf_language c = JStr l;
  wc_longest : float_within fzero (float_of_Z 300) (cf_max_utterance_duration c);
  wc_threshold : ∃ x, cf_vad_threshold c = JFloat x ∧ float_within fzero (float_of_Z 1) x;
  wc_speech : (50 ≤ cf_min_speech_duration_ms c ≤ 2000)%Z;
  wc_silence : ∃ z, cf_min_silence_duration_ms c = JInt z ∧ (50 ≤ z ≤ 2000)%Z;
  wc_prefix : ∃ z, cf_prefix_padding_ms c = JInt z ∧ (0 ≤ z ≤ 5000)%Z;
  wc_lag : fle (cf_lag_hard_seconds c) (cf_lag_warning_seconds c) = false;
  wc_lag_limits : Forall (λ x, flt x thousandth = false)
    [cf_lag_warning_seconds c; cf_lag_hard_seconds c; cf_lag_hard_grace_seconds c];
  wc_sleep : Forall (λ x, flt x fzero = false)
    [cf_debug_chunk_sleep_initial_seconds c; cf_debug_chunk_sleep_increment_seconds c];
}.

(** The settings of the operator, where they are used, are within the limits too. *)
Record sane_environ (environ : dict string) : Prop := {
  se_warning x : env_float environ "DALSTON_REALTIME_LAG_WARNING_SECONDS" "3.0" = Ok x → flt x thousandth = false;
  se_hard x : env_float environ "DALSTON_REALTIME_LAG_HARD_SECONDS" "5.0" = Ok x → flt x thousandth = false;
  se_grace x : env_float environ "DALSTON_REALTIME_LAG_HARD_GRACE_SECONDS" "2.0" = Ok x →
    flt x thousandth = false;
  se_sleep x : env_float environ "DALSTON_REALTIME_DEBUG_CHUNK_SLEEP_INITIAL_SECONDS" "0.0" = Ok x →
    flt x fzero = false;
  se_step x : env_float environ "DALSTON_REALTIME_DEBUG_CHUNK_SLEEP_INCREMENT_SECONDS" "0.0" = Ok x →
    flt x fzero = false;
  se_longest x : env_float environ "DALSTON_REALTIME_MAX_UTTERANCE_DURATION" "30.0" = Ok x →
    float_within fzero (float_of_Z 300) x;
  se_silence z : env_int environ "DALSTON_REALTIME_MIN_SILENCE_DURATION_MS" "400" = Ok z → (50 ≤ z ≤ 2000)%Z;
}.

Lemma get_number_ok {A} (of_string : string → option A) lt params name d lo hi v :
  below_min lt d lo = false → above_max lt d hi = false →
  get_number params of_string lt name d lo hi = Ok v →
  below_min lt v lo = false ∧ above_max lt v hi = false.
Proof.
  intros Hd1 Hd2. unfold get_number. destruct (param_text params name) as [text|].
  - destruct (of_string text) as [w|]; [|by intros [= <-]]. unfold checked.
    destruct (below_min lt w lo) eqn:Hlo; [done|]. destruct (above_max lt w hi) eqn:Hhi; [done|]. by intros [= <-].
  - unfold checked. rewrite Hd1, Hd2. by intros [= <-].
Qed.

Lemma get_number_raise {A} (of_string : string → option A) lt params name d lo hi e :
  get_number params of_string lt name d lo hi = Raise e → e = ValueError.
Proof. unfold get_number, checked. repeat case_match; by intros [=]. Qed.

Lemma get_int_ok params name d lo hi v :
  (lo ≤ d ≤ hi)%Z → get_int_param params name d (Some lo) (Some hi) = Ok v → (lo ≤ v ≤ hi)%Z.
Proof. intros Hd Hv. apply get_number_ok in Hv as [? ?]; cbn in *; lia. Qed.

Lemma get_float_ok params name d lo hi v :
  float_within lo hi d → get_float_param params name d (Some lo) (Some hi) = Ok v → float_within lo hi v.
Proof. intros [? ?] Hv. by apply get_number_ok in Hv. Qed.

Lemma get_float_min params name d lo v :
  flt d lo = false → get_float_param params name d (Some lo) None = Ok v → flt v lo = false.
Proof. intros Hd Hv. by apply get_number_ok in Hv as [? _]. Qed.

Lemma env_float_raise environ name text e : env_float environ name text = Raise e → e = ValueError.
Proof. unfold env_float. destruct (float_of_string _); by intros [=]. Qed.
Lemma env_int_raise environ name text e : env_int environ name text = Raise e → e = ValueError.
Proof. unfold env_int. destruct (int_of_string _); by intros [=]. Qed.

Lemma parse_ok params environ fresh loads c :
  sane_environ environ → _parse_connection_params params environ fresh loads = Ok c → well_configured c.
Proof.
  intros [Hwarning Hhard Hgrace Hsleep Hstep Hlongest Hsilence]. unfold _parse_connection_params. intros Hc.
  repeat match type of Hc with
  | (_ ≫= _) = Ok _ => apply bind_Ok in Hc as (? & ? & Hc)
  | (if ?b then _ else _) = Ok _ => destruct b eqn:?; [done|]
  end.
  injection Hc as <-.
  repeat match goal with
  | Hx : env_float _ _ _ = Ok _ |- _ => first [apply Hwarning in Hx|apply Hhard in Hx|apply Hgrace in Hx|
      apply Hsleep in Hx|apply Hstep in Hx|apply Hlongest in Hx]
  | Hx : env_int _ _ _ = Ok _ |- _ => apply Hsilence in Hx
  | Hx : get_int_param _ _ _ _ _ = Ok _ |- _ => apply get_int_ok in Hx; [|unfold MIN_SAMPLE_RATE, MAX_SAMPLE_RATE in *; lia]
  | Hx : get_float_param _ _ _ (Some _) (Some _) = Ok _ |- _ =>
      apply get_float_ok in Hx; [|first [done|split; vm_compute; reflexivity]]
  | Hx : get_float_param _ _ _ _ None = Ok _ |- _ => apply get_float_min in Hx; [|done]
  | Hx : negb _ = false |- _ => apply negb_false_iff in Hx
  end.
  split; cbn; eauto.
Qed.

Lemma parse_raise params environ fresh loads e :
  _parse_connection_params params environ fresh loads = Raise e → e = ValueError.
Proof.
  unfold _parse_connection_params. intros Hc.
  repeat match type of Hc with
  | (_ ≫= _) = Raise _ => apply bind_Raise in Hc as [Hc|(? & ? & Hc)]
  | (if ?b then _ else _) = Raise _ => destruct b eqn:?
  | Ok _ = _ => done
  | Raise _ = _ => by injection Hc
  | get_int_param _ _ _ _ _ = _ => by apply get_number_raise in Hc
  | get_float_param _ _ _ _ _ = _ => by apply get_number_raise in Hc
  | env_float _ _ _ = _ => by apply env_float_raise in Hc
  | env_int _ _ _ = _ => by apply env_int_raise in Hc
  end.
Qed.

(** ** A session of any connection *)

Lemma Zdigits2_bounds z a b : (2 ^ (a - 1) ≤ z < 2 ^ b)%Z → (0 < z)%Z → (a ≤ Zdigits2 z ≤ b)%Z.
Proof.
  intros [Hlo Hhi] Hz. destruct z as [|z|]; [lia| |lia]. cbn [Zdigits2].
  pose proof (digits2_pos_spec z) as [Hl Hh]. set (d := Zpos (digits2_pos z)) in *. split.
  - destruct (Z.lt_ge_cases d a); [exfalso|done].
    assert (2 ^ d ≤ 2 ^ (a - 1))%Z by (apply Z.pow_le_mono_r; lia). lia.
  - destruct (Z.lt_ge_cases b d); [exfalso|done].
    assert (2 ^ b ≤ 2 ^ (d - 1))%Z by (apply Z.pow_le_mono_r; lia). lia.
Qed.

(** The quotient of two numbers of at most thirty bits is a float of the magnitude one expects. *)
Lemma quotient_mag y z a b c d :
  (2 ^ (a - 1) ≤ y < 2 ^ b)%Z → (2 ^ (c - 1) ≤ z < 2 ^ d)%Z → (0 < y)%Z → (0 < z)%Z →
  (0 ≤ a ∧ b ≤ 30)%Z → (0 ≤ c ∧ d ≤ 30)%Z →
  ∃ m e, fdiv (float_of_Z y) (float_of_Z z) = S754_finite false m e ∧
    (a - d - 1 ≤ mag m e ≤ b - c + 3)%Z.
Proof.
  intros Hy Hz Hy0 Hz0 Hab Hcd.
  pose proof (Zdigits2_bounds _ _ _ Hy Hy0). pose proof (Zdigits2_bounds _ _ _ Hz Hz0).
  assert (2 ^ b ≤ 2 ^ 30)%Z by (apply Z.pow_le_mono_r; lia).
  assert (2 ^ d ≤ 2 ^ 30)%Z by (apply Z.pow_le_mono_r; lia).
  assert (2 ^ 30 < 2 ^ 900)%Z by (apply Z.pow_lt_mono_r; lia).
  destruct (float_of_Z_mag y) as (m1 & e1 & -> & Hm1); [lia|].
  destruct (float_of_Z_mag z) as (m2 & e2 & -> & Hm2); [lia|].
  destruct (fdiv_mag false false m1 e1 m2 e2) as (m & e & -> & Hm); [lia|].
  exists m, e. split; [done|]. lia.
Qed.

Lemma chunk_samples_pos rate :
  (8000 ≤ rate ≤ 48000)%Z →
  ∃ n, f_int (fdiv (float_of_Z (rate * 100)) (float_of_Z 1000)) = Ok n ∧ (0 < n)%Z.
Proof.
  intros Hr. destruct (quotient_mag (rate * 100) 1000 20 23 10 10) as (m & e & -> & Hm); [cbn; lia..|].
  apply f_int_mag. lia.
Qed.

Lemma float_of_int_ok z : (0 ≤ z ≤ 5000)%Z → ∃ x, json_float (JInt z) = Ok x ∧ x = float_of_Z z.
Proof.
  intros Hz. cbn. destruct (decide (z = 0%Z)) as [->|]; [by eexists|].
  assert (2 ^ 30 < 2 ^ 900)%Z by (apply Z.pow_lt_mono_r; lia).
  destruct (float_of_Z_mag z) as (m & e & -> & _); [lia|]. by eexists.
Qed.

Lemma vad_config_ok c : well_configured c → ∃ vc, new_vad_config c = Ok vc.
Proof.
  intros [_ _ _ _ _ _ _ _ (s & Hs & Hs1) (p & Hp & Hp1) _ _ _]. unfold new_vad_config. rewrite Hs, Hp.
  destruct (float_of_int_ok s) as (x & Hx & _); [lia|]. destruct (float_of_int_ok p) as (y & Hy & ->); [lia|].
  unfold json_ms. rewrite Hx. cbn [mbind res_mbind res_bind]. rewrite Hy. cbn [mbind res_mbind res_bind].
  unfold lookback_of. destruct (decide (p = 0%Z)) as [->|Hp0]; [by eexists|].
  destruct (quotient_mag p 100 1 13 7 7) as (m & e & -> & _); [cbn; lia..|]. by eexists.
Qed.

Section opened.
Context {sample model : Type} `{Silero sample model, SessionEngine sample, SessionStorage}.
Variables (params : dict (list string)) (environ : dict string) (fresh : string)
  (json_loads : string → option json).

Lemma session_of c m native streaming clock :
  well_configured c →
  match new_session (sample := sample) (model := model) c m native streaming clock with
  | Ok s => mem_str (cf_encoding c) SUPPORTED_ENCODINGS = true ∧ (0 < ab_chunk_samples (lv_buffer s))%Z
  | Raise e => e = ValueError ∧ mem_str (cf_encoding c) SUPPORTED_ENCODINGS = false
  end.
Proof.
  intros Hok. destruct (chunk_samples_pos _ (wc_rate _ Hok)) as (n & Hn & Hpos).
  destruct (vad_config_ok _ Hok) as (vc & Hvc).
  unfold new_session, new_audio_buffer. rewrite Hn, Hvc.
  destruct (mem_str (cf_encoding c) SUPPORTED_ENCODINGS); cbn [negb mbind res_mbind res_bind]; [|done].
  destruct (cf_enable_vad c); cbn [mbind res_mbind res_bind lv_buffer ab_chunk_samples]; (split; [done|lia]).
Qed.

End opened.

(** ** A connection *)

Module ConnectionDemo.
#[local] Instance demo_detector : Silero () () := {|
  silence_sample := (); silero_window _ m _ := (fzero, m); silero_reset m := m |}.
#[local] Instance demo_engine : SessionEngine () := {|
  np_int16 b := Ok (map (λ _, ()) b); np_float32 b := Raise ValueError; ulaw2lin b := b; alaw2lin b := b;
  soxr_resample l _ _ _ := l;
  transcribe_fn _ _ _ :=
    Ok {| ut_text := "words"; ut_segments := []; ut_language_confidence := None |};
  exn_text _ := "error"; validation_text _ := "invalid"; value_text _ := "value" |}.
#[local] Instance demo_storage : SessionStorage := {|
  storage := (); new_storage _ _ := (); storage_start _ _ s := (s, Ok ());
  append_audio _ s := (s, Ok ()); save_transcript _ s := (s, Ok ());
  finalize s := (s, Ok (None, None)); abort s := (s, Ok ()) |}.

(** A client at 24 kHz; the silence that ends an utterance is set by the operator. *)
Definition demo_query : dict (list string) :=
  [("language", ["en"]); ("client_sample_rate", ["24000"]); ("vad_threshold", ["0.25"]);
   ("max_utterance_duration", ["long"])].
Definition demo_environ : dict string := [("DALSTON_REALTIME_MIN_SILENCE_DURATION_MS", "600")].
Definition demo_config := _parse_connection_params demo_query demo_environ "sess_new" (λ _, None).
Definition demo_reception (config : res pyexn SessionConfig) : reception (sample := ()) (model := ()) :=
  _handle_connection "/session" 0 4 config () false (λ _, false) fzero.

Lemma demo_sane : sane_environ demo_environ.
Proof. split; intros ? Hx; vm_compute in Hx; injection Hx as <-; first [split; vm_compute; by intros|vm_compute; reflexivity]. Qed.

Example demo_opened :
  match demo_config with
  | Ok c => (cf_client_sample_rate c, cf_max_utterance_duration c, cf_min_silence_duration_ms c) =
            (Some 24000%Z, float_of_Z 30, JInt 600)
  | Raise _ => False
  end ∧
  match demo_reception demo_config with SessionOpened s => ab_chunk_samples (lv_buffer s) = 1600%Z | _ => False end.
Proof. split; vm_compute; reflexivity. Qed.

(** An encoding that is not supported passes the parameters and ends the handler. *)
Example encoding_escapes :
  let config := _parse_connection_params [("encoding", ["opus"])] [] "sess_new" (λ _, None) in
  is_ok config = true ∧ demo_reception config = HandlerFailed ValueError.
Proof. split; vm_compute; reflexivity. Qed.

(** A rate that is out of range closes the socket; one that is no number does not. *)
Example rates :
  map (λ text, demo_reception (_parse_connection_params [("sample_rate", [text])] [] "sess_new" (λ _, None)))
    ["96000"] = [SocketClosed WS_CLOSE_PROTOCOL_ERROR] ∧
  is_ok (_parse_connection_params [("sample_rate", ["fast"])] [] "sess_new" (λ _, None)) = true.
Proof. split; vm_compute; reflexivity. Qed.

(** An operator's default beyond the limits is refused where the parameter is left out, and used
    where it is no number. *)
Example unchecked_default :
  let environ := [("DALSTON_REALTIME_MIN_SILENCE_DURATION_MS", "9000")] in
  is_ok (_parse_connection_params [] environ "sess_new" (λ _, None)) = false ∧
  match _parse_connection_params [("min_silence_duration_ms", ["x"])] environ "sess_new" (λ _, None) with
  | Ok c => cf_min_silence_duration_ms c = JInt 9000
  | Raise _ => False
  end.
Proof. split; vm_compute; reflexivity. Qed.

End ConnectionDemo.
