(* ===== verification/Diarization.v ===== *)
(** * Speakers of words and segments

    Models the part of [dalston/common/transcript.py] that decides who speaks:
    smoothing of diarization turns, the speaker of a time span or of a word, and
    the splitting of a segment at the boundaries of its speakers. *)

From S2P Require Import Prelude PyValue Times.

(** ** Data *)

(** [Word] of [common/pipeline_types.py]; the details of characters and
    phonemes are carried along unread. *)
Record Word := {
  w_text : string;
  w_start : pyfloat;
  w_end : pyfloat;
  w_confidence : option pyfloat;
  w_characters : json;
  w_phonemes : json;
  w_alignment_method : option string;
  w_language : option string;
}.

Record SpeakerTurn := {
  st_speaker : string;
  st_start : pyfloat;
  st_end : pyfloat;
  st_confidence : option pyfloat;
  st_overlapping_speakers : option (list string);
}.

(** A stretch of a segment with one speaker: the dictionaries with the keys
    [start], [end], [text], [speaker] and [words]. *)
Record part := {
  p_start : pyfloat;
  p_end : pyfloat;
  p_text : string;
  p_speaker : option string;
  p_words : option (list Word);
}.

Abbreviation window := (pyfloat * pyfloat * option string)%type.

(** [0.25] *)
Definition MIN_TURN_DURATION_S : pyfloat := float_lit 1 4.
Definition MIN_SEGMENT_WORDS : nat := 2.

(** ** Smoothing of turns *)

Definition turn_key (t : SpeakerTurn) : pyfloat * pyfloat := (st_start t, st_end t).
Definition sort_turns (l : list SpeakerTurn) : list SpeakerTurn :=
  stable_sort (λ a b, pair_lt (turn_key a) (turn_key b)) l.

(** [SpeakerTurn(start=s, end=e, ...)] with the other fields of [t]. *)
Definition turn_span (s e : pyfloat) (t : SpeakerTurn) : SpeakerTurn := {|
  st_speaker := st_speaker t; st_start := s; st_end := e;
  st_confidence := st_confidence t;
  st_overlapping_speakers := st_overlapping_speakers t |}.

(** One turn of the loop; [merged] is reversed, its head is [merged[-1]]. *)
Definition merge_turn (merged : list SpeakerTurn) (t : SpeakerTurn) : list SpeakerTurn :=
  match merged with
  | prev :: rest =>
      if String.eqb (st_speaker t) (st_speaker prev) && fle (st_start t) (st_end prev)
      then turn_span (st_start prev) (fmax (st_end prev) (st_end t)) prev :: rest
      else t :: merged
  | [] => [t]
  end.

Definition _merge_adjacent_turns (turns : list SpeakerTurn) : list SpeakerTurn :=
  rev (foldl merge_turn [] turns).

Definition turn_duration (t : SpeakerTurn) : pyfloat := fsub (st_end t) (st_start t).

(** [turn.end - turn.start < min_duration], the negation of the test that
    keeps a turn. *)
Definition is_micro (min_duration : pyfloat) (t : SpeakerTurn) : bool :=
  negb (fle min_duration (turn_duration t)).

(** The position of [max(turns, key=duration)], the first of the longest. *)
Fixpoint longest_from (best : nat) (d : pyfloat) (i : nat) (l : list SpeakerTurn) : nat :=
  match l with
  | [] => best
  | t :: l => if flt d (turn_duration t) then longest_from i (turn_duration t) (S i) l
              else longest_from best d (S i) l
  end.
Definition longest_index (l : list SpeakerTurn) : nat :=
  match l with
  | [] => 0
  | t :: l => longest_from 0 (turn_duration t) 1 l
  end.

(** [idx in absorbed_indices], for every index of the sorted turns. *)
Definition absorbed (min_duration : pyfloat) (l : list SpeakerTurn) : list bool :=
  let flags := map (is_micro min_duration) l in
  if forallb id flags then <[longest_index l := false]> flags else flags.

Definition is_kept (flags : list bool) (i : nat) : bool :=
  negb (default true (flags !! i)).

Definition kept_turns (flags : list bool) (l : list SpeakerTurn) : list SpeakerTurn :=
  omap (λ i, if is_kept flags i then l !! i else None) (seq 0 (length l)).

Definition kept_by_orig_idx (flags : list bool) (i : nat) : nat :=
  length (List.filter (is_kept flags) (seq 0 i)).

Definition prev_orig (flags : list bool) (i : nat) : option nat :=
  find_first (is_kept flags) (rev (seq 0 i)).
Definition nxt_orig (flags : list bool) (i : nat) : option nat :=
  find_first (is_kept flags) (seq (S i) (length flags - S i)).

Definition _turn_overlap (a b : SpeakerTurn) : pyfloat :=
  fmax fzero (fsub (fmin (st_end a) (st_end b)) (fmax (st_start a) (st_start b))).

(** The neighbour that absorbs [micro], of those that exist. *)
Definition absorb_target (micro : SpeakerTurn) (prev nxt : option (nat * SpeakerTurn))
    : option (nat * SpeakerTurn) :=
  match prev, nxt with
  | Some (i, p), Some (j, n) =>
      let ov_prev := _turn_overlap p micro in
      let ov_nxt := _turn_overlap n micro in
      if flt ov_nxt ov_prev then prev
      else if flt ov_prev ov_nxt then nxt
      else if fle (turn_duration n) (turn_duration p) then prev else nxt
  | Some _, None => prev
  | None, _ => nxt
  end.

Definition hull (target micro : SpeakerTurn) : SpeakerTurn :=
  turn_span (fmin (st_start target) (st_start micro)) (fmax (st_end target) (st_end micro)) target.

(** Absorbs the turn of index [i]. *)
Definition absorb (flags : list bool) (sorted : list SpeakerTurn) (kept : list SpeakerTurn)
    (i : nat) : list SpeakerTurn :=
  let neighbour o := i' ← o; let k := kept_by_orig_idx flags i' in t ← kept !! k; Some (k, t) in
  match sorted !! i with
  | None => kept
  | Some micro =>
      match absorb_target micro (neighbour (prev_orig flags i)) (neighbour (nxt_orig flags i)) with
      | Some (k, target) => <[k := hull target micro]> kept
      | None => kept
      end
  end.

Definition _smooth_diarization_turns (turns : list SpeakerTurn) (min_duration : pyfloat)
    : list SpeakerTurn :=
  if (length turns =? 0) || fle min_duration fzero then turns
  else
    let sorted := sort_turns turns in
    if negb (existsb (is_micro min_duration) sorted) then _merge_adjacent_turns sorted
    else
      let flags := absorbed min_duration sorted in
      let micros := List.filter (λ i, negb (is_kept flags i)) (seq 0 (length sorted)) in
      let kept := foldl (absorb flags sorted) (kept_turns flags sorted) micros in
      _merge_adjacent_turns (sort_turns kept).

(** ** The speaker of a time span *)

Definition overlap (s e : pyfloat) (t : SpeakerTurn) : pyfloat :=
  fmax fzero (fsub (fmin e (st_end t)) (fmax s (st_start t))).

Definition better_overlap (s e : pyfloat) (best : option string * pyfloat) (t : SpeakerTurn)
    : option string * pyfloat :=
  if flt best.2 (overlap s e t) then (Some (st_speaker t), overlap s e t) else best.

Definition _find_speaker_by_overlap (s e : pyfloat) (turns : list SpeakerTurn) : option string :=
  (foldl (better_overlap s e) (None, fzero) turns).1.

(** [turn.start <= at_time <= turn.end] *)
Definition in_turn (at_time : pyfloat) (t : SpeakerTurn) : bool :=
  fle (st_start t) at_time && fle at_time (st_end t).

Definition turn_distance (at_time : pyfloat) (t : SpeakerTurn) : pyfloat :=
  if flt at_time (st_start t) then fsub (st_start t) at_time else fsub at_time (st_end t).

Fixpoint nearest_from (at_time : pyfloat) (best : option (string * pyfloat))
    (turns : list SpeakerTurn) : option string :=
  match turns with
  | [] => fst <$> best
  | t :: turns =>
      if in_turn at_time t then Some (st_speaker t)
      else
        let d := turn_distance at_time t in
        nearest_from at_time
          (match best with
           | Some (_, d') => if flt d d' then Some (st_speaker t, d) else best
           | None => Some (st_speaker t, d)
           end) turns
  end.

Definition _find_nearest_turn_speaker (at_time : pyfloat) (turns : list SpeakerTurn)
    : option string :=
  nearest_from at_time None turns.

Definition _find_start_turn_speaker (word_start : pyfloat) (turns : list SpeakerTurn)
    : option string :=
  st_speaker <$> find_first (in_turn word_start) turns.

Definition _is_sentence_ending (text : string) : bool :=
  match lstrip (String.rev text) with
  | String c _ => Ascii.eqb c "." || Ascii.eqb c "!" || Ascii.eqb c "?"
  | EmptyString => false
  end.

Definition midpoint (s e : pyfloat) : pyfloat := fdiv (fadd s e) (float_of_Z 2).

Definition _assign_speaker_to_word (word : Word) (turns : list SpeakerTurn) : option string :=
  if length turns =? 0 then None
  else if flt (w_end word) (w_start word) then None
  else if feq (w_end word) (w_start word)
  then _find_nearest_turn_speaker (w_start word) turns
  else
    let onset := if _is_sentence_ending (w_text word)
                 then _find_start_turn_speaker (w_start word) turns else None in
    match onset with
    | Some s => Some s
    | None =>
        match _find_speaker_by_overlap (w_start word) (w_end word) turns with
        | Some s => Some s
        | None => _find_nearest_turn_speaker (midpoint (w_start word) (w_end word)) turns
        end
    end.

(** ** Windows of a segment *)

(** [boundaries.add(x)] *)
Definition set_add (x : pyfloat) (l : list pyfloat) : list pyfloat :=
  if existsb (feq x) l then l else l ++ [x].

Definition turn_boundaries (s e : pyfloat) (acc : list pyfloat) (t : SpeakerTurn) : list pyfloat :=
  if fle (st_end t) s || fle e (st_start t) then acc
  else set_add (fmin e (st_end t)) (set_add (fmax s (st_start t)) acc).

(** [windows.append((s, e, speaker))], or extends [windows[-1]] when it has
    the same speaker; [windows] is reversed. *)
Definition push_window (windows : list window) (s e : pyfloat) (speaker : option string)
    : list window :=
  match windows with
  | (s', e', sp) :: rest =>
      if bool_decide (sp = speaker) then (s', e, sp) :: rest else (s, e, speaker) :: windows
  | [] => [(s, e, speaker)]
  end.

(** The loop over [ordered[idx], ordered[idx + 1]]. *)
Fixpoint window_loop (turns : list SpeakerTurn) (windows : list window) (ordered : list pyfloat)
    : list window :=
  match ordered with
  | s :: ((e :: _) as rest) =>
      if fle e s then window_loop turns windows rest
      else window_loop turns
             (push_window windows s e (_find_speaker_by_overlap s e turns)) rest
  | _ => windows
  end.

Definition boundaries (s e : pyfloat) (turns : list SpeakerTurn) : list pyfloat :=
  foldl (turn_boundaries s e) (set_add e [s]) turns.

Definition _build_speaker_windows (s e : pyfloat) (turns : list SpeakerTurn) : list window :=
  if fle e s then []
  else rev (window_loop turns [] (stable_sort flt (boundaries s e turns))).

(** ** Splitting by words *)

Definition sort_words (l : list Word) : list Word :=
  stable_sort (λ a b, pair_lt (w_start a, w_end a) (w_start b, w_end b)) l.

(** [" ".join(w.text.strip() for w in words if w.text.strip())] *)
Definition words_text (words : list Word) : string :=
  join_words (map (λ w, strip (w_text w)) (List.filter (λ w, negb (blank (w_text w))) words)).

(** The part made of a run of words, when its text is not empty. *)
Definition close_run (words : list Word) (speaker : option string) : list part :=
  match words, last words with
  | first :: _, Some l =>
      let text := words_text words in
      if String.eqb text "" then []
      else [{| p_start := w_start first; p_end := fmax (w_end l) (w_start l);
               p_text := text; p_speaker := speaker; p_words := Some words |}]
  | _, _ => []
  end.

(** The loop: [current] is the run being read and [speaker] its speaker. *)
Fixpoint split_runs (turns : list SpeakerTurn) (current : list Word) (speaker : option string)
    (words : list Word) : list part :=
  match words with
  | [] => close_run current speaker
  | w :: words =>
      if flt (w_end w) (w_start w) then split_runs turns current speaker words
      else
        let sp := _assign_speaker_to_word w turns in
        if negb (length current =? 0) && negb (bool_decide (sp = speaker))
        then close_run current speaker ++ split_runs turns [w] sp words
        else split_runs turns (current ++ [w]) sp words
  end.

Definition _split_words_by_speaker (words : list Word) (turns : list SpeakerTurn) : list part :=
  split_runs turns [] None (sort_words words).

(** ** Short parts *)

(** [len(part.get("words") or part["text"].split())] *)
Definition word_count (p : part) : nat :=
  match p_words p with
  | Some ((_ :: _) as ws) => length ws
  | _ => length (py_split (p_text p))
  end.

Definition part_words (p : part) : list Word := default [] (p_words p).

(** [combined_words if combined_words else None] *)
Definition some_words (ws : list Word) : option (list Word) :=
  match ws with [] => None | _ => Some ws end.

(** [merged[i]] goes into its left neighbour [t], or into its right one. *)
Definition merge_left (t s : part) : part := {|
  p_start := p_start t; p_end := fmax (p_end s) (p_end t);
  p_text := strip (p_text t +:+ " " +:+ p_text s); p_speaker := p_speaker t;
  p_words := some_words (part_words t ++ part_words s) |}.
Definition merge_right (s t : part) : part := {|
  p_start := fmin (p_start s) (p_start t); p_end := p_end t;
  p_text := strip (p_text s +:+ " " +:+ p_text t); p_speaker := p_speaker t;
  p_words := some_words (part_words s ++ part_words t) |}.

(** One pass: the first short part that has a neighbour is merged into it.
    [before] are the parts already passed, reversed. *)
Fixpoint merge_pass (min_words : nat) (before : list part) (parts : list part)
    : option (list part) :=
  match parts with
  | [] => None
  | s :: after =>
      if min_words <=? word_count s then merge_pass min_words (s :: before) after
      else
        match before, after with
        | p :: before', n :: after' =>
            if word_count n <=? word_count p
            then Some (rev before' ++ merge_left p s :: after)
            else Some (rev before ++ merge_right s n :: after')
        | p :: before', [] => Some (rev before' ++ [merge_left p s])
        | [], n :: after' => Some (merge_right s n :: after')
        | [], [] => merge_pass min_words (s :: before) after
        end
  end.

(** [while changed]: a pass that changes something removes a part. *)
Fixpoint merge_short (fuel min_words : nat) (parts : list part) : list part :=
  match fuel with
  | O => parts
  | S fuel =>
      match merge_pass min_words [] parts with
      | Some parts' => merge_short fuel min_words parts'
      | None => parts
      end
  end.

Definition _merge_short_splits (parts : list part) (min_words : nat) : list part :=
  if (length parts <=? 1) || (min_words <=? 1) then parts
  else merge_short (length parts) min_words parts.

(** ** Splitting a text without words *)

(** [0.5] *)
Definition f_half : pyfloat := float_lit 1 2.

(** [seg_start + duration * ((idx + 0.5) / token_count)] *)
Definition token_midpoint (s duration : pyfloat) (idx count : nat) : pyfloat :=
  fadd s (fmul duration (fdiv (fadd (float_of_Z (Z.of_nat idx)) f_half)
                              (float_of_Z (Z.of_nat count)))).

(** [while window_idx < len(windows) - 1 and midpoint >= windows[window_idx][1]],
    on the windows from [window_idx] on: how many are passed. *)
Fixpoint windows_passed (m : pyfloat) (windows : list window) : nat :=
  match windows with
  | (_, e, _) :: ((_ :: _) as rest) => if fle e m then S (windows_passed m rest) else 0
  | _ => 0
  end.

(** The loop over the tokens, from number [idx] and window [wi] on. *)
Fixpoint fill_buckets (s duration : pyfloat) (count : nat) (windows : list window)
    (idx wi : nat) (tokens : list string) (buckets : list (list string)) : list (list string) :=
  match tokens with
  | [] => buckets
  | token :: tokens =>
      let wi := wi + windows_passed (token_midpoint s duration idx count) (drop wi windows) in
      fill_buckets s duration count windows (S idx) wi tokens
        (alter (λ b, b ++ [token]) wi buckets)
  end.

Definition _split_text_across_windows (text : string) (s e : pyfloat) (windows : list window)
    : list string :=
  match windows with
  | [] => []
  | [_] => [join_words (py_split text)]
  | _ :: others =>
      let tokens := py_split text in
      if length tokens =? 0 then map (λ _, "") windows
      else if fle (fsub e s) fzero then join_words tokens :: map (λ _, "") others
      else map join_words
             (fill_buckets s (fsub e s) (length tokens) windows 0 0 tokens
                (map (λ _, []) windows))
  end.

(** ** Splitting a segment *)

(** The windows with their speakers resolved, reversed as they are built. *)
Definition resolve_window (turns : list SpeakerTurn) (acc : list window) (w : window)
    : list window :=
  let '(s, e, speaker) := w in
  let resolved := match speaker with
                  | Some _ => speaker
                  | None => _find_nearest_turn_speaker (midpoint s e) turns
                  end in
  push_window acc s e resolved.

Definition resolve_windows (turns : list SpeakerTurn) (windows : list window) : list window :=
  rev (foldl (resolve_window turns) [] windows).

Definition text_part (w : window) (text : string) : part :=
  {| p_start := w.1.1; p_end := w.1.2; p_text := text; p_speaker := w.2; p_words := None |}.

Definition whole_part (s e : pyfloat) (text : string) (speaker : option string)
    (words : option (list Word)) : part :=
  {| p_start := s; p_end := e; p_text := text; p_speaker := speaker; p_words := words |}.

Definition _split_segment_by_diarization (s e : pyfloat) (text : string)
    (words : option (list Word)) (turns : list SpeakerTurn) : list part :=
  if length turns =? 0 then [whole_part s e text None words]
  else
    match _build_speaker_windows s e turns with
    | [] => [whole_part s e text (_find_speaker_by_overlap s e turns) words]
    | [(_, _, speaker)] => [whole_part s e text speaker words]
    | windows =>
        match _split_words_by_speaker (default [] words) turns with
        | (_ :: _) as parts => _merge_short_splits parts MIN_SEGMENT_WORDS
        | [] =>
            let resolved := resolve_windows turns windows in
            zip_with text_part resolved (_split_text_across_windows text s e resolved)
        end
    end.

(** ** The speaker of a span *)

(** The result of the loop: the first of the turns of largest overlap, or the
    start value when no overlap is larger. *)
Lemma better_overlap_spec s e turns best :
  let r := foldl (better_overlap s e) best turns in
  (r = best ∧ ∀ t, t ∈ turns → flt best.2 (overlap s e t) = false) ∨
  ∃ l1 t l2, turns = l1 ++ t :: l2 ∧ r = (Some (st_speaker t), overlap s e t) ∧
    flt best.2 (overlap s e t) = true ∧
    (∀ u, u ∈ l1 → flt (overlap s e u) (overlap s e t) = true) ∧
    (∀ u, u ∈ l2 → flt (overlap s e t) (overlap s e u) = false).
Proof.
  revert best. induction turns as [|t turns IH]; intros best; cbn.
  { left. split; [done|]. intros t Ht. inversion Ht. }
  unfold better_overlap at 2 4. destruct (flt best.2 (overlap s e t)) eqn:Ht.
  - right. destruct (IH (Some (st_speaker t), overlap s e t)) as [[-> Hall]|H]; cbn in *.
    + exists [], t, turns. split_and!; try done. intros u Hu. inversion Hu.
    + destruct H as (l1 & x & l2 & -> & -> & Hx & H1 & H2).
      exists (t :: l1), x, l2. split_and!; try done; [by eapply flt_trans|].
      intros u [->|Hu]%elem_of_cons; [done|by apply H1].
  - destruct (IH best) as [[-> Hall]|(l1 & x & l2 & -> & -> & Hx & H1 & H2)].
    + left. split; [done|]. intros u [->|Hu]%elem_of_cons; [done|by apply Hall].
    + right. exists (t :: l1), x, l2. split_and!; try done.
      intros u [->|Hu]%elem_of_cons; [|by apply H1].
      destruct (flt (overlap s e t) (overlap s e x)) eqn:Htx; [done|].
      destruct (flt_num _ _ Hx) as [Hnb Hnx].
      rewrite (flt_neg_trans best.2 (overlap s e t) (overlap s e x)) in Hx; try done.
      by apply fmax_num_l.
Qed.

(** The speaker of a span is that of the first of the turns that overlap
    it most; there is none exactly when no turn overlaps the span. *)
Lemma find_speaker_by_overlap_spec s e turns :
  match _find_speaker_by_overlap s e turns with
  | None => ∀ t, t ∈ turns → flt fzero (overlap s e t) = false
  | Some sp => ∃ l1 t l2, turns = l1 ++ t :: l2 ∧ st_speaker t = sp ∧
      flt fzero (overlap s e t) = true ∧
      (∀ u, u ∈ l1 → flt (overlap s e u) (overlap s e t) = true) ∧
      (∀ u, u ∈ l2 → flt (overlap s e t) (overlap s e u) = false)
  end.
Proof.
  unfold _find_speaker_by_overlap.
  destruct (better_overlap_spec s e turns (None, fzero)) as [[-> H]|H]; cbn; [exact H|].
  destruct H as (l1 & t & l2 & -> & -> & H). by exists l1, t, l2.
Qed.

(** ** Windows *)

(** [ws] tile the span from [s] to [e]. *)
Fixpoint tiles (s e : pyfloat) (ws : list window) : Prop :=
  match ws with
  | [] => s = e
  | (a, b, _) :: ws => a = s ∧ flt a b = true ∧ tiles b e ws
  end.

(** Neighbours have different speakers. *)
Definition alternate (ws : list window) : Prop := chain (λ w w', w.2 ≠ w'.2) ws.

Lemma tiles_app s e ws a b sp :
  tiles s e (ws ++ [(a, b, sp)]) ↔ tiles s a ws ∧ flt a b = true ∧ b = e.
Proof.
  revert s. induction ws as [|[[x y] q] ws IH]; intros s; cbn; [naive_solver|].
  rewrite IH. naive_solver.
Qed.

Lemma push_window_tiles s m e sp acc :
  flt m e = true → tiles s m (rev acc) → tiles s e (rev (push_window acc m e sp)).
Proof.
  intros Hlt Ht. destruct acc as [|[[a b] q] acc]; cbn in *; [by subst|].
  apply tiles_app in Ht as (Ht & Hab & ->).
  case_bool_decide; cbn; rewrite !tiles_app; split_and!; try done. by eapply flt_trans.
Qed.

Lemma push_window_alternate acc s e sp :
  alternate (rev acc) → alternate (rev (push_window acc s e sp)).
Proof.
  destruct acc as [|[[a b] q] acc]; [done|]. cbn. intros Ha.
  case_bool_decide as Hq; cbn.
  - destruct acc as [|w acc]; [done|]. cbn in *. rewrite <-app_assoc in *.
    by apply chain_snoc in Ha; apply chain_snoc.
  - rewrite <-app_assoc. by apply chain_snoc.
Qed.

(** Ascending numbers. *)
Definition ascending (l : list pyfloat) : Prop := StronglySorted (λ x y, flt x y = true) l.

(** Numbers of different values. *)
Definition distinct (l : list pyfloat) : Prop := Forall num l ∧ NoDup (f_rank <$> l).

Lemma set_add_distinct x l : num x → distinct l → distinct (set_add x l).
Proof.
  intros Hx [Hn Hd]. unfold set_add. destruct (existsb (feq x) l) eqn:He; [done|].
  split; [by apply Forall_app; repeat constructor|].
  rewrite fmap_app. apply NoDup_app. split_and!; [done| |by apply NoDup_singleton].
  intros r (y & -> & Hy)%list_elem_of_fmap Hr%list_elem_of_singleton.
  apply not_true_iff_false in He. apply He, existsb_exists. exists y.
  split; [by apply list_elem_of_In|]. apply feq_spec; [done| |done].
  by eapply Forall_forall in Hn.
Qed.

Lemma elem_of_set_add x y l : x ∈ set_add y l → x = y ∨ x ∈ l.
Proof. unfold set_add. case_match; [by right|]. rewrite elem_of_app, list_elem_of_singleton. naive_solver. Qed.

Lemma set_add_incl x y l : x ∈ l → x ∈ set_add y l.
Proof. unfold set_add. case_match; [done|]. intros. apply elem_of_app. by left. Qed.

Lemma sort_ascending l : distinct l → ascending (stable_sort flt l).
Proof.
  intros [Hn Hd].
  assert (Forall num (stable_sort flt l)) as Hn' by (by rewrite stable_sort_perm).
  assert (NoDup (f_rank <$> stable_sort flt l)) as Hd' by (by rewrite stable_sort_perm).
  assert (sorted_by flt (stable_sort flt l)) as Hs.
  { apply (stable_sort_sorted flt num); [apply flt_irrefl|apply flt_trans| |done].
    intros x y z Hy. by apply flt_neg_trans. }
  induction Hs as [|x xs Hs IH Hx]; [constructor|].
  apply Forall_cons in Hn' as [Hnx Hnxs]. apply NoDup_cons in Hd' as [Hnot Hd'].
  constructor; [by apply IH|]. apply Forall_forall. intros y Hy.
  rewrite Forall_forall in Hx, Hnxs. specialize (Hx y Hy). specialize (Hnxs y Hy).
  destruct (flt x y) eqn:Hxy; [done|]. destruct Hnot. apply list_elem_of_fmap.
  exists y. split; [|done]. apply feq_spec; [done..|]. by rewrite feq_flt, Hxy, Hx.
Qed.

(** Between [s] and [e]. *)
Definition within (s e x : pyfloat) : Prop := fle s x = true ∧ fle x e = true.

Lemma turn_boundaries_inv s e acc t :
  flt s e = true → distinct acc → s ∈ acc → e ∈ acc → Forall (within s e) acc →
  let acc' := turn_boundaries s e acc t in
  distinct acc' ∧ s ∈ acc' ∧ e ∈ acc' ∧ Forall (within s e) acc'.
Proof.
  intros Hse Hd Hs He Hw acc'. subst acc'. unfold turn_boundaries.
  destruct (flt_num _ _ Hse) as [Hns Hne].
  destruct (fle (st_end t) s) eqn:H1; cbn; [done|].
  destruct (fle e (st_start t)) eqn:H2; cbn; [done|].
  assert (within s e (fmax s (st_start t))) as Ha.
  { unfold fmax. destruct (flt s (st_start t)) eqn:H; [|split; forder].
    destruct (flt_num _ _ H). split; forder. }
  assert (within s e (fmin e (st_end t))) as Hb.
  { unfold fmin. destruct (flt (st_end t) e) eqn:H; [|split; forder].
    destruct (flt_num _ _ H). split; forder. }
  split_and!.
  - apply set_add_distinct; [by apply fmin_num_l|].
    by apply set_add_distinct; [apply fmax_num_l|].
  - by do 2 apply set_add_incl.
  - by do 2 apply set_add_incl.
  - rewrite Forall_forall in *. intros x [->|[->|Hx]%elem_of_set_add]%elem_of_set_add; auto.
Qed.

Lemma boundaries_inv s e turns :
  flt s e = true →
  let l := boundaries s e turns in
  distinct l ∧ s ∈ l ∧ e ∈ l ∧ Forall (within s e) l.
Proof.
  intros Hse. destruct (flt_num _ _ Hse) as [Hns Hne]. unfold boundaries.
  assert (∀ acc, distinct acc → s ∈ acc → e ∈ acc → Forall (within s e) acc →
    let l := foldl (turn_boundaries s e) acc turns in
    distinct l ∧ s ∈ l ∧ e ∈ l ∧ Forall (within s e) l) as Hgen.
  { induction turns as [|t turns IH]; [done|]. intros acc H1 H2 H3 H4. cbn.
    destruct (turn_boundaries_inv s e acc t) as (? & ? & ? & ?); [done..|by apply IH]. }
  assert (existsb (feq e) [s] = false) as He.
  { cbn. rewrite orb_false_r. destruct (feq e s) eqn:H; [exfalso; forder|done]. }
  apply Hgen.
  - apply set_add_distinct; [done|]. split; [by repeat constructor|by apply NoDup_singleton].
  - apply set_add_incl. by left.
  - unfold set_add. rewrite He. right. by left.
  - apply Forall_forall. intros x [->|Hx%list_elem_of_singleton]%elem_of_set_add;
      subst; split; forder.
Qed.

Lemma window_loop_tiles turns s m rest acc :
  ascending (m :: rest) → tiles s m (rev acc) → alternate (rev acc) →
  let ws := rev (window_loop turns acc (m :: rest)) in
  tiles s (List.last rest m) ws ∧ alternate ws.
Proof.
  revert m acc. induction rest as [|x rest IH]; intros m acc Hs Ht Ha; [done|].
  assert (flt m x = true) as Hmx.
  { apply StronglySorted_inv in Hs as [_ Hs]. by apply Forall_cons in Hs as [? _]. }
  cbn [window_loop]. destruct (fle x m) eqn:Hle; [exfalso; forder|].
  rewrite (last_cons_default rest x m).
  apply IH; [by apply StronglySorted_inv in Hs as [? _]| |by apply push_window_alternate].
  by eapply push_window_tiles.
Qed.

(** The first and the last of an ascending list between [s] and [e]. *)
Lemma ascending_first s e x l :
  ascending (x :: l) → s ∈ x :: l → Forall (within s e) (x :: l) → x = s.
Proof.
  intros [_ Hl]%StronglySorted_inv Hs [[Hx _] _]%Forall_cons.
  apply elem_of_cons in Hs as [->|Hs]; [done|]. exfalso.
  rewrite Forall_forall in Hl. specialize (Hl _ Hs). forder.
Qed.

Lemma ascending_last s e x l :
  ascending (x :: l) → e ∈ x :: l → Forall (within s e) (x :: l) → List.last l x = e.
Proof.
  revert x. induction l as [|y l IH]; intros x Hs He Hw.
  { cbn. symmetry. by apply list_elem_of_singleton. }
  rewrite last_cons_default. apply Forall_cons in Hw as [_ Hw].
  apply StronglySorted_inv in Hs as [Hs Hx]. apply IH; [done| |done].
  apply elem_of_cons in He as [->|He]; [|done]. exfalso.
  apply Forall_cons in Hx as [Hxy _]. apply Forall_cons in Hw as [[_ Hy] _]. forder.
Qed.

Lemma speaker_windows_spec s e turns :
  flt s e = true →
  let ws := _build_speaker_windows s e turns in tiles s e ws ∧ alternate ws.
Proof.
  intros Hse. cbv zeta. unfold _build_speaker_windows.
  destruct (fle e s) eqn:Hle; [exfalso; forder|].
  destruct (boundaries_inv s e turns Hse) as (Hd & Hs & He & Hw).
  pose proof (sort_ascending _ Hd) as Ha.
  rewrite <-(elem_of_stable_sort flt) in Hs, He. rewrite <-(stable_sort_perm flt) in Hw.
  destruct (stable_sort flt (boundaries s e turns)) as [|x l]; [by apply not_elem_of_nil in Hs|].
  pose proof (ascending_first _ _ _ _ Ha Hs Hw) as ->.
  rewrite <-(ascending_last _ _ _ _ Ha He Hw) at 1. by apply window_loop_tiles.
Qed.

(** ** Splitting by words *)

Definition valid_word (w : Word) : bool := negb (flt (w_end w) (w_start w)).
Definition spoken (w : Word) : Prop := blank (w_text w) = false.

(** The words of parts, in order. *)
Definition all_words (parts : list part) : list Word := parts ≫= part_words.

Lemma all_words_app l1 l2 : all_words (l1 ++ l2) = all_words l1 ++ all_words l2.
Proof. apply bind_app. Qed.

Lemma all_words_cons p l : all_words (p :: l) = part_words p ++ all_words l.
Proof. done. Qed.

(** One of the words of the part was given the speaker of the part. *)
Definition witnessed (turns : list SpeakerTurn) (p : part) : Prop :=
  ∃ w, w ∈ part_words p ∧ _assign_speaker_to_word w turns = p_speaker p.

Lemma words_text_spoken w words : spoken w → words_text (w :: words) ≠ "".
Proof.
  unfold spoken, words_text, blank. intros Hw. cbn. rewrite Hw. cbn.
  apply String.eqb_neq in Hw. unfold join_words. destruct (map _ _); cbn; [done|].
  intros H. by destruct (strip (w_text w)).
Qed.

Lemma close_run_words current speaker :
  Forall spoken current → all_words (close_run current speaker) = current.
Proof.
  destruct 1 as [|w words Hw Hs]; [done|]. unfold close_run.
  destruct (last (w :: words)) eqn:Hl; [|by apply last_None in Hl].
  rewrite (proj2 (String.eqb_neq _ _)) by (by apply words_text_spoken).
  unfold all_words. cbn. by rewrite app_nil_r.
Qed.

(** No spoken word is lost or moved. *)
Lemma split_runs_words turns current speaker words :
  Forall spoken current → Forall spoken words →
  all_words (split_runs turns current speaker words) =
    current ++ List.filter valid_word words.
Proof.
  intros Hc Hw. revert current speaker Hc.
  induction Hw as [|w words Hw Hws IH]; intros current speaker Hc; cbn.
  { by rewrite close_run_words, app_nil_r. }
  unfold valid_word at 1. destruct (flt (w_end w) (w_start w)); cbn; [by apply IH|].
  destruct (negb _ && negb _).
  - rewrite all_words_app, close_run_words, IH by (done || by repeat constructor). done.
  - rewrite IH by (apply Forall_app; by repeat constructor). by rewrite <-app_assoc.
Qed.

(** The words of a run were all given its speaker. *)
Definition run_of (turns : list SpeakerTurn) (speaker : option string) (words : list Word) : Prop :=
  Forall (λ w, _assign_speaker_to_word w turns = speaker) words.

Lemma close_run_witnessed turns current speaker :
  run_of turns speaker current → Forall (witnessed turns) (close_run current speaker).
Proof.
  destruct 1 as [|w words Hw Hs]; [constructor|]. unfold close_run.
  destruct (last (w :: words)); [|constructor].
  case_match; repeat constructor. exists w. split; [by left|done].
Qed.

Lemma split_runs_witnessed turns current speaker words :
  run_of turns speaker current →
  Forall (witnessed turns) (split_runs turns current speaker words).
Proof.
  revert current speaker. induction words as [|w words IH]; intros current speaker Hc; cbn.
  { by apply close_run_witnessed. }
  destruct (flt (w_end w) (w_start w)); [by apply IH|].
  destruct (length current =? 0) eqn:Hl; cbn.
  - apply Nat.eqb_eq, nil_length_inv in Hl as ->. apply IH. by repeat constructor.
  - case_bool_decide as Hsp; cbn.
    + apply IH. apply Forall_app. split; [by rewrite Hsp|by repeat constructor].
    + apply Forall_app. split; [by apply close_run_witnessed|apply IH; by repeat constructor].
Qed.

(** ** Merging short parts *)

Lemma part_words_merge_left t s : part_words (merge_left t s) = part_words t ++ part_words s.
Proof. unfold merge_left, part_words at 1. cbn. by destruct (_ ++ _). Qed.
Lemma part_words_merge_right s t : part_words (merge_right s t) = part_words s ++ part_words t.
Proof. unfold merge_right, part_words at 1. cbn. by destruct (_ ++ _). Qed.

(** A pass merges two neighbours: it keeps the words in order and whatever a
    merge keeps, and removes one part. *)
Lemma merge_pass_Some (P : part → Prop) n before parts l :
  (∀ s t, P s → P t → P (merge_left t s) ∧ P (merge_right s t)) →
  Forall P before → Forall P parts → merge_pass n before parts = Some l →
  S (length l) = length before + length parts ∧ Forall P l ∧
  all_words l = all_words (rev before ++ parts).
Proof.
  intros HP Hb Hp.
  assert (∀ s t, P s → P t → P (merge_left t s)) as HL by (intros; by apply HP).
  assert (∀ s t, P s → P t → P (merge_right s t)) as HR by (intros; by apply HP).
  revert before Hb. induction Hp as [|s after Hs Ha IH]; intros before Hb; cbn; [done|].
  assert (merge_pass n (s :: before) after = Some l →
    S (length l) = length before + S (length after) ∧ Forall P l ∧
    all_words l = all_words (rev before ++ s :: after)) as Hnext.
  { intros Hl'. destruct (IH (s :: before)) as (H1 & H2 & H3); [by constructor|done|].
    split_and!; [cbn in *; lia|done|]. rewrite H3. cbn. by rewrite <-app_assoc. }
  destruct (n <=? word_count s); [by apply Hnext|].
  destruct Hb as [|p before Hp Hb]; destruct Ha as [|m after Hm Ha];
    [by apply Hnext|..]; cbn; rewrite <-?app_assoc.
  - intros [= <-]. split_and!; [done|constructor; [by apply HR|done]|].
    by rewrite !all_words_cons, part_words_merge_right, app_assoc.
  - intros [= <-]. rewrite length_app, length_rev. split_and!; [cbn; lia| |].
    + apply Forall_app. split; [by apply Forall_rev|]. repeat constructor. by apply HL.
    + by rewrite !all_words_app, !all_words_cons, part_words_merge_left, <-!app_assoc.
  - destruct (word_count m <=? word_count p); intros [= <-];
      rewrite length_app, ?length_app, length_rev; (split_and!; [cbn; lia| |]).
    + apply Forall_app. split; [by apply Forall_rev|]. constructor; [by apply HL|by constructor].
    + by rewrite !all_words_app, !all_words_cons, part_words_merge_left, <-!app_assoc.
    + apply Forall_app. split; [by apply Forall_rev|].
      constructor; [done|]. constructor; [by apply HR|done].
    + by rewrite !all_words_app, !all_words_cons, part_words_merge_right, <-!app_assoc.
Qed.

Lemma merge_pass_None n before parts :
  merge_pass n before parts = None →
  Forall (λ p, n <= word_count p) parts ∨ before = [] ∧ length parts = 1.
Proof.
  revert before. induction parts as [|s after IH]; intros before; cbn; [by left|].
  destruct (Nat.leb_spec n (word_count s)).
  - intros [Hl|[? ?]]%IH; [left; by constructor|done].
  - destruct before, after; try done; [by right|]. by case_match.
Qed.

Lemma merge_short_spec (P : part → Prop) n fuel parts :
  (∀ s t, P s → P t → P (merge_left t s) ∧ P (merge_right s t)) →
  Forall P parts → length parts <= fuel →
  let l := merge_short fuel n parts in
  Forall P l ∧ all_words l = all_words parts ∧
  (Forall (λ p, n <= word_count p) l ∨ length l = 1).
Proof.
  intros HP. revert parts. induction fuel as [|fuel IH]; intros parts Hp Hl; cbn.
  { destruct parts; [|cbn in *; lia]. by split_and!; [| |left]. }
  destruct (merge_pass n [] parts) as [l|] eqn:Hm.
  - apply (merge_pass_Some P) in Hm as (Hlen & Hpl & Hw); [|done..]. cbn in Hlen.
    change (rev [] ++ parts) with parts in Hw.
    rewrite <-Hw. apply IH; [done|lia].
  - apply merge_pass_None in Hm as [?|[_ ?]]; split_and!; auto.
Qed.

Lemma split_words_spec turns words :
  Forall spoken words → existsb valid_word words = true →
  let parts := _split_words_by_speaker words turns in
  parts ≠ [] ∧ all_words parts = List.filter valid_word (sort_words words) ∧
  Forall (witnessed turns) parts.
Proof.
  intros Hs (w & Hw & Hv)%existsb_exists. cbv zeta.
  assert (all_words (_split_words_by_speaker words turns) =
    List.filter valid_word (sort_words words)) as Hall.
  { unfold _split_words_by_speaker. rewrite split_runs_words; [done|constructor|].
    unfold sort_words. by rewrite stable_sort_perm. }
  split_and!; [|done|apply split_runs_witnessed; constructor].
  intros Hnil. rewrite Hnil in Hall. change (all_words []) with (@nil Word) in Hall.
  assert (w ∈ List.filter valid_word (sort_words words)) as H.
  { apply elem_of_filter_b. split; [|done]. unfold sort_words.
    by rewrite elem_of_stable_sort, list_elem_of_In. }
  rewrite <-Hall in H. inversion H.
Qed.

Lemma witnessed_merge turns s t :
  witnessed turns s → witnessed turns t →
  witnessed turns (merge_left t s) ∧ witnessed turns (merge_right s t).
Proof.
  intros _ (w & Hw & Hsp). split; exists w; (split; [|done]).
  - rewrite part_words_merge_left. apply elem_of_app. by left.
  - rewrite part_words_merge_right. apply elem_of_app. by right.
Qed.

Lemma word_count_witnessed turns p : witnessed turns p → word_count p = length (part_words p).
Proof.
  intros (w & Hw & _). unfold word_count, part_words in *.
  destruct (p_words p) as [[|]|]; [by inversion Hw|done|by inversion Hw].
Qed.

Lemma merge_short_splits_spec turns parts :
  parts ≠ [] → Forall (witnessed turns) parts →
  let l := _merge_short_splits parts MIN_SEGMENT_WORDS in
  all_words l = all_words parts ∧ Forall (witnessed turns) l ∧
  (length l = 1 ∨ Forall (λ p, MIN_SEGMENT_WORDS <= length (part_words p)) l).
Proof.
  intros Hne Hw. cbv zeta. unfold _merge_short_splits.
  destruct (Nat.leb_spec (length parts) 1) as [Hl|Hl]; cbn [orb].
  { split_and!; [done|done|]. left. destruct parts as [|p [|]]; done || (cbn in Hl; lia). }
  change (MIN_SEGMENT_WORDS <=? 1) with false. cbv iota.
  destruct (merge_short_spec (witnessed turns) MIN_SEGMENT_WORDS (length parts) parts)
    as (H1 & H2 & H3); [apply witnessed_merge|done|lia|].
  split_and!; [done|done|]. destruct H3 as [H3|H3]; [right|by left].
  apply Forall_forall. intros p Hp. rewrite !Forall_forall in *.
  rewrite <-(word_count_witnessed turns) by auto. by apply H3.
Qed.

(** C16: splitting a segment by its words.  When a segment whose words all have
    text spans several speaker windows, the words of its parts, put together,
    are its words in time order (those that end before they start dropped): none
    is lost, repeated or moved across another.  Every part has the speaker of
    one of its words, and at least two words unless it is the only part. *)
Theorem split_segment_words s e text words turns :
  2 <= length (_build_speaker_windows s e turns) → turns ≠ [] →
  Forall spoken words → existsb valid_word words = true →
  let parts := _split_segment_by_diarization s e text (Some words) turns in
  all_words parts = List.filter valid_word (sort_words words) ∧
  Forall (witnessed turns) parts ∧
  (length parts = 1 ∨ Forall (λ p, MIN_SEGMENT_WORDS <= length (part_words p)) parts).
Proof.
  intros Hwin Ht Hs Hv. cbv zeta. unfold _split_segment_by_diarization.
  destruct turns as [|t turns]; [done|]. cbn [length Nat.eqb].
  destruct (_build_speaker_windows s e (t :: turns)) as [|[[a b] sp] [|w ws]]; [cbn in *; lia..|].
  change (default [] (Some words)) with words.
  destruct (split_words_spec (t :: turns) words Hs Hv) as (Hne & Hall & Hw).
  destruct (_split_words_by_speaker words (t :: turns)) as [|p parts]; [done|].
  rewrite <-Hall. by apply merge_short_splits_spec.
Qed.

(** ** Splitting a text *)

Lemma join_alter_last {A} (x : A) i (l : list (list A)) :
  i < length l → Forall (.= []) (drop (S i) l) →
  List.concat (alter (λ b, b ++ [x]) i l) = List.concat l ++ [x].
Proof.
  revert i. induction l as [|b l IH]; intros i Hi Hd; [cbn in *; lia|].
  destruct i as [|i]; cbn in *.
  - assert (List.concat l = []) as ->.
    { rewrite drop_0 in Hd. clear -Hd. induction Hd as [|c l -> _ IH]; [done|exact IH]. }
    by rewrite !app_nil_r.
  - rewrite IH by (done || lia). by rewrite app_assoc.
Qed.

Lemma windows_passed_lt m ws : ws ≠ [] → windows_passed m ws < length ws.
Proof.
  induction ws as [|[[a b] sp] [|w ws] IH]; [done|cbn; lia|]. intros _. cbn -[windows_passed] in *.
  cbn. destruct (fle b m); [|lia]. specialize (IH (ltac:(done))). cbn in IH. lia.
Qed.

(** The buckets after the current one are empty. *)
Lemma fill_buckets_spec s d n ws idx wi tokens buckets :
  length buckets = length ws → wi < length ws → Forall (.= []) (drop (S wi) buckets) →
  let l := fill_buckets s d n ws idx wi tokens buckets in
  length l = length ws ∧ List.concat l = List.concat buckets ++ tokens.
Proof.
  revert idx wi buckets. induction tokens as [|x tokens IH]; intros idx wi buckets Hl Hwi Hd; cbn.
  { by rewrite app_nil_r. }
  pose proof (windows_passed_lt (token_midpoint s d idx n) (drop wi ws)) as Hp.
  rewrite length_drop in Hp.
  set (k := windows_passed _ _) in *.
  assert (k < length ws - wi) as Hk.
  { apply Hp. intros Hnil. apply (f_equal length) in Hnil. rewrite length_drop in Hnil. cbn in Hnil. lia. }
  assert (Forall (.= []) (drop (S (wi + k)) buckets)) as Hd'.
  { replace (S (wi + k)) with (S wi + k) by lia. rewrite <-drop_drop. by apply Forall_drop. }
  destruct (IH (S idx) (wi + k) (alter (λ b, b ++ [x]) (wi + k) buckets)) as [H1 H2].
  - by rewrite length_alter.
  - lia.
  - rewrite drop_alter. case_decide; [lia|exact Hd'].
  - split; [done|]. rewrite H2, join_alter_last by (done || lia). by rewrite <-app_assoc.
Qed.

Lemma split_text_spec text s e ws :
  ws ≠ [] →
  let l := _split_text_across_windows text s e ws in
  length l = length ws ∧ (l ≫= py_split) = py_split text.
Proof.
  assert (∀ (l : list window), (map (λ _, "") l) ≫= py_split = []) as Hempty.
  { induction l as [|x l IH]; [done|exact IH]. }
  pose proof (py_split_words text) as Hwords.
  destruct ws as [|w [|w' ws]]; [done| |]; intros _; cbv zeta; unfold _split_text_across_windows.
  { split; [done|]. cbn. by rewrite app_nil_r, py_split_join. }
  destruct (length (py_split text) =? 0) eqn:Hn.
  { apply Nat.eqb_eq, nil_length_inv in Hn as ->. split; [by rewrite length_map|apply Hempty]. }
  destruct (fle (fsub e s) fzero).
  { split; [cbn; by rewrite length_map|]. rewrite bind_cons, Hempty, app_nil_r. by apply py_split_join. }
  set (all := w :: w' :: ws).
  destruct (fill_buckets_spec s (fsub e s) (length (py_split text)) all 0 0 (py_split text)
    (map (λ _, []) all)) as [Hlen Hj]; [by rewrite length_map|cbn; lia| |].
  { apply Forall_drop, Forall_forall. intros x (y & -> & _)%list_elem_of_fmap. done. }
  set (l := fill_buckets _ _ _ _ _ _ _ _) in *. split; [by rewrite length_map|].
  assert (List.concat l = py_split text) as Hjoin.
  { rewrite Hj. replace (List.concat _) with (@nil string); [done|].
    clear. induction all as [|x l IH]; [done|exact IH]. }
  rewrite <-Hjoin. rewrite <-Hjoin in Hwords. clear -Hwords.
  induction l as [|b l IH]; [done|]. cbn in Hwords. apply Forall_app in Hwords as [Hb Hl].
  cbn [map List.concat]. rewrite bind_cons, IH by done. by rewrite py_split_join.
Qed.

(** ** Splitting a segment without words *)

Lemma nearest_from_some at_time best turns :
  is_Some best ∨ turns ≠ [] → is_Some (nearest_from at_time best turns).
Proof.
  revert best. induction turns as [|t turns IH]; intros best H; cbn.
  { destruct H as [[x ->]|]; [by eexists|done]. }
  destruct (in_turn at_time t); [by eexists|]. apply IH. left.
  destruct best as [[sp d]|]; [case_match|]; by eexists.
Qed.

Lemma resolve_windows_gen turns s m e acc ws :
  tiles m e ws → tiles s m (rev acc) → alternate (rev acc) →
  let l := rev (foldl (resolve_window turns) acc ws) in tiles s e l ∧ alternate l.
Proof.
  revert m acc. induction ws as [|[[a b] sp] ws IH]; intros m acc Hw Ha Hal; cbn in *.
  { by subst. }
  destruct Hw as (-> & Hab & Hw). apply (IH b); [done| |by apply push_window_alternate].
  by eapply push_window_tiles.
Qed.

Lemma push_window_speakers acc s e sp :
  is_Some sp → Forall (λ w : window, is_Some w.2) acc →
  Forall (λ w : window, is_Some w.2) (push_window acc s e sp).
Proof.
  intros Hsp Ha. destruct Ha as [|[[a b] q] acc Hq Ha]; cbn; [by repeat constructor|].
  case_bool_decide; by repeat constructor.
Qed.

Lemma resolve_windows_speakers turns ws :
  turns ≠ [] → Forall (λ w : window, is_Some w.2) (resolve_windows turns ws).
Proof.
  intros Ht. unfold resolve_windows. apply Forall_rev.
  assert (∀ acc, Forall (λ w : window, is_Some w.2) acc →
    Forall (λ w : window, is_Some w.2) (foldl (resolve_window turns) acc ws)) as H.
  { induction ws as [|[[a b] sp] ws IH]; intros acc Ha; [done|]. cbn. apply IH.
    apply push_window_speakers; [|done]. destruct sp; [by eexists|].
    apply nearest_from_some. by right. }
  apply H. constructor.
Qed.

(** The window of a part. *)
Definition part_window (p : part) : window := (p_start p, p_end p, p_speaker p).

Lemma zip_text_parts ws texts :
  length texts = length ws →
  map part_window (zip_with text_part ws texts) = ws ∧
  map p_text (zip_with text_part ws texts) = texts ∧
  Forall (λ p, p_words p = None) (zip_with text_part ws texts).
Proof.
  revert texts. induction ws as [|[[a b] sp] ws IH]; intros [|t texts] Hl; try done.
  cbn in *. destruct (IH texts) as (H1 & H2 & H3); [lia|]. rewrite H1, H2. by repeat constructor.
Qed.

Lemma bind_map {A B C} (f : A → B) (g : B → list C) l : map f l ≫= g = l ≫= (λ x, g (f x)).
Proof. induction l as [|x l IH]; [done|]. cbn in *. by rewrite IH. Qed.

(** Splitting a segment that has no usable words.  The parts tile the
    segment from its start to its end, no two neighbours have the same speaker,
    and the words of its text are distributed among them in order, none lost or
    repeated; when there are several parts every one has a speaker. *)
Theorem split_segment_text s e text words turns :
  flt s e = true → turns ≠ [] → _split_words_by_speaker (default [] words) turns = [] →
  let parts := _split_segment_by_diarization s e text words turns in
  tiles s e (map part_window parts) ∧ alternate (map part_window parts) ∧
  (parts ≫= λ p, py_split (p_text p)) = py_split text ∧
  (length parts = 1 ∨ Forall (λ p, is_Some (p_speaker p)) parts).
Proof.
  intros Hse Ht Hw. cbv zeta. unfold _split_segment_by_diarization. rewrite Hw.
  destruct (speaker_windows_spec s e turns Hse) as [Htiles Halt].
  destruct turns as [|t turns]; [done|]. cbn [length Nat.eqb].
  destruct (_build_speaker_windows s e (t :: turns)) as [|[[a b] sp] [|w ws]].
  { cbn in Htiles. subst. by rewrite flt_irrefl in Hse. }
  { cbn in *. destruct Htiles as (-> & Hab & ->). rewrite app_nil_r.
    split_and!; try done. by left. }
  set (resolved := resolve_windows _ _).
  destruct (resolve_windows_gen (t :: turns) s s e [] _ Htiles eq_refl I) as [Hr Hra].
  fold (resolve_windows (t :: turns) ((a, b, sp) :: w :: ws)) in Hr, Hra.
  fold resolved in Hr, Hra.
  pose proof (resolve_windows_speakers (t :: turns) ((a, b, sp) :: w :: ws) Ht) as Hsp.
  fold resolved in Hsp.
  destruct (split_text_spec text s e resolved) as [Hlen Htext].
  { intros Hnil. rewrite Hnil in Hr. cbn in Hr. subst. by rewrite flt_irrefl in Hse. }
  destruct (zip_text_parts resolved _ Hlen) as (H1 & H2 & _).
  set (parts := zip_with _ _ _) in *. rewrite <-bind_map, H2. rewrite H1.
  split_and!; [done|done|done|right]. rewrite <-H1 in Hsp.
  exact (proj1 (List.Forall_map part_window (λ w : window, is_Some w.2) parts) Hsp).
Qed.

(** ** Examples *)

Module DiarizationDemo.
Definition sec (n : Z) : pyfloat := float_lit n 100.
Definition turn (sp : string) (s e : Z) : SpeakerTurn := {|
  st_speaker := sp; st_start := sec s; st_end := sec e; st_confidence := None;
  st_overlapping_speakers := None |}.
Definition word (t : string) (s e : Z) : Word := {|
  w_text := t; w_start := sec s; w_end := sec e; w_confidence := None;
  w_characters := JNull; w_phonemes := JNull; w_alignment_method := None;
  w_language := None |}.

Definition turns : list SpeakerTurn :=
  [turn "A" 0 200; turn "B" 200 400; turn "A" 390 395; turn "B" 405 600].
Definition words : list Word :=
  [word "how" 10 40; word "are" 50 90; word "you?" 150 230; word "fine" 240 300;
   word "thanks" 310 380].

Example smoothed :
  map (λ t, (st_speaker t, st_start t, st_end t))
    (_smooth_diarization_turns turns MIN_TURN_DURATION_S) =
  [("A", sec 0, sec 200); ("B", sec 200, sec 400); ("B", sec 405, sec 600)].
Proof. vm_compute. reflexivity. Qed.

Example split_with_words :
  map (λ p, (p_speaker p, p_text p))
    (_split_segment_by_diarization (sec 0) (sec 400) "how are you? fine thanks"
       (Some words) turns) =
  [(Some "A", "how are you?"); (Some "B", "fine thanks")].
Proof. vm_compute. reflexivity. Qed.

Example split_without_words :
  map (λ p, (p_speaker p, p_text p))
    (_split_segment_by_diarization (sec 0) (sec 400) "how are you? fine thanks" None turns) =
  [(Some "A", "how are"); (Some "B", "you? fine thanks")].
Proof. vm_compute. reflexivity. Qed.
End DiarizationDemo.

(** The demonstration segment, with its words and without. *)
Lemma split_segment_words_witness :
  let parts := _split_segment_by_diarization (DiarizationDemo.sec 0) (DiarizationDemo.sec 400)
                 "" (Some DiarizationDemo.words) DiarizationDemo.turns in
  length parts = 2 ∧ all_words parts = DiarizationDemo.words.
Proof.
  cbv zeta. split; [vm_compute; reflexivity|].
  destruct (split_segment_words (DiarizationDemo.sec 0) (DiarizationDemo.sec 400) ""
    DiarizationDemo.words DiarizationDemo.turns) as [H _].
  - vm_compute. lia.
  - done.
  - apply Forall_forall. intros w Hw. unfold spoken.
    repeat (apply elem_of_cons in Hw as [->|Hw]; [vm_compute; reflexivity|]). inversion Hw.
  - vm_compute. reflexivity.
  - rewrite H. vm_compute. reflexivity.
Defined.

Lemma split_segment_text_witness :
  let parts := _split_segment_by_diarization (DiarizationDemo.sec 0) (DiarizationDemo.sec 400)
                 "how are you? fine thanks" None DiarizationDemo.turns in
  length parts = 2 ∧ (parts ≫= λ p, py_split (p_text p)) = ["how"; "are"; "you?"; "fine"; "thanks"].
Proof.
  cbv zeta. split; [vm_compute; reflexivity|].
  destruct (split_segment_text (DiarizationDemo.sec 0) (DiarizationDemo.sec 400)
    "how are you? fine thanks" None DiarizationDemo.turns) as (_ & _ & H & _);
    [vm_compute; reflexivity|done|vm_compute; reflexivity|].
  rewrite H. vm_compute. reflexivity.
Defined.
