(* ===== verification/Smoothing.v ===== *)
(** * Smoothing keeps what was said

    The contract of [_smooth_diarization_turns]: no span of speech is lost, long
    turns keep their speaker, and the result is ordered and merged. *)

From S2P Require Import Prelude PyValue Times Diarization.

Definition num_turn (t : SpeakerTurn) : Prop := num (st_start t) ∧ num (st_end t).

(** [o] spans [t]; [extends] also has its speaker. *)
Definition covers (o t : SpeakerTurn) : Prop :=
  fle (st_start o) (st_start t) = true ∧ fle (st_end t) (st_end o) = true.
Definition extends (o t : SpeakerTurn) : Prop := covers o t ∧ st_speaker o = st_speaker t.

Lemma covers_refl t : num_turn t → covers t t.
Proof. intros [? ?]. split; by apply fle_refl. Qed.
Lemma covers_trans a b c : covers a b → covers b c → covers a c.
Proof. intros [? ?] [? ?]. split; by eapply fle_trans. Qed.
Lemma extends_refl t : num_turn t → extends t t.
Proof. intros. split; [by apply covers_refl|done]. Qed.
Lemma extends_trans a b c : extends a b → extends b c → extends a c.
Proof. intros [? ?] [? ?]. split; [by eapply covers_trans|congruence]. Qed.

(** ** Merging neighbours *)

Definition starts_after (t u : SpeakerTurn) : Prop := fle (st_start t) (st_start u) = true.

(** Sorted by their start. *)
Definition by_start (l : list SpeakerTurn) : Prop := StronglySorted starts_after l.

Lemma merge_turn_extends acc t :
  Forall num_turn (t :: acc) → Forall (λ p, starts_after p t) acc →
  (∃ o, o ∈ merge_turn acc t ∧ extends o t) ∧
  (∀ p, p ∈ acc → ∃ o, o ∈ merge_turn acc t ∧ extends o p).
Proof.
  intros [Ht Ha]%Forall_cons Hs.
  assert (∀ p, p ∈ acc → extends p p) as Hrefl.
  { intros p Hp. apply extends_refl. by eapply Forall_forall in Ha. }
  pose proof (extends_refl t Ht) as Htt. destruct Ht as [Hts Hte].
  assert ((∃ o, o ∈ t :: acc ∧ extends o t) ∧
    (∀ p, p ∈ acc → ∃ o, o ∈ t :: acc ∧ extends o p)) as Hpush.
  { split; [exists t; split; [by left|done]|]. intros p Hp. exists p. split; [by right|auto]. }
  destruct acc as [|prev rest]; [exact Hpush|]. cbn [merge_turn].
  destruct (String.eqb_spec (st_speaker t) (st_speaker prev)) as [Hsp|Hsp]; [|exact Hpush].
  destruct (fle (st_start t) (st_end prev)); [|exact Hpush].
  apply Forall_cons in Ha as [[Hps Hpe] _]. apply Forall_cons in Hs as [Hs _].
  unfold starts_after in Hs. split.
  - eexists. split; [by left|]. split; [split; cbn; [done|forder]|done].
  - intros p [->|Hp]%elem_of_cons; [|exists p; split; [by right|by apply Hrefl; right]].
    eexists. split; [by left|]. split; [split; cbn; [by apply fle_refl|forder]|done].
Qed.

(** [b] follows [a] in a merged list: not earlier, and apart from it when the
    speaker is the same. *)
Definition follows (a b : SpeakerTurn) : Prop :=
  starts_after a b ∧ (st_speaker a = st_speaker b → flt (st_end a) (st_start b) = true).

(** The state of the merging loop: [acc] reversed is merged, [l] is to come. *)
Record merging (acc l : list SpeakerTurn) : Prop := {
  mg_acc : Forall num_turn acc;
  mg_num : Forall num_turn l;
  mg_sorted : by_start l;
  mg_after : ∀ p t, p ∈ acc → t ∈ l → starts_after p t;
  mg_chain : chain follows (rev acc);
}.

Lemma chain_head (x y : SpeakerTurn) rest :
  st_start x = st_start y → st_speaker x = st_speaker y →
  chain follows (rev (y :: rest)) → chain follows (rev (x :: rest)).
Proof.
  intros H1 H2. destruct rest as [|z rest]; [done|]. cbn. rewrite <-!app_assoc, !chain_snoc.
  unfold follows, starts_after. by rewrite H1, H2.
Qed.

Lemma merge_turn_merging acc t l : merging acc (t :: l) → merging (merge_turn acc t) l.
Proof.
  intros [Ha Hn Hs Haf Hc].
  apply Forall_cons in Hn as [Ht Hn]. apply StronglySorted_inv in Hs as [Hs Hst].
  rewrite Forall_forall in Hst.
  assert (∀ p u, p ∈ acc → u ∈ l → starts_after p u) as Haf' by (intros; apply Haf; [done|by right]).
  destruct acc as [|prev rest]; cbn.
  { split; [by apply Forall_singleton|done|done| |done].
    intros p u Hp%list_elem_of_singleton Hu. subst. by apply Hst. }
  assert (starts_after prev t) as Hpt by (apply Haf; by left).
  assert (num_turn prev) as Hp by (by apply Forall_cons in Ha as [? _]).
  assert (merging (t :: prev :: rest) l ∨ st_speaker t = st_speaker prev ∧
    fle (st_start t) (st_end prev) = true) as Hpush.
  { destruct (decide (st_speaker t = st_speaker prev ∧ fle (st_start t) (st_end prev) = true))
      as [?|Hno]; [by right|left].
    split; [by constructor|done|done| |].
    - intros p u [->|Hpu]%elem_of_cons Hu; [by apply Hst|by apply Haf'].
    - cbn. rewrite <-app_assoc. apply chain_snoc. split; [done|]. split; [done|].
      intros Hsp. destruct Hp, Ht. destruct (fle (st_start t) (st_end prev)) eqn:Hle; [naive_solver|].
      forder. }
  destruct (String.eqb_spec (st_speaker t) (st_speaker prev)); [|by destruct Hpush as [?|[? _]]].
  destruct (fle (st_start t) (st_end prev)) eqn:Hle; [|by destruct Hpush as [?|[_ ?]]].
  split; [|done|done| |].
  - apply Forall_cons in Ha as [_ Ha]. constructor; [|done]. destruct Hp, Ht. split; cbn; [done|by apply fmax_num].
  - intros p u [->|Hpu]%elem_of_cons Hu; [by apply (Haf' prev); [left|]|by apply Haf'; [right|]].
  - by apply (chain_head _ prev).
Qed.

Lemma merge_loop acc l :
  merging acc l →
  merging (foldl merge_turn acc l) [] ∧
  (∀ t, t ∈ acc ∨ t ∈ l → ∃ o, o ∈ foldl merge_turn acc l ∧ extends o t).
Proof.
  revert acc. induction l as [|t l IH]; intros acc Hm; cbn.
  { split; [done|]. intros t [Ht|Ht]; [|inversion Ht]. exists t. split; [done|].
    apply extends_refl. destruct Hm as [Ha _ _ _ _]. by eapply Forall_forall in Ha. }
  destruct (IH _ (merge_turn_merging _ _ _ Hm)) as [Hm' Hall]. split; [done|].
  destruct (merge_turn_extends acc t) as [Ht Ha].
  { destruct Hm as [? Hn _ _ _]. apply Forall_cons in Hn as [? _]. by constructor. }
  { apply Forall_forall. intros p Hp. destruct Hm as [_ _ _ Haf _]. apply Haf; [done|by left]. }
  assert (∀ u, (∃ o, o ∈ merge_turn acc t ∧ extends o u) →
    ∃ o, o ∈ foldl merge_turn (merge_turn acc t) l ∧ extends o u) as Hstep.
  { intros u (o & Ho & Hou). destruct (Hall o) as (o' & ? & ?); [by left|].
    exists o'. split; [done|by eapply extends_trans]. }
  intros u [Hu|[->|Hu]%elem_of_cons]; [by apply Hstep, Ha|by apply Hstep|by apply Hall; right].
Qed.

Lemma sort_turns_by_start l : Forall num_turn l → by_start (sort_turns l).
Proof.
  intros Hn.
  assert (sorted_by (λ a b, pair_lt (turn_key a) (turn_key b)) (sort_turns l)) as Hs.
  { apply (stable_sort_sorted _ num_turn); [| | |done].
    - intros x. apply pair_lt_irrefl.
    - intros x y z. apply pair_lt_trans.
    - intros x y z Hy. by apply pair_lt_neg_trans. }
  assert (Forall num_turn (sort_turns l)) as Hn' by (unfold sort_turns; by rewrite stable_sort_perm).
  induction Hs as [|x xs Hs IH Hx]; [constructor|].
  apply Forall_cons in Hn' as [[Hx1 _] Hxs]. constructor; [by apply IH|].
  rewrite !Forall_forall in *. intros y Hy. destruct (Hxs y Hy) as [Hy1 _].
  by apply (pair_lt_false_fst (turn_key x) (turn_key y)); [..|apply Hx].
Qed.

(** What merging a list of turns gives. *)
Lemma merge_sorted_spec l :
  Forall num_turn l →
  let out := _merge_adjacent_turns (sort_turns l) in
  chain follows out ∧ ∀ t, t ∈ l → ∃ o, o ∈ out ∧ extends o t.
Proof.
  intros Hn. cbv zeta. unfold _merge_adjacent_turns.
  destruct (merge_loop [] (sort_turns l)) as [[_ _ _ _ Hc] Hall].
  { split; [done|unfold sort_turns; by rewrite stable_sort_perm|by apply sort_turns_by_start| |done].
    intros p t Hp. inversion Hp. }
  split; [done|]. intros t Ht.
  destruct (Hall t) as (o & Ho & Hot); [right; unfold sort_turns; by rewrite elem_of_stable_sort|].
  exists o. split; [|done]. by apply elem_of_rev.
Qed.

(** Merging invents no speaker and no turn. *)
Lemma merge_turn_speakers (P : string → Prop) acc t :
  P (st_speaker t) → Forall (λ o, P (st_speaker o)) acc →
  Forall (λ o, P (st_speaker o)) (merge_turn acc t) ∧ length (merge_turn acc t) <= S (length acc).
Proof.
  intros Ht [|prev rest Hp Hr]; cbn; [by repeat constructor|].
  case_match; cbn; (split; [by repeat constructor|lia]).
Qed.

Lemma merge_speakers (P : string → Prop) l :
  Forall (λ o, P (st_speaker o)) l →
  Forall (λ o, P (st_speaker o)) (_merge_adjacent_turns l) ∧
  length (_merge_adjacent_turns l) <= length l.
Proof.
  intros Hl. unfold _merge_adjacent_turns.
  assert (∀ acc, Forall (λ o, P (st_speaker o)) acc →
    Forall (λ o, P (st_speaker o)) (foldl merge_turn acc l) ∧
    length (foldl merge_turn acc l) <= length acc + length l) as H.
  { induction Hl as [|t l Ht Hl IH]; intros acc Ha; cbn; [split; [done|lia]|].
    destruct (merge_turn_speakers P acc t Ht Ha) as [H1 H2].
    destruct (IH _ H1). split; [done|lia]. }
  destruct (H []) as [H1 H2]; [done|]. rewrite length_rev. split; [by apply Forall_rev|done].
Qed.

(** ** Absorbing short turns *)

Section absorb.
Context (flags : list bool) (sorted : list SpeakerTurn).
Hypothesis flags_length : length flags = length sorted.
Hypothesis some_kept : ∃ i, is_kept flags i = true.

Lemma is_kept_lt i : is_kept flags i = true → i < length sorted.
Proof.
  unfold is_kept. rewrite <-flags_length. intros H.
  destruct (flags !! i) eqn:Hi; [by eapply lookup_lt_Some|done].
Qed.

Lemma kept_turns_length : length (kept_turns flags sorted) = kept_by_orig_idx flags (length sorted).
Proof.
  unfold kept_turns, kept_by_orig_idx.
  assert (∀ l, (∀ i, i ∈ l → i < length sorted) →
    length (omap (λ i, if is_kept flags i then sorted !! i else None) l) =
    length (List.filter (is_kept flags) l)) as H.
  { induction l as [|i l IH]; intros Hl; [done|]. cbn. destruct (is_kept flags i); cbn.
    - destruct (lookup_lt_is_Some_2 sorted i) as [t ->]; [apply Hl; by left|]. cbn.
      rewrite IH; [done|]. intros j Hj. apply Hl. by right.
    - apply IH. intros j Hj. apply Hl. by right. }
  apply H. intros i Hi%elem_of_seq. lia.
Qed.

Lemma kept_idx_lt i : is_kept flags i = true → kept_by_orig_idx flags i < length (kept_turns flags sorted).
Proof.
  intros Hk. rewrite kept_turns_length. pose proof (is_kept_lt i Hk) as Hi. unfold kept_by_orig_idx.
  replace (length sorted) with (i + S (length sorted - S i)) by lia.
  rewrite seq_app, List.filter_app, length_app. cbn. rewrite Hk. cbn. lia.
Qed.

(** An absorbed turn has a neighbour that is kept. *)
Lemma neighbour_exists i :
  is_kept flags i = false → is_Some (prev_orig flags i) ∨ is_Some (nxt_orig flags i).
Proof.
  intros Hi. destruct some_kept as [j Hj].
  pose proof (is_kept_lt j Hj) as Hlt. rewrite <-flags_length in Hlt.
  destruct (prev_orig flags i) eqn:Hp; [left; by eexists|].
  destruct (nxt_orig flags i) eqn:Hn; [right; by eexists|].
  unfold prev_orig in Hp. unfold nxt_orig in Hn.
  rewrite find_first_None in Hp. rewrite find_first_None in Hn.
  destruct (decide (j = i)) as [->|Hne]; [congruence|].
  destruct (decide (j < i)).
  - rewrite Hp in Hj; [done|]. rewrite elem_of_rev, elem_of_seq. lia.
  - rewrite Hn in Hj; [done|]. rewrite elem_of_seq. lia.
Qed.

(** The state of the absorbing loop: every kept turn still spans what it did,
    and the turns absorbed so far are spanned. *)
Record absorbing (done_ : list nat) (kept : list SpeakerTurn) : Prop := {
  ab_num : Forall num_turn kept;
  ab_kept : Forall2 extends kept (kept_turns flags sorted);
  ab_done : ∀ i t, i ∈ done_ → sorted !! i = Some t → ∃ o, o ∈ kept ∧ covers o t;
}.

Lemma hull_covers target micro :
  num_turn target → num_turn micro →
  num_turn (hull target micro) ∧ extends (hull target micro) target ∧ covers (hull target micro) micro.
Proof.
  intros [? ?] [? ?]. unfold hull. repeat split; cbn; auto with num; forder.
Qed.

Lemma absorb_target_some micro prev nxt :
  is_Some prev ∨ is_Some nxt →
  ∃ k t, absorb_target micro prev nxt = Some (k, t) ∧ (prev = Some (k, t) ∨ nxt = Some (k, t)).
Proof.
  intros H. unfold absorb_target.
  destruct prev as [[i p]|], nxt as [[j n]|]; [|eauto|eauto|by destruct H as [[? ?]|[? ?]]].
  repeat case_match; eauto.
Qed.

Lemma absorb_step done_ kept i :
  Forall num_turn sorted → is_kept flags i = false → i < length sorted →
  absorbing done_ kept → absorbing (i :: done_) (absorb flags sorted kept i).
Proof.
  intros Hnum Hi Hlt [Hn Hk Hd]. unfold absorb.
  destruct (lookup_lt_is_Some_2 sorted i Hlt) as [micro Hm]. rewrite Hm.
  assert (∀ i', prev_orig flags i = Some i' ∨ nxt_orig flags i = Some i' →
    ∃ t, kept !! kept_by_orig_idx flags i' = Some t) as Hnb.
  { intros i' Ho. apply lookup_lt_is_Some_2.
    rewrite (Forall2_length _ _ _ Hk). apply kept_idx_lt.
    destruct Ho as [Ho|Ho]; by apply find_first_Some in Ho as [_ ?]. }
  set (nb := λ o, i' ← o; t ← kept !! kept_by_orig_idx flags i'; Some (kept_by_orig_idx flags i', t)).
  change (absorbing (i :: done_) (match absorb_target micro (nb (prev_orig flags i)) (nb (nxt_orig flags i)) with
    | Some (k, target) => <[k := hull target micro]> kept | None => kept end)).
  assert (∀ o k t, nb o = Some (k, t) → kept !! k = Some t) as Hlook.
  { intros [i'|] k t; [|done]. unfold nb. cbn.
    destruct (kept !! kept_by_orig_idx flags i') eqn:E; [|done]. by intros [= <- <-]. }
  destruct (absorb_target_some micro (nb (prev_orig flags i)) (nb (nxt_orig flags i)))
    as (k & t & -> & Hor).
  { destruct (neighbour_exists i Hi) as [[i' Hi']|[i' Hi']]; [left|right];
      destruct (Hnb i' ltac:(auto)) as [t Ht]; unfold nb; rewrite Hi'; cbn; rewrite Ht;
      by eexists. }
  assert (kept !! k = Some t) as Ht by (destruct Hor; by eapply Hlook).
  destruct (hull_covers t micro) as (H1 & H2 & H3).
  { by eapply Forall_lookup_1. } { by eapply (Forall_lookup_1 _ sorted). }
  split.
  - by apply Forall_insert.
  - destruct (Forall2_lookup_l _ _ _ _ _ Hk Ht) as (u & Hu & Htu).
    rewrite <-(list_insert_id _ _ _ Hu). apply Forall2_insert; [done|by eapply extends_trans].
  - assert (∀ o, o ∈ kept → ∃ o', o' ∈ <[k:=hull t micro]> kept ∧ covers o' o) as Hgrow.
    { intros o [j Hj]%list_elem_of_lookup. destruct (decide (k = j)) as [<-|Hne].
      - exists (hull t micro). replace o with t by congruence. split; [|apply H2].
        apply list_elem_of_lookup. exists k. apply list_lookup_insert_eq. by eapply lookup_lt_Some.
      - exists o. split; [|apply covers_refl; by eapply Forall_lookup_1].
        apply list_elem_of_lookup. exists j. by rewrite list_lookup_insert_ne. }
    intros j u [->|Hj]%elem_of_cons Hu.
    + exists (hull t micro). replace u with micro by congruence. split; [|done].
      apply list_elem_of_lookup. exists k. apply list_lookup_insert_eq. by eapply lookup_lt_Some.
    + destruct (Hd j u Hj Hu) as (o & Ho & Hou). destruct (Hgrow o Ho) as (o' & ? & ?).
      exists o'. split; [done|by eapply covers_trans].
Qed.

Lemma absorb_loop l done_ kept :
  Forall num_turn sorted →
  Forall (λ i, is_kept flags i = false ∧ i < length sorted) l →
  absorbing done_ kept →
  absorbing (rev l ++ done_) (foldl (absorb flags sorted) kept l).
Proof.
  intros Hn Hl. revert done_ kept. induction Hl as [|i l [Hi Hlt] Hl IH]; intros done_ kept Ha; [done|].
  cbn. rewrite <-app_assoc. by apply IH, absorb_step.
Qed.

Lemma elem_of_kept_turns t :
  t ∈ kept_turns flags sorted ↔ ∃ i, is_kept flags i = true ∧ sorted !! i = Some t.
Proof.
  unfold kept_turns. rewrite list_elem_of_omap. split.
  - intros (i & _ & Hi). exists i. by destruct (is_kept flags i).
  - intros (i & Hk & Hi). exists i. rewrite Hk. split; [|done].
    apply elem_of_seq. apply lookup_lt_Some in Hi. lia.
Qed.

Definition micro_indices : list nat :=
  List.filter (λ i, negb (is_kept flags i)) (seq 0 (length sorted)).

(** After the loop every turn is spanned, the kept ones by one of theirs. *)
Lemma absorbed_spec :
  Forall num_turn sorted →
  let kept := foldl (absorb flags sorted) (kept_turns flags sorted) micro_indices in
  Forall num_turn kept ∧ length kept <= length sorted ∧
  (∀ o, o ∈ kept → ∃ t, t ∈ sorted ∧ st_speaker o = st_speaker t) ∧
  (∀ i t, sorted !! i = Some t →
     ∃ o, o ∈ kept ∧ covers o t ∧ (is_kept flags i = true → extends o t)).
Proof.
  intros Hn. cbv zeta.
  assert (Forall num_turn (kept_turns flags sorted)) as Hn0.
  { apply Forall_forall. intros t (i & _ & Hi)%elem_of_kept_turns. by eapply Forall_lookup_1. }
  destruct (absorb_loop micro_indices [] (kept_turns flags sorted)) as [H1 H2 H3]; [done| | |].
  { apply Forall_forall. intros i [Hi Hk]%elem_of_filter_b. apply elem_of_seq in Hi.
    apply negb_true_iff in Hk. split; [done|lia]. }
  { split; [done| |intros i t Hi; inversion Hi].
    apply Forall2_same_length_lookup. split; [done|]. intros i x y Hx Hy.
    replace y with x by congruence. apply extends_refl. by eapply Forall_lookup_1. }
  set (kept := foldl _ _ _) in *. split_and!; [done| | |].
  - rewrite (Forall2_length _ _ _ H2), kept_turns_length. unfold kept_by_orig_idx.
    etrans; [apply List.filter_length_le|]. by rewrite length_seq.
  - intros o Ho. apply list_elem_of_lookup in Ho as [k Ho].
    destruct (Forall2_lookup_l _ _ _ _ _ H2 Ho) as (t & Ht & [_ Hsp]). exists t. split; [|done].
    apply list_elem_of_lookup_2, elem_of_kept_turns in Ht as (i & _ & Hi).
    by eapply list_elem_of_lookup_2.
  - intros i t Hi. destruct (is_kept flags i) eqn:Hk.
    + assert (t ∈ kept_turns flags sorted) as [k Ht]%list_elem_of_lookup
        by (apply elem_of_kept_turns; eauto).
      destruct (Forall2_lookup_r _ _ _ _ _ H2 Ht) as (o & Ho & Hot). exists o.
      split; [by eapply list_elem_of_lookup_2|]. split; [apply Hot|done].
    + destruct (H3 i t) as (o & Ho & Hot); [|done|by exists o].
      rewrite app_nil_r, elem_of_rev. apply elem_of_filter_b. rewrite Hk. split; [|done].
      apply elem_of_seq. apply lookup_lt_Some in Hi. lia.
Qed.
End absorb.

(** ** The whole function *)

Lemma longest_from_lt best d i l : best < i → longest_from best d i l < i + length l.
Proof.
  revert best d i. induction l as [|t l IH]; intros best d i Hb; cbn; [lia|].
  case_match; [specialize (IH i (turn_duration t) (S i))|specialize (IH best d (S i))]; lia.
Qed.

Lemma longest_index_lt l : l ≠ [] → longest_index l < length l.
Proof.
  destruct l as [|t l]; [done|]. intros _. cbn.
  pose proof (longest_from_lt 0 (turn_duration t) 1 l). lia.
Qed.

Lemma absorbed_length d l : length (absorbed d l) = length l.
Proof. unfold absorbed. case_match; by rewrite ?length_insert, length_map. Qed.

Lemma absorbed_some_kept d l : l ≠ [] → ∃ i, is_kept (absorbed d l) i = true.
Proof.
  intros Hl. unfold absorbed, is_kept. destruct (forallb id _) eqn:Hall.
  - exists (longest_index l). rewrite list_lookup_insert_eq; [done|].
    rewrite length_map. by apply longest_index_lt.
  - apply not_true_iff_false in Hall.
    destruct (existsb negb (map (is_micro d) l)) eqn:He.
    + apply existsb_exists in He as (b & Hb & Hf). apply list_elem_of_In, list_elem_of_lookup in Hb as [i Hi].
      exists i. rewrite Hi. by destruct b.
    + destruct Hall. apply forallb_forall. intros b Hb. destruct b; [done|].
      apply not_true_iff_false in He. destruct He. apply existsb_exists. by exists false.
Qed.

(** A turn that is long enough is kept. *)
Lemma long_kept d l i t :
  l !! i = Some t → is_micro d t = false → is_kept (absorbed d l) i = true.
Proof.
  intros Hi Hd. unfold absorbed, is_kept.
  assert (map (is_micro d) l !! i = Some false) as Hm by (rewrite list_lookup_fmap, Hi; cbn; by rewrite Hd).
  destruct (forallb id _) eqn:Hall; [|by rewrite Hm].
  rewrite forallb_forall in Hall. apply list_elem_of_lookup_2, list_elem_of_In, Hall in Hm. done.
Qed.

(** What a result keeps of the sorted turns. *)
Definition smoothed (min_duration : pyfloat) (turns out : list SpeakerTurn) : Prop :=
  (∀ t, t ∈ turns → ∃ o, o ∈ out ∧ covers o t ∧
     (is_micro min_duration t = false → st_speaker o = st_speaker t)) ∧
  length out <= length turns ∧
  (∀ o, o ∈ out → ∃ t, t ∈ turns ∧ st_speaker o = st_speaker t).

Lemma smoothed_trans d l1 l2 out :
  smoothed d l1 l2 → (∀ t, t ∈ l2 → ∃ o, o ∈ out ∧ extends o t) → length out <= length l2 →
  (∀ o, o ∈ out → ∃ t, t ∈ l2 ∧ st_speaker o = st_speaker t) → smoothed d l1 out.
Proof.
  intros (H1 & H2 & H3) Hext Hlen Hsp. split_and!; [|lia|].
  - intros t Ht. destruct (H1 t Ht) as (o & Ho & Hc & Hm).
    destruct (Hext o Ho) as (o' & Ho' & [Hc' Hs']). exists o'. split; [done|].
    split; [by eapply covers_trans|]. intros Hd. by rewrite Hs', Hm.
  - intros o Ho. destruct (Hsp o Ho) as (t & Ht & ->). by apply H3.
Qed.

(** Merging the sorted turns of a smoothed list. *)
Lemma smoothed_merge d l1 l2 :
  Forall num_turn l2 → smoothed d l1 l2 →
  let out := _merge_adjacent_turns (sort_turns l2) in smoothed d l1 out ∧ chain follows out.
Proof.
  intros Hn Hs. destruct (merge_sorted_spec l2 Hn) as [Hc Hext]. split; [|done].
  destruct (merge_speakers (λ s, ∃ t, t ∈ l2 ∧ s = st_speaker t) (sort_turns l2)) as [Hsp Hlen].
  { apply Forall_forall. intros o Ho. exists o. split; [|done].
    unfold sort_turns in Ho. by rewrite elem_of_stable_sort in Ho. }
  apply (smoothed_trans _ _ l2); [done|done| |].
  - rewrite Hlen. unfold sort_turns. by rewrite stable_sort_perm.
  - by rewrite Forall_forall in Hsp.
Qed.

Lemma smoothed_perm d turns sorted out :
  sorted ≡ₚ turns → smoothed d sorted out → smoothed d turns out.
Proof.
  intros Hp (H1 & H2 & H3). split_and!.
  - intros t Ht. apply H1. by rewrite Hp.
  - by rewrite <-Hp.
  - intros o Ho. destruct (H3 o Ho) as (t & Ht & ?). exists t. by rewrite <-Hp.
Qed.

(** C18: smoothing.  Every turn of the input lies within a turn of the result,
    one of the same speaker when it is long enough; the result has no more turns
    and no other speakers than the input, is ordered by start, and turns of one
    speaker that follow each other do not touch. *)
Theorem smoothing_spec turns min_duration :
  Forall num_turn turns → fle min_duration fzero = false →
  let out := _smooth_diarization_turns turns min_duration in
  (∀ t, t ∈ turns → ∃ o, o ∈ out ∧ covers o t ∧
     (is_micro min_duration t = false → st_speaker o = st_speaker t)) ∧
  chain follows out ∧ length out <= length turns ∧
  (∀ o, o ∈ out → ∃ t, t ∈ turns ∧ st_speaker o = st_speaker t).
Proof.
  intros Hn Hd. cbv zeta. unfold _smooth_diarization_turns. rewrite Hd, orb_false_r.
  assert (∀ out, smoothed min_duration turns out ∧ chain follows out →
    (∀ t, t ∈ turns → ∃ o, o ∈ out ∧ covers o t ∧
       (is_micro min_duration t = false → st_speaker o = st_speaker t)) ∧
    chain follows out ∧ length out <= length turns ∧
    (∀ o, o ∈ out → ∃ t, t ∈ turns ∧ st_speaker o = st_speaker t)) as Hgoal
    by (intros out [(? & ? & ?) ?]; done).
  destruct (length turns =? 0) eqn:Hlen.
  { apply Nat.eqb_eq, nil_length_inv in Hlen as ->.
    apply Hgoal. split; [|done]. by split_and!; [intros t Ht; inversion Ht|cbn|
      intros t Ht; inversion Ht]. }
  set (sorted := sort_turns turns).
  assert (sorted ≡ₚ turns) as Hperm by apply stable_sort_perm.
  assert (Forall num_turn sorted) as Hns by (by rewrite Hperm).
  assert (sorted ≠ []) as Hne by (intros H; by rewrite <-Hperm, H in Hlen).
  destruct (existsb (is_micro min_duration) sorted); cbn [negb].
  - destruct (absorbed_spec (absorbed min_duration sorted) sorted) as (H1 & H2 & H3 & H4);
      [apply absorbed_length|by apply absorbed_some_kept|done|].
    fold (micro_indices (absorbed min_duration sorted) sorted).
    apply Hgoal, smoothed_merge; [done|]. apply (smoothed_perm _ _ _ _ Hperm).
    split_and!; [|done|done]. intros t [i Hi]%list_elem_of_lookup.
    destruct (H4 i t Hi) as (o & Ho & Hc & He). exists o. split_and!; [done|done|].
    intros Hm. apply He. by eapply long_kept.
  - apply Hgoal, smoothed_merge; [done|]. split_and!; [|done|eauto].
    intros t Ht. exists t. split; [done|]. split; [|done].
    apply covers_refl. by eapply Forall_forall in Hn.
Qed.

(** The demonstration turns. *)
Lemma smoothing_spec_witness :
  ∃ o, o ∈ _smooth_diarization_turns DiarizationDemo.turns MIN_TURN_DURATION_S ∧
    covers o (DiarizationDemo.turn "A" 390 395).
Proof.
  destruct (smoothing_spec DiarizationDemo.turns MIN_TURN_DURATION_S) as [H _].
  - apply Forall_forall. intros t Ht.
    repeat (apply elem_of_cons in Ht as [->|Ht]; [split; vm_compute; reflexivity|]). inversion Ht.
  - vm_compute. reflexivity.
  - destruct (H (DiarizationDemo.turn "A" 390 395)) as (o & Ho & Hc & _).
    { right. right. left. }
    exists o. split; [exact Ho|exact Hc].
Defined.
