(* ===== verification/DiarizeChunks.v ===== *)
(** * Diarization of long audio

    Models [dalston/engine_sdk/diarize_chunking.py] and the engine's branch into it
    ([src/engines/stt-diarize/pyannote-4.0/engine.py]): overlapping chunks, each with
    speakers of its own, the link between the speakers of different chunks, and one
    timeline.  The diarization of a chunk, its embeddings and their clustering are an
    argument ([DiarizeEngine]); the files of the chunks are left out. *)

From S2P Require Import Prelude PyValue Times Floats Numeric Diarization.

(** ** Chunks *)

Definition DEFAULT_OVERLAP_S : pyfloat := float_of_Z 30.
Definition DEFAULT_MIN_CHUNK_S : pyfloat := float_of_Z 60.

Record ChunkSpec := {
  cs_index : nat;
  cs_start : pyfloat;
  cs_end : pyfloat;
}.

(** How a run ends without turns.  [Endless] is a loop that goes round for ever. *)
Inductive diarize_error : Type :=
  | Endless
  | AllChunksFailed
  | ExtractionFailed
  | Unbound                                     (* [UnboundLocalError] *)
  | OutOfMemory
  | PassFailed.

#[export] Instance diarize_error_eq_dec : EqDecision diarize_error.
Proof. solve_decision. Defined.

(** [compute_chunk_boundaries]: one round of its loop.  Rounding is monotone, so that a start
    that does not grow never will, and no later round is the last. *)
Definition boundary_step (duration max_chunk_s min_chunk_s step : pyfloat)
    (st : pyfloat * list (pyfloat * pyfloat))
    : (pyfloat * list (pyfloat * pyfloat)) + option (list (pyfloat * pyfloat)) :=
  let '(start, boundaries) := st in
  if flt start duration then
    let end_ := fmin (fadd start max_chunk_s) duration in
    let next_chunk_len := fsub duration (fadd start step) in
    let end_ :=
      if flt end_ duration && flt fzero next_chunk_len && flt next_chunk_len min_chunk_s &&
         fle (fsub duration start) (fadd max_chunk_s min_chunk_s)
      then duration else end_ in
    let boundaries := boundaries ++ [(start, end_)] in
    if fle duration end_ then inr (Some boundaries)
    else
      let next := fadd start step in
      if flt start next || is_nan next then inl (next, boundaries) else inr None
  else inr (Some boundaries).

Definition compute_chunk_boundaries (duration max_chunk_s overlap_s min_chunk_s : pyfloat)
    : res diarize_error (list (pyfloat * pyfloat)) :=
  if fle duration max_chunk_s then Ok [(fzero, duration)]
  else
    match iter_until (boundary_step duration max_chunk_s min_chunk_s (fsub max_chunk_s overlap_s))
            float_fuel (fzero, []) with
    | inr (Some boundaries) => Ok boundaries
    | _ => Raise Endless
    end.

Section boundaries.
Variables duration max_chunk_s min_chunk_s step : pyfloat.

Lemma fsub_size x y : sized x → sized y → sized (fsub x y).
Proof.
  unfold fsub. destruct x as [[]|[]| |s m e], y as [[]|[]| |s' m' e']; try done.
  intros _ _. apply binary_normalize_size.
Qed.

(** The starts grow, below the duration. *)
Definition boundaries_ok (st : pyfloat * list (pyfloat * pyfloat)) : Prop :=
  StronglySorted (λ a b, flt a.1 b.1 = true) st.2 ∧
  Forall (λ b, flt b.1 duration = true ∧ (flt b.1 st.1 = true ∨ is_nan st.1 = true)) st.2 ∧ sized st.1.

Definition boundary_stuck : Prop :=
  ∃ s, flt s duration = true ∧ flt s (fadd s step) = false.

Lemma boundary_step_ok st :
  sized step → boundaries_ok st →
  match boundary_step duration max_chunk_s min_chunk_s step st with
  | inl st' => boundaries_ok st' ∧ (flt st.1 st'.1 = true ∨ is_nan st.1 = false ∧ is_nan st'.1 = true)
  | inr (Some l) => StronglySorted (λ a b, flt a.1 b.1 = true) l ∧ Forall (λ b, flt b.1 duration = true) l
  | inr None => boundary_stuck
  end.
Proof.
  destruct st as [s l]. intros Hstep (Hsort & Hall & Hs). cbn [fst snd] in *. unfold boundary_step.
  assert (Forall (λ b, flt b.1 duration = true) l) as Hd by (eapply Forall_impl; [done|]; by intros ? []).
  destruct (flt s duration) eqn:Hlt; [|done]. cbv zeta.
  set (e := if flt (fmin (fadd s max_chunk_s) duration) duration && _ && _ && _ then duration else _).
  destruct (flt_num _ _ Hlt) as [Hnum _].
  assert (StronglySorted (λ a b, flt a.1 b.1 = true) (l ++ [(s, e)])) as Hsort'.
  { apply StronglySorted_app_2; [|done|by repeat constructor].
    intros a b Ha ->%list_elem_of_singleton. rewrite Forall_forall in Hall.
    destruct (Hall a Ha) as [_ [?|Hn]]; [done|]. unfold num in Hnum. congruence. }
  destruct (fle duration e).
  { split; [done|]. apply Forall_app. by split; [|repeat constructor]. }
  destruct (flt s (fadd s step)) eqn:Hgrow; cbn [orb].
  - split; [|by left]. split_and!; [done| |by apply fadd_size]. apply Forall_app. split.
    + eapply Forall_impl; [exact Hall|]. intros b [Hb [Hb'|Hn]]; (split; [done|]).
      * left. cbn [fst]. forder.
      * unfold num in Hnum. congruence.
    + constructor; [|constructor]. split; [done|]. by left.
  - destruct (is_nan (fadd s step)) eqn:Hn.
    + split; [|by right]. split_and!; [done| |by apply fadd_size]. apply Forall_app. split.
      * eapply Forall_impl; [exact Hall|]. intros b [Hb _]. split; [done|by right].
      * constructor; [|constructor]. split; [done|by right].
    + by exists s.
Qed.

(** The loop ends, unless a start does not grow. *)
Lemma boundaries_end :
  sized step →
  match iter_until (boundary_step duration max_chunk_s min_chunk_s step) float_fuel (fzero, []) with
  | inr (Some l) => StronglySorted (λ a b, flt a.1 b.1 = true) l ∧ Forall (λ b, flt b.1 duration = true) l
  | inr None => boundary_stuck
  | inl _ => False
  end.
Proof.
  intros Hstep. assert (boundaries_ok (fzero, [])) as H0 by (split_and!; [constructor|constructor|done]).
  set (m := λ st : pyfloat * list (pyfloat * pyfloat),
    if is_nan st.1 then 0%Z else (2 ^ 65 - fkey st.1 + 1)%Z).
  destruct (iter_until_ends (boundary_step duration max_chunk_s min_chunk_s step) boundaries_ok m
    float_fuel (fzero, [])) as [r Hr]; [| |done| |].
  - intros st (_ & _ & Hs). pose proof (fkey_bound _ Hs). unfold m. destruct (is_nan _); lia.
  - intros st st' Hst Heq. pose proof (boundary_step_ok st Hstep Hst) as Hok. rewrite Heq in Hok.
    destruct Hok as [Hst' Hlt]. split; [done|]. destruct Hst as (_ & _ & Hs), Hst' as (_ & _ & Hs').
    pose proof (fkey_bound _ Hs). unfold m. destruct Hlt as [Hlt|[-> ->]]; [|lia].
    pose proof (fkey_lt _ _ Hs Hs' Hlt). destruct (flt_num _ _ Hlt) as [Hn Hn']. unfold num in *.
    rewrite Hn, Hn'. lia.
  - unfold m, float_fuel. cbn [fst is_nan fzero fkey]. change (Zpos (2 ^ 68)) with (2 ^ 68)%Z. lia.
  - pose proof (iter_until_inv (boundary_step duration max_chunk_s min_chunk_s step) boundaries_ok
      (λ r, match r with
            | Some l => StronglySorted (λ a b, flt a.1 b.1 = true) l ∧ Forall (λ b, flt b.1 duration = true) l
            | None => boundary_stuck
            end) float_fuel (fzero, [])) as Hinv.
    rewrite Hr in Hinv |- *. apply Hinv; [|done]. intros st Hst.
    pose proof (boundary_step_ok st Hstep Hst) as Hok.
    destruct (boundary_step duration max_chunk_s min_chunk_s step st) as [st'|[l|]]; [by destruct Hok|done|done].
Qed.
End boundaries.

(** Boundaries of chunks: their starts grow, and they are found unless a start does not grow, as
    when the overlap is the length of a chunk. *)
Theorem chunk_boundaries duration max_chunk_s overlap_s min_chunk_s :
  sized max_chunk_s → sized overlap_s →
  match compute_chunk_boundaries duration max_chunk_s overlap_s min_chunk_s with
  | Ok l => StronglySorted (λ a b, flt a.1 b.1 = true) l
  | Raise e => e = Endless ∧ boundary_stuck duration (fsub max_chunk_s overlap_s)
  end.
Proof.
  intros Hm Ho. unfold compute_chunk_boundaries. destruct (fle duration max_chunk_s); [by repeat constructor|].
  pose proof (boundaries_end duration max_chunk_s min_chunk_s (fsub max_chunk_s overlap_s) (fsub_size _ _ Hm Ho)).
  by destruct (iter_until _ _ _) as [|[l|]]; [|naive_solver|].
Qed.

(** ** Speakers across chunks *)

(** The diarization of one chunk, if it does not fail; whether its file can be cut; one
    label per embedding, if the clustering does not fail. *)
Class DiarizeEngine := {
  embedding : Type;
  extract_chunk : nat → pyfloat → pyfloat → bool;
  diarize_chunk : nat → pyfloat → pyfloat → option (list string * list SpeakerTurn * dict embedding);
  fit_predict : list embedding → option (list Z);
}.

Section chunks.
Context `{DiarizeEngine}.

Record ChunkResult := {
  cr_spec : ChunkSpec;
  cr_speakers : list string;
  cr_turns : list SpeakerTurn;
  cr_embeddings : dict embedding;
}.

Definition cr_index (c : ChunkResult) : nat := cs_index (cr_spec c).

Abbreviation label_map := (gmap string string).

Definition _identity_maps (results : list ChunkResult) : gmap nat label_map :=
  list_to_map (rev (map (λ c, (cr_index c, list_to_map (map (λ s, (s, s)) (cr_speakers c)))) results)).

(** The centroids with their chunk and their speaker there. *)
Definition centroids (results : list ChunkResult) : list (nat * string * embedding) :=
  results ≫= λ c, map (λ '(speaker, x), (cr_index c, speaker, x)) (cr_embeddings c).

Definition speaker_name (n : nat) : string := "SPEAKER_" +:+ str_padded 2 n.

(** [global_name_for_cluster], the number of names given, and [label_maps]. *)
Record Naming := {
  nm_names : gmap Z string;
  nm_next : nat;
  nm_maps : gmap nat label_map;
}.

Definition name_step (st : Naming) (x : nat * string * Z) : Naming :=
  let '(chunk_idx, local_speaker, cluster_id) := x in
  let st := match nm_names st !! cluster_id with
    | Some _ => st
    | None => {| nm_names := <[cluster_id := speaker_name (nm_next st)]> (nm_names st);
                 nm_next := S (nm_next st); nm_maps := nm_maps st |}
    end in
  {| nm_names := nm_names st; nm_next := nm_next st;
     nm_maps := alter (<[local_speaker := default "" (nm_names st !! cluster_id)]>) chunk_idx (nm_maps st) |}.

Definition link_speakers (results : list ChunkResult) : gmap nat label_map :=
  let all := centroids results in
  if length all <? 2 then _identity_maps results
  else
    match fit_predict (map snd all) with
    | None => _identity_maps results
    | Some labels =>
        nm_maps (foldl name_step
          {| nm_names := ∅; nm_next := 0;
             nm_maps := list_to_map (rev (map (λ c, (cr_index c, ∅)) results)) |}
          (zip (map fst all) labels))
    end.

(** ** One timeline *)

Record _TaggedTurn := {
  tg_turn : SpeakerTurn;
  tg_chunk_idx : nat;
}.

(** [SpeakerTurn(speaker=..., start=..., end=..., confidence=...)] *)
Definition plain_turn (speaker : string) (s e : pyfloat) (confidence : option pyfloat) : SpeakerTurn := {|
  st_speaker := speaker; st_start := s; st_end := e; st_confidence := confidence;
  st_overlapping_speakers := None |}.

Definition global_turn (offset : pyfloat) (labels : label_map) (t : SpeakerTurn) : SpeakerTurn :=
  plain_turn (default (st_speaker t) (labels !! st_speaker t)) (round3 (fadd (st_start t) offset))
    (round3 (fadd (st_end t) offset)) (st_confidence t).

Definition tag_turns (label_maps : gmap nat label_map) (results : list ChunkResult) : list _TaggedTurn :=
  results ≫= λ c,
    let labels := default ∅ (label_maps !! cr_index c) in
    map (λ t, {| tg_turn := global_turn (cs_start (cr_spec c)) labels t; tg_chunk_idx := cr_index c |})
      (cr_turns c).

Definition seam (overlap_s : pyfloat) (c next : ChunkResult) : pyfloat :=
  let overlap_start := cs_start (cr_spec next) in
  let overlap_end := fmin (cs_end (cr_spec c)) (fadd overlap_start overlap_s) in
  round3 (fdiv (fadd overlap_start overlap_end) (float_of_Z 2)).

(** The time of each chunk: from the seam before it to the seam after it. *)
Fixpoint ranges_from (overlap_s from : pyfloat) (results : list ChunkResult)
    : list (nat * (pyfloat * pyfloat)) :=
  match results with
  | [] => []
  | c :: rest =>
      match rest with
      | [] => [(cr_index c, (from, cs_end (cr_spec c)))]
      | next :: _ =>
          let s := seam overlap_s c next in
          (cr_index c, (from, s)) :: ranges_from overlap_s s rest
      end
  end.
Definition chunk_ranges (overlap_s : pyfloat) (results : list ChunkResult)
    : gmap nat (pyfloat * pyfloat) :=
  match results with
  | [] => ∅
  | c :: _ => list_to_map (rev (ranges_from overlap_s (cs_start (cr_spec c)) results))
  end.

Definition keep_turn (ranges : gmap nat (pyfloat * pyfloat)) (tt : _TaggedTurn) : option _TaggedTurn :=
  match ranges !! tg_chunk_idx tt with
  | None => Some tt
  | Some (range_start, range_end) =>
      let t := tg_turn tt in
      let turn_mid := fdiv (fadd (st_start t) (st_end t)) (float_of_Z 2) in
      if fle range_start turn_mid && fle turn_mid range_end then
        let trimmed_start := fmax (st_start t) range_start in
        let trimmed_end := fmin (st_end t) range_end in
        if flt trimmed_start trimmed_end then
          Some {| tg_turn := plain_turn (st_speaker t) (round3 trimmed_start) (round3 trimmed_end)
                               (st_confidence t);
                  tg_chunk_idx := tg_chunk_idx tt |}
        else None
      else None
  end.

Definition _resolve_overlaps (results : list ChunkResult) (tagged : list _TaggedTurn) (overlap_s : pyfloat)
    : list _TaggedTurn :=
  omap (keep_turn (chunk_ranges overlap_s results)) tagged.

(** [sorted] of a set of names *)
Definition sorted_names (l : list string) : list string :=
  stable_sort String.ltb (remove_dups l).

Definition merge_chunks (results : list ChunkResult) (label_maps : gmap nat label_map) (overlap_s : pyfloat)
    : list string * list SpeakerTurn :=
  let tagged := tag_turns label_maps results in
  let tagged := if (1 <? length results) && flt fzero overlap_s
    then _resolve_overlaps results tagged overlap_s else tagged in
  let all_turns := sort_turns (map tg_turn tagged) in
  (sorted_names (map st_speaker all_turns), all_turns).

(** [overlap_stats_from_turns]: the ends of turns come before the starts at the same time. *)
Definition speech_events (turns : list SpeakerTurn) : list (pyfloat * Z) :=
  stable_sort (λ a b, flt a.1 b.1 || feq a.1 b.1 && (a.2 <? b.2)%Z)
    (turns ≫= λ t, [(st_start t, 1%Z); (st_end t, (-1)%Z)]).

Definition sweep_event (st : Z * pyfloat * pyfloat * pyfloat) (e : pyfloat * Z) : Z * pyfloat * pyfloat * pyfloat :=
  let '(active, overlap_duration, total_speech, prev_time) := st in
  let '(time, delta) := e in
  let dt := fsub time prev_time in
  let later := flt prev_time time in
  ((active + delta)%Z,
   if later && (2 <=? active)%Z then fadd overlap_duration dt else overlap_duration,
   if later && (1 <=? active)%Z then fadd total_speech dt else total_speech, time).

Definition overlap_stats_from_turns (turns : list SpeakerTurn) : pyfloat * pyfloat :=
  match turns with
  | [] => (fzero, fzero)
  | _ =>
      let '(_, overlap_duration, total_speech, _) :=
        foldl sweep_event (0%Z, fzero, fzero, fzero) (speech_events turns) in
      (overlap_duration, if flt fzero total_speech then fdiv overlap_duration total_speech else fzero)
  end.

(** ** A run *)

(** The loop over the chunks: one that cannot be cut ends the run, one that fails is skipped. *)
Fixpoint diarize_chunks (i : nat) (boundaries : list (pyfloat * pyfloat)) : res diarize_error (list ChunkResult) :=
  match boundaries with
  | [] => Ok []
  | (s, e) :: rest =>
      if negb (extract_chunk i s e) then Raise ExtractionFailed
      else
        results ← diarize_chunks (S i) rest;
        match diarize_chunk i s e with
        | None => Ok results
        | Some (speakers, turns, embeddings) =>
            Ok ({| cr_spec := {| cs_index := i; cs_start := s; cs_end := e |}; cr_speakers := speakers;
                   cr_turns := turns; cr_embeddings := embeddings |} :: results)
        end
  end.

Definition run_chunked_diarization (duration max_chunk_s overlap_s : pyfloat)
    : res diarize_error (list string * list SpeakerTurn) :=
  boundaries ← compute_chunk_boundaries duration max_chunk_s overlap_s DEFAULT_MIN_CHUNK_S;
  results ← diarize_chunks 0 boundaries;
  match results with
  | [] => Raise AllChunksFailed
  | _ => Ok (merge_chunks results (link_speakers results) overlap_s)
  end.

(** ** The engine *)

(** The chunked path: a chunk that does not fit into memory is halved, down to 30 seconds.
    The names are not bound when the loop is not entered. *)
Definition backoff_step (duration max_chunk_s : pyfloat)
    : pyfloat + res diarize_error (list string * list SpeakerTurn) :=
  if fle (float_of_Z 30) max_chunk_s then
    match run_chunked_diarization duration max_chunk_s DEFAULT_OVERLAP_S with
    | Raise AllChunksFailed =>
        if fle max_chunk_s (float_of_Z 30) then inr (Raise AllChunksFailed)
        else inl (fmax (float_of_Z 30) (fdiv max_chunk_s (float_of_Z 2)))
    | r => inr r
    end
  else inr (Raise Unbound).

Definition diarize_chunked (duration max_chunk_s : pyfloat) : res diarize_error (list string * list SpeakerTurn) :=
  match iter_until (backoff_step duration) float_fuel max_chunk_s with
  | inr r => r
  | inl _ => Raise Endless
  end.

Definition diarize_audio (duration max_chunk_s : pyfloat)
    (single_pass : res diarize_error (list string * list SpeakerTurn))
    : res diarize_error (list string * list SpeakerTurn) :=
  if flt max_chunk_s duration then diarize_chunked duration max_chunk_s
  else
    match single_pass with
    | Raise OutOfMemory => diarize_chunked duration (fdiv duration (float_of_Z 2))
    | r => r
    end.
End chunks.

(** ** What is linked *)

Section linked.
Context `{DiarizeEngine}.

#[local] Instance speaker_name_inj : Inj (=) (=) speaker_name.
Proof. intros a b Hab. unfold speaker_name in Hab. apply string_app_inj_l in Hab. by apply (inj _) in Hab. Qed.

(** Names are given to clusters one by one, and every speaker seen has the name of its cluster. *)
Record named (indices : list nat) (seen : list (nat * string * Z)) (st : Naming) : Prop := {
  na_bound c s : nm_names st !! c = Some s → ∃ k, s = speaker_name k ∧ k < nm_next st;
  na_inj c c' s : nm_names st !! c = Some s → nm_names st !! c' = Some s → c = c';
  na_maps i : i ∈ indices → is_Some (nm_maps st !! i);
  na_seen i s c : (i, s, c) ∈ seen → ∃ m name,
    nm_maps st !! i = Some m ∧ m !! s = Some name ∧ nm_names st !! c = Some name;
}.

Lemma name_step_ok indices seen st i s c :
  named indices seen st → i ∈ indices → (i, s) ∉ map fst seen →
  named indices (seen ++ [(i, s, c)]) (name_step st (i, s, c)).
Proof.
  intros [Hbound Hinj Hmaps Hseen] Hi Hnew. unfold name_step.
  set (st' := match nm_names st !! c with Some _ => st | None => _ end).
  assert (∃ name, nm_names st' !! c = Some name ∧ nm_maps st' = nm_maps st ∧
    (∀ c' s', nm_names st !! c' = Some s' → nm_names st' !! c' = Some s') ∧
    (∀ c s, nm_names st' !! c = Some s → ∃ k, s = speaker_name k ∧ k < nm_next st') ∧
    (∀ c c' s, nm_names st' !! c = Some s → nm_names st' !! c' = Some s → c = c'))
    as (name & Hname & Hm & Hold & Hbound' & Hinj').
  { subst st'. destruct (nm_names st !! c) as [name|] eqn:Hc; [by exists name|].
    exists (speaker_name (nm_next st)). cbn. rewrite lookup_insert_eq. split_and!; [done|done| | |].
    - intros c' s' Hs'. rewrite lookup_insert_ne; [done|]. intros ->. congruence.
    - intros c' s' [[<- <-]|[Hne Hs']]%lookup_insert_Some; [by exists (nm_next st); split; [|lia]|].
      destruct (Hbound _ _ Hs') as (k & -> & Hk). exists k. split; [done|lia].
    - intros c1 c2 s' [[<- <-]|[Hne1 Hs1]]%lookup_insert_Some [[<- Hs2]|[Hne2 Hs2]]%lookup_insert_Some;
        [done| | |by eapply Hinj]; exfalso.
      + destruct (Hbound _ _ Hs2) as (k & Hk & Hlt). apply (inj speaker_name) in Hk. lia.
      + destruct (Hbound _ _ Hs1) as (k & Hk & Hlt). rewrite <- Hs2 in Hk. apply (inj speaker_name) in Hk. lia. }
  clearbody st'. split; cbn [nm_names nm_next nm_maps]; [done|done| |].
  - intros i' Hi'. rewrite Hm. destruct (decide (i = i')) as [->|Hne].
    + rewrite lookup_alter_eq. destruct (Hmaps _ Hi') as [m ->]. done.
    + rewrite lookup_alter_ne by done. by apply Hmaps.
  - rewrite Hm, Hname. cbn [default]. intros i' s' c' [Hin|[= -> -> ->]%list_elem_of_singleton]%elem_of_app.
    + destruct (Hseen _ _ _ Hin) as (m & name' & Hm' & Hs' & Hc'). destruct (decide (i = i')) as [<-|Hne].
      * rewrite lookup_alter_eq, Hm'. eexists _, name'. split; [done|]. split; [|by apply Hold].
        rewrite lookup_insert_ne; [done|]. intros <-. apply Hnew. by apply (list_elem_of_fmap_2 fst) in Hin.
      * rewrite lookup_alter_ne by done. exists m, name'. split_and!; [done|done|by apply Hold].
    + rewrite lookup_alter_eq. destruct (Hmaps _ Hi) as [m ->]. cbn. eexists _, name.
      split; [done|]. by rewrite lookup_insert_eq.
Qed.

Lemma name_all indices seen todo st :
  named indices seen st → Forall (λ x, x.1.1 ∈ indices) todo → NoDup (map fst (seen ++ todo)) →
  named indices (seen ++ todo) (foldl name_step st todo).
Proof.
  revert seen st. induction todo as [|[[i s] c] todo IH]; intros seen st Hst Hin Hnd; [by rewrite app_nil_r|].
  apply Forall_cons in Hin as [Hi Hin]. cbn [foldl].
  assert (seen ++ (i, s, c) :: todo = (seen ++ [(i, s, c)]) ++ todo) as Heq by (by rewrite <- app_assoc).
  rewrite Heq in *. apply IH; [|done|done]. apply name_step_ok; [done|done|].
  rewrite !map_app in Hnd. apply NoDup_app in Hnd as (Hnd & _ & _). apply NoDup_app in Hnd as (_ & Hnd & _).
  intros Hs. apply (Hnd _ Hs). cbn. by left.
Qed.

Lemma centroids_fst results :
  map fst (centroids results) = results ≫= λ c, map (pair (cr_index c)) (dkeys (cr_embeddings c)).
Proof.
  induction results as [|c l IH]; [done|]. unfold centroids in *. cbn [mbind list_bind] in *.
  rewrite map_app. f_equal; [|exact IH]. unfold dkeys. rewrite !map_map. apply map_ext. by intros [].
Qed.

Lemma centroids_NoDup results :
  NoDup (map cr_index results) → Forall (λ c, NoDup (dkeys (cr_embeddings c))) results →
  NoDup (map fst (centroids results)).
Proof.
  rewrite centroids_fst. intros Hnd Hk. induction Hk as [|c l Hc _ IH]; [constructor|].
  cbn in Hnd. apply NoDup_cons in Hnd as [Hnew Hnd]. cbn [mbind list_bind]. apply NoDup_app. split_and!.
  - apply NoDup_fmap_2; [|done]. by intros ?? [= ->].
  - intros x (s & -> & _)%list_elem_of_fmap (c' & Hx & Hc')%list_elem_of_bind.
    apply list_elem_of_fmap in Hx as (s' & [= Hi _] & _). apply Hnew. rewrite Hi. by apply list_elem_of_fmap_2.
  - by apply IH.
Qed.

Lemma centroids_index results x : x ∈ centroids results → x.1.1 ∈ map cr_index results.
Proof.
  intros (c & Hx & Hc)%list_elem_of_bind. apply list_elem_of_fmap in Hx as ([s e] & -> & _). cbn.
  by apply list_elem_of_fmap_2.
Qed.

Lemma link_named results labels :
  NoDup (map cr_index results) → Forall (λ c, NoDup (dkeys (cr_embeddings c))) results →
  2 ≤ length (centroids results) →
  fit_predict (map snd (centroids results)) = Some labels → length labels = length (centroids results) →
  ∃ st, link_speakers results = nm_maps st ∧
    named (map cr_index results) (zip (map fst (centroids results)) labels) st.
Proof.
  intros Hnd Hk Hlen Hfit Hl. unfold link_speakers. destruct (Nat.ltb_spec (length (centroids results)) 2); [lia|].
  rewrite Hfit. eexists. split; [done|]. apply (name_all _ [] (zip (map fst (centroids results)) labels)).
  - split; cbn; [by intros ?? ?%lookup_empty_Some|by intros ??? ?%lookup_empty_Some| |].
    + intros i Hi. rewrite <- not_eq_None_Some, <- not_elem_of_list_to_map. intros Hn. apply Hn. clear Hn.
      rewrite map_rev, elem_of_rev, map_map. exact Hi.
    + by intros ??? ?%elem_of_nil.
  - apply Forall_forall. intros [[i s] c] Hx. cbn. apply elem_of_zip_l, list_elem_of_fmap in Hx as ([[? ?] x] & [= <- <-] & Hx).
    by apply (centroids_index _ _ Hx).
  - cbn [app]. change (map fst (zip ?l ?k)) with ((zip l k).*1).
    rewrite fst_zip by (rewrite length_map; lia). by apply centroids_NoDup.
Qed.

(** *** The timeline *)

Lemma sorted_names_elem l n : n ∈ sorted_names l ↔ n ∈ l.
Proof. unfold sorted_names. rewrite elem_of_stable_sort. apply elem_of_remove_dups. Qed.

Lemma sorted_names_NoDup l : NoDup (sorted_names l).
Proof. unfold sorted_names. rewrite stable_sort_perm. apply NoDup_remove_dups. Qed.

Lemma tag_turns_elem maps results tt :
  tt ∈ tag_turns maps results → ∃ c t, c ∈ results ∧ t ∈ cr_turns c ∧ tg_chunk_idx tt = cr_index c ∧
    tg_turn tt = global_turn (cs_start (cr_spec c)) (default ∅ (maps !! cr_index c)) t.
Proof.
  intros (c & Hx & Hc)%list_elem_of_bind. apply list_elem_of_fmap in Hx as (t & -> & Ht). by exists c, t.
Qed.

Lemma keep_turn_speaker ranges tt tt' :
  keep_turn ranges tt = Some tt' →
  st_speaker (tg_turn tt') = st_speaker (tg_turn tt) ∧ st_confidence (tg_turn tt') = st_confidence (tg_turn tt).
Proof. unfold keep_turn. repeat case_match; by intros [= <-]. Qed.

Lemma merged_turn results maps overlap_s t :
  t ∈ (merge_chunks results maps overlap_s).2 →
  ∃ c t0, c ∈ results ∧ t0 ∈ cr_turns c ∧
    st_speaker t = default (st_speaker t0) (default ∅ (maps !! cr_index c) !! st_speaker t0) ∧
    st_confidence t = st_confidence t0.
Proof.
  unfold merge_chunks, sort_turns. cbn [snd]. rewrite elem_of_stable_sort. intros Ht.
  assert (∃ tt tt', tt ∈ tag_turns maps results ∧ t = tg_turn tt' ∧
    st_speaker (tg_turn tt') = st_speaker (tg_turn tt) ∧ st_confidence (tg_turn tt') = st_confidence (tg_turn tt))
    as (tt & tt' & Htt & -> & Hs & Hcf).
  { apply list_elem_of_fmap in Ht as (tt' & -> & Htt). destruct (_ && _) in Htt; [|by exists tt', tt'].
    unfold _resolve_overlaps in Htt. apply list_elem_of_omap in Htt as (tt & Htt & Hkeep).
    exists tt, tt'. split_and!; [done|done|by eapply keep_turn_speaker..]. }
  apply tag_turns_elem in Htt as (c & t & Hc & Ht0 & _ & Hg). exists c, t.
  rewrite Hs, Hcf, Hg. by split_and!.
Qed.

End linked.

(** ** Runs *)

Module DiarizeDemo.
(** Voices are numbers, and their clusters the numbers themselves.  A chunk of more than thirty
    seconds does not fit into memory. *)
#[local] Instance demo_engine : DiarizeEngine := {|
  embedding := Z;
  extract_chunk _ _ _ := true;
  diarize_chunk _ s e := if flt (float_of_Z 30) (fsub e s) then None else Some (["SPEAKER_00"], [], []);
  fit_predict := Some;
|}.

(** The engine halves its chunks down to thirty seconds, which is the overlap: the boundaries of
    such chunks never come to an end. *)
Example backoff_endless :
  diarize_audio (float_of_Z 100) (float_of_Z 900) (Raise OutOfMemory) = Raise Endless ∧
  compute_chunk_boundaries (float_of_Z 100) (float_of_Z 30) DEFAULT_OVERLAP_S DEFAULT_MIN_CHUNK_S =
    Raise Endless.
Proof. split; vm_compute; reflexivity. Qed.

(** Audio of less than a minute that does not fit into memory is halved to less than thirty seconds. *)
Example backoff_unbound :
  diarize_audio (float_of_Z 40) (float_of_Z 900) (Raise OutOfMemory) = Raise Unbound.
Proof. vm_compute. reflexivity. Qed.

Definition chunk (i : nat) (s e : Z) (turns : list (string * Z * Z)) (voices : dict Z) : ChunkResult := {|
  cr_spec := {| cs_index := i; cs_start := float_of_Z s; cs_end := float_of_Z e |};
  cr_speakers := dkeys voices;
  cr_turns := map (λ '(n, s, e), plain_turn n (float_of_Z s) (float_of_Z e) None) turns;
  cr_embeddings := voices |}.

(** Two chunks with an overlap of thirty seconds; the voice 7 is [SPEAKER_01] in the first and
    [SPEAKER_00] in the second. *)
Definition two_chunks : list ChunkResult :=
  [chunk 0 0 900 [("SPEAKER_00", 0, 10); ("SPEAKER_01", 876, 896)]%Z [("SPEAKER_00", 5); ("SPEAKER_01", 7)]%Z;
   chunk 1 870 1770 [("SPEAKER_00", 6, 26); ("SPEAKER_01", 100, 110)]%Z [("SPEAKER_00", 7); ("SPEAKER_01", 5)]%Z].

(** Both chunks hear a turn from 876 to 896.  Its middle is in the second, which cuts it at the
    seam at 885; the first drops it: nine seconds of speech are lost. *)
Example seam_loses_speech :
  (merge_chunks two_chunks (link_speakers two_chunks) DEFAULT_OVERLAP_S).2 =
  map (λ '(n, s, e), plain_turn n (float_of_Z s) (float_of_Z e) None)
    [("SPEAKER_00", 0, 10); ("SPEAKER_01", 885, 896); ("SPEAKER_00", 970, 980)]%Z.
Proof. vm_compute. reflexivity. Qed.

(** Two people who speak at the same time for five of fifteen seconds. *)
Example overlap_stats_ex :
  overlap_stats_from_turns [plain_turn "A" (float_of_Z 0) (float_of_Z 10) None;
                            plain_turn "B" (float_of_Z 5) (float_of_Z 15) None] =
  (float_of_Z 5, float_lit 1 3).
Proof. vm_compute. reflexivity. Qed.

End DiarizeDemo.
