(* ===== verification/Transcript.v ===== *)
(** * Transcript assembly

    Models the rest of [dalston/common/transcript.py]: the choice of segments,
    the merged segments with their speakers, the missed-speech warning and the
    assembly of the transcript from the outputs of the stages, for one channel
    and for several.

    The validation of JSON documents against the classes of
    [common/pipeline_types.py] is pydantic's: the class [Pydantic] holds it.  A
    constructor applied to values that already have the types of its fields is
    a record here; the fields that may have others are validated. *)

From S2P Require Import Prelude PyValue Times Numeric Diarization.

(** ** Data *)

Record LanguageInfo := {
  li_code : string;
  li_confidence : pyfloat;
  li_is_primary : bool;
}.

Record Phoneme := {
  ph_phoneme : string;
  ph_start : pyfloat;
  ph_end : pyfloat;
  ph_confidence : option pyfloat;
  ph_stress : option Z;
}.

Record Character := {
  ch_char : string;
  ch_start : pyfloat;
  ch_end : pyfloat;
  ch_confidence : option pyfloat;
  ch_phonemes : option (list Phoneme);
}.

Record TranscriptWord := {
  tw_text : string;
  tw_start : pyfloat;
  tw_end : pyfloat;
  tw_confidence : option pyfloat;
  tw_alignment_method : string;
  tw_language : option string;
  tw_characters : option (list Character);
  tw_phonemes : option (list Phoneme);
  tw_metadata : dict json;
}.

Record TranscriptSegment := {
  ts_id : option string;
  ts_start : pyfloat;
  ts_end : pyfloat;
  ts_text : string;
  ts_words : option (list TranscriptWord);
  ts_language : option string;
  ts_language_confidence : option pyfloat;
  ts_confidence : option pyfloat;
  ts_is_final : option bool;
  ts_is_speech : option bool;
  ts_metadata : dict json;
}.

Record Transcript := {
  tr_text : string;
  tr_segments : list TranscriptSegment;
  tr_language : string;
  tr_language_confidence : option pyfloat;
  tr_language_source : option string;
  tr_languages : option (list LanguageInfo);
  tr_duration : option pyfloat;
  tr_timestamp_granularity : string;
  tr_alignment_method : string;
  tr_engine_id : string;
  tr_channel : option Z;
  tr_warnings : list string;
  tr_metadata : dict json;
}.

(** What engines report about a segment, as they give it. *)
Record SegmentScores := {
  sc_tokens : json;
  sc_temperature : json;
  sc_confidence : json;
  sc_avg_logprob : json;
  sc_compression_ratio : json;
  sc_no_speech_prob : json;
}.

Record Segment := {
  sg_start : pyfloat;
  sg_end : pyfloat;
  sg_text : string;
  sg_words : option (list Word);
  sg_language : option string;
  sg_scores : SegmentScores;
}.

Record AlignmentResponse := {
  al_segments : list Segment;
  al_word_timestamps : bool;
  al_skipped : bool;
  al_warnings : list string;
}.

Record DiarizationResponse := {
  dz_turns : list SpeakerTurn;
  dz_speakers : list string;
  dz_skipped : bool;
  dz_warnings : list string;
}.

(** [Speaker]; a label given by the user is not validated. *)
Record Speaker := {
  sp_id : string;
  sp_label : json;
  sp_channel : option Z;
}.

Record MergedSegment := {
  ms_id : string;
  ms_start : pyfloat;
  ms_end : pyfloat;
  ms_text : string;
  ms_speaker : option string;
  ms_language : option string;
  ms_words : option (list Word);
  ms_scores : SegmentScores;
}.

Record TranscriptMetadata := {
  md_audio_duration : json;
  md_audio_channels : json;
  md_sample_rate : json;
  md_language : json;
  md_language_confidence : json;
  md_language_source : json;
  md_languages : option (list LanguageInfo);
  md_word_timestamps : bool;
  md_word_timestamps_requested : json;
  md_speaker_detection : string;
  md_speaker_count : json;
  md_pipeline_stages : list string;
  md_pipeline_warnings : list string;
}.

Record MergeResponse := {
  mr_job_id : string;
  mr_metadata : TranscriptMetadata;
  mr_text : string;
  mr_speakers : list Speaker;
  mr_segments : list MergedSegment;
}.

(** Pydantic: [None] is a [ValidationError], a subclass of [ValueError].
    [scores_validate] and [metadata_validate] check and coerce the fields
    of [MergedSegment] and [TranscriptMetadata] that are filled from documents. *)
Class Pydantic := {
  Transcript_validate : json → option Transcript;
  AlignmentResponse_validate : json → option AlignmentResponse;
  DiarizationResponse_validate : json → option DiarizationResponse;
  SpeakerTurn_validate : json → option SpeakerTurn;
  LanguageInfo_validate : json → option LanguageInfo;
  scores_validate : SegmentScores → option SegmentScores;
  metadata_validate : TranscriptMetadata → option TranscriptMetadata;
  transcript_document : MergeResponse → dict json;
}.

Definition validated {A} (o : option A) : res pyexn A :=
  match o with Some a => Ok a | None => Raise ValueError end.

(** ** Missed speech *)

Definition MISSED_SPEECH_TOLERANCE_S : pyfloat := float_of_Z 1.
Definition MISSED_SPEECH_MIN_REGION_S : pyfloat := float_lit 1 4.
Definition MISSED_SPEECH_MIN_TOTAL_S : pyfloat := float_of_Z 3.
Definition MISSED_SPEECH_MIN_FRACTION : pyfloat := float_lit 1 10.

Abbreviation span := (pyfloat * pyfloat)%type.

Definition segment_cover (tolerance : pyfloat) (s : MergedSegment) : span :=
  (fmax fzero (fsub (ms_start s) tolerance), fadd (ms_end s) tolerance).

(** [merged] is reversed: its head is [merged[-1]]. *)
Definition merge_span (merged : list span) (x : span) : list span :=
  match merged with
  | (s, e) :: rest =>
      if fle x.1 e then (s, fmax e x.2) :: rest else x :: merged
  | [] => [x]
  end.

Definition merge_spans (covered : list span) : list span :=
  rev (foldl merge_span [] (stable_sort pair_lt covered)).

(** The loop over the merged spans, from [cursor] on, and the rest of the region. *)
Fixpoint missed_from (merged : list span) (region_end cursor : pyfloat) : list span :=
  let rest cursor :=
    if fle MISSED_SPEECH_MIN_REGION_S (fsub region_end cursor) then [(cursor, region_end)] else [] in
  match merged with
  | [] => rest cursor
  | (s, e) :: merged =>
      if fle e cursor then missed_from merged region_end cursor
      else if fle region_end s then rest cursor
      else
        let gap := if flt cursor s && fle MISSED_SPEECH_MIN_REGION_S (fsub s cursor)
                   then [(cursor, fmin s region_end)] else [] in
        let cursor := fmax cursor (fmin e region_end) in
        gap ++ (if fle region_end cursor then rest cursor
                else missed_from merged region_end cursor)
  end.

(** [float(region.get(k, 0.0))] *)
Definition region_bound (k : string) (region : dict json) : res pyexn pyfloat :=
  json_float (jget_or k (JFloat fzero) region).

Definition region_bounds (region : dict json) : res pyexn span :=
  s ← region_bound "start" region;
  e ← region_bound "end" region;
  Ok (s, e).

(** [except (TypeError, ValueError): continue] *)
Definition or_continue {A} (m : res pyexn A) (dflt : A) : res pyexn A :=
  match m with
  | Raise TypeError | Raise ValueError => Ok dflt
  | _ => m
  end.

Definition _compute_missed_speech (regions : list (dict json)) (segments : list MergedSegment)
    (tolerance : pyfloat) : res pyexn (list span) :=
  let merged := merge_spans (map (segment_cover tolerance) segments) in
  res_foldl (λ missed region,
    more ← or_continue ('(s, e) ← region_bounds region; Ok (missed_from merged e s)) [];
    Ok (missed ++ more)) [] regions.

Definition as_dict (v : json) : option (dict json) :=
  match v with JObj d => Some d | _ => None end.

(** [max(0.0, float(r.get("end", 0.0)) - float(r.get("start", 0.0)))] *)
Definition region_length (r : dict json) : res pyexn pyfloat :=
  e ← region_bound "end" r;
  s ← region_bound "start" r;
  Ok (fmax fzero (fsub e s)).

Definition span_text (x : span) : string :=
  format_1f x.1 +:+ "-" +:+ format_1f x.2 +:+ "s".

Definition missed_warning (missed : list span) (total : pyfloat) : string :=
  format_1f total +:+ "s of detected speech was not transcribed (regions: "
  +:+ String.concat ", " (map span_text (take 5 missed))
  +:+ (if length missed <=? 5 then "" else " (+" +:+ str_nat (length missed - 5) +:+ " more)")
  +:+ ")".

(** The warnings with the one about missed speech, when there is one. *)
Definition _append_missed_speech_warning (prepare : json) (segments : list MergedSegment)
    (warnings : list string) : res pyexn (list string) :=
  regions ← json_get_or "speech_regions" JNull (if truthy prepare then prepare else JObj []);
  match regions with
  | JList ((_ :: _) as l) =>
      let valid := omap as_dict l in
      total_speech ← res_foldl (λ total r,
        or_continue (d ← region_length r; Ok (fadd total d)) total) fzero valid;
      if fle total_speech fzero then Ok warnings
      else
        missed ← _compute_missed_speech valid segments MISSED_SPEECH_TOLERANCE_S;
        let total := py_sum (map (λ x, fsub x.2 x.1) missed) in
        Ok (if fle MISSED_SPEECH_MIN_TOTAL_S total &&
               fle (fmul MISSED_SPEECH_MIN_FRACTION total_speech) total
            then warnings ++ [missed_warning missed total] else warnings)
  | _ => Ok warnings
  end.

(** ** Reading the outputs of the stages *)

Definition _extract_audio_metadata (prepare : json) : res pyexn (json * json * json) :=
  if negb (truthy prepare) then Ok (JFloat fzero, JInt 1, JInt 16000)
  else
    let flat := d ← json_get_or "duration" (JFloat fzero) prepare;
                c ← json_get_or "channels" (JInt 1) prepare;
                r ← json_get_or "sample_rate" (JInt 16000) prepare;
                Ok (d, c, r) in
    let of_file (channels : option json) (f : dict json) :=
      Ok (jget_or "duration" (JFloat fzero) f, default (jget_or "channels" (JInt 1) f) channels,
          jget_or "sample_rate" (JInt 16000) f) in
    source_media ← json_get_or "source_media" JNull prepare;
    match source_media with
    | JObj m => of_file None m
    | _ =>
        files ← json_get_or "channel_files" (JList []) prepare;
        if negb (truthy files) then flat
        else
          match files with
          | JList (JObj first :: others) =>
              split ← json_get_or "split_channels" JNull prepare;
              let n := S (length others) in
              of_file (if truthy split && (1 <? n) then Some (JInt (Z.of_nat n)) else None) first
          | JList _ | JStr _ => flat
          | JObj _ => Raise (KeyError "0")
          | _ => Raise TypeError
          end
    end.

Section assembly.
Context `{P : Pydantic}.

Definition language_entries (l : list json) : list LanguageInfo :=
  omap (λ e, match e with JObj _ => LanguageInfo_validate e | _ => None end) l.

Definition _extract_transcribe_data (data : json)
    : res pyexn (json * json * json * option (list LanguageInfo)) :=
  text ← json_get_or "text" (JStr "") data;
  language ← json_get_or "language" (JStr "und") data;
  confidence ← json_get_or "language_confidence" JNull data;
  raw ← json_get_or "languages" JNull data;
  Ok (text, language, confidence,
      match raw with
      | JList l => match language_entries l with [] => None | parsed => Some parsed end
      | _ => None
      end).

(** A segment of either kind. *)
Inductive source_segment : Type :=
  | FromAlign (s : Segment)
  | FromTranscribe (s : TranscriptSegment).

Definition has_words {A} (o : option (list A)) : bool :=
  match o with Some (_ :: _) => true | _ => false end.

Definition _select_segments (align : option AlignmentResponse) (t : Transcript)
    : list source_segment * bool * list string :=
  match align with
  | Some a =>
      if al_skipped a
      then (map FromTranscribe (tr_segments t), false, tr_warnings t ++ al_warnings a)
      else (map FromAlign (al_segments a), al_word_timestamps a, tr_warnings t ++ al_warnings a)
  | None =>
      (map FromTranscribe (tr_segments t),
       existsb (λ s, has_words (ts_words s)) (tr_segments t), tr_warnings t)
  end.

(** The entries that parse. *)
Definition turn_entries (l : list json) : list SpeakerTurn :=
  omap (λ e, match e with JObj _ => SpeakerTurn_validate e | _ => None end) l.
Definition string_entries (v : json) : list string :=
  match v with
  | JList l => omap (λ s, match s with JStr s => Some s | _ => None end) l
  | _ => []
  end.

(** The turns and speakers, and the warnings of a diarization that was skipped. *)
Definition _extract_diarization (response : option DiarizationResponse) (data : json)
    (speaker_detection : json)
    : res pyexn (list SpeakerTurn * list string * list string) :=
  if negb (jeq_str speaker_detection "diarize") then Ok ([], [], [])
  else
    match response with
    | Some r => Ok (if dz_skipped r then ([], [], dz_warnings r)
                    else (dz_turns r, dz_speakers r, []))
    | None =>
        if is_null data then Ok ([], [], [])
        else
          raw_turns ← json_get_or "turns" (JList []) data;
          entries ← json_iter raw_turns;
          raw_speakers ← json_get_or "speakers" (JList []) data;
          Ok (turn_entries entries, string_entries raw_speakers, [])
    end.

(** ** Segments *)

Definition word_of_transcript (w : TranscriptWord) : Word := {|
  w_text := tw_text w; w_start := tw_start w; w_end := tw_end w;
  w_confidence := tw_confidence w; w_characters := JNull; w_phonemes := JNull;
  w_alignment_method := Some (tw_alignment_method w); w_language := tw_language w |}.

(** [_normalize_transcript_words] and [_normalize_words] on words that were
    parsed; an empty list gives no words. *)
Definition _normalize_transcript_words (ws : list TranscriptWord) : list Word :=
  map word_of_transcript ws.
Definition _normalize_words (ws : list Word) : list Word := ws.

Definition normalized {A} (f : list A → list Word) (o : option (list A)) : option (list Word) :=
  match o with Some ((_ :: _) as ws) => Some (f ws) | _ => None end.

Definition metadata_scores (d : dict json) : SegmentScores := {|
  sc_tokens := jget "tokens" d; sc_temperature := jget "temperature" d;
  sc_confidence := jget "confidence" d; sc_avg_logprob := jget "avg_logprob" d;
  sc_compression_ratio := jget "compression_ratio" d;
  sc_no_speech_prob := jget "no_speech_prob" d |}.

(** The fields of a segment: the dictionary of [_extract_segment_fields]. *)
Record segment_fields := {
  sf_start : pyfloat;
  sf_end : pyfloat;
  sf_text : string;
  sf_words : option (list Word);
  sf_language : option string;
  sf_scores : SegmentScores;
}.

Definition _extract_segment_fields (s : source_segment) : segment_fields :=
  match s with
  | FromTranscribe s => {|
      sf_start := ts_start s; sf_end := ts_end s; sf_text := ts_text s;
      sf_words := normalized _normalize_transcript_words (ts_words s);
      sf_language := ts_language s; sf_scores := metadata_scores (ts_metadata s) |}
  | FromAlign s => {|
      sf_start := sg_start s; sf_end := sg_end s; sf_text := sg_text s;
      sf_words := normalized _normalize_words (sg_words s);
      sf_language := sg_language s; sf_scores := sg_scores s |}
  end.

(** [tokens if isinstance(tokens, list) else None] *)
Definition token_list (v : json) : json := match v with JList _ => v | _ => JNull end.

Definition with_tokens (t : json) (s : SegmentScores) : SegmentScores := {|
  sc_tokens := t; sc_temperature := sc_temperature s; sc_confidence := sc_confidence s;
  sc_avg_logprob := sc_avg_logprob s; sc_compression_ratio := sc_compression_ratio s;
  sc_no_speech_prob := sc_no_speech_prob s |}.

(** [MergedSegment(id=f"seg_{idx:03d}", ...)] *)
Definition segment_id (idx : nat) : string := "seg_" +:+ str_padded 3 idx.

Definition merged_segment (idx : nat) (s e : pyfloat) (text : string) (speaker : option string)
    (words : option (list Word)) (f : segment_fields) : res pyexn MergedSegment :=
  scores ← validated (scores_validate (with_tokens (token_list (sc_tokens (sf_scores f)))
                                         (sf_scores f)));
  Ok {| ms_id := segment_id idx; ms_start := s; ms_end := e; ms_text := text;
        ms_speaker := speaker; ms_language := sf_language f; ms_words := words;
        ms_scores := scores |}.

Definition output_words (available : bool) (words : option (list Word)) : option (list Word) :=
  if available && has_words words then words else None.

(** The parts of a segment, appended to the segments made so far. *)
Definition add_parts (available : bool) (f : segment_fields) (segments : list MergedSegment)
    (parts : list part) : res pyexn (list MergedSegment) :=
  res_foldl (λ segments p,
    s ← merged_segment (length segments) (p_start p) (p_end p) (p_text p) (p_speaker p)
          (output_words available (p_words p)) f;
    Ok (segments ++ [s])) segments parts.

Definition segment_parts (turns : list SpeakerTurn) (f : segment_fields) : list part :=
  _split_segment_by_diarization (sf_start f) (sf_end f) (sf_text f) (sf_words f) turns.

Definition _build_merged_segments (source : list source_segment) (turns : list SpeakerTurn)
    (available : bool) : res pyexn (list MergedSegment) :=
  res_foldl (λ segments s,
    let f := _extract_segment_fields s in
    add_parts available f segments (segment_parts turns f)) [] source.

(** ** Speakers *)

Definition _build_speakers (ids : list string) : list Speaker :=
  map (λ id, {| sp_id := id; sp_label := JNull; sp_channel := None |}) ids.

Definition set_label (s : Speaker) (label : json) : Speaker :=
  {| sp_id := sp_id s; sp_label := label; sp_channel := sp_channel s |}.

(** The speakers with their labels; the segments keep the ids. *)
Fixpoint _apply_known_speaker_names (speakers : list Speaker) (names : list json) : list Speaker :=
  match speakers, names with
  | s :: speakers, n :: names => set_label s n :: _apply_known_speaker_names speakers names
  | _, _ => speakers
  end.

(** [if isinstance(known_speaker_names, list) and known_speaker_names] *)
Definition name_speakers (known : json) (speakers : list Speaker) : list Speaker :=
  match known with
  | JList names => _apply_known_speaker_names speakers names
  | _ => speakers
  end.

Definition _infer_pipeline_stages (align diarize speaker_detection : json) : list string :=
  ["prepare"; "transcribe"] ++ (if is_null align then [] else ["align"])
  ++ (if negb (is_null diarize) && jeq_str speaker_detection "diarize" then ["diarize"] else []).

Definition determine_terminal_stage (speaker_detection : json) (has_align has_diarize : bool)
    : string :=
  if has_diarize && jeq_str speaker_detection "diarize" then "diarize"
  else if has_align then "align" else "transcribe".

(** ** Assembly *)

Definition SPEAKER_DETECTION_MODES : list string := ["none"; "diarize"; "per_channel"].

(** [SpeakerDetectionMode(v)] *)
Definition speaker_detection_mode (v : json) : res pyexn string :=
  match v with
  | JStr s => if mem_str s SPEAKER_DETECTION_MODES then Ok s else Raise ValueError
  | _ => Raise ValueError
  end.

Definition round_confidence (v : json) : res pyexn json :=
  if is_null v then Ok JNull else json_round3 v.

(** The outputs of a transcription stage: it must be there and parse. *)
Definition parse_transcribe (data : json) : res pyexn Transcript :=
  if truthy data then validated (Transcript_validate data) else Raise ValueError.

Definition try_parse {A} (validate : json → option A) (data : json) : option A :=
  if truthy data then validate data else None.

Definition as_text (v : json) : res pyexn string :=
  match v with JStr s => Ok s | _ => Raise ValueError end.

Definition assemble_transcript (job_id : string) (stage_outputs : dict json)
    (speaker_detection word_timestamps_requested known_speaker_names : json)
    (pipeline_stages : option (list string)) : res pyexn MergeResponse :=
  let prepare := jget_or "prepare" (JObj []) stage_outputs in
  let transcribe := jget_or "transcribe" (JObj []) stage_outputs in
  let align := jget "align" stage_outputs in
  let diarize := jget "diarize" stage_outputs in
  '(duration, channels, rate) ← _extract_audio_metadata prepare;
  '(text, language, confidence, languages) ← _extract_transcribe_data transcribe;
  language_source ← json_get_or "language_source" JNull transcribe;
  transcript ← parse_transcribe transcribe;
  let '(source, available, warnings) :=
    _select_segments (try_parse AlignmentResponse_validate align) transcript in
  '(turns, ids, more) ← _extract_diarization (try_parse DiarizationResponse_validate diarize)
                          diarize speaker_detection;
  let turns := _smooth_diarization_turns turns MIN_TURN_DURATION_S in
  segments ← _build_merged_segments source turns available;
  let speakers := name_speakers known_speaker_names (_build_speakers ids) in
  let stages := default (_infer_pipeline_stages align diarize speaker_detection) pipeline_stages in
  warnings ← _append_missed_speech_warning prepare segments (warnings ++ more);
  confidence ← round_confidence confidence;
  mode ← speaker_detection_mode speaker_detection;
  metadata ← validated (metadata_validate {|
    md_audio_duration := duration; md_audio_channels := channels; md_sample_rate := rate;
    md_language := language; md_language_confidence := confidence;
    md_language_source := language_source; md_languages := languages;
    md_word_timestamps := available;
    md_word_timestamps_requested := word_timestamps_requested;
    md_speaker_detection := mode; md_speaker_count := JInt (Z.of_nat (length speakers));
    md_pipeline_stages := stages; md_pipeline_warnings := warnings |});
  text ← as_text text;
  Ok {| mr_job_id := job_id; mr_metadata := metadata; mr_text := text;
        mr_speakers := speakers; mr_segments := segments |}.

(** ** Several channels *)

(** [range(channel_count)] *)
Definition channel_numbers (count : json) : res pyexn (list nat) :=
  match count with
  | JInt z => Ok (seq 0 (Z.to_nat z))
  | JBool b => Ok (if b then [0] else [])
  | _ => Raise TypeError
  end.

Definition channel_speaker (channel : nat) : string := "SPEAKER_" +:+ str_padded 2 channel.

(** Keeps the entry of higher confidence for each code. *)
Definition add_language (all : dict LanguageInfo) (li : LanguageInfo) : dict LanguageInfo :=
  match dget (li_code li) all with
  | Some old => if flt (li_confidence old) (li_confidence li) then dset (li_code li) li all else all
  | None => dset (li_code li) li all
  end.

Record channel_segment := {
  cs_fields : segment_fields;
  cs_channel : nat;
  cs_word_ts : bool;
}.

(** What the loop over the channels collects. *)
Record channels_acc := {
  ca_segments : list channel_segment;
  ca_word_timestamps : bool;
  ca_warnings : list string;
  ca_language : json * json * json;
  ca_languages : dict LanguageInfo;
}.

Definition channel_key (stage : string) (channel : nat) : string :=
  stage +:+ "_ch" +:+ str_nat channel.

Definition add_channel (stage_outputs : dict json) (acc : channels_acc) (channel : nat)
    : res pyexn channels_acc :=
  let transcribe := jget_or (channel_key "transcribe" channel) (JObj []) stage_outputs in
  let align := jget (channel_key "align" channel) stage_outputs in
  language ← (if (channel =? 0) && truthy transcribe then
                l ← json_get_or "language" (JStr "und") transcribe;
                c ← json_get_or "language_confidence" JNull transcribe;
                s ← json_get_or "language_source" JNull transcribe;
                Ok (l, c, s)
              else Ok (ca_language acc));
  found ← (if truthy transcribe then
             '(_, _, _, languages) ← _extract_transcribe_data transcribe; Ok (default [] languages)
           else Ok []);
  transcript ← parse_transcribe transcribe;
  let '(source, available, warnings) :=
    _select_segments (try_parse AlignmentResponse_validate align) transcript in
  Ok {| ca_segments := ca_segments acc ++
          map (λ s, {| cs_fields := _extract_segment_fields s; cs_channel := channel;
                       cs_word_ts := available |}) source;
        ca_word_timestamps := ca_word_timestamps acc || available;
        ca_warnings := ca_warnings acc ++
          map (λ w, "ch" +:+ str_nat channel +:+ ": " +:+ w) warnings;
        ca_language := language;
        ca_languages := foldl add_language (ca_languages acc) found |}.

Definition no_channels : channels_acc := {|
  ca_segments := []; ca_word_timestamps := false; ca_warnings := [];
  ca_language := (JStr "und", JNull, JNull); ca_languages := [] |}.

(** [all_channel_segments.sort(key=lambda s: s["start"])] *)
Definition interleave (l : list channel_segment) : list channel_segment :=
  stable_sort (λ a b, flt (sf_start (cs_fields a)) (sf_start (cs_fields b))) l.

Definition channel_merged (idx : nat) (c : channel_segment) : res pyexn MergedSegment :=
  let f := cs_fields c in
  merged_segment idx (sf_start f) (sf_end f) (sf_text f) (Some (channel_speaker (cs_channel c)))
    (output_words (cs_word_ts c) (sf_words f)) f.

(** [for idx, seg_dict in enumerate(...)] *)
Definition channel_segments (l : list channel_segment) : res pyexn (list MergedSegment) :=
  res_foldl (λ segments c,
    s ← channel_merged (length segments) c; Ok (segments ++ [s])) [] l.

(** [" ".join(seg.text.strip() for seg in segments if seg.text.strip())] *)
Definition full_text (segments : list MergedSegment) : string :=
  join_words (map (λ s, strip (ms_text s))
    (List.filter (λ s, negb (blank (ms_text s))) segments)).

(** [sorted(all_languages.values(), key=confidence, reverse=True)] *)
Definition merged_languages (all : dict LanguageInfo) : option (list LanguageInfo) :=
  match all with
  | [] => None
  | _ => Some (stable_sort (λ a b, flt (li_confidence b) (li_confidence a)) (dvals all))
  end.

Definition assemble_per_channel_transcript (job_id : string) (stage_outputs : dict json)
    (channel_count word_timestamps_requested known_speaker_names : json)
    (pipeline_stages : option (list string)) : res pyexn MergeResponse :=
  let prepare := jget_or "prepare" (JObj []) stage_outputs in
  '(duration, channels, rate) ← _extract_audio_metadata prepare;
  numbers ← channel_numbers channel_count;
  acc ← res_foldl (add_channel stage_outputs) no_channels numbers;
  segments ← channel_segments (interleave (ca_segments acc));
  let speakers := name_speakers known_speaker_names
    (map (λ ch, {| sp_id := channel_speaker ch; sp_label := JNull;
                   sp_channel := Some (Z.of_nat ch) |}) numbers) in
  warnings ← _append_missed_speech_warning prepare segments (ca_warnings acc);
  let '(language, confidence, language_source) := ca_language acc in
  confidence ← round_confidence confidence;
  metadata ← validated (metadata_validate {|
    md_audio_duration := duration;
    md_audio_channels := if truthy channels then channels else channel_count;
    md_sample_rate := rate; md_language := language; md_language_confidence := confidence;
    md_language_source := language_source;
    md_languages := merged_languages (ca_languages acc);
    md_word_timestamps := ca_word_timestamps acc;
    md_word_timestamps_requested := word_timestamps_requested;
    md_speaker_detection := "per_channel"; md_speaker_count := channel_count;
    md_pipeline_stages := default [] pipeline_stages; md_pipeline_warnings := warnings |});
  Ok {| mr_job_id := job_id; mr_metadata := metadata; mr_text := full_text segments;
        mr_speakers := speakers; mr_segments := segments |}.
End assembly.

(** ** An instance *)

(** A validator that reads the fields the definitions use, for examples. *)
Module TranscriptDemo.
Definition json_opt_str (v : json) : option string := match v with JStr s => Some s | _ => None end.

Definition word (v : json) : option TranscriptWord :=
  match v with
  | JObj d =>
      match jget "text" d, json_float (jget "start" d), json_float (jget "end" d) with
      | JStr t, Ok s, Ok e => Some {|
          tw_text := t; tw_start := s; tw_end := e; tw_confidence := None;
          tw_alignment_method := "unknown"; tw_language := json_opt_str (jget "language" d);
          tw_characters := None; tw_phonemes := None; tw_metadata := [] |}
      | _, _, _ => None
      end
  | _ => None
  end.

Definition words (v : json) : option (option (list TranscriptWord)) :=
  match v with JList l => Some <$> mapM word l | JNull => Some None | _ => None end.

Definition segment (v : json) : option TranscriptSegment :=
  match v with
  | JObj d =>
      match jget "text" d, json_float (jget "start" d), json_float (jget "end" d),
            words (jget "words" d) with
      | JStr t, Ok s, Ok e, Some ws => Some {|
          ts_id := None; ts_start := s; ts_end := e; ts_text := t; ts_words := ws;
          ts_language := json_opt_str (jget "language" d); ts_language_confidence := None;
          ts_confidence := None; ts_is_final := None; ts_is_speech := None; ts_metadata := [] |}
      | _, _, _, _ => None
      end
  | _ => None
  end.

Definition transcript (v : json) : option Transcript :=
  match v with
  | JObj d =>
      match jget "text" d, jget "segments" d with
      | JStr t, JList l => (λ ss, {|
          tr_text := t; tr_segments := ss; tr_language := "en"; tr_language_confidence := None;
          tr_language_source := None; tr_languages := None; tr_duration := None;
          tr_timestamp_granularity := "segment"; tr_alignment_method := "unknown";
          tr_engine_id := "faster-whisper"; tr_channel := None; tr_warnings := [];
          tr_metadata := [] |}) <$> mapM segment l
      | _, _ => None
      end
  | _ => None
  end.

Definition turn (v : json) : option SpeakerTurn :=
  match v with
  | JObj d =>
      match jget "speaker" d, json_float (jget "start" d), json_float (jget "end" d) with
      | JStr sp, Ok s, Ok e => Some {|
          st_speaker := sp; st_start := s; st_end := e; st_confidence := None;
          st_overlapping_speakers := None |}
      | _, _, _ => None
      end
  | _ => None
  end.

Definition document (r : MergeResponse) : dict json :=
  [("text", JStr (mr_text r));
   ("speakers", JList (map (λ s, JObj [("id", JStr (sp_id s)); ("label", sp_label s)]) (mr_speakers r)));
   ("segments", JList (map (λ s, JObj [("id", JStr (ms_id s)); ("text", JStr (ms_text s))]) (mr_segments r)))].

Definition demo : Pydantic := {|
  Transcript_validate := transcript; AlignmentResponse_validate := λ _, None;
  DiarizationResponse_validate := λ _, None; SpeakerTurn_validate := turn;
  LanguageInfo_validate := λ _, None; scores_validate := Some; metadata_validate := Some;
  transcript_document := document |}.

Definition seg (text : string) (s e : Z) (ws : list json) : json :=
  JObj ([("text", JStr text); ("start", JInt s); ("end", JInt e)]
        ++ match ws with [] => [] | _ => [("words", JList ws)] end).
Definition wd (text : string) (s e : Z) : json :=
  JObj [("text", JStr text); ("start", JInt s); ("end", JInt e)].

(** Two channels that answer each other. *)
Definition channels : dict json :=
  [("transcribe_ch0", JObj [("text", JStr "hello bye");
     ("segments", JList [seg "hello" 0 1 []; seg "bye" 4 5 []])]);
   ("transcribe_ch1", JObj [("text", JStr "hi"); ("segments", JList [seg "hi" 2 3 []])])].

Example per_channel_example :
  (r ← @assemble_per_channel_transcript demo "j" channels (JInt 2) (JBool false) JNull None;
   Ok (mr_text r, map (λ s, (ms_id s, ms_speaker s)) (mr_segments r))) =
  Ok ("hello hi bye", [("seg_000", Some "SPEAKER_00"); ("seg_001", Some "SPEAKER_01");
                       ("seg_002", Some "SPEAKER_00")]).
Proof. vm_compute. reflexivity. Qed.

(** One channel with two speakers. *)
Definition conversation : dict json :=
  [("transcribe", JObj [("text", JStr "how are you? fine thanks");
     ("segments", JList [seg "how are you? fine thanks" 0 4
        [wd "how" 0 1; wd "are" 1 2; wd "you?" 2 2; wd "fine" 2 3; wd "thanks" 3 4]])]);
   ("diarize", JObj [("turns", JList [JObj [("speaker", JStr "A"); ("start", JInt 0); ("end", JInt 2)];
                                      JObj [("speaker", JStr "B"); ("start", JInt 2); ("end", JInt 4)]]);
                     ("speakers", JList [JStr "A"; JStr "B"])])].

Example mono_example :
  (r ← @assemble_transcript demo "j" conversation (JStr "diarize") (JBool true)
         (JList [JStr "Ann"]) None;
   Ok (map (λ s, (ms_text s, ms_speaker s)) (mr_segments r),
       map (λ s, (sp_id s, sp_label s)) (mr_speakers r))) =
  Ok ([("how are you?", Some "A"); ("fine thanks", Some "B")],
      [("A", JStr "Ann"); ("B", JNull)]).
Proof. vm_compute. reflexivity. Qed.
End TranscriptDemo.
