(* ===== verification/Chunking.v ===== *)
(** * Long audio, in chunks

    Models the chunked path of batch transcription: the detection of speech and its
    grouping into chunks ([engine_sdk/vad.py]), the passes over the chunks with their
    back-off when memory runs out, and the merging of the transcripts
    ([engine_sdk/base_transcribe.py]).  The samples of the audio, the network that
    hears speech in them and the transcription of one piece are parameters; a written
    chunk file is the range of samples it holds. *)

From S2P Require Import Prelude PyValue Times Floats Numeric Diarization Transcript.

(** ** Speech in the audio *)

Definition _SAMPLE_RATE : Z := 16000.
Definition _WINDOW_SAMPLES : Z := 512.

Record SpeechSegment := {
  seg_start : pyfloat;
  seg_end : pyfloat;
}.

Definition seg_duration (s : SpeechSegment) : pyfloat := fsub (seg_end s) (seg_start s).

(** A chunk; its file holds the samples from the first to before the second number. *)
Record AudioChunk := {
  ac_audio : Z * Z;
  ac_offset : pyfloat;
  ac_duration : pyfloat;
}.

(** The state of the offline scan: the regions so far, and the one being heard. *)
Record Scan := {
  sc_regions : list (Z * Z);
  sc_in_speech : bool;
  sc_region_start : Z;
  sc_silence_run : Z;
}.

Section offline.
Context (threshold : pyfloat) (min_speech_samples min_silence_samples : Z).

Definition long_enough (start end_ : Z) (regions : list (Z * Z)) : list (Z * Z) :=
  if (min_speech_samples <=? end_ - start)%Z then regions ++ [(start, end_)] else regions.

Definition scan_frame (st : Scan) (ip : nat * pyfloat) : Scan :=
  let '(i, p) := ip in
  let frame_start := (Z.of_nat i * _WINDOW_SAMPLES)%Z in
  if fle threshold p then
    {| sc_regions := sc_regions st; sc_in_speech := true;
       sc_region_start := if sc_in_speech st then sc_region_start st else frame_start;
       sc_silence_run := 0 |}
  else if sc_in_speech st then
    let silence_run := (sc_silence_run st + _WINDOW_SAMPLES)%Z in
    if (min_silence_samples <=? silence_run)%Z then
      {| sc_regions :=
           long_enough (sc_region_start st) (frame_start - silence_run + _WINDOW_SAMPLES)
             (sc_regions st);
         sc_in_speech := false; sc_region_start := sc_region_start st; sc_silence_run := 0 |}
    else
      {| sc_regions := sc_regions st; sc_in_speech := true;
         sc_region_start := sc_region_start st; sc_silence_run := silence_run |}
  else st.

Definition scan_start : Scan :=
  {| sc_regions := []; sc_in_speech := false; sc_region_start := 0; sc_silence_run := 0 |}.

Definition scan_regions (probs : list pyfloat) : list (Z * Z) :=
  let st := foldl scan_frame scan_start (zip (seq 0 (length probs)) probs) in
  if sc_in_speech st then
    long_enough (sc_region_start st) (Z.of_nat (length probs) * _WINDOW_SAMPLES) (sc_regions st)
  else sc_regions st.
End offline.

(** The probability of speech in each whole window; what follows the last one is not
    heard.  [return_seconds] is never set. *)
Definition _get_speech_timestamps_offline (total : Z) (model : nat → pyfloat) (threshold : pyfloat)
    (sampling_rate min_speech_duration_ms min_silence_duration_ms : Z) : list (Z * Z) :=
  scan_regions threshold
    (min_speech_duration_ms * sampling_rate / 1000)
    (min_silence_duration_ms * sampling_rate / 1000)
    (map model (seq 0 (Z.to_nat (total / _WINDOW_SAMPLES)))).

(** What the detector answers, in seconds. *)
Definition _load_and_detect (raw_segments : list (Z * Z)) : list SpeechSegment :=
  List.filter (λ s, flt (seg_start s) (seg_end s))
    (map (λ '(a, b), {| seg_start := fdiv (float_of_Z a) (float_of_Z _SAMPLE_RATE);
                        seg_end := fdiv (float_of_Z b) (float_of_Z _SAMPLE_RATE) |}) raw_segments).

(** ** Chunks of at most a given duration *)

(** [Diverges]: the code does not return. *)
Inductive chunked_error : Type :=
  | Diverges
  | PyError (e : pyexn)
  | OOMAtFloor
  | EngineFailed (e : string).

(** One round of the loop that cuts a long segment.  A round that does not move the
    cursor is repeated for ever. *)
Definition force_step (max_s end_ : pyfloat) (st : pyfloat * list SpeechSegment)
    : (pyfloat * list SpeechSegment) + option (list SpeechSegment) :=
  let '(cursor, pieces) := st in
  if flt cursor end_ then
    let next_end := fmin (fadd cursor max_s) end_ in
    if flt cursor next_end || is_nan next_end
    then inl (next_end, pieces ++ [{| seg_start := cursor; seg_end := next_end |}])
    else inr None
  else inr (Some pieces).

Definition force_split (max_s : pyfloat) (s : SpeechSegment) : res chunked_error (list SpeechSegment) :=
  match iter_until (force_step max_s (seg_end s)) float_fuel (seg_start s, []) with
  | inr (Some pieces) => Ok pieces
  | _ => Raise Diverges
  end.

Definition cap_segment (max_s : pyfloat) (capped : list SpeechSegment) (s : SpeechSegment)
    : res chunked_error (list SpeechSegment) :=
  if fle (seg_duration s) max_s then Ok (capped ++ [s])
  else pieces ← force_split max_s s; Ok (capped ++ pieces).

Definition cap_segments (max_s : pyfloat) (segments : list SpeechSegment)
    : res chunked_error (list SpeechSegment) :=
  res_foldl (cap_segment max_s) [] segments.

(** The loop's [groups], [current] and [current_start]. *)
Definition group_step (max_s : pyfloat)
    (st : list (list SpeechSegment) * (list SpeechSegment * option pyfloat)) (s : SpeechSegment)
    : list (list SpeechSegment) * (list SpeechSegment * option pyfloat) :=
  let '(groups, (current, current_start)) := st in
  match current_start with
  | None => (groups, ([s], Some (seg_start s)))
  | Some start =>
      if fle (fsub (seg_end s) start) max_s then (groups, (current ++ [s], Some start))
      else (groups ++ [current], ([s], Some (seg_start s)))
  end.

Definition group_segments (max_s : pyfloat) (capped : list SpeechSegment)
    : list (list SpeechSegment) :=
  let '(groups, (current, _)) := foldl (group_step max_s) ([], ([], None)) capped in
  match current with [] => groups | _ => groups ++ [current] end.

Definition py {A} (r : res pyexn A) : res chunked_error A :=
  match r with Ok a => Ok a | Raise e => Raise (PyError e) end.

(** The part of a group that is still to be done. *)
Definition resumed (start_offset_s : pyfloat) (group : list SpeechSegment)
    : option (pyfloat * pyfloat) :=
  match group with
  | [] => None
  | s :: _ =>
      let start_s := seg_start s in
      let end_s := seg_end (List.last group s) in
      if fle end_s (fadd start_offset_s (float_lit 1 1000)) then None
      else Some (if flt start_s start_offset_s then start_offset_s else start_s, end_s)
  end.

Definition sample_at (t : pyfloat) : res chunked_error Z :=
  py (round_int (fmul t (float_of_Z _SAMPLE_RATE))).

(** The chunk of a span of time; none when no sample is left. *)
Definition chunk_of (total_samples : Z) (span : pyfloat * pyfloat)
    : res chunked_error (option AudioChunk) :=
  a ← sample_at span.1;
  b ← sample_at span.2;
  let start_sample := Z.max 0 a in
  let end_sample := Z.min total_samples b in
  Ok (if (end_sample <=? start_sample)%Z then None
      else Some {| ac_audio := (start_sample, end_sample); ac_offset := span.1;
                   ac_duration := fdiv (float_of_Z (end_sample - start_sample))
                                    (float_of_Z _SAMPLE_RATE) |}).

Definition write_group (total_samples : Z) (start_offset_s : pyfloat) (chunks : list AudioChunk)
    (group : list SpeechSegment) : res chunked_error (list AudioChunk) :=
  match resumed start_offset_s group with
  | None => Ok chunks
  | Some span =>
      c ← chunk_of total_samples span;
      Ok (match c with Some c => chunks ++ [c] | None => chunks end)
  end.

Definition split (segments : list SpeechSegment) (total_samples : Z)
    (max_chunk_duration_s start_offset_s : pyfloat) : res chunked_error (list AudioChunk) :=
  match segments with
  | [] => Ok []
  | _ =>
      capped ← cap_segments max_chunk_duration_s segments;
      res_foldl (write_group total_samples start_offset_s) []
        (group_segments max_chunk_duration_s capped)
  end.

(** ** Passes over the chunks *)

Definition _MIN_CHUNK_FLOOR_S : pyfloat := float_of_Z 60.

(** How one call of [transcribe_audio] ends; [is_oom_error] tells the second case. *)
Inductive transcription : Type :=
  | Transcribed (t : Transcript)
  | OutOfMemory (e : string)
  | Failed (e : string).

Record _ChunkedRunResult := {
  cr_transcript : Transcript;
  cr_chunk_count : nat;
  cr_final_max_s : pyfloat;
}.

(** The names of the keyword arguments that [build_word] and [build_segment] are given
    by name: a key of the metadata that is one of them is a [TypeError]. *)
Definition WORD_ARGUMENTS : list string :=
  ["text"; "start"; "end"; "confidence"; "alignment_method"; "characters"; "phonemes"].
Definition SEGMENT_ARGUMENTS : list string :=
  ["start"; "end"; "text"; "words"; "language"; "confidence"; "segment_id"; "is_final";
   "is_speech"].

Definition extra (arguments : list string) (metadata : dict json) : res chunked_error (dict json) :=
  if existsb (λ k, mem_str k arguments) (dkeys metadata) then Raise (PyError TypeError)
  else Ok metadata.

Definition shift (offset t : pyfloat) : pyfloat := round3 (fadd t offset).

(** [build_word], as the merge calls it. *)
Definition shift_word (offset : pyfloat) (w : TranscriptWord) : res chunked_error TranscriptWord :=
  metadata ← extra WORD_ARGUMENTS (tw_metadata w);
  Ok {| tw_text := tw_text w; tw_start := shift offset (tw_start w);
        tw_end := shift offset (tw_end w); tw_confidence := tw_confidence w;
        tw_alignment_method := tw_alignment_method w; tw_language := None;
        tw_characters := tw_characters w; tw_phonemes := tw_phonemes w;
        tw_metadata := metadata |}.

(** The values of a list of results, or the first error. *)
Definition all_ok {E A B} (f : A → res E B) (l : list A) : res E (list B) :=
  res_foldl (λ acc a, b ← f a; Ok (acc ++ [b])) [] l.

(** [build_segment], as the merge calls it. *)
Definition shift_segment (offset : pyfloat) (s : TranscriptSegment)
    : res chunked_error TranscriptSegment :=
  words ← match ts_words s with
          | Some ws => ws ← all_ok (shift_word offset) ws; Ok (Some ws)
          | None => Ok None
          end;
  metadata ← extra SEGMENT_ARGUMENTS (ts_metadata s);
  Ok {| ts_id := ts_id s; ts_start := shift offset (ts_start s);
        ts_end := shift offset (ts_end s); ts_text := ts_text s; ts_words := words;
        ts_language := ts_language s; ts_language_confidence := None;
        ts_confidence := ts_confidence s; ts_is_final := ts_is_final s;
        ts_is_speech := ts_is_speech s; ts_metadata := metadata |}.

(** [build_transcript], as the merge calls it: the other fields have their defaults. *)
Definition build_transcript (text : string) (segments : list TranscriptSegment)
    (language engine_id : string) (language_confidence : option pyfloat)
    (alignment_method : string) (channel : option Z) (warnings : list string) : Transcript :=
  let has_words := existsb (λ s, match ts_words s with
                                 | Some (_ :: _) => true
                                 | _ => false
                                 end) segments in
  {| tr_text := text; tr_segments := segments; tr_language := language;
     tr_language_confidence := language_confidence; tr_language_source := None;
     tr_languages := None; tr_duration := None;
     tr_timestamp_granularity := if has_words then "word" else "segment";
     tr_alignment_method := alignment_method; tr_engine_id := engine_id;
     tr_channel := channel; tr_warnings := warnings; tr_metadata := [] |}.

Definition NO_SPEECH_WARNING : string :=
  "No speech detected by VAD; transcript is empty. If the audio does contain speech, lower DALSTON_VAD_THRESHOLD (narrowband/telephony audio often needs 0.3).".

(** The warnings in the order in which they first come. *)
Definition distinct_warnings (l : list string) : list string :=
  foldl (λ acc w, if mem_str w acc then acc else acc ++ [w]) [] l.

Definition merged_confidence (ts : list Transcript) : option pyfloat :=
  match omap tr_language_confidence ts with
  | [] => None
  | l => Some (fdiv (py_sum l) (float_of_Z (Z.of_nat (length l))))
  end.

Definition merged_text (ts : list Transcript) : string :=
  strip (join_words (map strip (List.filter (λ s, negb (String.eqb s EmptyString)) (map tr_text ts)))).

Section engine.
(** What this engine is called, whether it wants long audio cut and at what length,
    and how its [n]-th call ends on a piece of the audio ([None]: on the whole file). *)
Context (engine_id : string) (get_max_audio_duration_s : option pyfloat).
Context (transcribe_audio : nat → option (Z * Z) → transcription).

Definition _merge_chunk_transcripts (results : list (Transcript * pyfloat))
    : res chunked_error Transcript :=
  match results with
  | [] => Ok (build_transcript "" [] "und" engine_id None "unknown" None [NO_SPEECH_WARNING])
  | (first, _) :: _ =>
      segments ← all_ok (λ '(s, offset), shift_segment offset s)
                   (flat_map (λ '(t, offset), map (λ s, (s, offset)) (tr_segments t)) results);
      Ok (build_transcript (merged_text results.*1) segments (tr_language first)
            (tr_engine_id first) (merged_confidence results.*1) (tr_alignment_method first)
            (tr_channel first) (distinct_warnings (flat_map tr_warnings results.*1)))
  end.

(** What a chunked run keeps from pass to pass, the cap that the engine remembers
    from task to task ([_chunked_oom_cap_s]) and how often it has transcribed. *)
Record Passes := {
  pa_completed : list (Transcript * AudioChunk);
  pa_max_s : pyfloat;
  pa_remaining_start_s : pyfloat;
  pa_cached : option pyfloat;
  pa_calls : nat;
}.

(** The chunks of one pass, up to the first for which memory does not suffice. *)
Fixpoint run_chunks (calls : nat) (completed : list (Transcript * AudioChunk))
    (chunks : list AudioChunk)
    : nat * res chunked_error (list (Transcript * AudioChunk) * option AudioChunk) :=
  match chunks with
  | [] => (calls, Ok (completed, None))
  | c :: chunks =>
      match transcribe_audio calls (Some (ac_audio c)) with
      | Transcribed t => run_chunks (S calls) (completed ++ [(t, c)]) chunks
      | OutOfMemory _ => (S calls, Ok (completed, Some c))
      | Failed e => (S calls, Raise (EngineFailed e))
      end
  end.

Section passes.
Context (segments : list SpeechSegment) (total_samples : Z).

(** The end of the passes: what was cached, the calls made, and the result. *)
Definition passes_end : Type :=
  option pyfloat * nat * res chunked_error (list (Transcript * AudioChunk) * pyfloat).

Definition pass (st : Passes) : Passes + passes_end :=
  let fails calls e := inr (pa_cached st, calls, Raise e) in
  let ends calls completed := inr (pa_cached st, calls, Ok (completed, pa_max_s st)) in
  if fle (pa_max_s st) fzero then fails (pa_calls st) (PyError ValueError)
  else
    match (_ ← py (f_int (pa_max_s st));
           split segments total_samples (pa_max_s st) (pa_remaining_start_s st)) with
    | Raise e => fails (pa_calls st) e
    | Ok [] => ends (pa_calls st) (pa_completed st)
    | Ok chunks =>
        let '(calls, r) := run_chunks (pa_calls st) (pa_completed st) chunks in
        match r with
        | Raise e => fails calls e
        | Ok (completed, None) => ends calls completed
        | Ok (completed, Some c) =>
            let new_max_s := fmax (fdiv (pa_max_s st) (float_of_Z 2)) _MIN_CHUNK_FLOOR_S in
            if fle (pa_max_s st) new_max_s then fails calls OOMAtFloor
            else inl {| pa_completed := completed; pa_max_s := new_max_s;
                        pa_remaining_start_s := ac_offset c; pa_cached := Some new_max_s;
                        pa_calls := calls |}
        end
    end.

Definition _transcribe_chunks (max_chunk_s : pyfloat) (cached : option pyfloat) (calls : nat)
    : passes_end :=
  match iter_until pass float_fuel
          {| pa_completed := []; pa_max_s := max_chunk_s; pa_remaining_start_s := fzero;
             pa_cached := cached; pa_calls := calls |} with
  | inr e => e
  | inl st => (pa_cached st, pa_calls st, Raise Diverges)
  end.

Definition with_offset (tc : Transcript * AudioChunk) : Transcript * pyfloat :=
  (tc.1, ac_offset tc.2).

Definition _transcribe_chunks_with_backoff (max_chunk_s : pyfloat) (cached : option pyfloat)
    (calls : nat) : option pyfloat * nat * res chunked_error _ChunkedRunResult :=
  let '(cached, calls, r) := _transcribe_chunks max_chunk_s cached calls in
  (cached, calls,
   '(completed, final_max_s) ← r;
   transcript ← _merge_chunk_transcripts (map with_offset completed);
   Ok {| cr_transcript := transcript; cr_chunk_count := length completed;
         cr_final_max_s := final_max_s |}).

Definition _effective_chunk_cap (requested_max_s : pyfloat) (cached : option pyfloat) : pyfloat :=
  match cached with
  | Some c => if flt c requested_max_s then c else requested_max_s
  | None => requested_max_s
  end.

Definition _process_chunked (max_chunk_s : pyfloat) (cached : option pyfloat) (calls : nat)
    : option pyfloat * nat * res chunked_error Transcript :=
  let '(cached, calls, r) :=
    _transcribe_chunks_with_backoff (_effective_chunk_cap max_chunk_s cached) cached calls in
  (cached, calls, cr_transcript <$> r).

(** [audio_duration]: as the file's header gives it, if it can be read; [None] for
    [has_audio] false is a task without a file. *)
Definition process (has_audio : bool) (audio_duration : option pyfloat)
    (cached : option pyfloat) (calls : nat)
    : option pyfloat * nat * res chunked_error Transcript :=
  let direct := transcribe_audio calls None in
  let direct_result :=
    (cached, S calls, match direct with
                      | Transcribed t => Ok t
                      | OutOfMemory e | Failed e => Raise (EngineFailed e)
                      end) in
  match get_max_audio_duration_s, has_audio with
  | Some max_s, true =>
      match audio_duration with
      | None => direct_result
      | Some d =>
          if fle d max_s then
            match direct with
            | OutOfMemory _ =>
                _process_chunked (fmax (fdiv d (float_of_Z 2)) _MIN_CHUNK_FLOOR_S) cached (S calls)
            | _ => direct_result
            end
          else _process_chunked max_s cached calls
      end
  | _, _ => direct_result
  end.
End passes.
End engine.

(** ** Cutting long segments *)

(** What a detector promises of a region, and of one region and a later one. *)
Definition proper (s : SpeechSegment) : Prop :=
  fle fzero (seg_start s) = true ∧ flt (seg_start s) (seg_end s) = true.
Definition after (a b : SpeechSegment) : Prop := fle (seg_end a) (seg_start b) = true.
Definition within (s : SpeechSegment) (x : pyfloat) : Prop :=
  fle (seg_start s) x = true ∧ fle x (seg_end s) = true.

(** Adding the cap does not move the cursor: the code would not return. *)
Definition cursor_stuck (max_s : pyfloat) (s : SpeechSegment) : Prop :=
  ∃ cursor, fle (seg_start s) cursor = true ∧ flt cursor (seg_end s) = true ∧
    fle (fadd cursor max_s) cursor = true.

(** The pieces of a segment, up to the cursor. *)
Record pieces_ok (s : SpeechSegment) (cursor : pyfloat) (pieces : list SpeechSegment) : Prop := {
  po_start : fle (seg_start s) cursor = true;
  po_end : fle cursor (seg_end s) = true;
  po_proper : Forall proper pieces;
  po_sorted : StronglySorted after pieces;
  po_bounds : Forall (λ p, fle (seg_start s) (seg_start p) = true ∧
                           fle (seg_end p) cursor = true) pieces;
  po_first : pieces = [] → cursor = seg_start s;
  po_cover : ∀ x, fle (seg_start s) x = true → fle x cursor = true →
    pieces = [] ∨ ∃ p, p ∈ pieces ∧ within p x;
}.

Lemma pieces_snoc s cursor next pieces :
  proper s → pieces_ok s cursor pieces → flt cursor next = true →
  fle next (seg_end s) = true →
  pieces_ok s next (pieces ++ [{| seg_start := cursor; seg_end := next |}]).
Proof.
  intros [Hs0 Hs] [H1 H2 Hp Hso Hb Hf Hc] Hlt Hle. split.
  - forder.
  - done.
  - apply Forall_app. split; [done|]. apply Forall_singleton. split; cbn; forder.
  - apply StronglySorted_app. split; [|split; [done|repeat constructor]].
    intros a b Ha ->%list_elem_of_singleton. unfold after; cbn.
    rewrite Forall_forall in Hb. by apply Hb.
  - apply Forall_app. split; [|apply Forall_singleton; cbn; split; [done|forder]].
    eapply Forall_impl; [exact Hb|]. cbn. intros p [? ?]. split; [done|forder].
  - by destruct pieces.
  - intros x Hx1 Hx2. right.
    destruct (fle cursor x) eqn:Hcx.
    + eexists. rewrite elem_of_app, list_elem_of_singleton. split; [by right|]. by split.
    + assert (fle x cursor = true) as Hxc by (destruct (flt_num _ _ Hlt), (fle_num _ _ Hx1); forder).
      destruct (Hc x Hx1 Hxc) as [Hnil|(p & ? & ?)].
      * exfalso. rewrite (Hf Hnil) in Hcx. congruence.
      * exists p. rewrite elem_of_app. auto.
Qed.

Lemma force_step_ok max_s s st :
  proper s → fle fzero max_s = true → pieces_ok s st.1 st.2 →
  match force_step max_s (seg_end s) st with
  | inl st' => pieces_ok s st'.1 st'.2 ∧ flt st.1 st'.1 = true
  | inr (Some pieces) => pieces = st.2 ∧ flt st.1 (seg_end s) = false
  | inr None => cursor_stuck max_s s
  end.
Proof.
  destruct st as [cursor pieces]. cbn [fst snd]. intros [Hs0 Hs] Hmax Hp. unfold force_step.
  destruct (flt cursor (seg_end s)) eqn:Hlt; [|done]. cbv zeta.
  assert (Hc0 : fle fzero cursor = true) by (destruct Hp; forder).
  assert (Hadd : num (fadd cursor max_s)) by by apply fadd_num.
  assert (Hnext : num (fmin (fadd cursor max_s) (seg_end s))).
  { apply fmin_num; [done|]. by apply flt_num in Hlt as []. }
  destruct (flt cursor (fmin _ _)) eqn:Hmove; cbn [orb fst snd].
  - split; [|done]. apply pieces_snoc; [done..|forder].
  - unfold num in Hnext. rewrite Hnext. exists cursor. destruct Hp. split_and!; [done..|]. forder.
Qed.

Definition piece_of (s p : SpeechSegment) : Prop :=
  fle (seg_start s) (seg_start p) = true ∧ fle (seg_end p) (seg_end s) = true.

(** What the pieces of a segment are, and that the loop ends. *)
Lemma force_split_spec max_s s :
  proper s → fle fzero max_s = true → sized (seg_start s) → sized (seg_end s) → sized max_s →
  match force_split max_s s with
  | Ok pieces => Forall proper pieces ∧ StronglySorted after pieces ∧
      Forall (piece_of s) pieces ∧ ∀ x, within s x → ∃ p, p ∈ pieces ∧ within p x
  | Raise e => e = Diverges ∧ cursor_stuck max_s s
  end.
Proof.
  intros Hs Hmax Hz1 Hz2 Hz3. unfold force_split.
  assert (H0 : pieces_ok s (seg_start s) []).
  { destruct Hs as [? Hse]. split; try done; [|forder|constructor|auto].
    apply fle_refl. by apply flt_num in Hse as []. }
  set (P := λ st : pyfloat * list SpeechSegment, pieces_ok s st.1 st.2 ∧ sized st.1).
  assert (HP : ∀ st st', P st → force_step max_s (seg_end s) st = inl st' →
                 P st' ∧ (2 ^ 65 - fkey st'.1 < 2 ^ 65 - fkey st.1)%Z).
  { intros st st' [Hp Hz] Hstep. pose proof (force_step_ok max_s s st Hs Hmax Hp) as Hok.
    rewrite Hstep in Hok. destruct Hok as [Hp' Hlt].
    assert (sized st'.1) as Hz'.
    { destruct st as [c l]. unfold force_step in Hstep. repeat case_match; try done.
      injection Hstep as <-. cbn. apply fmin_size; [by apply fadd_size|done]. }
    split; [by split|]. apply fkey_lt in Hlt; [lia|done..]. }
  destruct (iter_until_ends (force_step max_s (seg_end s)) P (λ st, 2 ^ 65 - fkey st.1)%Z
              float_fuel (seg_start s, [])) as [r Hr]; [|exact HP|by split| |].
  { intros st [_ Hz]. pose proof (fkey_bound _ Hz). lia. }
  { pose proof (fkey_bound (seg_start s) Hz1) as Hk. unfold float_fuel. cbn [fst].
    change (Zpos (2 ^ 68)) with (2 ^ 68)%Z. lia. }
  pose proof (iter_until_inv (force_step max_s (seg_end s)) P
    (λ r, match r with
          | Some pieces => ∃ c, pieces_ok s c pieces ∧ flt c (seg_end s) = false
          | None => cursor_stuck max_s s
          end) float_fuel (seg_start s, [])) as Hinv.
  rewrite Hr in Hinv |- *. destruct r as [pieces|]; [|split; [done|]].
  - destruct Hinv as (c & [? ? Hp Hso Hb Hf Hc] & Hend); [|by split|].
    + intros st [Hp Hz]. pose proof (force_step_ok max_s s st Hs Hmax Hp) as Hok.
      destruct (force_step max_s (seg_end s) st) as [st'|[l|]] eqn:Hst; [by eapply HP| |done].
      destruct Hok as [-> ?]. eauto.
    + split_and!; [done..| |].
      * eapply Forall_impl; [exact Hb|]. intros p [? ?]. split; [done|forder].
      * intros x [Hx1 Hx2]. destruct (Hc x Hx1) as [->|?]; [|exfalso|done].
        -- destruct (fle_num _ _ Hx2), (fle_num _ _ po_end0). forder.
        -- rewrite (Hf eq_refl), (proj2 Hs) in Hend. done.
  - apply Hinv; [|by split]. intros st [Hp Hz].
    pose proof (force_step_ok max_s s st Hs Hmax Hp) as Hok.
    destruct (force_step max_s (seg_end s) st) as [st'|[l|]] eqn:Hst; [by eapply HP| |done].
    destruct Hok as [-> ?]. eauto.
Qed.

(** ** Grouping *)

(** Regions in order, with the times of speech [xs] in them. *)
Definition in_order (l : list SpeechSegment) : Prop := Forall proper l ∧ StronglySorted after l.
Definition speech (l : list SpeechSegment) (x : pyfloat) : Prop := ∃ s, s ∈ l ∧ within s x.
Definition all_sized (l : list SpeechSegment) : Prop :=
  Forall (λ s, sized (seg_start s) ∧ sized (seg_end s)) l.

Lemma speech_app l1 l2 x : speech (l1 ++ l2) x ↔ speech l1 x ∨ speech l2 x.
Proof. unfold speech. setoid_rewrite elem_of_app. naive_solver. Qed.

Lemma ordered_app l1 l2 :
  in_order (l1 ++ l2) ↔
  in_order l1 ∧ in_order l2 ∧ ∀ a b, a ∈ l1 → b ∈ l2 → after a b.
Proof. unfold in_order. rewrite Forall_app, StronglySorted_app. naive_solver. Qed.

(** A capped segment is one of the detected ones or a piece of it. *)
Definition of_segments (segments : list SpeechSegment) (p : SpeechSegment) : Prop :=
  ∃ s, s ∈ segments ∧ piece_of s p.

Lemma cap_segments_spec max_s segments :
  in_order segments → all_sized segments → fle fzero max_s = true → sized max_s →
  match cap_segments max_s segments with
  | Ok capped => in_order capped ∧ Forall (of_segments segments) capped ∧
      ∀ x, speech segments x → speech capped x
  | Raise e => e = Diverges ∧ ∃ s, s ∈ segments ∧ cursor_stuck max_s s
  end.
Proof.
  intros Hord Hz Hmax Hzm. unfold cap_segments.
  cut (∀ l done capped, segments = done ++ l → in_order capped → Forall (of_segments done) capped →
    (∀ x, speech done x → speech capped x) →
    match res_foldl (cap_segment max_s) capped l with
    | Ok capped => in_order capped ∧ Forall (of_segments segments) capped ∧
        ∀ x, speech segments x → speech capped x
    | Raise e => e = Diverges ∧ ∃ s, s ∈ segments ∧ cursor_stuck max_s s
    end).
  { intros H. apply (H segments []); [done|split; constructor|done|].
    intros x (s & Hs & _). by apply not_elem_of_nil in Hs. }
  induction l as [|s l IH]; intros done capped Hseg Hcap Hof Hcov; cbn [res_foldl].
  { rewrite app_nil_r in Hseg. by subst done. }
  assert (Hs : proper s ∧ sized (seg_start s) ∧ sized (seg_end s)).
  { subst segments. destruct Hord as [Hp _]. rewrite Forall_app, Forall_cons in Hp.
    unfold all_sized in Hz. rewrite Forall_app, Forall_cons in Hz. naive_solver. }
  destruct Hs as (Hs & Hz1 & Hz2).
  assert (Hnext : ∀ pieces, in_order pieces → Forall (piece_of s) pieces →
    (∀ x, within s x → speech pieces x) →
    match res_foldl (cap_segment max_s) (capped ++ pieces) l with
    | Ok capped => in_order capped ∧ Forall (of_segments segments) capped ∧
        ∀ x, speech segments x → speech capped x
    | Raise e => e = Diverges ∧ ∃ s, s ∈ segments ∧ cursor_stuck max_s s
    end).
  { intros pieces Hp Hpo Hpc. apply (IH (done ++ [s])); [by rewrite <-app_assoc| | |].
    - apply ordered_app. split; [done|]. split; [done|]. intros a b Ha Hb.
      rewrite Forall_forall in Hof, Hpo. destruct (Hof a Ha) as (s' & Hs' & [_ Ha2]).
      destruct (Hpo b Hb) as [Hb1 _].
      assert (after s' s) as Hss.
      { subst segments. destruct Hord as [_ Hord]. eapply StronglySorted_app_1_elem_of; [done..|].
        by apply elem_of_cons; left. }
      unfold after in *. forder.
    - apply Forall_app. split.
      + eapply Forall_impl; [exact Hof|]. intros p (s' & ? & ?). exists s'.
        rewrite elem_of_app. auto.
      + eapply Forall_impl; [exact Hpo|]. intros p ?. exists s.
        rewrite elem_of_app, list_elem_of_singleton. auto.
    - intros x [?|(s' & ->%list_elem_of_singleton & ?)]%speech_app; apply speech_app; auto. }
  unfold cap_segment at 1. destruct (fle (seg_duration s) max_s).
  - cbn [res_bind]. apply Hnext; [split; [by constructor|repeat constructor]| |].
    + apply Forall_singleton. destruct Hs as [Hs0 Hs]. split; apply fle_refl;
        by apply flt_num in Hs as [].
    + intros x ?. exists s. by rewrite list_elem_of_singleton.
  - pose proof (force_split_spec max_s s Hs Hmax Hz1 Hz2 Hzm) as Hf.
    destruct (force_split max_s s) as [pieces|e]; cbn [mbind res_mbind res_bind].
    + destruct Hf as (? & ? & ? & ?). by apply Hnext.
    + destruct Hf as [-> Hst]. split; [done|]. exists s. subst segments.
      by rewrite elem_of_app, elem_of_cons; auto.
Qed.

(** Every group is some of the capped segments, none is lost and none moved. *)
Lemma group_segments_spec max_s capped :
  concat (group_segments max_s capped) = capped ∧
  Forall (λ g, g ≠ []) (group_segments max_s capped).
Proof.
  unfold group_segments.
  cut (∀ l st, Forall (λ g, g ≠ []) st.1 → (st.2.1 = [] ↔ st.2.2 = None) →
    let '(groups, (current, start)) := foldl (group_step max_s) st l in
    concat groups ++ current = (concat st.1 ++ st.2.1) ++ l ∧ Forall (λ g, g ≠ []) groups).
  { intros H. specialize (H capped ([], ([], None))). cbn [fst snd] in H.
    destruct (foldl _ _ capped) as [groups [current start]].
    destruct H as [Hc Hg]; [constructor|done|]. cbn in Hc.
    destruct current as [|s current].
    - rewrite app_nil_r in Hc. done.
    - rewrite concat_app. cbn. rewrite app_nil_r. split; [done|].
      apply Forall_app. split; [done|]. by apply Forall_singleton. }
  induction l as [|s l IH]; intros [groups [current start]] Hg Hs; cbn [fst snd foldl] in *.
  { by rewrite app_nil_r. }
  set (st' := group_step max_s (groups, (current, start)) s).
  assert (Hst : Forall (λ g, g ≠ []) st'.1 ∧ (st'.2.1 = [] ↔ st'.2.2 = None) ∧
                concat st'.1 ++ st'.2.1 = (concat groups ++ current) ++ [s]).
  { subst st'. unfold group_step. destruct start as [st|].
    - assert (current ≠ []) by naive_solver.
      destruct (fle _ max_s); cbn [fst snd].
      + split_and!; [done| |by rewrite app_assoc]. split; [by destruct current|done].
      + split_and!; [by apply Forall_app; split; [|apply Forall_singleton]|done|].
        rewrite concat_app. cbn. by rewrite app_nil_r.
    - cbn. destruct Hs as [_ ->]; [|done]. by rewrite app_nil_r. }
  destruct Hst as (H1 & H2 & H3). specialize (IH st' H1 H2).
  destruct (foldl _ st' l) as [groups' [current' start']].
  destruct IH as [-> ?]. split; [|done]. by rewrite H3, <-app_assoc.
Qed.

(** ** The spans of the groups *)

Abbreviation span := (pyfloat * pyfloat)%type.
Definition span_before (a b : span) : Prop := fle a.2 b.1 = true ∧ fle a.1 b.1 = true.
Definition covered (spans : list span) (x : pyfloat) : Prop :=
  ∃ a, a ∈ spans ∧ fle a.1 x = true ∧ fle x a.2 = true.

(** The moments just after [r] that a resumed run may leave out. *)
Definition seam (r x : pyfloat) : Prop :=
  fle r x = true ∧ fle x (fadd r (float_lit 1 1000)) = true.

Definition spans_of (start_offset_s : pyfloat) (groups : list (list SpeechSegment)) : list span :=
  omap (resumed start_offset_s) groups.

Lemma within_group g s x :
  in_order g → head g = Some s → speech g x →
  fle (seg_start s) x = true ∧ fle x (seg_end (List.last g s)) = true.
Proof.
  destruct g as [|s' g]; [done|]. intros [Hp Hs] [= ->] (p & Hin & Hx1 & Hx2).
  rewrite last_cons_default.
  revert s Hp Hs Hin. induction g as [|s2 g IH] using rev_ind; intros s Hp Hs Hin.
  - apply list_elem_of_singleton in Hin as ->. done.
  - rewrite last_last. rewrite app_comm_cons in Hs, Hp, Hin.
    apply StronglySorted_app in Hs as (Hs2 & Hs1 & _). apply Forall_app in Hp as [Hp1 Hp2].
    apply Forall_singleton in Hp2 as [? Hp2].
    apply elem_of_app in Hin as [Hin|Hin%list_elem_of_singleton]; [|subst p].
    + assert (after p s2) as Hps by (apply Hs2; [done|by apply list_elem_of_singleton]).
      destruct (IH s Hp1 Hs1 Hin) as [? _]. split; [done|]. unfold after in Hps. forder.
    + assert (after s s2) as Hss.
      { apply Hs2; [by apply elem_of_cons; left|by apply list_elem_of_singleton]. }
      apply Forall_cons in Hp1 as [[_ Hsp] _]. unfold after in Hss. split; [forder|done].
Qed.

Lemma head_last_proper s g :
  in_order (s :: g) → fle fzero (seg_start s) = true ∧ num (seg_end (List.last (s :: g) s)).
Proof.
  intros [Hp _]. split; [by apply Forall_cons in Hp as [[? _] _]|].
  rewrite last_cons_default. clear -Hp. revert s Hp.
  induction g as [|s2 g IH]; intros s Hp.
  - apply Forall_singleton in Hp as [_ Hp]. by apply flt_num in Hp as [].
  - rewrite last_cons_default. apply IH. by apply Forall_cons in Hp as [_ ?].
Qed.

Lemma last_in {A} (s : A) g : List.last (s :: g) s ∈ s :: g.
Proof.
  rewrite last_cons_default. revert s. induction g as [|s2 g IH]; intros s.
  - by apply list_elem_of_singleton.
  - rewrite last_cons_default. apply elem_of_cons. right. apply IH.
Qed.

Lemma resumed_bounds off g a :
  in_order g → fle fzero off = true → resumed off g = Some a →
  fle off a.1 = true ∧ num a.1 ∧ num a.2 ∧
  ∀ p, p ∈ g → fle (seg_start p) a.2 = true.
Proof.
  destruct g as [|s g]; [done|]. intros Hg Hoff. unfold resumed. cbv zeta.
  destruct (fle _ (fadd off _)) eqn:Hle; [done|]. intros [= <-]. cbn [fst snd].
  destruct (head_last_proper s g Hg) as [Hs0 Hlast].
  assert (num off) by (by apply fle_num in Hoff as []).
  assert (num (seg_start s)) by (by apply fle_num in Hs0 as []).
  split_and!; [destruct (flt _ off) eqn:?; forder|by destruct (flt _ off)|done|].
  intros p Hp. assert (speech (s :: g) (seg_start p)) as Hsp.
  { exists p. split; [done|]. destruct Hg as [Hg _]. rewrite Forall_forall in Hg.
    destruct (Hg p Hp) as [? ?]. split; [|forder]. apply fle_refl. by apply fle_num in H1 as []. }
  by apply (within_group _ s) in Hsp as [_ ?].
Qed.

(** The spans come in order, from the resume boundary on, and leave out no speech but
    the millisecond after it. *)
Lemma spans_of_spec off groups :
  in_order (concat groups) → Forall (λ g, g ≠ []) groups → fle fzero off = true →
  StronglySorted span_before (spans_of off groups) ∧
  Forall (λ a, fle off a.1 = true ∧ num a.2) (spans_of off groups) ∧
  ∀ x, speech (concat groups) x → fle off x = true →
    covered (spans_of off groups) x ∨ seam off x.
Proof.
  intros Hord Hne Hoff. unfold spans_of.
  assert (Hnoff : num off) by (by apply fle_num in Hoff as []).
  assert (Hseam : num (fadd off (float_lit 1 1000))) by (by apply fadd_num).
  induction groups as [|g groups IH]; cbn [concat omap list_omap] in *.
  { split_and!; [constructor..|]. intros x (s & Hs & _). by apply not_elem_of_nil in Hs. }
  apply ordered_app in Hord as (Hg & Hgs & Hafter).
  apply Forall_cons in Hne as [Hne1 Hne].
  destruct (IH Hgs Hne) as (Hsort & Hlo & Hcov). clear IH.
  assert (Hin : ∀ x, speech g x → fle off x = true →
    (∃ a, resumed off g = Some a ∧ fle a.1 x = true ∧ fle x a.2 = true) ∨
    resumed off g = None ∧ seam off x).
  { intros x Hx Hox. destruct g as [|s g]; [done|].
    destruct (within_group (s :: g) s x Hg eq_refl Hx) as [Hx1 Hx2].
    unfold resumed. cbv zeta. destruct (fle _ (fadd off _)) eqn:Hle.
    - right. split; [done|]. split; [done|]. forder.
    - left. eexists. split; [done|]. cbn [fst snd]. split; [by case_match|done]. }
  destruct (resumed off g) as [a|] eqn:Ha.
  - destruct (resumed_bounds off g a Hg Hoff Ha) as (Hla & Hna1 & Hna2 & Hends). split_and!.
    + constructor; [done|]. apply Forall_forall. intros b Hb.
      apply list_elem_of_omap in Hb as (g' & Hg' & Hb).
      assert (Hg'' : in_order g').
      { apply list_elem_of_split in Hg' as (l1 & l2 & ->). rewrite concat_app in Hgs.
        apply ordered_app in Hgs as (_ & Hgs & _). cbn in Hgs.
        by apply ordered_app in Hgs as (? & _). }
      destruct (resumed_bounds off g' b Hg'' Hoff Hb) as (Hlb & Hnb1 & Hnb2 & _).
      destruct g as [|s g]; [done|]. destruct g' as [|s' g']; [done|].
      assert (Haft : ∀ p, p ∈ s :: g → after p s').
      { intros p Hp. apply Hafter; [done|]. apply list_elem_of_In, in_concat.
        exists (s' :: g'). split; [by apply list_elem_of_In|by left]. }
      assert (H1 := Haft _ (last_in s g)).
      assert (H2 : after s s') by (apply Haft, elem_of_cons; by left).
      assert (Hs : proper s) by (destruct Hg as [Hg _]; by apply Forall_cons in Hg as [? _]).
      destruct Hs as [Hs0 Hs]. unfold after in H1, H2. unfold resumed in Ha, Hb. cbv zeta in Ha, Hb.
      destruct (fle (seg_end (List.last (s :: g) s)) _) eqn:?; [done|].
      destruct (fle (seg_end (List.last (s' :: g') s')) _) eqn:?; [done|].
      injection Ha as <-. injection Hb as <-. cbn [fst snd] in *. unfold span_before. cbn [fst snd].
      split; destruct (flt (seg_start s') off) eqn:?, (flt (seg_start s) off) eqn:?; forder.
    + constructor; [done|done].
    + intros x [Hx|Hx]%speech_app Hox.
      * destruct (Hin x Hx Hox) as [(a' & [= <-] & ?)|[? _]]; [|done]. left. exists a.
        rewrite elem_of_cons. naive_solver.
      * destruct (Hcov x Hx Hox) as [(b & ? & ?)|?]; [left|by right]. exists b.
        rewrite elem_of_cons. naive_solver.
  - split_and!; [done..|]. intros x [Hx|Hx]%speech_app Hox.
    + destruct (Hin x Hx Hox) as [(a' & ? & _)|[_ ?]]; [done|by right].
    + by apply Hcov.
Qed.

(** ** The chunks of one pass *)

(** The chunks written for some spans: a span without samples has none. *)
Inductive chunks_written (total_samples : Z) : list span -> list AudioChunk -> Prop :=
  | written_nil : chunks_written total_samples [] []
  | written_none a spans chunks :
      chunk_of total_samples a = Ok None -> chunks_written total_samples spans chunks ->
      chunks_written total_samples (a :: spans) chunks
  | written_chunk a c spans chunks :
      chunk_of total_samples a = Ok (Some c) -> chunks_written total_samples spans chunks ->
      chunks_written total_samples (a :: spans) (c :: chunks).

Lemma chunk_of_offset total a c : chunk_of total a = Ok (Some c) → ac_offset c = a.1.
Proof.
  unfold chunk_of. destruct (sample_at a.1); [|done]. destruct (sample_at a.2); [|done].
  cbn [mbind res_mbind res_bind]. cbv zeta. case_match; [done|]. by intros [= <-].
Qed.

Lemma chunk_of_raises total a e : chunk_of total a = Raise e → ∃ p, e = PyError p.
Proof.
  assert (Hs : ∀ t e, sample_at t = Raise e → ∃ p, e = PyError p).
  { intros t e'. unfold sample_at, py. case_match; intros [= <-]. eauto. }
  unfold chunk_of. destruct (sample_at a.1) as [x|e1] eqn:H1; cbn [mbind res_mbind res_bind].
  - destruct (sample_at a.2) as [y|e2] eqn:H2; cbn [mbind res_mbind res_bind]; [done|].
    intros [= <-]. by eapply Hs.
  - intros [= <-]. by eapply Hs.
Qed.

Lemma written_app total s1 c1 s2 c2 :
  chunks_written total s1 c1 → chunks_written total s2 c2 → chunks_written total (s1 ++ s2) (c1 ++ c2).
Proof. induction 1; intros H2; cbn; [done|apply written_none; auto|apply written_chunk; auto]. Qed.

(** A chunk's place among the spans. *)
Lemma written_split total spans pre c post :
  chunks_written total spans (pre ++ c :: post) →
  ∃ sp1 a sp2, spans = sp1 ++ a :: sp2 ∧ chunks_written total sp1 pre ∧
    chunk_of total a = Ok (Some c) ∧ chunks_written total sp2 post.
Proof.
  intros H. remember (pre ++ c :: post) as chunks eqn:Hc. revert pre Hc.
  induction H as [|a spans chunks Ha H IH|a d spans chunks Ha H IH]; intros pre Hc.
  - by destruct pre.
  - destruct (IH pre Hc) as (sp1 & b & sp2 & -> & ? & ? & ?).
    exists (a :: sp1), b, sp2. split_and!; [done|by constructor|done..].
  - destruct pre as [|d' pre]; cbn in Hc; injection Hc as -> ->.
    + exists [], a, spans. split_and!; [done|constructor|done..].
    + destruct (IH pre eq_refl) as (sp1 & b & sp2 & -> & ? & ? & ?).
      exists (a :: sp1), b, sp2. split_and!; [done|by constructor|done..].
Qed.

Lemma write_groups total off groups chunks0 chunks :
  res_foldl (write_group total off) chunks0 groups = Ok chunks →
  ∃ new, chunks = chunks0 ++ new ∧ chunks_written total (spans_of off groups) new.
Proof.
  revert chunks0. induction groups as [|g groups IH]; intros chunks0 H; cbn [res_foldl] in H.
  { injection H as <-. exists []. rewrite app_nil_r. split; [done|constructor]. }
  unfold write_group at 1 in H. unfold spans_of. cbn [omap list_omap].
  destruct (resumed off g) as [a|]; [|by apply IH].
  destruct (chunk_of total a) as [[c|]|e] eqn:Hc; cbn [mbind res_mbind res_bind] in H; [| |done].
  - apply IH in H as (new & -> & Hw). exists (c :: new). rewrite <-app_assoc.
    split; [done|]. by constructor.
  - apply IH in H as (new & -> & Hw). exists new. split; [done|]. by constructor.
Qed.

(** One pass over the audio, from [off] on. *)
Lemma split_spec segments total max_s off :
  in_order segments → all_sized segments → fle fzero max_s = true → sized max_s →
  fle fzero off = true →
  match split segments total max_s off with
  | Ok chunks => ∃ spans, chunks_written total spans chunks ∧ StronglySorted span_before spans ∧
      Forall (λ a, fle off a.1 = true ∧ num a.2) spans ∧
      ∀ x, speech segments x → fle off x = true → covered spans x ∨ seam off x
  | Raise e => (e = Diverges ∧ ∃ s, s ∈ segments ∧ cursor_stuck max_s s) ∨ ∃ p, e = PyError p
  end.
Proof.
  intros Hord Hz Hmax Hzm Hoff. unfold split. destruct segments as [|s segments].
  { exists []. split_and!; [constructor..|]. intros x (s & Hs & _). by apply not_elem_of_nil in Hs. }
  pose proof (cap_segments_spec max_s (s :: segments) Hord Hz Hmax Hzm) as Hcap.
  destruct (cap_segments max_s (s :: segments)) as [capped|e]; cbn [mbind res_mbind res_bind];
    [|by left].
  destruct Hcap as (Hcap & _ & Hcov).
  pose proof (group_segments_spec max_s capped) as [Hgr Hne].
  set (groups := group_segments max_s capped) in *.
  destruct (res_foldl (write_group total off) [] groups) as [chunks|e] eqn:Hw.
  - apply write_groups in Hw as (new & -> & Hw). rewrite <-Hgr in Hcap.
    destruct (spans_of_spec off groups Hcap Hne Hoff) as (Hsort & Hlo & Hspans).
    exists (spans_of off groups). split_and!; [done..|]. intros x Hx.
    apply Hspans. rewrite Hgr. by apply Hcov.
  - right. clear -Hw. revert Hw. generalize (@nil AudioChunk).
    induction groups as [|g groups IH]; intros l Hw; cbn [res_foldl] in Hw; [done|].
    unfold write_group at 1 in Hw. destruct (resumed off g) as [a|]; [|by eapply IH].
    destruct (chunk_of total a) as [c|e'] eqn:Hc; cbn [mbind res_mbind res_bind] in Hw; [by eapply IH|].
    injection Hw as <-. by apply chunk_of_raises in Hc.
Qed.

(** ** The passes *)

Section passes_spec.
Context (transcribe_audio : nat → option (Z * Z) → transcription).
Context (segments : list SpeechSegment) (total_samples : Z).
Context (Hord : in_order segments) (Hsized : all_sized segments).

Definition transcribed (tc : Transcript * AudioChunk) : Prop :=
  ∃ n, transcribe_audio n (Some (ac_audio tc.2)) = Transcribed tc.1.

(** Where a run took up again: the beginning, or a chunk that memory was too small for. *)
Definition resume_point (r : pyfloat) : Prop :=
  r = fzero ∨ ∃ n c e, transcribe_audio n (Some (ac_audio c)) = OutOfMemory e ∧ ac_offset c = r.

Lemma run_chunks_spec calls completed chunks :
  match (run_chunks transcribe_audio calls completed chunks).2 with
  | Ok (completed', None) => ∃ new, completed' = completed ++ new ∧ new.*2 = chunks ∧
      Forall transcribed new
  | Ok (completed', Some c) => ∃ new post, completed' = completed ++ new ∧
      chunks = new.*2 ++ c :: post ∧ Forall transcribed new ∧
      ∃ n e, transcribe_audio n (Some (ac_audio c)) = OutOfMemory e
  | Raise e => ∃ m n a, e = EngineFailed m ∧ transcribe_audio n a = Failed m
  end.
Proof.
  revert calls completed. induction chunks as [|c chunks IH]; intros calls completed; cbn [run_chunks].
  { exists []. by rewrite app_nil_r. }
  destruct (transcribe_audio calls (Some (ac_audio c))) as [t|e|e] eqn:Ht.
  - specialize (IH (S calls) (completed ++ [(t, c)])).
    destruct (run_chunks _ (S calls) _ chunks) as [calls' [[completed' [d|]]|e]]; cbn [snd] in *.
    + destruct IH as (new & post & -> & -> & Hnew & Hr). exists ((t, c) :: new), post.
      rewrite <-app_assoc. split_and!; [done|done|constructor; [by exists calls|done]|done].
    + destruct IH as (new & -> & <- & Hnew). exists ((t, c) :: new).
      rewrite <-app_assoc. split_and!; [done|done|constructor; [by exists calls|done]].
    + done.
  - exists [], chunks. rewrite app_nil_r. split_and!; [done|done|done|]. by exists calls, e.
  - by exists e, calls, (Some (ac_audio c)).
Qed.

(** What has been done when a pass begins. *)
Record progress (completed : list (Transcript * AudioChunk)) (upto : pyfloat → Prop)
    (spans : list span) (seams : list pyfloat) : Prop := {
  pr_written : chunks_written total_samples spans completed.*2;
  pr_sorted : StronglySorted span_before spans;
  pr_seams : Forall resume_point seams;
  pr_transcribed : Forall transcribed completed;
  pr_cover : ∀ x, speech segments x → upto x → covered spans x ∨ ∃ r, r ∈ seams ∧ seam r x;
}.

(** The caps a run uses: the first one, and what remains of it above the floor. *)
Definition used_cap (max0 max_s : pyfloat) : Prop :=
  max_s = max0 ∨ fle _MIN_CHUNK_FLOOR_S max_s = true.

Record pass_ok (max0 : pyfloat) (st : Passes) : Prop := {
  pk_progress : ∃ spans seams, progress (pa_completed st)
    (λ x, flt x (pa_remaining_start_s st) = true) spans seams ∧
    Forall (λ a, fle a.2 (pa_remaining_start_s st) = true ∧
                 fle a.1 (pa_remaining_start_s st) = true) spans;
  pk_start : fle fzero (pa_remaining_start_s st) = true;
  pk_resume : resume_point (pa_remaining_start_s st);
  pk_sized : sized (pa_max_s st);
  pk_cap : used_cap max0 (pa_max_s st);
}.

(** Why a run does not give a transcript. *)
Definition explained (max0 : pyfloat) (e : chunked_error) : Prop :=
  match e with
  | Diverges => ∃ s max_s, s ∈ segments ∧ used_cap max0 max_s ∧
      flt fzero max_s = true ∧ cursor_stuck max_s s
  | OOMAtFloor => ∃ n a m max_s, transcribe_audio n a = OutOfMemory m ∧ used_cap max0 max_s ∧
      fle max_s (fmax (fdiv max_s (float_of_Z 2)) _MIN_CHUNK_FLOOR_S) = true
  | EngineFailed m => ∃ n a, transcribe_audio n a = Failed m
  | PyError _ => True
  end.

Definition run_ok (max0 : pyfloat) (r : res chunked_error (list (Transcript * AudioChunk) * pyfloat)) : Prop :=
  match r with
  | Ok (completed, _) => ∃ spans seams, progress completed (λ _, True) spans seams
  | Raise e => explained max0 e
  end.

Lemma fdiv_two_num x : is_finite x = true → num (fdiv x (float_of_Z 2)).
Proof.
  intros Hx. change (float_of_Z 2) with (S754_finite false (2 ^ 52) (-51)).
  destruct x as [s| | |s m e]; try done. apply fdiv_finite.
Qed.

(** The cap of the next pass is smaller, or there is none. *)
Lemma new_cap max0 max_s :
  used_cap max0 max_s → sized max_s → is_finite max_s = true →
  let new := fmax (fdiv max_s (float_of_Z 2)) _MIN_CHUNK_FLOOR_S in
  used_cap max0 new ∧ sized new ∧ (fle max_s new = false → flt new max_s = true).
Proof.
  intros Hu Hz Hf. cbv zeta.
  assert (Hn := fdiv_two_num max_s Hf). assert (Hfl : num _MIN_CHUNK_FLOOR_S) by done.
  assert (num max_s) by by destruct max_s.
  split_and!.
  - right. forder.
  - apply fmax_size; [|by vm_compute]. apply fdiv_size; [done|apply float_of_Z_size].
  - intros Hle. assert (num (fmax (fdiv max_s (float_of_Z 2)) _MIN_CHUNK_FLOOR_S))
      by by apply fmax_num.
    generalize dependent (fmax (fdiv max_s (float_of_Z 2)) _MIN_CHUNK_FLOOR_S). forder.
Qed.

Lemma progress_extends completed upto spans seams new spans' r :
  progress completed upto spans seams → chunks_written total_samples spans' new.*2 →
  Forall transcribed new → StronglySorted span_before spans' →
  (∀ a b, a ∈ spans → b ∈ spans' → span_before a b) → resume_point r →
  ∀ upto' : pyfloat → Prop,
  (∀ x, speech segments x → upto' x → upto x ∨ covered spans' x ∨ seam r x) →
  progress (completed ++ new) upto' (spans ++ spans') (seams ++ [r]).
Proof.
  intros [Hw Hs Hse Ht Hc] Hw' Ht' Hs' Hb Hr upto' Hup. split.
  - rewrite fmap_app. by apply written_app.
  - by apply StronglySorted_app.
  - apply Forall_app. by rewrite Forall_singleton.
  - by apply Forall_app.
  - intros x Hx [Hu|[(a & ? & ?)|?]]%Hup; [|left|right|done].
    + destruct (Hc x Hx Hu) as [(a & ? & ?)|(r' & ? & ?)]; [left; exists a|right; exists r'];
        rewrite elem_of_app; auto.
    + exists a. rewrite elem_of_app. auto.
    + exists r. rewrite elem_of_app, list_elem_of_singleton. auto.
Qed.

Lemma pass_spec max0 st :
  pass_ok max0 st →
  match pass transcribe_audio segments total_samples st with
  | inl st' => pass_ok max0 st' ∧ flt (pa_max_s st') (pa_max_s st) = true
  | inr (_, _, r) => run_ok max0 r
  end.
Proof.
  intros [(spans & seams & Hp & Hb) Hstart Hres Hz Hcap]. unfold pass. cbv zeta.
  destruct (fle (pa_max_s st) fzero) eqn:Hpos; [done|].
  destruct (f_int (pa_max_s st)) as [i|e] eqn:Hi; cbn [py mbind res_mbind res_bind]; [|done].
  assert (Hfin : is_finite (pa_max_s st) = true) by by destruct (pa_max_s st) as [|[]| |[]].
  assert (Hnum : num (pa_max_s st)) by by destruct (pa_max_s st).
  assert (Hpos' : flt fzero (pa_max_s st) = true) by forder.
  assert (Hpos0 : fle fzero (pa_max_s st) = true) by forder.
  pose proof (split_spec segments total_samples (pa_max_s st) (pa_remaining_start_s st)
    Hord Hsized Hpos0 Hz Hstart) as Hsplit.
  destruct (split _ _ _ _) as [chunks|e] eqn:Hsp; [|destruct Hsplit as [[-> (s & ? & ?)]|[p ->]]; [by exists s, (pa_max_s st)|done]].
  destruct Hsplit as (spans' & Hw & Hsort & Hlo & Hcov).
  assert (Hlater : ∀ a b, a ∈ spans → b ∈ spans' → span_before a b).
  { intros a b Ha Hb'. rewrite Forall_forall in Hb, Hlo.
    destruct (Hb a Ha), (Hlo b Hb'). split; forder. }
  set (upto := λ x, flt x (pa_remaining_start_s st) = true) in *.
  assert (Hall : ∀ x, speech segments x →
    upto x ∨ covered spans' x ∨ seam (pa_remaining_start_s st) x).
  { intros x Hx. unfold upto. destruct (flt x _) eqn:Hlt; [by left|right].
    apply Hcov; [done|]. destruct Hx as (p & _ & Hx & _).
    destruct (fle_num _ _ Hx), (fle_num _ _ Hstart). forder. }
  pose proof (run_chunks_spec (pa_calls st) (pa_completed st) chunks) as Hrun.
  assert (Hend : ∀ new, new.*2 = chunks → Forall transcribed new →
    ∃ spans seams, progress (pa_completed st ++ new) (λ _, True) spans seams).
  { intros new <- Hnew. do 2 eexists. eapply progress_extends; eauto. }
  destruct chunks as [|c0 chunks0] eqn:Hchunks.
  { specialize (Hend [] eq_refl). rewrite app_nil_r in Hend. by apply Hend. }
  rewrite <-Hchunks in *. clear Hchunks c0 chunks0.
  destruct (run_chunks _ _ _ chunks) as [calls [[completed [c|]]|e]]; cbn [snd] in Hrun.
  - destruct Hrun as (new & post & -> & Hcs & Hnew & n & e & Hoom).
    destruct (new_cap max0 _ Hcap Hz Hfin) as (Hcap' & Hz' & Hlt).
    destruct (fle (pa_max_s st) (fmax _ _)) eqn:Hle.
    + by exists n, (Some (ac_audio c)), e, (pa_max_s st).
    + split; [|by apply Hlt]. subst chunks.
      apply written_split in Hw as (sp1 & a & sp2 & -> & Hw1 & Ha & Hw2).
      apply StronglySorted_app in Hsort as (Hs12 & Hs1 & Hs2).
      apply StronglySorted_cons in Hs2 as [Ha2 _].
      apply chunk_of_offset in Ha.
      split; cbn [pa_completed pa_remaining_start_s pa_max_s]; [|..|done|done].
      * exists (spans ++ sp1), (seams ++ [pa_remaining_start_s st]). split.
        -- eapply progress_extends; [done|done|done|done| |done|].
           ++ intros x y Hx Hy. apply Hlater; [done|]. apply elem_of_app. by left.
           ++ intros x Hx Hxa. rewrite Ha in Hxa.
              destruct (Hall x Hx) as [?|[(b & Hb1 & Hb2 & Hb3)|?]]; [by left| |by right; right].
              right. left. exists b. split; [|done].
              apply elem_of_app in Hb1 as [?|[->|Hb1]%elem_of_cons]; [done|exfalso; forder|].
              rewrite Forall_forall in Ha2. destruct (Ha2 b Hb1) as [_ ?]. exfalso. forder.
        -- rewrite Ha. apply Forall_app. rewrite Forall_app, Forall_cons in Hlo.
           destruct Hlo as (_ & [Hra _] & _). split.
           ++ eapply Forall_impl; [exact Hb|]. intros b [? ?]. split; forder.
           ++ apply Forall_forall. intros b Hb'. apply Hs12; [done|]. apply elem_of_cons. by left.
      * rewrite Ha. rewrite Forall_app, Forall_cons in Hlo. destruct Hlo as (_ & [Hra _] & _). forder.
      * right. by exists n, c, e.
  - destruct Hrun as (new & -> & Hnew1 & Hnew2). by apply Hend.
  - destruct Hrun as (m & n & a & -> & ?). by exists n, a.
Qed.

Lemma passes_end_spec max0 cached calls :
  sized max0 →
  run_ok max0 (_transcribe_chunks transcribe_audio segments total_samples max0 cached calls).2.
Proof.
  intros Hz. unfold _transcribe_chunks.
  set (st0 := {| pa_completed := _ |}).
  assert (H0 : pass_ok max0 st0).
  { split; cbn; [|done|by left|done|by left]. exists [], []. split; [|constructor].
    split; [constructor..|]. cbn. intros x (p & Hp & Hpx & _) Hlt. exfalso.
    destruct Hord as [Hpr _]. rewrite Forall_forall in Hpr. destruct (Hpr p Hp) as [? _]. forder. }
  destruct (iter_until_ends (pass transcribe_audio segments total_samples) (pass_ok max0)
    (λ st, fkey (pa_max_s st) + 2 ^ 65)%Z float_fuel st0) as [r Hr].
  - intros st Hst. pose proof (fkey_bound _ (pk_sized _ _ Hst)). lia.
  - intros st st' Hst Hp. pose proof (pass_spec max0 st Hst) as Hs. rewrite Hp in Hs.
    destruct Hs as [Hst' Hlt]. split; [done|].
    apply fkey_lt in Hlt; [lia|apply Hst'|apply Hst].
  - done.
  - pose proof (fkey_bound max0 Hz) as Hk. unfold float_fuel. cbn [pa_max_s st0].
    change (Zpos (2 ^ 68)) with (2 ^ 68)%Z. subst st0. cbn [pa_max_s]. lia.
  - pose proof (iter_until_inv (pass transcribe_audio segments total_samples) (pass_ok max0)
      (λ r, run_ok max0 r.2) float_fuel st0) as Hinv.
    rewrite Hr in Hinv |- *. apply Hinv; [|done]. intros st Hst.
    pose proof (pass_spec max0 st Hst) as Hs.
    destruct (pass _ _ _ st) as [st'|[[? ?] ?]]; [by destruct Hs|done].
Qed.

(** C17: a run over long audio ends, unless adding the cap to a time is lost in its
    rounding.  When it gives transcripts, each is that of a written chunk, the chunks
    come in order and do not overlap, and every moment of detected speech is in one of
    them, whatever passes were needed, but for the millisecond after the beginning of
    a pass.  Otherwise the error says what happened: the engine failed, or memory did
    not suffice for a chunk when the cap could not be lowered further. *)
Theorem long_audio_transcribed max0 cached calls :
  sized max0 →
  match (_transcribe_chunks transcribe_audio segments total_samples max0 cached calls).2 with
  | Ok (completed, _) => ∃ spans seams,
      chunks_written total_samples spans completed.*2 ∧ StronglySorted span_before spans ∧
      Forall resume_point seams ∧ Forall transcribed completed ∧
      ∀ x, speech segments x → covered spans x ∨ ∃ r, r ∈ seams ∧ seam r x
  | Raise e => explained max0 e
  end.
Proof.
  intros Hz. pose proof (passes_end_spec max0 cached calls Hz) as H.
  destruct (_transcribe_chunks _ _ _ _ _ _).2 as [[completed m]|e]; cbn [run_ok] in H; [|done].
  destruct H as (spans & seams & [? ? ? ? ?]). exists spans, seams. split_and!; auto.
Qed.
End passes_spec.

(** ** The offline scan *)

Section scan_spec.
Context (threshold : pyfloat) (min_speech min_silence : Z) (Hms : (0 ≤ min_silence)%Z).

Definition speech_at (probs : list pyfloat) (j : nat) : Prop :=
  ∃ p, probs !! j = Some p ∧ fle threshold p = true.
Definition frame_start (j : nat) : Z := Z.of_nat j * _WINDOW_SAMPLES.
Definition heard_in (a b : Z) (j : nat) : Prop := (a ≤ frame_start j ∧ frame_start (S j) ≤ b)%Z.

(** No speech frame lies between two samples. *)
Definition quiet (probs : list pyfloat) (a b : Z) : Prop :=
  ∀ j, speech_at probs j → ¬ heard_in a b j.

(** A stretch with a silence before it and after it. *)
Definition stretch (probs : list pyfloat) (a b : Z) : Prop :=
  (0 ≤ a < b)%Z ∧ quiet probs (a - min_silence) a ∧ quiet probs b (b + min_silence).

Definition apart (x y : Z * Z) : Prop := (x.2 + min_silence ≤ y.1)%Z.

Record scan_ok (probs : list pyfloat) (st : Scan) : Prop := {
  so_regions : Forall (λ r, stretch probs r.1 r.2 ∧ (min_speech ≤ r.2 - r.1)%Z ∧
    (r.2 + min_silence ≤
       if sc_in_speech st then sc_region_start st else frame_start (length probs))%Z)
    (sc_regions st);
  so_sorted : StronglySorted apart (sc_regions st);
  so_heard : ∀ j, speech_at probs j →
    (∃ r, r ∈ sc_regions st ∧ heard_in r.1 r.2 j) ∨
    (∃ a b, heard_in a b j ∧ stretch probs a b ∧ (b - a < min_speech)%Z ∧
       (b + min_silence ≤ frame_start (length probs))%Z) ∨
    sc_in_speech st = true ∧ (sc_region_start st ≤ frame_start j)%Z;
  so_in : sc_in_speech st = true →
    (0 ≤ sc_region_start st < frame_start (length probs) - sc_silence_run st)%Z ∧
    (0 ≤ sc_silence_run st)%Z ∧
    quiet probs (sc_region_start st - min_silence) (sc_region_start st) ∧
    ∀ j, speech_at probs j → (frame_start (S j) ≤ frame_start (length probs) - sc_silence_run st)%Z;
  so_out : sc_in_speech st = false →
    ∀ j, speech_at probs j → (frame_start (S j) + min_silence ≤ frame_start (length probs))%Z;
}.

Lemma speech_at_snoc probs p j :
  speech_at (probs ++ [p]) j ↔ speech_at probs j ∨ j = length probs ∧ fle threshold p = true.
Proof.
  unfold speech_at. split.
  - intros (q & Hq & Hf). apply lookup_app_Some in Hq as [?|[Hle Hq]]; [left; eauto|right].
    apply list_lookup_singleton_Some in Hq as [Hj ->]. split; [lia|done].
  - intros [(q & Hq & Hf)|[-> Hf]].
    + exists q. split; [by apply lookup_app_l_Some|done].
    + exists p. split; [|done]. by rewrite list_lookup_middle.
Qed.

Lemma frame_start_S j : frame_start (S j) = (frame_start j + 512)%Z.
Proof. unfold frame_start, _WINDOW_SAMPLES. lia. Qed.

(** A later frame is not within what has been heard so far. *)
Lemma quiet_snoc probs p a b :
  quiet probs a b → (b ≤ frame_start (length probs))%Z → quiet (probs ++ [p]) a b.
Proof.
  intros Hq Hb j [Hj|[-> _]]%speech_at_snoc [H1 H2]; [by apply (Hq j Hj)|].
  rewrite frame_start_S in H2. lia.
Qed.

Lemma stretch_snoc probs p a b :
  stretch probs a b → (b + min_silence ≤ frame_start (length probs))%Z →
  (a ≤ frame_start (length probs))%Z → stretch (probs ++ [p]) a b.
Proof.
  intros [Hab [H1 H2]] ??. split; [done|]. split; apply quiet_snoc; done || lia.
Qed.

(** What a silence of enough length ends, or the end of the audio. *)
Lemma long_enough_ok probs st b :
  scan_ok probs st → sc_in_speech st = true →
  (frame_start (length probs) - sc_silence_run st ≤ b)%Z →
  let regions := long_enough min_speech (sc_region_start st) b (sc_regions st) in
  stretch probs (sc_region_start st) b ∧
  Forall (λ r, stretch probs r.1 r.2 ∧ (min_speech ≤ r.2 - r.1 ∧ r.2 ≤ b)%Z) regions ∧
  StronglySorted apart regions ∧
  ∀ j, speech_at probs j →
    (∃ r, r ∈ regions ∧ heard_in r.1 r.2 j) ∨
    (∃ a b, heard_in a b j ∧ stretch probs a b ∧ (b - a < min_speech)%Z).
Proof.
  intros [Hr Hs Hh Hi _] Hin Hb. destruct (Hi Hin) as (Hst & Hsil & Hq & Hlast). cbv zeta.
  rewrite Hin in Hr.
  assert (Hstr : stretch probs (sc_region_start st) b).
  { split; [lia|]. split; [done|]. intros j Hj [H1 H2]. specialize (Hlast j Hj).
    rewrite frame_start_S in Hlast. lia. }
  assert (Hold : Forall (λ r, stretch probs r.1 r.2 ∧ (min_speech ≤ r.2 - r.1 ∧ r.2 ≤ b)%Z)
                   (sc_regions st)).
  { eapply Forall_impl; [exact Hr|]. intros r (? & ? & ?). split_and!; [done|lia|lia]. }
  assert (Hj : ∀ j, speech_at probs j →
    (∃ r, r ∈ sc_regions st ∧ heard_in r.1 r.2 j) ∨
    (∃ a b, heard_in a b j ∧ stretch probs a b ∧ (b - a < min_speech)%Z) ∨
    heard_in (sc_region_start st) b j).
  { intros j Hj. destruct (Hh j Hj) as [?|[(a & b' & ? & ? & ? & _)|[_ ?]]]; [by left| |].
    - right. left. by exists a, b'.
    - right. right. split; [done|]. specialize (Hlast j Hj). lia. }
  split; [done|]. unfold long_enough.
  destruct (min_speech <=? b - sc_region_start st)%Z eqn:Hlong.
  - split_and!.
    + apply Forall_app. split; [done|]. apply Forall_singleton. cbn. split_and!; [done|lia|lia].
    + apply StronglySorted_app. split; [|split; [done|repeat constructor]].
      intros r r' Hr1 ->%list_elem_of_singleton. rewrite Forall_forall in Hr.
      unfold apart. cbn. by apply Hr.
    + intros j Hjs. destruct (Hj j Hjs) as [(r & ? & ?)|[?|?]]; [left|by right|left].
      * exists r. rewrite elem_of_app. auto.
      * exists (sc_region_start st, b). rewrite elem_of_app, list_elem_of_singleton. auto.
  - split_and!; [done|done|].
    intros j Hjs. destruct (Hj j Hjs) as [?|[?|?]]; [by left|by right|right].
    exists (sc_region_start st), b. split_and!; [done|done|lia].
Qed.

Lemma scan_frame_ok probs p st :
  scan_ok probs st →
  scan_ok (probs ++ [p]) (scan_frame threshold min_speech min_silence st (length probs, p)).
Proof.
  intros Hok. pose proof Hok as [Hr Hs Hh Hi Ho]. unfold scan_frame.
  fold (frame_start (length probs)).
  assert (Hlen : frame_start (length (probs ++ [p])) = (frame_start (length probs) + 512)%Z).
  { by rewrite length_app, Nat.add_1_r, frame_start_S. }
  assert (Hpos : (0 ≤ frame_start (length probs))%Z) by (unfold frame_start, _WINDOW_SAMPLES; lia).
  assert (Hregions : ∀ to : Z,
    ((if sc_in_speech st then sc_region_start st else frame_start (length probs)) ≤ to)%Z →
    Forall (λ r, stretch (probs ++ [p]) r.1 r.2 ∧ (min_speech ≤ r.2 - r.1)%Z ∧
      (r.2 + min_silence ≤ to)%Z) (sc_regions st)).
  { intros to Hto. eapply Forall_impl; [exact Hr|]. intros r (Hst & ? & Hend).
    split_and!; [|done|lia]. destruct Hst as (Hab & ?). apply stretch_snoc; [done| |].
    all: destruct (sc_in_speech st); [destruct (Hi eq_refl) as ((?&?)&?&_); lia|lia]. }
  assert (Hheard : ∀ j, speech_at probs j →
    (∃ r, r ∈ sc_regions st ∧ heard_in r.1 r.2 j) ∨
    (∃ a b, heard_in a b j ∧ stretch (probs ++ [p]) a b ∧ (b - a < min_speech)%Z ∧
       (b + min_silence ≤ frame_start (length (probs ++ [p])))%Z) ∨
    sc_in_speech st = true ∧ (sc_region_start st ≤ frame_start j)%Z).
  { intros j Hj. destruct (Hh j Hj) as [?|[(a & b & ? & Hst & ? & ?)|?]]; [by left| |by right; right].
    right. left. exists a, b. pose proof Hst as ((? & ?) & _).
    split_and!; [done|apply stretch_snoc; [done|lia|lia]|lia|lia]. }
  destruct (fle threshold p) eqn:Hp; [|destruct (sc_in_speech st) eqn:Hin].
  - (* speech *)
    set (start := if sc_in_speech st then _ else _).
    assert (Hstart : (0 ≤ start ≤ frame_start (length probs))%Z ∧
      quiet probs (start - min_silence) start).
    { subst start. destruct (sc_in_speech st); [destruct (Hi eq_refl) as (? & ? & ? & _); split; [lia|done]|].
      split; [lia|]. intros j Hj [H1 H2]. specialize (Ho eq_refl j Hj). rewrite frame_start_S in Ho. lia. }
    destruct Hstart as [Hst0 Hq].
    split; cbn [sc_regions sc_in_speech sc_region_start sc_silence_run]; [|done| | |done].
    + apply Hregions. subst start. by destruct (sc_in_speech st).
    + intros j [Hj|[-> _]]%speech_at_snoc; [|right; right; split; [done|lia]].
      destruct (Hheard j Hj) as [?|[?|[Hin ?]]]; [by left|by right; left|right; right].
      subst start. rewrite Hin. done.
    + intros _. rewrite Hlen. split_and!; [lia|lia|lia|apply quiet_snoc; [done|lia]|].
      intros j [Hj|[-> _]]%speech_at_snoc; [|rewrite frame_start_S; lia].
      destruct (sc_in_speech st).
      * destruct (Hi eq_refl) as (_ & ? & _ & Hl). specialize (Hl j Hj). lia.
      * specialize (Ho eq_refl j Hj). lia.
  - (* silence within speech *)
    destruct (Hi eq_refl) as (Hst & Hsil & Hq & Hl). cbv zeta. unfold _WINDOW_SAMPLES.
    destruct (min_silence <=? sc_silence_run st + 512)%Z eqn:Hend.
    + set (b := (frame_start (length probs) - (sc_silence_run st + 512) + 512)%Z).
      assert (Hstr : stretch probs (sc_region_start st) b).
      { by apply (long_enough_ok probs st b Hok Hin ltac:(lia)). }
      assert (Hstr' : stretch (probs ++ [p]) (sc_region_start st) b).
      { destruct Hstr as [Hab [H1 H2]]. split; [done|]. split; [apply quiet_snoc; [done|lia]|].
        intros j [Hj|[-> Hf]]%speech_at_snoc; [by apply H2|congruence]. }
      split; cbn [sc_regions sc_in_speech sc_region_start sc_silence_run]; [| | |done|].
      * rewrite Hlen. unfold long_enough.
        destruct (min_speech <=? b - sc_region_start st)%Z eqn:Hlong; [|apply Hregions; lia].
        apply Forall_app. split; [apply Hregions; lia|]. apply Forall_singleton. cbn.
        split_and!; [done|lia|lia].
      * by apply (long_enough_ok probs st b Hok Hin ltac:(lia)).
      * intros j [Hj|[-> Hf]]%speech_at_snoc; [|congruence].
        unfold long_enough. destruct (Hheard j Hj) as [(r & Hr1 & ?)|[?|[_ Hge]]].
        -- left. exists r. split; [|done]. case_match; [apply elem_of_app; by left|done].
        -- right. by left.
        -- specialize (Hl j Hj). assert (heard_in (sc_region_start st) b j) by (split; [done|lia]).
           destruct (min_speech <=? b - sc_region_start st)%Z eqn:Hlong.
           ++ left. exists (sc_region_start st, b). rewrite elem_of_app, list_elem_of_singleton. auto.
           ++ right. left. exists (sc_region_start st), b. split_and!; [done|done|lia|lia].
      * intros _ j [Hj|[-> Hf]]%speech_at_snoc; [|congruence]. specialize (Hl j Hj). lia.
    + split; cbn [sc_regions sc_in_speech sc_region_start sc_silence_run]; [|done| | |done].
      * apply Hregions. lia.
      * intros j [Hj|[-> Hf]]%speech_at_snoc; [|congruence]. by apply Hheard.
      * intros _. rewrite Hlen. split_and!; [lia|lia|lia|apply quiet_snoc; [done|lia]|].
        intros j [Hj|[-> Hf]]%speech_at_snoc; [|congruence]. specialize (Hl j Hj). lia.
  - (* silence *)
    split; rewrite ?Hin; [|done| |done|].
    + apply Hregions. lia.
    + intros j [Hj|[-> Hf]]%speech_at_snoc; [|congruence].
      destruct (Hheard j Hj) as [?|[?|[? _]]]; [by left|by right; left|done].
    + intros _ j [Hj|[-> Hf]]%speech_at_snoc; [|congruence]. specialize (Ho eq_refl j Hj). lia.
Qed.

Lemma scan_ok_start : scan_ok [] scan_start.
Proof.
  split; cbn; [done|constructor| |done|]; intros; try done;
    match goal with H : speech_at [] _ |- _ => by destruct H as (? & ? & _) end.
Qed.

Lemma scan_all_ok probs :
  scan_ok probs (foldl (scan_frame threshold min_speech min_silence) scan_start
                   (zip (seq 0 (length probs)) probs)).
Proof.
  induction probs as [|p probs IH] using rev_ind; [apply scan_ok_start|].
  rewrite length_app, Nat.add_1_r, seq_S, zip_with_app by by rewrite length_seq.
  rewrite foldl_app. by apply scan_frame_ok.
Qed.

(** The regions that the offline scan finds are stretches with enough silence on
    both sides and enough length, in order and apart; a frame that is speech lies in
    one of them, or in a stretch too short to count. *)
Theorem offline_scan probs :
  let regions := scan_regions threshold min_speech min_silence probs in
  Forall (λ r, stretch probs r.1 r.2 ∧
    (min_speech ≤ r.2 - r.1 ∧ r.2 ≤ frame_start (length probs))%Z) regions ∧
  StronglySorted apart regions ∧
  ∀ j, speech_at probs j →
    (∃ r, r ∈ regions ∧ heard_in r.1 r.2 j) ∨
    (∃ a b, heard_in a b j ∧ stretch probs a b ∧ (b - a < min_speech)%Z).
Proof.
  cbv zeta. unfold scan_regions. fold (frame_start (length probs)).
  pose proof (scan_all_ok probs) as Hok.
  set (st := foldl _ _ _) in *. destruct (sc_in_speech st) eqn:Hin.
  - apply (long_enough_ok probs st _ Hok Hin). destruct Hok as [_ _ _ Hi _].
    destruct (Hi Hin) as (_ & ? & _). lia.
  - destruct Hok as [Hr Hs Hh _ _]. rewrite Hin in Hr. split_and!; [|done|].
    + eapply Forall_impl; [exact Hr|]. intros r (? & ? & ?). split_and!; [done|lia|lia].
    + intros j Hj. destruct (Hh j Hj) as [?|[(a & b & ? & ? & ? & _)|[? _]]];
        [by left|right; by exists a, b|congruence].
Qed.
End scan_spec.

(** ** The merged transcript *)

Lemma all_ok_spec {E A B} (f : A → res E B) l l' :
  all_ok f l = Ok l' ↔ Forall2 (λ a b, f a = Ok b) l l'.
Proof.
  unfold all_ok. cut (∀ acc, res_foldl (λ acc a, b ← f a; Ok (acc ++ [b])) acc l = Ok l' ↔
    ∃ new, l' = acc ++ new ∧ Forall2 (λ a b, f a = Ok b) l new).
  { intros H. rewrite (H []). cbn [app]. split; [by intros (new & -> & ?)|eauto]. }
  induction l as [|a l IH]; intros acc; cbn [res_foldl].
  - split.
    + intros [= <-]. exists []. by rewrite app_nil_r.
    + intros (new & -> & H%Forall2_nil_inv_l). subst. by rewrite app_nil_r.
  - destruct (f a) as [b|e] eqn:Hf; cbn [mbind res_mbind res_bind].
    + rewrite IH. split.
      * intros (new & -> & ?). exists (b :: new). rewrite <-app_assoc. split; [done|by constructor].
      * intros (new & -> & H). inversion H as [|? b' ? new' Hb Hn]; subst.
        rewrite Hf in Hb. injection Hb as ->. exists new'. by rewrite <-app_assoc.
    + split; [done|]. intros (new & _ & H). inversion H. congruence.
Qed.

(** A word of the merged transcript and where it comes from: its times are moved, those
    of its characters and phonemes are not, and its language is lost. *)
Record moved_word (offset : pyfloat) (w w' : TranscriptWord) : Prop := {
  mw_text : tw_text w' = tw_text w;
  mw_start : tw_start w' = shift offset (tw_start w);
  mw_end : tw_end w' = shift offset (tw_end w);
  mw_confidence : tw_confidence w' = tw_confidence w;
  mw_alignment_method : tw_alignment_method w' = tw_alignment_method w;
  mw_language : tw_language w' = None;
  mw_characters : tw_characters w' = tw_characters w;
  mw_phonemes : tw_phonemes w' = tw_phonemes w;
  mw_metadata : tw_metadata w' = tw_metadata w;
}.

Record moved_segment (so : TranscriptSegment * pyfloat) (s' : TranscriptSegment) : Prop := {
  mv_id : ts_id s' = ts_id so.1;
  mv_start : ts_start s' = shift so.2 (ts_start so.1);
  mv_end : ts_end s' = shift so.2 (ts_end so.1);
  mv_text : ts_text s' = ts_text so.1;
  mv_words : match ts_words so.1, ts_words s' with
             | Some ws, Some ws' => Forall2 (moved_word so.2) ws ws'
             | None, None => True
             | _, _ => False
             end;
  mv_language : ts_language s' = ts_language so.1;
  mv_language_confidence : ts_language_confidence s' = None;
  mv_confidence : ts_confidence s' = ts_confidence so.1;
  mv_is_final : ts_is_final s' = ts_is_final so.1;
  mv_is_speech : ts_is_speech s' = ts_is_speech so.1;
  mv_metadata : ts_metadata s' = ts_metadata so.1;
}.

Lemma shift_word_ok offset w w' : shift_word offset w = Ok w' → moved_word offset w w'.
Proof.
  unfold shift_word, extra. case_match; cbn [mbind res_mbind res_bind]; [done|].
  intros [= <-]. by split.
Qed.

Lemma shift_segment_ok s offset s' : shift_segment offset s = Ok s' → moved_segment (s, offset) s'.
Proof.
  unfold shift_segment, extra. destruct (ts_words s) as [ws|] eqn:Hws; cbn [mbind res_mbind res_bind].
  - destruct (all_ok (shift_word offset) ws) as [ws'|e] eqn:Hall; cbn [mbind res_mbind res_bind];
      [|done]. apply all_ok_spec in Hall.
    case_match; cbn [mbind res_mbind res_bind]; [done|]. intros [= <-]. split; try done.
    cbn. rewrite Hws. eapply Forall2_impl; [exact Hall|apply shift_word_ok].
  - case_match; cbn [mbind res_mbind res_bind]; [done|]. intros [= <-]. split; try done.
    cbn. by rewrite Hws.
Qed.

Lemma distinct_warnings_spec l : NoDup (distinct_warnings l) ∧ ∀ w, w ∈ distinct_warnings l ↔ w ∈ l.
Proof.
  unfold distinct_warnings. cut (∀ acc, NoDup acc →
    let r := foldl (λ acc w, if mem_str w acc then acc else acc ++ [w]) acc l in
    NoDup r ∧ ∀ w, w ∈ r ↔ w ∈ acc ∨ w ∈ l).
  { intros H. destruct (H [] (NoDup_nil_2 (A:=string))) as [? Hr]. split; [done|].
    intros w. rewrite Hr. split; [by intros [?%not_elem_of_nil|?]|by right]. }
  induction l as [|x l IH]; intros acc Hacc; cbn [foldl].
  - split; [done|]. intros w. split; [by left|by intros [?|?%not_elem_of_nil]].
  - destruct (mem_str x acc) eqn:Hx.
    + destruct (IH acc Hacc) as [? Hr]. split; [done|]. intros w. rewrite Hr, elem_of_cons.
      apply mem_str_spec in Hx. split; [naive_solver|]. intros [?|[->|?]]; auto.
    + assert (Hx' : x ∉ acc) by (rewrite <-mem_str_spec; congruence).
      destruct (IH (acc ++ [x])) as [? Hr].
      { apply NoDup_app. split; [done|]. split; [|apply NoDup_singleton].
        intros y Hy ->%list_elem_of_singleton. done. }
      split; [done|]. intros w. rewrite Hr, elem_of_app, list_elem_of_singleton, elem_of_cons.
      naive_solver.
Qed.

(** A merged transcript has the segments and words of its chunks, all of them and
    in order, with their times moved by the offset of their chunk; every warning
    once; language, method, engine and channel of the first chunk.  It does not have
    the source of the language, the other languages, the duration and the languages
    of the words, and the times of characters and phonemes stay those of the chunk. *)
Theorem merge_keeps engine_id results m :
  _merge_chunk_transcripts engine_id results = Ok m → results ≠ [] →
  Forall2 moved_segment
    (flat_map (λ '(t, offset), map (λ s, (s, offset)) (tr_segments t)) results) (tr_segments m) ∧
  tr_text m = merged_text results.*1 ∧
  NoDup (tr_warnings m) ∧
  (∀ w, w ∈ tr_warnings m ↔ ∃ t, t ∈ results.*1 ∧ w ∈ tr_warnings t) ∧
  (∀ t, head results.*1 = Some t →
     tr_language m = tr_language t ∧ tr_alignment_method m = tr_alignment_method t ∧
     tr_engine_id m = tr_engine_id t ∧ tr_channel m = tr_channel t) ∧
  tr_language_source m = None ∧ tr_languages m = None ∧ tr_duration m = None ∧
  tr_metadata m = [].
Proof.
  unfold _merge_chunk_transcripts. destruct results as [|[first o] results]; [done|].
  set (all := (first, o) :: results). intros Hm _.
  destruct (all_ok _ _) as [segments|e] eqn:Hall; cbn [mbind res_mbind res_bind] in Hm; [|done].
  injection Hm as <-. cbn [tr_segments tr_text tr_warnings build_transcript]. split_and!; try done.
  - apply all_ok_spec in Hall. eapply Forall2_impl; [exact Hall|].
    intros [s offset] s'. apply shift_segment_ok.
  - apply distinct_warnings_spec.
  - intros w. etransitivity; [exact (proj2 (distinct_warnings_spec (flat_map tr_warnings all.*1)) w)|].
    rewrite list_elem_of_In, (in_flat_map tr_warnings).
    by setoid_rewrite list_elem_of_In.
  - intros t [= <-]. done.
Qed.

(** The only error of the merge: metadata that repeats the name of an argument. *)
Lemma merge_fails engine_id results e :
  _merge_chunk_transcripts engine_id results = Raise e → e = PyError TypeError.
Proof.
  assert (Hfold : ∀ {A B} (f : A → res chunked_error B) l acc e,
    (∀ a e, f a = Raise e → e = PyError TypeError) →
    res_foldl (λ acc a, b ← f a; Ok (acc ++ [b])) acc l = Raise e → e = PyError TypeError).
  { intros A B f l. induction l as [|a l IH]; intros acc e' Hf; cbn [res_foldl]; [done|].
    destruct (f a) as [b|e1] eqn:Ha; cbn [mbind res_mbind res_bind]; [by apply IH|].
    intros [= <-]. by eapply Hf. }
  assert (Hextra : ∀ a d e, extra a d = Raise e → e = PyError TypeError).
  { intros a d e'. unfold extra. case_match; by intros [= <-]. }
  unfold _merge_chunk_transcripts. destruct results as [|[first o] results]; [done|].
  destruct (all_ok _ _) as [l|e'] eqn:Hall; cbn [mbind res_mbind res_bind]; [done|].
  intros [= <-]. eapply Hfold; [|exact Hall]. intros [s offset] e1. unfold shift_segment.
  destruct (ts_words s) as [ws|]; cbn [mbind res_mbind res_bind].
  - destruct (all_ok (shift_word offset) ws) as [ws'|e2] eqn:Hws; cbn [mbind res_mbind res_bind].
    + destruct (extra _ _) eqn:Hx; cbn [mbind res_mbind res_bind]; [done|].
      intros [= <-]. by eapply Hextra.
    + intros [= <-]. eapply Hfold; [|exact Hws]. intros w e3. unfold shift_word.
      destruct (extra _ _) eqn:Hx; cbn [mbind res_mbind res_bind]; [done|].
      intros [= <-]. by eapply Hextra.
  - destruct (extra _ _) eqn:Hx; cbn [mbind res_mbind res_bind]; [done|].
    intros [= <-]. by eapply Hextra.
Qed.

(** ** Examples *)

Module ChunkDemo.
(** Speech from 0 to 100 and from 110 to 200 seconds. *)
Definition segments : list SpeechSegment := _load_and_detect [(0, 1600000); (1760000, 3200000)]%Z.

Definition transcript (a : option (Z * Z)) : Transcript := {|
  tr_text := "words"; tr_segments := []; tr_language := "en"; tr_language_confidence := None;
  tr_language_source := None; tr_languages := None; tr_duration := None;
  tr_timestamp_granularity := "segment"; tr_alignment_method := "unknown";
  tr_engine_id := "nemo"; tr_channel := None; tr_warnings := []; tr_metadata := [] |}.

(** Memory suffices for all but the second call. *)
Definition transcribe (n : nat) (a : option (Z * Z)) : transcription :=
  if n =? 1 then OutOfMemory "CUDA out of memory" else Transcribed (transcript a).

Definition cap (s : Z) : pyfloat := float_of_Z s.

Definition run_chunks_of (max0 : pyfloat) :=
  _transcribe_chunks transcribe segments 3200000 max0 None 0.

Example second_pass :
  match run_chunks_of (cap 120) with
  | (cached, calls, Ok (completed, max_s)) =>
      cached = Some (cap 60) ∧ calls = 4 ∧ max_s = cap 60 ∧
      map (λ tc, ac_audio tc.2) completed =
        [(0, 1600000); (1760000, 2720000); (2720000, 3200000)]%Z
  | _ => False
  end.
Proof. vm_compute. auto. Qed.

(** Half a sample: a chunk may be longer than the cap. *)
Example duration_over_cap :
  let d := fdiv (float_of_Z 3200001) (float_of_Z _SAMPLE_RATE) in
  let cap := fdiv d (float_of_Z 2) in
  match split (_load_and_detect [(0, 3200001)]%Z) 3200001 cap fzero with
  | Ok [c1; c2] => flt cap (ac_duration c2) = true
  | _ => False
  end.
Proof. vm_compute. reflexivity. Qed.

Lemma segments_in_order : in_order segments.
Proof. split; vm_compute; repeat constructor. Qed.

Lemma segments_sized : all_sized segments.
Proof.
  unfold all_sized. let l := eval vm_compute in segments in change segments with l.
  repeat (apply Forall_cons; split; [by cbn -[Z.pow]|]). apply Forall_nil_2.
Qed.

Lemma cap_sized z : sized (cap z).
Proof. apply float_of_Z_size. Qed.
End ChunkDemo.

Lemma long_audio_transcribed_witness :
  ∃ completed max_s (spans : list span) (seams : list pyfloat),
    (ChunkDemo.run_chunks_of (ChunkDemo.cap 120)).2 = Ok (completed, max_s) ∧
    length completed = 3 ∧ chunks_written 3200000 spans completed.*2 ∧
    ∀ x, speech ChunkDemo.segments x → covered spans x ∨ ∃ r, r ∈ seams ∧ seam r x.
Proof.
  pose proof (long_audio_transcribed ChunkDemo.transcribe ChunkDemo.segments 3200000
    ChunkDemo.segments_in_order ChunkDemo.segments_sized (ChunkDemo.cap 120) None 0
    (ChunkDemo.cap_sized 120)) as H.
  change (_transcribe_chunks ChunkDemo.transcribe ChunkDemo.segments 3200000 (ChunkDemo.cap 120)
    None 0) with (ChunkDemo.run_chunks_of (ChunkDemo.cap 120)) in H.
  assert (Hl : match (ChunkDemo.run_chunks_of (ChunkDemo.cap 120)).2 with
               | Ok (completed, _) => length completed = 3
               | Raise _ => False
               end) by (vm_compute; reflexivity).
  destruct (ChunkDemo.run_chunks_of (ChunkDemo.cap 120)).2 as [[completed max_s]|e]; [|done].
  destruct H as (spans & seams & Hw & _ & _ & _ & Hc). by exists completed, max_s, spans, seams.
Defined.

(** Nine windows: speech in the second and third, in the sixth and in the last. *)
Definition demo_probs : list pyfloat :=
  map float_of_Z [0; 1; 1; 0; 0; 1; 0; 0; 1]%Z.

Lemma offline_scan_witness :
  scan_regions (float_lit 1 2) 1024 1024 demo_probs = [(512, 1536)]%Z ∧
  ∀ j, speech_at (float_lit 1 2) demo_probs j →
    (∃ r, r ∈ [(512, 1536)]%Z ∧ heard_in r.1 r.2 j) ∨
    (∃ a b, heard_in a b j ∧ stretch (float_lit 1 2) 1024 demo_probs a b ∧ (b - a < 1024)%Z).
Proof.
  assert (Hr : scan_regions (float_lit 1 2) 1024 1024 demo_probs = [(512, 1536)]%Z)
    by (vm_compute; reflexivity).
  split; [exact Hr|].
  destruct (offline_scan (float_lit 1 2) 1024 1024 ltac:(lia) demo_probs) as (_ & _ & H).
  rewrite Hr in H. exact H.
Defined.

Definition demo_word : TranscriptWord := {|
  tw_text := "hi"; tw_start := float_lit 1 2; tw_end := float_of_Z 1; tw_confidence := None;
  tw_alignment_method := "unknown"; tw_language := Some "en";
  tw_characters := Some [{| ch_char := "h"; ch_start := float_lit 1 2; ch_end := float_lit 3 4;
                            ch_confidence := None; ch_phonemes := None |}];
  tw_phonemes := None; tw_metadata := [] |}.
Definition demo_segment : TranscriptSegment := {|
  ts_id := Some "0"; ts_start := float_lit 1 2; ts_end := float_of_Z 1; ts_text := "hi";
  ts_words := Some [demo_word]; ts_language := None; ts_language_confidence := None;
  ts_confidence := None; ts_is_final := None; ts_is_speech := None; ts_metadata := [] |}.
Definition demo_results : list (Transcript * pyfloat) :=
  let t := {|
    tr_text := " hi "; tr_segments := [demo_segment]; tr_language := "en";
    tr_language_confidence := Some (float_lit 9 10); tr_language_source := Some "detected";
    tr_languages := None; tr_duration := Some (float_of_Z 60);
    tr_timestamp_granularity := "word"; tr_alignment_method := "unknown";
    tr_engine_id := "nemo"; tr_channel := None; tr_warnings := ["w"]; tr_metadata := [] |} in
  [(t, fzero); (t, float_of_Z 60)].

(** The second word is moved by a minute, its character is not. *)
Example demo_merge :
  match _merge_chunk_transcripts "nemo" demo_results with
  | Ok m =>
      tr_text m = "hi hi" ∧ tr_warnings m = ["w"] ∧ tr_language_source m = None ∧
      map (λ s, (ts_id s, option_map (map (λ w, (tw_start w, tw_language w,
                   option_map (map ch_start) (tw_characters w)))) (ts_words s))) (tr_segments m) =
        [(Some "0", Some [(float_lit 1 2, None, Some [float_lit 1 2])]);
         (Some "0", Some [(float_lit 121 2, None, Some [float_lit 1 2])])]
  | Raise _ => False
  end.
Proof. vm_compute. auto. Qed.

Lemma merge_keeps_witness :
  ∃ m, _merge_chunk_transcripts "nemo" demo_results = Ok m ∧
    Forall2 moved_segment [(demo_segment, fzero); (demo_segment, float_of_Z 60)] (tr_segments m).
Proof.
  destruct (_merge_chunk_transcripts "nemo" demo_results) as [m|e] eqn:Hm;
    [|vm_compute in Hm; discriminate].
  exists m. split; [reflexivity|].
  by apply (merge_keeps "nemo" demo_results m Hm).
Defined.
