(* ===== verification/MissedSpeech.v ===== *)
(** * The missed-speech check

    What [_compute_missed_speech] reports: spans of detected speech that no
    segment covers, and all of them but gaps shorter than a quarter of a second. *)

From S2P Require Import Prelude PyValue Times Numeric Diarization Transcript.

(** A span of numbers, not reversed. *)
Definition ordered (p : span) : Prop := fle p.1 p.2 = true.

(** [x] is in one of the closed spans; strictly before the end of it. *)
Definition in_span (p : span) (x : pyfloat) : Prop := fle p.1 x = true ∧ fle x p.2 = true.
Definition inside (p : span) (x : pyfloat) : Prop := fle p.1 x = true ∧ flt x p.2 = true.
Definition in_spans (l : list span) (x : pyfloat) : Prop := ∃ p, p ∈ l ∧ in_span p x.

Lemma in_spans_cons p l x : in_spans (p :: l) x ↔ in_span p x ∨ in_spans l x.
Proof. unfold in_spans. setoid_rewrite elem_of_cons. naive_solver. Qed.

Lemma inside_in p x : inside p x → in_span p x.
Proof. intros [? ?]. split; [done|forder]. Qed.

(** ** Merging spans *)

(** Each ends before the next starts. *)
Definition apart (p q : span) : Prop := flt p.2 q.1 = true.

Record spanning (acc l : list span) : Prop := {
  sn_acc : Forall ordered acc;
  sn_rest : Forall ordered l;
  sn_sorted : StronglySorted (λ p q : span, fle p.1 q.1 = true) l;
  sn_after : ∀ p q, p ∈ acc → q ∈ l → fle p.1 q.1 = true;
  sn_chain : chain apart (rev acc);
}.

Lemma merge_span_step acc p l :
  spanning acc (p :: l) →
  spanning (merge_span acc p) l ∧ ∀ x, in_spans (merge_span acc p) x ↔ in_spans (p :: acc) x.
Proof.
  intros [Ha Hl Hs Haf Hc].
  apply Forall_cons in Hl as [Hp Hl]. apply StronglySorted_inv in Hs as [Hs Hps].
  rewrite Forall_forall in Hps.
  assert (∀ q r, q ∈ acc → r ∈ l → fle q.1 r.1 = true) as Haf' by (intros; apply Haf; [done|by right]).
  assert (∀ q r, q ∈ p :: acc → r ∈ l → fle q.1 r.1 = true) as Hpush.
  { intros q r [->|Hq]%elem_of_cons Hr; [by apply Hps|by apply Haf']. }
  destruct acc as [|[s e] rest]; cbn [merge_span].
  { split; [|done]. split; [by apply Forall_singleton|done|done|done|done]. }
  assert (fle s p.1 = true) as Hsp by (apply (Haf (s, e)); by left).
  assert (ordered (s, e)) as Hse by (by apply Forall_cons in Ha as [? _]).
  unfold ordered in *. cbn in Hse.
  destruct (fle p.1 e) eqn:Hle.
  - apply Forall_cons in Ha as [_ Ha]. split.
    + split; [constructor; [unfold ordered; cbn; forder|done]|done|done| |].
      * intros q r [->|Hq]%elem_of_cons Hr; [by apply (Haf' (s, e)); [left|]|by apply Haf'; [right|]].
      * destruct rest as [|q rest]; [done|]. cbn in *. rewrite <-!app_assoc in *.
        by apply chain_snoc in Hc; apply chain_snoc.
    + intros x. rewrite !in_spans_cons. unfold in_span. cbn. split.
      * intros [[H1 H2]|H]; [|by right; right].
        destruct (fle_num _ _ H1). unfold fmax in H2.
        destruct (flt e p.2) eqn:Hlt; [|by right; left].
        destruct (fle p.1 x) eqn:Hpx; [by left|right; left]. split; [done|forder].
      * intros [[H1 H2]|[[H1 H2]|H]]; [left; split; forder|left; split; forder|by right].
  - split; [|done]. split; [by constructor|done|done|done|].
    cbn. rewrite <-app_assoc. apply chain_snoc. split; [done|]. unfold apart. cbn. forder.
Qed.

(** Every span put in lies within a merged one. *)
Definition span_covers (r q : span) : Prop := fle r.1 q.1 = true ∧ fle q.2 r.2 = true.

Lemma span_covers_refl q : ordered q → span_covers q q.
Proof. intros H. apply fle_num in H as [? ?]. split; by apply fle_refl. Qed.
Lemma span_covers_trans p q r : span_covers p q → span_covers q r → span_covers p r.
Proof. intros [? ?] [? ?]. split; forder. Qed.

Lemma merge_span_covers acc p l q :
  spanning acc (p :: l) → q ∈ p :: acc → ∃ r, r ∈ merge_span acc p ∧ span_covers r q.
Proof.
  intros [Ha Hl _ Haf _] Hq. apply Forall_cons in Hl as [Hp _].
  assert (ordered q) as Hoq.
  { apply elem_of_cons in Hq as [->|Hq]; [done|]. by eapply Forall_forall in Ha. }
  assert (∃ r, r ∈ p :: acc ∧ span_covers r q) as Hpush by (exists q; split; [done|by apply span_covers_refl]).
  destruct acc as [|[s e] rest]; cbn; [done|]. destruct (fle p.1 e) eqn:Hle; [|done].
  assert (fle s p.1 = true) as Hsp by (apply (Haf (s, e)); by left).
  apply Forall_cons in Ha as [Hse _]. unfold ordered in *. cbn in Hse.
  apply elem_of_cons in Hq as [->|[->|Hq]%elem_of_cons].
  - eexists. split; [by left|]. split; cbn; [done|forder].
  - eexists. split; [by left|]. split; cbn; [|forder]. apply fle_refl. by apply fle_num in Hse as [].
  - exists q. split; [by right|by apply span_covers_refl].
Qed.

Lemma merge_spans_loop acc l :
  spanning acc l →
  let out := foldl merge_span acc l in
  spanning out [] ∧ (∀ x, in_spans out x ↔ in_spans acc x ∨ in_spans l x) ∧
  (∀ q, q ∈ acc ∨ q ∈ l → ∃ r, r ∈ out ∧ span_covers r q).
Proof.
  revert acc. induction l as [|p l IH]; intros acc Ha; cbn.
  { split_and!; [done| |].
    - intros x. split; [by left|]. intros [H|(p & Hp & _)]; [done|inversion Hp].
    - intros q [Hq|Hq]; [|inversion Hq]. exists q. split; [done|]. apply span_covers_refl.
      destruct Ha as [Ha _ _ _ _]. by eapply Forall_forall in Ha. }
  destruct (merge_span_step _ _ _ Ha) as [Ha' Hx]. destruct (IH _ Ha') as (H1 & H2 & H3).
  split_and!; [done| |].
  - intros x. rewrite H2, Hx, !in_spans_cons. naive_solver.
  - intros q Hq.
    assert (q ∈ p :: acc ∨ q ∈ l) as [Hq'|Hq'] by (rewrite elem_of_cons in *; naive_solver);
      [|by apply H3; right].
    destruct (merge_span_covers _ _ _ _ Ha Hq') as (r & Hr & Hrq).
    destruct (H3 r) as (r' & Hr' & Hrr); [by left|]. exists r'. split; [done|by eapply span_covers_trans].
Qed.

(** The merged spans cover the same times, in order, and apart. *)
Lemma merge_spans_spec l :
  Forall ordered l →
  Forall ordered (merge_spans l) ∧ chain apart (merge_spans l) ∧
  (∀ x, in_spans (merge_spans l) x ↔ in_spans l x) ∧
  ∀ q, q ∈ l → ∃ r, r ∈ merge_spans l ∧ span_covers r q.
Proof.
  intros Hl.
  assert (Forall ordered (stable_sort pair_lt l)) as Hl' by (by rewrite stable_sort_perm).
  assert (sorted_by pair_lt (stable_sort pair_lt l)) as Hs.
  { apply (stable_sort_sorted _ num2); [apply pair_lt_irrefl|apply pair_lt_trans| |].
    - intros x y z. apply pair_lt_neg_trans.
    - eapply Forall_impl; [exact Hl|]. intros p Hp. by apply fle_num in Hp. }
  assert (StronglySorted (λ p q : span, fle p.1 q.1 = true) (stable_sort pair_lt l)) as Hs'.
  { clear Hl. induction Hs as [|p ps Hs IH Hp]; [constructor|].
    apply Forall_cons in Hl' as [Hop Hops]. constructor; [by apply IH|].
    rewrite !Forall_forall in *. intros q Hq.
    destruct (fle_num _ _ Hop), (fle_num _ _ (Hops q Hq)). apply pair_lt_false_fst; [done|done|by apply Hp]. }
  destruct (merge_spans_loop [] (stable_sort pair_lt l)) as ([Ha _ _ _ Hc] & Hx & Hin).
  { split; [done|done|done| |done]. intros p q Hp. inversion Hp. }
  unfold merge_spans. split_and!; [by apply Forall_rev|done| |].
  2: { intros q Hq. setoid_rewrite elem_of_rev. apply Hin. right. by apply elem_of_stable_sort. }
  intros x. transitivity (in_spans (foldl merge_span [] (stable_sort pair_lt l)) x).
  { unfold in_spans. by setoid_rewrite elem_of_rev. }
  rewrite Hx. unfold in_spans. setoid_rewrite elem_of_stable_sort. split; [|by right].
  intros [(p & Hp & _)|H]; [inversion Hp|done].
Qed.

Lemma chain_apart_sorted l : Forall ordered l → chain apart l → StronglySorted apart l.
Proof.
  induction 1 as [|p l Hp Hl IH]; intros Hc; [constructor|].
  destruct l as [|q l]; [by repeat constructor|]. destruct Hc as [Hpq Hc].
  pose proof (IH Hc) as Hs. constructor; [done|].
  apply StronglySorted_inv in Hs as [_ Hq]. constructor; [done|].
  apply Forall_cons in Hl as [Hoq Hl]. rewrite !Forall_forall in *. intros r Hr.
  specialize (Hq r Hr). unfold apart, ordered in *. forder.
Qed.

(** ** The scan of a region *)

(** The spans lie in the region after the cursor, are long enough, and no time
    in them is inside a merged span. *)
Definition uncovered (merged : list span) (region_end c : pyfloat) (p : span) : Prop :=
  fle c p.1 = true ∧ fle MISSED_SPEECH_MIN_REGION_S (fsub p.2 p.1) = true ∧
  ∀ x, inside p x → flt x region_end = true ∧ ∀ q, q ∈ merged → ¬ inside q x.

Definition last_span (region_end c : pyfloat) : list span :=
  if fle MISSED_SPEECH_MIN_REGION_S (fsub region_end c) then [(c, region_end)] else [].

Lemma last_span_uncovered merged re c p :
  num c → (∀ x, flt x re = true → fle c x = true → ∀ q, q ∈ merged → ¬ inside q x) →
  p ∈ last_span re c → uncovered merged re c p.
Proof.
  intros Hc Hq Hp. unfold last_span in Hp. destruct (fle _ (fsub re c)) eqn:Hle; [|inversion Hp].
  apply list_elem_of_singleton in Hp as ->. split_and!; [|done|].
  - by apply fle_refl.
  - intros x [H1 H2]. split; [done|]. by apply Hq.
Qed.

Lemma missed_from_sound merged re c p :
  Forall ordered merged → StronglySorted apart merged → num re → num c →
  p ∈ missed_from merged re c → uncovered merged re c p.
Proof.
  intros Ho Hs Hre. revert c. induction Ho as [|[s e] merged Hse Ho IH]; intros c Hc.
  { apply last_span_uncovered; [done|]. intros x _ _ q Hq. inversion Hq. }
  apply StronglySorted_inv in Hs as [Hs Happ]. rewrite Forall_forall in Happ.
  destruct (fle_num _ _ Hse) as [Hns Hne]. unfold ordered, apart in *. cbn in *.
  assert (∀ c' q, fle c c' = true → (∀ x, fle c' x = true → flt x re = true → ¬ inside (s, e) x) →
    uncovered merged re c' q → uncovered ((s, e) :: merged) re c q) as Hcons.
  { intros c' q Hcc Hx (H1 & H2 & H3). destruct (fle_num _ _ H1).
    split_and!; [forder|done|]. intros x Hin. destruct (H3 x Hin) as [Hlt Hall]. split; [done|].
    intros r [->|Hr]%elem_of_cons; [|by apply Hall]. apply Hx; [|done].
    destruct Hin as [Hin _]. forder. }
  assert (∀ x, flt x s = true → ∀ q, q ∈ (s, e) :: merged → ¬ inside q x) as Hbefore.
  { intros x Hxs q [->|Hq]%elem_of_cons [H1 H2]; cbn in *; [forder|].
    specialize (Happ q Hq). forder. }
  destruct (fle e c) eqn:Hec.
  { intros Hp. apply (Hcons c); [by apply fle_refl| |by apply IH].
    intros x Hx _ [_ H]. cbn in H. forder. }
  destruct (fle re s) eqn:Hrs.
  { apply last_span_uncovered; [done|]. intros x Hx _. apply Hbefore. forder. }
  set (c' := fmax c (fmin e re)).
  assert (num c') as Hc' by (apply fmax_num; [done|by apply fmin_num]).
  assert (fle c c' = true) as Hcc by (unfold c'; forder).
  rewrite elem_of_app. intros [Hp|Hp].
  - destruct (flt c s && fle _ (fsub s c)) eqn:Hgap; [|inversion Hp].
    apply andb_true_iff in Hgap as [Hcs Hlong].
    assert (fmin s re = s) as Hmin by (unfold fmin; destruct (flt re s) eqn:H; [exfalso; forder|done]).
    rewrite Hmin in Hp. apply list_elem_of_singleton in Hp as ->.
    split_and!; [by apply fle_refl|done|].
    intros x [H1 H2]. cbn in *. split; [forder|by apply Hbefore].
  - apply (Hcons c'); [done| |].
    + intros x Hx Hlt [_ H]. cbn in H. unfold c' in Hx. forder.
    + destruct (fle re c') eqn:Hrc; [|by apply IH].
      apply last_span_uncovered; [done| |exact Hp]. intros x Hx Hx'. exfalso. forder.
Qed.

(** A time in a gap too short to be reported. *)
Definition short_gap (x : pyfloat) : Prop :=
  ∃ lo hi, inside (lo, hi) x ∧ fle MISSED_SPEECH_MIN_REGION_S (fsub hi lo) = false.

Lemma last_span_complete re c x :
  fle c x = true → flt x re = true →
  (∃ p, p ∈ last_span re c ∧ inside p x) ∨ short_gap x.
Proof.
  intros H1 H2. unfold last_span. destruct (fle _ (fsub re c)) eqn:Hle.
  - left. exists (c, re). split; [by left|done].
  - right. by exists c, re.
Qed.

Lemma missed_from_complete merged re c x :
  Forall ordered merged → num re → fle c x = true → flt x re = true → ¬ in_spans merged x →
  (∃ p, p ∈ missed_from merged re c ∧ inside p x) ∨ short_gap x.
Proof.
  intros Ho Hre. revert c. induction Ho as [|[s e] merged Hse Ho IH]; intros c Hcx Hxr Hx.
  { by apply last_span_complete. }
  rewrite in_spans_cons in Hx. destruct (fle_num _ _ Hse) as [Hns Hne].
  destruct (fle_num _ _ Hcx) as [Hc Hnx]. unfold ordered in Hse. cbn in *.
  assert (¬ in_spans merged x) as Hx' by tauto.
  destruct (fle e c) eqn:Hec; [by apply IH|].
  destruct (fle re s) eqn:Hrs; [by apply last_span_complete|].
  set (c' := fmax c (fmin e re)). setoid_rewrite elem_of_app.
  destruct (flt x s) eqn:Hxs.
  - assert (flt c s = true) as -> by forder. cbn [andb].
    destruct (fle _ (fsub s c)) eqn:Hlong; [left|right; by exists c, s].
    exists (c, fmin s re). split; [left; by left|]. split; cbn; [done|]. unfold fmin. by case_match.
  - assert (flt e x = true) as Hex.
    { destruct (flt e x) eqn:H; [done|]. destruct Hx. left. split; cbn; forder. }
    assert (fle c' x = true) as Hc'x by (unfold c'; forder).
    destruct (fle re c') eqn:Hrc; [exfalso; forder|].
    destruct (IH c' Hc'x Hxr Hx') as [(p & Hp & Hin)|?]; [left|by right].
    exists p. split; [by right|done].
Qed.

(** ** The check *)

Lemma foldl_append_spec {E A B} (g : A → res E (list B)) l acc out :
  res_foldl (λ m a, more ← g a; Ok (m ++ more)) acc l = Ok out →
  (∀ a, a ∈ l → is_ok (g a) = true) ∧
  ∀ b, b ∈ out ↔ b ∈ acc ∨ ∃ a more, a ∈ l ∧ g a = Ok more ∧ b ∈ more.
Proof.
  revert acc. induction l as [|a l IH]; intros acc; cbn.
  { intros [= <-]. split; [intros a Ha; inversion Ha|]. intros b. split; [by left|].
    intros [H|(a & more & Ha & _)]; [done|inversion Ha]. }
  destruct (g a) as [more|e] eqn:Ha; cbn; [|done]. intros [H1 H2]%IH. split.
  { intros x [->|Hx]%elem_of_cons; [by rewrite Ha|by apply H1]. }
  intros b. rewrite H2, elem_of_app. setoid_rewrite elem_of_cons. split.
  - intros [[?|?]|(x & m & ? & ? & ?)]; [by left|right; exists a, more; auto|right; exists x, m; auto].
  - intros [?|(x & m & [->|?] & Hg & ?)]; [by left; left| |right; eauto].
    left. right. congruence.
Qed.

(** The spans a region contributes. *)
Lemma region_spans (r : dict json) merged more s e :
  region_bounds r = Ok (s, e) →
  or_continue ('(s, e) ← region_bounds r; Ok (missed_from merged e s)) [] = Ok more ↔
  more = missed_from merged e s.
Proof. intros ->. cbn. split; [by intros [= <-]|by intros ->]. Qed.

(** Times and regions as numbers, segments that do not end before they start. *)
Definition well_timed (tolerance : pyfloat) (segments : list MergedSegment) : Prop :=
  Forall (λ s, ordered (segment_cover tolerance s)) segments.
Definition numeric_regions (regions : list (dict json)) : Prop :=
  ∀ r s e, r ∈ regions → region_bounds r = Ok (s, e) → num s ∧ num e.

(** The missed-speech check.  Every time in a reported span is in a region
    of detected speech and not inside any segment, widened by the tolerance;
    reported spans are at least a quarter of a second long.  Conversely every
    time of a region that no widened segment covers is in a reported span or
    in a gap shorter than that. *)
Theorem missed_speech_spec regions segments tolerance missed :
  well_timed tolerance segments → numeric_regions regions →
  _compute_missed_speech regions segments tolerance = Ok missed →
  (∀ p, p ∈ missed → fle MISSED_SPEECH_MIN_REGION_S (fsub p.2 p.1) = true) ∧
  (∀ p x, p ∈ missed → inside p x →
     (∃ r s e, r ∈ regions ∧ region_bounds r = Ok (s, e) ∧ inside (s, e) x) ∧
     ∀ g, g ∈ segments → ¬ inside (segment_cover tolerance g) x) ∧
  (∀ r s e x, r ∈ regions → region_bounds r = Ok (s, e) → inside (s, e) x →
     (∀ g, g ∈ segments → ¬ in_span (segment_cover tolerance g) x) →
     (∃ p, p ∈ missed ∧ inside p x) ∨ short_gap x).
Proof.
  intros Hw Hnum H. apply foldl_append_spec in H as [_ Hin].
  destruct (merge_spans_spec (map (segment_cover tolerance) segments)) as (Ho & Hc & Hx & Hcov).
  { by apply List.Forall_map. }
  set (merged := merge_spans _) in *. pose proof (chain_apart_sorted _ Ho Hc) as Hs.
  assert (∀ p, p ∈ missed → ∃ r s e, r ∈ regions ∧ region_bounds r = Ok (s, e) ∧
    uncovered merged e s p) as Hsound.
  { intros p [Hp|(r & more & Hr & Hm & Hp)]%Hin; [inversion Hp|].
    destruct (region_bounds r) as [[s e]|x] eqn:Hb; cbn in Hm;
      [|destruct x; try discriminate Hm; injection Hm as <-; inversion Hp].
    injection Hm as <-. destruct (Hnum r s e Hr Hb). exists r, s, e.
    split_and!; [done|done|]. by apply missed_from_sound. }
  split_and!.
  - intros p Hp. destruct (Hsound p Hp) as (r & s & e & _ & _ & _ & H & _). exact H.
  - intros p x Hp Hpx. destruct (Hsound p Hp) as (r & s & e & Hr & Hb & H1 & _ & H2).
    destruct (H2 x Hpx) as [Hlt Hno]. split.
    + exists r, s, e. split_and!; [done|done|]. split; cbn; [|done]. destruct Hpx. forder.
    + intros g Hg [Hg1 Hg2]. destruct (Hcov (segment_cover tolerance g)) as (q & Hq & Hq1 & Hq2).
      { apply list_elem_of_fmap. by exists g. }
      apply (Hno q Hq). split; forder.
  - intros r s e x Hr Hb [Hsx Hxe] Hno. cbn in *.
    destruct (Hnum r s e Hr Hb) as [Hns Hne].
    destruct (missed_from_complete merged e s x) as [(p & Hp & Hpx)|?]; [done..| | |by right].
    + rewrite Hx. intros (q & (g & -> & Hg)%list_elem_of_fmap & Hq). by apply (Hno g).
    + left. exists p. split; [|done]. apply Hin. right. exists r, (missed_from merged e s).
      split_and!; [done| |done]. by rewrite Hb.
Qed.

(** One region of ten seconds with a segment in its middle. *)
Lemma missed_speech_spec_witness :
  let seg := {| ms_id := ""; ms_start := float_of_Z 4; ms_end := float_of_Z 5; ms_text := "";
    ms_speaker := None; ms_language := None; ms_words := None;
    ms_scores := metadata_scores [] |} in
  let region := [("start", JInt 0); ("end", JInt 10)] in
  let missed := [(float_of_Z 0, float_of_Z 3); (float_of_Z 6, float_of_Z 10)] in
  _compute_missed_speech [region] [seg] MISSED_SPEECH_TOLERANCE_S = Ok missed ∧
  ((∃ p, p ∈ missed ∧ inside p (float_of_Z 7)) ∨ short_gap (float_of_Z 7)).
Proof.
  cbv zeta. set (seg := {| ms_id := _ |}). set (region := [_; _]). set (missed := [_; _]).
  assert (_compute_missed_speech [region] [seg] MISSED_SPEECH_TOLERANCE_S = Ok missed) as H
    by (vm_compute; reflexivity).
  assert (region_bounds region = Ok (float_of_Z 0, float_of_Z 10)) as Hb by (vm_compute; reflexivity).
  destruct (missed_speech_spec [region] [seg] MISSED_SPEECH_TOLERANCE_S missed) as (_ & _ & Hc).
  - apply Forall_singleton. vm_compute. reflexivity.
  - intros r s e ->%list_elem_of_singleton Hr. rewrite Hb in Hr. injection Hr as <- <-.
    split; vm_compute; reflexivity.
  - exact H.
  - split; [exact H|]. apply (Hc region (float_of_Z 0) (float_of_Z 10) (float_of_Z 7));
      [by left|exact Hb|split; vm_compute; reflexivity|].
    intros g ->%list_elem_of_singleton [_ Hg]. vm_compute in Hg. discriminate Hg.
Defined.
