(* ===== verification/Assembly.v ===== *)
(** * What an assembled transcript contains

    The segments of a transcript against the outputs of the stages: their ids,
    their words and texts, their order. *)

From S2P Require Import Prelude PyValue Times Numeric Diarization Transcript.

Section assembly.
Context `{P : Pydantic}.

(** ** Segments in sequence *)

(** A segment without its id and the coerced scores. *)
Definition segment_view (s : MergedSegment) :=
  (ms_start s, ms_end s, ms_text s, ms_speaker s, ms_language s, ms_words s).

Definition part_view (available : bool) (f : segment_fields) (p : part) :=
  (p_start p, p_end p, p_text p, p_speaker p, sf_language f, output_words available (p_words p)).

(** Numbered from zero, in order. *)
Definition numbered (l : list MergedSegment) : Prop :=
  map ms_id l = map segment_id (seq 0 (length l)).

Lemma numbered_snoc l s : numbered l → ms_id s = segment_id (length l) → numbered (l ++ [s]).
Proof.
  unfold numbered. intros Hl Hs. rewrite length_app, seq_app, !map_app, Hl. cbn. by rewrite Hs.
Qed.

Lemma numbered_NoDup l : numbered l → NoDup (map ms_id l).
Proof.
  unfold numbered. intros ->. apply NoDup_fmap_2; [|apply NoDup_seq].
  intros n m H. unfold segment_id in H. apply string_app_inj_l in H. by apply str_padded_inj in H.
Qed.

Lemma merged_segment_ok idx s e text speaker words f m :
  merged_segment idx s e text speaker words f = Ok m →
  ms_id m = segment_id idx ∧ segment_view m = (s, e, text, speaker, sf_language f, words).
Proof.
  unfold merged_segment. destruct (scores_validate _); cbn; [|done]. by intros [= <-].
Qed.

(** A loop that appends one segment for every item. *)
Lemma append_segments_ok {A} (g : nat → A → res pyexn MergedSegment)
    (view : A → pyfloat * pyfloat * string * option string * option string * option (list Word))
    (l : list A) acc out :
  (∀ n a m, g n a = Ok m → ms_id m = segment_id n ∧ segment_view m = view a) →
  res_foldl (λ segments a, s ← g (length segments) a; Ok (segments ++ [s])) acc l = Ok out →
  numbered acc →
  numbered out ∧ map segment_view out = map segment_view acc ++ map view l.
Proof.
  intros Hg. revert acc. induction l as [|a l IH]; intros acc; cbn.
  { intros [= <-] Hn. by rewrite app_nil_r. }
  destruct (g (length acc) a) as [m|x] eqn:Hm; cbn; [|done]. intros Hout Hn.
  destruct (Hg _ _ _ Hm) as [Hid Hv].
  destruct (IH _ Hout (numbered_snoc _ _ Hn Hid)) as [H1 H2]. split; [done|].
  rewrite H2, map_app, <-app_assoc. cbn. by rewrite Hv.
Qed.

Lemma add_parts_ok available f acc parts out :
  add_parts available f acc parts = Ok out → numbered acc →
  numbered out ∧ map segment_view out = map segment_view acc ++ map (part_view available f) parts.
Proof.
  unfold add_parts. intros H Hn.
  eapply (append_segments_ok (λ n p, merged_segment n _ _ _ _ _ _) (part_view available f)) in H as [? ?]; [done| |done].
  intros n p m Hm. by apply merged_segment_ok in Hm.
Qed.

(** The parts of the segments of a source. *)
Definition source_parts (turns : list SpeakerTurn) (s : source_segment) : list part :=
  segment_parts turns (_extract_segment_fields s).

Lemma build_merged_segments_ok source turns available segments :
  _build_merged_segments source turns available = Ok segments →
  numbered segments ∧
  map segment_view segments =
    source ≫= λ s, map (part_view available (_extract_segment_fields s)) (source_parts turns s).
Proof.
  unfold _build_merged_segments.
  assert (∀ acc out, res_foldl (λ segments s,
    let f := _extract_segment_fields s in
    add_parts available f segments (segment_parts turns f)) acc source = Ok out →
    numbered acc → numbered out ∧ map segment_view out = map segment_view acc ++
      (source ≫= λ s, map (part_view available (_extract_segment_fields s)) (source_parts turns s))) as H.
  { induction source as [|s source IH]; intros acc out; cbn.
    { intros [= <-] Hn. by rewrite app_nil_r. }
    destruct (add_parts _ _ _ _) as [acc'|x] eqn:Ha; cbn; [|done]. intros Hout Hn.
    destruct (add_parts_ok _ _ _ _ _ Ha Hn) as [Hn' Hv].
    destruct (IH _ _ Hout Hn') as [H1 H2]. split; [done|]. by rewrite H2, Hv, <-app_assoc. }
  intros Hs. by apply (H [] segments) in Hs as [? ?].
Qed.

(** ** Words *)

Definition segment_words (s : MergedSegment) : list Word := default [] (ms_words s).
Definition field_words (s : source_segment) : list Word :=
  default [] (sf_words (_extract_segment_fields s)).

Lemma filter_valid_id words : Forall (λ w, valid_word w = true) words → List.filter valid_word words = words.
Proof. induction 1 as [|w words Hw _ IH]; [done|]. cbn. by rewrite Hw, IH. Qed.

(** Splitting a segment keeps its words, in whatever way it is split. *)
Lemma split_segment_words_perm s e text words turns :
  Forall spoken (default [] words) → Forall (λ w, valid_word w = true) (default [] words) →
  all_words (_split_segment_by_diarization s e text words turns) ≡ₚ default [] words.
Proof.
  intros Hs Hv. unfold _split_segment_by_diarization.
  assert (∀ sp, all_words [whole_part s e text sp words] ≡ₚ default [] words) as Hwhole.
  { intros sp. unfold all_words. cbn. by rewrite app_nil_r. }
  destruct (length turns =? 0); [apply Hwhole|].
  destruct (_build_speaker_windows s e turns) as [|[[a b] sp] [|w ws]]; [apply Hwhole..|].
  destruct (default [] words) as [|x xs] eqn:Hwords.
  - change (_split_words_by_speaker [] turns) with (@nil part). cbv iota.
    generalize (resolve_windows turns ((a, b, sp) :: w :: ws)). intros rs.
    generalize (_split_text_across_windows text s e rs). intros ts. clear.
    revert ts. induction rs as [|r rs IH]; intros [|t ts]; [done..|apply IH].
  - destruct (split_words_spec turns (x :: xs) Hs) as (Hne & Hall & Hw).
    { apply Forall_cons in Hv as [Hv _]. cbn. by rewrite Hv. }
    destruct (_split_words_by_speaker (x :: xs) turns) as [|p parts]; [done|].
    destruct (merge_short_splits_spec turns (p :: parts)) as (-> & _); [done..|].
    rewrite Hall, filter_valid_id; unfold sort_words; by rewrite stable_sort_perm.
Qed.

Lemma view_words available f parts segments :
  map segment_view segments = map (part_view available f) parts →
  (segments ≫= segment_words) = if available then all_words parts else [].
Proof.
  revert parts. induction segments as [|s segments IH]; intros [|p parts]; try done.
  - by destruct available.
  - cbn [map]. intros [= Hs _ _ _ _ Hw Hv].
    rewrite bind_cons, (IH _ Hv). unfold segment_words at 1. rewrite Hw. unfold output_words, all_words.
    destruct available; cbn; [|done]. f_equal. unfold part_words. by destruct (p_words p) as [[|]|].
Qed.

(** The segments of a transcript.  They are numbered in order, so their ids
    are distinct; and when word timestamps are available, their words are those
    of the source, whatever the diarization splits them into. *)
Theorem merged_segments_spec source turns available segments :
  _build_merged_segments source turns available = Ok segments →
  Forall (λ s, Forall spoken (field_words s) ∧ Forall (λ w, valid_word w = true) (field_words s)) source →
  map ms_id segments = map segment_id (seq 0 (length segments)) ∧ NoDup (map ms_id segments) ∧
  (segments ≫= segment_words) ≡ₚ (if available then source ≫= field_words else []).
Proof.
  intros H Hw. destruct (build_merged_segments_ok _ _ _ _ H) as [Hn Hv].
  split; [done|split; [by apply numbered_NoDup|]]. clear H Hn.
  revert segments Hv. induction Hw as [|s source [Hs Hval] _ IH]; intros segments; cbn [mbind list_bind].
  { intros Hv%map_eq_nil. subst. by destruct available. }
  intros Hv. apply map_eq_app in Hv as (l1 & l2 & -> & Hv1 & Hv2).
  rewrite bind_app, (view_words _ _ _ _ Hv1), (IH _ Hv2).
  destruct available; [|done]. f_equiv.
  by apply split_segment_words_perm.
Qed.

(** ** Several channels *)

(** The segments of one channel, read from its outputs. *)
Definition channel_transcribe (outputs : dict json) (ch : nat) : json :=
  jget_or (channel_key "transcribe" ch) (JObj []) outputs.
Definition channel_source (outputs : dict json) (ch : nat) : list channel_segment :=
  match parse_transcribe (channel_transcribe outputs ch) with
  | Ok t =>
      let '(source, available, _) := _select_segments
        (try_parse AlignmentResponse_validate (jget (channel_key "align" ch) outputs)) t in
      map (λ s, {| cs_fields := _extract_segment_fields s; cs_channel := ch;
                   cs_word_ts := available |}) source
  | Raise _ => []
  end.

Definition channel_view (c : channel_segment) :=
  let f := cs_fields c in
  (sf_start f, sf_end f, sf_text f, Some (channel_speaker (cs_channel c)), sf_language f,
   output_words (cs_word_ts c) (sf_words f)).

Lemma add_channel_ok outputs acc ch acc' :
  add_channel outputs acc ch = Ok acc' →
  is_ok (parse_transcribe (channel_transcribe outputs ch)) = true ∧
  ca_segments acc' = ca_segments acc ++ channel_source outputs ch.
Proof.
  unfold add_channel, channel_source, channel_transcribe. intros H.
  apply bind_Ok in H as (lang & _ & H). apply bind_Ok in H as (found & _ & H).
  apply bind_Ok in H as (t & Ht & H). rewrite Ht. split; [done|].
  destruct (_select_segments _ t) as [[source available] warnings]. by injection H as <-.
Qed.

Lemma add_channels_ok outputs numbers acc acc' :
  res_foldl (add_channel outputs) acc numbers = Ok acc' →
  Forall (λ ch, is_ok (parse_transcribe (channel_transcribe outputs ch)) = true) numbers ∧
  ca_segments acc' = ca_segments acc ++ (numbers ≫= channel_source outputs).
Proof.
  revert acc. induction numbers as [|ch numbers IH]; intros acc; cbn.
  { intros [= <-]. by rewrite app_nil_r. }
  destruct (add_channel outputs acc ch) as [acc1|x] eqn:Ha; cbn; [|done].
  destruct (add_channel_ok _ _ _ _ Ha) as [H1 H2]. intros H.
  destruct (IH _ H) as [H3 H4]. split; [by constructor|]. by rewrite H4, H2, <-app_assoc.
Qed.

Lemma channel_segments_ok l segments :
  channel_segments l = Ok segments →
  numbered segments ∧ map segment_view segments = map channel_view l.
Proof.
  unfold channel_segments. intros H.
  apply (append_segments_ok channel_merged channel_view) in H as [? ?]; [done| |done].
  intros n c m Hm. by apply merged_segment_ok in Hm.
Qed.

Lemma interleave_sorted l :
  Forall (λ c, num (sf_start (cs_fields c))) l →
  StronglySorted (λ a b, flt (sf_start (cs_fields b)) (sf_start (cs_fields a)) = false) (interleave l).
Proof.
  intros Hn. apply (stable_sort_sorted _ (λ c, num (sf_start (cs_fields c)))); [| | |done].
  - intros x. apply flt_irrefl.
  - intros x y z. apply flt_trans.
  - intros x y z. apply flt_neg_trans.
Qed.

Lemma name_speakers_ids known speakers : map sp_id (name_speakers known speakers) = map sp_id speakers.
Proof.
  destruct known as [| | | | |names|]; try done. cbn.
  revert names. induction speakers as [|s speakers IH]; intros [|n names]; try done.
  cbn. by rewrite IH.
Qed.

Lemma sorted_map {A B} (f : A → B) (R : B → B → Prop) l :
  StronglySorted (λ a b, R (f a) (f b)) l → StronglySorted R (map f l).
Proof.
  induction 1 as [|a l Hs IH Ha]; cbn; [constructor|]. constructor; [done|].
  by apply List.Forall_map.
Qed.

(** The transcript of several channels.  Every channel has a transcription
    that parses; the segments are those of all channels, each once, labelled
    with the speaker of its channel, in order of their start; the speakers are
    the channels, named or not; the text is that of the segments. *)
Theorem per_channel_spec job_id outputs count requested known stages r :
  assemble_per_channel_transcript job_id outputs count requested known stages = Ok r →
  ∃ numbers, channel_numbers count = Ok numbers ∧
    Forall (λ ch, is_ok (parse_transcribe (channel_transcribe outputs ch)) = true) numbers ∧
    map segment_view (mr_segments r) ≡ₚ map channel_view (numbers ≫= channel_source outputs) ∧
    (Forall (λ c, num (sf_start (cs_fields c))) (numbers ≫= channel_source outputs) →
     StronglySorted (λ a b, flt b a = false) (map ms_start (mr_segments r))) ∧
    map sp_id (mr_speakers r) = map channel_speaker numbers ∧
    NoDup (map ms_id (mr_segments r)) ∧ mr_text r = full_text (mr_segments r).
Proof.
  unfold assemble_per_channel_transcript. intros H.
  apply bind_Ok in H as ([[duration channels] rate] & _ & H).
  apply bind_Ok in H as (numbers & Hnum & H). apply bind_Ok in H as (acc & Hacc & H).
  apply bind_Ok in H as (segments & Hseg & H). apply bind_Ok in H as (warnings & _ & H).
  destruct (ca_language acc) as [[language confidence] source].
  apply bind_Ok in H as (confidence' & _ & H). apply bind_Ok in H as (metadata & _ & H).
  injection H as <-. cbn [mr_segments mr_speakers mr_text].
  destruct (add_channels_ok _ _ _ _ Hacc) as [Hparse Hsegs].
  change (ca_segments no_channels ++ ?x) with x in Hsegs.
  destruct (channel_segments_ok _ _ Hseg) as [Hn Hv].
  exists numbers. rewrite <-Hsegs. split_and!; [done|done| | | |by apply numbered_NoDup|done].
  - rewrite Hv. apply Permutation_map. apply stable_sort_perm.
  - intros Hnums%interleave_sorted.
    replace (map ms_start segments) with (map (λ v, v.1.1.1.1.1) (map segment_view segments))
      by (rewrite map_map; done).
    rewrite Hv, map_map. cbn.
    by apply (sorted_map (λ c, sf_start (cs_fields c)) (λ a b, flt b a = false)).
  - by rewrite name_speakers_ids, map_map.
Qed.
End assembly.

(** The demonstration documents. *)
Lemma per_channel_spec_witness :
  ∃ r, @assemble_per_channel_transcript TranscriptDemo.demo "j" TranscriptDemo.channels (JInt 2)
         (JBool false) JNull None = Ok r ∧
    map sp_id (mr_speakers r) = ["SPEAKER_00"; "SPEAKER_01"] ∧ NoDup (map ms_id (mr_segments r)).
Proof.
  destruct (@assemble_per_channel_transcript TranscriptDemo.demo "j" TranscriptDemo.channels (JInt 2)
    (JBool false) JNull None) as [r|e] eqn:H; [|vm_compute in H; discriminate H].
  exists r. split; [reflexivity|].
  destruct (@per_channel_spec TranscriptDemo.demo _ _ _ _ _ _ _ H)
    as (numbers & Hnum & _ & _ & _ & Hids & Hnd & _).
  injection Hnum as <-. split; [rewrite Hids; vm_compute; reflexivity|exact Hnd].
Defined.

Lemma merged_segments_spec_witness :
  let words := [DiarizationDemo.word "how" 10 40; DiarizationDemo.word "are" 50 90;
                DiarizationDemo.word "fine" 240 300; DiarizationDemo.word "thanks" 310 380] in
  let source := [FromAlign {| sg_start := DiarizationDemo.sec 0; sg_end := DiarizationDemo.sec 400;
    sg_text := "how are fine thanks"; sg_words := Some words; sg_language := None;
    sg_scores := metadata_scores [] |}] in
  ∃ segments, @_build_merged_segments TranscriptDemo.demo source DiarizationDemo.turns true = Ok segments ∧
    length segments = 2 ∧ (segments ≫= segment_words) ≡ₚ words.
Proof.
  cbv zeta. set (words := [_; _; _; _]). set (source := [_]).
  destruct (@_build_merged_segments TranscriptDemo.demo source DiarizationDemo.turns true)
    as [segments|e] eqn:H; [|vm_compute in H; discriminate H].
  exists segments. split; [reflexivity|].
  destruct (@merged_segments_spec TranscriptDemo.demo source DiarizationDemo.turns true segments H)
    as (_ & _ & Hw).
  - apply Forall_singleton. split; apply Forall_forall; intros w Hw; unfold spoken;
      repeat (apply elem_of_cons in Hw as [->|Hw]; [vm_compute; reflexivity|]); inversion Hw.
  - split; [|exact Hw]. vm_compute in H. injection H as <-. reflexivity.
Defined.
