(* ===== verification/Models.v ===== *)
(** * Data model: jobs, tasks and artifacts

    Models [dalston/common/models.py], [dalston/common/artifacts.py],
    [dalston/orchestrator/defaults.py].  Timestamps are microseconds ([Z]);
    identifiers are [N]. *)

From S2P Require Import Prelude PyValue.

Abbreviation UUID := N.
Abbreviation timestamp := Z.

(** The canonical text of a UUID, as [str(id)]. *)
Definition uuid_str (u : UUID) : string := pretty u.

#[export] Instance uuid_str_inj : Inj (=) (=) uuid_str.
Proof. apply pretty_N_inj. Qed.

(** ** Life cycles *)

Inductive JobStatus : Type :=
  | JPending | JRunning | JCompleted | JFailed | JCancelling | JCancelled.

Inductive TaskStatus : Type :=
  | TPending | TReady | TRunning | TCompleted | TFailed | TSkipped | TCancelled.

#[export] Instance JobStatus_eq_dec : EqDecision JobStatus.
Proof. solve_decision. Defined.
#[export] Instance TaskStatus_eq_dec : EqDecision TaskStatus.
Proof. solve_decision. Defined.

Definition TERMINAL_TASK_STATES : list TaskStatus := [TCompleted; TSkipped; TFailed].

Definition task_terminal (s : TaskStatus) : bool :=
  bool_decide (s ∈ TERMINAL_TASK_STATES).

(** A job status no handler is meant to leave. *)
Definition job_terminal (s : JobStatus) : bool :=
  match s with JCompleted | JFailed | JCancelled => true | _ => false end.

Definition DEFAULT_TASK_MAX_RETRIES : nat := 2.
Definition POST_PROCESSOR_MAX_RETRIES : nat := 2.
(** [0.5]: exact in binary. *)
Definition DEFAULT_PII_CONFIDENCE_THRESHOLD : pyfloat := float_lit 1 2.
Definition DEFAULT_PII_BUFFER_MS : Z := 50.

(** ** Artifact selectors and bindings *)

Record ArtifactSelector := {
  sel_producer_stage : string;
  sel_kind : string;
  sel_channel : option N;
  sel_role : option string;
  sel_required : bool;
}.

Record RequestBinding := {
  rb_slot : string;
  rb_selector : ArtifactSelector;
}.

Record ArtifactReference := {
  ar_artifact_id : string;
  ar_kind : string;
  ar_storage_locator : string;
  ar_media_type : option string;
  ar_channel : option N;
  ar_role : option string;
  ar_producer_task_id : option string;
  ar_producer_stage : option string;
}.

#[export] Instance ArtifactSelector_eq_dec : EqDecision ArtifactSelector.
Proof. solve_decision. Defined.
#[export] Instance RequestBinding_eq_dec : EqDecision RequestBinding.
Proof. solve_decision. Defined.

(** [binding.model_dump(exclude_none=True)]. *)
Definition dump_selector (s : ArtifactSelector) : dict json :=
  [("producer_stage", JStr (sel_producer_stage s)); ("kind", JStr (sel_kind s))]
  ++ match sel_channel s with Some c => [("channel", JInt (Z.of_N c))] | None => [] end
  ++ match sel_role s with Some r => [("role", JStr r)] | None => [] end
  ++ [("required", JBool (sel_required s))].

Definition dump_binding (b : RequestBinding) : json :=
  JObj [("slot", JStr (rb_slot b)); ("selector", JObj (dump_selector (rb_selector b)))].

(** [RequestBinding.model_validate]: the declared fields with their types,
    [min_length=1], [ge=0], the defaults, and [extra="forbid"].  Values that
    already have the declared JSON type are accepted; pydantic's coercions of
    other types are not used by this program. *)
Definition val_nonempty (v : option json) : option string :=
  match v with
  | Some (JStr s) => if String.eqb s "" then None else Some s
  | _ => None
  end.

Definition val_channel (v : option json) : option (option N) :=
  match v with
  | None | Some JNull => Some None
  | Some (JInt z) => if (0 <=? z)%Z then Some (Some (Z.to_N z)) else None
  | _ => None
  end.

Definition val_opt_str (v : option json) : option (option string) :=
  match v with
  | None | Some JNull => Some None
  | Some (JStr s) => Some (Some s)
  | _ => None
  end.

Definition val_bool_default (dflt : bool) (v : option json) : option bool :=
  match v with None => Some dflt | Some (JBool b) => Some b | _ => None end.

Definition only_keys (ks : list string) (d : dict json) : bool :=
  forallb (λ k, mem_str k ks) (dkeys d).

Definition validate_selector (v : option json) : option ArtifactSelector :=
  match v with
  | Some (JObj d) =>
      if only_keys ["producer_stage"; "kind"; "channel"; "role"; "required"] d then
        ps ← val_nonempty (dget "producer_stage" d);
        k ← val_nonempty (dget "kind" d);
        c ← val_channel (dget "channel" d);
        r ← val_opt_str (dget "role" d);
        q ← val_bool_default true (dget "required" d);
        Some {| sel_producer_stage := ps; sel_kind := k; sel_channel := c;
                sel_role := r; sel_required := q |}
      else None
  | _ => None
  end.

Definition validate_binding (v : json) : option RequestBinding :=
  match v with
  | JObj d =>
      if only_keys ["slot"; "selector"] d then
        s ← val_nonempty (dget "slot" d);
        sel ← validate_selector (dget "selector" d);
        Some {| rb_slot := s; rb_selector := sel |}
      else None
  | _ => None
  end.

(** A binding that the model classes accept when it is constructed. *)
Definition binding_valid (b : RequestBinding) : Prop :=
  rb_slot b ≠ "" ∧ sel_producer_stage (rb_selector b) ≠ "" ∧ sel_kind (rb_selector b) ≠ "".

(** ** Tasks: the pydantic model the DAG builder makes *)

Record Task := {
  t_id : UUID;
  t_job_id : UUID;
  t_stage : string;
  t_engine_id : string;
  t_status : TaskStatus;
  t_dependencies : list UUID;
  t_input_bindings : list json;
  t_config : dict json;
  t_request_uri : option string;
  t_response_uri : option string;
  t_retries : nat;
  t_max_retries : nat;
  t_required : bool;
}.

(** ** Lemmas *)

Lemma task_terminal_spec s :
  task_terminal s = true ↔ s = TCompleted ∨ s = TSkipped ∨ s = TFailed.
Proof. destruct s; vm_compute; naive_solver. Qed.

(** Dumping a valid binding and validating the dump gives it back. *)
Lemma validate_dump_binding b :
  binding_valid b → validate_binding (dump_binding b) = Some b.
Proof.
  destruct b as [slot [ps k c r q]]. intros (Hs & Hps & Hk); cbn in Hs, Hps, Hk.
  apply String.eqb_neq in Hs, Hps, Hk.
  destruct c as [[|c]|], r as [r|]; cbn; by rewrite ?Hs, ?Hps, ?Hk.
Qed.
#[export] Hint Resolve validate_dump_binding : dalston.
