(* ===== verification/Catalog.v ===== *)
(** * Engine catalog

    Models [dalston/orchestrator/catalog.py] and the [EngineCapabilities] model
    of [dalston/engine_sdk/types.py]: strict parsing of the generated JSON
    catalog and the queries the selector and the scheduler make. *)

From S2P Require Import Prelude PyValue Models.

Record EngineCapabilities := {
  cap_engine_id : string;
  cap_version : string;
  cap_stages : list string;
  cap_supports_word_timestamps : bool;
  cap_supports_native_streaming : bool;
  cap_model_variants : option (list string);
  cap_gpu_required : bool;
  cap_gpu_vram_mb : option Z;
  cap_supports_cpu : bool;
  cap_min_ram_gb : option Z;
  cap_rtf_gpu : option pyfloat;
  cap_rtf_cpu : option pyfloat;
  cap_max_concurrency : option Z;
  cap_includes_diarization : bool;
  cap_vocabulary_support : option json;
  cap_supports_language_forcing : bool;
}.

(** [EngineCapabilities(engine_id=e, version="unknown", stages=[stage])]. *)
Definition default_capabilities (e stage : string) : EngineCapabilities := {|
  cap_engine_id := e; cap_version := "unknown"; cap_stages := [stage];
  cap_supports_word_timestamps := false; cap_supports_native_streaming := false;
  cap_model_variants := None; cap_gpu_required := false; cap_gpu_vram_mb := None;
  cap_supports_cpu := true; cap_min_ram_gb := None; cap_rtf_gpu := None;
  cap_rtf_cpu := None; cap_max_concurrency := None; cap_includes_diarization := false;
  cap_vocabulary_support := None; cap_supports_language_forcing := true |}.

Record CatalogEntry := {
  ce_engine_id : string;
  ce_image : string;
  ce_capabilities : EngineCapabilities;
  ce_execution_profile : string;
  ce_on_demand : bool;
}.

Definition DEFAULT_EXECUTION_PROFILE : string := "container".
Definition VALID_EXECUTION_PROFILES : list string := ["inproc"; "venv"; "container"].

(** The catalog: entries by engine id, in file order. *)
Abbreviation EngineCatalog := (dict CatalogEntry).

(** ** Parsing *)

Section parse.
Local Open Scope Z_scope.

(** [v.get(...)] needs a dictionary. *)
Definition as_obj (v : json) : res pyexn (dict json) :=
  match v with JObj d => Ok d | _ => Raise AttributeError end.

(** Field validation of the [EngineCapabilities] model; a mismatch is a
    [ValidationError], which is a [ValueError]. *)
Definition field_bool (k : string) (dflt : bool) (d : dict json) : res pyexn bool :=
  match dget k d with None => Ok dflt | Some (JBool b) => Ok b | _ => Raise ValueError end.
Definition field_opt_int (k : string) (d : dict json) : res pyexn (option Z) :=
  match dget k d with
  | None | Some JNull => Ok None
  | Some (JInt z) => Ok (Some z)
  | _ => Raise ValueError
  end.
Definition field_opt_float (k : string) (d : dict json) : res pyexn (option pyfloat) :=
  match dget k d with
  | None | Some JNull => Ok None
  | Some (JInt z) => Ok (Some (float_of_Z z))
  | Some (JFloat f) => Ok (Some f)
  | _ => Raise ValueError
  end.
Definition field_str (k dflt : string) (d : dict json) : res pyexn string :=
  match dget k d with None => Ok dflt | Some (JStr s) => Ok s | _ => Raise ValueError end.
Fixpoint str_list (l : list json) : res pyexn (list string) :=
  match l with
  | [] => Ok []
  | JStr s :: l => ss ← str_list l; Ok (s :: ss)
  | _ :: _ => Raise ValueError
  end.

(** [hw["min_vram_gb"] * 1024 if hw.get("min_vram_gb") else None] *)
Definition vram_mb (hw : dict json) : res pyexn (option Z) :=
  if truthy (jget "min_vram_gb" hw) then
    match jget "min_vram_gb" hw with
    | JInt z => Ok (Some (z * 1024))
    | _ => Raise ValueError
    end
  else Ok None.

Definition parse_stages (caps : dict json) : res pyexn (list string) :=
  match jget "stages" caps with
  | JNull => Raise (KeyError "capabilities.stages is required")
  | JList [] => Raise ValueError
  | JList l => str_list l
  | _ => Raise TypeError
  end.

Definition parse_execution_profile (data : dict json) : res pyexn string :=
  match jget_or "execution_profile" (JStr DEFAULT_EXECUTION_PROFILE) data with
  | JStr s => if mem_str s VALID_EXECUTION_PROFILES then Ok s else Raise ValueError
  | _ => Raise TypeError
  end.

Definition parse_on_demand (data : dict json) : res pyexn bool :=
  match jget_or "on_demand" (JBool false) data with
  | JBool b => Ok b
  | _ => Raise TypeError
  end.

Definition _parse_engine_entry (engine_id : string) (engine_data : json)
    : res pyexn CatalogEntry :=
  data ← as_obj engine_data;
  caps ← as_obj (jget_or "capabilities" (JObj []) data);
  hw ← as_obj (jget_or "hardware" (JObj []) data);
  perf ← as_obj (jget_or "performance" (JObj []) data);
  stages ← parse_stages caps;
  version ← field_str "version" "unknown" data;
  word_ts ← field_bool "supports_word_timestamps" false caps;
  streaming ← field_bool "supports_native_streaming" false caps;
  forcing ← field_bool "supports_language_forcing" true caps;
  gpu ← field_bool "gpu_required" false hw;
  vram ← vram_mb hw;
  cpu ← field_bool "supports_cpu" true hw;
  ram ← field_opt_int "min_ram_gb" hw;
  rtf_gpu ← field_opt_float "rtf_gpu" perf;
  rtf_cpu ← field_opt_float "rtf_cpu" perf;
  conc ← field_opt_int "max_concurrency" caps;
  diar ← field_bool "includes_diarization" false caps;
  profile ← parse_execution_profile data;
  on_demand ← parse_on_demand data;
  image ← field_str "image" ("dalston/" +:+ engine_id +:+ ":latest") data;
  Ok {| ce_engine_id := engine_id; ce_image := image;
        ce_capabilities := {|
          cap_engine_id := engine_id; cap_version := version; cap_stages := stages;
          cap_supports_word_timestamps := word_ts;
          cap_supports_native_streaming := streaming; cap_model_variants := None;
          cap_gpu_required := gpu; cap_gpu_vram_mb := vram; cap_supports_cpu := cpu;
          cap_min_ram_gb := ram; cap_rtf_gpu := rtf_gpu; cap_rtf_cpu := rtf_cpu;
          cap_max_concurrency := conc; cap_includes_diarization := diar;
          cap_vocabulary_support := None; cap_supports_language_forcing := forcing |};
        ce_execution_profile := profile; ce_on_demand := on_demand |}.

(** [except (KeyError, TypeError, ValueError)]: anything else propagates. *)
Definition parse_error_caught (e : pyexn) : bool :=
  match e with KeyError _ | TypeError | ValueError => true | _ => false end.

(** The loop of [load]: the entries parsed so far and the ids that failed. *)
Fixpoint load_entries (engines : dict json) (entries : EngineCatalog)
    (errs : list string) : res pyexn (EngineCatalog * list string) :=
  match engines with
  | [] => Ok (entries, errs)
  | (engine_id, engine_data) :: rest =>
      match _parse_engine_entry engine_id engine_data with
      | Ok entry => load_entries rest (dset engine_id entry entries) errs
      | Raise e =>
          if parse_error_caught e then load_entries rest entries (errs ++ [engine_id])
          else Raise e
      end
  end.

(** [EngineCatalog.load] on the parsed file [data]. *)
Definition load (data : dict json) : res pyexn EngineCatalog :=
  engines ← as_obj (jget_or "engines" (JObj []) data);
  '(entries, errs) ← load_entries engines [] [];
  match errs with [] => Ok entries | _ => Raise ValueError end.
End parse.

(** ** Queries *)

Definition get_engine (cat : EngineCatalog) (engine_id : string) : option CatalogEntry :=
  dget engine_id cat.

Definition get_all_engines (cat : EngineCatalog) : list CatalogEntry := dvals cat.

Definition get_engines_for_stage (cat : EngineCatalog) (stage : string) : list CatalogEntry :=
  List.filter (λ e, mem_str stage (cap_stages (ce_capabilities e))) (dvals cat).

(** [_matches_requirements] of the catalog and [_meets_requirements] of the
    selector are the same test: streaming is the only hard requirement. *)
Definition matches_requirements (caps : EngineCapabilities) (requirements : dict json) : bool :=
  negb (truthy (jget "streaming" requirements) && negb (cap_supports_native_streaming caps)).

Definition find_engines (cat : EngineCatalog) (stage : string) (requirements : dict json)
    : list CatalogEntry :=
  List.filter (λ e, matches_requirements (ce_capabilities e) requirements)
    (get_engines_for_stage cat stage).

(** ** Lemmas *)

Lemma find_engines_spec cat stage req e :
  e ∈ find_engines cat stage req ↔
  e ∈ dvals cat ∧ stage ∈ cap_stages (ce_capabilities e) ∧
  matches_requirements (ce_capabilities e) req = true.
Proof.
  unfold find_engines, get_engines_for_stage.
  rewrite !elem_of_filter_b, mem_str_spec. tauto.
Qed.

Definition entry_ok (k : string) (e : CatalogEntry) : Prop :=
  ce_engine_id e = k ∧ cap_engine_id (ce_capabilities e) = k ∧
  cap_stages (ce_capabilities e) ≠ [] ∧
  ce_execution_profile e ∈ VALID_EXECUTION_PROFILES.

Lemma str_list_nil l : str_list l = Ok [] → l = [].
Proof. destruct l as [|[] l]; cbn; try done. by destruct (str_list l). Qed.

Lemma parse_stages_ok caps stages : parse_stages caps = Ok stages → stages ≠ [].
Proof.
  unfold parse_stages. destruct (jget "stages" caps) as [| | | | |[|v l]|]; try done.
  intros H ->. by apply str_list_nil in H.
Qed.

Lemma parse_execution_profile_ok data s :
  parse_execution_profile data = Ok s → s ∈ VALID_EXECUTION_PROFILES.
Proof.
  unfold parse_execution_profile. destruct (jget_or _ _ _); try done.
  destruct (mem_str _ _) eqn:Hm; [|done]. intros [= <-]. by apply mem_str_spec.
Qed.

Lemma parse_entry_ok k v e : _parse_engine_entry k v = Ok e → entry_ok k e.
Proof.
  unfold _parse_engine_entry. intros H. inv_ok. unfold entry_ok; cbn.
  split_and!; eauto using parse_stages_ok, parse_execution_profile_ok.
Qed.

Lemma load_entries_inv engines entries errs entries' :
  load_entries engines entries errs = Ok (entries', []) →
  errs = [] ∧ Forall (λ '(k, v), is_ok (_parse_engine_entry k v) = true) engines.
Proof.
  revert entries errs. induction engines as [|[k v] engines IH]; intros entries errs; cbn.
  - intros [= _ ->]. by constructor.
  - destruct (_parse_engine_entry k v) as [entry|e] eqn:Hp.
    + intros [-> H]%IH. split; [done|]. constructor; [by rewrite Hp|done].
    + destruct (parse_error_caught e); [|done].
      intros [Habs _]%IH. by destruct errs.
Qed.

Lemma load_entries_ok engines entries errs r :
  (∀ k e, dget k entries = Some e → entry_ok k e) →
  load_entries engines entries errs = Ok r →
  ∀ k e, dget k r.1 = Some e → entry_ok k e.
Proof.
  revert entries errs. induction engines as [|[k v] engines IH]; intros entries errs Hok; cbn.
  - by intros [= <-].
  - destruct (_parse_engine_entry k v) as [entry|e] eqn:Hp.
    + apply IH. intros k' e'. rewrite dget_dset.
      destruct (String.eqb_spec k k') as [<-|]; [|apply Hok].
      intros [= <-]. by eapply parse_entry_ok.
    + destruct (parse_error_caught e); [by apply IH|done].
Qed.

(** Loading the catalog is all or nothing.  When [load] succeeds every
    entry of the file was parsed, and every entry of the result is well formed:
    keyed by its own engine id, with at least one stage and a known execution
    profile. *)
Theorem load_strict data cat :
  load data = Ok cat →
  (∀ k e, get_engine cat k = Some e → entry_ok k e) ∧
  (∀ engines, jget_or "engines" (JObj []) data = JObj engines →
     Forall (λ '(k, v), is_ok (_parse_engine_entry k v) = true) engines).
Proof.
  unfold load. intros H. inv_ok. destruct x0 as [entries errs].
  match goal with H : load_entries _ _ _ = Ok _ |- _ => rename H into Hl end.
  destruct errs; [|done]. inv_ok. split.
  - intros k e. by refine (load_entries_ok _ _ _ _ _ Hl k e).
  - intros engines Heq. rewrite Heq in *. cbn in *. inv_ok.
    by apply load_entries_inv in Hl as [_ Hl].
Qed.

Definition demo_catalog_json : dict json :=
  [("engines", JObj
     [("faster-whisper", JObj
        [("capabilities", JObj [("stages", JList [JStr "transcribe"])]);
         ("performance", JObj [("rtf_gpu", JFloat (float_lit 1 20))]);
         ("on_demand", JBool true)]);
      ("audio-prepare", JObj
        [("capabilities", JObj [("stages", JList [JStr "prepare"])])])])].

Lemma load_strict_witness :
  ∃ cat, load demo_catalog_json = Ok cat ∧ get_engine cat "audio-prepare" ≠ None ∧
    ∀ k e, get_engine cat k = Some e → entry_ok k e.
Proof.
  destruct (load demo_catalog_json) as [cat|] eqn:Hl; [|by vm_compute in Hl].
  exists cat. split_and!; [done| |by apply (load_strict demo_catalog_json cat)].
  vm_compute in Hl. by injection Hl as <-.
Defined.
