(* ===== verification/Registry.v ===== *)
(** * Engine registry

    Models the reading side of [dalston/common/registry.py]: the engine
    records, their availability and health at a given time, and the filtered
    and sorted queries used by the selector, the scheduler and the session
    allocator.  The registry's state is the list of records that the Redis
    sets and hashes yield, in the order [SMEMBERS] returns them. *)

From S2P Require Import Prelude PyValue Models Catalog.

Inductive VocabularyMethod : Type :=
  | PROMPT_CONDITIONING
  | PHRASE_BOOSTING
  | WORD_BOOSTING
  | INSTRUCTION
  | NO_VOCABULARY.

Record VocabularySupport := {
  vs_method : VocabularyMethod;
  vs_batch : bool;
  vs_realtime : bool;
}.

Record EngineRecord := {
  er_instance : string;
  er_engine_id : string;
  er_stage : string;
  er_status : string;
  er_interfaces : list string;
  er_capacity : Z;
  er_active_batch : Z;
  er_active_realtime : Z;
  er_models_loaded : option (list string);
  er_endpoint : option string;
  er_last_heartbeat : option timestamp;
  er_capabilities : option EngineCapabilities;
  er_supports_word_timestamps : bool;
  er_includes_diarization : bool;
  er_stream_name : option string;
  er_gpu_memory_used : string;
  er_gpu_memory_total : string;
  er_registered_at : option timestamp;
  er_loaded_model : option string;
  er_execution_profile : string;
  er_vocabulary_support : option VocabularySupport;
  er_schema_version : option string;
  er_hostname : string;
  er_node_id : string;
  er_deploy_env : string;
  er_aws_az : option string;
  er_aws_instance_type : option string;
}.

(** A record built with the class's defaults for what is not given. *)
Definition new_record (instance engine_id stage status : string) (interfaces : list string)
    (capacity : Z) (endpoint : option string) (hb : option timestamp)
    (caps : option EngineCapabilities) : EngineRecord := {|
  er_instance := instance; er_engine_id := engine_id; er_stage := stage; er_status := status;
  er_interfaces := interfaces; er_capacity := capacity; er_active_batch := 0;
  er_active_realtime := 0; er_models_loaded := None; er_endpoint := endpoint;
  er_last_heartbeat := hb; er_capabilities := caps; er_supports_word_timestamps := false;
  er_includes_diarization := false; er_stream_name := None; er_gpu_memory_used := "0GB";
  er_gpu_memory_total := "0GB"; er_registered_at := None; er_loaded_model := None;
  er_execution_profile := "container"; er_vocabulary_support := None;
  er_schema_version := None; er_hostname := ""; er_node_id := ""; er_deploy_env := "local";
  er_aws_az := None; er_aws_instance_type := None |}.

(** Assignments to [status], [last_heartbeat] and the active counts. *)
Definition er_set (status : string) (hb : option timestamp) (batch realtime : Z)
    (r : EngineRecord) : EngineRecord := {|
  er_instance := er_instance r; er_engine_id := er_engine_id r; er_stage := er_stage r;
  er_status := status; er_interfaces := er_interfaces r; er_capacity := er_capacity r;
  er_active_batch := batch; er_active_realtime := realtime;
  er_models_loaded := er_models_loaded r; er_endpoint := er_endpoint r;
  er_last_heartbeat := hb; er_capabilities := er_capabilities r;
  er_supports_word_timestamps := er_supports_word_timestamps r;
  er_includes_diarization := er_includes_diarization r; er_stream_name := er_stream_name r;
  er_gpu_memory_used := er_gpu_memory_used r; er_gpu_memory_total := er_gpu_memory_total r;
  er_registered_at := er_registered_at r; er_loaded_model := er_loaded_model r;
  er_execution_profile := er_execution_profile r;
  er_vocabulary_support := er_vocabulary_support r; er_schema_version := er_schema_version r;
  er_hostname := er_hostname r; er_node_id := er_node_id r; er_deploy_env := er_deploy_env r;
  er_aws_az := er_aws_az r; er_aws_instance_type := er_aws_instance_type r |}.

(** Seconds, as microseconds. *)
Definition seconds (s : Z) : Z := (s * 1000000)%Z.
Definition HEARTBEAT_TIMEOUT_SECONDS : Z := 60.

(** [max(0, capacity - active_batch - active_realtime)] *)
Definition available_capacity (r : EngineRecord) : Z :=
  Z.max 0 (er_capacity r - er_active_batch r - er_active_realtime r).

(** [(now - last_heartbeat).total_seconds() >= HEARTBEAT_TIMEOUT_SECONDS] *)
Definition heartbeat_expired (now hb : timestamp) : bool :=
  (seconds HEARTBEAT_TIMEOUT_SECONDS <=? now - hb)%Z.

Definition is_available (now : timestamp) (r : EngineRecord) : bool :=
  if mem_str (er_status r) ["offline"; "draining"] then false
  else match er_last_heartbeat r with
       | Some hb => if heartbeat_expired now hb then false else (0 <? available_capacity r)%Z
       | None => (0 <? available_capacity r)%Z
       end.

Definition is_healthy (now : timestamp) (r : EngineRecord) : bool :=
  if String.eqb (er_status r) "offline" then false
  else match er_last_heartbeat r with
       | Some hb => negb (heartbeat_expired now hb)
       | None => false
       end.

Definition supports_interface (interface : string) (r : EngineRecord) : bool :=
  mem_str interface (er_interfaces r).

(** ** Queries *)

Abbreviation registry := (list EngineRecord).

Definition get_by_engine_id (reg : registry) (engine_id : string) : list EngineRecord :=
  List.filter (λ r, String.eqb (er_engine_id r) engine_id) reg.

Definition get_by_stage (reg : registry) (stage : string) : list EngineRecord :=
  List.filter (λ r, String.eqb (er_stage r) stage) reg.

(** First available instance, else the first instance. *)
Definition get_engine_record (now : timestamp) (reg : registry) (engine_id : string)
    : option EngineRecord :=
  let instances := get_by_engine_id reg engine_id in
  match find_first (is_available now) instances with
  | Some r => Some r
  | None => head instances
  end.

Definition is_engine_available (now : timestamp) (reg : registry) (engine_id : string) : bool :=
  existsb (is_healthy now) (get_by_engine_id reg engine_id).

(** [model in (record.models_loaded or [])] *)
Definition model_loaded (model : string) (r : EngineRecord) : bool :=
  mem_str model (default [] (er_models_loaded r)).

(** [value and ...] on an optional string argument: [""] counts as absent. *)
Definition given (o : option string) : option string :=
  match o with Some s => if String.eqb s "" then None else Some s | None => None end.

(** The [model] test of [get_available]: loaded, or loadable because the
    requested engine matches, or a declared variant. *)
Definition model_ok (engine_id model : option string) (r : EngineRecord) : bool :=
  match model with
  | None => true
  | Some m =>
      model_loaded m r
      || match given engine_id with
         | Some e => String.eqb (er_engine_id r) e
         | None => false
         end
      || match er_capabilities r with
         | Some c => mem_str m (default [] (cap_model_variants c))
         | None => false
         end
  end.

Definition available_match (now : timestamp) (interface engine_id model : option string)
    (valid_engine_ids : option (list string)) (r : EngineRecord) : bool :=
  is_available now r
  && match given interface with Some i => supports_interface i r | None => true end
  && match given engine_id with Some e => String.eqb (er_engine_id r) e | None => true end
  && match valid_engine_ids with Some v => mem_str (er_engine_id r) v | None => true end
  && model_ok engine_id model r.

(** Sort keys: without a model, [-available_capacity]; with one, first the
    engines that have it loaded. *)
Definition avail_before (model : option string) (r1 r2 : EngineRecord) : bool :=
  let by_capacity := (available_capacity r2 <? available_capacity r1)%Z in
  match given model with
  | None => by_capacity
  | Some m =>
      match model_loaded m r1, model_loaded m r2 with
      | true, false => true
      | false, true => false
      | _, _ => by_capacity
      end
  end.

Definition get_available (now : timestamp) (reg : registry)
    (stage interface engine_id model : option string)
    (valid_engine_ids : option (list string)) : list EngineRecord :=
  let candidates :=
    match given stage, given engine_id with
    | Some s, _ => get_by_stage reg s
    | None, Some e => get_by_engine_id reg e
    | None, None => reg
    end in
  stable_sort (avail_before model)
    (List.filter (available_match now interface engine_id model valid_engine_ids) candidates).

(** ** Lemmas *)

Lemma is_available_spec now r :
  is_available now r = true ↔
  er_status r ∉ ["offline"; "draining"] ∧
  (∀ hb, er_last_heartbeat r = Some hb → now - hb < seconds HEARTBEAT_TIMEOUT_SECONDS)%Z ∧
  (0 < available_capacity r)%Z.
Proof.
  unfold is_available, heartbeat_expired.
  destruct (mem_str _ _) eqn:Hm.
  { apply mem_str_spec in Hm. split; [done|tauto]. }
  apply not_true_iff_false in Hm. rewrite mem_str_spec in Hm.
  destruct (er_last_heartbeat r) as [hb|].
  - destruct (Z.leb_spec (seconds HEARTBEAT_TIMEOUT_SECONDS) (now - hb)).
    + split; [done|]. intros (_ & Hh & _). specialize (Hh hb eq_refl). lia.
    + rewrite Z.ltb_lt. split; [|tauto]. intros. split_and!; [done|by intros ? [= <-]|done].
  - rewrite Z.ltb_lt. split; [|tauto]. intros. split_and!; [done|by intros|done].
Qed.

Lemma is_available_capacity now r : is_available now r = true → (0 < available_capacity r)%Z.
Proof. by intros (_ & _ & ?)%is_available_spec. Qed.

Lemma get_by_engine_id_spec reg e r :
  r ∈ get_by_engine_id reg e ↔ r ∈ reg ∧ er_engine_id r = e.
Proof. unfold get_by_engine_id. by rewrite elem_of_filter_b, String.eqb_eq. Qed.

Lemma get_by_stage_spec reg s r :
  r ∈ get_by_stage reg s ↔ r ∈ reg ∧ er_stage r = s.
Proof. unfold get_by_stage. by rewrite elem_of_filter_b, String.eqb_eq. Qed.

Lemma is_engine_available_spec now reg e :
  is_engine_available now reg e = true ↔
  ∃ r, r ∈ reg ∧ er_engine_id r = e ∧ is_healthy now r = true.
Proof.
  unfold is_engine_available. rewrite existsb_exists. split.
  - intros (r & Hr%list_elem_of_In%get_by_engine_id_spec & Hh). naive_solver.
  - intros (r & Hr & He & Hh). exists r. rewrite <-list_elem_of_In, get_by_engine_id_spec. done.
Qed.

Lemma get_engine_record_spec now reg e r :
  get_engine_record now reg e = Some r → r ∈ reg ∧ er_engine_id r = e.
Proof.
  unfold get_engine_record. destruct (find_first _ _) eqn:Hf.
  - intros [= <-]. apply find_first_Some in Hf as [Hf _]. by apply get_by_engine_id_spec.
  - destruct (get_by_engine_id reg e) as [|r' l] eqn:Hg; cbn; [done|]. intros [= ->].
    apply get_by_engine_id_spec. rewrite Hg. by left.
Qed.

Lemma avail_before_irrefl model r : avail_before model r r = false.
Proof. unfold avail_before. repeat case_match; try done; lia. Qed.

Lemma avail_before_trans model x y z :
  avail_before model x y = true → avail_before model y z = true →
  avail_before model x z = true.
Proof.
  unfold avail_before. destruct (given model) as [m|]; [|lia].
  destruct (model_loaded m x), (model_loaded m y), (model_loaded m z); try done; lia.
Qed.

Lemma avail_before_neg_trans model x y z :
  avail_before model x y = false → avail_before model y z = false →
  avail_before model x z = false.
Proof.
  unfold avail_before. destruct (given model) as [m|]; [|lia].
  destruct (model_loaded m x), (model_loaded m y), (model_loaded m z); try done; lia.
Qed.
#[export] Hint Resolve avail_before_irrefl avail_before_trans avail_before_neg_trans : dalston.

Lemma get_available_spec now reg stage interface engine_id model valid r :
  r ∈ get_available now reg stage interface engine_id model valid ↔
  r ∈ reg ∧ (∀ s, given stage = Some s → er_stage r = s) ∧
  available_match now interface engine_id model valid r = true.
Proof.
  unfold get_available. rewrite elem_of_stable_sort, elem_of_filter_b.
  destruct (given stage) as [s|] eqn:Hs; [rewrite get_by_stage_spec; naive_solver|].
  destruct (given engine_id) as [e|] eqn:He; [|naive_solver].
  rewrite get_by_engine_id_spec. split; [naive_solver|].
  intros (Hr & _ & Hm). split_and!; [done| |done].
  unfold available_match in Hm. rewrite He in Hm.
  destruct (String.eqb_spec (er_engine_id r) e); [done|].
  by rewrite andb_false_r, andb_false_l in Hm.
Qed.

(** The best available engine.  The first record [get_available] returns
    is available and from the registry, and no other record of the stage that
    passes every filter precedes it in the (model loaded, available capacity)
    order. *)
Theorem get_available_best now reg stage interface engine_id model valid best rest :
  get_available now reg stage interface engine_id model valid = best :: rest →
  is_available now best = true ∧ best ∈ reg ∧
  ∀ r, r ∈ reg → (∀ s, given stage = Some s → er_stage r = s) →
    available_match now interface engine_id model valid r = true →
    avail_before model r best = false.
Proof.
  intros Hg. assert (best ∈ get_available now reg stage interface engine_id model valid)
    as (Hin & _ & Hm)%get_available_spec by (rewrite Hg; by left).
  split_and!; [|done|].
  - unfold available_match in Hm. by destruct (is_available now best).
  - intros r Hr Hs Hrm. unfold get_available in Hg.
    eapply (stable_sort_head _ (λ _, True)); [..|exact Hg|]; eauto with dalston.
    rewrite <-elem_of_stable_sort. by apply get_available_spec.
Qed.

Definition demo_record (instance : string) (active : Z) : EngineRecord :=
  er_set "ready" (Some 0%Z) 0 active
    (new_record instance "faster-whisper" "transcribe" "ready" ["realtime"] 4
       (Some "ws://worker") None None).

Lemma get_available_best_witness :
  ∃ best rest,
    get_available (seconds 10) [demo_record "a" 3; demo_record "b" 1; demo_record "c" 4]
      None (Some "realtime") None None None = best :: rest ∧
    er_instance best = "b" ∧ is_available (seconds 10) best = true.
Proof.
  do 2 eexists. split; [vm_compute; reflexivity|]. split; [reflexivity|].
  by edestruct (get_available_best (seconds 10)
    [demo_record "a" 3; demo_record "b" 1; demo_record "c" 4]
    None (Some "realtime") None None None) as [H _]; [vm_compute; reflexivity|].
Defined.
