(* ===== verification/Selector.v ===== *)
(** * Capability-driven engine selection

    Models [dalston/orchestrator/engine_selector.py]: requirement extraction,
    ranking of running engines, choice of a downloaded model, the explicit
    preference path with its errors, the on-demand catalog fallback, and the
    selection of engines for a whole pipeline. *)

From S2P Require Import Prelude PyValue Models Catalog Registry.

(** The columns of the [models] table that selection reads. *)
Record ModelRow := {
  mr_id : string;
  mr_engine_id : string;
  mr_loaded_model_id : string;
  mr_stage : string;
  mr_status : string;
  mr_source : option string;
  mr_languages : option (list string);
  mr_size_bytes : option Z;
}.

Definition MODEL_BACKED_STAGES : list string := ["transcribe"; "diarize"; "align"; "pii_detect"].

(** The exceptions of selection, with the fields their handlers read. *)
Inductive sel_exn : Type :=
  | NoDownloadedModelError (engine_id stage : string) (attempted : list string)
  | ModelSelectionError (code stage model_id : string) (engine_id : option string)
  | NoCapableEngineError (stage : string) (requirements : dict json)
      (candidates : list EngineRecord) (alternatives : list CatalogEntry)
  | SelectorPyError (e : pyexn).

Record EngineSelectionResult := {
  es_engine_id : string;
  es_capabilities : EngineCapabilities;
  es_selection_reason : string;
  es_loaded_model_id : option string;
  es_on_demand : bool;
}.

Record PipelineEngineSelection := {
  ps_stages : dict EngineSelectionResult;
  ps_effective_parameters : dict json;
}.

(** ** Models *)

(** [model.source or model.id] for transcription, except for ONNX. *)
Definition _resolve_loaded_model_id (m : ModelRow) (stage : string) : string :=
  if String.eqb stage "transcribe" && String.eqb (mr_engine_id m) "onnx"
  then mr_loaded_model_id m
  else if String.eqb stage "transcribe" then default (mr_id m) (given (mr_source m))
  else mr_loaded_model_id m.

(** The language requirement: requirements come from [extract_requirements],
    so the key is absent or a non-empty string. *)
Definition req_language (requirements : dict json) : option string :=
  match jget "language" requirements with JStr s => given (Some s) | _ => None end.

(** A language that constrains the choice: present and not ["auto"]. *)
Definition explicit_language (requirements : dict json) : option string :=
  match req_language requirements with
  | Some l => if String.eqb (lower l) "auto" then None else Some l
  | None => None
  end.

Definition speaks (lang : string) (languages : list string) : bool :=
  mem_str (lower lang) (map lower languages).

Definition model_compatible (requirements : dict json) (m : ModelRow) : bool :=
  match explicit_language requirements, mr_languages m with
  | Some lang, Some ls => speaks lang ls
  | _, _ => true
  end.

Definition lang_match (requirements : dict json) (m : ModelRow) : nat :=
  match explicit_language requirements with
  | Some lang =>
      match mr_languages m with
      | Some ((_ :: _) as ls) => if speaks lang ls then 1 else 0
      | _ => 1
      end
  | None =>
      match mr_languages m with
      | None => 2
      | Some ls => if 10 <? length ls then 2 else 1
      end
  end.

Definition score_model (requirements : dict json) (m : ModelRow) : nat * Z :=
  (lang_match requirements m, default 0%Z (mr_size_bytes m)).

(** [sorted(models, key=score_model, reverse=True)]. *)
Definition model_before (requirements : dict json) (m1 m2 : ModelRow) : bool :=
  let '(l1, s1) := score_model requirements m1 in
  let '(l2, s2) := score_model requirements m2 in
  (l2 <? l1) || ((l1 =? l2) && (s2 <? s1)%Z).

Definition ready_models (db : list ModelRow) (engine_id stage : string) : list ModelRow :=
  List.filter (λ m, String.eqb (mr_engine_id m) engine_id
    && String.eqb (mr_status m) "ready" && String.eqb (mr_stage m) stage) db.

Definition _find_best_downloaded_model (db : list ModelRow) (engine_id stage : string)
    (requirements : dict json) : option ModelRow :=
  head (stable_sort (model_before requirements)
    (List.filter (model_compatible requirements) (ready_models db engine_id stage))).

(** ** Requirements and ranking *)

(** [parameters.get("language") or parameters.get("language_code")], kept
    unless empty or ["auto"]; and the streaming flag. *)
Definition extract_requirements (parameters : dict json) : res sel_exn (dict json) :=
  let language := if truthy (jget "language" parameters) then jget "language" parameters
                  else jget "language_code" parameters in
  reqs ← (if truthy language then
            match language with
            | JStr l => Ok (if String.eqb (lower l) "auto" then []
                            else [("language", JStr l)])
            | _ => Raise (SelectorPyError AttributeError)
            end
          else Ok []);
  Ok (if truthy (jget "streaming" parameters)
      then dset "streaming" (JBool true) reqs else reqs).

Definition _meets_requirements (caps : EngineCapabilities) (requirements : dict json) : bool :=
  negb (truthy (jget "streaming" requirements) && negb (cap_supports_native_streaming caps)).

(** [caps.rtf_gpu if caps.rtf_gpu else dflt]. *)
Definition rtf_or (dflt : pyfloat) (c : EngineCapabilities) : pyfloat :=
  match cap_rtf_gpu c with Some f => if f_truthy f then f else dflt | None => dflt end.

Definition score (e : EngineRecord) : nat * nat * pyfloat :=
  match er_capabilities e with
  | None => (0, 0, fneg (float_of_Z 999))
  | Some c =>
      (if cap_supports_word_timestamps c then 1 else 0,
       if cap_includes_diarization c then 1 else 0,
       fneg (rtf_or (float_of_Z 999) c))
  end.

(** Tuple comparison [s2 < s1]. *)
Definition score_gt (s1 s2 : nat * nat * pyfloat) : bool :=
  let '(a1, b1, c1) := s1 in
  let '(a2, b2, c2) := s2 in
  (a2 <? a1) || ((a1 =? a2) && ((b2 <? b1) || ((b1 =? b2) && flt c2 c1))).

Definition engine_before (e1 e2 : EngineRecord) : bool := score_gt (score e1) (score e2).

Definition _rank_capable_engines (capable : list EngineRecord) : list EngineRecord :=
  stable_sort engine_before capable.

Fixpoint join (sep : string) (l : list string) : string :=
  match l with
  | [] => ""
  | [s] => s
  | s :: l => s +:+ sep +:+ join sep l
  end.

(** The reason string of [_rank_and_select]. *)
Definition rank_reason (winner : EngineRecord) (n : nat) : string :=
  let reasons :=
    match er_capabilities winner with
    | Some c =>
        (if cap_supports_word_timestamps c then ["native word timestamps"] else [])
        ++ (if cap_includes_diarization c then ["native diarization"] else [])
    | None => []
    end ++ (if 1 <? n then ["ranked first of " +:+ str_nat n] else []) in
  match reasons with [] => "best available" | _ => join ", " reasons end.

Definition caps_or_default (e : EngineRecord) (stage : string) : EngineCapabilities :=
  default (default_capabilities (er_engine_id e) stage) (er_capabilities e).

Definition _rank_and_select (capable : list EngineRecord) : option EngineSelectionResult :=
  match _rank_capable_engines capable with
  | [] => None
  | winner :: _ =>
      Some {| es_engine_id := er_engine_id winner;
              es_capabilities := caps_or_default winner (er_stage winner);
              es_selection_reason := rank_reason winner (length capable);
              es_loaded_model_id := None; es_on_demand := false |}
  end.

(** ** The on-demand fallback *)

(** [min(candidates, key=...)]: the first entry no other one is below. *)
Fixpoint min_by {A} (lt : A → A → bool) (best : A) (l : list A) : A :=
  match l with
  | [] => best
  | x :: l => min_by lt (if lt x best then x else best) l
  end.

Definition faster (e1 e2 : CatalogEntry) : bool :=
  flt (rtf_or finf (ce_capabilities e1)) (rtf_or finf (ce_capabilities e2)).

Definition on_demand_candidates (alts : list CatalogEntry) (engine_id : option string)
    : list CatalogEntry :=
  List.filter (λ e, ce_on_demand e
    && match engine_id with Some i => String.eqb (ce_engine_id e) i | None => true end) alts.

Definition _catalog_on_demand_fallback (alts : list CatalogEntry) (engine_id : option string)
    : option EngineSelectionResult :=
  match on_demand_candidates alts engine_id with
  | [] => None
  | e :: l =>
      let winner := min_by faster e l in
      Some {| es_engine_id := ce_engine_id winner;
              es_capabilities := ce_capabilities winner;
              es_selection_reason :=
                "on_demand catalog fallback (no live instance, scale-to-zero)";
              es_loaded_model_id := None; es_on_demand := true |}
  end.

(** ** Selecting one engine *)

Section select.
Context (now : timestamp) (reg : registry) (cat : EngineCatalog)
  (db : option (list ModelRow)).

Definition no_capable {A} (stage : string) (requirements : dict json)
    (candidates : list EngineRecord) : res sel_exn A :=
  Raise (NoCapableEngineError stage requirements candidates
    (find_engines cat stage requirements)).

(** The capabilities used for a pinned model: those of its live engine, or
    of the catalog entry of an on-demand engine with no healthy instance. *)
Definition pinned_capabilities (stage : string) (m : ModelRow)
    : res sel_exn (option EngineCapabilities * bool) :=
  let live := get_engine_record now reg (mr_engine_id m) in
  match live with
  | Some e =>
      if is_healthy now e then Ok (er_capabilities e, false)
      else match get_engine cat (mr_engine_id m) with
           | Some entry =>
               if ce_on_demand entry then Ok (Some (ce_capabilities entry), true)
               else Raise (ModelSelectionError "runtime_unavailable" stage (mr_id m)
                             (Some (mr_engine_id m)))
           | None => Raise (ModelSelectionError "runtime_unavailable" stage (mr_id m)
                              (Some (mr_engine_id m)))
           end
  | None =>
      match get_engine cat (mr_engine_id m) with
      | Some entry =>
          if ce_on_demand entry then Ok (Some (ce_capabilities entry), true)
          else Raise (ModelSelectionError "runtime_unavailable" stage (mr_id m)
                        (Some (mr_engine_id m)))
      | None => Raise (ModelSelectionError "runtime_unavailable" stage (mr_id m)
                         (Some (mr_engine_id m)))
      end
  end.

(** The model's language list against the required language. *)
Definition pinned_language_ok (requirements : dict json) (m : ModelRow) : bool :=
  match mr_languages m, req_language requirements with
  | Some ls, Some lang => speaks lang ls
  | _, _ => true
  end.

Definition select_model (stage : string) (requirements : dict json) (m : ModelRow)
    : res sel_exn EngineSelectionResult :=
  if negb (String.eqb (mr_stage m) stage) then
    Raise (ModelSelectionError "model_stage_mismatch" stage (mr_id m) (Some (mr_engine_id m)))
  else if negb (String.eqb (mr_status m) "ready") then
    Raise (ModelSelectionError "model_not_ready" stage (mr_id m) (Some (mr_engine_id m)))
  else
    '(caps, on_demand) ← pinned_capabilities stage m;
    if negb (pinned_language_ok requirements m) then
      no_capable stage requirements
        (match get_engine_record now reg (mr_engine_id m) with Some e => [e] | None => [] end)
    else
      Ok {| es_engine_id := mr_engine_id m;
            es_capabilities := default (default_capabilities (mr_engine_id m) stage) caps;
            es_selection_reason :=
              if (on_demand : bool)
              then "database model lookup (on_demand catalog fallback, no live instance)"
              else "database model lookup";
            es_loaded_model_id := Some (_resolve_loaded_model_id m stage);
            es_on_demand := on_demand |}.

(** The preference names an engine, not a model. *)
Definition select_preferred_engine (stage : string) (requirements : dict json)
    (pref : string) : res sel_exn EngineSelectionResult :=
  let unavailable :=
    match _catalog_on_demand_fallback (find_engines cat stage requirements) (Some pref) with
    | Some r => Ok r
    | None => no_capable stage requirements []
    end in
  match get_engine_record now reg pref with
  | None => unavailable
  | Some e =>
      if negb (is_available now e) then unavailable
      else if match er_capabilities e with
              | Some c => negb (_meets_requirements c requirements)
              | None => false
              end
      then no_capable stage requirements [e]
      else Ok {| es_engine_id := er_engine_id e;
                 es_capabilities := caps_or_default e stage;
                 es_selection_reason := "user preference";
                 es_loaded_model_id := None; es_on_demand := false |}
  end.

(** Running batch engines of the stage, and those that can take the job. *)
Definition batch_candidates (stage : string) : list EngineRecord :=
  List.filter (supports_interface "batch") (get_by_stage reg stage).

Definition engine_capable (requirements : dict json) (e : EngineRecord) : bool :=
  is_healthy now e
  && match er_capabilities e with
     | Some c => _meets_requirements c requirements
     | None => true
     end.

Definition capable_engines (stage : string) (requirements : dict json) : list EngineRecord :=
  List.filter (engine_capable requirements) (batch_candidates stage).

(** The first ranked engine that has a ready model, with its position. *)
Fixpoint first_with_model (models : list ModelRow) (stage : string)
    (requirements : dict json) (idx : nat) (ranked : list EngineRecord)
    : option (nat * EngineRecord * ModelRow) :=
  match ranked with
  | [] => None
  | e :: rest =>
      match _find_best_downloaded_model models (er_engine_id e) stage requirements with
      | Some m => Some (idx, e, m)
      | None => first_with_model models stage requirements (S idx) rest
      end
  end.

Definition select_auto (stage : string) (requirements : dict json)
    : res sel_exn EngineSelectionResult :=
  let capable := capable_engines stage requirements in
  let ranked := if length capable =? 1 then capable else _rank_capable_engines capable in
  match ranked with
  | [] =>
      match _catalog_on_demand_fallback (find_engines cat stage requirements) None with
      | Some r => Ok r
      | None => no_capable stage requirements (batch_candidates stage)
      end
  | top :: _ =>
      let reason := if length capable =? 1 then "only capable engine"
                    else rank_reason top (length capable) in
      let result e why model :=
        {| es_engine_id := er_engine_id e; es_capabilities := caps_or_default e stage;
           es_selection_reason := why; es_loaded_model_id := model;
           es_on_demand := false |} in
      match db with
      | Some models =>
          if mem_str stage MODEL_BACKED_STAGES then
            match first_with_model models stage requirements 0 ranked with
            | None => Raise (NoDownloadedModelError (er_engine_id top) stage
                               (map er_engine_id ranked))
            | Some (idx, e, m) =>
                let why := if (1 <? length ranked) && negb (idx =? 0)
                           then reason +:+ "; fallback to engine_id with ready model"
                           else reason in
                Ok (result e why (Some (_resolve_loaded_model_id m stage)))
            end
          else Ok (result top reason None)
      | None => Ok (result top reason None)
      end
  end.

Definition find_model (pref : string) : option ModelRow :=
  match db with
  | Some models => find_first (λ m, String.eqb (mr_id m) pref) models
  | None => None
  end.

(** [select_engine]: an explicit preference is a model of the database, else
    (unless it must be a model) an engine id; with none, automatic choice. *)
Definition select_engine (stage : string) (requirements : dict json)
    (user_preference : option string) (user_preference_is_model : bool)
    : res sel_exn EngineSelectionResult :=
  match given user_preference with
  | Some pref =>
      match find_model pref with
      | Some m => select_model stage requirements m
      | None =>
          if user_preference_is_model
          then Raise (ModelSelectionError "model_not_found" stage pref None)
          else select_preferred_engine stage requirements pref
      end
  | None => select_auto stage requirements
  end.

(** ** Selecting a pipeline *)

(** A preference parameter: a falsy value means none.  The request models
    only let strings through; any other truthy value is a [TypeError]. *)
Definition preference (v : json) : res sel_exn (option string) :=
  if truthy v then
    match v with JStr s => Ok (Some s) | _ => Raise (SelectorPyError TypeError) end
  else Ok None.

Definition wants_word_timestamps (parameters : dict json) : bool :=
  match dget "word_timestamps" parameters with
  | Some v => truthy v
  | None =>
      match dget "timestamps_granularity" parameters with
      | Some g => jeq_str g "word"
      | None => true
      end
  end.

Definition _should_add_alignment (parameters : dict json) (tr : EngineSelectionResult) : bool :=
  wants_word_timestamps parameters
  && negb (cap_supports_word_timestamps (es_capabilities tr)).

Definition _should_add_diarization (parameters : dict json) (tr : EngineSelectionResult) : bool :=
  jeq_str (jget_or "speaker_detection" (JStr "none") parameters) "diarize"
  && negb (cap_includes_diarization (es_capabilities tr)).

(** [except (NoDownloadedModelError, NoCapableEngineError)]. *)
Definition align_error_caught (e : sel_exn) : bool :=
  match e with NoDownloadedModelError _ _ _ | NoCapableEngineError _ _ _ _ => true | _ => false end.

(** The alignment step: an unpinned alignment that no engine or model can
    serve degrades the job to segment timestamps. *)
Definition select_alignment (params requirements : dict json)
    (stages : dict EngineSelectionResult)
    : res sel_exn (dict EngineSelectionResult * dict json) :=
  let align_requirements :=
    match req_language requirements with
    | Some l => [("language", JStr l)]
    | None => []
    end in
  pref ← preference (jget "model_align" params);
  match select_engine "align" align_requirements pref true with
  | Ok s => Ok (dset "align" s stages, params)
  | Raise e =>
      if align_error_caught e && negb (bool_decide (is_Some pref)) then
        Ok (stages, dset "timestamps_granularity" (JStr "segment")
                      (dset "word_timestamps" (JBool false) params))
      else Raise e
  end.

Definition select_pii (params : dict json) (stages : dict EngineSelectionResult)
    : res sel_exn (dict EngineSelectionResult) :=
  if truthy (jget_or "pii_detection" (JBool false) params) then
    pref ← preference (jget "model_pii_detect" params);
    s ← select_engine "pii_detect" [] pref true;
    let stages := dset "pii_detect" s stages in
    if truthy (jget_or "redact_pii_audio" (JBool false) params) then
      pref ← preference (jget "engine_audio_redact" params);
      s ← select_engine "audio_redact" [] pref false;
      Ok (dset "audio_redact" s stages)
    else Ok stages
  else Ok stages.

Definition select_pipeline_engines (parameters : dict json)
    : res sel_exn PipelineEngineSelection :=
  requirements ← extract_requirements parameters;
  pref ← preference (jget "engine_prepare" parameters);
  prepare ← select_engine "prepare" [] pref false;
  pref ← preference (jget "model_transcribe" parameters);
  transcribe ← select_engine "transcribe" requirements pref false;
  let stages := [("prepare", prepare); ("transcribe", transcribe)] in
  '(stages, params) ←
    (if _should_add_alignment parameters transcribe
     then select_alignment parameters requirements stages
     else Ok (stages, parameters));
  stages ←
    (if _should_add_diarization params transcribe then
       pref ← preference (jget "model_diarize" params);
       s ← select_engine "diarize" [] pref false;
       Ok (dset "diarize" s stages)
     else Ok stages);
  stages ← select_pii params stages;
  Ok {| ps_stages := stages; ps_effective_parameters := params |}.
End select.

(** ** Lemmas: the rankings are strict weak orders *)

Lemma model_before_irrefl req m : model_before req m m = false.
Proof. unfold model_before. destruct (score_model req m). cbv beta iota. lia. Qed.

Lemma model_before_trans req x y z :
  model_before req x y = true → model_before req y z = true → model_before req x z = true.
Proof.
  unfold model_before.
  destruct (score_model req x), (score_model req y), (score_model req z). cbv beta iota. lia.
Qed.

Lemma model_before_neg_trans req x y z :
  model_before req x y = false → model_before req y z = false → model_before req x z = false.
Proof.
  unfold model_before.
  destruct (score_model req x), (score_model req y), (score_model req z). cbv beta iota. lia.
Qed.

(** The speed an engine declares is a number. *)
Definition rtf_number (e : EngineRecord) : Prop := is_nan (score e).2 = false.

Lemma engine_before_irrefl e : engine_before e e = false.
Proof.
  unfold engine_before, score_gt. destruct (score e) as [[a b] c].
  cbv beta iota. rewrite flt_irrefl. lia.
Qed.

Lemma engine_before_trans x y z :
  engine_before x y = true → engine_before y z = true → engine_before x z = true.
Proof.
  unfold engine_before, score_gt.
  destruct (score x) as [[a1 b1] c1], (score y) as [[a2 b2] c2], (score z) as [[a3 b3] c3].
  generalize (flt_trans c3 c2 c1). destruct (flt c3 c2), (flt c2 c1), (flt c3 c1);
    intros H; try (specialize (H eq_refl eq_refl); discriminate); lia.
Qed.

Lemma engine_before_neg_trans x y z :
  rtf_number y → engine_before x y = false → engine_before y z = false →
  engine_before x z = false.
Proof.
  unfold engine_before, score_gt, rtf_number.
  destruct (score x) as [[a1 b1] c1], (score y) as [[a2 b2] c2], (score z) as [[a3 b3] c3].
  cbv beta iota delta [snd]. intros Hnan. generalize (flt_neg_trans c3 c2 c1 Hnan).
  destruct (flt c3 c2), (flt c2 c1), (flt c3 c1); intros H;
    try (specialize (H eq_refl eq_refl); discriminate); lia.
Qed.
#[export] Hint Resolve model_before_irrefl model_before_trans model_before_neg_trans
  engine_before_irrefl engine_before_trans engine_before_neg_trans : dalston.

Lemma find_best_spec db e stage req m :
  _find_best_downloaded_model db e stage req = Some m →
  m ∈ ready_models db e stage ∧ model_compatible req m = true ∧
  ∀ m', m' ∈ ready_models db e stage → model_compatible req m' = true →
    model_before req m' m = false.
Proof.
  unfold _find_best_downloaded_model. intros Hh.
  destruct (stable_sort _ _) as [|x l] eqn:Hs; [done|]. injection Hh as ->.
  assert (m ∈ stable_sort (model_before req)
    (List.filter (model_compatible req) (ready_models db e stage))) as Hm
    by (rewrite Hs; by left).
  rewrite elem_of_stable_sort, elem_of_filter_b in Hm. destruct Hm as [Hm Hc].
  split_and!; [done|done|]. intros m' Hm' Hc'.
  eapply (stable_sort_head _ (λ _, True)); [..|exact Hs|]; eauto with dalston.
  by apply elem_of_filter_b.
Qed.

Lemma find_best_None db e stage req :
  _find_best_downloaded_model db e stage req = None ↔
  ∀ m, m ∈ ready_models db e stage → model_compatible req m = false.
Proof.
  unfold _find_best_downloaded_model.
  destruct (stable_sort _ _) as [|x l] eqn:Hs; cbn.
  - apply stable_sort_nil in Hs. split; [intros _ m Hm|done].
    destruct (model_compatible req m) eqn:Hc; [|done].
    assert (m ∈ List.filter (model_compatible req) (ready_models db e stage)) as Hin
      by by apply elem_of_filter_b.
    rewrite Hs in Hin. inversion Hin.
  - split; [done|]. intros Hn. assert (x ∈ x :: l) as Hx by by left.
    rewrite <-Hs, elem_of_stable_sort, elem_of_filter_b in Hx.
    destruct Hx as [Hx Hc]. by rewrite (Hn x Hx) in Hc.
Qed.

Lemma capable_engines_spec now reg stage req e :
  e ∈ capable_engines now reg stage req ↔
  e ∈ reg ∧ er_stage e = stage ∧ supports_interface "batch" e = true ∧
  engine_capable now req e = true.
Proof.
  unfold capable_engines, batch_candidates.
  rewrite !elem_of_filter_b, get_by_stage_spec. tauto.
Qed.

Lemma first_with_model_spec models stage req idx ranked i e m :
  first_with_model models stage req idx ranked = Some (i, e, m) →
  ∃ l1 l2, ranked = l1 ++ e :: l2 ∧
    _find_best_downloaded_model models (er_engine_id e) stage req = Some m ∧
    Forall (λ e', _find_best_downloaded_model models (er_engine_id e') stage req = None) l1.
Proof.
  revert idx. induction ranked as [|e' ranked IH]; intros idx; cbn; [done|].
  destruct (_find_best_downloaded_model models (er_engine_id e') stage req) as [m'|] eqn:Hb.
  - intros [= <- <- <-]. by exists [], ranked.
  - intros (l1 & l2 & -> & Hm & Hl1)%IH. exists (e' :: l1), l2.
    split_and!; [done|done|by constructor].
Qed.

Lemma first_with_model_None models stage req idx ranked :
  first_with_model models stage req idx ranked = None ↔
  Forall (λ e, _find_best_downloaded_model models (er_engine_id e) stage req = None) ranked.
Proof.
  revert idx. induction ranked as [|e ranked IH]; intros idx; cbn; [done|].
  rewrite Forall_cons. destruct (_find_best_downloaded_model _ _ _ _); [naive_solver|].
  rewrite IH. naive_solver.
Qed.

(** The list [select_auto] tries: the capable engines, best first. *)
Definition ranked_engines now reg stage req : list EngineRecord :=
  let capable := capable_engines now reg stage req in
  if length capable =? 1 then capable else _rank_capable_engines capable.

Lemma ranked_engines_perm now reg stage req :
  ranked_engines now reg stage req ≡ₚ capable_engines now reg stage req.
Proof.
  unfold ranked_engines, _rank_capable_engines.
  case_match; [done|apply stable_sort_perm].
Qed.

Lemma ranked_engines_sorted now reg stage req :
  Forall rtf_number reg →
  sorted_by engine_before (ranked_engines now reg stage req).
Proof.
  intros Hreg. unfold ranked_engines, _rank_capable_engines.
  destruct (Nat.eqb_spec (length (capable_engines now reg stage req)) 1) as [H1|_].
  - destruct (capable_engines now reg stage req) as [|e [|]]; try done.
    by repeat constructor.
  - apply (stable_sort_sorted _ rtf_number); eauto with dalston.
    apply Forall_forall. intros e (He & _)%capable_engines_spec.
    by eapply Forall_forall in Hreg.
Qed.

Lemma fallback_spec alts o r :
  _catalog_on_demand_fallback alts o = Some r →
  es_on_demand r = true ∧ ∃ e, e ∈ alts ∧ ce_on_demand e = true ∧
    es_engine_id r = ce_engine_id e ∧ (∀ i, o = Some i → ce_engine_id e = i).
Proof.
  unfold _catalog_on_demand_fallback.
  destruct (on_demand_candidates alts o) as [|e l] eqn:Hc; [done|]. intros [= <-]; cbn.
  split; [done|]. exists (min_by faster e l).
  assert (min_by faster e l ∈ on_demand_candidates alts o) as Hin.
  { rewrite Hc. clear Hc. revert e. induction l as [|x l IH]; intros e; cbn; [by left|].
    specialize (IH (if faster x e then x else e)). rewrite !elem_of_cons in *.
    destruct (faster x e); naive_solver. }
  unfold on_demand_candidates in Hin. apply elem_of_filter_b in Hin as [Hin Hf].
  apply andb_true_iff in Hf as [Hd Hi]. split_and!; [done|done|done|].
  intros i ->. by apply String.eqb_eq.
Qed.

Lemma fallback_None alts :
  _catalog_on_demand_fallback alts None = None ↔
  ∀ e, e ∈ alts → ce_on_demand e = false.
Proof.
  unfold _catalog_on_demand_fallback.
  assert (∀ e, e ∈ on_demand_candidates alts None ↔ e ∈ alts ∧ ce_on_demand e = true) as Hspec.
  { intros e. unfold on_demand_candidates. rewrite elem_of_filter_b. by rewrite andb_true_r. }
  destruct (on_demand_candidates alts None) as [|e l]; split; try done.
  - intros _ e He. destruct (ce_on_demand e) eqn:Hd; [|done].
    assert (e ∈ @nil CatalogEntry) as Habs by by apply Hspec. inversion Habs.
  - intros H. destruct (Hspec e) as [[He Hd] _]; [by left|]. by rewrite (H e He) in Hd.
Qed.

(** ** Properties *)

Section properties.
Context (now : timestamp) (reg : registry) (cat : EngineCatalog).

Lemma select_auto_eq db stage req :
  select_auto now reg cat db stage req =
  match ranked_engines now reg stage req with
  | [] =>
      match _catalog_on_demand_fallback (find_engines cat stage req) None with
      | Some r => Ok r
      | None => no_capable cat stage req (batch_candidates reg stage)
      end
  | top :: rest =>
      match db with
      | Some models =>
          if mem_str stage MODEL_BACKED_STAGES then
            match first_with_model models stage req 0 (top :: rest) with
            | None => Raise (NoDownloadedModelError (er_engine_id top) stage
                               (map er_engine_id (top :: rest)))
            | Some (idx, e, m) =>
                let n := length (capable_engines now reg stage req) in
                let reason := if n =? 1 then "only capable engine" else rank_reason top n in
                Ok {| es_engine_id := er_engine_id e;
                      es_capabilities := caps_or_default e stage;
                      es_selection_reason :=
                        if (1 <? length (top :: rest)) && negb (idx =? 0)
                        then reason +:+ "; fallback to engine_id with ready model"
                        else reason;
                      es_loaded_model_id := Some (_resolve_loaded_model_id m stage);
                      es_on_demand := false |}
            end
          else
            let n := length (capable_engines now reg stage req) in
            Ok {| es_engine_id := er_engine_id top; es_capabilities := caps_or_default top stage;
                  es_selection_reason :=
                    if n =? 1 then "only capable engine" else rank_reason top n;
                  es_loaded_model_id := None; es_on_demand := false |}
      | None =>
          let n := length (capable_engines now reg stage req) in
          Ok {| es_engine_id := er_engine_id top; es_capabilities := caps_or_default top stage;
                es_selection_reason :=
                  if n =? 1 then "only capable engine" else rank_reason top n;
                es_loaded_model_id := None; es_on_demand := false |}
      end
  end.
Proof.
  unfold select_auto, ranked_engines. cbv zeta.
  by destruct (if length (capable_engines now reg stage req) =? 1 then _ else _).
Qed.

(** The engine [e] serves the stage without a downloaded model, or has one. *)
Definition can_serve (db : option (list ModelRow)) (stage : string) (req : dict json)
    (e : EngineRecord) : bool :=
  match db with
  | Some models =>
      negb (mem_str stage MODEL_BACKED_STAGES)
      || bool_decide (is_Some (_find_best_downloaded_model models (er_engine_id e) stage req))
  | None => true
  end.

(** Automatic selection fails in exactly two situations: no engine is
    capable and the catalog has no on-demand entry for the stage
    ([NoCapableEngineError]), or engines are capable but none has a ready,
    language-compatible model ([NoDownloadedModelError]). *)
Theorem select_auto_errors db stage req e :
  select_auto now reg cat db stage req = Raise e ↔
  (capable_engines now reg stage req = [] ∧
     (∀ c, c ∈ find_engines cat stage req → ce_on_demand c = false) ∧
     e = NoCapableEngineError stage req (batch_candidates reg stage)
           (find_engines cat stage req)) ∨
  (∃ top rest, ranked_engines now reg stage req = top :: rest ∧
     (∀ e', e' ∈ capable_engines now reg stage req → can_serve db stage req e' = false) ∧
     e = NoDownloadedModelError (er_engine_id top) stage (map er_engine_id (top :: rest))).
Proof.
  rewrite select_auto_eq.
  pose proof (ranked_engines_perm now reg stage req) as Hp.
  destruct (ranked_engines now reg stage req) as [|top rest].
  { apply Permutation_nil_l in Hp. rewrite <-fallback_None.
    destruct (_catalog_on_demand_fallback _ _); unfold no_capable; naive_solver. }
  assert (capable_engines now reg stage req ≠ []) as Hne.
  { intros Hn. rewrite Hn in Hp. by apply Permutation_nil_r in Hp. }
  assert ((∀ e', e' ∈ capable_engines now reg stage req → can_serve db stage req e' = false)
    ↔ Forall (λ e', can_serve db stage req e' = false) (top :: rest)) as Hiff.
  { rewrite Forall_forall. split; intros H x Hx; apply H; [by rewrite <-Hp|by rewrite Hp]. }
  trans (Forall (λ e', can_serve db stage req e' = false) (top :: rest) ∧
    e = NoDownloadedModelError (er_engine_id top) stage (map er_engine_id (top :: rest)));
    [clear Hiff|rewrite <-Hiff; naive_solver].
  unfold can_serve. destruct db as [models|]; [destruct (mem_str _ _); cbn [negb orb]|].
  - pose proof (first_with_model_None models stage req 0 (top :: rest)) as Hf.
    assert (Forall (λ e', bool_decide (is_Some (_find_best_downloaded_model models
      (er_engine_id e') stage req)) = false) (top :: rest) ↔
      first_with_model models stage req 0 (top :: rest) = None) as ->.
    { rewrite Hf. apply Forall_iff. intros x.
      by rewrite bool_decide_eq_false, eq_None_not_Some. }
    destruct (first_with_model _ _ _ _ _) as [[[i e'] m]|]; naive_solver.
  - rewrite Forall_cons. naive_solver.
  - rewrite Forall_cons. naive_solver.
Qed.

(** A pinned model's engine can take work: live and healthy, or flagged
    on-demand in the catalog. *)
Definition runtime_reachable (m : ModelRow) : bool :=
  match get_engine_record now reg (mr_engine_id m) with
  | Some e => is_healthy now e
  | None => false
  end
  || match get_engine cat (mr_engine_id m) with
     | Some c => ce_on_demand c
     | None => false
     end.

(** A pinned model is accepted exactly when its stage matches, it is
    ready, its engine is reachable and its languages include the required
    one; the result names its engine and its resolved runtime id, and is
    on-demand exactly when no healthy instance is registered. *)
Theorem select_pinned_model db pref m stage req is_model :
  pref ≠ "" → find_model db pref = Some m →
  (is_ok (select_engine now reg cat db stage req (Some pref) is_model) = true ↔
     mr_stage m = stage ∧ mr_status m = "ready" ∧ runtime_reachable m = true ∧
     pinned_language_ok req m = true) ∧
  ∀ r, select_engine now reg cat db stage req (Some pref) is_model = Ok r →
    es_engine_id r = mr_engine_id m ∧
    es_loaded_model_id r = Some (_resolve_loaded_model_id m stage) ∧
    es_on_demand r = negb (match get_engine_record now reg (mr_engine_id m) with
                           | Some e => is_healthy now e | None => false end).
Proof.
  intros Hp%String.eqb_neq Hm. unfold select_engine, given. rewrite Hp, Hm.
  unfold select_model, runtime_reachable, pinned_capabilities.
  destruct (String.eqb_spec (mr_stage m) stage); cbn; [|split; naive_solver].
  destruct (String.eqb_spec (mr_status m) "ready"); cbn; [|split; naive_solver].
  destruct (pinned_language_ok req m);
    destruct (get_engine_record now reg (mr_engine_id m)) as [e'|]; cbn;
    try destruct (is_healthy now e'); cbn;
    try destruct (get_engine cat (mr_engine_id m)) as [c|]; cbn;
    try destruct (ce_on_demand c); cbn; split; naive_solver.
Qed.

(** The parameters of a job whose alignment was dropped. *)
Definition degrade (parameters : dict json) : dict json :=
  dset "timestamps_granularity" (JStr "segment")
    (dset "word_timestamps" (JBool false) parameters).

Definition opt_stage (b : bool) (s : string) : list string := if b then [s] else [].

Lemma select_alignment_ok db params req stages stages' params' :
  select_alignment now reg cat db params req stages = Ok (stages', params') →
  (params' = params ∧ ∃ s, stages' = dset "align" s stages) ∨
  (params' = degrade params ∧ stages' = stages ∧ truthy (jget "model_align" params) = false).
Proof.
  unfold select_alignment. intros H. inv_ok. rename x into pref.
  destruct (select_engine _ _ _ _ _ _ _ _) as [s|e].
  - inv_ok. left. eauto.
  - destruct (align_error_caught e && _) eqn:Hc; [|done]. inv_ok. right.
    split_and!; [done..|]. apply andb_true_iff in Hc as [_ Hc].
    unfold preference in *. destruct (truthy _); [|done].
    destruct (jget "model_align" params); try done. by inv_ok.
Qed.

Lemma select_pii_ok db params stages stages' :
  select_pii now reg cat db params stages = Ok stages' →
  truthy (jget_or "pii_detection" (JBool false) params) = false ∧ stages' = stages ∨
  truthy (jget_or "pii_detection" (JBool false) params) = true ∧
    ∃ s, (truthy (jget_or "redact_pii_audio" (JBool false) params) = false ∧
            stages' = dset "pii_detect" s stages) ∨
         (truthy (jget_or "redact_pii_audio" (JBool false) params) = true ∧
            ∃ s', stages' = dset "audio_redact" s' (dset "pii_detect" s stages)).
Proof.
  unfold select_pii. destruct (truthy (jget_or "pii_detection" _ _));
    destruct (truthy (jget_or "redact_pii_audio" _ _)); intros H; inv_ok; naive_solver.
Qed.

(** The shape of a pipeline selection.  Prepare and transcribe are always
    selected; alignment is selected or dropped when wanted and not native;
    diarization, PII detection and audio redaction follow their parameters.
    The effective parameters are the job's, or, when an unpinned alignment
    was dropped, the job's with segment timestamps. *)
Theorem pipeline_selection_shape db parameters ps :
  select_pipeline_engines now reg cat db parameters = Ok ps →
  ∃ tr (a g : bool),
    dget "transcribe" (ps_stages ps) = Some tr ∧
    _should_add_alignment parameters tr = a || g ∧ a && g = false ∧
    (g = true → truthy (jget "model_align" parameters) = false) ∧
    ps_effective_parameters ps = (if g then degrade parameters else parameters) ∧
    dkeys (ps_stages ps) =
      ["prepare"; "transcribe"] ++ opt_stage a "align"
      ++ opt_stage (_should_add_diarization parameters tr) "diarize"
      ++ opt_stage (truthy (jget_or "pii_detection" (JBool false) parameters)) "pii_detect"
      ++ opt_stage (truthy (jget_or "pii_detection" (JBool false) parameters)
                    && truthy (jget_or "redact_pii_audio" (JBool false) parameters))
           "audio_redact".
Proof.
  unfold select_pipeline_engines. intros H. inv_ok. cbn [ps_stages ps_effective_parameters].
  destruct x4 as [stages params]. rename x3 into tr, x1 into prepare.
  assert (∃ a g : bool, _should_add_alignment parameters tr = a || g ∧ a && g = false ∧
    (g = true → truthy (jget "model_align" parameters) = false) ∧
    params = (if g then degrade parameters else parameters) ∧
    ∃ sel, stages = [("prepare", prepare); ("transcribe", tr)]
           ++ (if a then [("align", sel)] else [])) as (a & g & Ha & Hag & Hg & -> & sel & ->).
  { destruct (_should_add_alignment parameters tr).
    - match goal with H : select_alignment _ _ _ _ _ _ _ = _ |- _ =>
        apply select_alignment_ok in H as [(-> & s & ->)|(-> & -> & ?)] end.
      + exists true, false. split_and!; [done..|]. by exists s.
      + exists false, true. split_and!; [done..|]. by exists tr.
    - inv_ok. exists false, false. split_and!; [done..|]. by exists tr. }
  exists tr, a, g.
  assert (∀ k, k ≠ "word_timestamps" → k ≠ "timestamps_granularity" → ∀ v,
    jget_or k v (if g then degrade parameters else parameters) = jget_or k v parameters) as Hp.
  { intros k Hk1 Hk2 v. destruct g; [|done]. unfold degrade, jget_or.
    by rewrite !dget_dset_ne by congruence. }
  assert (_should_add_diarization (if g then degrade parameters else parameters) tr
    = _should_add_diarization parameters tr) as Hdiar
    by (unfold _should_add_diarization; by rewrite Hp).
  rewrite Hdiar in *. clear Hdiar.
  inv_ok. match goal with H : select_pii _ _ _ _ _ _ = _ |- _ => rename H into Hpii end.
  apply select_pii_ok in Hpii. rewrite !Hp in Hpii by done. cbn [ps_stages ps_effective_parameters].
  match goal with H : (if _should_add_diarization _ _ then _ else _) = Ok ?st |- _ =>
    assert (∃ s, st = [("prepare", prepare); ("transcribe", tr)]
      ++ (if a then [("align", sel)] else [])
      ++ (if _should_add_diarization parameters tr then [("diarize", s)] else []))
      as [s ->] end.
  { destruct (_should_add_diarization parameters tr); inv_ok; [|by exists tr; destruct a].
    eexists. by destruct a. }
  split_and!; [|done..|].
  - destruct Hpii as [[_ ->]|(_ & s' & [[_ ->]|(_ & s'' & ->)])];
      by destruct a, (_should_add_diarization parameters tr).
  - destruct Hpii as [[-> ->]|(-> & s' & [[-> ->]|(-> & s'' & ->)])];
      by destruct a, (_should_add_diarization parameters tr).
Qed.
End properties.

(** ** Concrete inputs *)

Module Demo.
Definition now : timestamp := 1000000000.

Definition caps (e stage : string) (word_ts : bool) (rtf : Z * Z) : EngineCapabilities := {|
  cap_engine_id := e; cap_version := "1"; cap_stages := [stage];
  cap_supports_word_timestamps := word_ts; cap_supports_native_streaming := false;
  cap_model_variants := None; cap_gpu_required := false; cap_gpu_vram_mb := None;
  cap_supports_cpu := true; cap_min_ram_gb := None;
  cap_rtf_gpu := Some (float_lit rtf.1 rtf.2); cap_rtf_cpu := None;
  cap_max_concurrency := None; cap_includes_diarization := false;
  cap_vocabulary_support := None; cap_supports_language_forcing := true |}.

Definition engine (e stage : string) (word_ts : bool) (rtf : Z * Z) : EngineRecord :=
  new_record (e +:+ "-0") e stage "ready" ["batch"] 1 None (Some now)
    (Some (caps e stage word_ts rtf)).

Definition reg : registry :=
  [engine "audio-prepare" "prepare" false (1, 10)%Z;
   engine "faster-whisper" "transcribe" false (1, 20)%Z;
   engine "nemo" "transcribe" true (1, 50)%Z;
   engine "pyannote-4.0" "diarize" false (1, 10)%Z].

Definition model (id e stage : string) (langs : option (list string)) : ModelRow := {|
  mr_id := id; mr_engine_id := e; mr_loaded_model_id := id; mr_stage := stage;
  mr_status := "ready"; mr_source := None; mr_languages := langs;
  mr_size_bytes := Some 1000%Z |}.

(** The native-timestamp engine [nemo] only has an English model. *)
Definition models : list ModelRow :=
  [model "parakeet" "nemo" "transcribe" (Some ["en"]);
   model "large-v3" "faster-whisper" "transcribe" None;
   model "pyannote" "pyannote-4.0" "diarize" None].

Definition croatian : dict json := [("language", JStr "hr")].

Definition params : dict json :=
  [("language", JStr "hr"); ("speaker_detection", JStr "diarize")].
End Demo.


Lemma select_pinned_model_witness :
  ∃ r, select_engine Demo.now Demo.reg [] (Some Demo.models) "transcribe" Demo.croatian
         (Some "large-v3") false = Ok r ∧ es_loaded_model_id r = Some "large-v3".
Proof.
  destruct (select_pinned_model Demo.now Demo.reg [] (Some Demo.models) "large-v3"
    (Demo.model "large-v3" "faster-whisper" "transcribe" None) "transcribe" Demo.croatian false)
    as [_ Hr]; [done|done|].
  eexists. split; [vm_compute; reflexivity|]. eapply Hr. vm_compute; reflexivity.
Defined.

Lemma pipeline_selection_shape_witness :
  ∃ ps, select_pipeline_engines Demo.now Demo.reg [] (Some Demo.models) Demo.params = Ok ps ∧
    ps_effective_parameters ps = degrade Demo.params ∧
    ∃ tr, dget "transcribe" (ps_stages ps) = Some tr ∧ es_engine_id tr = "faster-whisper".
Proof.
  eexists. split; [vm_compute; reflexivity|]. split; [reflexivity|].
  edestruct (pipeline_selection_shape Demo.now Demo.reg [] (Some Demo.models) Demo.params)
    as (tr & a & g & Htr & _); [vm_compute; reflexivity|].
  exists tr. split; [exact Htr|]. vm_compute in Htr. by injection Htr as <-.
Defined.
