(* ===== verification/Dag.v ===== *)
(** * Task DAG builder

    Models [dalston/orchestrator/dag.py]: a job's parameters and the selected
    engines become a list of tasks with their dependencies.  The [i]-th call
    of [uuid4()] during one build is [uuid4 i]. *)

From S2P Require Import Prelude PyValue Models Catalog Registry Selector.

Definition VALID_TIMESTAMPS_GRANULARITIES : list string := ["word"; "segment"; "none"].
Definition VALID_SPEAKER_DETECTION_MODES : list string := ["none"; "diarize"; "per_channel"].

(** [_speech_regions_enabled] on the value of the environment variable
    ([""] when it is not set). *)
Definition _speech_regions_enabled (raw : string) : bool :=
  mem_str (lower (strip raw)) ["1"; "true"; "yes"; "on"].

Definition audio_binding (channel : option N) : RequestBinding := {|
  rb_slot := "audio";
  rb_selector := {| sel_producer_stage := "prepare"; sel_kind := "audio";
                    sel_channel := channel; sel_role := Some "prepared";
                    sel_required := true |} |}.

Definition _audio_input_binding (channel : option N) : list json :=
  [dump_binding (audio_binding channel)].

Definition DEFAULT_ENGINES : dict string :=
  [("prepare", "audio-prepare"); ("transcribe", "faster-whisper");
   ("align", "phoneme-align"); ("diarize", "pyannote-4.0");
   ("pii_detect", "pii-presidio"); ("audio_redact", "audio-redactor")].

(** [DEFAULT_ENGINES[stage]], for the stages of the table. *)
Definition default_engine (stage : string) : string := default "" (dget stage DEFAULT_ENGINES).

Definition engine_for (engines : dict string) (stage : string) : string :=
  default (default_engine stage) (dget stage engines).

Definition DEFAULT_TRANSCRIBE_CONFIG : dict json :=
  [("language", JNull); ("beam_size", JInt 5); ("vad_filter", JBool true)].

(** ** Stage configurations *)

(** The value of [word_timestamps]: the parameter itself, or what the
    granularity says (an unknown one counts as ["word"]), or true. *)
Definition word_timestamps_param (parameters : dict json) : res pyexn json :=
  match dget "word_timestamps" parameters with
  | Some v => Ok v
  | None =>
      match dget "timestamps_granularity" parameters with
      | Some g =>
          known ← jin_strs g VALID_TIMESTAMPS_GRANULARITIES;
          Ok (JBool (if (known : bool) then jeq_str g "word" else true))
      | None => Ok (JBool true)
      end
  end.

(** The speaker mode, ["none"] when it is unknown. *)
Definition speaker_detection_param (parameters : dict json) : res pyexn json :=
  let sd := jget_or "speaker_detection" (JStr "none") parameters in
  known ← jin_strs sd VALID_SPEAKER_DETECTION_MODES;
  Ok (if (known : bool) then sd else JStr "none").

(** [parameters.get(k) is not None and parameters[k] > 0] *)
Definition given_positive (k : string) (parameters : dict json) : res pyexn bool :=
  if is_null (jget k parameters) then Ok false else jpositive (jget k parameters).

Definition build_diarize_config (parameters : dict json) : res pyexn (dict json) :=
  num ← given_positive "num_speakers" parameters;
  cfg ← (if (num : bool) then
           Ok [("min_speakers", jget "num_speakers" parameters);
               ("max_speakers", jget "num_speakers" parameters)]
         else
           mn ← given_positive "min_speakers" parameters;
           mx ← given_positive "max_speakers" parameters;
           Ok ((if (mn : bool) then [("min_speakers", jget "min_speakers" parameters)] else [])
               ++ (if (mx : bool) then [("max_speakers", jget "max_speakers" parameters)] else [])));
  Ok (if truthy (jget "exclusive" parameters) then dset "exclusive" (JBool true) cfg else cfg).

(** [if parameters.get(k): cfg[k] = parameters[k]] *)
Definition copy_truthy (k : string) (parameters cfg : dict json) : dict json :=
  if truthy (jget k parameters) then dset k (jget k parameters) cfg else cfg.

Definition build_transcribe_config (parameters : dict json) : res pyexn (dict json) :=
  base ← match dget "transcribe_config" parameters with
         | Some (JObj d) =>
             Ok (copy_truthy "language" parameters (dmerge DEFAULT_TRANSCRIBE_CONFIG d))
         | Some _ => Raise TypeError
         | None =>
             Ok [("language", jget_or "language" (jget "language" DEFAULT_TRANSCRIBE_CONFIG) parameters);
                 ("beam_size", jget_or "beam_size" (jget "beam_size" DEFAULT_TRANSCRIBE_CONFIG) parameters);
                 ("vad_filter", jget_or "vad_filter" (jget "vad_filter" DEFAULT_TRANSCRIBE_CONFIG) parameters)]
         end;
  let cfg := copy_truthy "vocabulary" parameters
               (copy_truthy "prompt" parameters (copy_truthy "task" parameters base)) in
  let cfg := dset_opt "temperature" (dget "temperature" parameters) cfg in
  let cfg := if is_null (jget "chunking_strategy" parameters) then cfg
             else dset "chunking_strategy" (jget "chunking_strategy" parameters) cfg in
  Ok (if truthy (jget "include_transcription_logprobs" parameters)
      then dset "include_transcription_logprobs" (JBool true) cfg else cfg).

(** The stage to runtime-model map, with [loaded_model_id] as the default of
    the transcription stage. *)
Definition stage_models (loaded_model_id : option string) (ids : dict string) : dict string :=
  match loaded_model_id with
  | Some m => if dhas "transcribe" ids then ids else dset "transcribe" m ids
  | None => ids
  end.

(** [if stage in ids: config["loaded_model_id"] = ids[stage]] *)
Definition with_model (stage : string) (ids : dict string) (cfg : dict json) : dict json :=
  match dget stage ids with
  | Some m => dset "loaded_model_id" (JStr m) cfg
  | None => cfg
  end.

Definition build_prepare_config (speech_env : string) (per_channel : bool) : dict json :=
  (if _speech_regions_enabled speech_env then [("detect_speech_regions", JBool true)] else [])
  ++ (if per_channel then [("split_channels", JBool true)] else []).

(** ** Tasks *)

Definition pending_task (id job_id : UUID) (stage engine_id : string) (deps : list UUID)
    (bindings : list json) (config : dict json) (request_uri : option string) : Task := {|
  t_id := id; t_job_id := job_id; t_stage := stage; t_engine_id := engine_id;
  t_status := TPending; t_dependencies := deps; t_input_bindings := bindings;
  t_config := config; t_request_uri := request_uri; t_response_uri := None;
  t_retries := 0; t_max_retries := DEFAULT_TASK_MAX_RETRIES; t_required := true |}.

Section build.
Context (uuid4 : nat → UUID) (job_id : UUID) (engines : dict string)
  (models : dict string).

Definition prepare_task (audio_uri : string) (cfg : dict json) : Task :=
  pending_task (uuid4 0) job_id "prepare" (engine_for engines "prepare") [] [] cfg
    (Some audio_uri).

Definition transcribe_task (id : UUID) (stage : string) (channel : option N)
    (cfg : dict json) : Task :=
  pending_task id job_id stage (engine_for engines "transcribe") [uuid4 0]
    (_audio_input_binding channel) cfg None.

Definition align_task (id dep : UUID) (stage : string) (channel : option N)
    (cfg : dict json) : Task :=
  pending_task id job_id stage (engine_for engines "align") [dep]
    (_audio_input_binding channel) (with_model "align" models cfg) None.

Definition _create_diarize_task (id : UUID) (diarize_config : dict json)
    (dependencies : list UUID) : Task :=
  pending_task id job_id "diarize" (engine_for engines "diarize") dependencies
    (_audio_input_binding None) (with_model "diarize" models diarize_config) None.

(** The mono pipeline after prepare. *)
Definition mono_tasks (transcribe_config diarize_config : dict json)
    (add_align add_diarize : bool) : list Task :=
  [transcribe_task (uuid4 1) "transcribe" None transcribe_config]
  ++ (if add_align
      then [align_task (uuid4 2) (uuid4 1) "align" None [("word_timestamps", JBool true)]]
      else [])
  ++ (if add_diarize
      then [_create_diarize_task (uuid4 (if add_align then 3 else 2)) diarize_config [uuid4 0]]
      else []).

(** The loop of [_build_per_channel_dag_with_engines]; [u] counts the calls
    of [uuid4]. *)
Fixpoint channel_tasks (transcribe_config : dict json) (add_align : bool)
    (channels : list nat) (u : nat) : list Task :=
  match channels with
  | [] => []
  | c :: rest =>
      transcribe_task (uuid4 u) ("transcribe_ch" +:+ str_nat c) (Some (N.of_nat c))
        (dset "channel" (JInt (Z.of_nat c)) transcribe_config)
      :: (if add_align
          then align_task (uuid4 (S u)) (uuid4 u) ("align_ch" +:+ str_nat c) (Some (N.of_nat c))
                 [("word_timestamps", JBool true); ("channel", JInt (Z.of_nat c))]
               :: channel_tasks transcribe_config add_align rest (S (S u))
          else channel_tasks transcribe_config add_align rest (S u))
  end.

(** [range(num_channels)] *)
Definition channel_range (v : json) : res pyexn (list nat) :=
  match v with
  | JInt z => Ok (seq 0 (Z.to_nat z))
  | JBool b => Ok (seq 0 (if b then 1 else 0))
  | _ => Raise TypeError
  end.

Definition _build_per_channel_dag_with_engines (tasks : list Task)
    (transcribe_config : dict json) (add_align : bool) (num_channels : json)
    : res pyexn (list Task) :=
  channels ← channel_range num_channels;
  Ok (tasks ++ channel_tasks transcribe_config add_align channels 1).
End build.

Definition _build_dag_with_engines (speech_env : string) (uuid4 : nat → UUID) (job_id : UUID)
    (audio_uri : string) (parameters : dict json) (engines : dict string)
    (skip_alignment skip_diarization : bool) (loaded_model_id : option string)
    (stage_loaded_model_ids : dict string) : res pyexn (list Task) :=
  word_timestamps ← word_timestamps_param parameters;
  speaker_detection ← speaker_detection_param parameters;
  diarize_config ← build_diarize_config parameters;
  transcribe_config ← build_transcribe_config parameters;
  let models := stage_models loaded_model_id stage_loaded_model_ids in
  let transcribe_config := with_model "transcribe" models transcribe_config in
  let per_channel := jeq_str speaker_detection "per_channel" in
  let prepare := prepare_task uuid4 job_id engines audio_uri
                   (build_prepare_config speech_env per_channel) in
  let add_align := truthy word_timestamps && negb skip_alignment in
  if per_channel then
    _build_per_channel_dag_with_engines uuid4 job_id engines models [prepare] transcribe_config
      add_align (jget_or "num_channels" (JInt 2) parameters)
  else
    Ok (prepare :: mono_tasks uuid4 job_id engines models transcribe_config diarize_config
          add_align (jeq_str speaker_detection "diarize" && negb skip_diarization)).

(** ** [build_task_dag] *)

Definition set_config (cfg : dict json) (t : Task) : Task := {|
  t_id := t_id t; t_job_id := t_job_id t; t_stage := t_stage t;
  t_engine_id := t_engine_id t; t_status := t_status t;
  t_dependencies := t_dependencies t; t_input_bindings := t_input_bindings t;
  t_config := cfg; t_request_uri := t_request_uri t;
  t_response_uri := t_response_uri t; t_retries := t_retries t;
  t_max_retries := t_max_retries t; t_required := t_required t |}.

(** [task.config["_on_demand_wait"] = True] for the tasks of on-demand engines. *)
Definition mark_on_demand (on_demand_engine_ids : list string) (t : Task) : Task :=
  if mem_str (t_engine_id t) on_demand_engine_ids
  then set_config (dset "_on_demand_wait" (JBool true) (t_config t)) t else t.

Definition on_demand_ids (selections : dict EngineSelectionResult) : list string :=
  map es_engine_id (List.filter es_on_demand (dvals selections)).

Definition loaded_ids (selections : dict EngineSelectionResult) : dict string :=
  omap (λ '(s, r), (λ m, (s, m)) <$> es_loaded_model_id r) selections.

Inductive dag_exn : Type :=
  | DagSelection (e : sel_exn)
  | DagPython (e : pyexn).

Definition lift_res {E E' A} (f : E → E') (m : res E A) : res E' A :=
  match m with Ok a => Ok a | Raise e => Raise (f e) end.

Definition build_task_dag (now : timestamp) (reg : registry) (cat : EngineCatalog)
    (db : option (list ModelRow)) (speech_env : string) (uuid4 : nat → UUID)
    (job_id : UUID) (audio_uri : string) (parameters : dict json)
    : res dag_exn (list Task) :=
  selection ← lift_res DagSelection (select_pipeline_engines now reg cat db parameters);
  let selections := ps_stages selection in
  let models := loaded_ids selections in
  tasks ← lift_res DagPython
    (_build_dag_with_engines speech_env uuid4 job_id audio_uri
       (ps_effective_parameters selection)
       (prod_map id es_engine_id <$> selections)
       (negb (dhas "align" selections)) (negb (dhas "diarize" selections))
       (dget "transcribe" models) models);
  Ok (map (mark_on_demand (on_demand_ids selections)) tasks).

(** ** Specification

    [dag_ordered seen ts]: every dependency of a task of [ts] is the id of an
    earlier task, or in [seen]; so the list is a topological order. *)

Fixpoint dag_ordered (seen : list UUID) (ts : list Task) : Prop :=
  match ts with
  | [] => True
  | t :: ts => (∀ d, d ∈ t_dependencies t → d ∈ seen) ∧ dag_ordered (t_id t :: seen) ts
  end.

(** A task as the builder leaves it: waiting, not tried, required. *)
Definition fresh_task (job_id : UUID) (t : Task) : Prop :=
  t_job_id t = job_id ∧ t_status t = TPending ∧ t_retries t = 0 ∧
  t_max_retries t = DEFAULT_TASK_MAX_RETRIES ∧ t_required t = true.

(** A DAG the handlers can persist and run. *)
Record dag_wf (job_id : UUID) (ts : list Task) : Prop := {
  wf_ordered : dag_ordered [] ts;
  wf_ids : NoDup (t_id <$> ts);
  wf_stages : NoDup (t_stage <$> ts);
  wf_fresh : Forall (fresh_task job_id) ts;
  wf_root : ∃ root rest, ts = root :: rest ∧ t_stage root = "prepare" ∧
              t_dependencies root = [] ∧ Forall (λ t, t_dependencies t ≠ []) rest;
}.

(** The stages of a per-channel pipeline. *)
Definition channel_stages (add_align : bool) (channels : list nat) : list string :=
  c ← channels;
  ("transcribe_ch" +:+ str_nat c) :: (if add_align then ["align_ch" +:+ str_nat c] else []).

(** The stages a job gets, from its parameters and the skipped stages. *)
Definition stage_plan (parameters : dict json) (skip_alignment skip_diarization : bool)
    : res pyexn (list string) :=
  word_timestamps ← word_timestamps_param parameters;
  speaker_detection ← speaker_detection_param parameters;
  let add_align := truthy word_timestamps && negb skip_alignment in
  if jeq_str speaker_detection "per_channel" then
    channels ← channel_range (jget_or "num_channels" (JInt 2) parameters);
    Ok ("prepare" :: channel_stages add_align channels)
  else
    Ok (["prepare"; "transcribe"] ++ opt_stage add_align "align"
        ++ opt_stage (jeq_str speaker_detection "diarize" && negb skip_diarization) "diarize").

(** ** Lemmas *)

Lemma dag_ordered_mono seen seen' ts :
  seen ⊆ seen' → dag_ordered seen ts → dag_ordered seen' ts.
Proof.
  revert seen seen'. induction ts as [|t ts IH]; intros seen seen' Hs; cbn; [done|].
  intros [Hd Ht]. split; [set_solver|]. eapply IH; [|exact Ht]. set_solver.
Qed.

Section channel_lemmas.
Context (uuid4 : nat → UUID) (job_id : UUID) (engines models : dict string).
Context (cfg : dict json) (add_align : bool).
Let tasks := channel_tasks uuid4 job_id engines models cfg add_align.

Lemma channel_tasks_ids chs u :
  t_id <$> tasks chs u
  = uuid4 <$> seq u (length chs * (if add_align then 2 else 1)).
Proof.
  unfold tasks. revert u. induction chs as [|c chs IH]; intros u; cbn; [done|].
  destruct add_align; cbn; rewrite IH; repeat f_equal; lia.
Qed.

Lemma channel_tasks_stages chs u :
  t_stage <$> tasks chs u = channel_stages add_align chs.
Proof.
  unfold tasks. revert u. induction chs as [|c chs IH]; intros u; cbn; [done|].
  destruct add_align; cbn; by rewrite IH.
Qed.

Lemma channel_tasks_ordered chs u seen :
  uuid4 0 ∈ seen → dag_ordered seen (tasks chs u).
Proof.
  unfold tasks. revert u seen. induction chs as [|c chs IH]; intros u seen H0; cbn; [done|].
  destruct add_align; cbn; (split; [set_solver|]);
    [split; [set_solver|]|]; apply IH; set_solver.
Qed.

Lemma channel_tasks_Forall (P : Task → Prop) chs u :
  (∀ id c, P (transcribe_task uuid4 job_id engines id ("transcribe_ch" +:+ str_nat c)
                (Some (N.of_nat c)) (dset "channel" (JInt (Z.of_nat c)) cfg))) →
  (∀ id dep c, P (align_task job_id engines models id dep ("align_ch" +:+ str_nat c)
     (Some (N.of_nat c)) [("word_timestamps", JBool true); ("channel", JInt (Z.of_nat c))])) →
  Forall P (tasks chs u).
Proof.
  intros Ht Ha. unfold tasks. revert u.
  induction chs as [|c chs IH]; intros u; cbn; [constructor|].
  destruct add_align; repeat (constructor; try done); apply IH.
Qed.
End channel_lemmas.

Lemma elem_of_channel_stages a chs s :
  s ∈ channel_stages a chs ↔
  ∃ c, c ∈ chs ∧ (s = "transcribe_ch" +:+ str_nat c ∨ (a = true ∧ s = "align_ch" +:+ str_nat c)).
Proof.
  unfold channel_stages. rewrite list_elem_of_bind.
  split; intros (c & H1 & H2); exists c; destruct a; set_solver.
Qed.

Lemma NoDup_channel_stages a chs : NoDup chs → NoDup (channel_stages a chs).
Proof.
  induction 1 as [|c chs Hc Hchs IH]; [constructor|].
  assert (∀ s, s ∈ channel_stages a chs → s ≠ "transcribe_ch" +:+ str_nat c ∧
    s ≠ "align_ch" +:+ str_nat c) as Hfresh.
  { intros s (c' & Hc' & [->|[_ ->]])%elem_of_channel_stages;
      split; intros Heq; try discriminate; apply string_app_inj_l in Heq;
      apply (inj str_nat) in Heq; congruence. }
  change (channel_stages a (c :: chs)) with
    ((("transcribe_ch" +:+ str_nat c) :: (if a then ["align_ch" +:+ str_nat c] else []))
     ++ channel_stages a chs).
  destruct a; cbn; repeat (constructor; [|try done]);
    rewrite ?elem_of_cons; naive_solver.
Qed.

Lemma NoDup_fmap_inj {A B} (f : A → B) (l : list A) :
  (∀ x y, f x = f y → x = y) → NoDup l → NoDup (f <$> l).
Proof. intros Hf. apply NoDup_fmap_2. intros x y. apply Hf. Qed.

Lemma channel_range_NoDup v chs : channel_range v = Ok chs → NoDup chs.
Proof. destruct v; cbn; try done; intros [= <-]; apply NoDup_seq. Qed.

(** ** Properties *)

Section properties.
Context (speech_env : string) (uuid4 : nat → UUID) (job_id : UUID) (audio_uri : string).

(** When the builder succeeds it creates one task per planned stage, in order. *)
Lemma build_dag_stages parameters engines skip_a skip_d model ids tasks :
  _build_dag_with_engines speech_env uuid4 job_id audio_uri parameters engines
    skip_a skip_d model ids = Ok tasks →
  stage_plan parameters skip_a skip_d = Ok (t_stage <$> tasks).
Proof.
  unfold _build_dag_with_engines, stage_plan. intros H. inv_ok.
  repeat match goal with H : _ = Ok _ |- _ => rewrite H; clear H end.
  cbn [mbind res_mbind res_bind].
  destruct (jeq_str x0 "per_channel").
  - unfold _build_per_channel_dag_with_engines in *. inv_ok.
    repeat match goal with H : _ = Ok _ |- _ => rewrite H; clear H end.
    cbn. by rewrite channel_tasks_stages.
  - inv_ok. unfold mono_tasks. by destruct (_ && negb skip_a), (_ && negb skip_d).
Qed.

Lemma mono_wf engines models pcfg tcfg dcfg a d :
  (∀ x y, uuid4 x = uuid4 y → x = y) →
  dag_wf job_id (prepare_task uuid4 job_id engines audio_uri pcfg
    :: mono_tasks uuid4 job_id engines models tcfg dcfg a d).
Proof.
  intros Hinj. split.
  - unfold mono_tasks. destruct a, d; cbn; split_and!; set_solver.
  - assert (∃ n, t_id <$> (prepare_task uuid4 job_id engines audio_uri pcfg
      :: mono_tasks uuid4 job_id engines models tcfg dcfg a d) = uuid4 <$> seq 0 n) as [n ->].
    { unfold mono_tasks. destruct a, d; [exists 4|exists 3|exists 3|exists 2]; done. }
    apply NoDup_fmap_inj; [done|apply NoDup_seq].
  - unfold mono_tasks. destruct a, d; cbn; repeat constructor; set_solver.
  - unfold mono_tasks. destruct a, d; repeat constructor.
  - eexists _, _. split_and!; [done..|]. unfold mono_tasks. destruct a, d; repeat constructor; done.
Qed.

Lemma channel_wf engines models pcfg tcfg a chs :
  (∀ x y, uuid4 x = uuid4 y → x = y) → NoDup chs →
  dag_wf job_id ([prepare_task uuid4 job_id engines audio_uri pcfg]
    ++ channel_tasks uuid4 job_id engines models tcfg a chs 1).
Proof.
  intros Hinj Hchs. cbn [app]. split.
  - cbn. split; [set_solver|]. apply channel_tasks_ordered. set_solver.
  - rewrite fmap_cons, channel_tasks_ids. cbn [prepare_task pending_task t_id].
    change (uuid4 0 :: (uuid4 <$> seq 1 (length chs * (if a then 2 else 1))))
      with (uuid4 <$> seq 0 (S (length chs * (if a then 2 else 1)))).
    apply NoDup_fmap_inj; [done|apply NoDup_seq].
  - rewrite fmap_cons, channel_tasks_stages. constructor; [|by apply NoDup_channel_stages].
    cbn. intros (c & _ & [Heq|[_ Heq]])%elem_of_channel_stages; discriminate.
  - constructor; [done|]. by apply channel_tasks_Forall.
  - eexists _, _. split_and!; [done..|]. by apply channel_tasks_Forall.
Qed.

(** Every task of a DAG is fresh, whatever the ids. *)
Lemma build_dag_fresh parameters engines skip_a skip_d model ids tasks :
  _build_dag_with_engines speech_env uuid4 job_id audio_uri parameters engines
    skip_a skip_d model ids = Ok tasks →
  Forall (fresh_task job_id) tasks.
Proof.
  unfold _build_dag_with_engines. intros H. inv_ok. destruct (jeq_str _ "per_channel").
  - unfold _build_per_channel_dag_with_engines in *. inv_ok.
    constructor; [done|]. by apply channel_tasks_Forall.
  - inv_ok. unfold mono_tasks. destruct (_ && negb skip_a), (_ && negb skip_d); repeat constructor.
Qed.

(** C12: every DAG the builder makes is well formed: the list is a topological
    order, ids and stages are unique (the [uq_tasks_job_id_stage] constraint),
    tasks are pending with no retry used, and the prepare task is the only one
    without a dependency. *)
Theorem build_dag_wf parameters engines skip_a skip_d model ids tasks :
  (∀ x y, uuid4 x = uuid4 y → x = y) →
  _build_dag_with_engines speech_env uuid4 job_id audio_uri parameters engines
    skip_a skip_d model ids = Ok tasks →
  dag_wf job_id tasks.
Proof.
  intros Hinj. unfold _build_dag_with_engines. intros H. inv_ok.
  destruct (jeq_str _ "per_channel").
  - unfold _build_per_channel_dag_with_engines in *. inv_ok.
    apply channel_wf; eauto using channel_range_NoDup.
  - inv_ok. by apply mono_wf.
Qed.

(** Job parameters of the types the builder reads: hashable speaker mode and
    granularity, numeric speaker and channel counts, a dictionary of overrides. *)
Definition number_or_absent (k : string) (parameters : dict json) : bool :=
  match jget k parameters with
  | JNull | JBool _ | JInt _ | JFloat _ => true
  | _ => false
  end.

Definition hashable (v : json) : bool :=
  match v with JList _ | JObj _ => false | _ => true end.

Definition well_typed (parameters : dict json) : bool :=
  hashable (jget "timestamps_granularity" parameters)
  && hashable (jget_or "speaker_detection" (JStr "none") parameters)
  && number_or_absent "num_speakers" parameters
  && number_or_absent "min_speakers" parameters
  && number_or_absent "max_speakers" parameters
  && match dget "transcribe_config" parameters with None | Some (JObj _) => true | _ => false end
  && match jget_or "num_channels" (JInt 2) parameters with JInt _ | JBool _ => true | _ => false end.

Lemma jin_strs_ok v l : hashable v = true → ∃ b, jin_strs v l = Ok b.
Proof. destruct v; cbn; eauto; done. Qed.

Lemma given_positive_ok k parameters :
  number_or_absent k parameters = true → ∃ b, given_positive k parameters = Ok b.
Proof.
  unfold number_or_absent, given_positive. destruct (jget k parameters); cbn; eauto; done.
Qed.

Lemma word_timestamps_param_ok parameters :
  hashable (jget "timestamps_granularity" parameters) = true →
  ∃ v, word_timestamps_param parameters = Ok v.
Proof.
  unfold word_timestamps_param, jget. destruct (dget "word_timestamps" parameters); [eauto|].
  destruct (dget "timestamps_granularity" parameters) as [g|]; [|eauto].
  intros [b Hb]%(jin_strs_ok _ VALID_TIMESTAMPS_GRANULARITIES). cbn in Hb. rewrite Hb. eauto.
Qed.

Lemma build_diarize_config_ok parameters :
  number_or_absent "num_speakers" parameters = true →
  number_or_absent "min_speakers" parameters = true →
  number_or_absent "max_speakers" parameters = true →
  ∃ cfg, build_diarize_config parameters = Ok cfg.
Proof.
  intros [n Hn]%given_positive_ok [mn Hmn]%given_positive_ok [mx Hmx]%given_positive_ok.
  unfold build_diarize_config. rewrite Hn, Hmn, Hmx. destruct n; cbn; eauto.
Qed.

Lemma build_transcribe_config_ok parameters :
  match dget "transcribe_config" parameters with
  | None | Some (JObj _) => true | _ => false end = true →
  ∃ cfg, build_transcribe_config parameters = Ok cfg.
Proof.
  unfold build_transcribe_config. destruct (dget "transcribe_config" parameters) as [[]|];
    cbn; eauto; done.
Qed.

(** The builder is total on well-typed parameters: no job whose parameters
    have the declared types can fail in DAG construction. *)
Theorem build_dag_total parameters engines skip_a skip_d model ids :
  well_typed parameters = true →
  ∃ tasks, _build_dag_with_engines speech_env uuid4 job_id audio_uri parameters engines
    skip_a skip_d model ids = Ok tasks.
Proof.
  unfold well_typed. rewrite !andb_true_iff. intros ((((((Hg & Hs) & Hn) & Hmn) & Hmx) & Ht) & Hc).
  destruct (word_timestamps_param_ok _ Hg) as [w Hw].
  destruct (jin_strs_ok _ VALID_SPEAKER_DETECTION_MODES Hs) as [b Hb].
  destruct (build_diarize_config_ok _ Hn Hmn Hmx) as [dcfg Hd].
  destruct (build_transcribe_config_ok _ Ht) as [tcfg Htc].
  unfold _build_dag_with_engines, speaker_detection_param.
  rewrite Hw, Hb, Hd, Htc. cbn [mbind res_mbind res_bind].
  destruct (jeq_str _ "per_channel"); [|eauto].
  unfold _build_per_channel_dag_with_engines.
  destruct (jget_or "num_channels" (JInt 2) parameters); cbn; eauto; done.
Qed.

(** The channel suffix of a task, as its configuration records it. *)
Definition task_channel (t : Task) : option N :=
  match jget "channel" (t_config t) with JInt z => Some (Z.to_N z) | _ => None end.

Definition binding_ok (t : Task) : Prop :=
  ∃ ch, map validate_binding (t_input_bindings t) = [Some (audio_binding ch)] ∧
    (ch ≠ None → task_channel t = ch).

(** Every task but prepare carries exactly one input binding, it passes
    the validation [write_task_request] applies, and it asks for the prepared
    audio of the very channel the task's configuration names. *)
Theorem build_dag_bindings parameters engines skip_a skip_d model ids tasks :
  _build_dag_with_engines speech_env uuid4 job_id audio_uri parameters engines
    skip_a skip_d model ids = Ok tasks →
  ∃ root rest, tasks = root :: rest ∧ t_input_bindings root = [] ∧
    t_request_uri root = Some audio_uri ∧ Forall binding_ok rest.
Proof.
  assert (∀ ch, map validate_binding (_audio_input_binding ch) = [Some (audio_binding ch)]) as Hb.
  { intros ch. cbn -[validate_binding dump_binding]. by rewrite validate_dump_binding. }
  unfold _build_dag_with_engines. intros H. inv_ok. destruct (jeq_str _ "per_channel").
  - unfold _build_per_channel_dag_with_engines in *. inv_ok.
    eexists _, _. split_and!; [done..|].
    apply channel_tasks_Forall; intros; eexists (Some (N.of_nat c));
      (split; [apply Hb|]); intros _; unfold task_channel; cbn -[dget].
    + by rewrite jget_dset_eq, <-nat_N_Z, N2Z.id.
    + unfold with_model. destruct (dget "align" _);
        rewrite ?jget_dset_ne by done; cbn; by rewrite <-nat_N_Z, N2Z.id.
  - inv_ok. eexists _, _. split_and!; [done..|].
    assert (∀ t, t_input_bindings t = _audio_input_binding None → binding_ok t) as Hok.
    { intros t Ht. exists None. by rewrite Ht, Hb. }
    unfold mono_tasks.
    destruct (_ && negb skip_a), (_ && negb skip_d); cbn [app];
      repeat apply Forall_cons_2; try apply Forall_nil_2; by apply Hok.
Qed.

(** An unknown [timestamps_granularity] is treated in two ways.  The
    builder defaults it to ["word"], but the selector takes it as a request
    for no word timestamps, so no alignment stage is ever selected for it. *)
Theorem unknown_granularity_divergence parameters g tr :
  dget "word_timestamps" parameters = None →
  dget "timestamps_granularity" parameters = Some (JStr g) →
  g ∉ VALID_TIMESTAMPS_GRANULARITIES →
  word_timestamps_param parameters = Ok (JBool true) ∧
  _should_add_alignment parameters tr = false.
Proof.
  intros Hw Hg Hn. unfold word_timestamps_param, _should_add_alignment, wants_word_timestamps.
  rewrite Hw, Hg. cbn [jin_strs].
  destruct (mem_str g VALID_TIMESTAMPS_GRANULARITIES) eqn:Hm; [by apply mem_str_spec in Hm|].
  split; [done|]. cbn. destruct (String.eqb_spec g "word") as [->|]; [|done].
  by vm_compute in Hm.
Qed.
End properties.

(** ** The whole build *)

Lemma mark_on_demand_stage ids t :
  t_stage (mark_on_demand ids t) = t_stage t ∧ t_id (mark_on_demand ids t) = t_id t ∧
  t_dependencies (mark_on_demand ids t) = t_dependencies t ∧
  t_engine_id (mark_on_demand ids t) = t_engine_id t.
Proof. unfold mark_on_demand. by case_match. Qed.

Lemma build_task_dag_fresh now reg cat db speech_env uuid4 job_id audio_uri parameters tasks :
  build_task_dag now reg cat db speech_env uuid4 job_id audio_uri parameters = Ok tasks →
  Forall (fresh_task job_id) tasks.
Proof.
  unfold build_task_dag. intros H. inv_ok.
  match goal with H : lift_res _ ?m = Ok ?ts |- context [map _ ?ts] =>
    destruct m as [ts'|] eqn:Hb; [|done]; injection H as <- end.
  apply build_dag_fresh in Hb. change (map ?f ?l) with (f <$> l). apply Forall_fmap.
  eapply Forall_impl; [exact Hb|]. intros t Ht. cbn. unfold mark_on_demand. by case_match.
Qed.

(** The task list follows the selection.  Its stages are the plan of the
    effective parameters with alignment and diarization skipped exactly when
    they were not selected, and every task of an engine selected on demand
    carries the [_on_demand_wait] mark the scheduler reads. *)
Theorem build_task_dag_selection now reg cat db speech_env uuid4 job_id audio_uri
    parameters tasks :
  build_task_dag now reg cat db speech_env uuid4 job_id audio_uri parameters = Ok tasks →
  ∃ ps, select_pipeline_engines now reg cat db parameters = Ok ps ∧
    stage_plan (ps_effective_parameters ps) (negb (dhas "align" (ps_stages ps)))
      (negb (dhas "diarize" (ps_stages ps))) = Ok (t_stage <$> tasks) ∧
    Forall (λ t, t_engine_id t ∈ on_demand_ids (ps_stages ps) →
              jget "_on_demand_wait" (t_config t) = JBool true) tasks.
Proof.
  unfold build_task_dag. intros H. inv_ok. rename x into ps, x0 into ts.
  destruct (select_pipeline_engines _ _ _ _ _) as [ps'|] eqn:Hps; [|done].
  cbn [lift_res] in *. inv_ok.
  match goal with H : lift_res _ ?m = Ok _ |- _ => destruct m as [ts'|] eqn:Hb; [|done] end.
  cbn [lift_res] in *. inv_ok. exists ps. split_and!; [done| |].
  - apply build_dag_stages in Hb. rewrite Hb. f_equal.
    change (map ?f ?l) with (f <$> l). rewrite <-list_fmap_compose.
    apply list_fmap_ext. intros i t _. cbn. by destruct (mark_on_demand_stage
      (on_demand_ids (ps_stages ps)) t) as (-> & _).
  - apply Forall_forall. intros t Ht. change (map ?f ?l) with (f <$> l) in Ht.
    apply list_elem_of_fmap in Ht as (t' & -> & _). unfold mark_on_demand.
    destruct (mem_str (t_engine_id t') _) eqn:Hm; cbn -[dget].
    + intros _. by rewrite jget_dset_eq.
    + intros Hin. apply mem_str_spec in Hin. congruence.
Qed.

(** ** Concrete inputs *)

Module DagDemo.
Definition uuid4 (n : nat) : UUID := N.of_nat n.

Lemma uuid4_inj x y : uuid4 x = uuid4 y → x = y.
Proof. apply Nat2N.inj. Qed.

Definition per_channel : dict json :=
  [("speaker_detection", JStr "per_channel"); ("num_channels", JInt 2)].

Definition engines : dict string := [("transcribe", "nemo"); ("align", "phoneme-align")].

Definition tasks : list Task :=
  match _build_dag_with_engines "on" uuid4 7 "s3://b/a.wav" per_channel engines
    false false (Some "parakeet") [] with Ok ts => ts | Raise _ => [] end.

(** The pipeline of a stereo file, one channel per speaker. *)
Example per_channel_stages :
  t_stage <$> tasks =
  ["prepare"; "transcribe_ch0"; "align_ch0"; "transcribe_ch1"; "align_ch1"].
Proof. vm_compute. reflexivity. Qed.

Example per_channel_deps : t_dependencies <$> tasks = [[]; [0]; [1]; [0]; [3]]%N.
Proof. vm_compute. reflexivity. Qed.
End DagDemo.

Lemma build_dag_wf_witness :
  length DagDemo.tasks = 5 ∧ dag_wf 7 DagDemo.tasks.
Proof.
  split; [vm_compute; reflexivity|].
  apply (build_dag_wf "on" DagDemo.uuid4 7 "s3://b/a.wav" DagDemo.per_channel DagDemo.engines
    false false (Some "parakeet") []); [exact DagDemo.uuid4_inj|vm_compute; reflexivity].
Defined.

Lemma build_dag_total_witness :
  well_typed DagDemo.per_channel = true ∧
  ∃ tasks, _build_dag_with_engines "" DagDemo.uuid4 7 "s3://b/a.wav" DagDemo.per_channel []
    true false None [] = Ok tasks.
Proof. split; [reflexivity|]. apply build_dag_total. reflexivity. Defined.

Lemma build_dag_bindings_witness :
  ∃ root rest, DagDemo.tasks = root :: rest ∧ length rest = 4 ∧ Forall binding_ok rest.
Proof.
  edestruct (build_dag_bindings "on" DagDemo.uuid4 7 "s3://b/a.wav" DagDemo.per_channel
    DagDemo.engines false false (Some "parakeet") [] DagDemo.tasks)
    as (root & rest & Heq & _ & _ & Hok); [vm_compute; reflexivity|].
  exists root, rest. split_and!; [done| |done].
  assert (length DagDemo.tasks = 5) as Hlen by (vm_compute; reflexivity).
  rewrite Heq in Hlen. by injection Hlen.
Defined.

Lemma unknown_granularity_divergence_witness :
  ∃ p tr, dget "timestamps_granularity" p = Some (JStr "syllable") ∧
    word_timestamps_param p = Ok (JBool true) ∧ _should_add_alignment p tr = false.
Proof.
  exists [("timestamps_granularity", JStr "syllable")].
  destruct (select_auto Demo.now Demo.reg [] (Some Demo.models) "transcribe" Demo.croatian)
    as [tr|] eqn:Htr; [|by vm_compute in Htr].
  exists tr. split; [reflexivity|].
  apply (unknown_granularity_divergence _ "syllable" tr); [reflexivity..|].
  rewrite <-mem_str_spec. vm_compute. congruence.
Defined.

Lemma build_task_dag_selection_witness :
  ∃ tasks, build_task_dag Demo.now Demo.reg [] (Some Demo.models) "" DagDemo.uuid4 7
      "s3://b/a.wav" Demo.params = Ok tasks ∧
    t_stage <$> tasks = ["prepare"; "transcribe"; "diarize"] ∧
    ∃ ps, select_pipeline_engines Demo.now Demo.reg [] (Some Demo.models) Demo.params = Ok ps ∧
      dhas "align" (ps_stages ps) = false.
Proof.
  eexists. split; [vm_compute; reflexivity|]. split; [reflexivity|].
  edestruct (build_task_dag_selection Demo.now Demo.reg [] (Some Demo.models) ""
    DagDemo.uuid4 7 "s3://b/a.wav" Demo.params) as (ps & Hps & _); [vm_compute; reflexivity|].
  exists ps. split; [exact Hps|]. vm_compute in Hps. injection Hps as <-. reflexivity.
Defined.
