(* ===== verification/Store.v ===== *)
(** * The state the orchestrator works on

    The rows of [dalston/db/models.py] the handlers read and write, the Redis
    keys they use, and the monad in which the handlers are written: a state
    monad with exceptions whose external effects (a commit, a Redis command, a
    publication, an S3 write) are atomic and may each be the one before which
    the process dies.

    The database is a pair: the session's view and what has been committed.
    A handler that ends, normally or not, loses what it did not commit. *)

From S2P Require Import Prelude PyValue Models Catalog Registry Selector Dag.

(** ** Engine errors ([dalston/orchestrator/exceptions.py]) *)

Record EngineInfo := {
  ei_id : string;
  ei_supports_word_timestamps : bool;
  ei_status : string;
}.

Record ErrorDetails := {
  ed_required : dict json;
  ed_available_engines : list EngineInfo;
  ed_suggestion : option string;
}.

Inductive engine_error : Type :=
  | EngineUnavailableError (message engine_id stage : string) (details : option ErrorDetails)
  | EngineCapabilityError (message engine_id stage : string) (language : option string)
      (details : option ErrorDetails)
  | CatalogValidationError (message : string) (stage language : option string)
      (details : option ErrorDetails).

Definition opt_str (o : option string) : json :=
  match o with Some s => JStr s | None => JNull end.

(** [if x: result[k] = x] *)
Definition set_if (k : string) (o : option string) (d : dict json) : dict json :=
  match o with
  | Some s => if String.eqb s "" then d else dset k (JStr s) d
  | None => d
  end.

Definition info_to_dict (i : EngineInfo) : json :=
  JObj [("id", JStr (ei_id i)); ("word_timestamps", JBool (ei_supports_word_timestamps i));
        ("status", JStr (ei_status i))].

Definition details_to_dict (d : ErrorDetails) : json :=
  JObj [("required", JObj (ed_required d));
        ("available_engines", JList (map info_to_dict (ed_available_engines d)));
        ("suggestion", opt_str (ed_suggestion d))].

Definition set_details (o : option ErrorDetails) (d : dict json) : dict json :=
  match o with Some x => dset "details" (details_to_dict x) d | None => d end.

Definition to_dict (e : engine_error) : dict json :=
  match e with
  | EngineUnavailableError m e s det =>
      set_details det
        [("error", JStr "engine_unavailable"); ("message", JStr m);
         ("engine_id", JStr e); ("stage", JStr s)]
  | EngineCapabilityError m e s l det =>
      set_details det (set_if "language" l
        [("error", JStr "engine_capability_mismatch"); ("message", JStr m);
         ("engine_id", JStr e); ("stage", JStr s)])
  | CatalogValidationError m s l det =>
      set_details det (set_if "language" l (set_if "stage" s
        [("error", JStr "catalog_validation_error"); ("message", JStr m)]))
  end.

(** ** Exceptions and error texts *)

(** The refusals of [gateway/security/exceptions.py]. *)
Inductive security_error : Type :=
  | AuthorizationError (required_permission : string)
  | ResourceNotFoundError (resource_type : string) (resource_id : UUID).

(** [Crash] is the death of the process: no handler catches it. *)
Inductive exn : Type :=
  | Crash
  | PyExn (e : pyexn)
  | EngineExn (e : engine_error)
  | SelExn (e : sel_exn)
  | UqTasksJobIdStage
  | IntegrityError
  | SecurityExn (e : security_error).

(** The text of an error, as the value it is rendered from. *)
Inductive error_text : Type :=
  | EText (s : string)
  | EDumps (d : dict json)
  | ESel (e : sel_exn)
  | ETaskFailed (stage : string) (e : error_text)
  | EAssembly (e : exn).

(** [_serialize_engine_error]: every engine error has [to_dict]. *)
Definition _serialize_engine_error (e : engine_error) : error_text := EDumps (to_dict e).

(** [a or b] on optional texts; only [EText ""] is falsy. *)
Definition text_or (a : option error_text) (b : error_text) : error_text :=
  match a with
  | None => b
  | Some (EText "") => b
  | Some e => e
  end.

(** ** Rows *)

Record TaskModel := {
  tm_id : UUID;
  tm_job_id : UUID;
  tm_stage : string;
  tm_engine_id : string;
  tm_status : TaskStatus;
  tm_dependencies : list UUID;
  tm_config : dict json;
  tm_request_uri : option string;
  tm_response_uri : option string;
  tm_retries : nat;
  tm_max_retries : nat;
  tm_required : bool;
  tm_error : option error_text;
  tm_ready_at : option timestamp;
  tm_started_at : option timestamp;
  tm_completed_at : option timestamp;
}.

(** [Task.model_validate(row)]: attributes are copied, and the missing
    [input_bindings] takes its default, the empty list. *)
Definition task_of_model (m : TaskModel) : Task := {|
  t_id := tm_id m; t_job_id := tm_job_id m; t_stage := tm_stage m;
  t_engine_id := tm_engine_id m; t_status := tm_status m;
  t_dependencies := tm_dependencies m; t_input_bindings := [];
  t_config := tm_config m; t_request_uri := tm_request_uri m;
  t_response_uri := tm_response_uri m; t_retries := tm_retries m;
  t_max_retries := tm_max_retries m; t_required := tm_required m |}.

(** The row a new task is stored as; [key] names the configuration entry that
    keeps the input bindings, for which the table has no column. *)
Definition model_of_task (key : string) (t : Task) : TaskModel := {|
  tm_id := t_id t; tm_job_id := t_job_id t; tm_stage := t_stage t;
  tm_engine_id := t_engine_id t; tm_status := t_status t;
  tm_dependencies := t_dependencies t;
  tm_config := match t_input_bindings t with
               | [] => t_config t
               | bs => dset key (JList bs) (t_config t)
               end;
  tm_request_uri := t_request_uri t; tm_response_uri := t_response_uri t;
  tm_retries := t_retries t; tm_max_retries := t_max_retries t;
  tm_required := t_required t; tm_error := None; tm_ready_at := None;
  tm_started_at := None; tm_completed_at := None |}.

(** Column updates of a task row. *)
Definition tm_update (m : TaskModel) (st : TaskStatus) (err : option error_text)
    (retries : nat) (ready started completed : option timestamp) : TaskModel := {|
  tm_id := tm_id m; tm_job_id := tm_job_id m; tm_stage := tm_stage m;
  tm_engine_id := tm_engine_id m; tm_status := st;
  tm_dependencies := tm_dependencies m; tm_config := tm_config m;
  tm_request_uri := tm_request_uri m; tm_response_uri := tm_response_uri m;
  tm_retries := retries; tm_max_retries := tm_max_retries m;
  tm_required := tm_required m; tm_error := err; tm_ready_at := ready;
  tm_started_at := started; tm_completed_at := completed |}.

Definition tm_set_status (st : TaskStatus) (m : TaskModel) : TaskModel :=
  tm_update m st (tm_error m) (tm_retries m) (tm_ready_at m) (tm_started_at m)
    (tm_completed_at m).

Record JobResultStats := {
  st_language_code : json;
  st_word_count : Z;
  st_segment_count : Z;
  st_speaker_count : json;
  st_character_count : Z;
}.

Record JobModel := {
  j_id : UUID;
  j_tenant_id : UUID;
  j_status : JobStatus;
  j_audio_uri : string;
  j_audio_format : option string;
  j_audio_duration : option json;
  j_audio_sample_rate : option Z;
  j_audio_channels : option Z;
  j_audio_bit_depth : option Z;
  j_parameters : dict json;
  j_error : option error_text;
  j_started_at : option timestamp;
  j_completed_at : option timestamp;
  j_stats : option JobResultStats;
  j_pii_entities_detected : option Z;
  j_pii_redacted_audio_uri : option json;
  j_created_at : timestamp;
  j_created_by_key_id : option UUID;
  j_retention : Z;
  j_purge_after : option timestamp;
  j_purged_at : option timestamp;
}.

Definition j_set (j : JobModel) (st : JobStatus) (dur : option json) (err : option error_text)
    (started completed : option timestamp) (stats : option JobResultStats)
    (pii : option Z) (uri : option json) : JobModel := {|
  j_id := j_id j; j_tenant_id := j_tenant_id j; j_status := st;
  j_audio_uri := j_audio_uri j; j_audio_format := j_audio_format j;
  j_audio_duration := dur; j_audio_sample_rate := j_audio_sample_rate j;
  j_audio_channels := j_audio_channels j; j_audio_bit_depth := j_audio_bit_depth j;
  j_parameters := j_parameters j; j_error := err; j_started_at := started;
  j_completed_at := completed; j_stats := stats;
  j_pii_entities_detected := pii; j_pii_redacted_audio_uri := uri;
  j_created_at := j_created_at j; j_created_by_key_id := j_created_by_key_id j;
  j_retention := j_retention j; j_purge_after := j_purge_after j; j_purged_at := j_purged_at j |}.

Definition j_set_purge (after purged : option timestamp) (j : JobModel) : JobModel := {|
  j_id := j_id j; j_tenant_id := j_tenant_id j; j_status := j_status j;
  j_audio_uri := j_audio_uri j; j_audio_format := j_audio_format j;
  j_audio_duration := j_audio_duration j; j_audio_sample_rate := j_audio_sample_rate j;
  j_audio_channels := j_audio_channels j; j_audio_bit_depth := j_audio_bit_depth j;
  j_parameters := j_parameters j; j_error := j_error j; j_started_at := j_started_at j;
  j_completed_at := j_completed_at j; j_stats := j_stats j;
  j_pii_entities_detected := j_pii_entities_detected j;
  j_pii_redacted_audio_uri := j_pii_redacted_audio_uri j;
  j_created_at := j_created_at j; j_created_by_key_id := j_created_by_key_id j;
  j_retention := j_retention j; j_purge_after := after; j_purged_at := purged |}.

Definition j_update (j : JobModel) (st : JobStatus) (err : option error_text)
    (started completed : option timestamp) : JobModel :=
  j_set j st (j_audio_duration j) err started completed (j_stats j)
    (j_pii_entities_detected j) (j_pii_redacted_audio_uri j).

Definition j_set_duration (v : json) (j : JobModel) : JobModel :=
  j_set j (j_status j) (Some v) (j_error j) (j_started_at j) (j_completed_at j)
    (j_stats j) (j_pii_entities_detected j) (j_pii_redacted_audio_uri j).

Definition j_set_stats (s : JobResultStats) (j : JobModel) : JobModel :=
  j_set j (j_status j) (j_audio_duration j) (j_error j) (j_started_at j) (j_completed_at j)
    (Some s) (j_pii_entities_detected j) (j_pii_redacted_audio_uri j).

Definition j_set_pii (n : Z) (uri : option json) (j : JobModel) : JobModel :=
  j_set j (j_status j) (j_audio_duration j) (j_error j) (j_started_at j) (j_completed_at j)
    (j_stats j) (Some n)
    (match uri with Some u => Some u | None => j_pii_redacted_audio_uri j end).

(** Stored artifacts and their retention ([ArtifactObjectModel]). *)
Record ArtifactRow := {
  af_owner_job : UUID;
  af_ttl_seconds : option Z;
  af_available_at : option timestamp;
  af_purge_after : option timestamp;
}.

Record Db := {
  db_jobs : gmap UUID JobModel;
  db_tasks : gmap UUID TaskModel;
  db_artifacts : gmap UUID ArtifactRow;
}.

(** ** Redis

    A key holds a value with an optional expiry time. *)

Abbreviation keyspace K A := (gmap K (A * option timestamp)).

Definition alive (now : timestamp) (expiry : option timestamp) : bool :=
  match expiry with None => true | Some e => (now <? e)%Z end.

Definition rget {K A} `{Countable K} (now : timestamp) (m : keyspace K A) (k : K) : option A :=
  match m !! k with
  | Some (a, e) => if alive now e then Some a else None
  | None => None
  end.

Record StreamMessage := {
  sm_task_id : UUID;
  sm_job_id : UUID;
  sm_enqueued_at : timestamp;
  sm_timeout_at : timestamp;
}.

(** A consumer group on a stream whose messages are numbered from 0: the
    messages delivered so far are those below [g_next]; a delivered message
    that is not acknowledged is in the pending entries list with its last
    delivery; [g_deleted] are the messages deleted or trimmed. *)
Record PendingEntry := {
  pe_consumer : string;
  pe_delivered_at : timestamp;
  pe_deliveries : nat;
}.

Record StreamGroup := {
  g_next : nat;
  g_pel : gmap nat PendingEntry;
  g_deleted : gset nat;
}.

Definition empty_group : StreamGroup := {| g_next := 0; g_pel := ∅; g_deleted := ∅ |}.

(** An entry of the dead-letter stream of durable events. *)
Record DlqEntry := {
  dq_source_message_id : nat;
  dq_event_type : string;
  dq_failure_reason : string;
  dq_error : string;
  dq_delivery_count : nat;
  dq_consumer_id : string;
  dq_failed_at : timestamp;
  dq_payload : option (dict json);
  dq_raw_payload : option string;
  dq_raw_fields : dict string;
}.

(** A member of the request window: Lua's [tostring(now)] and the score. *)
Record window_entry := {
  we_member : Z;
  we_score : timestamp;
}.

Record Redis := {
  r_jobs : keyspace UUID Z;                       (* dalston:ratelimit:jobs:{tenant} *)
  r_decremented : keyspace UUID unit;             (* ...:jobs:decremented:{job} *)
  r_sessions : keyspace UUID Z;                   (* dalston:ratelimit:sessions:{tenant} *)
  r_requests : keyspace UUID (list window_entry); (* dalston:ratelimit:requests:{tenant} *)
  r_cancelled : keyspace UUID unit;               (* dalston:job:cancelled:{job} *)
  r_dedupe : keyspace (UUID * nat) unit;          (* dalston:task:retry-enqueue:{task}:{n} *)
  r_streams : gmap string (list StreamMessage);   (* dalston:stream:{queue} *)
  r_metadata : keyspace UUID (dict json);         (* dalston:task:{task} *)
  r_waiting : gset UUID;                          (* dalston:waiting_engine_tasks *)
  r_enrichments : keyspace UUID (dict string);    (* dalston:job:{job}:enrichments *)
  r_artifacts : gmap UUID (dict ArtifactReference); (* dalston:job:{job}:artifacts *)
  r_groups : gmap string StreamGroup;             (* group "engines" of dalston:stream:{queue} *)
  r_events : StreamGroup;                         (* group "orchestrators" of dalston:events:stream *)
  r_dlq : list DlqEntry;                          (* dalston:events:dlq *)
  r_locks : keyspace string string;               (* dalston:scanner:leader, dalston:reconciler:leader *)
}.

(** ** Published events *)

Inductive event : Type :=
  | JobCreated (job_id : UUID)
  | JobCompletedEvent (job_id : UUID)
  | JobFailedEvent (job_id : UUID) (error : error_text)
  | JobCancelRequested (job_id : UUID)
  | JobCancelledEvent (job_id : UUID)
  | TaskStarted (task_id : UUID)
  | TaskCompletedEvent (task_id : UUID)
  | TaskFailedEvent (task_id : UUID) (error : string)
  | TaskWaitTimeout (task_id : UUID) (error : string)
  | EngineNeeded (engine_id stage : string) (job_id task_id : UUID) (language : option json).

(** All of these types are in [DURABLE_EVENT_TYPES]. *)
Definition DURABLE_EVENT_TYPES : list string :=
  ["job.created"; "task.started"; "task.completed"; "task.failed"; "task.wait_timeout";
   "job.completed"; "job.failed"; "job.cancel_requested"; "job.cancelled"; "engine.needed"].

Definition event_type (e : event) : string :=
  match e with
  | JobCreated _ => "job.created"
  | JobCompletedEvent _ => "job.completed"
  | JobFailedEvent _ _ => "job.failed"
  | JobCancelRequested _ => "job.cancel_requested"
  | JobCancelledEvent _ => "job.cancelled"
  | TaskStarted _ => "task.started"
  | TaskCompletedEvent _ => "task.completed"
  | TaskFailedEvent _ _ => "task.failed"
  | TaskWaitTimeout _ _ => "task.wait_timeout"
  | EngineNeeded _ _ _ _ _ => "engine.needed"
  end.

(** ** S3 documents *)

(** [TaskRequestData], the request document of a task. *)
Record TaskRequest := {
  rq_payload : option (dict json);
  rq_previous_responses : dict json;
  rq_config : dict json;
  rq_request_bindings : list RequestBinding;
  rq_resolved_artifact_ids : dict string;
  rq_artifact_index : dict ArtifactReference;
}.

(** ** The world *)

Record world := {
  w_now : timestamp;
  w_budget : option nat;
  w_db : Db;
  w_disk : Db;
  w_redis : Redis;
  w_pubsub : list event;
  w_durable : list event;
  w_requests : gmap UUID TaskRequest;
  w_transcripts : gmap UUID (dict json);
  w_uuids : nat;
}.

Definition set_now (t : timestamp) (w : world) : world := {|
  w_now := t; w_budget := w_budget w; w_db := w_db w; w_disk := w_disk w;
  w_redis := w_redis w; w_pubsub := w_pubsub w; w_durable := w_durable w;
  w_requests := w_requests w; w_transcripts := w_transcripts w; w_uuids := w_uuids w |}.
Definition set_budget (b : option nat) (w : world) : world := {|
  w_now := w_now w; w_budget := b; w_db := w_db w; w_disk := w_disk w;
  w_redis := w_redis w; w_pubsub := w_pubsub w; w_durable := w_durable w;
  w_requests := w_requests w; w_transcripts := w_transcripts w; w_uuids := w_uuids w |}.
Definition set_db (d : Db) (w : world) : world := {|
  w_now := w_now w; w_budget := w_budget w; w_db := d; w_disk := w_disk w;
  w_redis := w_redis w; w_pubsub := w_pubsub w; w_durable := w_durable w;
  w_requests := w_requests w; w_transcripts := w_transcripts w; w_uuids := w_uuids w |}.
Definition set_disk (d : Db) (w : world) : world := {|
  w_now := w_now w; w_budget := w_budget w; w_db := w_db w; w_disk := d;
  w_redis := w_redis w; w_pubsub := w_pubsub w; w_durable := w_durable w;
  w_requests := w_requests w; w_transcripts := w_transcripts w; w_uuids := w_uuids w |}.
Definition set_redis (r : Redis) (w : world) : world := {|
  w_now := w_now w; w_budget := w_budget w; w_db := w_db w; w_disk := w_disk w;
  w_redis := r; w_pubsub := w_pubsub w; w_durable := w_durable w;
  w_requests := w_requests w; w_transcripts := w_transcripts w; w_uuids := w_uuids w |}.
Definition set_events (p d : list event) (w : world) : world := {|
  w_now := w_now w; w_budget := w_budget w; w_db := w_db w; w_disk := w_disk w;
  w_redis := w_redis w; w_pubsub := p; w_durable := d;
  w_requests := w_requests w; w_transcripts := w_transcripts w; w_uuids := w_uuids w |}.
Definition set_s3 (q : gmap UUID TaskRequest) (t : gmap UUID (dict json)) (w : world) : world := {|
  w_now := w_now w; w_budget := w_budget w; w_db := w_db w; w_disk := w_disk w;
  w_redis := w_redis w; w_pubsub := w_pubsub w; w_durable := w_durable w;
  w_requests := q; w_transcripts := t; w_uuids := w_uuids w |}.
Definition set_uuids (n : nat) (w : world) : world := {|
  w_now := w_now w; w_budget := w_budget w; w_db := w_db w; w_disk := w_disk w;
  w_redis := w_redis w; w_pubsub := w_pubsub w; w_durable := w_durable w;
  w_requests := w_requests w; w_transcripts := w_transcripts w; w_uuids := n |}.
