(* ===== verification/Pagination.v ===== *)
(** * Listings in pages

    The keyset pagination of the gateway: [JobsService.list_jobs]
    ([dalston/gateway/services/jobs.py]), [ConsoleService.list_jobs_admin]
    ([console.py]), [WebhookEndpointService.list_deliveries]
    ([webhook_endpoints.py]) and [list_sessions] ([realtime_sessions.py]) apply the
    same three steps to different rows: keep what lies past the cursor, order by
    time and id, fetch one row more than the limit.  They are one definition here,
    for any rows with a time and an id; a cursor is its own text. *)

From S2P Require Import Prelude PyValue Models Catalog Registry Selector Dag Store.

(** ** Rows in order *)

(** [ORDER BY created_at, id]; rows in a table have ids of their own. *)
Class Row (A : Type) := row_key : A → timestamp * UUID.

Definition key_lt (a b : timestamp * UUID) : bool :=
  (a.1 <? b.1)%Z || ((a.1 =? b.1)%Z && (a.2 <? b.2)%N).

Section pages.
Context {A : Type} `{Row A}.
Implicit Type rows : list A.

(** Whether a row comes before another; [asc]: the oldest first. *)
Definition comes_before (asc : bool) (x y : A) : bool :=
  if asc then key_lt (row_key x) (row_key y) else key_lt (row_key y) (row_key x).

(** The [WHERE] clause of a cursor. *)
Definition past_cursor (asc : bool) (cursor : option (timestamp * UUID)) (x : A) : bool :=
  match cursor with
  | None => true
  | Some c => if asc then key_lt c (row_key x) else key_lt (row_key x) c
  end.

(** One page, and whether there is more. *)
Definition page (asc : bool) (limit : nat) (cursor : option (timestamp * UUID)) rows : list A * bool :=
  let fetched :=
    take (limit + 1) (stable_sort (comes_before asc) (List.filter (past_cursor asc cursor) rows)) in
  let has_more := limit <? length fetched in
  (if has_more then take limit fetched else fetched, has_more).

(** The cursor of the next page, as the routes give it out. *)
Definition next_cursor (p : list A * bool) : option (timestamp * UUID) :=
  if p.2 then row_key <$> last p.1 else None.

(** A client that follows the cursors: each request finds the rows of its time. *)
Fixpoint walk (asc : bool) (limit : nat) (cursor : option (timestamp * UUID)) (tables : list (list A))
    : list (list A * bool) :=
  match tables with
  | [] => []
  | rows :: tables =>
      let p := page asc limit cursor rows in
      p :: match next_cursor p with
           | Some c => walk asc limit (Some c) tables
           | None => []
           end
  end.

Definition listed (pages : list (list A * bool)) : list A := concat pages.*1.

(** ** Keys *)

Lemma key_lt_irrefl k : key_lt k k = false.
Proof. unfold key_lt. rewrite Z.ltb_irrefl, N.ltb_irrefl. by rewrite andb_false_r. Qed.

Lemma key_lt_spec a b : key_lt a b = true ↔ (a.1 < b.1)%Z ∨ a.1 = b.1 ∧ (a.2 < b.2)%N.
Proof. unfold key_lt. rewrite orb_true_iff, andb_true_iff, Z.ltb_lt, Z.eqb_eq, N.ltb_lt. done. Qed.

Lemma key_lt_trans a b c : key_lt a b = true → key_lt b c = true → key_lt a c = true.
Proof. rewrite !key_lt_spec. intros [?|[? ?]] [?|[? ?]]; lia. Qed.

Lemma key_lt_total a b : key_lt a b = true ∨ a = b ∨ key_lt b a = true.
Proof.
  rewrite !key_lt_spec. destruct a as [t u], b as [t' u']; cbn.
  destruct (Z.lt_trichotomy t t') as [?|[->|?]]; [by left; left| |by right; right; left].
  destruct (N.lt_trichotomy u u') as [?|[->|?]]; [left; by right|by right; left|right; right; by right].
Qed.

Lemma key_lt_neg_trans a b c : key_lt a b = false → key_lt b c = false → key_lt a c = false.
Proof.
  rewrite <- !not_true_iff_false. intros Hab Hbc Hac.
  destruct (key_lt_total b c) as [?|[->|Hcb]]; [done|by apply Hab|].
  apply Hab. by eapply key_lt_trans.
Qed.

Lemma comes_before_irrefl asc x : comes_before asc x x = false.
Proof. unfold comes_before. destruct asc; apply key_lt_irrefl. Qed.

Lemma comes_before_trans asc x y z :
  comes_before asc x y = true → comes_before asc y z = true → comes_before asc x z = true.
Proof. unfold comes_before. destruct asc; eauto using key_lt_trans. Qed.

Lemma comes_before_neg_trans asc x y z :
  comes_before asc x y = false → comes_before asc y z = false → comes_before asc x z = false.
Proof. unfold comes_before. destruct asc; eauto using key_lt_neg_trans. Qed.

Lemma past_cursor_row asc x y : past_cursor asc (Some (row_key x)) y = comes_before asc x y.
Proof. done. Qed.

Lemma past_cursor_trans asc c x y :
  past_cursor asc c x = true → comes_before asc x y = true → past_cursor asc c y = true.
Proof. destruct c; [|done]. unfold past_cursor, comes_before. destruct asc; eauto using key_lt_trans. Qed.

(** ** Sorted rows *)

Definition in_order (asc : bool) (l : list A) : Prop := StronglySorted (λ x y, comes_before asc x y = true) l.

Lemma sort_in_order asc rows :
  NoDup (row_key <$> rows) → in_order asc (stable_sort (comes_before asc) rows).
Proof.
  intros Hnd.
  assert (sorted_by (comes_before asc) (stable_sort (comes_before asc) rows)) as Hs.
  { apply (stable_sort_sorted _ (λ _, True)); eauto using comes_before_irrefl, comes_before_trans,
      comes_before_neg_trans, Forall_True. }
  rewrite <- (stable_sort_perm (comes_before asc) rows) in Hnd.
  unfold in_order, sorted_by in *. induction Hs as [|x l Hs IH Hx]; [constructor|].
  cbn in Hnd. apply NoDup_cons in Hnd as [Hk Hnd]. constructor; [by apply IH|].
  apply Forall_forall. intros y Hy. eapply Forall_forall in Hx; [|exact Hy].
  assert (row_key x ≠ row_key y) as Hne by (intros Heq; apply Hk; rewrite Heq; by apply list_elem_of_fmap_2).
  unfold comes_before in *.
  destruct (key_lt_total (row_key x) (row_key y)) as [?|[?|?]]; [|done|]; destruct asc; congruence.
Qed.

Lemma in_order_app asc l1 l2 :
  in_order asc (l1 ++ l2) ↔
  in_order asc l1 ∧ in_order asc l2 ∧ ∀ x y, x ∈ l1 → y ∈ l2 → comes_before asc x y = true.
Proof.
  unfold in_order. induction l1 as [|z l1 IH]; cbn.
  - split; [intros Hl; split_and!; [constructor|done|by intros x y ?%elem_of_nil]|by intros (_ & ? & _)].
  - split.
    + intros [Hl Hz]%StronglySorted_inv. apply IH in Hl as (Hl1 & Hl2 & Hl). apply Forall_app in Hz as [Hz1 Hz2].
      split_and!; [by constructor|done|]. intros x y [->|Hx]%elem_of_cons Hy; [|by apply Hl].
      by eapply Forall_forall in Hz2.
    + intros ([Hl1 Hz]%StronglySorted_inv & Hl2 & Hl). constructor.
      * apply IH. split_and!; [done..|]. intros x y Hx. apply Hl. by right.
      * apply Forall_app. split; [done|]. apply Forall_forall. intros y. apply Hl. by left.
Qed.

Lemma in_order_NoDup asc l : in_order asc l → NoDup l.
Proof.
  induction 1 as [|x l _ IH Hx]; constructor; [|done]. intros Hin.
  eapply Forall_forall in Hx; [|exact Hin]. by rewrite comes_before_irrefl in Hx.
Qed.

Lemma in_order_unique asc l1 l2 :
  in_order asc l1 → in_order asc l2 → (∀ x, x ∈ l1 ↔ x ∈ l2) → l1 = l2.
Proof.
  intros H1 H2 Heq. eapply (StronglySorted_unique_strong _); [|exact H1|exact H2|].
  - intros x y _ _ Hxy Hyx. pose proof (comes_before_trans _ _ _ _ Hxy Hyx) as Hxx.
    by rewrite comes_before_irrefl in Hxx.
  - apply NoDup_Permutation; [by eapply in_order_NoDup..|done].
Qed.

(** ** One page *)

(** What is left to list past a cursor. *)
Definition remaining (asc : bool) (cursor : option (timestamp * UUID)) rows : list A :=
  stable_sort (comes_before asc) (List.filter (past_cursor asc cursor) rows).

Lemma elem_of_remaining asc c rows x :
  x ∈ remaining asc c rows ↔ x ∈ rows ∧ past_cursor asc c x = true.
Proof. unfold remaining. by rewrite elem_of_stable_sort, elem_of_filter_b. Qed.

Lemma remaining_in_order asc c rows : NoDup (row_key <$> rows) → in_order asc (remaining asc c rows).
Proof.
  intros Hnd. apply sort_in_order. eapply sublist_NoDup; [exact Hnd|]. apply fmap_sublist.
  clear. induction rows as [|x rows IH]; cbn; [constructor|]. destruct (past_cursor _ _ _); by constructor.
Qed.

Lemma page_last asc limit c rows :
  length (remaining asc c rows) <= limit → page asc limit c rows = (remaining asc c rows, false).
Proof.
  intros Hl. unfold page. fold (remaining asc c rows). rewrite take_ge by lia.
  by destruct (Nat.ltb_spec limit (length (remaining asc c rows))); [lia|].
Qed.

Lemma page_more asc limit c rows :
  NoDup (row_key <$> rows) → 1 <= limit → limit < length (remaining asc c rows) →
  ∃ l r, page asc limit c rows = (l ++ [r], true) ∧ length (l ++ [r]) = limit ∧
    remaining asc c rows = (l ++ [r]) ++ remaining asc (Some (row_key r)) rows.
Proof.
  intros Hnd Hlim Hl. pose proof (remaining_in_order asc c rows Hnd) as Hs.
  assert (page asc limit c rows = (take limit (remaining asc c rows), true)) as ->.
  { unfold page. fold (remaining asc c rows). rewrite length_take.
    destruct (Nat.ltb_spec limit ((limit + 1) `min` length (remaining asc c rows))); [|lia].
    by rewrite take_take, Nat.min_l by lia. }
  destruct (exists_last (l := take limit (remaining asc c rows))) as (l & r & Hlr).
  { intros Hn. apply (f_equal length) in Hn. rewrite length_take in Hn. cbn in Hn. lia. }
  pose proof (take_drop limit (remaining asc c rows)) as Htd. rewrite Hlr in *.
  exists l, r. split_and!; [done|rewrite <- Hlr, length_take; lia|].
  rewrite <- Htd at 1. f_equal. rewrite <- Htd in Hs.
  apply in_order_app in Hs as (Hs1 & Hs2 & Hs). apply (in_order_unique asc); [done|by apply remaining_in_order|].
  apply in_order_app in Hs1 as (_ & _ & Hs1).
  intros x. rewrite elem_of_remaining, past_cursor_row. split.
  - intros Hx. split; [|apply Hs; [apply elem_of_app; right; by left|done]].
    apply (elem_of_remaining asc c). rewrite <- Htd. apply elem_of_app. by right.
  - intros [Hx Hrx].
    assert (x ∈ remaining asc c rows) as Hin.
    { apply elem_of_remaining. split; [done|]. eapply past_cursor_trans; [|exact Hrx].
      apply (elem_of_remaining asc c rows r). rewrite <- Htd. apply elem_of_app. left. apply elem_of_app. right. by left. }
    rewrite <- Htd in Hin. apply elem_of_app in Hin as [[Hin|Hin]%elem_of_app|Hin]; [| |done].
    + assert (comes_before asc x r = true) as Hxr by (apply Hs1; [done|by left]).
      pose proof (comes_before_trans _ _ _ _ Hxr Hrx) as Hxx. by rewrite comes_before_irrefl in Hxx.
    + apply list_elem_of_singleton in Hin as ->. by rewrite comes_before_irrefl in Hrx.
Qed.

(** ** Following the cursors *)

Definition finished (pages : list (list A * bool)) : Prop := ∃ l, last pages = Some (l, false).

Lemma walk_cons asc limit c rows tables :
  NoDup (row_key <$> rows) → 1 <= limit →
  (walk asc limit c (rows :: tables) = [(remaining asc c rows, false)] ∧
   length (remaining asc c rows) <= limit) ∨
  ∃ l r, walk asc limit c (rows :: tables) =
      (l ++ [r], true) :: walk asc limit (Some (row_key r)) tables ∧
    length (l ++ [r]) = limit ∧ limit < length (remaining asc c rows) ∧
    remaining asc c rows = (l ++ [r]) ++ remaining asc (Some (row_key r)) rows.
Proof.
  intros Hnd Hlim. destruct (decide (length (remaining asc c rows) <= limit)) as [Hl|Hl].
  - left. cbn [walk]. by rewrite page_last.
  - right. destruct (page_more asc limit c rows Hnd Hlim) as (l & r & Hp & Hlen & Hrem); [lia|].
    exists l, r. split_and!; [|done|lia|done]. cbn [walk]. rewrite Hp. unfold next_cursor. cbn. by rewrite last_snoc.
Qed.

Lemma walk_in_order asc limit c tables :
  1 <= limit → Forall (λ rows, NoDup (row_key <$> rows)) tables →
  in_order asc (listed (walk asc limit c tables)) ∧
  Forall (λ x, past_cursor asc c x = true) (listed (walk asc limit c tables)).
Proof.
  intros Hlim Hnd. revert c. induction Hnd as [|rows tables Hrows _ IH]; intros c; [by repeat constructor|].
  assert (Forall (λ x, past_cursor asc c x = true) (remaining asc c rows)) as Hpast.
  { apply Forall_forall. by intros x [_ ?]%elem_of_remaining. }
  pose proof (remaining_in_order asc c rows Hrows) as Hord.
  destruct (walk_cons asc limit c rows tables Hrows Hlim) as [[-> _]|(l & r & -> & _ & _ & Hrem)].
  - unfold listed. cbn. by rewrite app_nil_r.
  - destruct (IH (Some (row_key r))) as [IHo IHp]. unfold listed in *. cbn [fmap list_fmap fst concat].
    rewrite Hrem in Hord, Hpast. apply in_order_app in Hord as (Hlr & _ & _).
    apply Forall_app in Hpast as [Hpl _].
    assert (past_cursor asc c r = true) as Hr.
    { eapply Forall_forall in Hpl; [done|]. apply elem_of_app. right. by left. }
    split.
    + apply in_order_app. split_and!; [done..|]. intros x y Hx Hy. eapply Forall_forall in IHp; [|exact Hy].
      apply in_order_app in Hlr as (_ & _ & Hlr). apply elem_of_app in Hx as [Hx| ->%list_elem_of_singleton].
      * eapply comes_before_trans; [apply Hlr; [done|by left]|done].
      * done.
    + apply Forall_app. split; [done|]. eapply Forall_impl; [exact IHp|].
      intros x Hx. by eapply past_cursor_trans.
Qed.

Lemma walk_from asc limit c tables i l more x :
  1 <= limit → Forall (λ rows, NoDup (row_key <$> rows)) tables →
  walk asc limit c tables !! i = Some (l, more) → length l <= limit ∧ (x ∈ l → ∃ rows, tables !! i = Some rows ∧ x ∈ rows).
Proof.
  intros Hlim Hnd. revert c i. induction Hnd as [|rows tables Hrows _ IH]; intros c i; [done|].
  destruct (walk_cons asc limit c rows tables Hrows Hlim) as [[-> Hlen]|(l' & r & -> & Hlen & _ & Hrem)];
    destruct i as [|i]; cbn; try done.
  - intros [= <- <-]. split; [done|]. intros [Hx _]%elem_of_remaining. by exists rows.
  - intros [= <- <-]. split; [lia|]. intros Hx. exists rows. split; [done|].
    apply (elem_of_remaining asc c). rewrite Hrem. apply elem_of_app. by left.
  - apply IH.
Qed.

Lemma walk_complete asc limit c tables x :
  1 <= limit → Forall (λ rows, NoDup (row_key <$> rows)) tables →
  finished (walk asc limit c tables) → past_cursor asc c x = true →
  (∀ rows, rows ∈ tables → x ∈ rows) → x ∈ listed (walk asc limit c tables).
Proof.
  intros Hlim Hnd. revert c. induction Hnd as [|rows tables Hrows _ IH]; intros c [l0 Hf] Hpast Hin; [done|].
  assert (x ∈ remaining asc c rows) as Hx by (apply elem_of_remaining; split; [apply Hin; by left|done]).
  destruct (walk_cons asc limit c rows tables Hrows Hlim) as [[Hw _]|(l & r & Hw & _ & _ & Hrem)];
    rewrite Hw in Hf |- *; unfold listed in *; cbn [fmap list_fmap fst concat].
  - by rewrite app_nil_r.
  - rewrite Hrem in Hx. apply elem_of_app in Hx as [Hx|[_ Hx]%elem_of_remaining]; apply elem_of_app; [by left|right].
    apply IH; [|done|intros rows' ?; apply Hin; by right].
    exists l0. by destruct (walk asc limit (Some (row_key r)) tables).
Qed.

Lemma walk_unchanged asc limit c rows n :
  1 <= limit → NoDup (row_key <$> rows) → length (remaining asc c rows) <= n * limit → n ≠ 0 →
  finished (walk asc limit c (replicate n rows)) ∧
  listed (walk asc limit c (replicate n rows)) = remaining asc c rows.
Proof.
  intros Hlim Hnd. revert c. induction n as [|n IH]; intros c Hlen Hn; [done|]. cbn [replicate].
  destruct (walk_cons asc limit c rows (replicate n rows) Hnd Hlim) as [[-> _]|(l & r & -> & Hl & Hgt & Hrem)].
  - split; [by eexists|]. unfold listed. cbn. apply app_nil_r.
  - pose proof (f_equal length Hrem) as Hlen'. rewrite length_app in Hlen'.
    assert (length (remaining asc (Some (row_key r)) rows) <= n * limit) as Hlen'' by lia.
    destruct n as [|n].
    { lia. }
    destruct (IH (Some (row_key r)) Hlen'' ltac:(done)) as [[l0 Hf] Hlist]. split.
    + exists l0. by destruct (walk asc limit (Some (row_key r)) (replicate (S n) rows)).
    + rewrite Hrem, <- Hlist. done.
Qed.

(** What the client of a listing sees.  The first two hold whatever the table becomes between
    its requests. *)
Record walk_spec (asc : bool) (limit : nat) (tables : list (list A)) (pages : list (list A * bool)) : Prop := {
  ws_order : in_order asc (listed pages);
  ws_from : ∀ i l more x, pages !! i = Some (l, more) →
    length l <= limit ∧ (x ∈ l → ∃ rows, tables !! i = Some rows ∧ x ∈ rows);
  ws_complete : finished pages → ∀ x, (∀ rows, rows ∈ tables → x ∈ rows) → x ∈ listed pages;
  ws_unchanged : ∀ n rows, tables = replicate n rows → n ≠ 0 → length rows <= n * limit →
    finished pages ∧ listed pages = stable_sort (comes_before asc) rows;
}.

Lemma walk_meets_spec asc limit tables :
  1 <= limit → Forall (λ rows, NoDup (row_key <$> rows)) tables →
  walk_spec asc limit tables (walk asc limit None tables).
Proof.
  intros Hlim Hnd. split.
  - by apply walk_in_order.
  - intros i l more x. by apply walk_from.
  - intros Hf x. by apply walk_complete.
  - intros n rows -> Hn Hlen.
    assert (remaining asc None rows = stable_sort (comes_before asc) rows) as Hrem.
    { unfold remaining. f_equal. by apply List.filter_true. }
    assert (NoDup (row_key <$> rows)) as Hrows.
    { destruct n; [done|]. by apply Forall_cons in Hnd as [? _]. }
    destruct (walk_unchanged asc limit None rows n) as [? ?]; [done..| |done|by rewrite <- Hrem].
    by rewrite Hrem, (Permutation_length (stable_sort_perm _ _)).
Qed.
End pages.

(** The pages that a client of any listing gets, from databases as they are at each request. *)
Fixpoint follow {D A} `{Row A} (request : option (timestamp * UUID) → D → list A * bool)
    (cursor : option (timestamp * UUID)) (dbs : list D) : list (list A * bool) :=
  match dbs with
  | [] => []
  | db :: dbs =>
      let p := request cursor db in
      p :: match next_cursor p with
           | Some c => follow request (Some c) dbs
           | None => []
           end
  end.

Lemma follow_walk {D A} `{Row A} (request : option (timestamp * UUID) → D → list A * bool)
    (rows : D → list A) asc limit cursor dbs :
  (∀ c db, request c db = page asc limit c (rows db)) →
  follow request cursor dbs = walk asc limit cursor (map rows dbs).
Proof.
  intros Hr. revert cursor. induction dbs as [|db dbs IH]; intros cursor; [done|].
  cbn [follow walk map]. rewrite Hr. by destruct (next_cursor _); [rewrite IH|].
Qed.

(** ** Jobs *)

(** The filter for the key of the caller, whose id owns rows. *)
Definition owned (created_by_key_id : option UUID) (include_unowned : bool) (owner : option UUID) : bool :=
  match created_by_key_id with
  | None => true
  | Some k => bool_decide (owner = Some k) || (include_unowned && bool_decide (owner = None))
  end.

#[export] Instance JobModel_row : Row JobModel := λ j, (j_created_at j, j_id j).

Definition job_matches (tenant_id : UUID) (status : option JobStatus) (created_by_key_id : option UUID)
    (include_unowned : bool) (since : option timestamp) (j : JobModel) : bool :=
  N.eqb (j_tenant_id j) tenant_id &&
  match status with Some s => bool_decide (j_status j = s) | None => true end &&
  match since with Some t => (t <=? j_created_at j)%Z | None => true end &&
  owned created_by_key_id include_unowned (j_created_by_key_id j).

Definition all_jobs (db : Db) : list JobModel := map snd (map_to_list (db_jobs db)).

Definition list_jobs (tenant_id : UUID) (limit : nat) (status : option JobStatus)
    (created_by_key_id : option UUID) (include_unowned : bool) (since : option timestamp)
    (cursor : option (timestamp * UUID)) (db : Db) : list JobModel * bool :=
  page false limit cursor
    (List.filter (job_matches tenant_id status created_by_key_id include_unowned since) (all_jobs db)).

(** The rows of the console's listing, and its next cursor. *)
Definition list_jobs_admin (limit : nat) (status : option JobStatus) (asc : bool)
    (cursor : option (timestamp * UUID)) (db : Db)
    : list JobModel * option (timestamp * UUID) * bool :=
  let p := page asc limit cursor
             (List.filter (λ j, match status with Some s => bool_decide (j_status j = s) | None => true end)
                (all_jobs db)) in
  (p.1, next_cursor p, p.2).

(** Rows are keyed by their ids. *)
Definition keyed (db : Db) : Prop := ∀ k j, db_jobs db !! k = Some j → j_id j = k.

Lemma NoDup_filter_keys {A} `{Row A} (f : A → bool) l :
  NoDup (row_key <$> l) → NoDup (row_key <$> List.filter f l).
Proof.
  intros Hnd. eapply sublist_NoDup; [exact Hnd|]. apply fmap_sublist.
  clear. induction l as [|x l IH]; cbn; [constructor|]. destruct (f x); by constructor.
Qed.

Lemma NoDup_map_rows {A} `{Row A} (m : gmap UUID A) :
  (∀ k x, m !! k = Some x → (row_key x).2 = k) → NoDup (row_key <$> map snd (map_to_list m)).
Proof.
  intros Hk. apply (NoDup_fmap_1 snd). rewrite <- list_fmap_compose.
  assert ((snd ∘ row_key) <$> map snd (map_to_list m) = (map_to_list m).*1) as ->; [|apply NoDup_fst_map_to_list].
  change (map snd (map_to_list m)) with ((map_to_list m).*2). rewrite <- list_fmap_compose.
  apply list_fmap_ext. intros i [k x] Hi. cbn. apply list_elem_of_lookup_2, elem_of_map_to_list in Hi. by apply Hk.
Qed.


(** ** Three jobs, of which one is deleted between the pages *)

Module PageDemo.

Definition job (id : UUID) (t : timestamp) : JobModel := {|
  j_id := id; j_tenant_id := 1; j_status := JCompleted; j_audio_uri := "s3://b/a.wav";
  j_audio_format := None; j_audio_duration := None; j_audio_sample_rate := None;
  j_audio_channels := None; j_audio_bit_depth := None; j_parameters := [];
  j_error := None; j_started_at := None; j_completed_at := None; j_stats := None;
  j_pii_entities_detected := None; j_pii_redacted_audio_uri := None;
  j_created_at := t; j_created_by_key_id := None;
  j_retention := 30; j_purge_after := None; j_purged_at := None |}.

Definition jobs (l : list (UUID * timestamp)) : Db := {|
  db_jobs := list_to_map (map (λ kt, (kt.1, job kt.1 kt.2)) l); db_tasks := ∅; db_artifacts := ∅ |}.

Definition requests : list Db :=
  [jobs [(1, 10%Z); (2, 20%Z); (3, 20%Z)]; jobs [(1, 10%Z); (2, 20%Z); (4, 30%Z)]]%N.


Example pages_listed :
  map (λ p, (map j_id p.1, p.2)) (follow (list_jobs 1 2 None None true None) None requests) =
  [([3; 2]%N, true); ([1]%N, false)].
Proof. vm_compute. reflexivity. Qed.

End PageDemo.
