(* ===== verification/Webhooks.v ===== *)
(** * Webhooks

    Models [dalston/orchestrator/delivery.py], [WebhookService.deliver] and
    [build_payload] of [dalston/gateway/services/webhook.py],
    [_handle_job_webhook] of [dalston/orchestrator/distributed_main.py] and the
    queries of [dalston/gateway/services/webhook_endpoints.py] it makes.  The
    network is an argument: what the checks of a URL say, and what each request
    is answered with. *)

From S2P Require Import Prelude PyValue Models Catalog Registry Selector Dag Store.

(** ** Rows *)

Inductive DeliveryStatus : Type := DPending | DSuccess | DFailed.

#[export] Instance DeliveryStatus_eq_dec : EqDecision DeliveryStatus.
Proof. solve_decision. Defined.

Record WebhookDelivery := {
  wd_id : UUID;
  wd_endpoint_id : option UUID;
  wd_job_id : option UUID;
  wd_event_type : string;
  wd_payload : dict json;
  wd_url_override : option string;
  wd_status : DeliveryStatus;
  wd_attempts : Z;
  wd_last_attempt_at : option timestamp;
  wd_last_status_code : option Z;
  wd_last_error : option string;
  wd_next_retry_at : option timestamp;
  wd_created_at : timestamp;
}.

Record WebhookEndpoint := {
  we_id : UUID;
  we_tenant_id : UUID;
  we_url : string;
  we_description : option string;
  we_signing_secret : string;
  we_is_active : bool;
  we_disabled_reason : option string;
  we_consecutive_failures : Z;
  we_last_success_at : option timestamp;
  we_events : list string;
  we_created_by_key_id : option UUID;
  we_created_at : timestamp;
}.

(** What came of a delivery that a worker took up: a call of
    [WebhookService.deliver], or no URL to call. *)
Inductive webhook_event : Type :=
  | Called (id : UUID) (url : string) (success : bool)
  | NoTarget (id : UUID) (error : string).

(** The two tables, in the order of insertion, and what came of deliveries. *)
Record WebhookDB := {
  wb_deliveries : list WebhookDelivery;
  wb_endpoints : list WebhookEndpoint;
  wb_log : list webhook_event;
}.

Definition set_deliveries (l : list WebhookDelivery) (db : WebhookDB) : WebhookDB :=
  {| wb_deliveries := l; wb_endpoints := wb_endpoints db; wb_log := wb_log db |}.
Definition set_endpoints (l : list WebhookEndpoint) (db : WebhookDB) : WebhookDB :=
  {| wb_deliveries := wb_deliveries db; wb_endpoints := l; wb_log := wb_log db |}.
Definition log_event (e : webhook_event) (db : WebhookDB) : WebhookDB := {|
  wb_deliveries := wb_deliveries db; wb_endpoints := wb_endpoints db; wb_log := wb_log db ++ [e] |}.

Definition get_delivery (id : UUID) (db : WebhookDB) : option WebhookDelivery :=
  find_first (λ d, bool_decide (wd_id d = id)) (wb_deliveries db).
Definition endpoint_row (id : UUID) (db : WebhookDB) : option WebhookEndpoint :=
  find_first (λ e, bool_decide (we_id e = id)) (wb_endpoints db).

Definition update_delivery (id : UUID) (f : WebhookDelivery → WebhookDelivery) (db : WebhookDB)
    : WebhookDB :=
  set_deliveries (map (λ r, if bool_decide (wd_id r = id) then f r else r) (wb_deliveries db)) db.

(** [update(WebhookEndpointModel).where(id == ...).values(...)] *)
Definition update_endpoint (id : UUID) (f : WebhookEndpoint → WebhookEndpoint) (db : WebhookDB)
    : WebhookDB :=
  set_endpoints (map (λ e, if bool_decide (we_id e = id) then f e else e) (wb_endpoints db)) db.

Definition we_set (active : bool) (reason : option string) (failures : Z)
    (last_success : option timestamp) (e : WebhookEndpoint) : WebhookEndpoint := {|
  we_id := we_id e; we_tenant_id := we_tenant_id e; we_url := we_url e;
  we_description := we_description e; we_signing_secret := we_signing_secret e;
  we_is_active := active; we_disabled_reason := reason;
  we_consecutive_failures := failures; we_last_success_at := last_success;
  we_events := we_events e; we_created_by_key_id := we_created_by_key_id e;
  we_created_at := we_created_at e |}.

(** A commit writes the columns that were given a value other than the one read,
    whatever the row holds by then. *)
Definition written {A} `{EqDecision A} (read assigned current : A) : A :=
  if bool_decide (read = assigned) then current else assigned.

(** Of a delivery [d] as it was read, to its row [r]. *)
Definition wd_finish (st : DeliveryStatus) (error : option string) (d r : WebhookDelivery)
    : WebhookDelivery := {|
  wd_id := wd_id r; wd_endpoint_id := wd_endpoint_id r; wd_job_id := wd_job_id r;
  wd_event_type := wd_event_type r; wd_payload := wd_payload r;
  wd_url_override := wd_url_override r; wd_status := written (wd_status d) st (wd_status r);
  wd_attempts := wd_attempts r; wd_last_attempt_at := wd_last_attempt_at r;
  wd_last_status_code := wd_last_status_code r;
  wd_last_error := written (wd_last_error d) error (wd_last_error r);
  wd_next_retry_at := wd_next_retry_at r; wd_created_at := wd_created_at r |}.

(** An attempt, with the status and the time of the next one. *)
Definition wd_attempt (now : timestamp) (code : option Z) (error : option string)
    (st : DeliveryStatus) (next : option timestamp) (d r : WebhookDelivery) : WebhookDelivery := {|
  wd_id := wd_id r; wd_endpoint_id := wd_endpoint_id r; wd_job_id := wd_job_id r;
  wd_event_type := wd_event_type r; wd_payload := wd_payload r;
  wd_url_override := wd_url_override r; wd_status := written (wd_status d) st (wd_status r);
  wd_attempts := wd_attempts d + 1;
  wd_last_attempt_at := written (wd_last_attempt_at d) (Some now) (wd_last_attempt_at r);
  wd_last_status_code := written (wd_last_status_code d) code (wd_last_status_code r);
  wd_last_error := written (wd_last_error d) error (wd_last_error r);
  wd_next_retry_at := written (wd_next_retry_at d) next (wd_next_retry_at r);
  wd_created_at := wd_created_at r |}.

(** ** [WebhookService] *)

Definition build_payload (event : string) (job_id : UUID) (status : string)
    (duration : json) (error : option string) (request_id : option string)
    (metadata : option (dict json)) (event_id : string) (now : timestamp) : dict json :=
  let data :=
    [("transcription_id", JStr (uuid_str job_id)); ("status", JStr status)] ++
    (if is_null duration then [] else [("duration", duration)]) ++
    match error with Some e => [("error", JStr e)] | None => [] end ++
    match request_id with Some r => [("request_id", JStr r)] | None => [] end ++
    match metadata with Some m => [("metadata", JObj m)] | None => [] end in
  [("object", JStr "event"); ("id", JStr event_id); ("type", JStr event);
   ("created_at", JInt (now / seconds 1)); ("data", JObj data)].

(** The end of one request. *)
Inductive post_result : Type :=
  | Responded (status_code : Z)
  | TimedOut
  | RequestFailed (error : string).

(** [deliver]: the requests from the [attempt]-th on; [n] more may follow it. *)
Fixpoint deliver_from (n : nat) (responses : nat → post_result) (attempt : nat)
    (last_status_code : option Z) : bool * option Z * option string :=
  let again code error :=
    match n with
    | O => (false, code, Some error)
    | S n => deliver_from n responses (S attempt) code
    end in
  match responses attempt with
  | Responded code =>
      if (code <? 300)%Z then (true, Some code, None)
      else again (Some code) ("HTTP " +:+ str_Z code)
  | TimedOut => again last_status_code "timeout"
  | RequestFailed e => again last_status_code e
  end.

Definition deliver (url_error : string → option string) (responses : nat → post_result)
    (url : string) (max_retries : nat) : bool * option Z * option string :=
  match url_error url with
  | Some e => (false, None, Some e)
  | None => deliver_from max_retries responses 0 None
  end.

(** ** [DeliveryWorker] *)

Definition RETRY_DELAYS : list Z := [0; 30; 120; 600; 3600]%Z.
Definition MAX_ATTEMPTS : Z := 5.
Definition MAX_CONCURRENT : nat := 10.
Definition AUTO_DISABLE_FAILURE_THRESHOLD : Z := 10.
Definition AUTO_DISABLE_SUCCESS_WINDOW_DAYS : Z := 7.

Definition retry_delay (attempts : Z) : Z :=
  nth (Z.to_nat (Z.min attempts (Z.of_nat (length RETRY_DELAYS) - 1))) RETRY_DELAYS 0%Z.

Definition due (now : timestamp) (d : WebhookDelivery) : bool :=
  match wd_status d, wd_next_retry_at d with
  | DPending, Some t => (t <=? now)%Z
  | _, _ => false
  end.

Definition sooner (d1 d2 : WebhookDelivery) : bool :=
  match wd_next_retry_at d1, wd_next_retry_at d2 with
  | Some t1, Some t2 => (t1 <? t2)%Z
  | Some _, None => true
  | _, _ => false
  end.

(** What a poll takes up; [locked]: the rows that other workers hold. *)
Definition pending_deliveries (now : timestamp) (locked : list UUID) (db : WebhookDB)
    : list WebhookDelivery :=
  take MAX_CONCURRENT (stable_sort sooner
    (List.filter (λ d, due now d && negb (bool_decide (wd_id d ∈ locked))) (wb_deliveries db))).

Definition _check_auto_disable (now : timestamp) (endpoint_id : UUID) (db : WebhookDB) : WebhookDB :=
  match endpoint_row endpoint_id db with
  | None => db
  | Some endpoint =>
      if (we_consecutive_failures endpoint <? AUTO_DISABLE_FAILURE_THRESHOLD)%Z then db
      else
        let window_start := (now - seconds (AUTO_DISABLE_SUCCESS_WINDOW_DAYS * 86400))%Z in
        let recent := match we_last_success_at endpoint with
                      | Some t => (window_start <? t)%Z
                      | None => false
                      end in
        if recent then db
        else update_endpoint endpoint_id (λ e, we_set false (Some "auto_disabled")
               (we_consecutive_failures e) (we_last_success_at e) e) db
  end.

(** The target of a delivery: its URL, and the endpoint if it has one. *)
Definition target (d : WebhookDelivery) (db : WebhookDB) : string + (string * option WebhookEndpoint) :=
  match wd_endpoint_id d with
  | Some id =>
      match endpoint_row id db with
      | None => inl "Endpoint not found"
      | Some endpoint => inr (we_url endpoint, Some endpoint)
      end
  | None =>
      match wd_url_override d with
      | Some (String _ _ as url) => inr (url, None)
      | _ => inl "No URL configured"
      end
  end.

(** The update of the rows once the request is over. *)
Definition record_attempt (now : timestamp) (d : WebhookDelivery) (endpoint : option WebhookEndpoint)
    (result : bool * option Z * option string) (db : WebhookDB) : WebhookDB :=
  let '(success, code, error) := result in
  if (success : bool) then
    let db := update_delivery (wd_id d) (wd_attempt now code error DSuccess None d) db in
    match endpoint with
    | Some e => update_endpoint (we_id e)
        (λ e, we_set (we_is_active e) (we_disabled_reason e) 0 (Some now) e) db
    | None => db
    end
  else if (MAX_ATTEMPTS <=? wd_attempts d + 1)%Z then
    let db := update_delivery (wd_id d) (wd_attempt now code error DFailed None d) db in
    match endpoint with
    | Some e =>
        _check_auto_disable now (we_id e)
          (update_endpoint (we_id e) (λ e, we_set (we_is_active e) (we_disabled_reason e)
             (we_consecutive_failures e + 1) (we_last_success_at e) e) db)
    | None => db
    end
  else
    let delay := retry_delay (wd_attempts d + 1) in
    update_delivery (wd_id d)
      (wd_attempt now code error (wd_status d) (Some (now + seconds delay)%Z) d) db.

(** [committed]: whether the process gets to the commit. *)
Definition _do_delivery (url_error : string → option string) (responses : nat → post_result)
    (now : timestamp) (committed : bool) (d : WebhookDelivery) (db : WebhookDB) : WebhookDB :=
  match target d db with
  | inl error =>
      if committed then
        update_delivery (wd_id d) (wd_finish DFailed (Some error) d) (log_event (NoTarget (wd_id d) error) db)
      else db
  | inr (url, endpoint) =>
      let result := deliver url_error responses url 0 in
      let db := log_event (Called (wd_id d) url result.1.1) db in
      if committed then record_attempt now d endpoint result db else db
  end.

(** ** Creation of deliveries *)

(** The unique constraints, in which nulls are distinct. *)
Definition same_delivery (job_id : option UUID) (event_type : string) (endpoint_id : option UUID)
    (url : option string) (d : WebhookDelivery) : bool :=
  bool_decide (is_Some job_id ∧ wd_job_id d = job_id ∧ wd_event_type d = event_type ∧
    ((is_Some endpoint_id ∧ wd_endpoint_id d = endpoint_id) ∨
     (is_Some url ∧ wd_url_override d = url))).

(** The query for the row that was there first. *)
Definition existing_delivery (job_id : option UUID) (event_type : string) (endpoint_id : option UUID)
    (url : option string) (d : WebhookDelivery) : bool :=
  bool_decide (is_Some job_id ∧ wd_job_id d = job_id ∧ wd_event_type d = event_type) &&
  match endpoint_id with
  | Some _ => bool_decide (wd_endpoint_id d = endpoint_id)
  | None => bool_decide (wd_endpoint_id d = None ∧ is_Some url ∧ wd_url_override d = url)
  end.

(** [None]: the [RuntimeError] of a conflict without a row, or several rows.  The clock
    of the database, which gives [created_at], is that of the process. *)
Definition create_webhook_delivery (new_id : UUID) (now : timestamp) (endpoint_id job_id : option UUID)
    (event_type : string) (payload : dict json) (url_override : option string) (db : WebhookDB)
    : WebhookDB * option WebhookDelivery :=
  let values := {|
    wd_id := new_id; wd_endpoint_id := endpoint_id; wd_job_id := job_id;
    wd_event_type := event_type; wd_payload := payload; wd_url_override := url_override;
    wd_status := DPending; wd_attempts := 0; wd_last_attempt_at := None;
    wd_last_status_code := None; wd_last_error := None; wd_next_retry_at := Some now;
    wd_created_at := now |} in
  if existsb (same_delivery job_id event_type endpoint_id url_override) (wb_deliveries db) then
    match List.filter (existing_delivery job_id event_type endpoint_id url_override)
            (wb_deliveries db) with
    | [d] => (db, Some d)
    | _ => (db, None)
    end
  else (set_deliveries (wb_deliveries db ++ [values]) db, Some values).

Definition get_endpoint (endpoint_id tenant_id : UUID) (db : WebhookDB) : option WebhookEndpoint :=
  find_first (λ e, bool_decide (we_id e = endpoint_id ∧ we_tenant_id e = tenant_id)) (wb_endpoints db).

Definition get_endpoints_for_event (tenant_id : UUID) (event_type : string) (db : WebhookDB)
    : list WebhookEndpoint :=
  List.filter (λ e, bool_decide (we_tenant_id e = tenant_id) && we_is_active e &&
                    (mem_str event_type (we_events e) || mem_str "*" (we_events e)))
    (wb_endpoints db).

(** The endpoints a job's event goes to. *)
Definition webhook_endpoints (parse_uuid : string → option UUID) (job : JobModel)
    (event_type : string) (db : WebhookDB) : list WebhookEndpoint :=
  let chosen :=
    match dget "elevenlabs_webhook_id" (j_parameters job) with
    | Some (JStr raw) =>
        match parse_uuid raw with
        | Some id => match get_endpoint id (j_tenant_id job) db with Some e => [e] | None => [] end
        | None => []
        end
    | _ => []
    end in
  match chosen with
  | [] => get_endpoints_for_event (j_tenant_id job) event_type db
  | _ => chosen
  end.

(** The deliveries are created in one transaction; [None] is an exception, which
    leaves none of them. *)
Fixpoint create_deliveries (new_id : nat → UUID) (now : timestamp) (job_id : UUID)
    (event_type : string) (payload : dict json) (endpoints : list WebhookEndpoint) (db : WebhookDB)
    : option WebhookDB :=
  match endpoints with
  | [] => Some db
  | e :: endpoints =>
      match create_webhook_delivery (new_id 0) now (Some (we_id e)) (Some job_id) event_type
              payload None db with
      | (db, Some _) => create_deliveries (λ n, new_id (S n)) now job_id event_type payload endpoints db
      | (_, None) => None
      end
  end.

(** [duration]: of the transcript, if it can be read and has one. *)
Definition _handle_job_webhook (parse_uuid : string → option UUID) (new_id : nat → UUID)
    (event_id : string) (now : timestamp) (job : option JobModel) (status : string)
    (error : option string) (duration : json) (db : WebhookDB) : option WebhookDB :=
  match job with
  | None => Some db
  | Some job =>
      let event_type := "transcription." +:+ status in
      match dget "elevenlabs_webhook_enabled" (j_parameters job) with
      | Some (JBool false) => Some db
      | _ =>
          let request_id := match dget "request_id" (j_parameters job) with
                            | Some (JStr r) => Some r | _ => None end in
          let metadata := match dget "elevenlabs_webhook_metadata" (j_parameters job) with
                          | Some (JObj m) => Some m | _ => None end in
          let duration := if String.eqb status "completed" then duration else JNull in
          let payload := build_payload event_type (j_id job) status duration error request_id
                           metadata event_id now in
          create_deliveries new_id now (j_id job) event_type payload
            (webhook_endpoints parse_uuid job event_type db) db
      end
  end.
