(* ===== verification/Endpoints.v ===== *)
(** * Webhook endpoints

    Models the rest of [WebhookEndpointService]
    ([dalston/gateway/services/webhook_endpoints.py]): registration, change and removal of
    endpoints, the listing of their deliveries and the retry of a failed one by hand. *)

From S2P Require Import Prelude PyValue Models Catalog Registry Selector Dag Store Pagination Webhooks.

Definition ALLOWED_EVENTS : list string :=
  ["transcription.completed"; "transcription.failed"; "transcription.cancelled"; "*"].

(** Without the texts. *)
Inductive endpoint_error : Type :=
  | InvalidUrl (error : string)
  | NoEvents
  | DuplicateEvents
  | InvalidEvents
  | HasDeliveries
  | NotFailed (current : DeliveryStatus).

(** The events that came before. *)
Fixpoint duplicate_events (seen events : list string) : list string :=
  match events with
  | [] => []
  | e :: events =>
      if mem_str e seen then e :: duplicate_events seen events else duplicate_events (e :: seen) events
  end.

Definition _validate_events (events : list string) : res endpoint_error () :=
  match events with
  | [] => Raise NoEvents
  | _ =>
      match duplicate_events [] events with
      | _ :: _ => Raise DuplicateEvents
      | [] =>
          match List.filter (λ e, negb (mem_str e ALLOWED_EVENTS)) events with
          | _ :: _ => Raise InvalidEvents
          | [] => Ok ()
          end
      end
  end.

Definition validate_url (url_error : string → option string) (url : string) : res endpoint_error () :=
  match url_error url with Some e => Raise (InvalidUrl e) | None => Ok () end.

(** [secret]: what [token_urlsafe] gives. *)
Definition create_endpoint (url_error : string → option string) (new_id : UUID) (secret : string)
    (now : timestamp) (tenant_id : UUID) (url : string) (events : list string)
    (description : option string) (created_by : option UUID) (db : WebhookDB)
    : res endpoint_error (WebhookDB * WebhookEndpoint) :=
  res_bind (validate_url url_error url) (λ _,
  res_bind (_validate_events events) (λ _,
  let e := {|
    we_id := new_id; we_tenant_id := tenant_id; we_url := url; we_description := description;
    we_signing_secret := "whsec_" +:+ secret; we_is_active := true; we_disabled_reason := None;
    we_consecutive_failures := 0; we_last_success_at := None; we_events := events;
    we_created_by_key_id := created_by; we_created_at := now |} in
  Ok (set_endpoints (wb_endpoints db ++ [e]) db, e))).

(** The columns of an endpoint that its owner changes. *)
Definition we_change (url : option string) (events : option (list string)) (description : option string)
    (is_active : option bool) (e : WebhookEndpoint) : WebhookEndpoint := {|
  we_id := we_id e; we_tenant_id := we_tenant_id e; we_url := default (we_url e) url;
  we_description := match description with Some d => Some d | None => we_description e end;
  we_signing_secret := we_signing_secret e; we_is_active := default (we_is_active e) is_active;
  we_disabled_reason := if default false is_active then None else we_disabled_reason e;
  we_consecutive_failures := if default false is_active then 0 else we_consecutive_failures e;
  we_last_success_at := we_last_success_at e; we_events := default (we_events e) events;
  we_created_by_key_id := we_created_by_key_id e; we_created_at := we_created_at e |}.

Definition res_opt {E A} (f : A → res E ()) (o : option A) : res E () :=
  match o with Some x => f x | None => Ok () end.

Definition change_endpoint (url_error : string → option string) (endpoint_id tenant_id : UUID)
    (url : option string) (events : option (list string)) (description : option string)
    (is_active : option bool) (db : WebhookDB) : res endpoint_error (WebhookDB * option WebhookEndpoint) :=
  match get_endpoint endpoint_id tenant_id db with
  | None => Ok (db, None)
  | Some e =>
      res_bind (res_opt (validate_url url_error) url) (λ _,
      res_bind (res_opt _validate_events events) (λ _,
      let change := we_change url events description is_active in
      Ok (update_endpoint endpoint_id change db, Some (change e))))
  end.

Definition delete_endpoint (endpoint_id tenant_id : UUID) (db : WebhookDB)
    : res endpoint_error (WebhookDB * bool) :=
  match get_endpoint endpoint_id tenant_id db with
  | None => Ok (db, false)
  | Some _ =>
      if existsb (λ d, bool_decide (wd_endpoint_id d = Some endpoint_id)) (wb_deliveries db)
      then Raise HasDeliveries
      else Ok (set_endpoints (List.filter (λ e, negb (bool_decide (we_id e = endpoint_id)))
                                (wb_endpoints db)) db, true)
  end.

Definition we_rotate (secret : string) (e : WebhookEndpoint) : WebhookEndpoint := {|
  we_id := we_id e; we_tenant_id := we_tenant_id e; we_url := we_url e;
  we_description := we_description e; we_signing_secret := "whsec_" +:+ secret;
  we_is_active := we_is_active e; we_disabled_reason := we_disabled_reason e;
  we_consecutive_failures := we_consecutive_failures e; we_last_success_at := we_last_success_at e;
  we_events := we_events e; we_created_by_key_id := we_created_by_key_id e;
  we_created_at := we_created_at e |}.

Definition rotate_secret (secret : string) (endpoint_id tenant_id : UUID) (db : WebhookDB)
    : WebhookDB * option WebhookEndpoint :=
  match get_endpoint endpoint_id tenant_id db with
  | None => (db, None)
  | Some e => (update_endpoint endpoint_id (we_rotate secret) db, Some (we_rotate secret e))
  end.

(** Endpoints in the order of the listing: the newest first. *)
Definition newer_endpoint (e1 e2 : WebhookEndpoint) : bool := (we_created_at e2 <? we_created_at e1)%Z.

Definition list_endpoints (tenant_id : UUID) (is_active : option bool) (created_by_key_id : option UUID)
    (include_unowned : bool) (db : WebhookDB) : list WebhookEndpoint :=
  stable_sort newer_endpoint
    (List.filter (λ e, bool_decide (we_tenant_id e = tenant_id) &&
        match is_active with Some b => Bool.eqb (we_is_active e) b | None => true end &&
        owned created_by_key_id include_unowned (we_created_by_key_id e))
      (wb_endpoints db)).

(** ** Deliveries of an endpoint *)

#[export] Instance WebhookDelivery_row : Row WebhookDelivery := λ d, (wd_created_at d, wd_id d).

Definition list_deliveries (endpoint_id tenant_id : UUID) (status : option DeliveryStatus) (limit : nat)
    (cursor : option (timestamp * UUID)) (asc : bool) (db : WebhookDB) : list WebhookDelivery * bool :=
  match get_endpoint endpoint_id tenant_id db with
  | None => ([], false)
  | Some _ =>
      page asc limit cursor
        (List.filter (λ d, bool_decide (wd_endpoint_id d = Some endpoint_id) &&
             match status with Some s => bool_decide (wd_status d = s) | None => true end)
          (wb_deliveries db))
  end.

Definition wd_retry (now : timestamp) (d : WebhookDelivery) : WebhookDelivery := {|
  wd_id := wd_id d; wd_endpoint_id := wd_endpoint_id d; wd_job_id := wd_job_id d;
  wd_event_type := wd_event_type d; wd_payload := wd_payload d;
  wd_url_override := wd_url_override d; wd_status := DPending; wd_attempts := wd_attempts d;
  wd_last_attempt_at := wd_last_attempt_at d; wd_last_status_code := wd_last_status_code d;
  wd_last_error := wd_last_error d; wd_next_retry_at := Some now;
  wd_created_at := wd_created_at d |}.

Definition retry_delivery (now : timestamp) (endpoint_id delivery_id tenant_id : UUID) (db : WebhookDB)
    : res endpoint_error (WebhookDB * option WebhookDelivery) :=
  match get_endpoint endpoint_id tenant_id db with
  | None => Ok (db, None)
  | Some _ =>
      match find_first (λ d, bool_decide (wd_id d = delivery_id ∧ wd_endpoint_id d = Some endpoint_id))
              (wb_deliveries db) with
      | None => Ok (db, None)
      | Some d =>
          match wd_status d with
          | DFailed => Ok (update_delivery delivery_id (wd_retry now) db, Some (wd_retry now d))
          | s => Raise (NotFailed s)
          end
      end
  end.

(** ** What a tenant sees *)

(** No operation reaches the endpoint of another tenant. *)
Lemma get_endpoint_tenant endpoint_id tenant_id db e :
  get_endpoint endpoint_id tenant_id db = Some e →
  e ∈ wb_endpoints db ∧ we_id e = endpoint_id ∧ we_tenant_id e = tenant_id.
Proof. intros [? ?%bool_decide_eq_true]%find_first_Some. naive_solver. Qed.

(** Events that are accepted are known, each given once. *)
Lemma duplicate_events_nil seen events :
  duplicate_events seen events = [] → NoDup events ∧ ∀ e, e ∈ events → e ∉ seen.
Proof.
  revert seen. induction events as [|e events IH]; intros seen; cbn.
  { intros _. split; [constructor|]. by intros e ?%elem_of_nil. }
  destruct (mem_str e seen) eqn:He; [done|]. intros [Hnd Hout]%IH. split.
  - constructor; [|done]. intros Hin. by apply (Hout e Hin); left.
  - intros x [->|Hx]%elem_of_cons; [by rewrite <- mem_str_spec, He|].
    intros Hs. apply (Hout x Hx). by right.
Qed.

Lemma validate_events_ok events :
  _validate_events events = Ok () → events ≠ [] ∧ NoDup events ∧ Forall (.∈ ALLOWED_EVENTS) events.
Proof.
  unfold _validate_events. destruct events as [|x l] eqn:Hev; [done|]. rewrite <- Hev.
  destruct (duplicate_events [] events) eqn:Hd; [|done].
  destruct (List.filter _ events) eqn:Hf; [|done]. intros _.
  split_and!; [by rewrite Hev|by apply (duplicate_events_nil [])|].
  apply Forall_forall. intros e He. apply mem_str_spec. destruct (mem_str e ALLOWED_EVENTS) eqn:Hm; [done|].
  assert (e ∈ List.filter (λ e, negb (mem_str e ALLOWED_EVENTS)) events) as Hin
    by (apply elem_of_filter_b; by rewrite Hm).
  rewrite Hf in Hin. by apply elem_of_nil in Hin.
Qed.

(** The listing of deliveries is one of those of [Pagination.v]. *)
Definition delivery_rows (endpoint_id tenant_id : UUID) (status : option DeliveryStatus) (db : WebhookDB)
    : list WebhookDelivery :=
  match get_endpoint endpoint_id tenant_id db with
  | None => []
  | Some _ =>
      List.filter (λ d, bool_decide (wd_endpoint_id d = Some endpoint_id) &&
           match status with Some s => bool_decide (wd_status d = s) | None => true end)
        (wb_deliveries db)
  end.

Lemma deliveries_listed endpoint_id tenant_id status limit asc dbs :
  1 <= limit → Forall (λ db, NoDup (map wd_id (wb_deliveries db))) dbs →
  walk_spec asc limit (map (delivery_rows endpoint_id tenant_id status) dbs)
    (follow (λ cursor db, list_deliveries endpoint_id tenant_id status limit cursor asc db) None dbs).
Proof.
  intros Hlim Hnd. rewrite (follow_walk _ (delivery_rows endpoint_id tenant_id status) asc limit).
  - apply walk_meets_spec; [done|]. apply List.Forall_map. eapply Forall_impl; [exact Hnd|].
    intros db Hdb. unfold delivery_rows. destruct (get_endpoint _ _ _); [|constructor].
    apply NoDup_filter_keys, (NoDup_fmap_1 snd). by rewrite <- list_fmap_compose.
  - intros c db. unfold list_deliveries, delivery_rows. destruct (get_endpoint _ _ _); [done|].
    unfold page. cbn. by destruct limit.
Qed.
