(* ===== verification/SessionRecords.v ===== *)
(** * Records of realtime sessions

    Models [RealtimeSessionService] ([dalston/gateway/services/realtime_sessions.py]), which keeps
    a row for each session of the gateway, and the retention periods of
    [dalston/common/models.py].  A session id is read by the caller; what the storage
    holds for a session is in [Cleanup.v]. *)

From S2P Require Import Prelude PyValue Models Catalog Registry Selector Dag Store Pagination Webhooks Endpoints.

(** ** Retention *)

Definition RETENTION_TRANSIENT : Z := 0.
Definition RETENTION_PERMANENT : Z := -1.
Definition RETENTION_MIN_DAYS : Z := 1.
Definition RETENTION_MAX_DAYS : Z := 3650.
Definition RETENTION_DEFAULT_DAYS : Z := 30.
Definition SECONDS_PER_DAY : Z := 86400.

Definition retention_to_ttl_seconds (retention_days : Z) : option Z :=
  if (retention_days =? RETENTION_TRANSIENT)%Z then Some 0%Z
  else if (retention_days =? RETENTION_PERMANENT)%Z then None
  else Some (retention_days * SECONDS_PER_DAY)%Z.

(** Whether a value is accepted; the message is left out. *)
Definition validate_retention (retention_days : Z) : bool :=
  if (retention_days =? RETENTION_TRANSIENT)%Z || (retention_days =? RETENTION_PERMANENT)%Z then true
  else negb ((retention_days <? RETENTION_MIN_DAYS)%Z || (RETENTION_MAX_DAYS <? retention_days)%Z).

(** ** Rows *)

Record RealtimeSession := {
  rs_id : UUID;
  rs_tenant_id : UUID;
  rs_status : string;
  rs_language : option string;
  rs_model : option string;
  rs_engine_id : option string;
  rs_encoding : option string;
  rs_sample_rate : option Z;
  rs_retention : Z;
  rs_audio_uri : option string;
  rs_transcript_uri : option string;
  rs_audio_duration_seconds : pyfloat;
  rs_segment_count : Z;
  rs_word_count : Z;
  rs_instance : option string;
  rs_client_ip : option string;
  rs_previous_session_id : option UUID;
  rs_started_at : timestamp;
  rs_ended_at : option timestamp;
  rs_error : option string;
  rs_purge_after : option timestamp;
  rs_purged_at : option timestamp;
  rs_created_by_key_id : option UUID;
}.

Definition create_session (session_uuid tenant_id : UUID) (instance client_ip : string)
    (language model engine_id encoding : option string) (sample_rate : option Z) (retention : Z)
    (previous_session_id created_by_key_id : option UUID) (now : timestamp) : RealtimeSession := {|
  rs_id := session_uuid; rs_tenant_id := tenant_id; rs_status := "active"; rs_language := language;
  rs_model := model; rs_engine_id := engine_id; rs_encoding := encoding;
  rs_sample_rate := sample_rate; rs_retention := retention; rs_audio_uri := None;
  rs_transcript_uri := None; rs_audio_duration_seconds := fzero; rs_segment_count := 0;
  rs_word_count := 0; rs_instance := Some instance; rs_client_ip := Some client_ip;
  rs_previous_session_id := previous_session_id; rs_started_at := now; rs_ended_at := None;
  rs_error := None; rs_purge_after := None; rs_purged_at := None;
  rs_created_by_key_id := created_by_key_id |}.

(** The columns that change; [None] keeps the value of the row. *)
Definition rs_update (status : option string) (duration : option pyfloat) (segments words : option Z)
    (audio transcript error : option string) (ended purge_after purged : option timestamp)
    (r : RealtimeSession) : RealtimeSession :=
  let keep {A} (o : option A) (d : option A) := match o with Some _ => o | None => d end in {|
  rs_id := rs_id r; rs_tenant_id := rs_tenant_id r; rs_status := default (rs_status r) status;
  rs_language := rs_language r; rs_model := rs_model r; rs_engine_id := rs_engine_id r;
  rs_encoding := rs_encoding r; rs_sample_rate := rs_sample_rate r; rs_retention := rs_retention r;
  rs_audio_uri := keep audio (rs_audio_uri r); rs_transcript_uri := keep transcript (rs_transcript_uri r);
  rs_audio_duration_seconds := default (rs_audio_duration_seconds r) duration;
  rs_segment_count := default (rs_segment_count r) segments;
  rs_word_count := default (rs_word_count r) words; rs_instance := rs_instance r;
  rs_client_ip := rs_client_ip r; rs_previous_session_id := rs_previous_session_id r;
  rs_started_at := rs_started_at r; rs_ended_at := keep ended (rs_ended_at r);
  rs_error := keep error (rs_error r); rs_purge_after := keep purge_after (rs_purge_after r);
  rs_purged_at := keep purged (rs_purged_at r); rs_created_by_key_id := rs_created_by_key_id r |}.

Definition _compute_purge_after (session : RealtimeSession) (ended_at : timestamp) : option timestamp :=
  match retention_to_ttl_seconds (rs_retention session) with
  | Some ttl_seconds =>
      if (ttl_seconds =? 0)%Z then Some ended_at else Some (ended_at + seconds ttl_seconds)%Z
  | None => None
  end.

(** ** The table *)

Abbreviation sessions := (gmap UUID RealtimeSession).

Definition update_stats (session_uuid : UUID) (duration : option pyfloat) (segments words : option Z)
    (db : sessions) : sessions :=
  alter (rs_update None duration segments words None None None None None None) session_uuid db.

(** Also marks the artifacts of the session, which no operation creates. *)
Definition finalize_session (session_uuid : UUID) (status : string) (duration : option pyfloat)
    (segments words : option Z) (audio transcript error : option string) (now : timestamp)
    (db : sessions) : sessions * option RealtimeSession :=
  match db !! session_uuid with
  | None => (db, None)
  | Some existing =>
      let row := rs_update (Some status) duration segments words audio transcript error (Some now)
                   (_compute_purge_after existing now) None existing in
      (<[session_uuid := row]> db, Some row)
  end.

(** [None]: the session is active. *)
Definition delete_session (session_uuid tenant_id : UUID) (db : sessions) : option (sessions * bool) :=
  match db !! session_uuid with
  | None => Some (db, false)
  | Some session =>
      if negb (N.eqb (rs_tenant_id session) tenant_id) then Some (db, false)
      else if String.eqb (rs_status session) "active" then None
      else Some (delete session_uuid db, true)
  end.

#[export] Instance RealtimeSession_row : Row RealtimeSession := λ r, (rs_started_at r, rs_id r).

Definition in_period (since until : option timestamp) (t : timestamp) : bool :=
  match since with Some s => (s <=? t)%Z | None => true end &&
  match until with Some u => (t <=? u)%Z | None => true end.

Definition session_matches (tenant_id : UUID) (status : option string) (since until : option timestamp)
    (created_by_key_id : option UUID) (include_unowned : bool) (r : RealtimeSession) : bool :=
  N.eqb (rs_tenant_id r) tenant_id &&
  match status with
  | Some (String _ _ as s) => String.eqb (rs_status r) s
  | _ => true
  end && in_period since until (rs_started_at r) &&
  owned created_by_key_id include_unowned (rs_created_by_key_id r).

Definition list_sessions (tenant_id : UUID) (status : option string) (since until : option timestamp)
    (limit : nat) (cursor : option (timestamp * UUID)) (asc : bool) (created_by_key_id : option UUID)
    (include_unowned : bool) (db : sessions) : list RealtimeSession * bool :=
  page asc limit cursor
    (List.filter (session_matches tenant_id status since until created_by_key_id include_unowned)
       (map snd (map_to_list db))).

(** ** Periods *)

(** Periods that are accepted have an end, unless they are for ever. *)
Lemma validate_retention_spec d :
  validate_retention d = true ↔ (d = -1 ∨ 0 <= d <= 3650)%Z.
Proof.
  unfold validate_retention, RETENTION_TRANSIENT, RETENTION_PERMANENT, RETENTION_MIN_DAYS, RETENTION_MAX_DAYS.
  destruct (Z.eqb_spec d 0), (Z.eqb_spec d (-1)); cbn; [lia..|].
  rewrite negb_true_iff, orb_false_iff, !Z.ltb_ge. lia.
Qed.

(** The listing of sessions is one of those of [Pagination.v]. *)
Lemma sessions_listed tenant_id status since until limit asc key unowned dbs :
  let matching db := List.filter (session_matches tenant_id status since until key unowned)
                       (map snd (map_to_list (db : sessions))) in
  1 <= limit → Forall (λ db, ∀ k r, (db : sessions) !! k = Some r → rs_id r = k) dbs →
  walk_spec asc limit (map matching dbs)
    (follow (λ cursor db, list_sessions tenant_id status since until limit cursor asc key unowned db) None dbs).
Proof.
  intros matching Hlim Hk. rewrite (follow_walk _ matching asc limit) by done.
  apply walk_meets_spec; [done|]. apply List.Forall_map. eapply Forall_impl; [exact Hk|].
  intros db Hdb. apply NoDup_filter_keys. by apply NoDup_map_rows.
Qed.
