(* ===== verification/Cleanup.v ===== *)
(** * Removal of expired data

    Models [CleanupWorker] ([dalston/orchestrator/cleanup.py]): a sweep removes the
    stored objects of jobs and sessions whose period is over and marks their rows. *)

From S2P Require Import Prelude PyValue Models Catalog Registry Selector Dag Store Pagination Webhooks Endpoints SessionRecords.

(** What the storage and the locks are kept for. *)
Inductive owner : Type := OwnerJob (id : UUID) | OwnerSession (id : UUID).

#[export] Instance owner_eq_dec : EqDecision owner.
Proof. solve_decision. Defined.
#[export] Instance owner_countable : Countable owner.
Proof.
  refine (inj_countable' (λ o, match o with OwnerJob i => inl i | OwnerSession i => inr i end)
    (λ s, match s with inl i => OwnerJob i | inr i => OwnerSession i end) _); by intros [].
Defined.

(** The rows, the owners of objects in the storage, the locks with their expiry. *)
Record archive := {
  ar_jobs : gmap UUID JobModel;
  ar_sessions : gmap UUID RealtimeSession;
  ar_objects : gset owner;
  ar_locks : gmap owner timestamp;
}.

Definition PURGE_LOCK_TTL_SECONDS : Z := 300.

Definition with_objects (o : gset owner) (a : archive) : archive := {|
  ar_jobs := ar_jobs a; ar_sessions := ar_sessions a; ar_objects := o; ar_locks := ar_locks a |}.
Definition with_locks (l : gmap owner timestamp) (a : archive) : archive := {|
  ar_jobs := ar_jobs a; ar_sessions := ar_sessions a; ar_objects := ar_objects a; ar_locks := l |}.

(** [SET key NX EX]: [None] if someone holds the lock. *)
Definition acquire_lock (now : timestamp) (o : owner) (a : archive) : option archive :=
  let held := match ar_locks a !! o with Some t => (now <? t)%Z | None => false end in
  if held then None
  else Some (with_locks (<[o := (now + seconds PURGE_LOCK_TTL_SECONDS)%Z]> (ar_locks a)) a).

Definition release_lock (o : owner) (a : archive) : archive :=
  with_locks (delete o (ar_locks a)) a.

(** A table with retention: its rows, their columns, and how one is marked. *)
Class Retained (A : Type) := {
  rows_of : archive → gmap UUID A;
  purge_after_of : A → option timestamp;
  purged_at_of : A → option timestamp;
  owner_of : UUID → owner;
  mark_purged : timestamp → A → A;
  put_row : UUID → A → archive → archive;
}.

#[export] Instance jobs_retained : Retained JobModel := {|
  rows_of := ar_jobs; purge_after_of := j_purge_after; purged_at_of := j_purged_at;
  owner_of := OwnerJob; mark_purged := λ t j, j_set_purge (j_purge_after j) (Some t) j;
  put_row := λ id j a, {| ar_jobs := <[id := j]> (ar_jobs a); ar_sessions := ar_sessions a;
                          ar_objects := ar_objects a; ar_locks := ar_locks a |} |}.

#[export] Instance sessions_retained : Retained RealtimeSession := {|
  rows_of := ar_sessions; purge_after_of := rs_purge_after; purged_at_of := rs_purged_at;
  owner_of := OwnerSession;
  mark_purged := λ t r, rs_update None None None None None None None None None (Some t) r;
  put_row := λ id r a, {| ar_jobs := ar_jobs a; ar_sessions := <[id := r]> (ar_sessions a);
                          ar_objects := ar_objects a; ar_locks := ar_locks a |} |}.

(** ** A sweep *)

(** What goes wrong with a row: the deletion of its objects raises, or the
    marking of the row does. *)
Inductive purge_failure : Type := DeletionFails | MarkingFails.

Section sweep.
Context {A : Type} `{Retained A}.

Definition due (now : timestamp) (r : A) : bool :=
  match purge_after_of r, purged_at_of r with
  | Some t, None => (t <=? now)%Z
  | _, _ => false
  end.

Definition sooner_due (x y : UUID * A) : bool :=
  match purge_after_of x.2, purge_after_of y.2 with
  | Some s, Some t => (s <? t)%Z
  | _, _ => false
  end.

(** The rows of a sweep, in an order of the table that is not specified among
    equal times. *)
Definition due_rows (now : timestamp) (batch_size : nat) (a : archive) : list UUID :=
  (take batch_size (stable_sort sooner_due
    (List.filter (λ kr, due now kr.2) (map_to_list (rows_of a : gmap UUID A))))).*1.

(** One row: locked, its objects deleted, marked, unlocked; whether it counts. *)
Definition purge_one (now : timestamp) (failure : option purge_failure) (id : UUID) (a : archive)
    : archive * bool :=
  match acquire_lock now (owner_of (A := A) id) a with
  | None => (a, false)
  | Some a =>
      let '(a, b) :=
        match failure with
        | Some DeletionFails => (a, false)
        | _ =>
            let a := with_objects (ar_objects a ∖ {[owner_of (A := A) id]}) a in
            match failure, rows_of (A := A) a !! id with
            | None, Some r =>
                match purged_at_of r with
                | None => (put_row id (mark_purged now r) a, true)
                | Some _ => (a, false)
                end
            | _, _ => (a, false)
            end
        end in
      (release_lock (owner_of (A := A) id) a, b)
  end.

Fixpoint purge_rows (now : timestamp) (failures : UUID → option purge_failure) (ids : list UUID)
    (a : archive) : archive * nat :=
  match ids with
  | [] => (a, 0)
  | id :: ids =>
      let '(a, b) := purge_one now (failures id) id a in
      let '(a, n) := purge_rows now failures ids a in
      (a, (if (b : bool) then 1 else 0) + n)
  end.

Definition _purge_expired (now : timestamp) (batch_size : nat) (failures : UUID → option purge_failure)
    (a : archive) : archive * nat :=
  purge_rows now failures (due_rows now batch_size a) a.
End sweep.

Definition _purge_expired_jobs (now : timestamp) (batch_size : nat)
    (failures : UUID → option purge_failure) (a : archive) : archive * nat :=
  _purge_expired (A := JobModel) now batch_size failures a.

Definition _purge_expired_sessions (now : timestamp) (batch_size : nat)
    (failures : UUID → option purge_failure) (a : archive) : archive * nat :=
  _purge_expired (A := RealtimeSession) now batch_size failures a.

(** [failures]: those of jobs and of sessions. *)
Definition _sweep (now : timestamp) (batch_size : nat)
    (failures : (UUID → option purge_failure) * (UUID → option purge_failure)) (a : archive) : archive :=
  (_purge_expired_sessions now batch_size failures.2
     (_purge_expired_jobs now batch_size failures.1 a).1).1.

(** ** What a sweep does to one owner *)

(** The laws of a table. *)
Class RetainedLaws (A : Type) `{Retained A} := {
  owner_inj : Inj (=) (=) (owner_of (A := A));
  rows_put id r a : rows_of (put_row id r a) = <[id := r]> (rows_of a);
  objects_put id r a : ar_objects (put_row id r a) = ar_objects a;
  locks_put id r a : ar_locks (put_row id r a) = ar_locks a;
  rows_objects o a : rows_of (with_objects o a) = rows_of a;
  rows_locks l a : rows_of (with_locks l a) = rows_of a;
}.
#[export] Existing Instance owner_inj.

#[export] Instance jobs_laws : RetainedLaws JobModel.
Proof. split; try done. by intros i j [=]. Qed.
#[export] Instance sessions_laws : RetainedLaws RealtimeSession.
Proof. split; try done. by intros i j [=]. Qed.

Section view.
Context {A : Type} `{RetainedLaws A}.

(** The row of an owner, whether it has objects, its lock. *)
Definition view : Type := option A * bool * option timestamp.
Definition view_of (a : archive) (id : UUID) : view :=
  (rows_of (A := A) a !! id, bool_decide (owner_of (A := A) id ∈ ar_objects a), ar_locks a !! owner_of (A := A) id).

Definition outcome (now : timestamp) (failure : option purge_failure) (v : view) : view :=
  let '(row, stored, lock) := v in
  if match lock with Some t => (now <? t)%Z | None => false end then v
  else match failure with
       | Some DeletionFails => (row, stored, None)
       | Some MarkingFails => (row, false, None)
       | None =>
           ((λ r, match purged_at_of r with None => mark_purged now r | Some _ => r end) <$> row,
            false, None)
       end.

Lemma view_locks id l a :
  view_of (with_locks l a) id = ((view_of a id).1, l !! owner_of (A := A) id).
Proof. unfold view_of. by rewrite rows_locks. Qed.

Lemma view_objects id id' a :
  view_of (with_objects (ar_objects a ∖ {[owner_of (A := A) id']}) a) id =
  ((view_of a id).1.1, (view_of a id).1.2 && negb (bool_decide (id = id')), (view_of a id).2).
Proof.
  unfold view_of. rewrite rows_objects. cbn. f_equal. f_equal.
  rewrite <- bool_decide_not, <- bool_decide_and. apply bool_decide_ext.
  rewrite elem_of_difference, not_elem_of_singleton. split; intros [? Hne]; split; try done.
  - by intros ->.
  - by intros ?%(owner_inj (A := A)).
Qed.

Lemma view_put id id' r a :
  view_of (put_row id' r a) id = (<[id' := r]> (rows_of a) !! id, (view_of a id).1.2, (view_of a id).2).
Proof. unfold view_of. by rewrite rows_put, objects_put, locks_put. Qed.

#[local] Arguments outcome : simpl never.
#[local] Arguments view_of : simpl never.

Lemma purge_one_view now failure id id' a :
  view_of (purge_one now failure id a).1 id' =
  if decide (id' = id) then outcome now failure (view_of a id) else view_of a id'.
Proof.
  unfold purge_one, acquire_lock, release_lock.
  destruct (match ar_locks a !! owner_of (A := A) id with Some t => (now <? t)%Z | None => false end) eqn:Hlock.
  { cbn. case_decide; [subst|done]. unfold outcome, view_of. by rewrite Hlock. }
  assert (∀ v : view, v.2 = ar_locks a !! owner_of (A := A) id → outcome now failure v =
    match failure with
    | Some DeletionFails => (v.1.1, v.1.2, None)
    | Some MarkingFails => (v.1.1, false, None)
    | None => ((λ r, match purged_at_of r with None => mark_purged now r | Some _ => r end) <$> v.1.1, false, None)
    end) as Hout.
  { intros [[row stored] lock] Hv. unfold outcome. cbn in Hv |- *. by rewrite Hv, Hlock. }
  set (a1 := with_locks _ a).
  assert (∀ b, (∀ i, (view_of b i).1 = if decide (i = id) then (outcome now failure (view_of a id)).1 else (view_of a i).1) →
    ar_locks b = ar_locks a1 →
    view_of (with_locks (delete (owner_of (A := A) id) (ar_locks b)) b) id' =
    if decide (id' = id) then outcome now failure (view_of a id) else view_of a id') as Hend.
  { intros b Hb Hl. rewrite view_locks. rewrite Hb, Hl. unfold a1. cbn. case_decide as Hid.
    - rewrite Hid, lookup_delete_eq. rewrite Hout by done. by destruct failure as [[]|].
    - assert (owner_of (A := A) id ≠ owner_of (A := A) id') by (by intros ?%(owner_inj (A := A))).
      by rewrite lookup_delete_ne, lookup_insert_ne. }
  assert (∀ i, (view_of a1 i).1 = (view_of a i).1) as Ha1.
  { intros i. unfold a1. by rewrite (view_locks i). }
  assert (∀ i, view_of (with_objects (ar_objects a1 ∖ {[owner_of (A := A) id]}) a1) i =
    ((view_of a i).1.1, (view_of a i).1.2 && negb (bool_decide (i = id)), (view_of a1 i).2)) as Hobj.
  { intros i. by rewrite view_objects, Ha1. }
  destruct failure as [[]|]; cbn [fst].
  - apply Hend; [|done]. intros i. rewrite Ha1, Hout by done. destruct (decide (i = id)) as [Hi|Hi]; [rewrite Hi|done]. by destruct (view_of a id) as [[] ?].
  - apply Hend; [|done]. intros i. rewrite Hobj, Hout by done. cbn [fst snd].
    destruct (decide (i = id)) as [Hi|Hi]; [rewrite Hi, bool_decide_true by done|rewrite bool_decide_false by done];
      rewrite ?andb_false_r, ?andb_true_r; [done|by destruct (view_of a i) as [[] ?]].
  - set (b := with_objects _ a1) in *.
    assert (rows_of (A := A) b !! id = (view_of a id).1.1) as Hrow.
    { change (rows_of b !! id) with (view_of b id).1.1. by rewrite Hobj. }
    rewrite Hout in Hend |- * by done. cbn [fst snd] in Hend |- *. rewrite <- Hrow in Hend |- *.
    assert (∀ i, i ≠ id → (view_of b i).1 = (view_of a i).1) as Hother.
    { intros i Hi. rewrite Hobj, bool_decide_false by done. cbn [fst]. rewrite andb_true_r. by destruct (view_of a i) as [[] ?]. }
    assert ((view_of b id).1.2 = false) as Hgone by (by rewrite Hobj, bool_decide_true, andb_false_r by done).
    assert (∀ i, i = id → (view_of b i).1 = (rows_of (A := A) b !! id, false)) as Hsame.
    { intros i ->. change (rows_of b !! id) with (view_of b id).1.1. rewrite <- Hgone. by destruct (view_of b id) as [[] ?]. }
    change (ar_locks a1) with (ar_locks b) in Hend.
    destruct (rows_of b !! id) as [r|] eqn:Hr; [destruct (purged_at_of r) eqn:Hp|];
      cbn [fmap option_fmap option_map fst] in Hend |- *; rewrite ?Hp in Hend |- *; apply Hend;
      rewrite ?locks_put; try done;
      intros i; destruct (decide (i = id)) as [Hi|Hi]; rewrite ?view_put; cbn [fst snd]; eauto.
    + rewrite Hi, lookup_insert_eq. by rewrite Hgone.
    + rewrite lookup_insert_ne by done. rewrite <- Hother by done.
      change (rows_of b !! i) with (view_of b i).1.1. by destruct (view_of b i) as [[] ?].
Qed.
Lemma purge_rows_view now failures ids id a :
  NoDup ids →
  view_of (purge_rows now failures ids a).1 id =
  if decide (id ∈ ids) then outcome now (failures id) (view_of a id) else view_of a id.
Proof.
  intros Hnd. revert a. induction Hnd as [|i ids Hi _ IH]; intros a; cbn [purge_rows]; [done|].
  destruct (purge_one now (failures i) i a) as [a1 b] eqn:H1.
  destruct (purge_rows now failures ids a1) as [a2 n] eqn:H2. cbn [fst].
  change a2 with (a2, n).1. rewrite <- H2, IH. change a1 with (a1, b).1. rewrite <- H1, purge_one_view.
  destruct (decide (id = i)) as [->|Hne].
  - rewrite decide_False by done. by rewrite decide_True by left.
  - destruct (decide (id ∈ ids)); [rewrite decide_True by by right|rewrite decide_False]; [done|done|].
    by intros [?|?]%elem_of_cons.
Qed.

Lemma due_rows_NoDup now batch a : NoDup (due_rows (A := A) now batch a).
Proof.
  unfold due_rows. eapply sublist_NoDup; [|apply fmap_sublist, sublist_take].
  rewrite stable_sort_perm. eapply sublist_NoDup; [apply (NoDup_fst_map_to_list (rows_of (A := A) a))|].
  apply fmap_sublist. generalize (map_to_list (rows_of (A := A) a)). intros l.
  induction l as [|x l IH]; cbn; [constructor|]. destruct (due _ _); by constructor.
Qed.

Lemma due_rows_due now batch a id :
  id ∈ due_rows (A := A) now batch a → ∃ r, rows_of (A := A) a !! id = Some r ∧ due now r = true.
Proof.
  unfold due_rows. intros ([k r] & -> & Hin)%list_elem_of_fmap.
  apply elem_of_take in Hin as (i & Hi & _). apply list_elem_of_lookup_2 in Hi.
  rewrite elem_of_stable_sort, elem_of_filter_b in Hi. destruct Hi as [Hk Hd].
  exists r. split; [by apply elem_of_map_to_list|done].
Qed.

Definition due_count (now : timestamp) (a : archive) : nat :=
  length (List.filter (λ kr, due now kr.2) (map_to_list (rows_of (A := A) a))).

Lemma due_rows_all now batch a id r :
  due_count now a <= batch → rows_of (A := A) a !! id = Some r → due now r = true →
  id ∈ due_rows (A := A) now batch a.
Proof.
  intros Hlen Hr Hd. unfold due_rows. apply list_elem_of_fmap. exists (id, r). split; [done|].
  rewrite take_ge by (rewrite (Permutation_length (stable_sort_perm _ _)); exact Hlen).
  rewrite elem_of_stable_sort, elem_of_filter_b. split; [by apply elem_of_map_to_list|done].
Qed.

Lemma purge_expired_view now batch failures a id :
  view_of (_purge_expired (A := A) now batch failures a).1 id =
  if decide (id ∈ due_rows (A := A) now batch a) then outcome now (failures id) (view_of a id)
  else view_of a id.
Proof. apply purge_rows_view, due_rows_NoDup. Qed.
End view.

(** Neither table is touched by the sweep of the other, nor its objects. *)
Lemma purge_sessions_jobs now failures ids a :
  ar_jobs (purge_rows (A := RealtimeSession) now failures ids a).1 = ar_jobs a ∧
  ∀ id, OwnerJob id ∈ ar_objects (purge_rows (A := RealtimeSession) now failures ids a).1 ↔
        OwnerJob id ∈ ar_objects a.
Proof.
  revert a. induction ids as [|i ids IH]; intros a; cbn [purge_rows]; [done|].
  destruct (purge_one now (failures i) i a) as [a1 b] eqn:H1.
  destruct (purge_rows now failures ids a1) as [a2 n] eqn:H2. cbn [fst].
  destruct (IH a1) as [IHj IHo]. rewrite H2 in IHj, IHo. cbn [fst] in IHj, IHo.
  assert (ar_jobs a1 = ar_jobs a ∧ ∀ id, OwnerJob id ∈ ar_objects a1 ↔ OwnerJob id ∈ ar_objects a) as [Hj Ho].
  { clear IHj IHo IH H2. unfold purge_one, acquire_lock in H1. cbn in H1.
    repeat case_match; simplify_eq; cbn; split; try done; set_solver. }
  split; [congruence|]. intros id. by rewrite IHo, Ho.
Qed.


(** ** A session kept for a day *)

Module CleanupDemo.

Definition row : RealtimeSession :=
  create_session 5 1 "w1" "10.0.0.1" None None None None None 1 None None 0.

Definition before : archive := {|
  ar_jobs := ∅; ar_sessions := {[5%N := row]}; ar_objects := {[OwnerSession 5; OwnerJob 9]}; ar_locks := ∅ |}.

Definition ended : timestamp := 1000.
Definition finalized : sessions * option RealtimeSession :=
  finalize_session 5 "completed" None None None None None None ended (ar_sessions before).

Definition after : archive := {|
  ar_jobs := ar_jobs before; ar_sessions := finalized.1; ar_objects := ar_objects before; ar_locks := ∅ |}.

(** The next day. *)
Definition later : timestamp := (ended + seconds 86400)%Z.


End CleanupDemo.
