(* ===== verification/Delivery.v ===== *)
(** * Workers that deliver webhooks

    The operations of [Webhooks.v] as orchestrators run them at the same time:
    each has a worker that polls, holds the rows it has read, and delivers them
    one by one. *)

From S2P Require Import Prelude PyValue Models Catalog Registry Selector Dag Store Pagination Webhooks Endpoints.

(** ** Workers *)

(** The deliveries a worker has read and not processed; whether its transaction
    still locks their rows, which its first commit ends. *)
Record DeliveryWorker := {
  dw_hand : list WebhookDelivery;
  dw_locks : bool;
}.

Definition idle_worker : DeliveryWorker := {| dw_hand := []; dw_locks := false |}.

Definition locked_rows (workers : list DeliveryWorker) : list UUID :=
  workers ≫= λ w, if dw_locks w then map wd_id (dw_hand w) else [].

Section delivery.
Context (url_error : string → option string) (parse_uuid : string → option UUID).

(** What the owners of endpoints do. *)
Inductive service_step (db : WebhookDB) : WebhookDB → Prop :=
  | service_create new_id secret now tenant_id url events description created_by db' e :
      new_id ∉ map we_id (wb_endpoints db) →
      create_endpoint url_error new_id secret now tenant_id url events description created_by db =
        Ok (db', e) →
      service_step db db'
  | service_change id tenant_id url events description is_active db' e :
      change_endpoint url_error id tenant_id url events description is_active db = Ok (db', e) →
      service_step db db'
  | service_delete id tenant_id db' b :
      delete_endpoint id tenant_id db = Ok (db', b) → service_step db db'
  | service_rotate secret id tenant_id : service_step db (rotate_secret secret id tenant_id db).1
  | service_retry now id delivery_id tenant_id db' d :
      retry_delivery now id delivery_id tenant_id db = Ok (db', d) → service_step db db'.

Inductive webhook_step : WebhookDB * list DeliveryWorker → WebhookDB * list DeliveryWorker → Prop :=
  | step_poll db workers i locks now :
      workers !! i = Some {| dw_hand := []; dw_locks := locks |} →
      webhook_step (db, workers)
        (db, <[i := {| dw_hand := pending_deliveries now (locked_rows workers) db;
                       dw_locks := true |}]> workers)
  | step_deliver db workers i l1 d l2 locks responses now :
      workers !! i = Some {| dw_hand := l1 ++ d :: l2; dw_locks := locks |} →
      webhook_step (db, workers)
        (_do_delivery url_error responses now true d db,
         <[i := {| dw_hand := l1 ++ l2; dw_locks := false |}]> workers)
  | step_die db workers i l1 d l2 locks responses now :
      workers !! i = Some {| dw_hand := l1 ++ d :: l2; dw_locks := locks |} →
      webhook_step (db, workers)
        (_do_delivery url_error responses now false d db, <[i := idle_worker]> workers)
  | step_job db workers new_id event_id now job status error duration db' :
      Inj (=) (=) new_id → (∀ n d, d ∈ wb_deliveries db → wd_id d ≠ new_id n) →
      _handle_job_webhook parse_uuid new_id event_id now job status error duration db = Some db' →
      webhook_step (db, workers) (db', workers)
  | step_service db workers db' : service_step db db' → webhook_step (db, workers) (db', workers).

Definition webhook_steps := rtc webhook_step.

(** ** What the log says of a delivery *)

Definition calls (id : UUID) (db : WebhookDB) : Z :=
  Z.of_nat (length (List.filter
    (λ e, match e with Called i _ _ => bool_decide (i = id) | NoTarget _ _ => false end) (wb_log db))).

Definition succeeded (id : UUID) (db : WebhookDB) : Prop := ∃ url, Called id url true ∈ wb_log db.
Definition untargeted (id : UUID) (db : WebhookDB) : Prop := ∃ error, NoTarget id error ∈ wb_log db.

Lemma calls_log id e db : (calls id db <= calls id (log_event e db))%Z.
Proof. unfold calls, log_event. cbn. rewrite List.filter_app, length_app. lia. Qed.

Lemma calls_called id url b db : calls id (log_event (Called id url b) db) = (calls id db + 1)%Z.
Proof.
  unfold calls, log_event. cbn. rewrite List.filter_app, length_app. cbn.
  rewrite bool_decide_true by done. cbn. lia.
Qed.

(** ** The invariant *)

(** What is known of a delivery, as its row is or as a worker has read it. *)
Record delivery_ok (db : WebhookDB) (d : WebhookDelivery) : Prop := {
  do_attempts : (0 <= wd_attempts d <= calls (wd_id d) db)%Z;
  do_success : wd_status d = DSuccess → succeeded (wd_id d) db;
  do_failed : wd_status d = DFailed → (MAX_ATTEMPTS <= calls (wd_id d) db)%Z ∨ untargeted (wd_id d) db;
}.

Lemma delivery_ok_mono db db' d :
  (∃ l, wb_log db' = wb_log db ++ l) → delivery_ok db d → delivery_ok db' d.
Proof.
  intros [l Hl] [Ha Hs Hf].
  assert (calls (wd_id d) db <= calls (wd_id d) db')%Z.
  { unfold calls. rewrite Hl, List.filter_app, length_app. lia. }
  split; [lia|..].
  - intros [url Hu]%Hs. exists url. rewrite Hl. apply elem_of_app. by left.
  - intros [?|[e He]]%Hf; [left; lia|right]. exists e. rewrite Hl. apply elem_of_app. by left.
Qed.

Lemma written_cases {A} `{EqDecision A} (read assigned current : A) :
  written read assigned current = current ∨ written read assigned current = assigned.
Proof. unfold written. case_bool_decide; auto. Qed.

(** Ids are not used twice, and rows and copies satisfy the invariant. *)
Record webhooks_ok (db : WebhookDB) (workers : list DeliveryWorker) : Prop := {
  wo_ids : NoDup (map wd_id (wb_deliveries db));
  wo_rows : Forall (delivery_ok db) (wb_deliveries db);
  wo_hands : Forall (λ w, Forall (delivery_ok db) (dw_hand w)) workers;
}.

Lemma update_delivery_ids id f db :
  (∀ r, wd_id (f r) = wd_id r) →
  map wd_id (wb_deliveries (update_delivery id f db)) = map wd_id (wb_deliveries db).
Proof.
  intros Hf. cbn. rewrite List.map_map. apply List.map_ext. intros r. by case_bool_decide.
Qed.

Lemma update_delivery_rows id f db db0 db' :
  wb_deliveries db = wb_deliveries db0 → (∃ l, wb_log db = wb_log db0 ++ l) → wb_log db' = wb_log db →
  Forall (delivery_ok db0) (wb_deliveries db0) →
  (∀ r, delivery_ok db0 r → wd_id r = id → delivery_ok db (f r)) →
  Forall (delivery_ok db') (wb_deliveries (update_delivery id f db)).
Proof.
  intros Hd Hl Hl' Hrows Hf. eapply (Forall_impl (delivery_ok db));
    [|intros r; apply delivery_ok_mono; exists []; by rewrite app_nil_r].
  cbn. rewrite Hd. apply List.Forall_map. eapply Forall_impl; [exact Hrows|].
  intros r Hr. cbn. case_bool_decide; [by apply Hf|by eapply delivery_ok_mono].
Qed.

Lemma auto_disable_frame now id db :
  wb_deliveries (_check_auto_disable now id db) = wb_deliveries db ∧
  wb_log (_check_auto_disable now id db) = wb_log db.
Proof. unfold _check_auto_disable. by repeat case_match. Qed.

(** The row after an attempt that is committed. *)
Lemma record_attempt_row now d endpoint (success : bool) code error db :
  ∃ st next,
    wb_deliveries (record_attempt now d endpoint (success, code, error) db) =
      wb_deliveries (update_delivery (wd_id d) (wd_attempt now code error st next d) db) ∧
    wb_log (record_attempt now d endpoint (success, code, error) db) = wb_log db ∧
    if success then st = DSuccess ∧ next = None
    else if (MAX_ATTEMPTS <=? wd_attempts d + 1)%Z then st = DFailed ∧ next = None
    else st = wd_status d ∧ next = Some (now + seconds (retry_delay (wd_attempts d + 1)))%Z.
Proof.
  unfold record_attempt. destruct success; [|destruct (_ <=? _)%Z].
  - by exists DSuccess, None; destruct endpoint.
  - exists DFailed, None. destruct endpoint; [|done].
    destruct (auto_disable_frame now (we_id w) (update_endpoint (we_id w)
      (λ e, we_set (we_is_active e) (we_disabled_reason e) (we_consecutive_failures e + 1)
        (we_last_success_at e) e)
      (update_delivery (wd_id d) (wd_attempt now code error DFailed None d) db))) as [-> ->]. done.
  - by exists (wd_status d), (Some (now + seconds (retry_delay (wd_attempts d + 1)))%Z).
Qed.

Lemma attempt_ok now code error st next d r db success url :
  let db' := log_event (Called (wd_id d) url success) db in
  delivery_ok db d → delivery_ok db r → wd_id r = wd_id d →
  (if success then st = DSuccess
   else if (MAX_ATTEMPTS <=? wd_attempts d + 1)%Z then st = DFailed else st = wd_status d) →
  delivery_ok db' (wd_attempt now code error st next d r).
Proof.
  intros db' Hd Hr Hid Hst.
  assert (∃ l, wb_log db' = wb_log db ++ l) as Hl by by eexists.
  assert (delivery_ok db' r) as Hr' by by eapply delivery_ok_mono.
  assert (delivery_ok db' d) as Hd' by by eapply delivery_ok_mono.
  assert (calls (wd_id d) db' = calls (wd_id d) db + 1)%Z as Hcalls by apply calls_called.
  pose proof (do_attempts _ _ Hd) as Ha.
  split; cbn; rewrite Hid.
  - lia.
  - destruct (written_cases (wd_status d) st (wd_status r)) as [-> | ->].
    + rewrite <- Hid. apply Hr'.
    + destruct success; [intros _; exists url; apply elem_of_app; right; by left|].
      destruct (_ <=? _)%Z; subst st; [done|apply Hd'].
  - destruct (written_cases (wd_status d) st (wd_status r)) as [-> | ->].
    + rewrite <- Hid. apply Hr'.
    + destruct success; [by subst st|].
      destruct (_ <=? _)%Z eqn:Hm; subst st; [left; lia|apply Hd'].
Qed.

Lemma finish_ok error d r db :
  let db' := log_event (NoTarget (wd_id d) error) db in
  delivery_ok db d → delivery_ok db r → wd_id r = wd_id d →
  delivery_ok db' (wd_finish DFailed (Some error) d r).
Proof.
  intros db' Hd Hr Hid.
  assert (delivery_ok db' r) as [Ha Hs Hf] by (eapply delivery_ok_mono; [by eexists|done]).
  split; cbn; [done|..].
  - destruct (written_cases (wd_status d) DFailed (wd_status r)) as [-> | ->]; [apply Hs|done].
  - intros _. right. exists error. rewrite Hid. apply elem_of_app. right. by left.
Qed.

Lemma do_delivery_ok responses now committed d db :
  NoDup (map wd_id (wb_deliveries db)) → Forall (delivery_ok db) (wb_deliveries db) → delivery_ok db d →
  let db' := _do_delivery url_error responses now committed d db in
  NoDup (map wd_id (wb_deliveries db')) ∧ Forall (delivery_ok db') (wb_deliveries db') ∧
  ∃ l, wb_log db' = wb_log db ++ l.
Proof.
  intros Hids Hrows Hd. cbv zeta. unfold _do_delivery.
  assert (∀ e, Forall (delivery_ok (log_event e db)) (wb_deliveries db)) as Hlog.
  { intros e. eapply Forall_impl; [exact Hrows|]. intros r. apply delivery_ok_mono. by eexists. }
  destruct (target d db) as [error|[url endpoint]].
  - destruct committed; [|by split_and!; [..|exists []; rewrite app_nil_r]].
    split_and!; [by rewrite update_delivery_ids| |by eexists].
    eapply (update_delivery_rows _ _ _ db); [done|by eexists|done|exact Hrows|].
    intros r Hr Hid. by apply finish_ok.
  - destruct (deliver url_error responses url 0) as [[success code] error]. cbn [fst].
    destruct committed; [|by split_and!; [..|by eexists]].
    destruct (record_attempt_row now d endpoint success code error
      (log_event (Called (wd_id d) url success) db)) as (st & next & Hrow & Hl & Hst).
    rewrite Hrow, Hl. split_and!; [by rewrite update_delivery_ids| |by eexists].
    eapply (update_delivery_rows _ _ _ db); [done|by eexists|by rewrite Hl|exact Hrows|].
    intros r Hr Hid. apply attempt_ok; [done..|].
    destruct success; [by destruct Hst|]. by destruct (_ <=? _)%Z; destruct Hst.
Qed.

(** ** Jobs' events *)

Lemma create_delivery_outcome new_id now endpoint_id job_id event_type payload url db :
  let '(db', o) := create_webhook_delivery new_id now endpoint_id job_id event_type payload url db in
  db' = db ∨ (∃ d, wd_id d = new_id ∧ wd_status d = DPending ∧ wd_attempts d = 0%Z ∧ o = Some d ∧
    db' = set_deliveries (wb_deliveries db ++ [d]) db).
Proof.
  unfold create_webhook_delivery. destruct (existsb _ _).
  - destruct (List.filter _ _) as [|d [|? ?]]; by left.
  - right. eexists. split_and!; cycle -1; done.
Qed.

Lemma create_deliveries_ok new_id now job_id event_type payload endpoints db db' :
  Inj (=) (=) new_id → (∀ n d, d ∈ wb_deliveries db → wd_id d ≠ new_id n) →
  create_deliveries new_id now job_id event_type payload endpoints db = Some db' →
  NoDup (map wd_id (wb_deliveries db)) → Forall (delivery_ok db) (wb_deliveries db) →
  NoDup (map wd_id (wb_deliveries db')) ∧ Forall (delivery_ok db') (wb_deliveries db') ∧
  wb_log db' = wb_log db ∧ ∃ l, wb_deliveries db' = wb_deliveries db ++ l.
Proof.
  revert new_id db. induction endpoints as [|e endpoints IH]; intros new_id db Hinj Hnew Hc Hids Hrows; cbn in Hc.
  - injection Hc as <-. split_and!; [done..|exists []; by rewrite app_nil_r].
  - pose proof (create_delivery_outcome (new_id 0) now (Some (we_id e)) (Some job_id) event_type payload
      None db) as Ho.
    destruct (create_webhook_delivery _ _ _ _ _ _ _ _) as [db1 [d|]]; [|done].
    assert (Inj (=) (=) (λ n, new_id (S n))) as Hinj' by (intros n m Hnm; apply Hinj in Hnm; lia).
    destruct Ho as [->|(d' & Hid & Hst & Ha & _ & ->)].
    + apply (IH (λ n, new_id (S n)) db); [done| |done..]. intros n r. apply Hnew.
    + destruct (IH (λ n, new_id (S n)) (set_deliveries (wb_deliveries db ++ [d']) db) Hinj')
        as (Hids' & Hrows' & Hlog & l & Hl); [|exact Hc|..].
      * intros n r [Hr|Hr]%elem_of_app; [by apply Hnew|]. apply list_elem_of_singleton in Hr as ->.
        rewrite Hid. intros Heq. apply Hinj in Heq. lia.
      * cbn. rewrite map_app. apply NoDup_app. split_and!; [done| |apply NoDup_singleton].
        intros id Hin Hid'. apply list_elem_of_singleton in Hid' as ->.
        apply list_elem_of_In, in_map_iff in Hin as (r & Hr & Hin). apply list_elem_of_In in Hin.
        rewrite Hid in Hr. by eapply Hnew.
      * cbn. apply Forall_app. split; [eapply Forall_impl; [exact Hrows|];
          intros r; apply delivery_ok_mono; exists []; by rewrite app_nil_r|].
        apply Forall_singleton. split; [|congruence..]. rewrite Ha. unfold calls. lia.
      * split_and!; [done..|]. exists ([d'] ++ l). rewrite Hl. cbn. by rewrite <- app_assoc.
Qed.

(** A job, an event and an endpoint, for which there is one delivery at most. *)
Definition delivery_key (d : WebhookDelivery) : option (UUID * string * UUID) :=
  match wd_job_id d, wd_endpoint_id d with
  | Some job, Some endpoint => Some (job, wd_event_type d, endpoint)
  | _, _ => None
  end.

Definition delivery_keys (db : WebhookDB) : list (UUID * string * UUID) :=
  omap delivery_key (wb_deliveries db).

Lemma same_delivery_key job event endpoint d :
  same_delivery (Some job) event (Some endpoint) None d = true ↔ delivery_key d = Some (job, event, endpoint).
Proof.
  unfold same_delivery, delivery_key. rewrite bool_decide_eq_true. split.
  - intros (_ & -> & -> & [[_ ->]|[[? ?] _]]); done.
  - destruct (wd_job_id d), (wd_endpoint_id d); try done. intros [= -> -> ->]. eauto 10.
Qed.

Lemma existing_delivery_key job event endpoint d :
  existing_delivery (Some job) event (Some endpoint) None d =
  same_delivery (Some job) event (Some endpoint) None d.
Proof.
  apply eq_bool_prop_intro; rewrite !Is_true_true. rewrite same_delivery_key.
  unfold existing_delivery, delivery_key. rewrite andb_true_iff, !bool_decide_eq_true. split.
  - by intros [(_ & -> & ->) ->].
  - destruct (wd_job_id d), (wd_endpoint_id d); try done. intros [= -> -> ->]. eauto 10.
Qed.

Lemma filter_key_one {A B} `{EqDecision B} (f : A → option B) (p : A → bool) k l :
  (∀ x, p x = true ↔ f x = Some k) → NoDup (omap f l) → k ∈ omap f l → ∃ x, List.filter p l = [x].
Proof.
  intros Hp. induction l as [|x l IH]; cbn; intros Hnd Hk; [by apply elem_of_nil in Hk|].
  destruct (f x) as [k'|] eqn:Hf.
  - apply NoDup_cons in Hnd as [Hk' Hnd]. destruct (decide (k' = k)) as [->|Hne].
    + assert (p x = true) as -> by by apply Hp. exists x. f_equal.
      destruct (List.filter p l) as [|y l'] eqn:Hl; [done|].
      assert (y ∈ List.filter p l) as [Hy Hpy]%elem_of_filter_b by (rewrite Hl; left).
      destruct Hk'. apply list_elem_of_omap. exists y. by split; [|apply Hp].
    + apply elem_of_cons in Hk as [->|Hk]; [done|]. destruct (p x) eqn:Hpx; [|by apply IH].
      apply Hp in Hpx. congruence.
  - destruct (p x) eqn:Hpx; [|by apply IH]. apply Hp in Hpx. congruence.
Qed.

Lemma create_keyed new_id now job event payload endpoint db :
  let k := (job, event, endpoint) in
  NoDup (delivery_keys db) →
  ∃ db' d, create_webhook_delivery new_id now (Some endpoint) (Some job) event payload None db = (db', Some d) ∧
    NoDup (delivery_keys db') ∧ k ∈ delivery_keys db' ∧
    (∀ k', k' ∈ delivery_keys db → k' ∈ delivery_keys db') ∧ (k ∈ delivery_keys db → db' = db).
Proof.
  intros k Hnd. unfold create_webhook_delivery.
  set (new := {| wd_id := new_id |}).
  assert (existsb (same_delivery (Some job) event (Some endpoint) None) (wb_deliveries db) = true ↔
          k ∈ delivery_keys db) as He.
  { rewrite existsb_exists. unfold delivery_keys. rewrite list_elem_of_omap.
    by setoid_rewrite list_elem_of_In; setoid_rewrite same_delivery_key. }
  destruct (existsb _ _).
  - destruct He as [He _]. specialize (He eq_refl).
    destruct (filter_key_one delivery_key
      (existing_delivery (Some job) event (Some endpoint) None) k (wb_deliveries db)) as [d ->]; [|done..|].
    + intros d. by rewrite existing_delivery_key, same_delivery_key.
    + by exists db, d.
  - assert (k ∉ delivery_keys db) as Hk by (intros Hk; by apply He in Hk).
    exists (set_deliveries (wb_deliveries db ++ [new]) db), new. unfold delivery_keys in *. cbn.
    rewrite !omap_app. cbn. split_and!; [done| |apply elem_of_app; right; by left| |done].
    + apply NoDup_app. split_and!; [done| |apply NoDup_singleton].
      intros k' Hk' ->%list_elem_of_singleton. done.
    + intros k' Hk'. apply elem_of_app. by left.
Qed.

Lemma create_deliveries_keyed new_id now job event payload endpoints db :
  NoDup (delivery_keys db) →
  ∃ db', create_deliveries new_id now job event payload endpoints db = Some db' ∧
    NoDup (delivery_keys db') ∧
    (∀ k, k ∈ delivery_keys db → k ∈ delivery_keys db') ∧
    Forall (λ e, (job, event, we_id e) ∈ delivery_keys db') endpoints.
Proof.
  revert new_id db. induction endpoints as [|e endpoints IH]; intros new_id db Hnd; cbn; [by exists db|].
  destruct (create_keyed (new_id 0) now job event payload (we_id e) db Hnd)
    as (db1 & d & -> & Hnd1 & Hk & Hks & _).
  destruct (IH (λ n, new_id (S n)) db1 Hnd1) as (db' & Hc & Hnd' & Hks' & Hall).
  exists db'. split_and!; [done..|eauto|]. constructor; auto.
Qed.

Lemma create_deliveries_again new_id now job event payload endpoints db :
  NoDup (delivery_keys db) → Forall (λ e, (job, event, we_id e) ∈ delivery_keys db) endpoints →
  create_deliveries new_id now job event payload endpoints db = Some db.
Proof.
  intros Hnd Hall. revert new_id. induction Hall as [|e endpoints Hk _ IH]; intros new_id; [done|]. cbn.
  destruct (create_keyed (new_id 0) now job event payload (we_id e) db Hnd)
    as (db1 & d & -> & _ & _ & _ & Hsame).
  rewrite Hsame by done. apply IH.
Qed.

Lemma create_deliveries_endpoints new_id now job event payload endpoints db db' :
  create_deliveries new_id now job event payload endpoints db = Some db' →
  wb_endpoints db' = wb_endpoints db.
Proof.
  revert new_id db. induction endpoints as [|e endpoints IH]; intros new_id db; cbn; [by intros [= ->]|].
  pose proof (create_delivery_outcome (new_id 0) now (Some (we_id e)) (Some job) event payload None db) as Ho.
  destruct (create_webhook_delivery _ _ _ _ _ _ _ _) as [db1 [d|]]; [|done].
  intros Hc%IH. by destruct Ho as [->|(? & _ & _ & _ & _ & ->)].
Qed.

Lemma handle_job_webhook_ok new_id event_id now job status error duration db db' :
  Inj (=) (=) new_id → (∀ n d, d ∈ wb_deliveries db → wd_id d ≠ new_id n) →
  _handle_job_webhook parse_uuid new_id event_id now job status error duration db = Some db' →
  NoDup (map wd_id (wb_deliveries db)) → Forall (delivery_ok db) (wb_deliveries db) →
  NoDup (map wd_id (wb_deliveries db')) ∧ Forall (delivery_ok db') (wb_deliveries db') ∧
  wb_log db' = wb_log db ∧ ∃ l, wb_deliveries db' = wb_deliveries db ++ l.
Proof.
  intros Hinj Hnew Hj Hids Hrows. unfold _handle_job_webhook in Hj.
  assert (Some db = Some db' → NoDup (map wd_id (wb_deliveries db')) ∧
    Forall (delivery_ok db') (wb_deliveries db') ∧ wb_log db' = wb_log db ∧
    ∃ l, wb_deliveries db' = wb_deliveries db ++ l) as Hsame.
  { intros [= <-]. split_and!; [done..|exists []; by rewrite app_nil_r]. }
  repeat case_match; solve [by apply Hsame | by eapply create_deliveries_ok].
Qed.

(** ** Any number of workers *)

Lemma hands_mono db db' workers :
  (∃ l, wb_log db' = wb_log db ++ l) →
  Forall (λ w, Forall (delivery_ok db) (dw_hand w)) workers →
  Forall (λ w, Forall (delivery_ok db') (dw_hand w)) workers.
Proof.
  intros Hl Hw. eapply Forall_impl; [exact Hw|]. intros w Hd.
  eapply Forall_impl; [exact Hd|]. intros d. by apply delivery_ok_mono.
Qed.

Lemma pending_deliveries_elem now locked db d :
  d ∈ pending_deliveries now locked db → d ∈ wb_deliveries db ∧ due now d = true ∧ wd_id d ∉ locked.
Proof.
  unfold pending_deliveries. intros Hd. apply elem_of_take in Hd as (i & Hi & _).
  apply list_elem_of_lookup_2 in Hi. rewrite elem_of_stable_sort, elem_of_filter_b in Hi.
  destruct Hi as [Hin [? ?%negb_true_iff%bool_decide_eq_false]%andb_true_iff]. done.
Qed.

Lemma get_delivery_row (db : WebhookDB) f d :
  find_first f (wb_deliveries db) = Some d → d ∈ wb_deliveries db.
Proof. by intros [? _]%find_first_Some. Qed.

(** The owners of endpoints leave the deliveries as they are, but for a failed one that is
    to be tried again. *)
Lemma service_step_rows db db' :
  service_step db db' →
  wb_log db' = wb_log db ∧
  (wb_deliveries db' = wb_deliveries db ∨
   ∃ now id, wb_deliveries db' = wb_deliveries (update_delivery id (wd_retry now) db)).
Proof.
  intros [new_id secret now tenant_id url events description created_by db1 e _ Hc
    |id tenant_id url events description is_active db1 e Hc|id tenant_id db1 b Hc|secret id tenant_id
    |now id delivery_id tenant_id db1 d Hc].
  - unfold create_endpoint in Hc. destruct (validate_url _ _); [|done]. cbn in Hc.
    destruct (_validate_events _); [|done]. injection Hc as <- _. split; [done|by left].
  - unfold change_endpoint in Hc. destruct (get_endpoint _ _ _); [|injection Hc as <- _; auto].
    destruct (res_opt _ url); [|done]. cbn in Hc. destruct (res_opt _ events); [|done].
    injection Hc as <- _. split; [done|by left].
  - unfold delete_endpoint in Hc. destruct (get_endpoint _ _ _); [|injection Hc as <- _; auto].
    destruct (existsb _ _); [done|]. injection Hc as <- _. split; [done|by left].
  - unfold rotate_secret. destruct (get_endpoint _ _ _); split; auto.
  - unfold retry_delivery in Hc. destruct (get_endpoint _ _ _); [|injection Hc as <- _; auto].
    destruct (find_first _ _) as [d0|]; [|injection Hc as <- _; auto].
    destruct (wd_status d0); [done|done|]. injection Hc as <- _. split; [done|right; by eexists _, _].
Qed.

Lemma webhook_step_ok x y :
  webhook_step x y → webhooks_ok x.1 x.2 → webhooks_ok y.1 y.2.
Proof.
  intros Hstep [Hids Hrows Hhands].
  destruct Hstep as [db ws i locks now Hi|db ws i l1 d l2 locks resp now Hi|db ws i l1 d l2 locks resp now Hi
    |db ws new_id event_id now job status error duration db' Hinj Hnew Hj|db ws db' Hserv]; cbn [fst snd] in *.
  - split; [done..|]. apply Forall_insert; [done|]. cbn. apply Forall_forall.
    intros d (Hd & _)%pending_deliveries_elem. by eapply Forall_forall in Hrows.
  - pose proof (Forall_lookup_1 _ _ _ _ Hhands Hi) as Hw. cbn in Hw.
    apply Forall_app in Hw as [Hl1 Hl2]. apply Forall_cons in Hl2 as [Hd Hl2].
    destruct (do_delivery_ok resp now true d db Hids Hrows Hd) as (Hids' & Hrows' & Hl).
    split; [done..|]. apply (hands_mono db); [done|]. apply Forall_insert; [done|].
    by apply Forall_app.
  - pose proof (Forall_lookup_1 _ _ _ _ Hhands Hi) as Hw. cbn in Hw.
    apply Forall_app in Hw as [_ Hl2]. apply Forall_cons in Hl2 as [Hd _].
    destruct (do_delivery_ok resp now false d db Hids Hrows Hd) as (Hids' & Hrows' & Hl).
    split; [done..|]. apply (hands_mono db); [done|]. apply Forall_insert; [done|]. constructor.
  - assert (NoDup (map wd_id (wb_deliveries db')) ∧ Forall (delivery_ok db') (wb_deliveries db') ∧
            wb_log db' = wb_log db) as (Hids' & Hrows' & Hl).
    { destruct (handle_job_webhook_ok _ _ _ _ _ _ _ _ _ Hinj Hnew Hj Hids Hrows) as (? & ? & ? & _). done. }
    split; [done..|]. apply (hands_mono db); [|done]. exists []. by rewrite Hl, app_nil_r.
  - destruct (service_step_rows db db' Hserv) as [Hl Hd].
    assert (∃ l, wb_log db' = wb_log db ++ l) as Hl' by (exists []; by rewrite Hl, app_nil_r).
    split; [| |by apply (hands_mono db)].
    + destruct Hd as [-> |(now & id & ->)]; [done|by rewrite update_delivery_ids].
    + destruct Hd as [-> |(now & id & ->)].
      * eapply Forall_impl; [exact Hrows|]. intros r. by apply delivery_ok_mono.
      * eapply (update_delivery_rows _ _ db db); [done|exists []; by rewrite app_nil_r|done|done|].
        intros r [Ha _ _] _. by split.
Qed.

(** ** Every delivery has an endpoint *)

Definition row_ids (db : WebhookDB) : list (UUID * option UUID) :=
  map (λ r, (wd_id r, wd_endpoint_id r)) (wb_deliveries db).
Definition endpoint_ids (db : WebhookDB) : list UUID := map we_id (wb_endpoints db).

Record targets_ok (db : WebhookDB) (workers : list DeliveryWorker) : Prop := {
  to_rows : Forall (λ k, ∃ e, k.2 = Some e ∧ e ∈ endpoint_ids db) (row_ids db);
  to_hands : Forall (λ w, Forall (λ d, (wd_id d, wd_endpoint_id d) ∈ row_ids db) (dw_hand w)) workers;
  to_log : ∀ id error, NoTarget id error ∉ wb_log db;
}.

Lemma update_delivery_row_ids id f db :
  (∀ r, wd_id (f r) = wd_id r ∧ wd_endpoint_id (f r) = wd_endpoint_id r) →
  row_ids (update_delivery id f db) = row_ids db.
Proof.
  intros Hf. unfold row_ids. cbn. rewrite List.map_map. apply List.map_ext. intros r.
  case_bool_decide; [|done]. by destruct (Hf r) as [-> ->].
Qed.

Lemma update_endpoint_ids id f db :
  (∀ e, we_id (f e) = we_id e) → endpoint_ids (update_endpoint id f db) = endpoint_ids db.
Proof.
  intros Hf. unfold endpoint_ids. cbn. rewrite List.map_map. apply List.map_ext. intros e. by case_bool_decide.
Qed.

Lemma record_attempt_endpoints now d endpoint result db :
  endpoint_ids (record_attempt now d endpoint result db) = endpoint_ids db.
Proof.
  unfold record_attempt, _check_auto_disable. destruct result as [[success code] error].
  repeat case_match; try done; subst; by rewrite ?update_endpoint_ids.
Qed.

Lemma endpoint_row_some id db : id ∈ endpoint_ids db → ∃ e, endpoint_row id db = Some e.
Proof.
  intros (e & <- & He)%list_elem_of_In%in_map_iff. unfold endpoint_row.
  destruct (find_first _ _) eqn:Hf; [by eexists|]. rewrite find_first_None in Hf.
  apply list_elem_of_In, Hf in He. by rewrite bool_decide_eq_false in He.
Qed.

(** A delivery with an endpoint is called. *)
Lemma do_delivery_targets responses now committed d db id :
  wd_endpoint_id d = Some id → id ∈ endpoint_ids db →
  let db' := _do_delivery url_error responses now committed d db in
  row_ids db' = row_ids db ∧ endpoint_ids db' = endpoint_ids db ∧
  ∃ url b, wb_log db' = wb_log db ++ [Called (wd_id d) url b].
Proof.
  intros Hd [e He]%endpoint_row_some. cbv zeta. unfold _do_delivery, target. rewrite Hd, He.
  destruct (deliver url_error responses (we_url e) 0) as [[success code] error]. cbn [fst].
  destruct committed; [|by split; [|split; [|eexists _, _]]].
  rewrite record_attempt_endpoints.
  destruct (record_attempt_row now d (Some e) success code error
    (log_event (Called (wd_id d) (we_url e) success) db)) as (st & next & Hrow & Hl & _).
  split_and!; [|done|by rewrite Hl; eexists _, _]. unfold row_ids at 1. rewrite Hrow.
  fold (row_ids (update_delivery (wd_id d) (wd_attempt now code error st next d)
    (log_event (Called (wd_id d) (we_url e) success) db))). by rewrite update_delivery_row_ids.
Qed.

Lemma targets_hand db workers i w d :
  targets_ok db workers → workers !! i = Some w → d ∈ dw_hand w →
  ∃ id, wd_endpoint_id d = Some id ∧ id ∈ endpoint_ids db.
Proof.
  intros [Hrows Hhands _] Hi Hd. pose proof (Forall_lookup_1 _ _ _ _ Hhands Hi) as Hw.
  eapply Forall_forall in Hw; [|exact Hd]. eapply Forall_forall in Hrows; [|exact Hw]. done.
Qed.

Lemma targets_mono db db' workers :
  targets_ok db workers → (∀ k, k ∈ row_ids db → k ∈ row_ids db') →
  Forall (λ k, ∃ e, k.2 = Some e ∧ e ∈ endpoint_ids db') (row_ids db') →
  (∀ id error, NoTarget id error ∉ wb_log db') → targets_ok db' workers.
Proof.
  intros [_ Hhands _] Hk Hrows Hlog. split; [done| |done]. eapply Forall_impl; [exact Hhands|].
  intros w Hw. eapply Forall_impl; [exact Hw|]. intros d. apply Hk.
Qed.

Lemma targets_after_delivery responses now committed d db workers i w :
  targets_ok db workers → workers !! i = Some w → d ∈ dw_hand w →
  targets_ok (_do_delivery url_error responses now committed d db) workers.
Proof.
  intros Hok Hi Hd. destruct (targets_hand _ _ _ _ _ Hok Hi Hd) as (id & Hid & Hin).
  destruct (do_delivery_targets responses now committed d db id Hid Hin) as (Hr & He & url & b & Hl).
  apply (targets_mono db); [done|by rewrite Hr|rewrite Hr, He; apply Hok|].
  intros id' error. rewrite Hl. intros [Hlog|Hlog]%elem_of_app; [by eapply to_log|].
  by apply list_elem_of_singleton in Hlog.
Qed.

Definition all_targeted (db : WebhookDB) : Prop :=
  Forall (λ k : UUID * option UUID, ∃ e, k.2 = Some e ∧ e ∈ endpoint_ids db) (row_ids db).

Lemma create_deliveries_targets new_id now job event payload endpoints db db' :
  create_deliveries new_id now job event payload endpoints db = Some db' →
  Forall (λ e, we_id e ∈ endpoint_ids db) endpoints → all_targeted db →
  all_targeted db' ∧ (∀ k, k ∈ row_ids db → k ∈ row_ids db') ∧ wb_log db' = wb_log db.
Proof.
  revert new_id db. induction endpoints as [|e endpoints IH]; intros new_id db; cbn; [by intros [= ->]|].
  intros Hc [He Hes]%Forall_cons Hall. unfold create_webhook_delivery in Hc.
  destruct (existsb _ _); [destruct (List.filter _ _) as [|? [|? ?]]; by eauto|].
  apply IH in Hc as (Hall' & Hmono & Hl); [|done|].
  - split_and!; [done| |done]. intros k Hk. apply Hmono. unfold row_ids. cbn. rewrite map_app.
    apply elem_of_app. by left.
  - unfold all_targeted, row_ids. cbn. rewrite map_app. apply Forall_app. split; [done|].
    apply Forall_singleton. by eexists.
Qed.

Lemma webhook_endpoints_rows j event db :
  Forall (λ e, we_id e ∈ endpoint_ids db) (webhook_endpoints parse_uuid j event db).
Proof.
  assert (∀ e, e ∈ wb_endpoints db → we_id e ∈ endpoint_ids db) as Hin.
  { intros e He. apply list_elem_of_In, in_map, list_elem_of_In. done. }
  assert (Forall (λ e, we_id e ∈ endpoint_ids db)
    (get_endpoints_for_event (j_tenant_id j) event db)) as Hfor.
  { apply Forall_forall. intros e [He _]%elem_of_filter_b. by apply Hin. }
  unfold webhook_endpoints.
  destruct (dget "elevenlabs_webhook_id" (j_parameters j)) as [[]|]; try done.
  destruct (parse_uuid _); [|done]. destruct (get_endpoint _ _ _) eqn:Hg; [|done].
  apply get_endpoint_tenant in Hg as (? & _). apply Forall_singleton. by apply Hin.
Qed.

Lemma handle_job_webhook_targets new_id event_id now job status error duration db db' :
  _handle_job_webhook parse_uuid new_id event_id now job status error duration db = Some db' →
  all_targeted db →
  all_targeted db' ∧ (∀ k, k ∈ row_ids db → k ∈ row_ids db') ∧ wb_log db' = wb_log db.
Proof.
  intros Hj Hall. unfold _handle_job_webhook in Hj.
  repeat case_match;
    solve [by injection Hj as <- | by eapply create_deliveries_targets; [exact Hj|apply webhook_endpoints_rows|]].
Qed.

Lemma service_step_targets db db' :
  service_step db db' → all_targeted db → all_targeted db' ∧ row_ids db' = row_ids db ∧ wb_log db' = wb_log db.
Proof.
  intros Hserv Hall. destruct (service_step_rows db db' Hserv) as [Hl Hd].
  assert (row_ids db' = row_ids db) as Hr.
  { destruct Hd as [Hd|(now & id & Hd)]; unfold row_ids at 1; rewrite Hd; [done|].
    fold (row_ids (update_delivery id (wd_retry now) db)). by apply update_delivery_row_ids. }
  split_and!; [|done..]. unfold all_targeted. rewrite Hr.
  assert (∀ x, x ∈ row_ids db → (∃ e, x.2 = Some e ∧ e ∈ endpoint_ids db) → ∃ e, x.2 = Some e ∧ e ∈ endpoint_ids db')
    as Hkeep; [|by apply Forall_forall; intros x Hx; apply Hkeep; [|eapply Forall_forall in Hall]].
  clear Hl Hr Hd Hall. intros x Hx (eid & Hx2 & Hin). exists eid. split; [done|].
  destruct Hserv as [new_id secret now tenant_id url events description created_by db1 e _ Hc
    |id tenant_id url events description is_active db1 e Hc|id tenant_id db1 b Hc|secret id tenant_id
    |now id delivery_id tenant_id db1 d Hc].
  - unfold create_endpoint in Hc. destruct (validate_url _ _); [|done]. cbn in Hc.
    destruct (_validate_events _); [|done]. injection Hc as <- _. unfold endpoint_ids. cbn.
    rewrite map_app. apply elem_of_app. by left.
  - unfold change_endpoint in Hc. destruct (get_endpoint _ _ _); [|by injection Hc as <- _].
    destruct (res_opt _ url); [|done]. cbn in Hc. destruct (res_opt _ events); [|done].
    injection Hc as <- _. by rewrite update_endpoint_ids.
  - unfold delete_endpoint in Hc. destruct (get_endpoint _ _ _); [|by injection Hc as <- _].
    destruct (existsb _ _) eqn:He; [done|]. injection Hc as <- _.
    apply list_elem_of_In, in_map_iff in Hin as (e & <- & Hin). apply list_elem_of_In, in_map, list_elem_of_In.
    apply elem_of_filter_b. split; [by apply list_elem_of_In|].
    apply negb_true_iff, bool_decide_eq_false. intros <-.
    apply list_elem_of_In, in_map_iff in Hx as (d & <- & Hd). apply not_true_iff_false in He. apply He.
    apply existsb_exists. exists d. split; [done|]. by apply bool_decide_eq_true.
  - unfold rotate_secret. destruct (get_endpoint _ _ _); [|done]. cbn [fst]. by rewrite update_endpoint_ids.
  - unfold retry_delivery in Hc. destruct (get_endpoint _ _ _); [|by injection Hc as <- _].
    destruct (find_first _ _) as [d0|]; [|by injection Hc as <- _].
    destruct (wd_status d0); [done|done|]. by injection Hc as <- _.
Qed.

Lemma targets_step x y : webhook_step x y → targets_ok x.1 x.2 → targets_ok y.1 y.2.
Proof.
  intros Hstep Hok.
  destruct Hstep as [db ws i locks now Hi|db ws i l1 d l2 locks resp now Hi|db ws i l1 d l2 locks resp now Hi
    |db ws new_id event_id now job status error duration db' _ _ Hj|db ws db' Hserv]; cbn [fst snd] in *.
  - destruct Hok as [Hr Hh Hl]. split; [done| |done]. apply Forall_insert; [done|]. cbn.
    apply Forall_forall. intros d (Hd & _)%pending_deliveries_elem. apply list_elem_of_In, in_map_iff.
    exists d. by rewrite <- list_elem_of_In.
  - destruct (targets_after_delivery resp now true d _ _ _ _ Hok Hi) as [Hr Hh Hl];
      [apply elem_of_app; right; by left|].
    split; [done| |done]. apply Forall_insert; [done|].
    pose proof (Forall_lookup_1 _ _ _ _ Hh Hi) as [Hl1 [_ Hl2]%Forall_cons]%Forall_app. by apply Forall_app.
  - destruct (targets_after_delivery resp now false d _ _ _ _ Hok Hi) as [Hr Hh Hl];
      [apply elem_of_app; right; by left|].
    split; [done| |done]. apply Forall_insert; [done|constructor].
  - destruct (handle_job_webhook_targets _ _ _ _ _ _ _ _ _ Hj (to_rows _ _ Hok)) as (? & ? & Hl).
    apply (targets_mono db); [done..|]. rewrite Hl. apply Hok.
  - destruct (service_step_targets db db' Hserv (to_rows _ _ Hok)) as (? & Hr & Hl).
    apply (targets_mono db); [done|by rewrite Hr|done|]. rewrite Hl. apply Hok.
Qed.


(** The end of a job makes one delivery for each of the job's endpoints, and an event that
    is handled once more, by whichever process, with whatever identifier and time, changes no
    row and is no error. *)
Theorem job_webhook_once new_id event_id now job status error duration db :
  NoDup (delivery_keys db) →
  ∃ db', _handle_job_webhook parse_uuid new_id event_id now job status error duration db = Some db' ∧
    NoDup (delivery_keys db') ∧
    (∀ k, k ∈ delivery_keys db → k ∈ delivery_keys db') ∧
    (∀ j e, job = Some j → dget "elevenlabs_webhook_enabled" (j_parameters j) ≠ Some (JBool false) →
      e ∈ webhook_endpoints parse_uuid j ("transcription." +:+ status) db →
      (j_id j, "transcription." +:+ status, we_id e) ∈ delivery_keys db') ∧
    ∀ new_id' event_id' now' error' duration',
      _handle_job_webhook parse_uuid new_id' event_id' now' job status error' duration' db' = Some db'.
Proof.
  intros Hnd. destruct job as [j|]; [|by exists db].
  assert (dget "elevenlabs_webhook_enabled" (j_parameters j) = Some (JBool false) ∨
          dget "elevenlabs_webhook_enabled" (j_parameters j) ≠ Some (JBool false)) as [Hoff|Hon].
  { destruct (dget _ (j_parameters j)) as [[| [|] | | | | |]|]; try (by left); by right. }
  { exists db. cbn. rewrite Hoff. split_and!; [done|done|done| |done]. by intros ? ? [= <-]. }
  assert (∀ A (a b : A), match dget "elevenlabs_webhook_enabled" (j_parameters j) with
    | Some (JBool false) => a | _ => b end = b) as Hb by (intros; by repeat case_match).
  unfold _handle_job_webhook. rewrite Hb.
  set (event := "transcription." +:+ status). set (payload := build_payload _ _ _ _ _ _ _ _ _).
  destruct (create_deliveries_keyed new_id now (j_id j) event payload
    (webhook_endpoints parse_uuid j event db) db Hnd) as (db' & Hc & Hnd' & Hks & Hall).
  exists db'. split_and!; [done..| |].
  - intros j' e [= <-] _ He. by eapply Forall_forall in Hall.
  - intros new_id' event_id' now' error' duration'. rewrite Hb.
    assert (webhook_endpoints parse_uuid j event db' = webhook_endpoints parse_uuid j event db) as ->.
    { apply create_deliveries_endpoints in Hc. unfold webhook_endpoints, get_endpoint,
        get_endpoints_for_event. by rewrite Hc. }
    by apply create_deliveries_again.
Qed.

(** ** What the lock does not do *)

Lemma do_delivery_keeps responses now committed d d' db :
  wd_id d' ≠ wd_id d → d' ∈ wb_deliveries db →
  d' ∈ wb_deliveries (_do_delivery url_error responses now committed d db).
Proof.
  intros Hne Hd.
  assert (∀ f db0, wb_deliveries db0 = wb_deliveries db →
    d' ∈ wb_deliveries (update_delivery (wd_id d) f db0)) as Hkeep.
  { intros f db0 Heq. cbn. rewrite Heq, list_elem_of_In. apply in_map_iff. exists d'.
    rewrite bool_decide_false by done. by rewrite <- list_elem_of_In. }
  unfold _do_delivery. destruct (target d db) as [error|[url endpoint]].
  - destruct committed; [by apply Hkeep|done].
  - destruct (deliver url_error responses url 0) as [[success code] error]. cbn [fst].
    destruct committed; [|done].
    edestruct record_attempt_row as (st & next & -> & _). by apply Hkeep.
Qed.

(** The rows that a worker has read are locked until its first commit, which is that of the
    first of its deliveries, and not until the last of them: once one is done, another worker's
    poll takes up every row that the first still has to deliver, and both will. *)
Theorem deliveries_overlap workers db i j d d' l responses now now' :
  i ≠ j →
  workers !! i = Some {| dw_hand := d :: l; dw_locks := true |} →
  workers !! j = Some idle_worker →
  d' ∈ l → d' ∈ wb_deliveries db → wd_id d' ≠ wd_id d → due now' d' = true →
  (∀ k w, k ≠ i → workers !! k = Some w → dw_locks w = true → wd_id d' ∉ map wd_id (dw_hand w)) →
  let db' := _do_delivery url_error responses now true d db in
  length (wb_deliveries db') <= MAX_CONCURRENT →
  ∃ workers' wi wj, webhook_steps (db, workers) (db', workers') ∧
    workers' !! i = Some wi ∧ workers' !! j = Some wj ∧ d' ∈ dw_hand wi ∧ d' ∈ dw_hand wj.
Proof.
  intros Hij Hi Hj Hl Hd Hne Hdue Hfree db' Hlen.
  set (ws := <[i := {| dw_hand := l; dw_locks := false |}]> workers).
  set (hand := pending_deliveries now' (locked_rows ws) db').
  exists (<[j := {| dw_hand := hand; dw_locks := true |}]> ws),
    {| dw_hand := l; dw_locks := false |}, {| dw_hand := hand; dw_locks := true |}.
  assert (ws !! j = Some idle_worker) as Hj' by by (unfold ws; rewrite list_lookup_insert_ne).
  split_and!; [| | |done|].
  - eapply rtc_l; [apply (step_deliver db workers i [] d l true responses now Hi)|].
    apply rtc_once. by eapply step_poll.
  - rewrite list_lookup_insert_ne by done. apply list_lookup_insert_eq. by eapply lookup_lt_Some.
  - apply list_lookup_insert_eq. by eapply lookup_lt_Some.
  - cbn. unfold hand, pending_deliveries. rewrite take_ge.
    + apply elem_of_stable_sort, elem_of_filter_b. split; [by apply do_delivery_keeps|].
      rewrite Hdue. apply negb_true_iff, bool_decide_eq_false. unfold locked_rows.
      intros (w & Hw & [k Hk]%list_elem_of_lookup)%list_elem_of_bind.
      destruct (decide (k = i)) as [->|Hki]; unfold ws in Hk.
      * rewrite list_lookup_insert_eq in Hk by (by eapply lookup_lt_Some). injection Hk as <-.
        by apply elem_of_nil in Hw.
      * rewrite list_lookup_insert_ne in Hk by done. destruct (dw_locks w) eqn:Hlw.
        -- by eapply Hfree.
        -- by apply elem_of_nil in Hw.
    + rewrite (Permutation_length (stable_sort_perm _ _)).
      etrans; [apply List.filter_length_le|done].
Qed.
End delivery.

(** ** Examples *)

Module DeliveryDemo.

Definition endpoint : WebhookEndpoint := {|
  we_id := 7%N; we_tenant_id := 1%N; we_url := "https://example.com/hook";
  we_description := None; we_signing_secret := "s";
  we_is_active := true; we_disabled_reason := None; we_consecutive_failures := 0;
  we_last_success_at := None; we_events := ["*"];
  we_created_by_key_id := None; we_created_at := 0 |}.

Definition job (id : UUID) : JobModel := {|
  j_id := id; j_tenant_id := 1; j_status := JCompleted; j_audio_uri := "s3://b/a.wav";
  j_audio_format := None; j_audio_duration := Some (JInt 60); j_audio_sample_rate := None;
  j_audio_channels := None; j_audio_bit_depth := None; j_parameters := [];
  j_error := None; j_started_at := None; j_completed_at := None; j_stats := None;
  j_pii_entities_detected := None; j_pii_redacted_audio_uri := None;
  j_created_at := 0; j_created_by_key_id := None;
  j_retention := 30; j_purge_after := None; j_purged_at := None |}.

Definition checked (url : string) : option string := None.
Definition accepted (n : nat) : post_result := Responded 200.
Definition ids (n : nat) : UUID := (100 + N.of_nat n)%N.
Definition no_uuid (s : string) : option UUID := None.

Definition empty : WebhookDB := {| wb_deliveries := []; wb_endpoints := [endpoint]; wb_log := [] |}.

Definition ended (id : UUID) (ids : nat → UUID) (db : WebhookDB) : WebhookDB :=
  default db (_handle_job_webhook no_uuid ids "evt" 0 (Some (job id)) "completed" None (JInt 60) db).

(** One job has ended; then another, before the worker polls. *)
Definition one : WebhookDB := ended 1 ids empty.
Definition two : WebhookDB := ended 2 (λ n, ids (S n)) one.

Definition row (n : nat) (db : WebhookDB) : WebhookDelivery :=
  nth n (wb_deliveries db) {|
    wd_id := 0; wd_endpoint_id := None; wd_job_id := None; wd_event_type := ""; wd_payload := [];
    wd_url_override := None; wd_status := DPending; wd_attempts := 0; wd_last_attempt_at := None;
    wd_last_status_code := None; wd_last_error := None; wd_next_retry_at := None;
    wd_created_at := 0 |}.

Lemma one_delivered :
  webhook_steps checked no_uuid (empty, [idle_worker])
    (_do_delivery checked accepted 5 true (row 0 one) one, [idle_worker]).
Proof.
  eapply rtc_l.
  { apply (step_job _ _ _ _ ids "evt" 0 (Some (job 1)) "completed" None (JInt 60) one).
    - intros n m Heq. unfold ids in Heq. lia.
    - intros n d Hd. by apply elem_of_nil in Hd.
    - vm_compute. reflexivity. }
  eapply rtc_l; [by apply (step_poll _ _ _ _ 0 false 5)|].
  apply rtc_once.
  by apply (step_deliver checked _ one [{| dw_hand := [row 0 one]; dw_locks := true |}]
    0 [] (row 0 one) [] true accepted 5).
Qed.


Example one_success :
  let d := row 0 (_do_delivery checked accepted 5 true (row 0 one) one) in
  (wd_status d, wd_attempts d) = (DSuccess, 1%Z).
Proof. vm_compute. reflexivity. Qed.

Lemma job_webhook_once_witness :
  ∃ db', _handle_job_webhook no_uuid ids "evt" 0 (Some (job 1)) "completed" None (JInt 60) empty = Some db' ∧
    NoDup (delivery_keys db') ∧
    (∀ k, k ∈ delivery_keys empty → k ∈ delivery_keys db') ∧
    (∀ j e, Some (job 1) = Some j → dget "elevenlabs_webhook_enabled" (j_parameters j) ≠ Some (JBool false) →
      e ∈ webhook_endpoints no_uuid j ("transcription." +:+ "completed") empty →
      (j_id j, "transcription." +:+ "completed", we_id e) ∈ delivery_keys db') ∧
    ∀ new_id' event_id' now' error' duration',
      _handle_job_webhook no_uuid new_id' event_id' now' (Some (job 1)) "completed" error' duration' db' = Some db'.
Proof. apply job_webhook_once. constructor. Defined.

Lemma deliveries_overlap_witness :
  let workers := [{| dw_hand := [row 0 two; row 1 two]; dw_locks := true |}; idle_worker] in
  let db' := _do_delivery checked accepted 5 true (row 0 two) two in
  ∃ workers' wi wj, webhook_steps checked no_uuid (two, workers) (db', workers') ∧
    workers' !! 0 = Some wi ∧ workers' !! 1 = Some wj ∧ row 1 two ∈ dw_hand wi ∧ row 1 two ∈ dw_hand wj.
Proof.
  cbv zeta. eapply (deliveries_overlap checked no_uuid _ two 0 1 (row 0 two) (row 1 two) [row 1 two] accepted 5 6).
  - done.
  - done.
  - done.
  - by apply list_elem_of_singleton.
  - change (wb_deliveries two) with [row 0 two; row 1 two]. right. left.
  - vm_compute. discriminate.
  - vm_compute. reflexivity.
  - intros [|[|k]] w Hk Hw Hl; [done|injection Hw as <-; done|done].
  - apply Nat.leb_le. vm_compute. reflexivity.
Defined.

End DeliveryDemo.

