(* ===== verification/Events.v ===== *)
(** * Events as they travel

    Models the text form of durable events: the payloads of
    [dalston/common/events.py], the fields [add_durable_event] writes, the typed
    envelope that [dalston/common/durable_events.py] parses them into, and the
    routing of [_dispatch_event_dict] in
    [dalston/orchestrator/distributed_main.py]. *)

From S2P Require Import Prelude PyValue Models Catalog Registry Selector Dag Store.

(** ** Texts

    A dictionary of texts, as every payload is once [_json_serializer] has
    rendered its identifiers. *)
Definition text_dict (d : dict json) : Prop :=
  NoDup (dkeys d) ∧ Forall (λ kv, ∃ s, kv.2 = JStr s) d.

(** [json.dumps], [json.loads] (or the text of its error), [UUID(s)] and
    [str(v)]; and the texts of error values. *)
Class EventText := {
  json_dumps : dict json → string;
  json_loads : string → res string json;
  parse_uuid : string → option UUID;
  str_value : json → string;
  render_error : error_text → string;
  loads_dumps : ∀ d, text_dict d → json_loads (json_dumps d) = Ok (JObj d);
  parse_uuid_str : ∀ u, parse_uuid (uuid_str u) = Some u;
  str_value_str : ∀ s, str_value (JStr s) = s;
}.

(** ** Envelopes *)

Record DurableEventEnvelope := {
  ev_message_id : nat;
  ev_delivery_count : nat;
  ev_raw_fields : dict string;
  ev_event_type : option string;
  ev_timestamp : option string;
  ev_payload : option (dict json);
  ev_raw_payload : option string;
  ev_trace_context : option (dict json);
  ev_failure_reason : option string;
  ev_error : option string;
}.

Definition FAILURE_REASON_INVALID_PAYLOAD_JSON : string := "invalid_payload_json".
Definition FAILURE_REASON_INVALID_EVENT_SCHEMA : string := "invalid_event_schema".
Definition FAILURE_REASON_UNKNOWN_EVENT_TYPE : string := "unknown_event_type".
Definition FAILURE_REASON_HANDLER_EXCEPTION : string := "handler_exception".
Definition FAILURE_REASON_DISPATCH_ERROR : string := "dispatch_error".

Definition is_valid (e : DurableEventEnvelope) : bool :=
  match ev_failure_reason e with None => true | Some _ => false end.

Section events.
Context `{T : EventText}.

Definition _parse_trace_context (raw : option string) : option (dict json) :=
  match raw with
  | None => None
  | Some s => match json_loads s with Ok (JObj d) => Some d | _ => None end
  end.

(** The payload of an entry, or the reason it has none. *)
Definition parse_payload (event_type raw_payload : option string)
    : res (string * string) (dict json) :=
  match event_type, raw_payload with
  | None, _ => Raise (FAILURE_REASON_INVALID_EVENT_SCHEMA, "missing_or_invalid_type")
  | Some _, None => Raise (FAILURE_REASON_INVALID_EVENT_SCHEMA, "missing_payload_field")
  | Some _, Some raw =>
      match json_loads raw with
      | Raise error => Raise (FAILURE_REASON_INVALID_PAYLOAD_JSON, error)
      | Ok (JObj d) => Ok d
      | Ok _ => Raise (FAILURE_REASON_INVALID_EVENT_SCHEMA, "payload_must_be_json_object")
      end
  end.

Definition _parse_envelope (message_id : nat) (fields : dict string) (delivery_count : nat)
    : DurableEventEnvelope :=
  let event_type := given (dget "type" fields) in
  let raw_payload := dget "payload" fields in
  let parsed := parse_payload event_type raw_payload in
  {| ev_message_id := message_id; ev_delivery_count := Nat.max delivery_count 1;
     ev_raw_fields := fields; ev_event_type := event_type;
     ev_timestamp := given (dget "timestamp" fields);
     ev_payload := match parsed with Ok d => Some d | Raise _ => None end;
     ev_raw_payload := raw_payload;
     ev_trace_context := _parse_trace_context (dget "_trace_context" fields);
     ev_failure_reason := match parsed with Ok _ => None | Raise (r, _) => Some r end;
     ev_error := match parsed with Ok _ => None | Raise (_, e) => Some e end |}.

(** [{"type": event_type, **payload}], then the timestamp and the trace;
    [None]: the [ValueError] of an envelope that cannot be dispatched. *)
Definition to_event_dict (e : DurableEventEnvelope) : option (dict json) :=
  match ev_failure_reason e, ev_event_type e, ev_payload e with
  | None, Some t, Some payload =>
      let ev := dmerge [("type", JStr t)] payload in
      let ev := match ev_timestamp e with
                   | Some ts => dset "timestamp" (JStr ts) ev | None => ev end in
      Some (match ev_trace_context e with
            | Some ((_ :: _) as trace) => dset "_trace_context" (JObj trace) ev
            | _ => ev
            end)
  | _, _, _ => None
  end.

(** ** Routing *)

Inductive route_error : Type :=
  | EventSchemaError (message : string)
  | UnknownEventTypeError (event_type : string).

Definition _require_uuid_field (ev : dict json) (key : string) : res route_error UUID :=
  match dget key ev with
  | None | Some JNull => Raise (EventSchemaError ("missing_required_field:" +:+ key))
  | Some (JStr s) =>
      match parse_uuid s with
      | Some u => Ok u
      | None => Raise (EventSchemaError ("invalid_uuid_value:" +:+ key))
      end
  | Some _ => Raise (EventSchemaError ("invalid_uuid_field_type:" +:+ key))
  end.

(** [str(event.get("error", default))] *)
Definition event_error (default : string) (ev : dict json) : string :=
  match dget "error" ev with Some v => str_value v | None => default end.

(** The handler an event goes to, with its arguments. *)
Definition route (ev : dict json) : res route_error event :=
  match dget "type" ev with
  | Some (JStr t) =>
      if String.eqb t "" then Raise (EventSchemaError "missing_or_invalid_type")
      else if String.eqb t "job.created" then
        job_id ← _require_uuid_field ev "job_id"; Ok (JobCreated job_id)
      else if String.eqb t "task.started" then
        task_id ← _require_uuid_field ev "task_id"; Ok (TaskStarted task_id)
      else if String.eqb t "task.completed" then
        task_id ← _require_uuid_field ev "task_id"; Ok (TaskCompletedEvent task_id)
      else if String.eqb t "task.failed" then
        task_id ← _require_uuid_field ev "task_id";
        Ok (TaskFailedEvent task_id (event_error "Unknown error" ev))
      else if String.eqb t "task.wait_timeout" then
        task_id ← _require_uuid_field ev "task_id";
        Ok (TaskWaitTimeout task_id (event_error "Engine wait timeout" ev))
      else if String.eqb t "job.completed" then
        job_id ← _require_uuid_field ev "job_id"; Ok (JobCompletedEvent job_id)
      else if String.eqb t "job.failed" then
        job_id ← _require_uuid_field ev "job_id";
        Ok (JobFailedEvent job_id (EText (event_error "Unknown error" ev)))
      else if String.eqb t "job.cancel_requested" then
        job_id ← _require_uuid_field ev "job_id"; Ok (JobCancelRequested job_id)
      else if String.eqb t "job.cancelled" then
        job_id ← _require_uuid_field ev "job_id"; Ok (JobCancelledEvent job_id)
      else Raise (UnknownEventTypeError t)
  | _ => Raise (EventSchemaError "missing_or_invalid_type")
  end.

(** ** What publishers write *)

Definition uuid_json (u : UUID) : json := JStr (uuid_str u).

(** The entries of the payload that name the subject of an event. *)
Definition event_payload (e : event) : dict json :=
  match e with
  | JobCreated j | JobCompletedEvent j | JobCancelRequested j | JobCancelledEvent j =>
      [("job_id", uuid_json j)]
  | JobFailedEvent j error => [("job_id", uuid_json j); ("error", JStr (render_error error))]
  | TaskStarted t | TaskCompletedEvent t => [("task_id", uuid_json t)]
  | TaskFailedEvent t error | TaskWaitTimeout t error =>
      [("task_id", uuid_json t); ("error", JStr error)]
  | EngineNeeded engine_id stage j t language =>
      [("engine_id", JStr engine_id); ("stage", JStr stage); ("job_id", uuid_json j);
       ("task_id", uuid_json t)]
      ++ match language with Some l => [("language", l)] | None => [] end
  end.

(** The fields of the stream entry; [extra] are the other entries of the
    payload and [trace] the tracing field. *)
Definition durable_fields (timestamp : string) (extra : dict json) (trace : option string)
    (e : event) : dict string :=
  [("type", event_type e); ("timestamp", timestamp);
   ("payload", json_dumps (event_payload e ++ extra))]
  ++ match trace with Some t => [("_trace_context", t)] | None => [] end.

(** ** Round trip *)

(** An event as its handler sees it: the error of a failed job is a text. *)
Definition as_received (e : event) : event :=
  match e with
  | JobFailedEvent j error => JobFailedEvent j (EText (render_error error))
  | _ => e
  end.

(** Entries that a publisher may add: texts, under names of their own. *)
Definition extra_ok (e : event) (extra : dict json) : Prop :=
  text_dict (event_payload e ++ extra) ∧ "type" ∉ dkeys extra.

(** What the dispatch reads in the dictionary of an envelope. *)
Lemma to_event_dict_get t ts payload (trace : option (dict json)) k :
  "type" ∉ dkeys payload → NoDup (dkeys payload) → k ≠ "timestamp" → k ≠ "_trace_context" →
  let e := dmerge [("type", JStr t)] payload in
  let e := match ts with Some s => dset "timestamp" (JStr s) e | None => e end in
  dget k (match trace with
          | Some ((_ :: _) as d) => dset "_trace_context" (JObj d) e
          | _ => e
          end) = if String.eqb "type" k then Some (JStr t) else dget k payload.
Proof.
  intros Hty%dget_None_keys Hnd Hts Htr. cbv zeta.
  assert (dget k (dmerge [("type", JStr t)] payload) =
    if String.eqb "type" k then Some (JStr t) else dget k payload) as Hbase.
  { rewrite dget_dmerge by done. cbn [dget].
    destruct (String.eqb_spec "type" k) as [<-|]; [by rewrite Hty|by destruct (dget k payload)]. }
  assert (∀ v (d : dict json), dget k (dset "timestamp" v d) = dget k d) as H1
    by (intros; apply dget_dset_ne; congruence).
  assert (∀ v (d : dict json), dget k (dset "_trace_context" v d) = dget k d) as H2
    by (intros; apply dget_dset_ne; congruence).
  destruct ts, trace as [[|x d]|]; by rewrite ?H2, ?H1.
Qed.

Lemma event_payload_type e : "type" ∉ dkeys (event_payload e).
Proof. apply dget_None_keys. by destruct e as [| | | | | | | | |? ? ? ? [l|]]. Qed.

(** The envelope of a published entry carries its payload. *)
Lemma parse_published i n ts extra trace e :
  text_dict (event_payload e ++ extra) →
  let v := _parse_envelope i (durable_fields ts extra trace e) n in
  ev_failure_reason v = None ∧ ev_event_type v = Some (event_type e) ∧
  ev_payload v = Some (event_payload e ++ extra).
Proof.
  intros Hp v. unfold v, _parse_envelope, durable_fields. cbn [dget app String.eqb Ascii.eqb Bool.eqb].
  assert (given (Some (event_type e)) = Some (event_type e)) as -> by (by destruct e).
  unfold parse_payload. cbn. by rewrite loads_dumps.
Qed.

(** The entries of its payload, as the dispatch of a published event sees them. *)
Lemma published_get i n ts extra trace e :
  extra_ok e extra →
  ∃ ev, to_event_dict (_parse_envelope i (durable_fields ts extra trace e) n) = Some ev ∧
    dget "type" ev = Some (JStr (event_type e)) ∧
    ∀ k, k ∈ ["job_id"; "task_id"; "error"] → is_Some (dget k (event_payload e)) →
      dget k ev = dget k (event_payload e).
Proof.
  intros [Hp Hty].
  destruct (parse_published i n ts extra trace e Hp) as (Hr & Ht & Hl).
  set (v := _parse_envelope _ _ _) in *. unfold to_event_dict. rewrite Hr, Ht, Hl.
  eexists. split; [done|].
  assert ("type" ∉ dkeys (event_payload e ++ extra)) as Hty'.
  { pose proof (event_payload_type e). unfold dkeys in *. rewrite fmap_app. set_solver. }
  pose proof (to_event_dict_get (event_type e) (ev_timestamp v)
    (event_payload e ++ extra) (ev_trace_context v)) as Hget.
  assert (NoDup (dkeys (event_payload e ++ extra))) as Hnd by apply Hp.
  split; [by rewrite Hget|].
  intros k Hk [x Hx]. rewrite Hget by (done || set_solver).
  assert (String.eqb "type" k = false) as ->.
  { apply String.eqb_neq. intros <-. set_solver. }
  by rewrite dget_app, Hx.
Qed.

(** C25: what publishers write is what handlers are called with.  The fields of
    a durable event, whatever texts its publisher adds and whatever the tracing
    field, are parsed into a valid envelope that is routed to the handler of
    the event with the arguments it was published with (the error of a failed
    job as its text); [engine.needed] alone has no handler. *)
Theorem durable_event_roundtrip i n ts extra trace e :
  extra_ok e extra →
  route <$> to_event_dict (_parse_envelope i (durable_fields ts extra trace e) n) =
  Some (match e with
        | EngineNeeded _ _ _ _ _ => Raise (UnknownEventTypeError "engine.needed")
        | _ => Ok (as_received e)
        end).
Proof.
  intros He. destruct (published_get i n ts extra trace e He) as (ev & -> & Ht & Hk).
  cbn [fmap option_fmap option_map]. f_equal. unfold route, _require_uuid_field, event_error.
  rewrite Ht. destruct e; cbn [event_type as_received String.eqb Ascii.eqb Bool.eqb];
    rewrite ?Hk by (set_solver || done); cbn; by rewrite ?parse_uuid_str, ?str_value_str.
Qed.
End events.

(** ** A codec

    An encoding of text dictionaries as JSON texts, with its parser, and the
    parser of the identifiers of this model. *)
Module EventDemo.

Definition quote : ascii := ascii_of_nat 34.
Definition backslash : ascii := ascii_of_nat 92.

(** The characters of a JSON string, up to and with the closing quote, then [k]. *)
Fixpoint quoted (s k : string) : string :=
  match s with
  | "" => String quote k
  | String c s =>
      if Ascii.eqb c quote || Ascii.eqb c backslash
      then String backslash (String c (quoted s k)) else String c (quoted s k)
  end.

Fixpoint unquote (s : string) : option (string * string) :=
  match s with
  | "" => None
  | String c s =>
      if Ascii.eqb c quote then Some ("", s)
      else if Ascii.eqb c backslash then
        match s with
        | "" => None
        | String c s => prod_map (String c) id <$> unquote s
        end
      else prod_map (String c) id <$> unquote s
  end.

Definition text_of (v : json) : string := match v with JStr s => s | _ => "" end.

(** The entries of a dictionary, the first without its opening quote. *)
Fixpoint dump_entries (d : dict json) : string :=
  match d with
  | [] => ""
  | (key, v) :: d =>
      quoted key (String ":" (String quote (quoted (text_of v)
        match d with
        | [] => "}"
        | _ => String "," (String quote (dump_entries d))
        end)))
  end.

Definition dumps (d : dict json) : string :=
  match d with [] => "{}" | _ => String "{" (String quote (dump_entries d)) end.

Fixpoint load_entries (fuel : nat) (s : string) : option (dict json) :=
  match fuel with
  | O => None
  | S fuel =>
      '(key, s) ← unquote s;
      match s with
      | String _ (String _ s) =>
          '(v, s) ← unquote s;
          if String.eqb s "}" then Some [(key, JStr v)]
          else match s with
               | String _ (String _ s) => cons (key, JStr v) <$> load_entries fuel s
               | _ => None
               end
      | _ => None
      end
  end.

Definition loads (s : string) : res string json :=
  if String.eqb s "{}" then Ok (JObj [])
  else match s with
       | String _ (String _ s) =>
           match load_entries (String.length s) s with
           | Some d => Ok (JObj d)
           | None => Raise "Expecting value"
           end
       | _ => Raise "Expecting value"
       end.

Lemma unquote_quoted s k : unquote (quoted s k) = Some (s, k).
Proof.
  induction s as [|c s IH]; [done|]. cbn [quoted].
  destruct (Ascii.eqb c quote) eqn:Hq; [cbn; by rewrite IH|].
  destruct (Ascii.eqb c backslash) eqn:Hb; cbn; [by rewrite IH|]. by rewrite Hq, Hb, IH.
Qed.

Lemma length_quoted s k : String.length k < String.length (quoted s k).
Proof. induction s as [|c s IH]; cbn; [lia|]. case_match; cbn; lia. Qed.

Lemma load_dump d fuel :
  d ≠ [] → Forall (λ kv, ∃ s, kv.2 = JStr s) d → String.length (dump_entries d) ≤ fuel →
  load_entries fuel (dump_entries d) = Some d.
Proof.
  revert fuel. induction d as [|[key v] d IH]; intros fuel Hd Ht Hf; [done|].
  apply Forall_cons in Ht as [[s Hs] Ht]. cbn in Hs; subst v. cbn [dump_entries text_of] in *.
  destruct fuel as [|fuel]; [pose proof (length_quoted key (String ":" (String quote (quoted s
    match d with [] => "}" | _ => String "," (String quote (dump_entries d)) end)))); lia|].
  cbn [load_entries]. rewrite unquote_quoted. cbn [mbind option_bind].
  rewrite unquote_quoted. cbn [mbind option_bind].
  destruct d as [|x d]; [done|]. rewrite IH; [done|done|done|].
  revert Hf. set (e := dump_entries _). intros Hf.
  pose proof (length_quoted key (String ":" (String quote (quoted s (String "," (String quote e)))))).
  pose proof (length_quoted s (String "," (String quote e))). cbn in *. lia.
Qed.

Lemma loads_dumps_demo d : text_dict d → loads (dumps d) = Ok (JObj d).
Proof.
  intros [_ Ht]. unfold loads, dumps. destruct d as [|x d]; [done|].
  cbn [String.eqb Ascii.eqb Bool.eqb]. by rewrite load_dump.
Qed.

(** Decimal digits, after the number [n] of those read. *)
Fixpoint read_digits (n : N) (s : string) : option N :=
  match s with
  | "" => Some n
  | String c s =>
      let d := N_of_ascii c in
      if (48 <=? d)%N && (d <=? 57)%N then read_digits (10 * n + (d - 48))%N s else None
  end.

Definition read_uuid (s : string) : option UUID :=
  if String.eqb s "" then None else read_digits 0 s.

Lemma read_digit n x s :
  (x < 10)%N → read_digits n (String (pretty_N_char x) s) = read_digits (10 * n + x)%N s.
Proof.
  intros Hx.
  assert (x = 0 ∨ x = 1 ∨ x = 2 ∨ x = 3 ∨ x = 4 ∨ x = 5 ∨ x = 6 ∨ x = 7 ∨ x = 8 ∨ x = 9)%N
    as Hd by lia.
  repeat (destruct Hd as [->|Hd]; [done|]). by subst.
Qed.

Lemma read_pretty x s : read_digits 0 (pretty_N_go x s) = read_digits x s.
Proof.
  revert s. induction (N.lt_wf_0 x) as [x _ IH]; intros s.
  destruct (decide (x = 0)%N) as [->|Hx]; [by rewrite pretty_N_go_0|].
  rewrite pretty_N_go_step by lia. rewrite IH by (apply N.div_lt; lia).
  rewrite read_digit by (apply N.mod_lt; lia). f_equal. pose proof (N.div_mod x 10). lia.
Qed.

Lemma read_uuid_str u : read_uuid (uuid_str u) = Some u.
Proof.
  unfold read_uuid, uuid_str. destruct (decide (u = 0)%N) as [->|Hu]; [done|].
  assert (pretty u = pretty_N_go u "") as -> by (unfold pretty, pretty_N; by case_decide).
  destruct (String.eqb_spec (pretty_N_go u "") "") as [He|]; [|apply read_pretty].
  pose proof (read_pretty u "") as Hr. rewrite He in Hr. cbn in Hr. congruence.
Qed.

Definition demo : EventText := {|
  json_dumps := dumps; json_loads := loads; parse_uuid := read_uuid;
  str_value v := match v with JStr s => s | _ => "..." end;
  render_error e := match e with EText s => s | _ => "error" end;
  loads_dumps := loads_dumps_demo; parse_uuid_str := read_uuid_str;
  str_value_str _ := eq_refl |}.
End EventDemo.

Lemma durable_event_roundtrip_witness :
  let e := TaskFailedEvent 101 "out of memory" in
  let extra := [("job_id", JStr "1"); ("engine_id", JStr "faster-whisper")] in
  @extra_ok EventDemo.demo e extra ∧
  @route EventDemo.demo <$> to_event_dict (@_parse_envelope EventDemo.demo 4
    (@durable_fields EventDemo.demo "2026-01-01T00:00:00+00:00" extra (Some "{}") e) 1) =
  Some (Ok e).
Proof.
  cbv zeta. assert (@extra_ok EventDemo.demo (TaskFailedEvent 101 "out of memory")
    [("job_id", JStr "1"); ("engine_id", JStr "faster-whisper")]) as He.
  { split; [split|].
    - apply (bool_decide_unpack _). vm_compute. reflexivity.
    - repeat constructor; eexists; reflexivity.
    - apply (bool_decide_unpack _). vm_compute. reflexivity. }
  split; [exact He|].
  exact (durable_event_roundtrip (T := EventDemo.demo) 4 1 _ _ (Some "{}") _ He).
Defined.
