(* ===== verification/Effects.v ===== *)
(** * The handlers' monad

    State, exceptions and atomic effects over the world of [Store.v]; database
    and Redis primitives; and the two ways handlers are reasoned about: along a
    preorder on worlds ([rel], which composes through any handler, whatever it
    returns and wherever it dies), and by running it. *)

From S2P Require Import Prelude PyValue Models Catalog Registry Selector Dag Store.

Definition M (A : Type) : Type := world → world * res exn A.

#[export] Instance M_ret : MRet M := λ A a w, (w, Ok a).
#[export] Instance M_bind : MBind M := λ A B k m w,
  match m w with
  | (w', Ok a) => k a w'
  | (w', Raise e) => (w', Raise e)
  end.

#[export] Instance M_fmap : FMap M := λ A B f m w,
  match m w with
  | (w', Ok a) => (w', Ok (f a))
  | (w', Raise e) => (w', Raise e)
  end.

Definition raise {A} (e : exn) : M A := λ w, (w, Raise e).
Definition gets {A} (f : world → A) : M A := λ w, (w, Ok (f w)).
Definition modify (f : world → world) : M () := λ w, (f w, Ok ()).

(** [try: m except <the exceptions h accepts>: ...]. *)
Definition catch {A} (m : M A) (h : exn → option (M A)) : M A := λ w,
  match m w with
  | (w', Ok a) => (w', Ok a)
  | (w', Raise e) => match h e with Some m' => m' w' | None => (w', Raise e) end
  end.

(** [except Exception]: everything but the death of the process. *)
Definition except_any {A} (k : exn → M A) (e : exn) : option (M A) :=
  match e with Crash => None | _ => Some (k e) end.

(** [except (EngineUnavailableError, EngineCapabilityError, CatalogValidationError)]. *)
Definition except_engine {A} (k : engine_error → M A) (e : exn) : option (M A) :=
  match e with EngineExn x => Some (k x) | _ => None end.

Definition lift {A} (m : res exn A) : M A := λ w, (w, m).
Definition lift_py {A} (m : res pyexn A) : M A := lift (lift_res PyExn m).

Definition when (b : bool) (m : M ()) : M () := if b then m else mret ().

(** [for x in l: f x] *)
Fixpoint for_each {A} (f : A → M ()) (l : list A) : M () :=
  match l with
  | [] => mret ()
  | x :: l => f x ;; for_each f l
  end.

(** A loop whose body can return from the function: the body says whether to
    go on; the result says whether the loop ran to its end. *)
Fixpoint for_while {A} (f : A → M bool) (l : list A) : M bool :=
  match l with
  | [] => mret true
  | x :: l => go ← f x; if (go : bool) then for_while f l else mret false
  end.

(** ** Atomic effects *)

(** Every external effect uses one unit of the budget; the process dies
    before the effect for which none is left. *)
Definition tick : M () := λ w,
  match w_budget w with
  | Some O => (w, Raise Crash)
  | Some (S n) => (set_budget (Some n) w, Ok ())
  | None => (w, Ok ())
  end.

Definition effect {A} (f : world → world * A) : M A :=
  tick ;; λ w, let '(w', a) := f w in (w', Ok a).
Definition effect_ (f : world → world) : M () := effect (λ w, (f w, ())).

Definition now : M timestamp := gets w_now.

(** ** Database *)

Definition get_job (id : UUID) : M (option JobModel) := gets (λ w, db_jobs (w_db w) !! id).
Definition get_task (id : UUID) : M (option TaskModel) := gets (λ w, db_tasks (w_db w) !! id).

Definition tasks_of (job_id : UUID) (d : Db) : list TaskModel :=
  List.filter (λ t, N.eqb (tm_job_id t) job_id) (map_to_list (db_tasks d)).*2.

(** [select(TaskModel).where(TaskModel.job_id == job_id)]: no [ORDER BY]; the
    model takes the order of identifiers. *)
Definition job_tasks (job_id : UUID) : M (list TaskModel) :=
  gets (λ w, tasks_of job_id (w_db w)).

Definition db_put_job (j : JobModel) (d : Db) : Db := {|
  db_jobs := <[j_id j := j]> (db_jobs d); db_tasks := db_tasks d;
  db_artifacts := db_artifacts d |}.
Definition db_put_task (t : TaskModel) (d : Db) : Db := {|
  db_jobs := db_jobs d; db_tasks := <[tm_id t := t]> (db_tasks d);
  db_artifacts := db_artifacts d |}.
Definition db_put_artifacts (a : gmap UUID ArtifactRow) (d : Db) : Db := {|
  db_jobs := db_jobs d; db_tasks := db_tasks d; db_artifacts := a |}.

Definition modify_db (f : Db → Db) : M () := modify (λ w, set_db (f (w_db w)) w).

(** Assigning to the attributes of a session object. *)
Definition put_job (j : JobModel) : M () := modify_db (db_put_job j).
Definition put_task (t : TaskModel) : M () := modify_db (db_put_task t).

Definition commit : M () := effect_ (λ w, set_disk (w_db w) w).
Definition rollback : M () := modify (λ w, set_db (w_disk w) w).

(** ** Redis setters *)

Definition put_jobs (x : keyspace UUID Z) (r : Redis) : Redis := {|
  r_jobs := x; r_decremented := r_decremented r; r_sessions := r_sessions r;
  r_requests := r_requests r; r_cancelled := r_cancelled r; r_dedupe := r_dedupe r;
  r_streams := r_streams r; r_metadata := r_metadata r; r_waiting := r_waiting r;
  r_enrichments := r_enrichments r; r_artifacts := r_artifacts r;
  r_groups := r_groups r; r_events := r_events r; r_dlq := r_dlq r; r_locks := r_locks r |}.
Definition put_decremented (x : keyspace UUID unit) (r : Redis) : Redis := {|
  r_jobs := r_jobs r; r_decremented := x; r_sessions := r_sessions r;
  r_requests := r_requests r; r_cancelled := r_cancelled r; r_dedupe := r_dedupe r;
  r_streams := r_streams r; r_metadata := r_metadata r; r_waiting := r_waiting r;
  r_enrichments := r_enrichments r; r_artifacts := r_artifacts r;
  r_groups := r_groups r; r_events := r_events r; r_dlq := r_dlq r; r_locks := r_locks r |}.
Definition put_sessions (x : keyspace UUID Z) (r : Redis) : Redis := {|
  r_jobs := r_jobs r; r_decremented := r_decremented r; r_sessions := x;
  r_requests := r_requests r; r_cancelled := r_cancelled r; r_dedupe := r_dedupe r;
  r_streams := r_streams r; r_metadata := r_metadata r; r_waiting := r_waiting r;
  r_enrichments := r_enrichments r; r_artifacts := r_artifacts r;
  r_groups := r_groups r; r_events := r_events r; r_dlq := r_dlq r; r_locks := r_locks r |}.
Definition put_requests (x : keyspace UUID (list window_entry)) (r : Redis) : Redis := {|
  r_jobs := r_jobs r; r_decremented := r_decremented r; r_sessions := r_sessions r;
  r_requests := x; r_cancelled := r_cancelled r; r_dedupe := r_dedupe r;
  r_streams := r_streams r; r_metadata := r_metadata r; r_waiting := r_waiting r;
  r_enrichments := r_enrichments r; r_artifacts := r_artifacts r;
  r_groups := r_groups r; r_events := r_events r; r_dlq := r_dlq r; r_locks := r_locks r |}.
Definition put_cancelled (x : keyspace UUID unit) (r : Redis) : Redis := {|
  r_jobs := r_jobs r; r_decremented := r_decremented r; r_sessions := r_sessions r;
  r_requests := r_requests r; r_cancelled := x; r_dedupe := r_dedupe r;
  r_streams := r_streams r; r_metadata := r_metadata r; r_waiting := r_waiting r;
  r_enrichments := r_enrichments r; r_artifacts := r_artifacts r;
  r_groups := r_groups r; r_events := r_events r; r_dlq := r_dlq r; r_locks := r_locks r |}.
Definition put_dedupe (x : keyspace (UUID * nat) unit) (r : Redis) : Redis := {|
  r_jobs := r_jobs r; r_decremented := r_decremented r; r_sessions := r_sessions r;
  r_requests := r_requests r; r_cancelled := r_cancelled r; r_dedupe := x;
  r_streams := r_streams r; r_metadata := r_metadata r; r_waiting := r_waiting r;
  r_enrichments := r_enrichments r; r_artifacts := r_artifacts r;
  r_groups := r_groups r; r_events := r_events r; r_dlq := r_dlq r; r_locks := r_locks r |}.
Definition put_streams (x : gmap string (list StreamMessage)) (r : Redis) : Redis := {|
  r_jobs := r_jobs r; r_decremented := r_decremented r; r_sessions := r_sessions r;
  r_requests := r_requests r; r_cancelled := r_cancelled r; r_dedupe := r_dedupe r;
  r_streams := x; r_metadata := r_metadata r; r_waiting := r_waiting r;
  r_enrichments := r_enrichments r; r_artifacts := r_artifacts r;
  r_groups := r_groups r; r_events := r_events r; r_dlq := r_dlq r; r_locks := r_locks r |}.
Definition put_metadata (x : keyspace UUID (dict json)) (r : Redis) : Redis := {|
  r_jobs := r_jobs r; r_decremented := r_decremented r; r_sessions := r_sessions r;
  r_requests := r_requests r; r_cancelled := r_cancelled r; r_dedupe := r_dedupe r;
  r_streams := r_streams r; r_metadata := x; r_waiting := r_waiting r;
  r_enrichments := r_enrichments r; r_artifacts := r_artifacts r;
  r_groups := r_groups r; r_events := r_events r; r_dlq := r_dlq r; r_locks := r_locks r |}.
Definition put_waiting (x : gset UUID) (r : Redis) : Redis := {|
  r_jobs := r_jobs r; r_decremented := r_decremented r; r_sessions := r_sessions r;
  r_requests := r_requests r; r_cancelled := r_cancelled r; r_dedupe := r_dedupe r;
  r_streams := r_streams r; r_metadata := r_metadata r; r_waiting := x;
  r_enrichments := r_enrichments r; r_artifacts := r_artifacts r;
  r_groups := r_groups r; r_events := r_events r; r_dlq := r_dlq r; r_locks := r_locks r |}.
Definition put_enrichments (x : keyspace UUID (dict string)) (r : Redis) : Redis := {|
  r_jobs := r_jobs r; r_decremented := r_decremented r; r_sessions := r_sessions r;
  r_requests := r_requests r; r_cancelled := r_cancelled r; r_dedupe := r_dedupe r;
  r_streams := r_streams r; r_metadata := r_metadata r; r_waiting := r_waiting r;
  r_enrichments := x; r_artifacts := r_artifacts r;
  r_groups := r_groups r; r_events := r_events r; r_dlq := r_dlq r; r_locks := r_locks r |}.
Definition put_groups (x : gmap string StreamGroup) (r : Redis) : Redis := {|
  r_jobs := r_jobs r; r_decremented := r_decremented r; r_sessions := r_sessions r;
  r_requests := r_requests r; r_cancelled := r_cancelled r; r_dedupe := r_dedupe r;
  r_streams := r_streams r; r_metadata := r_metadata r; r_waiting := r_waiting r;
  r_enrichments := r_enrichments r; r_artifacts := r_artifacts r;
  r_groups := x; r_events := r_events r; r_dlq := r_dlq r; r_locks := r_locks r |}.
Definition put_events (x : StreamGroup) (r : Redis) : Redis := {|
  r_jobs := r_jobs r; r_decremented := r_decremented r; r_sessions := r_sessions r;
  r_requests := r_requests r; r_cancelled := r_cancelled r; r_dedupe := r_dedupe r;
  r_streams := r_streams r; r_metadata := r_metadata r; r_waiting := r_waiting r;
  r_enrichments := r_enrichments r; r_artifacts := r_artifacts r;
  r_groups := r_groups r; r_events := x; r_dlq := r_dlq r; r_locks := r_locks r |}.
Definition put_dlq (x : list DlqEntry) (r : Redis) : Redis := {|
  r_jobs := r_jobs r; r_decremented := r_decremented r; r_sessions := r_sessions r;
  r_requests := r_requests r; r_cancelled := r_cancelled r; r_dedupe := r_dedupe r;
  r_streams := r_streams r; r_metadata := r_metadata r; r_waiting := r_waiting r;
  r_enrichments := r_enrichments r; r_artifacts := r_artifacts r;
  r_groups := r_groups r; r_events := r_events r; r_dlq := x; r_locks := r_locks r |}.
Definition put_locks (x : keyspace string string) (r : Redis) : Redis := {|
  r_jobs := r_jobs r; r_decremented := r_decremented r; r_sessions := r_sessions r;
  r_requests := r_requests r; r_cancelled := r_cancelled r; r_dedupe := r_dedupe r;
  r_streams := r_streams r; r_metadata := r_metadata r; r_waiting := r_waiting r;
  r_enrichments := r_enrichments r; r_artifacts := r_artifacts r;
  r_groups := r_groups r; r_events := r_events r; r_dlq := r_dlq r; r_locks := x |}.

Definition redis (f : Redis → Redis) : M () := effect_ (λ w, set_redis (f (w_redis w)) w).

(** [SET k v NX EX ttl]: whether the key was set. *)
Definition set_nx {K A} `{Countable K} (now : timestamp) (k : K) (a : A) (ttl : Z)
    (m : keyspace K A) : keyspace K A * bool :=
  match rget now m k with
  | Some _ => (m, false)
  | None => (<[k := (a, Some (now + seconds ttl)%Z)]> m, true)
  end.

(** [DECR k] / [INCR k]: the new value; a missing or expired key counts as 0
    and a live key keeps its expiry. *)
Definition add_counter (now : timestamp) (k : UUID) (n : Z) (m : keyspace UUID Z)
    : keyspace UUID Z * Z :=
  match m !! k with
  | Some (v, e) =>
      if alive now e then (<[k := (v + n, e)%Z]> m, (v + n)%Z) else (<[k := (n, None)]> m, n)
  | None => (<[k := (n, None)]> m, n)
  end.

(** [EXPIRE k ttl] *)
Definition expire {K A} `{Countable K} (now : timestamp) (k : K) (ttl : Z)
    (m : keyspace K A) : keyspace K A :=
  match rget now m k with
  | Some a => <[k := (a, Some (now + seconds ttl)%Z)]> m
  | None => m
  end.

(** [HSET k mapping]: keeps the expiry of a live hash. *)
Definition hset {K V} `{Countable K} (now : timestamp) (k : K) (fields : dict V)
    (m : keyspace K (dict V)) : keyspace K (dict V) :=
  match m !! k with
  | Some (d, e) =>
      if alive now e then <[k := (dmerge d fields, e)]> m
      else <[k := (dmerge [] fields, None)]> m
  | None => <[k := (dmerge [] fields, None)]> m
  end.

(** [HDEL k fields]: a hash without fields is no key. *)
Definition hdel {K V} `{Countable K} (now : timestamp) (k : K) (fields : list string)
    (m : keyspace K (dict V)) : keyspace K (dict V) :=
  match m !! k with
  | Some (d, e) =>
      match alive now e, List.filter (λ '(f, _), negb (mem_str f fields)) d with
      | true, (_ :: _) as d' => <[k := (d', e)]> m
      | _, _ => delete k m
      end
  | None => m
  end.

(** [HGETALL k]: a missing hash reads as the empty dictionary. *)
Definition hgetall {K V} `{Countable K} (now : timestamp) (k : K) (m : keyspace K (dict V))
    : dict V := default [] (rget now m k).

(** ** Publication ([dalston/common/events.py])

    Every event is published; the durable ones are appended to the durable
    stream by a second command. *)
Definition publish_event (e : event) : M () :=
  effect_ (λ w, set_events (w_pubsub w ++ [e]) (w_durable w) w) ;;
  when (mem_str (event_type e) DURABLE_EVENT_TYPES)
    (effect_ (λ w, set_events (w_pubsub w) (w_durable w ++ [e]) w)).

(** ** Running a handler

    The session of a handler is closed when it ends: what it did not commit is
    lost, and the next handler starts from what is on disk. *)
Definition run_handler {A} (m : M A) (w : world) : world * res exn A :=
  let '(w', r) := m w in (set_db (w_disk w') w', r).

(** ** Running an operation that succeeds *)

Lemma bind_ok {A B} (m : M A) (k : A → M B) w w' b :
  (m ≫= k) w = (w', Ok b) ↔ ∃ a w1, m w = (w1, Ok a) ∧ k a w1 = (w', Ok b).
Proof.
  unfold mbind, M_bind. destruct (m w) as [w1 [a|e]]; split.
  - intros H. by exists a, w1.
  - by intros (a' & w2 & [= <- <-] & H).
  - done.
  - by intros (a' & w2 & H & _).
Qed.

(** The next part of a run, when the result of the first is known. *)
Lemma bind_run {A B} (m : M A) (k : A → M B) w w' a :
  m w = (w', Ok a) → (m ≫= k) w = k a w'.
Proof. intros Hm. unfold mbind, M_bind. by rewrite Hm. Qed.

Lemma bind_raise_run {A B} (m : M A) (k : A → M B) w w' e :
  m w = (w', Raise e) → (m ≫= k) w = (w', Raise e).
Proof. intros Hm. unfold mbind, M_bind. by rewrite Hm. Qed.

(** With no crash planned, an effect is its action. *)
Lemma effect_run {A} (f : world → world * A) w :
  w_budget w = None → effect f w = (let '(w', a) := f w in (w', Ok a)).
Proof. intros Hb. unfold effect, mbind, M_bind, tick. by rewrite Hb. Qed.

Lemma redis_run f w :
  w_budget w = None → redis f w = (set_redis (f (w_redis w)) w, Ok ()).
Proof. intros Hb. unfold redis, effect_. by rewrite effect_run. Qed.

Lemma commit_run w : w_budget w = None → commit w = (set_disk (w_db w) w, Ok ()).
Proof. intros Hb. unfold commit, effect_. by rewrite effect_run. Qed.

Lemma publish_run e w :
  w_budget w = None → mem_str (event_type e) DURABLE_EVENT_TYPES = true →
  publish_event e w = (set_events (w_pubsub w ++ [e]) (w_durable w ++ [e]) w, Ok ()).
Proof.
  intros Hb He. unfold publish_event, effect_.
  rewrite (bind_run _ _ w (set_events (w_pubsub w ++ [e]) (w_durable w) w) ())
    by (by rewrite effect_run).
  rewrite He. cbn [when]. by rewrite effect_run.
Qed.

Lemma effect_ok {A} (f : world → world * A) w w' a :
  w_budget w = None → effect f w = (w', Ok a) → f w = (w', a).
Proof. intros Hb. rewrite effect_run by done. destruct (f w). by intros [= -> ->]. Qed.

Lemma redis_ok f w w' u :
  w_budget w = None → redis f w = (w', Ok u) → w' = set_redis (f (w_redis w)) w.
Proof. intros Hb. rewrite redis_run by done. by intros [= <-]. Qed.

Lemma when_ok b m w w' u :
  when b m w = (w', Ok u) → (b = true ∧ m w = (w', Ok ())) ∨ (b = false ∧ w' = w).
Proof. destruct u, b; cbn; [by left|]. intros [= <-]. by right. Qed.

(** Splits a run that succeeded into the runs of its parts. *)
Ltac inv_run :=
  repeat match goal with
  | H : (_ ≫= _) _ = (_, Ok _) |- _ =>
      let a := fresh "a" in let w := fresh "w" in let H1 := fresh "Hr" in let H2 := fresh "Hk" in
      apply bind_ok in H as (a & w & H1 & H2); cbv beta in H2
  | H : gets _ _ = (_, Ok _) |- _ => injection H as <- <-
  | H : mret _ _ = (_, Ok _) |- _ => injection H as <- <-
  | H : raise _ _ = (_, Ok _) |- _ => discriminate H
  end.

(** ** Reasoning along a preorder *)

Definition rel_at (R : world → world → Prop) {A} (w : world) (m : M A) : Prop := R w (m w).1.
Definition rel (R : world → world → Prop) {A} (m : M A) : Prop := ∀ w, rel_at R w m.

Section rel.
Context (R : world → world → Prop) `{!PreOrder R}.

Lemma rel_ret {A} (a : A) : rel R (mret a).
Proof. intros w. unfold rel_at; cbn. reflexivity. Qed.

Lemma rel_raise {A} e : rel R (@raise A e).
Proof. intros w. unfold rel_at; cbn. reflexivity. Qed.

Lemma rel_gets {A} (f : world → A) : rel R (gets f).
Proof. intros w. unfold rel_at; cbn. reflexivity. Qed.

Lemma rel_lift {A} (m : res exn A) : rel R (lift m).
Proof. intros w. unfold rel_at; cbn. reflexivity. Qed.

Lemma rel_bind {A B} (m : M A) (k : A → M B) :
  rel R m → (∀ a, rel R (k a)) → rel R (m ≫= k).
Proof.
  intros Hm Hk w. unfold rel_at, mbind, M_bind. specialize (Hm w). unfold rel_at in Hm.
  destruct (m w) as [w' [a|e]]; [|done]. etrans; [exact Hm|]. apply Hk.
Qed.

Lemma rel_fmap {A B} (f : A → B) (m : M A) : rel R m → rel R (f <$> m).
Proof.
  intros Hm w. specialize (Hm w). unfold rel_at, fmap, M_fmap in *. by destruct (m w) as [w' [|]].
Qed.

Lemma rel_catch {A} (m : M A) h :
  rel R m → (∀ e m', h e = Some m' → rel R m') → rel R (catch m h).
Proof.
  intros Hm Hh w. unfold rel_at, catch. specialize (Hm w). unfold rel_at in Hm.
  destruct (m w) as [w' [a|e]]; [done|]. destruct (h e) as [m'|] eqn:He; [|done].
  etrans; [exact Hm|]. by eapply Hh.
Qed.

Lemma rel_when (b : bool) m : rel R m → rel R (when b m).
Proof. destruct b; [done|]. intros _. apply rel_ret. Qed.

Lemma rel_for_each {A} (f : A → M ()) l : (∀ x, rel R (f x)) → rel R (for_each f l).
Proof.
  intros Hf. induction l as [|x l IH]; cbn; [apply rel_ret|]. apply rel_bind; auto.
Qed.

Lemma rel_for_while {A} (f : A → M bool) l : (∀ x, rel R (f x)) → rel R (for_while f l).
Proof.
  intros Hf. induction l as [|x l IH]; cbn; [apply rel_ret|].
  apply rel_bind; [auto|]. intros []; [done|apply rel_ret].
Qed.

(** Pointwise steps: a read is known, a relational step forgets the state. *)
Lemma rel_at_gets {A B} (f : world → A) (k : A → M B) w :
  rel_at R w (k (f w)) → rel_at R w (gets f ≫= k).
Proof. done. Qed.

Lemma rel_at_bind {A B} (m : M A) (k : A → M B) w :
  rel_at R w m → (∀ a w', m w = (w', Ok a) → rel_at R w' (k a)) → rel_at R w (m ≫= k).
Proof.
  intros Hm Hk. unfold rel_at, mbind, M_bind in *.
  destruct (m w) as [w' [a|e]]; [|done]. etrans; [exact Hm|]. by apply Hk.
Qed.

Lemma rel_at_modify {B} f (k : () → M B) w :
  R w (f w) → rel_at R (f w) (k ()) → rel_at R w (modify f ≫= k).
Proof. intros H1 H2. unfold rel_at in *. cbn. by etrans. Qed.

Lemma rel_at_rel {A} (m : M A) w : rel R m → rel_at R w m.
Proof. auto. Qed.
End rel.

(** An effect is a step of [R] when spending budget is and its action is; where
    there is no budget nothing is spent. *)
Class BudgetFree (R : world → world → Prop) : Prop :=
  budget_free : ∀ w b, (w_budget w = None → b = None) → R w (set_budget b w).

Lemma rel_tick R `{!PreOrder R, !BudgetFree R} : rel R tick.
Proof.
  intros w. unfold rel_at, tick. destruct (w_budget w) as [[|n]|] eqn:Hb; cbn;
    [reflexivity|apply budget_free; congruence|reflexivity].
Qed.

Lemma rel_effect R `{!PreOrder R, !BudgetFree R} {A} (f : world → world * A) :
  (∀ w, R w (f w).1) → rel R (effect f).
Proof.
  intros Hf. unfold effect. apply rel_bind; [done|by apply rel_tick|].
  intros _ w. unfold rel_at. cbn. specialize (Hf w). destruct (f w) as [w' a]. exact Hf.
Qed.

Lemma rel_effect_ R `{!PreOrder R, !BudgetFree R} (f : world → world) :
  (∀ w, R w (f w)) → rel R (effect_ f).
Proof. intros Hf. by apply rel_effect. Qed.

Lemma rel_mono (R R' : world → world → Prop) {A} (m : M A) :
  (∀ w w', R w w' → R' w w') → rel R m → rel R' m.
Proof. intros HR Hm w. apply HR, Hm. Qed.

Lemma rel_run (R : world → world → Prop) {A} (m : M A) w w' r :
  rel R m → m w = (w', r) → R w w'.
Proof. intros Hm Hr. specialize (Hm w). unfold rel_at in Hm. by rewrite Hr in Hm. Qed.

(** An effect that succeeds, with whatever budget is left. *)
Lemma effect_inv {A} (f : world → world * A) w w' a :
  effect f w = (w', Ok a) → ∃ b, f (set_budget b w) = (w', a).
Proof.
  unfold effect, mbind, M_bind, tick. destruct (w_budget w) as [[|n]|] eqn:Hb; [done|..]; cbn.
  - destruct (f _) as [w1 a1] eqn:Hf. intros [= <- <-]. eauto.
  - destruct (f w) as [w1 a1] eqn:Hf. intros [= <- <-]. exists None. rewrite <-Hf. f_equal.
    destruct w; cbn in *; by subst.
Qed.

Lemma rel_redis R `{!PreOrder R, !BudgetFree R} f :
  (∀ w, R w (set_redis (f (w_redis w)) w)) → rel R (redis f).
Proof. intros H. by apply rel_effect_. Qed.

(** An external effect, reduced to what its action does to the world. *)
Ltac effect_step :=
  first [apply rel_redis | apply rel_effect_ | apply rel_effect];
  [typeclasses eauto | typeclasses eauto | intros w].

Create HintDb steps.
#[export] Hint Resolve rel_ret rel_raise rel_gets rel_lift : steps.

(** Goes through a handler's structure, leaving the primitive writes. *)
Ltac steps :=
  repeat first
    [ progress intros
    | solve [eauto with steps typeclass_instances]
    | lazymatch goal with
      | |- rel _ (mbind _ _) => apply rel_bind; [typeclasses eauto| |]
      | |- rel _ (fmap _ _) => apply rel_fmap
      | |- rel _ (when _ _) => apply rel_when; [typeclasses eauto|]
      | |- rel _ (for_each _ _) => apply rel_for_each; [typeclasses eauto|]
      | |- rel _ (for_while _ _) => apply rel_for_while; [typeclasses eauto|]
      | |- rel _ (match _ with _ => _ end) => case_match; simplify_eq
      end ].
