(* ===== verification/RegistryKeys.v ===== *)
(** * The engine registry in Redis

    Models the writing side of [dalston/common/registry.py]: the encoding of a
    record in a hash with a lifetime, the sets that index the instances,
    registration, heartbeats, deregistration and the reads; the heartbeats that
    [engine_sdk/runner.py] and [realtime_sdk/base.py] send; and the clean-up of
    [orchestrator/reconciler.py].  [Registry] filters and sorts what the reads
    yield; the theorems here say when the two views of the registry, the set of all
    instances and the indexes by engine and stage, agree, and when they do not. *)

From S2P Require Import Prelude PyValue Models Catalog Registry Store Effects.

Definition HEARTBEAT_TTL : Z := 60.

(** ** Hashes

    The text of a field, kept as what it was printed from: plain text, [str(n)],
    [json.dumps] of a list of strings, [isoformat()], [model_dump_json()]. *)
Inductive field : Type :=
  | FText (s : string)
  | FInt (z : Z)
  | FStrs (l : list string)
  | FTime (t : timestamp)
  | FCaps (c : EngineCapabilities)
  | FVocab (v : VocabularySupport).

Definition optional {A} (k : string) (f : A → field) (o : option A) : dict field :=
  match o with Some a => [(k, f a)] | None => [] end.

Definition bool_text (b : bool) : field := FText (if b then "true" else "false").

Definition _record_to_mapping (now : timestamp) (r : EngineRecord) : dict field :=
  [("instance", FText (er_instance r)); ("engine_id", FText (er_engine_id r));
   ("stage", FText (er_stage r)); ("status", FText (er_status r));
   ("interfaces", FStrs (er_interfaces r)); ("capacity", FInt (er_capacity r));
   ("active_batch", FInt (er_active_batch r));
   ("active_realtime", FInt (er_active_realtime r));
   ("gpu_memory_used", FText (er_gpu_memory_used r));
   ("gpu_memory_total", FText (er_gpu_memory_total r));
   ("last_heartbeat", FTime (default now (er_last_heartbeat r)));
   ("registered_at", FTime (default now (er_registered_at r)));
   ("supports_word_timestamps", bool_text (er_supports_word_timestamps r));
   ("includes_diarization", bool_text (er_includes_diarization r));
   ("execution_profile", FText (er_execution_profile r));
   ("hostname", FText (er_hostname r)); ("node_id", FText (er_node_id r));
   ("deploy_env", FText (er_deploy_env r))]
  ++ optional "aws_az" FText (er_aws_az r)
  ++ optional "aws_instance_type" FText (er_aws_instance_type r)
  ++ optional "models_loaded" FStrs (er_models_loaded r)
  ++ optional "endpoint" FText (er_endpoint r)
  ++ optional "stream_name" FText (er_stream_name r)
  ++ optional "capabilities" FCaps (er_capabilities r)
  ++ optional "loaded_model" FText (er_loaded_model r)
  ++ optional "vocabulary_support" FVocab (er_vocabulary_support r)
  ++ optional "schema_version" FText (er_schema_version r).

(** Reads of one field; a text that does not parse reads as a missing field. *)
Definition string_of (k : string) (d : dict field) : option string :=
  match dget k d with Some (FText s) => Some s | _ => None end.
Definition int_of (k : string) (d : dict field) : option Z :=
  match dget k d with Some (FInt z) => Some z | _ => None end.
Definition _parse_json_list (k : string) (d : dict field) : option (list string) :=
  match dget k d with Some (FStrs l) => Some l | _ => None end.
Definition _parse_datetime (k : string) (d : dict field) : option timestamp :=
  match dget k d with Some (FTime t) => Some t | _ => None end.

Definition _mapping_to_record (instance : string) (d : dict field) : option EngineRecord :=
  match given (string_of "engine_id" d) with
  | None => None
  | Some engine_id => Some {|
      er_instance := default instance (string_of "instance" d);
      er_engine_id := engine_id;
      er_stage := default "unknown" (string_of "stage" d);
      er_status := default "offline" (string_of "status" d);
      er_interfaces := default ["batch"] (_parse_json_list "interfaces" d);
      er_capacity := default 1%Z (int_of "capacity" d);
      er_active_batch := default 0%Z (int_of "active_batch" d);
      er_active_realtime := default 0%Z (int_of "active_realtime" d);
      er_models_loaded := _parse_json_list "models_loaded" d;
      er_endpoint := string_of "endpoint" d;
      er_last_heartbeat := _parse_datetime "last_heartbeat" d;
      er_capabilities := match dget "capabilities" d with Some (FCaps c) => Some c | _ => None end;
      er_supports_word_timestamps :=
        bool_decide (string_of "supports_word_timestamps" d = Some "true");
      er_includes_diarization := bool_decide (string_of "includes_diarization" d = Some "true");
      er_stream_name := string_of "stream_name" d;
      er_gpu_memory_used := default "0GB" (string_of "gpu_memory_used" d);
      er_gpu_memory_total := default "0GB" (string_of "gpu_memory_total" d);
      er_registered_at := _parse_datetime "registered_at" d;
      er_loaded_model := given (string_of "loaded_model" d);
      er_execution_profile := default "container" (string_of "execution_profile" d);
      er_vocabulary_support :=
        match dget "vocabulary_support" d with Some (FVocab v) => Some v | _ => None end;
      er_schema_version := string_of "schema_version" d;
      er_hostname := default "" (string_of "hostname" d);
      er_node_id := default "" (string_of "node_id" d);
      er_deploy_env := default "local" (string_of "deploy_env" d);
      er_aws_az := string_of "aws_az" d;
      er_aws_instance_type := string_of "aws_instance_type" d |}
  end.

(** ** State

    The keys [dalston:engine:*]. *)
Record RegistryKeys := {
  rk_hashes : keyspace string (dict field);        (* instance:{id} *)
  rk_instances : gset string;                      (* instances *)
  rk_engine_ids : gmap string (gset string);       (* engine_id:{engine_id} *)
  rk_stages : gmap string (gset string);           (* stage:{stage} *)
}.

Definition no_keys : RegistryKeys :=
  {| rk_hashes := ∅; rk_instances := ∅; rk_engine_ids := ∅; rk_stages := ∅ |}.

Definition put_hashes (h : keyspace string (dict field)) (k : RegistryKeys) : RegistryKeys :=
  {| rk_hashes := h; rk_instances := rk_instances k; rk_engine_ids := rk_engine_ids k;
     rk_stages := rk_stages k |}.
Definition put_sets (i : gset string) (e s : gmap string (gset string)) (k : RegistryKeys)
    : RegistryKeys :=
  {| rk_hashes := rk_hashes k; rk_instances := i; rk_engine_ids := e; rk_stages := s |}.

(** [SMEMBERS], [SADD] and [SREM] on a family of sets. *)
Definition members (x : string) (m : gmap string (gset string)) : gset string :=
  default ∅ (m !! x).
Definition sadd (x i : string) (m : gmap string (gset string)) : gmap string (gset string) :=
  <[x := {[i]} ∪ members x m]> m.
Definition srem (x i : string) (m : gmap string (gset string)) : gmap string (gset string) :=
  <[x := members x m ∖ {[i]}]> m.

(** ** Writes *)

Definition write_hash (now : timestamp) (i : string) (d : dict field) (k : RegistryKeys)
    : RegistryKeys :=
  put_hashes (expire now i HEARTBEAT_TTL (hset now i d (rk_hashes k))) k.

Definition register (now : timestamp) (r : EngineRecord) (k : RegistryKeys) : RegistryKeys :=
  let i := er_instance r in
  let k := write_hash now i (_record_to_mapping now r) k in
  put_sets ({[i]} ∪ rk_instances k) (sadd (er_engine_id r) i (rk_engine_ids k))
    (sadd (er_stage r) i (rk_stages k)) k.

(** The keyword arguments of [heartbeat]. *)
Record Heartbeat := {
  hb_status : option string;
  hb_active_batch : option Z;
  hb_active_realtime : option Z;
  hb_loaded_model : option string;
  hb_models_loaded : option (list string);
  hb_gpu_memory_used : option string;
  hb_engine_id : option string;
  hb_stage : option string;
  hb_interfaces : option (list string);
  hb_endpoint : option string;
  hb_capacity : option Z;
  hb_hostname : option string;
  hb_node_id : option string;
  hb_deploy_env : option string;
}.

Definition heartbeat_mapping (now : timestamp) (i : string) (b : Heartbeat) : dict field :=
  [("last_heartbeat", FTime now); ("instance", FText i)]
  ++ optional "status" FText (hb_status b)
  ++ optional "active_batch" FInt (hb_active_batch b)
  ++ optional "active_realtime" FInt (hb_active_realtime b)
  ++ optional "loaded_model" FText (hb_loaded_model b)
  ++ optional "models_loaded" FStrs (hb_models_loaded b)
  ++ optional "gpu_memory_used" FText (hb_gpu_memory_used b)
  ++ optional "engine_id" FText (hb_engine_id b)
  ++ optional "stage" FText (hb_stage b)
  ++ optional "interfaces" FStrs (hb_interfaces b)
  ++ optional "endpoint" FText (hb_endpoint b)
  ++ optional "capacity" FInt (hb_capacity b)
  ++ optional "hostname" FText (hb_hostname b)
  ++ optional "node_id" FText (hb_node_id b)
  ++ optional "deploy_env" FText (hb_deploy_env b).

Definition heartbeat (now : timestamp) (i : string) (b : Heartbeat) (k : RegistryKeys)
    : RegistryKeys := write_hash now i (heartbeat_mapping now i b) k.

(** [if x: await redis.srem(...)] *)
Definition srem_given (o : option string) (i : string) (m : gmap string (gset string))
    : gmap string (gset string) :=
  match given o with Some x => srem x i m | None => m end.

Definition deregister (now : timestamp) (i : string) (k : RegistryKeys) : RegistryKeys :=
  let d := hgetall now i (rk_hashes k) in
  let k := put_hashes (delete i (rk_hashes k)) k in
  put_sets (rk_instances k ∖ {[i]}) (srem_given (string_of "engine_id" d) i (rk_engine_ids k))
    (srem_given (string_of "stage" d) i (rk_stages k)) k.

Definition mark_offline (now : timestamp) (i : string) (k : RegistryKeys) : RegistryKeys :=
  put_hashes (hset now i [("status", FText "offline")] (rk_hashes k)) k.

(** ** Reads *)

Definition get_by_instance (now : timestamp) (k : RegistryKeys) (i : string)
    : option EngineRecord :=
  match hgetall now i (rk_hashes k) with
  | [] => None
  | d => _mapping_to_record i d
  end.

Definition records (now : timestamp) (k : RegistryKeys) (x : gset string) : registry :=
  omap (get_by_instance now k) (elements x).

Definition get_all (now : timestamp) (k : RegistryKeys) : registry :=
  records now k (rk_instances k).
Definition indexed_by_engine_id (now : timestamp) (k : RegistryKeys) (e : string) : registry :=
  records now k (members e (rk_engine_ids k)).
Definition indexed_by_stage (now : timestamp) (k : RegistryKeys) (s : string) : registry :=
  records now k (members s (rk_stages k)).

(** [get_available] on Redis: the candidates come from one of the sets. *)
Definition find_available (now : timestamp) (k : RegistryKeys)
    (stage interface engine_id model : option string)
    (valid_engine_ids : option (list string)) : list EngineRecord :=
  let candidates :=
    match given stage, given engine_id with
    | Some s, _ => indexed_by_stage now k s
    | None, Some e => indexed_by_engine_id now k e
    | None, None => get_all now k
    end in
  stable_sort (avail_before model)
    (List.filter (available_match now interface engine_id model valid_engine_ids) candidates).

(** ** The reconciler's clean-up *)

Definition hash_gone (now : timestamp) (k : RegistryKeys) (i : string) : bool :=
  match hgetall now i (rk_hashes k) with [] => true | _ => false end.

Definition cleanup_one (now : timestamp) (kn : RegistryKeys * nat) (i : string)
    : RegistryKeys * nat :=
  let '(k, n) := kn in
  if hash_gone now k i
  then (put_sets (rk_instances k ∖ {[i]}) (rk_engine_ids k) (rk_stages k) k, S n)
  else (k, n).

Definition _cleanup_stale_engine_entries (now : timestamp) (k : RegistryKeys)
    : RegistryKeys * nat :=
  foldl (cleanup_one now) (k, 0) (elements (rk_instances k)).

(** ** What engines send *)

(** The runner's loop, once: [node] is host name, node id and environment. *)
Definition runner_status (busy supports_realtime : bool) (engine_status : string) : string :=
  if busy then (if supports_realtime then "busy" else "processing")
  else if String.eqb engine_status "idle" && supports_realtime then "ready"
  else engine_status.

Definition runner_heartbeat (engine_id stage : string) (interfaces : list string)
    (node : string * string * string) (gpu : string) (busy supports_realtime : bool)
    (loaded_model : option string) (engine_status : string) : Heartbeat :=
  let '(hostname, node_id, deploy_env) := node in {|
  hb_status := Some (runner_status busy supports_realtime engine_status);
  hb_active_batch := Some (if busy then 1 else 0)%Z; hb_active_realtime := None;
  hb_loaded_model := loaded_model; hb_models_loaded := None; hb_gpu_memory_used := Some gpu;
  hb_engine_id := Some engine_id; hb_stage := Some stage; hb_interfaces := Some interfaces;
  hb_endpoint := None; hb_capacity := None; hb_hostname := Some hostname;
  hb_node_id := Some node_id; hb_deploy_env := Some deploy_env |}.

(** The loop of a realtime engine, once, with the record it registered. *)
Definition realtime_heartbeat (rec : EngineRecord) (node : string * string * string)
    (gpu : string) (active max_sessions : Z) (loaded_models : option (list string)) : Heartbeat :=
  let '(hostname, node_id, deploy_env) := node in {|
  hb_status := Some (if (active <? max_sessions)%Z then "ready" else "busy");
  hb_active_batch := None; hb_active_realtime := Some active; hb_loaded_model := None;
  hb_models_loaded := loaded_models; hb_gpu_memory_used := Some gpu;
  hb_engine_id := Some (er_engine_id rec); hb_stage := Some (er_stage rec);
  hb_interfaces := Some (er_interfaces rec); hb_endpoint := er_endpoint rec;
  hb_capacity := Some (er_capacity rec); hb_hostname := Some hostname;
  hb_node_id := Some node_id; hb_deploy_env := Some deploy_env |}.

(** ** What happens to the registry

    One operation of an engine, of the health monitor or of the reconciler, or the
    passing of time. *)
Inductive registry_op : Type :=
  | Elapse (us : N)
  | Register (r : EngineRecord)
  | Beat (i : string) (b : Heartbeat)
  | Deregister (i : string)
  | Offline (i : string)
  | Cleanup.

Definition do_op (tk : timestamp * RegistryKeys) (o : registry_op) : timestamp * RegistryKeys :=
  let '(t, k) := tk in
  match o with
  | Elapse us => ((t + Z.of_N us)%Z, k)
  | Register r => (t, register t r k)
  | Beat i b => (t, heartbeat t i b k)
  | Deregister i => (t, deregister t i k)
  | Offline i => (t, mark_offline t i k)
  | Cleanup => (t, (_cleanup_stale_engine_entries t k).1)
  end.

Definition do_ops (ops : list registry_op) (tk : timestamp * RegistryKeys)
    : timestamp * RegistryKeys := foldl do_op tk ops.

(** ** Hashes, read and written *)

Lemma dget_optional {A} k k' (f : A → field) o :
  dget k (optional k' f o) = if String.eqb k' k then f <$> o else None.
Proof. destruct o; cbn; [done|by case_match]. Qed.

Lemma dkeys_optional {A} k (f : A → field) o : sublist (dkeys (optional k f o)) [k].
Proof. destruct o; cbn; [done|apply sublist_nil_l]. Qed.

Lemma dkeys_app {A} (d1 d2 : dict A) : dkeys (d1 ++ d2) = dkeys d1 ++ dkeys d2.
Proof. apply fmap_app. Qed.

Ltac key_list :=
  rewrite ?dkeys_app; cbn [dkeys fmap list_fmap fst app];
  repeat first [apply sublist_skip | apply (sublist_app _ [_]) | apply dkeys_optional].

Lemma record_mapping_nodup now r : NoDup (dkeys (_record_to_mapping now r)).
Proof.
  eapply (sublist_NoDup _ ["instance"; "engine_id"; "stage"; "status"; "interfaces"; "capacity";
    "active_batch"; "active_realtime"; "gpu_memory_used"; "gpu_memory_total"; "last_heartbeat";
    "registered_at"; "supports_word_timestamps"; "includes_diarization"; "execution_profile";
    "hostname"; "node_id"; "deploy_env"; "aws_az"; "aws_instance_type"; "models_loaded";
    "endpoint"; "stream_name"; "capabilities"; "loaded_model"; "vocabulary_support";
    "schema_version"]); [compute_done|].
  unfold _record_to_mapping. key_list.
Qed.

Lemma heartbeat_mapping_nodup now i b : NoDup (dkeys (heartbeat_mapping now i b)).
Proof.
  eapply (sublist_NoDup _ ["last_heartbeat"; "instance"; "status"; "active_batch";
    "active_realtime"; "loaded_model"; "models_loaded"; "gpu_memory_used"; "engine_id"; "stage";
    "interfaces"; "endpoint"; "capacity"; "hostname"; "node_id"; "deploy_env"]);
    [compute_done|].
  unfold heartbeat_mapping. key_list.
Qed.

(** A hash once fields were written to it. *)
Lemma field_merged k (d m : dict field) :
  NoDup (dkeys m) →
  dget k (dmerge d m) = match dget k m with Some v => Some v | None => dget k d end.
Proof. apply dget_dmerge. Qed.

Lemma write_hash_get t u i d k :
  (t ≤ u)%Z →
  hgetall u i (rk_hashes (write_hash t i d k)) =
    if (u <? t + seconds HEARTBEAT_TTL)%Z then dmerge (hgetall t i (rk_hashes k)) d else [].
Proof.
  intros Htu. unfold write_hash, hgetall, expire, put_hashes. cbn.
  assert (rget t (hset t i d (rk_hashes k)) i = Some (dmerge (default [] (rget t (rk_hashes k) i)) d))
    as ->.
  { unfold hset, rget. destruct (rk_hashes k !! i) as [[d' e]|] eqn:Hk.
    - destruct (alive t e) eqn:He; rewrite lookup_insert_eq; cbn; by rewrite ?He.
    - by rewrite lookup_insert_eq. }
  unfold rget at 1. rewrite lookup_insert_eq. cbn. by destruct (u <? _)%Z.
Qed.

Lemma write_hash_ne t u i j d k :
  i ≠ j → hgetall u j (rk_hashes (write_hash t i d k)) = hgetall u j (rk_hashes k).
Proof.
  intros Hij. unfold write_hash, hgetall, rget. cbn.
  enough (expire t i HEARTBEAT_TTL (hset t i d (rk_hashes k)) !! j = rk_hashes k !! j) as -> by done.
  unfold expire. case_match; [rewrite lookup_insert_ne by done|]; unfold hset;
    repeat case_match; by rewrite lookup_insert_ne.
Qed.

(** As time passes a hash stays as it is, or is gone. *)
Lemma hgetall_later {V} t u i (m : keyspace string (dict V)) :
  (t ≤ u)%Z → hgetall u i m = hgetall t i m ∨ hgetall u i m = [].
Proof.
  intros Htu. unfold hgetall, rget. destruct (m !! i) as [[d [e|]]|]; cbn; [|by left..].
  destruct (Z.ltb_spec u e); [|by right]. destruct (Z.ltb_spec t e); [by left|lia].
Qed.

(** ** The record that is read back *)

(** What [register] stores of a record: times that are not given are the time of
    the call. *)
Definition stamped (now : timestamp) (r : EngineRecord) : EngineRecord := {|
  er_instance := er_instance r; er_engine_id := er_engine_id r; er_stage := er_stage r;
  er_status := er_status r; er_interfaces := er_interfaces r; er_capacity := er_capacity r;
  er_active_batch := er_active_batch r; er_active_realtime := er_active_realtime r;
  er_models_loaded := er_models_loaded r; er_endpoint := er_endpoint r;
  er_last_heartbeat := Some (default now (er_last_heartbeat r));
  er_capabilities := er_capabilities r;
  er_supports_word_timestamps := er_supports_word_timestamps r;
  er_includes_diarization := er_includes_diarization r; er_stream_name := er_stream_name r;
  er_gpu_memory_used := er_gpu_memory_used r; er_gpu_memory_total := er_gpu_memory_total r;
  er_registered_at := Some (default now (er_registered_at r));
  er_loaded_model := given (er_loaded_model r);
  er_execution_profile := er_execution_profile r;
  er_vocabulary_support := er_vocabulary_support r; er_schema_version := er_schema_version r;
  er_hostname := er_hostname r; er_node_id := er_node_id r; er_deploy_env := er_deploy_env r;
  er_aws_az := er_aws_az r; er_aws_instance_type := er_aws_instance_type r |}.

Lemma given_Some s : s ≠ "" → given (Some s) = Some s.
Proof. intros Hs. cbn. by destruct (String.eqb_spec s ""). Qed.

Ltac read_fields mapping :=
  repeat match goal with
  | |- context [dget ?k ?m] =>
      lazymatch m with context [mapping] => idtac end;
      let H := fresh in
      eassert (dget k m = _) as H
        by (unfold mapping; rewrite ?dget_app, ?dget_optional; cbn; reflexivity);
      rewrite !H; clear H
  end.

(** Encoding and decoding a record. *)
Lemma mapping_roundtrip now i r :
  er_engine_id r ≠ "" →
  _mapping_to_record i (dmerge [] (_record_to_mapping now r)) = Some (stamped now r).
Proof.
  intros He. unfold _mapping_to_record, string_of, int_of, _parse_json_list, _parse_datetime.
  rewrite !field_merged by apply record_mapping_nodup.
  read_fields _record_to_mapping. rewrite given_Some by done. unfold stamped, bool_text.
  f_equal. f_equal;
    match goal with
    | |- context [_ <$> ?o] => by destruct o
    | |- context [if ?b then _ else _] => by destruct b
    end.
Qed.

(** What a heartbeat leaves of a record. *)
Definition beaten (now : timestamp) (i : string) (b : Heartbeat) (r : EngineRecord)
    : EngineRecord := {|
  er_instance := i; er_engine_id := default (er_engine_id r) (hb_engine_id b);
  er_stage := default (er_stage r) (hb_stage b);
  er_status := default (er_status r) (hb_status b);
  er_interfaces := default (er_interfaces r) (hb_interfaces b);
  er_capacity := default (er_capacity r) (hb_capacity b);
  er_active_batch := default (er_active_batch r) (hb_active_batch b);
  er_active_realtime := default (er_active_realtime r) (hb_active_realtime b);
  er_models_loaded :=
    match hb_models_loaded b with Some l => Some l | None => er_models_loaded r end;
  er_endpoint := match hb_endpoint b with Some e => Some e | None => er_endpoint r end;
  er_last_heartbeat := Some now; er_capabilities := er_capabilities r;
  er_supports_word_timestamps := er_supports_word_timestamps r;
  er_includes_diarization := er_includes_diarization r; er_stream_name := er_stream_name r;
  er_gpu_memory_used := default (er_gpu_memory_used r) (hb_gpu_memory_used b);
  er_gpu_memory_total := er_gpu_memory_total r; er_registered_at := er_registered_at r;
  er_loaded_model :=
    match hb_loaded_model b with Some m => given (Some m) | None => er_loaded_model r end;
  er_execution_profile := er_execution_profile r;
  er_vocabulary_support := er_vocabulary_support r; er_schema_version := er_schema_version r;
  er_hostname := default (er_hostname r) (hb_hostname b);
  er_node_id := default (er_node_id r) (hb_node_id b);
  er_deploy_env := default (er_deploy_env r) (hb_deploy_env b);
  er_aws_az := er_aws_az r; er_aws_instance_type := er_aws_instance_type r |}.

Lemma heartbeat_mapping_record now i b d r :
  hb_engine_id b ≠ Some "" → _mapping_to_record i d = Some r →
  _mapping_to_record i (dmerge d (heartbeat_mapping now i b)) = Some (beaten now i b r).
Proof.
  intros He. unfold _mapping_to_record, string_of, int_of, _parse_json_list, _parse_datetime.
  rewrite !field_merged by apply heartbeat_mapping_nodup.
  read_fields heartbeat_mapping. unfold beaten.
  destruct (hb_engine_id b) as [e|]; cbn [fmap option_fmap option_map];
    [rewrite (given_Some e) by congruence|];
    destruct (given (match dget "engine_id" d with Some _ => _ | None => _ end)) as [e'|]; intros [=<-]; f_equal; f_equal; cbn -[given];
    match goal with
    | |- context [_ <$> ?o] => by destruct o
    | |- _ => idtac
    end.
Qed.

(** The record of an instance that nothing but a heartbeat describes. *)
Definition blank (i engine_id : string) : EngineRecord :=
  new_record i engine_id "unknown" "offline" ["batch"] 1 None None None.

Lemma heartbeat_mapping_blank now i b e :
  hb_engine_id b = Some e → e ≠ "" →
  _mapping_to_record i (dmerge [] (heartbeat_mapping now i b)) = Some (beaten now i b (blank i e)).
Proof.
  intros He Hn. unfold _mapping_to_record, string_of, int_of, _parse_json_list, _parse_datetime.
  rewrite !field_merged by apply heartbeat_mapping_nodup.
  read_fields heartbeat_mapping. unfold beaten. rewrite He. cbn [fmap option_fmap option_map].
  rewrite given_Some by done. f_equal. f_equal; cbn -[given];
    match goal with
    | |- context [_ <$> ?o] => by destruct o
    | |- _ => idtac
    end.
Qed.

Lemma get_by_instance_hash t k i :
  get_by_instance t k i =
    match hgetall t i (rk_hashes k) with [] => None | d => _mapping_to_record i d end.
Proof. done. Qed.

Lemma dmerge_cons_nonempty {A} (d : dict A) kv m : dmerge d (kv :: m) ≠ [].
Proof.
  unfold dmerge. revert d kv. induction m as [|kv' m IH]; intros d [k v]; cbn.
  - by destruct d as [|[k' w] d]; cbn; [|case_match].
  - apply IH.
Qed.

Lemma read_hash t k i d :
  hgetall t i (rk_hashes k) = d → d ≠ [] → get_by_instance t k i = _mapping_to_record i d.
Proof. unfold get_by_instance. intros -> Hd. by destruct d. Qed.

(** A registration is read back for a minute, and then no more. *)
Lemma register_read t u r k :
  er_engine_id r ≠ "" → hash_gone t k (er_instance r) = true → (t ≤ u)%Z →
  get_by_instance u (register t r k) (er_instance r) =
    if (u <? t + seconds HEARTBEAT_TTL)%Z then Some (stamped t r) else None.
Proof.
  intros He Hg Htu.
  pose proof (write_hash_get t u (er_instance r) (_record_to_mapping t r) k Htu) as Hh.
  unfold hash_gone in Hg. destruct (hgetall t (er_instance r) (rk_hashes k)); [|done].
  unfold get_by_instance, register. cbn [rk_hashes put_sets]. rewrite Hh. clear Hh.
  destruct (u <? _)%Z; [|done]. rewrite <-(mapping_roundtrip t (er_instance r)) by done.
  by destruct (dmerge [] _) eqn:Hd; [apply dmerge_cons_nonempty in Hd|].
Qed.

Lemma heartbeat_read t u i b k :
  hb_engine_id b ≠ Some "" → (t ≤ u)%Z → (u < t + seconds HEARTBEAT_TTL)%Z →
  (∀ r, get_by_instance t k i = Some r →
     get_by_instance u (heartbeat t i b k) i = Some (beaten t i b r)) ∧
  (∀ e, hash_gone t k i = true → hb_engine_id b = Some e →
     get_by_instance u (heartbeat t i b k) i = Some (beaten t i b (blank i e))).
Proof.
  intros Hb Htu Hu%Z.ltb_lt.
  pose proof (write_hash_get t u i (heartbeat_mapping t i b) k Htu) as Hh. rewrite Hu in Hh.
  apply (read_hash u (heartbeat t i b k)) in Hh; [|apply dmerge_cons_nonempty]. rewrite Hh.
  unfold get_by_instance, hash_gone.
  split; intros x; destruct (hgetall t i (rk_hashes k)) as [|kv d]; try done.
  - by apply heartbeat_mapping_record.
  - intros _ He. apply heartbeat_mapping_blank; [done|congruence].
Qed.

Lemma runner_heartbeat_ids e s ifs node gpu busy rt lm st :
  hb_engine_id (runner_heartbeat e s ifs node gpu busy rt lm st) = Some e ∧
  hb_stage (runner_heartbeat e s ifs node gpu busy rt lm st) = Some s.
Proof. by destruct node as [[] ?]. Qed.

Lemma realtime_heartbeat_ids r node gpu n m lm :
  hb_engine_id (realtime_heartbeat r node gpu n m lm) = Some (er_engine_id r) ∧
  hb_stage (realtime_heartbeat r node gpu n m lm) = Some (er_stage r).
Proof. by destruct node as [[] ?]. Qed.

(** ** Sets *)

Lemma members_sadd x y i m :
  members y (sadd x i m) = if decide (x = y) then {[i]} ∪ members x m else members y m.
Proof.
  unfold sadd, members. destruct (decide (x = y)) as [<-|].
  - by rewrite lookup_insert_eq.
  - by rewrite lookup_insert_ne.
Qed.

Lemma elem_members_srem x y i j m :
  j ∈ members y (srem x i m) ↔ j ∈ members y m ∧ (x = y → j ≠ i).
Proof.
  unfold srem, members. destruct (decide (x = y)) as [<-|].
  - rewrite lookup_insert_eq. cbn. set_solver.
  - rewrite lookup_insert_ne by done. naive_solver.
Qed.

Lemma elem_srem_given (o : option string) (y i j : string) m :
  j ∈ members y (srem_given o i m) ↔ j ∈ members y m ∧ (o = Some y → y ≠ "" → j ≠ i).
Proof.
  unfold srem_given, given. destruct o as [x|]; [|naive_solver].
  destruct (String.eqb_spec x "") as [->|]; [naive_solver|].
  rewrite elem_members_srem. naive_solver.
Qed.

(** ** The clean-up *)

Definition sets_kept (k k' : RegistryKeys) : Prop :=
  rk_hashes k' = rk_hashes k ∧ rk_engine_ids k' = rk_engine_ids k ∧ rk_stages k' = rk_stages k.

#[export] Instance sets_kept_preorder : PreOrder sets_kept.
Proof. split; [by intros k|]. intros k1 k2 k3 (? & ? & ?) (? & ? & ?). split_and!; congruence. Qed.

Lemma cleanup_one_spec t kn i :
  sets_kept kn.1 (cleanup_one t kn i).1 ∧
  rk_instances (cleanup_one t kn i).1 =
    (if hash_gone t kn.1 i then rk_instances kn.1 ∖ {[i]} else rk_instances kn.1) ∧
  (cleanup_one t kn i).2 = kn.2 + length (List.filter (hash_gone t kn.1) [i]).
Proof.
  destruct kn as [k n]. unfold cleanup_one, sets_kept.
  cbn [fst snd List.filter]. destruct (hash_gone t k i); cbn; split_and!; done || lia.
Qed.

Lemma sets_kept_gone t k k' i : sets_kept k k' → hash_gone t k' i = hash_gone t k i.
Proof. intros (Hh & _). unfold hash_gone. by rewrite Hh. Qed.

Lemma cleanup_fold t l kn :
  let k := kn.1 in let kn' := foldl (cleanup_one t) kn l in
  sets_kept k kn'.1 ∧
  (∀ i, i ∈ rk_instances kn'.1 ↔ i ∈ rk_instances k ∧ (i ∈ l → hash_gone t k i = false)) ∧
  kn'.2 = kn.2 + length (List.filter (hash_gone t k) l).
Proof.
  revert kn. induction l as [|i l IH]; intros kn; cbn [foldl]; cbv zeta.
  { split_and!; [by split_and!| |cbn; lia]. set_solver. }
  destruct (cleanup_one_spec t kn i) as (Hs & Hi & Hn). destruct (IH (cleanup_one t kn i)) as (Hs' & Hi' & Hn').
  pose proof (λ j, sets_kept_gone t _ _ j Hs) as Hg.
  split_and!.
  - by transitivity (cleanup_one t kn i).1.
  - intros j. rewrite Hi', Hi, Hg, elem_of_cons.
    destruct (decide (j = i)) as [->|Hji];
      (destruct (hash_gone t kn.1 i); [rewrite elem_of_difference, elem_of_singleton|]);
      intuition congruence.
  - rewrite Hn', Hn. rewrite (filter_ext _ (hash_gone t kn.1) Hg). cbn.
    destruct (hash_gone t kn.1 i); cbn; lia.
Qed.

(** The clean-up takes the instances without a hash out of the set of all instances,
    and counts them; the indexes by engine and stage stay as they are. *)
Lemma cleanup_spec t k :
  sets_kept k (_cleanup_stale_engine_entries t k).1 ∧
  (∀ i, i ∈ rk_instances (_cleanup_stale_engine_entries t k).1 ↔
     i ∈ rk_instances k ∧ hash_gone t k i = false) ∧
  (_cleanup_stale_engine_entries t k).2 =
    length (List.filter (hash_gone t k) (elements (rk_instances k))).
Proof.
  destruct (cleanup_fold t (elements (rk_instances k)) (k, 0)) as (Hs & Hi & Hn).
  split_and!; [done| |done]. intros i. rewrite (Hi i), elem_of_elements. naive_solver.
Qed.

Lemma hset_get {V} t i j (d : dict V) (m : keyspace string (dict V)) :
  hgetall t j (hset t i d m) = if decide (i = j) then dmerge (hgetall t i m) d else hgetall t j m.
Proof.
  unfold hset, hgetall, rget. destruct (decide (i = j)) as [<-|].
  - destruct (m !! i) as [[d' e]|]; [destruct (alive t e) eqn:He|]; rewrite lookup_insert_eq;
      cbn; by rewrite ?He.
  - repeat case_match; rewrite lookup_insert_ne in * by done; congruence.
Qed.

Lemma write_hash_now t i j d k :
  hgetall t j (rk_hashes (write_hash t i d k)) =
    if decide (i = j) then dmerge (hgetall t i (rk_hashes k)) d else hgetall t j (rk_hashes k).
Proof.
  destruct (decide (i = j)) as [<-|]; [|by apply write_hash_ne].
  rewrite write_hash_get by lia. by rewrite (proj2 (Z.ltb_lt _ _)) by (unfold seconds, HEARTBEAT_TTL; lia).
Qed.

(** ** Instances with a fixed identity

    An instance has the engine id and the stage of the process that drew its name. *)
Section identity.
Context (identity : string → string * string).

Definition identified (o : registry_op) : Prop :=
  match o with
  | Register r => identity (er_instance r) = (er_engine_id r, er_stage r)
  | Beat i b => hb_engine_id b = Some (identity i).1 ∧ hb_stage b = Some (identity i).2
  | _ => True
  end.

Definition hash_ok (i : string) (d : dict field) : Prop :=
  (∀ v, dget "instance" d = Some v → v = FText i) ∧
  (∀ v, dget "stage" d = Some v → v = FText (identity i).2) ∧
  (∀ v, dget "engine_id" d = Some v →
     v = FText (identity i).1 ∧ dget "stage" d = Some (FText (identity i).2)).

Record keys_ok (t : timestamp) (k : RegistryKeys) : Prop := {
  ok_hashes i : hash_ok i (hgetall t i (rk_hashes k));
  ok_engine_ids e i : i ∈ members e (rk_engine_ids k) → (identity i).1 = e;
  ok_stages s i : i ∈ members s (rk_stages k) → (identity i).2 = s;
  ok_indexed i : i ∈ rk_instances k →
    i ∈ members (identity i).1 (rk_engine_ids k) ∧ i ∈ members (identity i).2 (rk_stages k);
}.

Lemma hash_ok_nil i : hash_ok i [].
Proof. by split_and!. Qed.

Lemma hash_ok_merge i d m :
  NoDup (dkeys m) → hash_ok i d →
  dget "instance" m = Some (FText i) → dget "engine_id" m = Some (FText (identity i).1) →
  dget "stage" m = Some (FText (identity i).2) → hash_ok i (dmerge d m).
Proof.
  intros Hm Hd Hi He Hs. unfold hash_ok. rewrite !field_merged, Hi, He, Hs by done.
  split_and!; intros ? [= <-]; [done..|]. by split.
Qed.

Lemma hash_ok_offline i d : hash_ok i d → hash_ok i (dmerge d [("status", FText "offline")]).
Proof.
  unfold hash_ok. rewrite !field_merged by compute_done. done.
Qed.

Lemma hashes_ok_write t i d k :
  (∀ j, hash_ok j (hgetall t j (rk_hashes k))) →
  hash_ok i (dmerge (hgetall t i (rk_hashes k)) d) →
  ∀ j, hash_ok j (hgetall t j (rk_hashes (write_hash t i d k))).
Proof. intros Hk Hd j. rewrite write_hash_now. by destruct (decide (i = j)) as [<-|]. Qed.

Lemma register_ok t r k :
  identity (er_instance r) = (er_engine_id r, er_stage r) →
  keys_ok t k → keys_ok t (register t r k).
Proof.
  intros Hid [Hh He Hs Hi]. split; cbn.
  - apply hashes_ok_write; [done|]. apply hash_ok_merge; rewrite ?Hid; try done.
    apply record_mapping_nodup.
  - intros e i. rewrite members_sadd. case_decide; [|apply He]. subst.
    rewrite elem_of_union, elem_of_singleton. intros [->|?]; [by rewrite Hid|by apply He].
  - intros s i. rewrite members_sadd. case_decide; [|apply Hs]. subst.
    rewrite elem_of_union, elem_of_singleton. intros [->|?]; [by rewrite Hid|by apply Hs].
  - intros i. rewrite !members_sadd, elem_of_union, elem_of_singleton. intros [->|Hin].
    + rewrite Hid. cbn. rewrite !decide_True by done.
      split; apply elem_of_union; left; by apply elem_of_singleton.
    + apply Hi in Hin as [He1 Hs1]. split; destruct (decide _) as [Hd|]; try done;
        apply elem_of_union; right; by rewrite Hd.
Qed.

Lemma beat_ok t i b k :
  hb_engine_id b = Some (identity i).1 → hb_stage b = Some (identity i).2 →
  keys_ok t k → keys_ok t (heartbeat t i b k).
Proof.
  intros Hb1 Hb2 [Hh He Hs Hi]. split; [|done..].
  unfold heartbeat. apply hashes_ok_write; [done|]. apply hash_ok_merge; [apply heartbeat_mapping_nodup|done|done|..];
    read_fields heartbeat_mapping; by rewrite ?Hb1, ?Hb2.
Qed.

Lemma hgetall_delete {V} t i j (m : keyspace string (dict V)) :
  hgetall t j (delete i m) = if decide (i = j) then [] else hgetall t j m.
Proof.
  unfold hgetall, rget. destruct (decide (i = j)) as [<-|].
  - by rewrite lookup_delete_eq.
  - by rewrite lookup_delete_ne.
Qed.

Lemma deregister_ok t i k : keys_ok t k → keys_ok t (deregister t i k).
Proof.
  intros [Hh He Hs Hi]. split; cbn.
  - intros j. rewrite hgetall_delete. case_decide; [apply hash_ok_nil|done].
  - intros e j. rewrite elem_srem_given. intros [? _]. by apply He.
  - intros s j. rewrite elem_srem_given. intros [? _]. by apply Hs.
  - intros j. rewrite elem_of_difference, elem_of_singleton, !elem_srem_given.
    intros [Hj ?]. apply Hi in Hj as [? ?]. done.
Qed.

Lemma do_op_ok t k o :
  identified o → keys_ok t k → keys_ok (do_op (t, k) o).1 (do_op (t, k) o).2.
Proof.
  destruct o as [us|r|i b|i|i|]; cbn.
  - intros _ [Hh He Hs Hi]. split; [|done..]. intros i.
    destruct (hgetall_later t (t + Z.of_N us) i (rk_hashes k)) as [->| ->];
      [lia|done|apply hash_ok_nil].
  - apply register_ok.
  - intros []. by apply beat_ok.
  - intros _. apply deregister_ok.
  - intros _ [Hh He Hs Hi]. split; cbn; [|done..]. intros j. rewrite hset_get.
    case_decide; subst; [by apply hash_ok_offline|done].
  - intros _ [Hh He Hs Hi]. destruct (cleanup_spec t k) as ((Hh' & He' & Hs') & Hi' & _).
    split; rewrite ?Hh', ?He', ?Hs'; [done..|]. intros i [? _]%Hi'. by apply Hi.
Qed.

Lemma do_ops_ok ops t k :
  Forall identified ops → keys_ok t k →
  keys_ok (do_ops ops (t, k)).1 (do_ops ops (t, k)).2.
Proof.
  unfold do_ops. revert t k. induction ops as [|o ops IH]; intros t k Ho Hk; [done|].
  apply Forall_cons in Ho as [Ho Hops]. apply (do_op_ok _ _ o) in Hk; [|done].
  cbn [foldl]. destruct (do_op (t, k) o) as [t' k']. by apply IH.
Qed.

Lemma no_keys_ok t : keys_ok t no_keys.
Proof. split; cbn; [intros; apply hash_ok_nil|set_solver..]. Qed.

(** A record that is read has the identity of its instance. *)
Lemma read_identity t k i r :
  keys_ok t k → get_by_instance t k i = Some r →
  er_instance r = i ∧ er_engine_id r = (identity i).1 ∧ er_stage r = (identity i).2.
Proof.
  intros Hk Hr. destruct (ok_hashes _ _ Hk i) as (Hi & Hs & He).
  assert (_mapping_to_record i (hgetall t i (rk_hashes k)) = Some r) as Hm.
  { rewrite <-Hr. unfold get_by_instance in *. by destruct (hgetall t i (rk_hashes k)). }
  clear Hr. revert Hm. generalize dependent (hgetall t i (rk_hashes k)). intros d Hi Hs He.
  unfold _mapping_to_record, string_of.
  destruct (dget "engine_id" d) as [v|]; [|done].
  destruct (He v eq_refl) as [-> Hst]. rewrite Hst. cbn [given].
  destruct (String.eqb_spec (identity i).1 ""); [done|]. intros [= <-]. cbn.
  split_and!; [|done..]. destruct (dget "instance" d) as [v|]; [|done].
  by rewrite (Hi v eq_refl).
Qed.

(** ** The two views of the registry *)

Lemma elem_records t k x r :
  r ∈ records t k x ↔ ∃ i, i ∈ x ∧ get_by_instance t k i = Some r.
Proof.
  unfold records. rewrite list_elem_of_omap. by setoid_rewrite elem_of_elements.
Qed.

Lemma records_nodup t k x : keys_ok t k → NoDup (records t k x).
Proof.
  intros Hk. unfold records. pose proof (NoDup_elements x) as Hx.
  induction Hx as [|i l Hi Hl IH]; cbn; [constructor|].
  destruct (get_by_instance t k i) as [r|] eqn:Hr; [|done]. constructor; [|done].
  intros (j & Hj & Hr')%list_elem_of_omap.
  apply read_identity in Hr as [Hri _], Hr' as [Hrj _]; [|done..]. congruence.
Qed.

(** Every live hash is of an instance of the set of all instances. *)
Definition none_forgotten (t : timestamp) (k : RegistryKeys) : Prop :=
  ∀ i r, get_by_instance t k i = Some r → i ∈ rk_instances k.

Definition candidates (t : timestamp) (k : RegistryKeys) (stage engine_id : option string)
    : registry :=
  match given stage, given engine_id with
  | Some s, _ => indexed_by_stage t k s
  | None, Some e => indexed_by_engine_id t k e
  | None, None => get_all t k
  end.

Definition view_candidates (reg : registry) (stage engine_id : option string) : registry :=
  match given stage, given engine_id with
  | Some s, _ => get_by_stage reg s
  | None, Some e => get_by_engine_id reg e
  | None, None => reg
  end.

Lemma elem_candidates t k stage engine_id r :
  keys_ok t k →
  (r ∈ view_candidates (get_all t k) stage engine_id → r ∈ candidates t k stage engine_id) ∧
  (none_forgotten t k →
   r ∈ candidates t k stage engine_id → r ∈ view_candidates (get_all t k) stage engine_id).
Proof.
  intros Hk. unfold candidates, view_candidates, indexed_by_stage, indexed_by_engine_id.
  destruct (given stage) as [s|]; [|destruct (given engine_id) as [e|]; [|done]];
    rewrite ?get_by_stage_spec, ?get_by_engine_id_spec; unfold get_all; rewrite !elem_records; split.
  - intros [(i & Hi & Hr) Hs]. exists i. split; [|done].
    apply (ok_indexed _ _ Hk) in Hi as [_ Hi]. apply read_identity in Hr as (_ & _ & Hst); [|done].
    by rewrite <-Hs, Hst.
  - intros Hn (i & Hi & Hr). split; [exists i; split; [by eapply Hn|done]|].
    apply (ok_stages _ _ Hk) in Hi. by apply read_identity in Hr as (_ & _ & ->).
  - intros [(i & Hi & Hr) Hs]. exists i. split; [|done].
    apply (ok_indexed _ _ Hk) in Hi as [Hi _]. apply read_identity in Hr as (_ & He & _); [|done].
    by rewrite <-Hs, He.
  - intros Hn (i & Hi & Hr). split; [exists i; split; [by eapply Hn|done]|].
    apply (ok_engine_ids _ _ Hk) in Hi. by apply read_identity in Hr as (_ & -> & _).
Qed.

Lemma both_candidates_nodup t k stage engine_id :
  keys_ok t k →
  NoDup (candidates t k stage engine_id) ∧
  NoDup (view_candidates (get_all t k) stage engine_id).
Proof.
  intros Hk. unfold candidates, view_candidates. repeat case_match; split;
    try apply records_nodup; try done; apply NoDup_filter_b, records_nodup, Hk.
Qed.
End identity.

(** A heartbeat makes a record of whatever is left of the hash. *)
Lemma heartbeat_mapping_any now i b d e st :
  hb_engine_id b = Some e → e ≠ "" → hb_status b = Some st →
  ∃ r, _mapping_to_record i (dmerge d (heartbeat_mapping now i b)) = Some r ∧
    er_status r = st ∧ er_last_heartbeat r = Some now.
Proof.
  intros He Hn Hst.
  assert (∀ k v, dget k (heartbeat_mapping now i b) = Some v →
    dget k (dmerge d (heartbeat_mapping now i b)) = Some v) as Hd
    by (intros k v Hv; by rewrite field_merged, Hv by apply heartbeat_mapping_nodup).
  unfold _mapping_to_record, string_of.
  rewrite (Hd "engine_id" (FText e)) by (read_fields heartbeat_mapping; by rewrite He).
  rewrite given_Some by done. eexists. split; [done|]. cbn [er_status er_last_heartbeat].
  rewrite (Hd "status" (FText st)) by (read_fields heartbeat_mapping; by rewrite Hst).
  unfold _parse_datetime. by rewrite (Hd "last_heartbeat" (FTime now)).
Qed.

(** [o] neither registers nor deregisters [i]. *)
Definition spares (i : string) (o : registry_op) : Prop :=
  match o with Register r => er_instance r ≠ i | Deregister j => j ≠ i | _ => True end.

Lemma do_op_spared i e s o t k :
  spares i o → i ∉ rk_instances k → i ∈ members e (rk_engine_ids k) →
  i ∈ members s (rk_stages k) →
  i ∉ rk_instances (do_op (t, k) o).2 ∧ i ∈ members e (rk_engine_ids (do_op (t, k) o).2) ∧
  i ∈ members s (rk_stages (do_op (t, k) o).2).
Proof.
  destruct o as [us|r|j b|j|j|]; cbn; intros Ho Hi He Hs; try done.
  - rewrite elem_of_union, elem_of_singleton, !members_sadd. split_and!; [naive_solver|..];
      destruct (decide _) as [Hd|]; try done; apply elem_of_union; right; by rewrite Hd.
  - rewrite elem_of_difference, !elem_srem_given. split_and!; [naive_solver|done..].
  - destruct (cleanup_spec t k) as ((_ & -> & ->) & Hc & _). rewrite Hc. naive_solver.
Qed.

Lemma do_ops_spared i e s ops t k :
  Forall (spares i) ops → i ∉ rk_instances k → i ∈ members e (rk_engine_ids k) →
  i ∈ members s (rk_stages k) →
  i ∉ rk_instances (do_ops ops (t, k)).2 ∧ i ∈ members e (rk_engine_ids (do_ops ops (t, k)).2) ∧
  i ∈ members s (rk_stages (do_ops ops (t, k)).2).
Proof.
  unfold do_ops. revert t k. induction ops as [|o ops IH]; intros t k Ho Hi He Hs; [done|].
  apply Forall_cons in Ho as [Ho Hops].
  destruct (do_op_spared i e s o t k Ho Hi He Hs) as (Hi' & He' & Hs').
  cbn [foldl]. destruct (do_op (t, k) o) as [t' k']. by apply IH.
Qed.

(** C34: The queries on Redis refine those on the list of all instances.  After any
    registrations, heartbeats, deregistrations, marks, clean-ups and lapses of time, every
    record that [get_available] finds among the instances that are listed is found through the
    indexes by stage and engine; and as long as every readable hash is of a listed instance,
    the same records are found both ways. *)
Theorem registry_views identity ops t0 t k stage interface engine_id model valid :
  Forall (identified identity) ops → do_ops ops (t0, no_keys) = (t, k) →
  (∀ r, r ∈ get_available t (get_all t k) stage interface engine_id model valid →
        r ∈ find_available t k stage interface engine_id model valid) ∧
  (none_forgotten t k →
     find_available t k stage interface engine_id model valid ≡ₚ
     get_available t (get_all t k) stage interface engine_id model valid).
Proof.
  intros Hops Hrun. pose proof (do_ops_ok _ _ t0 _ Hops (no_keys_ok _ t0)) as Hk.
  rewrite Hrun in Hk. cbn in Hk. change (find_available t k stage interface engine_id model valid)
    with (stable_sort (avail_before model) (List.filter (available_match t interface engine_id
      model valid) (candidates t k stage engine_id))).
  change (get_available t (get_all t k) stage interface engine_id model valid)
    with (stable_sort (avail_before model) (List.filter (available_match t interface engine_id
      model valid) (view_candidates (get_all t k) stage engine_id))).
  pose proof (λ r, elem_candidates _ t k stage engine_id r Hk) as Hc. split.
  - intros r. rewrite !elem_of_stable_sort, !elem_of_filter_b. intros [? ?].
    split; [by apply Hc|done].
  - intros Hn. rewrite !stable_sort_perm.
    destruct (both_candidates_nodup _ t k stage engine_id Hk) as [H1 H2].
    apply NoDup_Permutation; [by apply NoDup_filter_b..|].
    intros r. rewrite !elem_of_filter_b. destruct (Hc r). naive_solver.
Qed.

(** C31: A slow heartbeat costs an engine its place in the registry for good.  Once the key
    of a listed instance has lapsed and the reconciler has passed, the engine's heartbeats make
    a healthy record of it again, which the indexes by engine and stage find; but whatever
    happens, short of a new registration, the list of all instances never has it again. *)
Theorem engine_forgotten identity i ops swept_ops t0 t k t' k' b st :
  Forall (identified identity) ops → do_ops ops (t0, no_keys) = (t, k) →
  i ∈ rk_instances k → hash_gone t k i = true →
  Forall (identified identity) swept_ops → Forall (spares i) swept_ops →
  do_ops (Cleanup :: swept_ops ++ [Beat i b]) (t, k) = (t', k') →
  identified identity (Beat i b) → (identity i).1 ≠ "" →
  hb_status b = Some st → st ≠ "offline" →
  (∀ r, r ∈ get_all t' k' → er_instance r ≠ i) ∧
  ∃ r, er_instance r = i ∧ is_healthy t' r = true ∧
    r ∈ indexed_by_engine_id t' k' (identity i).1 ∧ r ∈ indexed_by_stage t' k' (identity i).2.
Proof.
  intros Hops Hrun Hin Hgone Hsw Hsp Hrun' Hb Hne Hst Hoff.
  pose proof (do_ops_ok _ _ t0 _ Hops (no_keys_ok _ t0)) as Hk. rewrite Hrun in Hk. cbn in Hk.
  assert (Forall (identified identity) (Cleanup :: swept_ops ++ [Beat i b])) as Hall
    by (constructor; [done|apply Forall_app; split; [done|by constructor]]).
  pose proof (do_ops_ok _ _ t _ Hall Hk) as Hk'. rewrite Hrun' in Hk'. cbn in Hk'.
  destruct (ok_indexed _ _ _ Hk i Hin) as [He Hs].
  destruct (cleanup_spec t k) as ((_ & Hce & Hcs) & Hc & _).
  revert Hrun'. unfold do_ops. cbn [foldl do_op]. rewrite foldl_app.
  fold (do_ops swept_ops (t, (_cleanup_stale_engine_entries t k).1)).
  destruct (do_ops_spared i (identity i).1 (identity i).2 swept_ops t
    (_cleanup_stale_engine_entries t k).1 Hsp) as (Hi' & He' & Hs');
    [intros [_ ?]%Hc; congruence|by rewrite Hce|by rewrite Hcs|].
  destruct (do_ops swept_ops _) as [t1 k1]. cbn in Hi', He', Hs'. cbn. intros [= <- <-].
  split.
  - intros r (j & Hj & Hr)%elem_records. cbn in Hj.
    apply (read_identity _ _ _ _ _ Hk') in Hr as (-> & _). by intros ->.
  - destruct (heartbeat_mapping_any t1 i b (hgetall t1 i (rk_hashes k1)) (identity i).1 st)
      as (r & Hr & Hrs & Hrb); [apply Hb|done|done|].
    assert (get_by_instance t1 (heartbeat t1 i b k1) i = Some r) as Hg.
    { rewrite <-Hr. apply read_hash; [|apply dmerge_cons_nonempty].
      unfold heartbeat. by rewrite write_hash_now, decide_True. }
    exists r. split_and!.
    + by eapply read_identity in Hg as (? & _).
    + unfold is_healthy. rewrite Hrs, Hrb. destruct (String.eqb_spec st "offline"); [done|].
      unfold heartbeat_expired, seconds, HEARTBEAT_TIMEOUT_SECONDS.
      by rewrite Z.sub_diag.
    + apply elem_records. by exists i.
    + apply elem_records. by exists i.
Qed.

(** Marking an instance whose key has just lapsed makes a hash without a lifetime, which is no
    record and which no clean-up takes for stale. *)
Lemma ghost_hash t u i k :
  rget t (rk_hashes k) i = None →
  let k' := mark_offline t i k in
  hash_gone u k' i = false ∧ get_by_instance u k' i = None ∧
  (i ∈ rk_instances k → i ∈ rk_instances (_cleanup_stale_engine_entries u k').1).
Proof.
  intros Hg k'. assert (hgetall u i (rk_hashes k') = [("status", FText "offline")]) as Hh.
  { unfold k', mark_offline, hset, hgetall, rget in *. cbn.
    destruct (rk_hashes k !! i) as [[d e]|]; [|by rewrite lookup_insert_eq].
    by destruct (alive t e); [|rewrite lookup_insert_eq]. }
  unfold hash_gone, get_by_instance. rewrite Hh. split_and!; [done..|].
  intros Hi. apply cleanup_spec. split; [done|]. unfold hash_gone. by rewrite Hh.
Qed.

Lemma none_forgotten_dom t k : dom (rk_hashes k) ⊆ rk_instances k → none_forgotten t k.
Proof.
  intros Hd i r Hr. apply Hd, elem_of_dom. unfold get_by_instance, hgetall, rget in Hr.
  by destruct (rk_hashes k !! i).
Qed.

(** ** A realtime engine *)

Module RegistryDemo.

Definition identity (i : string) : string * string := ("parakeet", "transcribe").

Definition worker (i : string) (capacity : Z) : EngineRecord :=
  new_record i "parakeet" "transcribe" "ready" ["realtime"] capacity (Some "ws://rt:9000")
    None None.

Definition beat (i : string) (active : Z) : Heartbeat :=
  realtime_heartbeat (worker i 4) ("host", "node", "local") "2GB" active 4 None.

(** A minute without a heartbeat, and a pass of the reconciler. *)
Definition lapsed : list registry_op :=
  [Register (worker "rt-a" 4); Elapse 30000000; Register (worker "rt-b" 2); Beat "rt-b" (beat "rt-b" 1);
   Elapse 31000000].

Definition requests (tk : timestamp * RegistryKeys) (engine_id : option string) : list string :=
  map er_instance (find_available tk.1 tk.2 None (Some "realtime") engine_id None None).

Example alive_engines :
  requests (do_ops (take 4 lapsed) (0%Z, no_keys)) None = ["rt-a"; "rt-b"].
Proof. vm_compute. done. Qed.

(** The request that names the engine finds it; the one that takes any does not. *)
Example forgotten_engine :
  let tk := do_ops (lapsed ++ [Cleanup; Beat "rt-a" (beat "rt-a" 0)]) (0%Z, no_keys) in
  requests tk None = ["rt-b"] ∧ requests tk (Some "parakeet") = ["rt-a"; "rt-b"].
Proof. vm_compute. done. Qed.
End RegistryDemo.

Lemma registry_views_witness :
  let '(t, k) := do_ops (take 4 RegistryDemo.lapsed) (0%Z, no_keys) in
  find_available t k None (Some "realtime") (Some "parakeet") None None ≡ₚ
  get_available t (get_all t k) None (Some "realtime") (Some "parakeet") None None.
Proof.
  destruct (do_ops _ _) as [t k] eqn:Hrun.
  apply (registry_views RegistryDemo.identity (take 4 RegistryDemo.lapsed) 0%Z t k).
  - by repeat constructor.
  - done.
  - apply none_forgotten_dom. injection Hrun as <- <-. by apply (bool_decide_unpack _).
Defined.

Lemma engine_forgotten_witness :
  let '(t, k) := do_ops RegistryDemo.lapsed (0%Z, no_keys) in
  let '(t', k') := do_ops [Cleanup; Elapse 10000000; Beat "rt-a" (RegistryDemo.beat "rt-a" 0)] (t, k) in
  (∀ r, r ∈ get_all t' k' → er_instance r ≠ "rt-a") ∧
  ∃ r, er_instance r = "rt-a" ∧ is_healthy t' r = true ∧
    r ∈ indexed_by_engine_id t' k' "parakeet" ∧ r ∈ indexed_by_stage t' k' "transcribe".
Proof.
  destruct (do_ops RegistryDemo.lapsed _) as [t k] eqn:Hrun.
  destruct (do_ops [_; _; _] _) as [t' k'] eqn:Hrun'.
  apply (engine_forgotten RegistryDemo.identity "rt-a" RegistryDemo.lapsed [Elapse 10000000]
    0%Z t k t' k' (RegistryDemo.beat "rt-a" 0) "ready"); try done.
  - by repeat constructor.
  - injection Hrun as <- <-. by apply (bool_decide_unpack _).
  - by injection Hrun as <- <-.
  - by repeat constructor.
  - by repeat constructor.
Defined.
