(* ===== verification/Auth.v ===== *)
(** * Keys, tokens and permissions

    Models [gateway/services/auth.py] (API keys in the database, session tokens and
    rate limits in Redis), [gateway/security/principal.py], [permissions.py] and
    [manager.py], and the authentication of requests and sockets in
    [gateway/middleware/auth.py].  SHA-256 is a parameter; raw keys and ids that are
    drawn at random are arguments.  The consumption of a single-use token is two
    commands of Redis, so requests that consume the same token interleave between
    them. *)

From S2P Require Import Prelude PyValue Times Models Catalog Registry Store Effects.

Definition KEY_PREFIX : string := "dk_".
Definition TOKEN_PREFIX : string := "tk_".
Definition DEFAULT_TOKEN_TTL : Z := 600.
Definition RATE_LIMIT_WINDOW : Z := 60.

(** ** Scopes *)

Inductive Scope : Type := JOBS_READ | JOBS_WRITE | REALTIME | WEBHOOKS | ADMIN.

#[export] Instance Scope_eq_dec : EqDecision Scope.
Proof. solve_decision. Defined.

Definition scope_value (s : Scope) : string :=
  match s with
  | JOBS_READ => "jobs:read" | JOBS_WRITE => "jobs:write" | REALTIME => "realtime"
  | WEBHOOKS => "webhooks" | ADMIN => "admin"
  end.

Definition all_scopes : list Scope := [JOBS_READ; JOBS_WRITE; REALTIME; WEBHOOKS; ADMIN].
Definition DEFAULT_SCOPES : list Scope := [JOBS_READ; JOBS_WRITE; REALTIME].

(** [Scope(s)] *)
Definition parse_scope (s : string) : res pyexn Scope :=
  match find_first (λ x, String.eqb (scope_value x) s) all_scopes with
  | Some x => Ok x
  | None => Raise ValueError
  end.

(** [s.split(",")], with the part being read in [word]. *)
Fixpoint split_commas (word s : string) : list string :=
  match s with
  | EmptyString => [word]
  | String c s =>
      if Ascii.eqb c "," then word :: split_commas EmptyString s
      else split_commas (word +:+ String c EmptyString) s
  end.

Definition scopes_text (scopes : list Scope) : string := String.concat "," (map scope_value scopes).

Fixpoint parse_scopes (parts : list string) : res pyexn (list Scope) :=
  match parts with
  | [] => Ok []
  | p :: parts =>
      if String.eqb p EmptyString then parse_scopes parts
      else res_bind (parse_scope p) (λ s, res_bind (parse_scopes parts) (λ l, Ok (s :: l)))
  end.

Definition text_scopes (text : string) : res pyexn (list Scope) :=
  parse_scopes (split_commas EmptyString text).

(** ** Keys and tokens *)

Record APIKeyModel := {
  km_id : UUID;
  km_key_hash : string;
  km_prefix : string;
  km_name : string;
  km_tenant_id : UUID;
  km_scopes : string;
  km_rate_limit : option Z;
  km_created_at : timestamp;
  km_last_used_at : option timestamp;
  km_expires_at : option timestamp;
  km_revoked_at : option timestamp;
}.

Record APIKey := {
  ak_id : UUID;
  ak_key_hash : string;
  ak_prefix : string;
  ak_name : string;
  ak_tenant_id : UUID;
  ak_scopes : list Scope;
  ak_rate_limit : option Z;
  ak_created_at : timestamp;
  ak_last_used_at : option timestamp;
  ak_expires_at : timestamp;
  ak_revoked_at : option timestamp;
}.

(** 2099-12-31 23:59:59 UTC *)
Definition DEFAULT_EXPIRES_AT : timestamp := seconds 4102444799.

Definition from_model (m : APIKeyModel) : res pyexn APIKey :=
  res_bind (text_scopes (km_scopes m)) (λ scopes, Ok {|
    ak_id := km_id m; ak_key_hash := km_key_hash m; ak_prefix := km_prefix m;
    ak_name := km_name m; ak_tenant_id := km_tenant_id m; ak_scopes := scopes;
    ak_rate_limit := km_rate_limit m; ak_created_at := km_created_at m;
    ak_last_used_at := km_last_used_at m;
    ak_expires_at := default DEFAULT_EXPIRES_AT (km_expires_at m);
    ak_revoked_at := km_revoked_at m |}).

Definition is_revoked (k : APIKey) : bool := bool_decide (is_Some (ak_revoked_at k)).
Definition key_expired (now : timestamp) (k : APIKey) : bool := (ak_expires_at k <? now)%Z.

(** [APIKey.has_scope]: the admin scope stands for all. *)
Definition key_has_scope (s : Scope) (k : APIKey) : bool :=
  bool_decide (ADMIN ∈ ak_scopes k) || bool_decide (s ∈ ak_scopes k).

Record SessionToken := {
  sk_token_hash : string;
  sk_tenant_id : UUID;
  sk_parent_key_id : UUID;
  sk_scopes : list Scope;
  sk_expires_at : timestamp;
  sk_created_at : timestamp;
  sk_token_type : string;
  sk_single_use : bool;
  sk_consumed_at : option timestamp;
}.

Definition token_expired (now : timestamp) (t : SessionToken) : bool := (sk_expires_at t <? now)%Z.
Definition token_has_scope (s : Scope) (t : SessionToken) : bool := bool_decide (s ∈ sk_scopes t).

Definition consumed (at_ : option timestamp) (t : SessionToken) : SessionToken := {|
  sk_token_hash := sk_token_hash t; sk_tenant_id := sk_tenant_id t;
  sk_parent_key_id := sk_parent_key_id t; sk_scopes := sk_scopes t;
  sk_expires_at := sk_expires_at t; sk_created_at := sk_created_at t;
  sk_token_type := sk_token_type t; sk_single_use := sk_single_use t;
  sk_consumed_at := at_ |}.

(** The hash of a token: the fields that [token_to_dict] writes, and [consumed_at].  A hash
    that [HSETNX] created has only the latter. *)
Record TokenHash := {
  th_token : option SessionToken;
  th_consumed_at : option timestamp;
}.

Definition token_to_dict (t : SessionToken) : TokenHash :=
  {| th_token := Some (consumed None t); th_consumed_at := sk_consumed_at t |}.

Definition token_from_dict (h : TokenHash) : res pyexn SessionToken :=
  match th_token h with
  | Some t => Ok (consumed (th_consumed_at h) t)
  | None => Raise (KeyError "token_hash")
  end.

(** ** State *)

Record AuthState := {
  as_keys : gmap UUID APIKeyModel;                 (* table api_keys *)
  as_tokens : keyspace string TokenHash;           (* session_token:{hash} *)
  as_rates : keyspace UUID Z;                      (* ratelimit:{key_id} *)
}.

Definition set_keys (x : gmap UUID APIKeyModel) (s : AuthState) : AuthState :=
  {| as_keys := x; as_tokens := as_tokens s; as_rates := as_rates s |}.
Definition set_tokens (x : keyspace string TokenHash) (s : AuthState) : AuthState :=
  {| as_keys := as_keys s; as_tokens := x; as_rates := as_rates s |}.
Definition set_rates (x : keyspace UUID Z) (s : AuthState) : AuthState :=
  {| as_keys := as_keys s; as_tokens := as_tokens s; as_rates := x |}.

Definition key_rows (s : AuthState) : list APIKeyModel := map snd (map_to_list (as_keys s)).

Definition touch_key (last_used revoked : option timestamp) (m : APIKeyModel) : APIKeyModel := {|
  km_id := km_id m; km_key_hash := km_key_hash m; km_prefix := km_prefix m;
  km_name := km_name m; km_tenant_id := km_tenant_id m; km_scopes := km_scopes m;
  km_rate_limit := km_rate_limit m; km_created_at := km_created_at m;
  km_last_used_at := last_used; km_expires_at := km_expires_at m; km_revoked_at := revoked |}.

(** ** The service ([AuthService]) *)

Section service.
Context (sha256 : string → string).

Definition hash_api_key (key : string) : string := sha256 key.
Definition get_key_prefix (key : string) : string := String.substring 0 10 key.

(** [raw_key] was drawn at random, or is the one to seed. *)
Definition create_api_key (now : timestamp) (new_id : UUID) (raw_key name : string)
    (tenant_id : UUID) (scopes : option (list Scope)) (rate_limit : option Z)
    (expires_at : option timestamp) (s : AuthState) : res exn (AuthState * APIKey) :=
  let model := {|
    km_id := new_id; km_key_hash := hash_api_key raw_key; km_prefix := get_key_prefix raw_key;
    km_name := name; km_tenant_id := tenant_id;
    km_scopes := scopes_text (default DEFAULT_SCOPES scopes); km_rate_limit := rate_limit;
    km_created_at := now; km_last_used_at := None;
    km_expires_at := Some (default DEFAULT_EXPIRES_AT expires_at); km_revoked_at := None |} in
  if existsb (λ m, N.eqb (km_id m) new_id || String.eqb (km_key_hash m) (km_key_hash model))
       (key_rows s)
  then Raise IntegrityError
  else match from_model model with
       | Ok k => Ok (set_keys (<[new_id := model]> (as_keys s)) s, k)
       | Raise e => Raise (PyExn e)
       end.

Definition key_row (raw_key : string) (s : AuthState) : option APIKeyModel :=
  find_first (λ m, String.eqb (km_key_hash m) (hash_api_key raw_key)) (key_rows s).

Definition validate_api_key (now : timestamp) (raw_key : string) (s : AuthState)
    : res pyexn (AuthState * option APIKey) :=
  if negb (String.prefix KEY_PREFIX raw_key) then Ok (s, None)
  else match key_row raw_key s with
       | None => Ok (s, None)
       | Some m =>
           res_bind (from_model m) (λ k,
           if is_revoked k || key_expired now k then Ok (s, None)
           else Ok (set_keys (<[km_id m := touch_key (Some now) (km_revoked_at m) m]> (as_keys s)) s,
                    Some k))
       end.

(** A row, of the given tenant if there is one. *)
Definition key_of_tenant (key_id : UUID) (tenant_id : option UUID) (s : AuthState)
    : option APIKeyModel :=
  match as_keys s !! key_id, tenant_id with
  | Some m, Some t => if N.eqb (km_tenant_id m) t then Some m else None
  | o, _ => o
  end.

Definition get_api_key_by_id (key_id : UUID) (tenant_id : option UUID) (s : AuthState)
    : res pyexn (option APIKey) :=
  match key_of_tenant key_id tenant_id s with
  | None => Ok None
  | Some m => res_bind (from_model m) (λ k, Ok (Some k))
  end.

Definition newer_key (m1 m2 : APIKeyModel) : bool := (km_created_at m2 <? km_created_at m1)%Z.

Fixpoint from_models (l : list APIKeyModel) : res pyexn (list APIKey) :=
  match l with
  | [] => Ok []
  | m :: l => res_bind (from_model m) (λ k, res_bind (from_models l) (λ ks, Ok (k :: ks)))
  end.

Definition list_api_keys (tenant_id : UUID) (include_revoked : bool) (s : AuthState)
    : res pyexn (list APIKey) :=
  from_models (stable_sort newer_key
    (List.filter (λ m, N.eqb (km_tenant_id m) tenant_id &&
                       (include_revoked || bool_decide (km_revoked_at m = None))) (key_rows s))).

Definition revoke_api_key (now : timestamp) (key_id : UUID) (tenant_id : option UUID)
    (s : AuthState) : AuthState * bool :=
  match key_of_tenant key_id tenant_id s with
  | None => (s, false)
  | Some m => (set_keys (<[key_id := touch_key (km_last_used_at m) (Some now) m]> (as_keys s)) s, true)
  end.

Definition has_any_api_keys (s : AuthState) : bool :=
  existsb (λ m, bool_decide (km_revoked_at m = None)) (key_rows s).

(** A counter per key, that lives a minute from the first request. *)
Definition check_rate_limit (now : timestamp) (k : APIKey) (s : AuthState)
    : AuthState * (bool * Z) :=
  match ak_rate_limit k with
  | None => (s, (true, -1)%Z)
  | Some limit =>
      let '(m, current) := add_counter now (ak_id k) 1 (as_rates s) in
      let m := if (current =? 1)%Z then expire now (ak_id k) RATE_LIMIT_WINDOW m else m in
      (set_rates m s, ((current <=? limit)%Z, Z.max 0 (limit - current)))
  end.

(** What authenticates a request: a key or a token. *)
Abbreviation identity := (APIKey + SessionToken)%type.

Definition has_scope (s : Scope) (i : identity) : bool :=
  match i with inl k => key_has_scope s k | inr t => token_has_scope s t end.

(** A session token has no attribute [id]: it cannot be the parent of another. *)
Definition create_session_token (now : timestamp) (raw_token : string) (parent : identity)
    (ttl : Z) (scopes : option (list Scope)) (token_type : string) (single_use : bool)
    (s : AuthState) : res pyexn (AuthState * SessionToken) :=
  let scopes := default [REALTIME] scopes in
  if negb (forallb (λ x, has_scope x parent) scopes) then Raise ValueError
  else match parent with
       | inr _ => Raise AttributeError
       | inl k =>
           let token := {|
             sk_token_hash := hash_api_key raw_token; sk_tenant_id := ak_tenant_id k;
             sk_parent_key_id := ak_id k; sk_scopes := scopes;
             sk_expires_at := (now + seconds ttl)%Z; sk_created_at := now;
             sk_token_type := token_type; sk_single_use := single_use;
             sk_consumed_at := None |} in
           let key := sk_token_hash token in
           let kept := match rget now (as_tokens s) key with
                       | Some h => th_consumed_at h
                       | None => None
                       end in
           Ok (set_tokens (<[key := ({| th_token := Some token; th_consumed_at := kept |},
                                     Some (now + seconds ttl)%Z)]> (as_tokens s)) s, token)
       end.

Definition validate_session_token (now : timestamp) (raw_token : string) (s : AuthState)
    : res pyexn (option SessionToken) :=
  if negb (String.prefix TOKEN_PREFIX raw_token) then Ok None
  else match rget now (as_tokens s) (hash_api_key raw_token) with
       | None => Ok None
       | Some h =>
           res_bind (token_from_dict h) (λ t,
           Ok (if token_expired now t then None
               else if sk_single_use t && bool_decide (is_Some (sk_consumed_at t)) then None
               else Some t))
       end.

(** [HSETNX key consumed_at v]: whether the field was set. *)
Definition hsetnx (now : timestamp) (k : string) (v : timestamp) (m : keyspace string TokenHash)
    : keyspace string TokenHash * bool :=
  match m !! k with
  | Some (h, e) =>
      if alive now e
      then match th_consumed_at h with
           | Some _ => (m, false)
           | None => (<[k := ({| th_token := th_token h; th_consumed_at := Some v |}, e)]> m, true)
           end
      else (<[k := ({| th_token := None; th_consumed_at := Some v |}, None)]> m, true)
  | None => (<[k := ({| th_token := None; th_consumed_at := Some v |}, None)]> m, true)
  end.

(** A call of [consume_session_token]: not begun, between its two commands, returned. *)
Inductive consumer : Type :=
  | Begin
  | Mark (t : SessionToken)
  | Returned (r : res pyexn (option SessionToken)).

Definition consume_step (now : timestamp) (raw_token : string) (c : consumer) (s : AuthState)
    : AuthState * consumer :=
  match c with
  | Begin =>
      (s, match validate_session_token now raw_token s with
          | Ok (Some t) => if sk_single_use t then Mark t else Returned (Ok (Some t))
          | r => Returned r
          end)
  | Mark t =>
      let '(m, marked) := hsetnx now (hash_api_key raw_token) now (as_tokens s) in
      (set_tokens m s, Returned (Ok (if marked then Some (consumed (Some now) t) else None)))
  | Returned _ => (s, c)
  end.

Definition consume_session_token (now : timestamp) (raw_token : string) (s : AuthState)
    : AuthState * consumer :=
  let '(s, c) := consume_step now raw_token Begin s in consume_step now raw_token c s.

Definition revoke_session_token (now : timestamp) (raw_token : string) (s : AuthState)
    : AuthState * bool :=
  if negb (String.prefix TOKEN_PREFIX raw_token) then (s, false)
  else (set_tokens (delete (hash_api_key raw_token) (as_tokens s)) s,
        bool_decide (is_Some (rget now (as_tokens s) (hash_api_key raw_token)))).

(** ** Authentication ([middleware/auth.py]) *)

Inductive auth_error : Type :=
  | MissingKey
  | OpenAIKey
  | InvalidToken
  | InvalidKey
  | RateLimited
  | Unhandled (e : pyexn).

(** [s.split(" ", 1)] *)
Fixpoint split_once (word s : string) : list string :=
  match s with
  | EmptyString => [word]
  | String c s => if Ascii.eqb c " " then [word; s] else split_once (word +:+ String c EmptyString) s
  end.

(** The credential of an [authorization] header, split by [split]. *)
Definition bearer (split : string → list string) (header : option string) : option string :=
  match given header with
  | Some h =>
      match split h with
      | [scheme; key] => if String.eqb (lower scheme) "bearer" then Some key else None
      | _ => None
      end
  | None => None
  end.

Definition extract_api_key_from_request (headers : string → option string) : option string :=
  match bearer py_split (headers "authorization") with
  | Some key => Some key
  | None => given (headers "xi-api-key")
  end.

Definition extract_api_key_from_websocket (headers query : string → option string)
    : option string :=
  match bearer (split_once EmptyString) (headers "authorization") with
  | Some key => Some key
  | None =>
      match given (query "token"), given (query "api_key") with
      | Some token, _ => Some token
      | None, Some key => Some key
      | None, None => given (headers "xi-api-key")
      end
  end.

Definition authenticate_request (now : timestamp) (headers : string → option string)
    (s : AuthState) : AuthState * res auth_error identity :=
  match given (extract_api_key_from_request headers) with
  | None => (s, Raise MissingKey)
  | Some raw_key =>
      if String.prefix "sk-" raw_key then (s, Raise OpenAIKey)
      else if String.prefix TOKEN_PREFIX raw_key then
        (s, match validate_session_token now raw_key s with
            | Ok (Some t) => Ok (inr t)
            | Ok None => Raise InvalidToken
            | Raise e => Raise (Unhandled e)
            end)
      else
        match validate_api_key now raw_key s with
        | Raise e => (s, Raise (Unhandled e))
        | Ok (s, None) => (s, Raise InvalidKey)
        | Ok (s, Some k) =>
            let '(s, (allowed, _)) := check_rate_limit now k s in
            (s, if allowed then Ok (inl k) else Raise RateLimited)
        end
  end.

(** The codes a connection is closed with. *)
Inductive ws_close : Type :=
  | WS_CLOSE_INVALID_KEY
  | WS_CLOSE_MISSING_SCOPE
  | WS_CLOSE_RATE_LIMIT
  | WSError (e : pyexn).

(** The token is consumed without another request coming between its commands. *)
Definition authenticate_websocket (now : timestamp) (headers query : string → option string)
    (required_scope : Scope) (s : AuthState) : AuthState * res ws_close identity :=
  match given (extract_api_key_from_websocket headers query) with
  | None => (s, Raise WS_CLOSE_INVALID_KEY)
  | Some raw_key =>
      if String.prefix "sk-" raw_key then (s, Raise WS_CLOSE_INVALID_KEY)
      else if String.prefix TOKEN_PREFIX raw_key then
        match consume_session_token now raw_key s with
        | (s, Returned (Ok (Some t))) =>
            (s, if token_has_scope required_scope t then Ok (inr t)
                else Raise WS_CLOSE_MISSING_SCOPE)
        | (s, Returned (Raise e)) => (s, Raise (WSError e))
        | (s, _) => (s, Raise WS_CLOSE_INVALID_KEY)
        end
      else
        match validate_api_key now raw_key s with
        | Raise e => (s, Raise (WSError e))
        | Ok (s, None) => (s, Raise WS_CLOSE_INVALID_KEY)
        | Ok (s, Some k) =>
            if negb (key_has_scope required_scope k) then (s, Raise WS_CLOSE_MISSING_SCOPE)
            else let '(s, (allowed, _)) := check_rate_limit now k s in
                 (s, if allowed then Ok (inl k) else Raise WS_CLOSE_RATE_LIMIT)
        end
  end.
End service.

(** ** Single-use tokens

    Requests that consume one token, interleaved between their commands, with the
    passing of time, revocations of the token, and changes of everything else. *)
Section single_use.
Context (sha256 : string → string) (raw_token : string).

Definition token_key : string := hash_api_key sha256 raw_token.

Record TokenRun := {
  tr_now : timestamp;
  tr_state : AuthState;
  tr_requests : list consumer;
  tr_revoked : nat;                     (* revocations so far *)
}.

Inductive token_step : TokenRun → TokenRun → Prop :=
  | token_wait r now' :
      (tr_now r <= now')%Z →
      token_step r {| tr_now := now'; tr_state := tr_state r; tr_requests := tr_requests r;
                      tr_revoked := tr_revoked r |}
  | token_request r :
      token_step r {| tr_now := tr_now r; tr_state := tr_state r;
                      tr_requests := tr_requests r ++ [Begin]; tr_revoked := tr_revoked r |}
  | token_advance r i c :
      tr_requests r !! i = Some c →
      let p := consume_step sha256 (tr_now r) raw_token c (tr_state r) in
      token_step r {| tr_now := tr_now r; tr_state := p.1;
                      tr_requests := <[i := p.2]> (tr_requests r); tr_revoked := tr_revoked r |}
  | token_revoke r :
      token_step r {| tr_now := tr_now r;
                      tr_state := (revoke_session_token sha256 (tr_now r) raw_token (tr_state r)).1;
                      tr_requests := tr_requests r; tr_revoked := S (tr_revoked r) |}
  | token_other r s' :
      as_tokens s' !! token_key = as_tokens (tr_state r) !! token_key →
      token_step r {| tr_now := tr_now r; tr_state := s'; tr_requests := tr_requests r;
                      tr_revoked := tr_revoked r |}.

(** The token that a request was let in with. *)
Definition let_in (c : consumer) : option SessionToken :=
  match c with Returned (Ok (Some t)) => Some t | _ => None end.

Definition uses (r : TokenRun) : nat := length (omap let_in (tr_requests r)).

(** Nobody has marked the key, as it reads now. *)
Definition unmarked (r : TokenRun) : bool :=
  match rget (tr_now r) (as_tokens (tr_state r)) token_key with
  | Some h => bool_decide (th_consumed_at h = None)
  | None => true
  end.

Section token.
Context (t : SessionToken) (expiry : timestamp).
Context (Ht : sk_single_use t = true).

Definition key_state (o : option (TokenHash * option timestamp)) : Prop :=
  match o with
  | None => True
  | Some (h, e) =>
      (th_token h = Some t ∧ e = Some expiry) ∨
      (th_token h = None ∧ is_Some (th_consumed_at h) ∧ e = None)
  end.

Definition request_state (c : consumer) : Prop :=
  match c with
  | Begin => True
  | Mark t' => t' = consumed None t
  | Returned (Ok (Some t')) => ∃ at_, t' = consumed (Some at_) t
  | Returned _ => True
  end.

Definition budget (r : TokenRun) : nat :=
  1 + tr_revoked r + (if (expiry <=? tr_now r)%Z then 1 else 0).

Record token_inv (r : TokenRun) : Prop := {
  ti_key : key_state (as_tokens (tr_state r) !! token_key);
  ti_requests : Forall request_state (tr_requests r);
  ti_uses : uses r + (if unmarked r then 1 else 0) ≤ budget r;
}.

Lemma validate_state now s r :
  key_state (as_tokens s !! token_key) →
  validate_session_token sha256 now raw_token s = Ok (Some r) → r = consumed None t.
Proof.
  unfold validate_session_token. fold token_key. unfold rget.
  destruct (negb _); [done|]. destruct (as_tokens s !! token_key) as [[h e]|]; [|done].
  destruct (alive now e); [|done]. unfold token_from_dict. cbn.
  intros [[-> _]|(-> & _)]; cbn; [|done]. rewrite Ht.
  destruct (token_expired now _); [done|]. destruct (th_consumed_at h) eqn:Hc; cbn; [done|].
  by intros [= <-].
Qed.

Lemma begin_state now s c :
  key_state (as_tokens s !! token_key) →
  consume_step sha256 now raw_token Begin s = (s, c) → request_state c ∧ let_in c = None.
Proof.
  intros Hk. cbn. intros [= <-]. destruct (validate_session_token _ _ _ _) as [[t'|]|e] eqn:Hv;
    [|by split..]. apply validate_state in Hv as ->; [|done]. cbn. by rewrite Ht.
Qed.

Lemma hsetnx_state now k m m' b :
  key_state (m !! k) → hsetnx now k now m = (m', b) →
  key_state (m' !! k) ∧
  (b = false → m' = m ∧ ∃ h, rget now m k = Some h ∧ is_Some (th_consumed_at h)) ∧
  (b = true → (∀ h, rget now m k = Some h → th_consumed_at h = None) ∧
              ∃ h, rget now m' k = Some h ∧ is_Some (th_consumed_at h)).
Proof.
  unfold hsetnx, rget. intros Hk. destruct (m !! k) as [[h e]|] eqn:Hm; cbn in Hk.
  - destruct (alive now e) eqn:He; [destruct (th_consumed_at h) eqn:Hc|]; intros [= <- <-].
    + rewrite Hm. cbn. rewrite Hc, He. split_and!; [done| |done]. intros _. eauto.
    + rewrite lookup_insert_eq. cbn. rewrite He. split_and!; [|done|].
      * destruct Hk as [[? ?]|(? & [? ?] & ?)]; [by left|congruence].
      * intros _. split; [by intros ? [= <-]|]. eauto.
    + rewrite lookup_insert_eq. cbn. split_and!; [by right|done|].
      intros _. by split; [|eexists].
  - intros [= <- <-]. rewrite lookup_insert_eq. cbn. split_and!; [by right|done|].
    intros _. by split; [|eexists].
Qed.

Lemma uses_insert l i c c' :
  l !! i = Some c → let_in c = None →
  length (omap let_in (<[i := c']> l)) = length (omap let_in l) + length (omap let_in [c']).
Proof.
  intros Hl Hc. rewrite insert_take_drop by by apply lookup_lt_Some in Hl.
  rewrite <-(take_drop_middle l i c Hl) at 3. rewrite !omap_app. cbn. rewrite Hc.
  rewrite !length_app. destruct (let_in c'); cbn; lia.
Qed.
(** One command of one request. *)
Lemma token_inv_advance r i c :
  token_inv r → tr_requests r !! i = Some c →
  let p := consume_step sha256 (tr_now r) raw_token c (tr_state r) in
  token_inv {| tr_now := tr_now r; tr_state := p.1;
               tr_requests := <[i := p.2]> (tr_requests r); tr_revoked := tr_revoked r |}.
Proof.
  intros [Hk Hr Hu] Hi p. assert (request_state c) as Hc by by eapply Forall_lookup_1 in Hr.
  destruct c as [|t'|o].
  - destruct (begin_state (tr_now r) (tr_state r) p.2 Hk eq_refl) as [Hp Hl].
    split; [done|by apply Forall_insert|]. revert Hu. unfold uses. cbn [tr_requests].
    rewrite (uses_insert _ _ _ p.2 Hi eq_refl). cbn [omap list_omap]. rewrite Hl.
    rewrite Nat.add_0_r. done.
  - subst p. cbn [consume_step]. fold token_key. destruct (hsetnx _ _ _ _) as [m b] eqn:Hm.
    destruct (hsetnx_state _ _ _ _ _ Hk Hm) as (Hk' & Hno & Hyes). cbn [fst snd].
    split; [done|apply Forall_insert; [done|by destruct b; cbn; rewrite ?Hc; eauto]|].
    revert Hu. unfold uses. cbn [tr_requests]. rewrite (uses_insert _ _ _ _ Hi eq_refl).
    unfold unmarked, budget. cbn [tr_now tr_state tr_revoked set_tokens as_tokens].
    destruct b.
    + destruct Hyes as [Hold (h & -> & [v Hv])]; [done|]. rewrite Hv.
      rewrite (bool_decide_eq_false_2 (Some v = None)) by done. cbn.
      destruct (rget _ (as_tokens (tr_state r)) _) as [h'|]; [|lia].
      rewrite (Hold h' eq_refl). cbn. lia.
    + destruct Hno as [-> _]; [done|]. cbn. lia.
  - subst p. cbn. rewrite (list_insert_id _ _ _ Hi). by split.
Qed.

Lemma token_inv_step r r' : token_inv r → token_step r r' → token_inv r'.
Proof.
  intros Hinv Hstep. revert Hinv.
  destruct Hstep as [r now' Hn|r|r i c Hi p|r|r s' Hs]; intros Hinv;
    [| |by apply token_inv_advance|..]; destruct Hinv as [Hk Hr Hu].
  - split; [done..|]. revert Hu. unfold uses, unmarked, budget, rget. cbn.
    destruct (as_tokens (tr_state r) !! token_key) as [[h e]|]; cbn in *.
    + destruct (Z.leb_spec expiry (tr_now r)), (Z.leb_spec expiry now'); try lia;
        destruct Hk as [[_ ->]|(_ & _ & ->)]; cbn;
        destruct (Z.ltb_spec (tr_now r) expiry), (Z.ltb_spec now' expiry); try lia;
        repeat case_match; lia.
    + destruct (Z.leb_spec expiry (tr_now r)), (Z.leb_spec expiry now'); lia.
  - split; cbn; [done| |].
    + apply Forall_app. split; [done|by repeat constructor].
    + revert Hu. unfold uses, unmarked, budget. cbn. by rewrite omap_app, app_nil_r.
  - split; cbn; [|done|].
    + unfold revoke_session_token. fold token_key. destruct (negb _); [done|]. cbn.
      by rewrite lookup_delete_eq.
    + revert Hu. unfold uses, unmarked, budget. cbn. repeat case_match; lia.
  - split; cbn; [by rewrite Hs|done|]. revert Hu. unfold uses, unmarked, budget, rget. cbn.
    by rewrite Hs.
Qed.
Lemma token_inv_run r r' : token_inv r → rtc token_step r r' → token_inv r'.
Proof. intros Hr. induction 1; eauto using token_inv_step. Qed.
End token.

End single_use.

(** ** Keys *)

Fixpoint no_comma (s : string) : bool :=
  match s with EmptyString => true | String c s => negb (Ascii.eqb c ",") && no_comma s end.

Lemma split_commas_word w1 w2 s :
  no_comma w2 = true → split_commas w1 (w2 +:+ s) = split_commas (w1 +:+ w2) s.
Proof.
  revert w1. induction w2 as [|c w2 IH]; intros w1; cbn.
  - intros _. by rewrite string_app_nil_r.
  - intros [Hc Hw]%andb_true_iff. apply negb_true_iff in Hc. rewrite string_app_cons. cbn.
    rewrite Hc, IH by done. by rewrite string_app_char.
Qed.

Lemma split_commas_join x l :
  no_comma x = true → Forall (λ s, no_comma s = true) l →
  split_commas EmptyString (String.concat "," (x :: l)) = x :: l.
Proof.
  intros Hx Hl. revert x Hx. induction Hl as [|y l Hy Hl IH]; intros x Hx.
  - cbn. rewrite <-(string_app_nil_r x) at 1. by rewrite split_commas_word.
  - change (String.concat "," (x :: y :: l)) with (x +:+ String "," (String.concat "," (y :: l))).
    rewrite split_commas_word by done. cbn [split_commas Ascii.eqb]. cbn. f_equal. by apply IH.
Qed.

(** The scopes of a key survive the column they are stored in. *)
Lemma scopes_roundtrip l : text_scopes (scopes_text l) = Ok l.
Proof.
  unfold text_scopes, scopes_text. destruct l as [|x l]; [done|].
  assert (∀ y, no_comma (scope_value y) = true) as Hn by by intros [].
  rewrite (map_cons scope_value), split_commas_join; [|done|].
  - rewrite <-map_cons. induction (x :: l) as [|y l' IH]; [done|]. destruct y; cbn in *; by rewrite IH.
  - apply List.Forall_map, Forall_forall. eauto.
Qed.

Section keys.
Context (sha256 : string → string).

(** Who a key is, whatever is recorded about its use. *)
Definition same_key (m m' : APIKeyModel) : Prop :=
  touch_key (km_last_used_at m) (km_revoked_at m) m' = m.

(** A request gets in with a key only if the row of its hash is neither revoked nor
    expired; the time of its use is recorded, and nothing else changes. *)
Lemma validate_api_key_spec now raw_key s s' k :
  validate_api_key sha256 now raw_key s = Ok (s', Some k) →
  ∃ m, String.prefix KEY_PREFIX raw_key = true ∧ key_row sha256 raw_key s = Some m ∧
    from_model m = Ok k ∧ km_revoked_at m = None ∧
    (now <= default DEFAULT_EXPIRES_AT (km_expires_at m))%Z ∧
    s' = set_keys (<[km_id m := touch_key (Some now) None m]> (as_keys s)) s.
Proof.
  unfold validate_api_key. destruct (String.prefix _ _) eqn:Hp; cbn [negb]; [|done].
  destruct (key_row _ _ _) as [m|] eqn:Hm; [|done]. destruct (from_model m) as [k'|] eqn:Hk; [|done].
  cbn [res_bind]. destruct (is_revoked k' || key_expired now k') eqn:Hv; [done|]. intros [= <- <-].
  apply orb_false_iff in Hv as [Hr He]. pose proof Hk as Hm'. unfold from_model in Hm'.
  destruct (text_scopes (km_scopes m)); [|done]. injection Hm' as Heq. rewrite <-Heq in Hr, He.
  unfold is_revoked, key_expired in *. cbn in Hr, He.
  assert (km_revoked_at m = None) as Hnone by (by destruct (km_revoked_at m)).
  exists m. rewrite Hnone in *. split_and!; [done..|lia|done].
Qed.

(** A new key is accepted, with the scopes it was created with, until it expires. *)
Lemma create_validate now u new_id raw_key name tenant_id scopes rate_limit expires_at s s' k :
  create_api_key sha256 now new_id raw_key name tenant_id scopes rate_limit expires_at s =
    Ok (s', k) →
  String.prefix KEY_PREFIX raw_key = true →
  ak_scopes k = default DEFAULT_SCOPES scopes ∧ ak_tenant_id k = tenant_id ∧
  ((u <= ak_expires_at k)%Z →
   ∃ s'', validate_api_key sha256 u raw_key s' = Ok (s'', Some k)) ∧
  ((ak_expires_at k < u)%Z → validate_api_key sha256 u raw_key s' = Ok (s', None)).
Proof.
  unfold create_api_key. destruct (existsb _ _) eqn:Hfresh; [done|].
  unfold from_model at 1. cbn [km_scopes]. rewrite scopes_roundtrip. cbn [res_bind].
  intros [= <- <-] Hp. cbn [ak_scopes ak_tenant_id ak_expires_at km_expires_at].
  split; [done|]. split; [done|].
  set (m := {| km_id := new_id |}).
  assert (key_row sha256 raw_key (set_keys (<[new_id:=m]> (as_keys s)) s) = Some m) as Hm.
  { unfold key_row, key_rows in *. cbn [set_keys as_keys].
    assert (∀ m', m' ∈ map snd (map_to_list (<[new_id:=m]> (as_keys s))) →
      m' = m ∨ m' ∈ map snd (map_to_list (as_keys s))) as Hold.
    { intros m' ([i m2] & -> & Hi%elem_of_map_to_list)%list_elem_of_fmap.
      destruct (decide (i = new_id)) as [->|Hne].
      - rewrite lookup_insert_eq in Hi. left. by injection Hi as <-.
      - rewrite lookup_insert_ne in Hi by done. right. apply list_elem_of_fmap.
        exists (i, m2). by rewrite elem_of_map_to_list. }
    destruct (find_first _ _) as [m'|] eqn:Hf.
    - apply find_first_Some in Hf as [Hin Heq]. apply Hold in Hin as [->|Hin]; [done|].
      assert (existsb (λ m0, N.eqb (km_id m0) new_id ||
        String.eqb (km_key_hash m0) (hash_api_key sha256 raw_key))
        (map snd (map_to_list (as_keys s))) = true) as Ht; [|exact (False_ind _ (eq_true_false_abs _ Ht Hfresh))].
      apply existsb_exists. exists m'. rewrite <-list_elem_of_In, Heq, orb_true_r. done.
    - apply find_first_None with (x := m) in Hf; [by rewrite String.eqb_refl in Hf|].
      apply list_elem_of_fmap. exists (new_id, m). by rewrite elem_of_map_to_list, lookup_insert_eq. }
  unfold validate_api_key. rewrite Hp, Hm. cbn [negb]. unfold from_model. cbn [km_scopes m].
  rewrite scopes_roundtrip. cbn. unfold is_revoked, key_expired. cbn.
  split; intros Hu; [rewrite (proj2 (Z.ltb_ge _ _)) by done; cbn; eauto|].
  by rewrite (proj2 (Z.ltb_lt _ _)).
Qed.
End keys.

(** ** A token in use *)

Module AuthDemo.

Definition sha (s : string) : string := s.

Definition key : APIKey := {|
  ak_id := 7%N; ak_key_hash := "dk_secret"; ak_prefix := "dk_secret"; ak_name := "browser";
  ak_tenant_id := 1%N; ak_scopes := [REALTIME]; ak_rate_limit := Some 2%Z;
  ak_created_at := 0%Z; ak_last_used_at := None; ak_expires_at := DEFAULT_EXPIRES_AT;
  ak_revoked_at := None |}.

Definition none : AuthState := {| as_keys := ∅; as_tokens := ∅; as_rates := ∅ |}.

Definition created : res pyexn (AuthState * SessionToken) :=
  create_session_token sha 0 "tk_one" (inl key) 300 None "realtime" true none.

Definition start : TokenRun :=
  match created with
  | Ok (s, _) => {| tr_now := 0%Z; tr_state := s; tr_requests := []; tr_revoked := 0 |}
  | Raise _ => {| tr_now := 0%Z; tr_state := none; tr_requests := []; tr_revoked := 0 |}
  end.

Definition advance (i : nat) (r : TokenRun) : TokenRun :=
  let p := consume_step sha (tr_now r) "tk_one" (default Begin (tr_requests r !! i)) (tr_state r) in
  {| tr_now := tr_now r; tr_state := p.1; tr_requests := <[i := p.2]> (tr_requests r);
     tr_revoked := tr_revoked r |}.
Definition arrive (r : TokenRun) : TokenRun :=
  {| tr_now := tr_now r; tr_state := tr_state r; tr_requests := tr_requests r ++ [Begin];
     tr_revoked := tr_revoked r |}.
Definition revoke (r : TokenRun) : TokenRun :=
  {| tr_now := tr_now r;
     tr_state := (revoke_session_token sha (tr_now r) "tk_one" (tr_state r)).1;
     tr_requests := tr_requests r; tr_revoked := S (tr_revoked r) |}.

(** Two requests validate the token before either marks it. *)
Definition raced : TokenRun := advance 1 (advance 0 (arrive (arrive start))).

Example only_one : uses (advance 1 (advance 0 raced)) = 1.
Proof. vm_compute. done. Qed.

(** A request that has validated the token is let in although the token was revoked
    meanwhile, and leaves a hash that makes the next validation raise. *)
Example revoked_let_in :
  let r := advance 0 (revoke raced) in
  uses r = 1 ∧ tr_revoked r = 1 ∧
  validate_session_token sha (tr_now r) "tk_one" (tr_state r) = Raise (KeyError "token_hash").
Proof. vm_compute. done. Qed.

(** And a revocation between two marks lets both requests in. *)
Definition both_in : TokenRun := advance 1 (revoke (advance 0 raced)).

Lemma advance_step i r :
  i < length (tr_requests r) → token_step sha "tk_one" r (advance i r).
Proof.
  intros [c Hc]%lookup_lt_is_Some_2. unfold advance. rewrite Hc. by apply token_advance.
Qed.
End AuthDemo.

