(* ===== verification/Sessions.v ===== *)
(** * Realtime sessions

    Models [dalston/orchestrator/session_allocator.py],
    [dalston/orchestrator/session_health.py] and
    [dalston/orchestrator/session_coordinator.py]: the allocation of realtime
    workers to sessions, their release, and the clean-up after gateways that
    crashed.

    Gateways run these operations at the same time, and each of their Redis
    commands is a point where others get in.  An operation is therefore a
    program [prog]: a tree of commands, which can be run at once ([run]) or
    command by command among others ([pool_step]). *)

From S2P Require Import Prelude PyValue Models Catalog Registry Selector Dag Store Effects.

Definition REALTIME_SESSION_TTL_SECONDS : Z := 300.

(** ** State *)

(** The keys of [dalston:realtime:*], and what the engine registry yields. *)
Record Realtime := {
  rt_now : timestamp;
  rt_drawn : nat;                                (* session ids drawn so far *)
  rt_registry : registry;
  rt_counts : gmap string Z;                     (* instance:{i}, field active_sessions *)
  rt_hashes : keyspace string (dict json);       (* session:{id} *)
  rt_sets : gmap string (gset string);           (* instance:{i}:sessions *)
  rt_instances : gset string;                    (* instances *)
  rt_active : gset string;                       (* sessions:active *)
  rt_published : list (string * string);         (* events: instance offline, session *)
}.

Definition count_of (i : string) (s : Realtime) : Z := default 0%Z (rt_counts s !! i).
Definition sessions_of (i : string) (s : Realtime) : gset string := default ∅ (rt_sets s !! i).
Definition session_hash (sid : string) (s : Realtime) : dict json :=
  hgetall (rt_now s) sid (rt_hashes s).

(** ** Commands whose reply is not used *)

Inductive update : Type :=
  | HSetCount (i : string) (n : Z)
  | HSetSession (sid : string) (fields : dict json)
  | ExpireSession (sid : string) (ttl : Z)
  | SAddSession (i sid : string)
  | SRemSession (i sid : string)
  | SAddInstance (i : string)
  | SAddActive (sid : string)
  | SRemActive (sid : string)
  | MarkOffline (i : string)
  | PublishOffline (i sid : string).

Definition set_counts (x : gmap string Z) (s : Realtime) : Realtime := {|
  rt_now := rt_now s; rt_drawn := rt_drawn s; rt_registry := rt_registry s; rt_counts := x;
  rt_hashes := rt_hashes s; rt_sets := rt_sets s; rt_instances := rt_instances s;
  rt_active := rt_active s; rt_published := rt_published s |}.
Definition set_hashes (x : keyspace string (dict json)) (s : Realtime) : Realtime := {|
  rt_now := rt_now s; rt_drawn := rt_drawn s; rt_registry := rt_registry s;
  rt_counts := rt_counts s; rt_hashes := x; rt_sets := rt_sets s;
  rt_instances := rt_instances s; rt_active := rt_active s; rt_published := rt_published s |}.
Definition set_sets (x : gmap string (gset string)) (ins act : gset string) (s : Realtime)
    : Realtime := {|
  rt_now := rt_now s; rt_drawn := rt_drawn s; rt_registry := rt_registry s;
  rt_counts := rt_counts s; rt_hashes := rt_hashes s; rt_sets := x;
  rt_instances := ins; rt_active := act; rt_published := rt_published s |}.
Definition set_registry (x : registry) (p : list (string * string)) (s : Realtime) : Realtime := {|
  rt_now := rt_now s; rt_drawn := rt_drawn s; rt_registry := x; rt_counts := rt_counts s;
  rt_hashes := rt_hashes s; rt_sets := rt_sets s; rt_instances := rt_instances s;
  rt_active := rt_active s; rt_published := p |}.
Definition set_clock (t : timestamp) (n : nat) (s : Realtime) : Realtime := {|
  rt_now := t; rt_drawn := n; rt_registry := rt_registry s; rt_counts := rt_counts s;
  rt_hashes := rt_hashes s; rt_sets := rt_sets s; rt_instances := rt_instances s;
  rt_active := rt_active s; rt_published := rt_published s |}.

Definition offline (r : EngineRecord) : EngineRecord :=
  er_set "offline" (er_last_heartbeat r) (er_active_batch r) (er_active_realtime r) r.

(** [mark_instance_offline] of the registry: one field of the instance's hash. *)
Definition mark_instance_offline (i : string) (reg : registry) : registry :=
  map (λ r, if String.eqb (er_instance r) i then offline r else r) reg.

Definition do_update (u : update) (s : Realtime) : Realtime :=
  match u with
  | HSetCount i n => set_counts (<[i := n]> (rt_counts s)) s
  | HSetSession sid fields => set_hashes (hset (rt_now s) sid fields (rt_hashes s)) s
  | ExpireSession sid ttl => set_hashes (expire (rt_now s) sid ttl (rt_hashes s)) s
  | SAddSession i sid =>
      set_sets (<[i := {[sid]} ∪ sessions_of i s]> (rt_sets s)) (rt_instances s) (rt_active s) s
  | SRemSession i sid =>
      set_sets (<[i := sessions_of i s ∖ {[sid]}]> (rt_sets s)) (rt_instances s) (rt_active s) s
  | SAddInstance i => set_sets (rt_sets s) ({[i]} ∪ rt_instances s) (rt_active s) s
  | SAddActive sid => set_sets (rt_sets s) (rt_instances s) ({[sid]} ∪ rt_active s) s
  | SRemActive sid => set_sets (rt_sets s) (rt_instances s) (rt_active s ∖ {[sid]}) s
  | MarkOffline i => set_registry (mark_instance_offline i (rt_registry s)) (rt_published s) s
  | PublishOffline i sid => set_registry (rt_registry s) (rt_published s ++ [(i, sid)]) s
  end.

(** [HINCRBY i active_sessions d], with the new value. *)
Definition hincrby (i : string) (d : Z) (s : Realtime) : Realtime * Z :=
  let n := (count_of i s + d)%Z in (set_counts (<[i := n]> (rt_counts s)) s, n).

(** ** Programs *)

(** [session_id n] is the [n]-th id drawn from [uuid4()]. *)
Class SessionIds := {
  session_id : nat → string;
  #[global] session_id_inj :: Inj (=) (=) session_id;
}.

Inductive prog (A : Type) : Type :=
  | Ret (a : A)
  | HIncrBy (i : string) (d : Z) (k : Z → prog A)
  | NewSessionId (k : string → prog A)
  | Do (u : update) (k : prog A)
  | Read {B : Type} (f : Realtime → B) (k : B → prog A).
Arguments Ret {A} a.
Arguments HIncrBy {A} i d k.
Arguments NewSessionId {A} k.
Arguments Do {A} u k.
Arguments Read {A B} f k.

Fixpoint pbind {A B} (p : prog A) (f : A → prog B) : prog B :=
  match p with
  | Ret a => f a
  | HIncrBy i d k => HIncrBy i d (λ n, pbind (k n) f)
  | NewSessionId k => NewSessionId (λ x, pbind (k x) f)
  | Do u k => Do u (pbind k f)
  | Read g k => Read g (λ b, pbind (k b) f)
  end.

#[export] Instance prog_ret : MRet prog := @Ret.
#[export] Instance prog_bind : MBind prog := λ A B f p, pbind p f.

Definition incr_by (i : string) (d : Z) : prog Z := HIncrBy i d Ret.
Definition new_session_id : prog string := NewSessionId Ret.
Definition do (u : update) : prog () := Do u (Ret ()).
Definition read {B} (f : Realtime → B) : prog B := Read f Ret.

(** One command of a program; [None] when it has returned. *)
Definition prog_step `{SessionIds} {A} (p : prog A) (s : Realtime) : option (Realtime * prog A) :=
  match p with
  | Ret _ => None
  | HIncrBy i d k => let '(s', n) := hincrby i d s in Some (s', k n)
  | NewSessionId k => Some (set_clock (rt_now s) (S (rt_drawn s)) s, k (session_id (rt_drawn s)))
  | Do u k => Some (do_update u s, k)
  | Read f k => Some (s, k (f s))
  end.

(** All its commands, one after the other. *)
Fixpoint run `{SessionIds} {A} (p : prog A) (s : Realtime) : Realtime * A :=
  match p with
  | Ret a => (s, a)
  | HIncrBy i d k => let '(s', n) := hincrby i d s in run (k n) s'
  | NewSessionId k =>
      run (k (session_id (rt_drawn s))) (set_clock (rt_now s) (S (rt_drawn s)) s)
  | Do u k => run k (do_update u s)
  | Read f k => run (k (f s)) s
  end.

(** ** [SessionAllocator] *)

Record WorkerAllocation := {
  wa_instance : string;
  wa_endpoint : option string;
  wa_session_id : string;
  wa_engine_id : string;
}.

Record SessionState := {
  ss_session_id : string;
  ss_instance : json;
  ss_status : json;
  ss_language : json;
  ss_model : json;
  ss_client_ip : json;
  ss_started_at : timestamp;
}.

(** Who asks for a session, and for what. *)
Record SessionRequest := {
  sq_language : string;
  sq_model : option string;
  sq_client_ip : string;
  sq_engine_id : option string;
  sq_valid_engine_ids : option (list string);
}.

Definition session_fields (q : SessionRequest) (i : string) (t : timestamp) : dict json :=
  [("instance", JStr i); ("status", JStr "active"); ("language", JStr (sq_language q));
   ("model", JStr (default "" (sq_model q))); ("client_ip", JStr (sq_client_ip q));
   ("started_at", JInt t)].

Definition _create_session (q : SessionRequest) (sid i : string) : prog () :=
  t ← read rt_now;
  do (HSetSession sid (session_fields q i t)) ;;
  do (ExpireSession sid REALTIME_SESSION_TTL_SECONDS).

(** What follows a reservation: the record and the indexes. *)
Definition grant (q : SessionRequest) (worker : EngineRecord) (sid : string)
    : prog (option WorkerAllocation) :=
  let i := er_instance worker in
  _create_session q sid i ;;
  do (SAddSession i sid) ;;
  do (SAddInstance i) ;;
  do (SAddActive sid) ;;
  mret (Some {| wa_instance := i; wa_endpoint := er_endpoint worker;
                wa_session_id := sid; wa_engine_id := er_engine_id worker |}).

Fixpoint _acquire_from_list (q : SessionRequest) (workers : list EngineRecord)
    : prog (option WorkerAllocation) :=
  match workers with
  | [] => mret None
  | worker :: workers =>
      sid ← new_session_id;
      new_count ← incr_by (er_instance worker) 1;
      if (new_count <=? er_capacity worker)%Z then grant q worker sid
      else incr_by (er_instance worker) (-1) ;; _acquire_from_list q workers
  end.

Definition available_workers (q : SessionRequest) (s : Realtime) : list EngineRecord :=
  get_available (rt_now s) (rt_registry s) None (Some "realtime") (sq_engine_id q) (sq_model q)
    (sq_valid_engine_ids q).

Definition acquire_worker (q : SessionRequest) : prog (option WorkerAllocation) :=
  available ← read (available_workers q);
  match available with
  | [] => mret None
  | worker :: others =>
      sid ← new_session_id;
      new_count ← incr_by (er_instance worker) 1;
      if (er_capacity worker <? new_count)%Z then
        incr_by (er_instance worker) (-1) ;;
        match others with
        | [] => mret None
        | _ => _acquire_from_list q others
        end
      else grant q worker sid
  end.

Definition _parse_datetime (t : timestamp) (v : option json) : timestamp :=
  match v with Some (JInt x) => x | _ => t end.

Definition session_state (t : timestamp) (sid : string) (instance status : json) (data : dict json)
    : SessionState := {|
  ss_session_id := sid; ss_instance := instance; ss_status := status;
  ss_language := jget_or "language" (JStr "auto") data;
  ss_model := jget_or "model" (JStr "fast") data;
  ss_client_ip := jget_or "client_ip" (JStr "") data;
  ss_started_at := _parse_datetime t (dget "started_at" data) |}.

Definition release_worker (sid : string) : prog (option SessionState) :=
  data ← read (session_hash sid);
  match data, dget "instance" data with
  | _ :: _, Some (JStr (String _ _ as i)) =>
      incr_by i (-1) ;;
      do (SRemSession i sid) ;;
      do (SRemActive sid) ;;
      do (HSetSession sid [("status", JStr "ended")]) ;;
      do (ExpireSession sid 60) ;;
      t ← read rt_now;
      mret (Some (session_state t sid (JStr i) (JStr "ended") data))
  | _, _ => mret None
  end.

Definition get_session (sid : string) : prog (option SessionState) :=
  data ← read (session_hash sid);
  match data with
  | [] => mret None
  | _ =>
      t ← read rt_now;
      mret (Some (session_state t sid (jget_or "instance" (JStr "") data)
                    (jget_or "status" (JStr "unknown") data) data))
  end.

Definition extend_session_ttl (sid : string) (ttl : Z) : prog () := do (ExpireSession sid ttl).

(** ** [HealthMonitor] *)

Definition HEARTBEAT_TIMEOUT : Z := 30.

Definition realtime_workers (s : Realtime) : list EngineRecord :=
  List.filter (supports_interface "realtime") (rt_registry s).

Fixpoint prog_for_each {A} (f : A → prog ()) (l : list A) : prog () :=
  match l with
  | [] => mret ()
  | x :: l => f x ;; prog_for_each f l
  end.

Definition check_worker (t : timestamp) (worker : EngineRecord) : prog () :=
  let i := er_instance worker in
  match String.eqb (er_status worker) "offline", er_last_heartbeat worker with
  | false, Some hb =>
      if (seconds HEARTBEAT_TIMEOUT <? t - hb)%Z then
        do (MarkOffline i) ;;
        session_ids ← read (λ s, elements (sessions_of i s));
        prog_for_each (λ sid, do (PublishOffline i sid)) session_ids
      else mret ()
  | _, _ => mret ()
  end.

Definition check_workers : prog () :=
  workers ← read realtime_workers;
  t ← read rt_now;
  prog_for_each (check_worker t) workers.

(** The instance that has the session, if one does: its slot is given back. *)
Fixpoint clean_instance (sid : string) (instances : list string) : prog () :=
  match instances with
  | [] => mret ()
  | i :: instances =>
      member ← read (λ s, bool_decide (sid ∈ sessions_of i s));
      if (member : bool) then
        new_count ← incr_by i (-1);
        (if (new_count <? 0)%Z then do (HSetCount i 0) else mret ()) ;;
        do (SRemSession i sid)
      else clean_instance sid instances
  end.

Fixpoint clean_sessions (active : list string) : prog nat :=
  match active with
  | [] => mret 0
  | sid :: active =>
      exists_ ← read (λ s, bool_decide (is_Some (rget (rt_now s) (rt_hashes s) sid)));
      if (exists_ : bool) then clean_sessions active
      else
        instances ← read (λ s, elements (rt_instances s));
        clean_instance sid instances ;;
        do (SRemActive sid) ;;
        n ← clean_sessions active;
        mret (S n)
  end.

Definition reconcile_orphaned_sessions : prog nat :=
  active ← read (λ s, elements (rt_active s));
  clean_sessions active.

(** One turn of the monitor's loop. *)
Definition monitor_turn : prog nat :=
  check_workers ;;
  reconcile_orphaned_sessions.

(** ** [SessionCoordinator]: the pool as its callers see it *)

Record WorkerStatus := {
  ws_instance : string;
  ws_endpoint : string;
  ws_status : string;
  ws_capacity : Z;
  ws_active_sessions : Z;
  ws_models : list string;
  ws_engine_id : string;
}.

Definition from_engine_record (r : EngineRecord) : WorkerStatus := {|
  ws_instance := er_instance r; ws_endpoint := default "" (er_endpoint r);
  ws_status := er_status r; ws_capacity := er_capacity r;
  ws_active_sessions := er_active_realtime r; ws_models := default [] (er_models_loaded r);
  ws_engine_id := er_engine_id r |}.

Record CapacityInfo := {
  ci_total_capacity : Z;
  ci_used_capacity : Z;
  ci_available_capacity : Z;
  ci_worker_count : nat;
  ci_ready_workers : nat;
}.

Definition list_workers : prog (list WorkerStatus) :=
  workers ← read realtime_workers; mret (map from_engine_record workers).

Definition get_worker (i : string) : prog (option WorkerStatus) :=
  worker ← read (λ s, find_first (λ r, String.eqb (er_instance r) i) (rt_registry s));
  mret (option_map from_engine_record worker).

Definition get_capacity : prog CapacityInfo :=
  workers ← read realtime_workers;
  let total := foldr Z.add 0%Z (map er_capacity workers) in
  let used := foldr Z.add 0%Z (map er_active_realtime workers) in
  mret {| ci_total_capacity := total; ci_used_capacity := used;
          ci_available_capacity := (total - used)%Z; ci_worker_count := length workers;
          ci_ready_workers := length (List.filter (λ w, mem_str (er_status w) ["ready"; "busy"])
                                        workers) |}.
