(* ===== verification/SessionSpec.v ===== *)
(** * What the operations on realtime sessions do

    The outcome of [acquire_worker], [release_worker] and
    [reconcile_orphaned_sessions] when nothing comes between their commands. *)

From S2P Require Import Prelude PyValue Models Catalog Registry Selector Dag Store Effects Sessions.

Section spec.
Context `{SessionIds}.

Lemma run_bind {A B} (p : prog A) (f : A → prog B) s :
  run (p ≫= f) s = let '(s', a) := run p s in run (f a) s'.
Proof.
  revert s. induction p as [a|i d k IH|k IH|u k IH|C g k IH]; intros s; cbn; try done; apply IH.
Qed.

(** ** Acquisition *)

Definition has_slot (s : Realtime) (w : EngineRecord) : bool :=
  (count_of (er_instance w) s <? er_capacity w)%Z.

(** The two loops of the source are one. *)
Lemma acquire_worker_list q s :
  run (acquire_worker q) s = run (_acquire_from_list q (available_workers q s)) s.
Proof.
  cbn -[available_workers]. destruct (available_workers q s) as [|w others]; [done|].
  cbn. rewrite Z.leb_antisym. destruct (er_capacity w <? _)%Z; cbn [negb]; [|done].
  cbn. by destruct others.
Qed.

(** What is kept when an acquisition fails, or passes a full worker. *)
Record same_sessions (s s' : Realtime) : Prop := {
  ss_counts : ∀ i, count_of i s' = count_of i s;
  ss_hashes : rt_hashes s' = rt_hashes s;
  ss_sets : rt_sets s' = rt_sets s;
  ss_instances : rt_instances s' = rt_instances s;
  ss_active : rt_active s' = rt_active s;
  ss_now : rt_now s' = rt_now s;
  ss_registry : rt_registry s' = rt_registry s;
}.

#[export] Instance same_sessions_po : PreOrder same_sessions.
Proof.
  split; [by split|]. intros s1 s2 s3 [] []. split; etrans; eauto.
Qed.

(** A reservation and its rollback. *)
Definition passed (i : string) (s : Realtime) : Realtime :=
  (hincrby i (-1) (hincrby i 1 (set_clock (rt_now s) (S (rt_drawn s)) s)).1).1.

Lemma count_hincrby i d j s :
  count_of j (hincrby i d s).1 = (count_of j s + if String.eqb i j then d else 0)%Z.
Proof.
  unfold count_of at 1. cbn. destruct (String.eqb_spec i j) as [->|Hne].
  - by rewrite lookup_insert_eq.
  - rewrite lookup_insert_ne by done. unfold count_of. lia.
Qed.

Lemma passed_same i s : same_sessions s (passed i s) ∧ rt_drawn (passed i s) = S (rt_drawn s).
Proof.
  split; [|done]. split; try done. intros j. unfold passed. rewrite !count_hincrby.
  assert (count_of j (set_clock (rt_now s) (S (rt_drawn s)) s) = count_of j s) as -> by done.
  destruct (String.eqb i j); lia.
Qed.

(** The state after a grant. *)
Definition granted_state (q : SessionRequest) (i sid : string) (s : Realtime) : Realtime :=
  foldl (λ s u, do_update u s) (hincrby i 1 (set_clock (rt_now s) (S (rt_drawn s)) s)).1
    [HSetSession sid (session_fields q i (rt_now s)); ExpireSession sid REALTIME_SESSION_TTL_SECONDS;
     SAddSession i sid; SAddInstance i; SAddActive sid].

Lemma acquire_list_run q ws s :
  let '(s', o) := run (_acquire_from_list q ws) s in
  match o with
  | None => same_sessions s s' ∧ ∀ w, w ∈ ws → has_slot s w = false
  | Some a => ∃ before w after s0,
      ws = before ++ w :: after ∧ (∀ b, b ∈ before → has_slot s b = false) ∧ has_slot s w = true ∧
      same_sessions s s0 ∧ rt_drawn s0 = rt_drawn s + length before ∧
      a = {| wa_instance := er_instance w; wa_endpoint := er_endpoint w;
             wa_session_id := session_id (rt_drawn s + length before);
             wa_engine_id := er_engine_id w |} ∧
      s' = granted_state q (er_instance w) (wa_session_id a) s0
  end.
Proof.
  revert s. induction ws as [|w ws IH]; intros s.
  - cbn. split; [done|]. intros w ?%elem_of_nil. done.
  - cbn -[count_of hincrby].
    assert ((count_of (er_instance w) (set_clock (rt_now s) (S (rt_drawn s)) s) + 1 <=? er_capacity w)%Z =
            has_slot s w) as Hslot.
    { unfold has_slot. change (count_of _ (set_clock _ _ s)) with (count_of (er_instance w) s). lia. }
    cbn -[count_of]. rewrite Hslot. destruct (has_slot s w) eqn:Hw.
    + cbn. exists [], w, ws, s. rewrite Nat.add_0_r. split_and!; try done.
      by intros b ?%elem_of_nil.
    + cbn -[count_of]. pose proof (passed_same (er_instance w) s) as [Hs Hd].
      specialize (IH (passed (er_instance w) s)).
      change (run _ _) with (run (_acquire_from_list q ws) (passed (er_instance w) s)).
      destruct (run _ _) as [s' o].
      assert (∀ b, has_slot (passed (er_instance w) s) b = has_slot s b) as Hb.
      { intros b. unfold has_slot. by rewrite (ss_counts _ _ Hs). }
      destruct o as [a|].
      * destruct IH as (before & v & after & s0 & -> & Hbef & Hv & Hs0 & Hd0 & -> & ->).
        exists (w :: before), v, after, s0. cbn [length]. rewrite Hd in Hd0. rewrite Hd.
        rewrite Hb in Hv. split_and!; try done.
        -- intros b [->|Hin]%elem_of_cons; [done|]. rewrite <- Hb. by apply Hbef.
        -- by etrans.
        -- lia.
        -- do 2 f_equal. lia.
      * destruct IH as [Hs' Hws]. split; [by etrans|].
        intros v [->|Hin]%elem_of_cons; [done|]. rewrite <- Hb. by apply Hws.
Qed.

Lemma rget_expire {A} now k ttl (m : keyspace string A) t a :
  rget now m k = Some a → rget t (expire now k ttl m) k = if (t <? now + seconds ttl)%Z then Some a else None.
Proof. intros Hk. unfold expire. rewrite Hk. unfold rget. by rewrite lookup_insert_eq. Qed.

Lemma rget_hset now k fields (m : keyspace string (dict json)) :
  rget now (hset now k fields m) k = Some (dmerge (hgetall now k m) fields).
Proof.
  unfold hgetall, hset, rget. destruct (m !! k) as [[d e]|]; [destruct (alive now e) eqn:He|];
    rewrite lookup_insert_eq; [by rewrite He|done..].
Qed.

Lemma expire_hset_ne now sid fields ttl (m : keyspace string (dict json)) sid' :
  sid' ≠ sid → expire now sid ttl (hset now sid fields m) !! sid' = m !! sid'.
Proof.
  intros Hne. unfold expire. rewrite rget_hset, lookup_insert_ne by done. unfold hset.
  destruct (m !! sid) as [[d e]|]; [destruct (alive now e)|]; by rewrite lookup_insert_ne.
Qed.

(** The hash of a session whose fields are written and whose expiry is set. *)
Lemma session_hset_expire s s' sid fields ttl :
  rt_now s' = rt_now s →
  rt_hashes s' = expire (rt_now s) sid ttl (hset (rt_now s) sid fields (rt_hashes s)) →
  (0 < seconds ttl)%Z → NoDup (dkeys fields) →
  (∀ k v, dget k fields = Some v → dget k (session_hash sid s') = Some v) ∧
  (∀ t, is_Some (rget t (rt_hashes s') sid) ↔ (t < rt_now s + seconds ttl)%Z).
Proof.
  intros Hnow Hh Httl Hnd.
  assert (∀ t, rget t (rt_hashes s') sid = if (t <? rt_now s + seconds ttl)%Z
            then Some (dmerge (hgetall (rt_now s) sid (rt_hashes s)) fields) else None) as Hget.
  { intros t. rewrite Hh. apply rget_expire, rget_hset. }
  split.
  - intros k v Hk. unfold session_hash, hgetall at 1. rewrite Hget, Hnow.
    destruct (Z.ltb_spec (rt_now s) (rt_now s + seconds ttl)); [|lia]. cbn [default from_option id].
    by rewrite dget_dmerge, Hk.
  - intros t. rewrite Hget. destruct (Z.ltb_spec t (rt_now s + seconds ttl)).
    + split; [done|by eauto].
    + split; [by intros []|lia].
Qed.

Record session_granted (q : SessionRequest) (i sid : string) (s s' : Realtime) : Prop := {
  sg_counts : ∀ j, count_of j s' = (count_of j s + if String.eqb i j then 1 else 0)%Z;
  sg_sessions : ∀ j, sessions_of j s' = if String.eqb i j then {[sid]} ∪ sessions_of j s else sessions_of j s;
  sg_instances : rt_instances s' = {[i]} ∪ rt_instances s;
  sg_active : rt_active s' = {[sid]} ∪ rt_active s;
  sg_fields : ∀ k v, dget k (session_fields q i (rt_now s)) = Some v →
    dget k (session_hash sid s') = Some v;
  sg_lives : ∀ t, is_Some (rget t (rt_hashes s') sid) ↔
    (t < rt_now s + seconds REALTIME_SESSION_TTL_SECONDS)%Z;
  sg_others : ∀ sid', sid' ≠ sid → rt_hashes s' !! sid' = rt_hashes s !! sid';
  sg_now : rt_now s' = rt_now s;
}.

Lemma sessions_insert i j x s : default ∅ (<[i := x]> (rt_sets s) !! j) =
  if String.eqb i j then x else sessions_of j s.
Proof.
  destruct (String.eqb_spec i j) as [->|Hne].
  - by rewrite lookup_insert_eq.
  - by rewrite lookup_insert_ne.
Qed.

Lemma session_fields_nodup q i t : NoDup (dkeys (session_fields q i t)).
Proof. apply (bool_decide_unpack _). by vm_compute. Qed.

Lemma granted_state_spec q i sid s s0 :
  same_sessions s s0 → session_granted q i sid s (granted_state q i sid s0).
Proof.
  intros [Hc Hh Hs Hi Ha Hn _].
  destruct (session_hset_expire s0 (granted_state q i sid s0) sid (session_fields q i (rt_now s0))
    REALTIME_SESSION_TTL_SECONDS) as [Hf Hl]; [done..|apply session_fields_nodup|].
  rewrite Hn in Hf, Hl. split; try done.
  - intros j. rewrite <- (Hc j).
    apply (count_hincrby i 1 j (set_clock (rt_now s0) (S (rt_drawn s0)) s0)).
  - intros j. unfold sessions_of at 1. cbn -[sessions_of]. rewrite sessions_insert.
    unfold sessions_of. cbn. rewrite Hs. by destruct (String.eqb_spec i j) as [->|].
  - cbn. by rewrite Hi.
  - cbn. by rewrite Ha.
  - intros sid' Hne. cbn. by rewrite expire_hset_ne, Hh.
Qed.

(** An acquisition gives the session to the first available worker, in the order of the
    registry's preference, whose counter is below its capacity: that counter, the worker's
    session set, the indexes and the session's hash with its five minutes are updated, and
    nothing else; it fails only if no available worker has a slot, and then every counter and
    every session is as before. *)
Theorem acquire_outcome q s :
  let '(s', o) := run (acquire_worker q) s in
  match o with
  | None => same_sessions s s' ∧ ∀ w, w ∈ available_workers q s → has_slot s w = false
  | Some a => ∃ before w after,
      available_workers q s = before ++ w :: after ∧
      (∀ b, b ∈ before → has_slot s b = false) ∧ has_slot s w = true ∧
      a = {| wa_instance := er_instance w; wa_endpoint := er_endpoint w;
             wa_session_id := session_id (rt_drawn s + length before);
             wa_engine_id := er_engine_id w |} ∧
      session_granted q (er_instance w) (wa_session_id a) s s'
  end.
Proof.
  rewrite acquire_worker_list. pose proof (acquire_list_run q (available_workers q s) s) as Hrun.
  destruct (run _ _) as [s' [a|]]; [|done].
  destruct Hrun as (before & w & after & s0 & Hw & Hb & Hs & Hs0 & _ & -> & ->).
  exists before, w, after. split_and!; try done. by apply granted_state_spec.
Qed.

(** ** Release *)

Record session_released (i sid : string) (s s' : Realtime) : Prop := {
  sr_counts : ∀ j, count_of j s' = (count_of j s - if String.eqb i j then 1 else 0)%Z;
  sr_sessions : ∀ j, sessions_of j s' = if String.eqb i j then sessions_of j s ∖ {[sid]} else sessions_of j s;
  sr_instances : rt_instances s' = rt_instances s;
  sr_active : rt_active s' = rt_active s ∖ {[sid]};
  sr_status : dget "status" (session_hash sid s') = Some (JStr "ended");
  sr_lives : ∀ t, is_Some (rget t (rt_hashes s') sid) ↔ (t < rt_now s + seconds 60)%Z;
  sr_others : ∀ sid', sid' ≠ sid → rt_hashes s' !! sid' = rt_hashes s !! sid';
  sr_now : rt_now s' = rt_now s;
}.

(** The state after a release from [i]. *)
Definition released_state (i sid : string) (s : Realtime) : Realtime :=
  foldl (λ s u, do_update u s) (hincrby i (-1) s).1
    [SRemSession i sid; SRemActive sid; HSetSession sid [("status", JStr "ended")];
     ExpireSession sid 60].

Lemma released_state_spec i sid s : session_released i sid s (released_state i sid s).
Proof.
  destruct (session_hset_expire s (released_state i sid s) sid [("status", JStr "ended")] 60)
    as [Hf Hl]; [done..|apply NoDup_singleton|].
  split; try done.
  - intros j. unfold released_state. cbn [foldl]. change (count_of j (hincrby i (-1) s).1 =
      count_of j s - if String.eqb i j then 1 else 0)%Z.
    rewrite count_hincrby. destruct (String.eqb i j); lia.
  - intros j. unfold sessions_of at 1. cbn -[sessions_of]. rewrite sessions_insert.
    unfold sessions_of. cbn. by destruct (String.eqb_spec i j) as [->|].
  - by apply Hf.
  - intros sid' Hne. cbn. by rewrite expire_hset_ne.
Qed.

(** What the source looks for in the hash: an instance with a name. *)
Definition releasable (sid : string) (s : Realtime) : option string :=
  match dget "instance" (session_hash sid s) with
  | Some (JStr (String _ _ as i)) => Some i
  | _ => None
  end.

Lemma release_outcome sid s :
  run (release_worker sid) s =
  match releasable sid s with
  | Some i => (released_state i sid s,
      Some (session_state (rt_now s) sid (JStr i) (JStr "ended") (session_hash sid s)))
  | None => (s, None)
  end.
Proof.
  unfold releasable. cbn -[session_hash dget]. destruct (session_hash sid s) as [|x data]; [done|].
  by destruct (dget "instance" (x :: data)) as [[| | | |[|c i]| |]|].
Qed.

(** A second release in the minute that the hash is kept counts the session out again. *)
Lemma release_twice i sid s :
  releasable sid s = Some i →
  let s' := (run (release_worker sid) s).1 in
  let s'' := (run (release_worker sid) s').1 in
  count_of i s'' = (count_of i s - 2)%Z.
Proof.
  intros Hi s' s''. pose proof (release_outcome sid s) as Hr. rewrite Hi in Hr.
  assert (s' = released_state i sid s) as Hs' by (unfold s'; by rewrite Hr).
  assert (releasable sid s' = Some i) as Hi'.
  { revert Hi. unfold releasable. rewrite Hs'. unfold session_hash, hgetall at 2. cbn -[hset expire rget dget].
    erewrite (rget_expire _ _ _ _ (rt_now s)) by apply rget_hset.
    destruct (Z.ltb_spec (rt_now s) (rt_now s + seconds 60)); [|unfold seconds in *; lia].
    cbn [default from_option id]. rewrite dget_dmerge by apply NoDup_singleton. by cbn -[hgetall dget]. }
  unfold s''. rewrite release_outcome, Hi'. cbn [fst].
  rewrite (sr_counts _ _ _ _ (released_state_spec i sid s')), Hs'.
  rewrite (sr_counts _ _ _ _ (released_state_spec i sid s)), String.eqb_refl. lia.
Qed.

(** A session whose id is new and which is released again leaves the pool as it was found:
    the same counters, session sets and index of active sessions, with only the hash of the
    ended session left for a minute. *)
Theorem acquire_release q s :
  let '(s1, o) := run (acquire_worker q) s in
  match o with
  | None => same_sessions s s1
  | Some a =>
      let sid := wa_session_id a in
      wa_instance a ≠ "" → sid ∉ rt_active s → (∀ j, sid ∉ sessions_of j s) →
      let '(s2, st) := run (release_worker sid) s1 in
      is_Some st ∧ (∀ j, count_of j s2 = count_of j s) ∧
      (∀ j, sessions_of j s2 = sessions_of j s) ∧ rt_active s2 = rt_active s ∧
      (∀ t, is_Some (rget t (rt_hashes s2) sid) ↔ (t < rt_now s + seconds 60)%Z) ∧
      (∀ sid', sid' ≠ sid → rt_hashes s2 !! sid' = rt_hashes s !! sid')
  end.
Proof.
  rewrite acquire_worker_list. pose proof (acquire_list_run q (available_workers q s) s) as Hrun.
  destruct (run _ _) as [s1 [a|]]; [|by destruct Hrun].
  destruct Hrun as (before & w & after & s0 & _ & _ & _ & Hs0 & _ & Ha & ->).
  cbv zeta. set (sid := wa_session_id a). assert (wa_instance a = er_instance w) as -> by by rewrite Ha.
  intros Hne Hact Hsets. pose proof (granted_state_spec q (er_instance w) sid s s0 Hs0) as [].
  rewrite release_outcome.
  assert (releasable sid (granted_state q (er_instance w) sid s0) = Some (er_instance w)) as ->.
  { unfold releasable. rewrite (sg_fields0 "instance" (JStr (er_instance w))) by done.
    by destruct (er_instance w). }
  destruct (released_state_spec (er_instance w) sid (granted_state q (er_instance w) sid s0)).
  split_and!; [by eauto|..].
  - intros j. rewrite sr_counts0, sg_counts0. lia.
  - intros j. rewrite sr_sessions0, sg_sessions0. specialize (Hsets j).
    destruct (String.eqb _ _); [set_solver|done].
  - rewrite sr_active0, sg_active0. set_solver.
  - intros t. rewrite sr_lives0, sg_now0. done.
  - intros sid' Hn. by rewrite sr_others0, sg_others0.
Qed.

(** ** The sweep for orphaned sessions *)

Definition orphan (s : Realtime) (sid : string) : bool :=
  negb (bool_decide (is_Some (rget (rt_now s) (rt_hashes s) sid))).

(** No session is in the sets of two workers. *)
Definition one_host (s : Realtime) : Prop :=
  ∀ sid i j, i ∈ rt_instances s → j ∈ rt_instances s →
    sid ∈ sessions_of i s → sid ∈ sessions_of j s → i = j.

(** The orphans of [l] that worker [i] is known to have. *)
Definition orphans_of (s : Realtime) (i : string) (l : list string) : list string :=
  List.filter (λ sid, orphan s sid && bool_decide (i ∈ rt_instances s ∧ sid ∈ sessions_of i s)) l.

(** [k] slots given back, one after the other. *)
Definition lowered (k : nat) (n : Z) : Z :=
  match k with O => n | _ => Z.max 0 (n - Z.of_nat k) end.

Lemma lowered_S k n : lowered k (Z.max 0 (n - 1)) = lowered (S k) n.
Proof. destruct k; cbn -[Z.of_nat]; lia. Qed.

Definition give_back (i sid : string) (s : Realtime) : Realtime :=
  do_update (SRemSession i sid) (set_counts (<[i := lowered 1 (count_of i s)]> (rt_counts s)) s).

Lemma clean_instance_run sid l s :
  (run (clean_instance sid l) s = (s, ()) ∧ ∀ i, i ∈ l → sid ∉ sessions_of i s) ∨
  ∃ i, i ∈ l ∧ sid ∈ sessions_of i s ∧ run (clean_instance sid l) s = (give_back i sid s, ()).
Proof.
  induction l as [|i l IH].
  - left. split; [done|]. by intros i ?%elem_of_nil.
  - cbn [clean_instance]. cbn -[count_of sessions_of give_back]. case_bool_decide as Hin.
    + right. exists i. split; [by left|]. split; [done|].
      unfold give_back, lowered. cbn -[count_of sessions_of Z.of_nat Z.max].
      destruct (Z.ltb_spec (count_of i s + -1) 0); cbn -[count_of Z.of_nat Z.max].
      * rewrite insert_insert_eq. by replace (Z.max 0 (count_of i s - Z.of_nat 1)) with 0%Z by lia.
      * by replace (Z.max 0 (count_of i s - Z.of_nat 1)) with (count_of i s + -1)%Z by lia.
    + destruct IH as [[Hrun Hl]|(j & Hj & Hs & Hrun)].
      * left. split; [done|]. intros j [->|?]%elem_of_cons; auto.
      * right. exists j. split; [by right|]. done.
Qed.

Record swept (l : list string) (s s' : Realtime) : Prop := {
  sw_counts : ∀ i, count_of i s' = lowered (length (orphans_of s i l)) (count_of i s);
  sw_sessions : ∀ i, sessions_of i s' = sessions_of i s ∖ list_to_set (orphans_of s i l);
  sw_active : rt_active s' = rt_active s ∖ list_to_set (List.filter (orphan s) l);
  sw_instances : rt_instances s' = rt_instances s;
  sw_hashes : rt_hashes s' = rt_hashes s;
  sw_now : rt_now s' = rt_now s;
  sw_registry : rt_registry s' = rt_registry s;
}.

Lemma orphan_same s s' sid :
  rt_hashes s' = rt_hashes s → rt_now s' = rt_now s → orphan s' sid = orphan s sid.
Proof. intros Hh Hn. unfold orphan. by rewrite Hh, Hn. Qed.

Lemma swept_none sid s : orphan s sid = false → swept [sid] s s.
Proof.
  intros Ho. split; try done; unfold orphans_of; cbn; rewrite Ho; cbn; [done|intros i|];
    by rewrite difference_empty_L.
Qed.

Lemma orphans_app s i l1 l2 : orphans_of s i (l1 ++ l2) = orphans_of s i l1 ++ orphans_of s i l2.
Proof. apply List.filter_app. Qed.

Lemma orphans_incl s i l sid : sid ∈ orphans_of s i l → sid ∈ l.
Proof. unfold orphans_of. rewrite !list_elem_of_In. intros [? _]%filter_In. done. Qed.

Lemma swept_cons sid l s s1 s2 : swept [sid] s s1 → swept l s1 s2 → sid ∉ l → swept (sid :: l) s s2.
Proof.
  intros [Hc Hs Ha Hi Hh Hn Hr] [Hc2 Hs2 Ha2 Hi2 Hh2 Hn2 Hr2] Hnin.
  assert (∀ i, orphans_of s1 i l = orphans_of s i l) as Ho.
  { intros i. apply List.filter_ext_in. intros sid' Hin%list_elem_of_In.
    rewrite (orphan_same s s1) by done. f_equal. apply bool_decide_ext. rewrite Hi, Hs.
    assert (sid' ∉ orphans_of s i [sid]); [|set_solver].
    by intros ->%orphans_incl%list_elem_of_singleton. }
  assert (List.filter (orphan s1) l = List.filter (orphan s) l) as Hf.
  { apply List.filter_ext. intros sid'. by apply orphan_same. }
  split; try congruence.
  - intros i. rewrite Hc2, Hc, Ho. change (sid :: l) with ([sid] ++ l).
    rewrite orphans_app, length_app.
    assert (length (orphans_of s i [sid]) ≤ 1) by apply (List.filter_length_le _ [sid]).
    destruct (length (orphans_of s i [sid])) as [|[|]]; [done| |lia]. cbn [Nat.add].
    apply lowered_S.
  - intros i. rewrite Hs2, Hs, Ho. change (sid :: l) with ([sid] ++ l).
    rewrite orphans_app. set_solver.
  - rewrite Ha2, Ha, Hf. cbn. destruct (orphan s sid); set_solver.
Qed.

Lemma give_back_count i sid s j :
  count_of j (give_back i sid s) = if String.eqb i j then lowered 1 (count_of j s) else count_of j s.
Proof.
  unfold count_of at 1. cbn -[lowered count_of]. destruct (String.eqb_spec i j) as [->|Hne].
  - by rewrite lookup_insert_eq.
  - by rewrite lookup_insert_ne.
Qed.

Lemma give_back_sessions i sid s j :
  sessions_of j (give_back i sid s) =
  if String.eqb i j then sessions_of j s ∖ {[sid]} else sessions_of j s.
Proof.
  unfold sessions_of at 1. cbn -[lowered sessions_of count_of]. rewrite sessions_insert.
  by destruct (String.eqb_spec i j) as [->|].
Qed.

Lemma swept_one sid s :
  one_host s → orphan s sid = true →
  swept [sid] s (do_update (SRemActive sid)
    (run (clean_instance sid (elements (rt_instances s))) s).1).
Proof.
  intros Hone Ho. destruct (clean_instance_run sid (elements (rt_instances s)) s)
    as [[-> Hnone]|(i & Hi & Hin & ->)]; cbn [fst].
  - assert (∀ i, orphans_of s i [sid] = []) as Hnil.
    { intros i. cbn. rewrite Ho. cbn. case_bool_decide as Hi; [|done]. destruct Hi as [Hi Hin].
      destruct (Hnone i); [by apply elem_of_elements|done]. }
    split; try done; [intros i; by rewrite Hnil|intros i; rewrite Hnil; set_solver|].
    cbn. rewrite Ho. set_solver.
  - apply elem_of_elements in Hi.
    assert (∀ j, orphans_of s j [sid] = if String.eqb i j then [sid] else []) as Horph.
    { intros j. cbn. rewrite Ho. cbn. case_bool_decide as Hj.
      - destruct Hj as [Hj Hjin]. rewrite (Hone sid i j) by done. by rewrite String.eqb_refl.
      - by destruct (String.eqb_spec i j) as [->|]; [destruct Hj|]. }
    split; try done.
    + intros j. rewrite Horph. etrans; [apply (give_back_count i sid s j)|].
      by destruct (String.eqb i j).
    + intros j. rewrite Horph. etrans; [apply (give_back_sessions i sid s j)|].
      destruct (String.eqb i j); set_solver.
    + cbn. rewrite Ho. set_solver.
Qed.

Lemma one_host_swept l s s' : swept l s s' → one_host s → one_host s'.
Proof.
  intros [_ Hs _ Hi _ _ _] Hone sid i j. rewrite Hi, !Hs. intros ?? [? _]%elem_of_difference [? _]%elem_of_difference.
  by eapply Hone.
Qed.

Lemma clean_sessions_run l s :
  one_host s → NoDup l →
  let '(s', n) := run (clean_sessions l) s in
  swept l s s' ∧ n = length (List.filter (orphan s) l).
Proof.
  revert s. induction l as [|sid l IH]; intros s Hone Hnd.
  - cbn. split; [|done]. split; try done; [intros i|]; set_solver.
  - apply NoDup_cons in Hnd as [Hnin Hnd]. cbn -[clean_instance].
    destruct (bool_decide _) eqn:Halive.
    + assert (orphan s sid = false) as Ho by (unfold orphan; by rewrite Halive).
      specialize (IH s Hone Hnd). destruct (run (clean_sessions l) s) as [s' n].
      destruct IH as [Hsw ->]. rewrite Ho. split; [|done].
      by eapply swept_cons; [apply swept_none| |].
    + assert (orphan s sid = true) as Ho by (unfold orphan; by rewrite Halive).
      pose proof (swept_one sid s Hone Ho) as Hsw1. rewrite Ho. cbn -[clean_instance].
      rewrite run_bind. destruct (run (clean_instance _ _) s) as [s1 []]. cbn [fst] in Hsw1.
      cbn -[clean_sessions do_update]. rewrite run_bind.
      specialize (IH _ (one_host_swept _ _ _ Hsw1 Hone) Hnd).
      destruct (run (clean_sessions l) _) as [s' n]. destruct IH as [Hsw ->].
      split; [by eapply swept_cons|]. cbn. f_equal. f_equal. apply List.filter_ext.
      intros sid'. by apply orphan_same; destruct Hsw1.
Qed.

(** With each session in one worker's set at most, the sweep removes from the index of
    active sessions exactly those whose hash has expired and reports how many; it removes from
    each worker's set the orphans it had, lowers its counter by their number but not below
    zero, and changes no other counter and no hash. *)
Theorem reconcile_outcome s :
  one_host s →
  let '(s', n) := run reconcile_orphaned_sessions s in
  let active := elements (rt_active s) in
  (∀ sid, sid ∈ rt_active s' ↔ sid ∈ rt_active s ∧ is_Some (rget (rt_now s) (rt_hashes s) sid)) ∧
  n = length (List.filter (orphan s) active) ∧
  (∀ i sid, sid ∈ sessions_of i s' ↔ sid ∈ sessions_of i s ∧ sid ∉ orphans_of s i active) ∧
  (∀ i, count_of i s' = lowered (length (orphans_of s i active)) (count_of i s)) ∧
  rt_hashes s' = rt_hashes s.
Proof.
  intros Hone. cbn -[clean_sessions]. pose proof (clean_sessions_run (elements (rt_active s)) s Hone
    (NoDup_elements _)) as Hrun.
  destruct (run (clean_sessions _) s) as [s' n]. destruct Hrun as [[Hc Hs Ha _ Hh _ _] Hn].
  split_and!; try done.
  - intros sid. rewrite Ha, elem_of_difference, elem_of_list_to_set, list_elem_of_In, filter_In, <- list_elem_of_In,
      elem_of_elements. unfold orphan. case_bool_decide; cbn; naive_solver.
  - intros i sid. rewrite Hs. set_solver.
Qed.
End spec.
