(* ===== verification/SessionPool.v ===== *)
(** * Gateways allocating sessions at the same time

    The operations of [Sessions.v] interleaved command by command, any of them
    abandoned anywhere; and what then holds of the capacity of a worker. *)

From S2P Require Import Prelude PyValue Models Catalog Registry Selector Dag Store Effects Sessions SessionSpec.

(** ** Pools of threads *)

Inductive thread : Type :=
  | Acquiring (p : prog (option WorkerAllocation))
  | Releasing (sid : string) (p : prog (option SessionState))
  | Extending (p : prog ())
  | Checking (p : prog ())
  | Reconciling (p : prog nat).

Definition with_thread {A} (f : A → thread) (o : option (Realtime * A)) : option (Realtime * thread) :=
  match o with Some (s, p) => Some (s, f p) | None => None end.

Definition thread_step `{SessionIds} (t : thread) (s : Realtime) : option (Realtime * thread) :=
  match t with
  | Acquiring p => with_thread Acquiring (prog_step p s)
  | Releasing sid p => with_thread (Releasing sid) (prog_step p s)
  | Extending p => with_thread Extending (prog_step p s)
  | Checking p => with_thread Checking (prog_step p s)
  | Reconciling p => with_thread Reconciling (prog_step p s)
  end.

(** The allocations that gateways have got, and the sessions they have begun to
    release. *)
Definition granted (p : list thread) : list WorkerAllocation :=
  omap (λ t, match t with Acquiring (Ret (Some a)) => Some a | _ => None end) p.
Definition releases (p : list thread) : list string :=
  omap (λ t, match t with Releasing sid _ => Some sid | _ => None end) p.

(** The sessions under way on a worker. *)
Definition live (i : string) (p : list thread) : list string :=
  omap (λ t, match t with
             | Acquiring (Ret (Some a)) =>
                 if String.eqb (wa_instance a) i && negb (mem_str (wa_session_id a) (releases p))
                 then Some (wa_session_id a) else None
             | _ => None
             end) p.

(** No session yet. *)
Definition fresh_realtime (t : timestamp) (reg : registry) : Realtime := {|
  rt_now := t; rt_drawn := 0; rt_registry := reg; rt_counts := ∅; rt_hashes := ∅; rt_sets := ∅;
  rt_instances := ∅; rt_active := ∅; rt_published := [] |}.

(** The registry reports the workers' capacities. *)
Definition reg_ok (cap : string → Z) (s : Realtime) : Prop :=
  ∀ r, r ∈ rt_registry s → er_capacity r = cap (er_instance r).

Section pool.
Context `{SessionIds} (cap : string → Z).

(** [sweeps]: whether a monitor also runs [reconcile_orphaned_sessions]. *)
Inductive pool_step (sweeps : bool) (s : Realtime) (p : list thread)
    : Realtime → list thread → Prop :=
  | pool_run s' l t t' r :
      p = l ++ t :: r → thread_step t s = Some (s', t') → pool_step sweeps s p s' (l ++ t' :: r)
  | pool_acquire q : pool_step sweeps s p s (p ++ [Acquiring (acquire_worker q)])
  | pool_release a :
      a ∈ granted p → wa_session_id a ∉ releases p →
      pool_step sweeps s p s
        (p ++ [Releasing (wa_session_id a) (release_worker (wa_session_id a))])
  | pool_extend sid ttl : pool_step sweeps s p s (p ++ [Extending (extend_session_ttl sid ttl)])
  | pool_check : pool_step sweeps s p s (p ++ [Checking check_workers])
  | pool_reconcile :
      sweeps = true → pool_step sweeps s p s (p ++ [Reconciling reconcile_orphaned_sessions])
  | pool_clock t : (rt_now s <= t)%Z → pool_step sweeps s p (set_clock t (rt_drawn s) s) p
  | pool_registry reg :
      let s' := set_registry reg (rt_published s) s in
      reg_ok cap s' → pool_step sweeps s p s' p.

Definition pool_steps (sweeps : bool) : Realtime * list thread → Realtime * list thread → Prop :=
  rtc (λ x y, pool_step sweeps x.1 x.2 y.1 y.2).

(** ** What each thread contributes to the counters *)

Inductive ghost : Type :=
  | GIdle
  | GDrawn (sid : string)              (* an id is drawn *)
  | GHeld (i sid : string)             (* the counter of [i] counts this session *)
  | GOver (i : string)                 (* it counts a try that is to be rolled back *)
  | GReleasing
  | GFound (i : string)                (* the session's instance is read *)
  | GReleased (i sid : string).        (* the session is counted out *)

Definition weight (i : string) (g : ghost) : Z :=
  match g with
  | GHeld j _ | GOver j => if String.eqb j i then 1 else 0
  | GReleased j _ => if String.eqb j i then -1 else 0
  | _ => 0
  end.

(** ... and to the slots in use. *)
Definition slots (i : string) (g : ghost) : Z :=
  match g with
  | GHeld j _ => if String.eqb j i then 1 else 0
  | GReleased j _ => if String.eqb j i then -1 else 0
  | _ => 0
  end.

Definition sum (f : ghost → Z) (gs : list ghost) : Z := foldr (λ g n, (f g + n)%Z) 0%Z gs.

Definition sid_of (g : ghost) : option string :=
  match g with GDrawn sid | GHeld _ sid => Some sid | _ => None end.
Definition held_of (i : string) (g : ghost) : option string :=
  match g with GHeld j sid => if String.eqb j i then Some sid else None | _ => None end.
Definition released_of (i : string) (g : ghost) : option string :=
  match g with GReleased j sid => if String.eqb j i then Some sid else None | _ => None end.

(** ** Protocols *)

(** What the rest of an allocation does, given what it has contributed. *)
Fixpoint acq_ok (g : ghost) (p : prog (option WorkerAllocation)) : Prop :=
  match p with
  | Ret None => g = GIdle
  | Ret (Some a) => g = GHeld (wa_instance a) (wa_session_id a)
  | HIncrBy i d k =>
      match g with
      | GDrawn sid =>
          d = 1%Z ∧ ∀ n, acq_ok (if (n <=? cap i)%Z then GHeld i sid else GOver i) (k n)
      | GOver j => i = j ∧ d = (-1)%Z ∧ ∀ n, acq_ok GIdle (k n)
      | _ => False
      end
  | NewSessionId k => g = GIdle ∧ ∀ sid, acq_ok (GDrawn sid) (k sid)
  | Do u k =>
      match u with
      | HSetSession sid fields =>
          NoDup (dkeys fields) ∧ ∃ i, g = GHeld i sid ∧ dget "instance" fields = Some (JStr i)
      | ExpireSession _ _ | SAddSession _ _ | SAddInstance _ | SAddActive _ => True
      | _ => False
      end ∧ acq_ok g k
  | Read f k => ∀ s, reg_ok cap s → acq_ok g (k (f s))
  end.

(** A release of [sid], which counts out a session of the instance it read. *)
Fixpoint rel_ok (sid : string) (g : ghost) (p : prog (option SessionState)) : Prop :=
  match p with
  | Ret _ => True
  | HIncrBy i d k => g = GFound i ∧ d = (-1)%Z ∧ ∀ n, rel_ok sid (GReleased i sid) (k n)
  | NewSessionId _ => False
  | Do u k =>
      match u with
      | HSetSession _ fields => NoDup (dkeys fields) ∧ dget "instance" fields = None
      | ExpireSession _ _ | SRemSession _ _ | SRemActive _ => True
      | _ => False
      end ∧ rel_ok sid g k
  | Read f k =>
      ∀ s, rel_ok sid (match g, dget "instance" (session_hash sid s) with
                       | GReleasing, Some (JStr i) => GFound i
                       | _, _ => g
                       end) (k (f s))
  end.

(** Programs that touch no counter and write no session. *)
Fixpoint quiet {A} (p : prog A) : Prop :=
  match p with
  | Ret _ => True
  | HIncrBy _ _ _ | NewSessionId _ => False
  | Do u k =>
      match u with
      | ExpireSession _ _ | MarkOffline _ | PublishOffline _ _ => True
      | _ => False
      end ∧ quiet k
  | Read f k => ∀ b, quiet (k b)
  end.

Definition thread_ok (gs : list ghost) (g : ghost) (t : thread) : Prop :=
  match t with
  | Acquiring p => acq_ok g p
  | Releasing sid p =>
      rel_ok sid g p ∧
      match g with
      | GReleasing => True
      | GFound i => GHeld i sid ∈ gs
      | GReleased i sid' => sid' = sid ∧ GHeld i sid ∈ gs
      | _ => False
      end
  | Extending p | Checking p => quiet p ∧ g = GIdle
  | Reconciling _ => False
  end.

(** ** The operations follow their protocols *)

Lemma grant_ok q worker sid :
  acq_ok (GHeld (er_instance worker) sid) (grant q worker sid).
Proof.
  cbn. intros s Hs. split_and!; [|eauto|done..]. apply (bool_decide_unpack _). vm_compute. done.
Qed.

Lemma acquire_list_ok q workers :
  (∀ r, r ∈ workers → er_capacity r = cap (er_instance r)) → acq_ok GIdle (_acquire_from_list q workers).
Proof.
  induction workers as [|w workers IH]; intros Hw; cbn; [done|]. split; [done|]. intros sid.
  split; [done|]. intros n. rewrite Hw by left. destruct (n <=? cap (er_instance w))%Z.
  - apply grant_ok.
  - cbn. split_and!; [done..|]. intros _. apply IH. intros r Hr. apply Hw. by right.
Qed.

Lemma acquire_ok q : acq_ok GIdle (acquire_worker q).
Proof.
  cbn -[available_workers]. intros s Hs.
  assert (∀ r, r ∈ available_workers q s → er_capacity r = cap (er_instance r)) as Hav.
  { intros r Hr. apply Hs. unfold available_workers in Hr. by apply get_available_spec in Hr as (? & _). }
  destruct (available_workers q s) as [|w others]; cbn; [done|].
  split; [done|]. intros sid. split; [done|]. intros n. rewrite Hav by left.
  rewrite Z.leb_antisym. destruct (cap (er_instance w) <? n)%Z; cbn [negb]; [|apply grant_ok].
  cbn. split_and!; [done..|]. intros _. destruct others as [|o os]; [done|].
  apply acquire_list_ok. intros r Hr. apply Hav. by right.
Qed.

Lemma release_ok sid : rel_ok sid GReleasing (release_worker sid).
Proof.
  cbn -[session_hash dget]. intros s. destruct (session_hash sid s) as [|x data]; [done|].
  destruct (dget "instance" (x :: data)) as [[| | | |[|c i]| |]|]; try done.
  cbn -[dget]. split_and!; try done. intros _. split_and!; try done. apply NoDup_singleton.
Qed.

Lemma for_each_quiet {A} (f : A → prog ()) l : (∀ x, quiet (f x)) → quiet (prog_for_each f l).
Proof.
  intros Hf. induction l as [|x l IH]; [done|]. cbn. specialize (Hf x).
  induction (f x) as [a|i d k _|k _|u k IHk|B g k IHk]; cbn in *; try done.
  - by destruct Hf as [? ?%IHk].
  - intros b. by apply IHk.
Qed.

Lemma check_quiet : quiet check_workers.
Proof.
  cbn. intros workers t. apply for_each_quiet. intros w. unfold check_worker.
  destruct (String.eqb _ _); [done|]. destruct (er_last_heartbeat w); [|done].
  destruct (_ <? _)%Z; [|done]. cbn. split; [done|]. intros sids. by apply for_each_quiet.
Qed.

(** ** The invariant *)

Record pool_ok (s : Realtime) (p : list thread) (gs : list ghost) : Prop := {
  po_threads : Forall2 (thread_ok gs) gs p;
  po_counts : ∀ i, count_of i s = sum (weight i) gs;
  po_slots : ∀ i, (sum (slots i) gs <= cap i)%Z;
  po_fresh : NoDup (omap sid_of gs);
  po_drawn : ∀ sid, sid ∈ omap sid_of gs → ∃ k, k < rt_drawn s ∧ sid = session_id k;
  po_releases : NoDup (releases p);
  po_hashes : ∀ sid d e i, rt_hashes s !! sid = Some (d, e) →
    dget "instance" d = Some (JStr i) → GHeld i sid ∈ gs;
  po_registry : reg_ok cap s;
}.

Lemma sum_app f gs1 gs2 : sum f (gs1 ++ gs2) = (sum f gs1 + sum f gs2)%Z.
Proof. unfold sum. induction gs1 as [|g gs1 IH]; cbn [foldr app]; [lia|]. rewrite IH. lia. Qed.

Lemma sum_middle f gl g gr : sum f (gl ++ g :: gr) = (sum f gl + f g + sum f gr)%Z.
Proof. rewrite sum_app. unfold sum. cbn [foldr]. lia. Qed.

Lemma slots_le_weight i gs : (sum (slots i) gs <= sum (weight i) gs)%Z.
Proof.
  unfold sum. induction gs as [|g gs IH]; cbn [foldr]; [done|].
  assert (slots i g <= weight i g)%Z; [|lia]. destruct g; cbn; try done; by case_match.
Qed.

Lemma thread_ok_mono gs gs' g t :
  (∀ i sid, GHeld i sid ∈ gs → GHeld i sid ∈ gs') → thread_ok gs g t → thread_ok gs' g t.
Proof.
  intros Hg. destruct t as [p|sid p|p|p|p]; cbn; try done.
  intros [Hr Hf]. split; [done|]. destruct g; naive_solver.
Qed.

(** ** Effects of updates on what the invariant speaks of *)

Lemma update_counts u s : (∀ i n, u ≠ HSetCount i n) → rt_counts (do_update u s) = rt_counts s.
Proof. by destruct u; cbn; intros Hu; try done; destruct (Hu i n). Qed.

Lemma update_drawn u s : rt_drawn (do_update u s) = rt_drawn s.
Proof. by destruct u. Qed.

Lemma update_registry u s : reg_ok cap s → reg_ok cap (do_update u s).
Proof.
  intros Hs. destruct u; try done. intros r. cbn. unfold mark_instance_offline.
  intros (r0 & -> & Hr0)%list_elem_of_fmap. apply Hs in Hr0. by case_match.
Qed.

Lemma hset_instance now sid fields (m : keyspace string (dict json)) sid' d e i :
  NoDup (dkeys fields) → hset now sid fields m !! sid' = Some (d, e) →
  dget "instance" d = Some (JStr i) →
  (sid' = sid ∧ dget "instance" fields = Some (JStr i)) ∨
  ∃ d0 e0, m !! sid' = Some (d0, e0) ∧ dget "instance" d0 = Some (JStr i).
Proof.
  intros Hnd Hm Hd. destruct (decide (sid' = sid)) as [->|Hne].
  - unfold hset in Hm. destruct (m !! sid) as [[d0 e0]|] eqn:H0;
      [destruct (alive now e0)|]; rewrite lookup_insert_eq in Hm; injection Hm as <- <-;
      rewrite dget_dmerge in Hd by done; destruct (dget "instance" fields) eqn:Hf; naive_solver.
  - right. exists d, e. split; [|done]. unfold hset in Hm.
    destruct (m !! sid) as [[d0 e0]|]; [destruct (alive now e0)|];
      by rewrite lookup_insert_ne in Hm.
Qed.

Lemma expire_lookup {A} now sid ttl (m : keyspace string A) sid' a e :
  expire now sid ttl m !! sid' = Some (a, e) → ∃ e0, m !! sid' = Some (a, e0).
Proof.
  unfold expire, rget. intros Hm. destruct (m !! sid) as [[a0 e0]|] eqn:H0; [|by eauto].
  destruct (alive now e0); [|by eauto]. destruct (decide (sid' = sid)) as [->|Hne].
  - rewrite lookup_insert_eq in Hm. injection Hm as <- <-. by eauto.
  - rewrite lookup_insert_ne in Hm by done. by eauto.
Qed.

(** An update that the protocols allow names no instance but its own thread's. *)
Definition names (u : update) (gs : list ghost) : Prop :=
  match u with
  | HSetSession sid fields => NoDup (dkeys fields) ∧
      ∀ i, dget "instance" fields = Some (JStr i) → GHeld i sid ∈ gs
  | HSetCount _ _ => False
  | _ => True
  end.

Lemma update_hashes u s gs :
  names u gs →
  (∀ sid d e i, rt_hashes s !! sid = Some (d, e) → dget "instance" d = Some (JStr i) →
     GHeld i sid ∈ gs) →
  ∀ sid d e i, rt_hashes (do_update u s) !! sid = Some (d, e) →
    dget "instance" d = Some (JStr i) → GHeld i sid ∈ gs.
Proof.
  intros Hu Hs sid d e i. destruct u; cbn; try (by apply Hs).
  - destruct Hu as [Hnd Hu]. intros Hm Hd.
    destruct (hset_instance _ _ _ _ _ _ _ _ Hnd Hm Hd) as [[-> Hf]|(d0 & e0 & H0 & Hd0)]; eauto.
  - intros (e0 & H0)%expire_lookup. by eapply Hs.
Qed.
(** ** One thread's command *)

Lemma held_middle (gl gr : list ghost) g g' :
  (∀ i sid, g = GHeld i sid → g' = g) →
  ∀ i sid, GHeld i sid ∈ gl ++ g :: gr → GHeld i sid ∈ gl ++ g' :: gr.
Proof.
  intros Hg i sid. rewrite !elem_of_app, !elem_of_cons. intros [?|[Hi|?]]; auto.
  right; left. by rewrite (Hg i sid).
Qed.

Lemma fresh_middle s s' (gl gr : list ghost) g g' :
  (∀ sid, sid_of g' = Some sid →
     sid_of g = Some sid ∨ (rt_drawn s' = S (rt_drawn s) ∧ sid = session_id (rt_drawn s))) →
  rt_drawn s ≤ rt_drawn s' →
  NoDup (omap sid_of (gl ++ g :: gr)) →
  (∀ sid, sid ∈ omap sid_of (gl ++ g :: gr) → ∃ k, k < rt_drawn s ∧ sid = session_id k) →
  NoDup (omap sid_of (gl ++ g' :: gr)) ∧
  (∀ sid, sid ∈ omap sid_of (gl ++ g' :: gr) → ∃ k, k < rt_drawn s' ∧ sid = session_id k).
Proof.
  intros Hsid Hle. rewrite !omap_app. cbn [omap list_omap]. intros Hnd Hdr.
  assert (NoDup (omap sid_of gl ++ omap sid_of gr) ∧
          ∀ sid, sid ∈ omap sid_of gl ++ omap sid_of gr → ∃ k, k < rt_drawn s ∧ sid = session_id k)
    as [Hnd0 Hdr0].
  { destruct (sid_of g); [|done]. rewrite <- Permutation_middle in Hnd. apply NoDup_cons in Hnd as [_ ?].
    split; [done|]. intros sid Hs. apply Hdr. rewrite <- Permutation_middle. by right. }
  assert (∀ sid, sid ∈ omap sid_of gl ++ omap sid_of gr → ∃ k, k < rt_drawn s' ∧ sid = session_id k)
    as Hdr1.
  { intros sid (k & ? & ->)%Hdr0. exists k. split; [lia|done]. }
  destruct (sid_of g') as [sid|]; [|done]. destruct (Hsid sid eq_refl) as [Hg|[Hs' ->]].
  - rewrite Hg in Hnd, Hdr. split; [done|]. intros sid' (k & ? & ->)%Hdr. exists k. split; [lia|done].
  - setoid_rewrite <- Permutation_middle. split.
    + apply NoDup_cons. split; [|done]. intros (k & Hk & Heq)%Hdr0.
      apply (inj session_id) in Heq. lia.
    + intros sid' [->|?]%elem_of_cons; [|by auto]. exists (rt_drawn s). split; [lia|done].
Qed.

Lemma pool_ok_run s s' l t t' r gl g g' gr :
  pool_ok s (l ++ t :: r) (gl ++ g :: gr) → length gl = length l →
  thread_ok (gl ++ g' :: gr) g' t' →
  (∀ i sid, g = GHeld i sid → g' = g) →
  (∀ i, count_of i s' = count_of i s + weight i g' - weight i g)%Z →
  (∀ i, (slots i g' <= slots i g)%Z ∨ (count_of i s' <= cap i)%Z) →
  (∀ sid, sid_of g' = Some sid →
     sid_of g = Some sid ∨ (rt_drawn s' = S (rt_drawn s) ∧ sid = session_id (rt_drawn s))) →
  rt_drawn s ≤ rt_drawn s' →
  releases (l ++ t' :: r) = releases (l ++ t :: r) →
  (∀ sid d e i, rt_hashes s' !! sid = Some (d, e) → dget "instance" d = Some (JStr i) →
     GHeld i sid ∈ gl ++ g' :: gr) →
  reg_ok cap s' →
  pool_ok s' (l ++ t' :: r) (gl ++ g' :: gr).
Proof.
  intros [Ht Hc Hs Hf Hd Hr Hh Hreg] Hlen Ht' Hheld Hc' Hs' Hsid Hle Hrel Hh' Hreg'.
  pose proof (held_middle gl gr g g' Hheld) as Hmono.
  destruct (fresh_middle _ _ _ _ _ _ Hsid Hle Hf Hd) as [Hf' Hd'].
  assert (∀ i, count_of i s' = sum (weight i) (gl ++ g' :: gr)) as Hcount.
  { intros i. rewrite Hc', Hc, !sum_middle. lia. }
  split; try done.
  - apply Forall2_app_inv in Ht as [Hl Hr0]; [|done]. apply Forall2_cons in Hr0 as [_ Hr0].
    apply Forall2_app; [|apply Forall2_cons; split; [done|]].
    + eapply Forall2_impl; [exact Hl|]. intros ??. by apply thread_ok_mono.
    + eapply Forall2_impl; [exact Hr0|]. intros ??. by apply thread_ok_mono.
  - intros i. destruct (Hs' i) as [Hslot|Hcap].
    + specialize (Hs i). rewrite !sum_middle in *. lia.
    + rewrite Hcount in Hcap. pose proof (slots_le_weight i (gl ++ g' :: gr)). lia.
  - by rewrite Hrel.
Qed.

(** The next commands of a thread that leave its contribution as it is. *)
Lemma pool_ok_same s s' l t t' r gl g gr :
  pool_ok s (l ++ t :: r) (gl ++ g :: gr) → length gl = length l →
  thread_ok (gl ++ g :: gr) g t' →
  rt_counts s' = rt_counts s → rt_drawn s ≤ rt_drawn s' →
  releases (l ++ t' :: r) = releases (l ++ t :: r) →
  (∀ sid d e i, rt_hashes s' !! sid = Some (d, e) → dget "instance" d = Some (JStr i) →
     GHeld i sid ∈ gl ++ g :: gr) →
  reg_ok cap s' →
  pool_ok s' (l ++ t' :: r) (gl ++ g :: gr).
Proof.
  intros Hp Hlen Ht Hc Hd Hr Hh Hreg.
  apply (pool_ok_run s s' l t t' r gl g g gr); auto; intros i; [|by left].
  unfold count_of. rewrite Hc. lia.
Qed.

Lemma pool_ok_do s u l t t' r gl g gr :
  pool_ok s (l ++ t :: r) (gl ++ g :: gr) → length gl = length l →
  thread_ok (gl ++ g :: gr) g t' →
  releases (l ++ t' :: r) = releases (l ++ t :: r) →
  names u (gl ++ g :: gr) →
  pool_ok (do_update u s) (l ++ t' :: r) (gl ++ g :: gr).
Proof.
  intros Hp Hlen Ht Hr Hu. eapply pool_ok_same; [done..| | | | |].
  - apply update_counts. by destruct u.
  - by rewrite update_drawn.
  - done.
  - apply update_hashes; [done|]. apply Hp.
  - apply update_registry, Hp.
Qed.

Lemma pool_ok_read s l t t' r gl g g' gr :
  pool_ok s (l ++ t :: r) (gl ++ g :: gr) → length gl = length l →
  thread_ok (gl ++ g' :: gr) g' t' →
  releases (l ++ t' :: r) = releases (l ++ t :: r) →
  (∀ i sid, g = GHeld i sid → g' = g) →
  (∀ i, weight i g' = weight i g ∧ slots i g' = slots i g) → sid_of g' = sid_of g →
  pool_ok s (l ++ t' :: r) (gl ++ g' :: gr).
Proof.
  intros Hp Hlen Ht Hr Hg Hw Hsid.
  eapply pool_ok_run; [done..| | | | | | | |]; try done.
  - intros i. destruct (Hw i). lia.
  - intros i. destruct (Hw i). left. lia.
  - rewrite Hsid. auto.
  - intros sid d e i H0 Hd. apply (held_middle _ _ g); [done|]. by eapply Hp.
  - apply Hp.
Qed.

Lemma incr_count i d s j :
  count_of j (set_counts (<[i := (count_of i s + d)%Z]> (rt_counts s)) s) =
  (count_of j s + if String.eqb i j then d else 0)%Z.
Proof.
  unfold count_of at 1. cbn. destruct (String.eqb_spec i j) as [->|Hne].
  - by rewrite lookup_insert_eq.
  - rewrite lookup_insert_ne by done. unfold count_of. lia.
Qed.

(** ... and [HINCRBY], which changes both alike. *)
Lemma pool_ok_incr s i d l t t' r gl g g' gr :
  let s' := set_counts (<[i := (count_of i s + d)%Z]> (rt_counts s)) s in
  pool_ok s (l ++ t :: r) (gl ++ g :: gr) → length gl = length l →
  thread_ok (gl ++ g' :: gr) g' t' →
  releases (l ++ t' :: r) = releases (l ++ t :: r) →
  (∀ j sid, g = GHeld j sid → g' = g) →
  (∀ j, weight j g' = weight j g + if String.eqb i j then d else 0)%Z →
  (∀ j, (slots j g' <= slots j g)%Z ∨ (count_of j s' <= cap j)%Z) →
  (∀ sid, sid_of g' = Some sid → sid_of g = Some sid) →
  pool_ok s' (l ++ t' :: r) (gl ++ g' :: gr).
Proof.
  intros s' Hp Hlen Ht Hr Hg Hw Hs Hsid.
  eapply pool_ok_run; [done..| | | | | | | |]; try done.
  - intros j. unfold s'. rewrite incr_count, Hw. lia.
  - intros sid ?%Hsid. auto.
  - intros sid dd e j H0 Hd. apply (held_middle _ _ g); [done|]. by eapply Hp.
  - apply Hp.
Qed.

Lemma releases_middle l t t' r :
  (∀ sid p, t = Releasing sid p → ∃ p', t' = Releasing sid p') →
  (∀ sid p', t' = Releasing sid p' → ∃ p, t = Releasing sid p) →
  releases (l ++ t' :: r) = releases (l ++ t :: r).
Proof.
  intros H1 H2. unfold releases. rewrite !omap_app. cbn [omap list_omap]. f_equal.
  destruct t, t'; naive_solver.
Qed.

Ltac same_releases := apply releases_middle; naive_solver.

(** [pool_ok] after some command of the thread at this place. *)
Definition kept (s' : Realtime) l t' r gl gr : Prop :=
  ∃ g', pool_ok s' (l ++ t' :: r) (gl ++ g' :: gr).

Lemma acquiring_kept s s' l p t' r gl g gr :
  pool_ok s (l ++ Acquiring p :: r) (gl ++ g :: gr) → length gl = length l →
  acq_ok g p → thread_step (Acquiring p) s = Some (s', t') → kept s' l t' r gl gr.
Proof.
  intros Hp Hlen Hok Hstep.
  destruct p as [a|i d k|k|u k|B f k]; cbn -[do_update count_of] in Hstep; try done;
    injection Hstep as <- <-; cbn in Hok.
  - destruct g; try done.
    + destruct Hok as [-> Hok]. specialize (Hok (count_of i s + 1)%Z).
      destruct (_ <=? _)%Z eqn:Hle.
      * exists (GHeld i sid). eapply pool_ok_incr; [done..|by same_releases|done| | |done].
        -- intros j. cbn. by destruct (String.eqb i j).
        -- intros j. rewrite incr_count. cbn. destruct (String.eqb_spec i j) as [<-|]; [right; lia|by left].
      * exists (GOver i). eapply pool_ok_incr; [done..|by same_releases|done| | |done].
        -- intros j. cbn. by destruct (String.eqb i j).
        -- intros j. by left.
    + destruct Hok as (<- & -> & Hok). exists GIdle.
      eapply pool_ok_incr; [done..|apply Hok|by same_releases|done| | |done].
      * intros j. cbn. by destruct (String.eqb i j).
      * intros j. by left.
  - destruct Hok as [-> Hok]. exists (GDrawn (session_id (rt_drawn s))).
    eapply pool_ok_run; [done..|apply Hok|done| | | | |by same_releases| |]; cbn.
    + intros i. unfold count_of. cbn. lia.
    + intros i. by left.
    + naive_solver.
    + lia.
    + intros sid d e i H0 Hd. apply (held_middle _ _ GIdle); [done|]. by eapply Hp.
    + apply Hp.
  - destruct Hok as [Hu Hok]. exists g. eapply pool_ok_do; [done..|by same_releases|].
    destruct u; try done. destruct Hu as (Hnd & i & -> & Hi). split; [done|]. intros j Hj.
    simplify_eq. apply elem_of_app. right. by left.
  - exists g. eapply pool_ok_read; [done..| |by same_releases|by auto|done|done]. apply Hok, Hp.
Qed.

(** What a release reads of its session names the thread that holds it. *)
Lemma session_instance s p gs sid i :
  pool_ok s p gs → dget "instance" (session_hash sid s) = Some (JStr i) → GHeld i sid ∈ gs.
Proof.
  intros Hp. unfold session_hash, hgetall, rget.
  destruct (rt_hashes s !! sid) as [[d e]|] eqn:H0; [|done]. destruct (alive _ e); [|done].
  by apply (po_hashes _ _ _ Hp sid d e).
Qed.

Lemma releasing_kept s s' l sid p t' r gl g gr :
  pool_ok s (l ++ Releasing sid p :: r) (gl ++ g :: gr) → length gl = length l →
  thread_ok (gl ++ g :: gr) g (Releasing sid p) →
  thread_step (Releasing sid p) s = Some (s', t') → kept s' l t' r gl gr.
Proof.
  intros Hp Hlen [Hok Hg] Hstep.
  destruct p as [a|i d k|k|u k|B f k]; cbn -[do_update count_of] in Hstep; try done;
    injection Hstep as <- <-; cbn -[session_hash dget] in Hok; [..|specialize (Hok s)].
  - destruct Hok as (-> & -> & Hok). exists (GReleased i sid).
    eapply pool_ok_incr; [done..| |by same_releases|done| | |done].
    + split; [apply Hok|]. split; [done|]. by apply (held_middle _ _ (GFound i)).
    + intros j. cbn. by destruct (String.eqb i j).
    + intros j. left. cbn. by destruct (String.eqb i j).
  - destruct Hok as [Hu Hok]. exists g. eapply pool_ok_do; [done..|by same_releases|].
    destruct u; try done. destruct Hu as [Hnd Hi]. split; [done|]. intros j Hj.
    by rewrite Hi in Hj.
  - destruct (match g with GReleasing => true | _ => false end) eqn:Hr.
    + destruct g; try done.
      destruct (dget "instance" (session_hash sid s)) as [[| | | |i| |]|] eqn:Hi;
        [| | | |exists (GFound i)| | |]; try exists GReleasing;
        (eapply pool_ok_read; [done..| |by same_releases|done|done|done]); (split; [done|]); try done.
      apply (held_middle _ _ GReleasing); [done|]. by eapply session_instance.
    + exists g. eapply pool_ok_read; [done..| |by same_releases|by auto|done|done].
      split; [|done]. by destruct g.
Qed.

Lemma quiet_kept {A} (mk : prog A → thread) s s' l p t' r gl g gr :
  (∀ p gs h, thread_ok gs h (mk p) ↔ quiet p ∧ h = GIdle) →
  (∀ p p', releases (l ++ mk p' :: r) = releases (l ++ mk p :: r)) →
  pool_ok s (l ++ mk p :: r) (gl ++ g :: gr) → length gl = length l →
  quiet p → g = GIdle → with_thread mk (prog_step p s) = Some (s', t') → kept s' l t' r gl gr.
Proof.
  intros Hmk Hrel Hp Hlen Hok -> Hstep. exists GIdle.
  destruct p as [a|i d k|k|u k|B f k]; cbn -[do_update] in Hstep; try done;
    injection Hstep as <- <-; cbn in Hok; try done.
  - destruct Hok as [Hu Hok]. eapply pool_ok_do; try done; [by apply Hmk|by destruct u].
  - eapply pool_ok_read; try done. apply Hmk. by split.
Qed.

Lemma thread_kept s s' l t t' r gl g gr :
  pool_ok s (l ++ t :: r) (gl ++ g :: gr) → length gl = length l →
  thread_ok (gl ++ g :: gr) g t → thread_step t s = Some (s', t') → kept s' l t' r gl gr.
Proof.
  intros Hp Hlen Hok Hstep. destruct t as [p|sid p|p|p|p].
  - by eapply acquiring_kept.
  - by eapply releasing_kept.
  - destruct Hok. eapply (quiet_kept Extending); eauto. intros. same_releases.
  - destruct Hok. eapply (quiet_kept Checking); eauto. intros. same_releases.
  - done.
Qed.

(** ** New threads *)

Lemma pool_ok_new s p gs t g :
  pool_ok s p gs → thread_ok gs g t → (∀ i, weight i g = 0%Z ∧ slots i g = 0%Z) →
  sid_of g = None → NoDup (releases (p ++ [t])) → pool_ok s (p ++ [t]) (gs ++ [g]).
Proof.
  intros [Ht Hc Hs Hf Hd Hr Hh Hreg] Hok Hw Hsid Hrel.
  assert (omap sid_of (gs ++ [g]) = omap sid_of gs) as Hsids.
  { rewrite omap_app. cbn [omap list_omap]. rewrite Hsid. apply app_nil_r. }
  assert (∀ i sid, GHeld i sid ∈ gs → GHeld i sid ∈ gs ++ [g]) as Hmono.
  { intros i sid Hin. apply elem_of_app. by left. }
  split; try done.
  - apply Forall2_app; [|apply Forall2_cons; split; [by eapply thread_ok_mono|done]].
    eapply Forall2_impl; [done|]. intros ??. by apply thread_ok_mono.
  - intros i. rewrite sum_app, Hc. unfold sum at 3. cbn [foldr]. destruct (Hw i). lia.
  - intros i. rewrite sum_app. unfold sum at 2. cbn [foldr]. destruct (Hw i). specialize (Hs i). lia.
  - by rewrite Hsids.
  - by rewrite Hsids.
  - eauto.
Qed.

Lemma releases_new p t :
  releases (p ++ [t]) = releases p ++ match t with Releasing sid _ => [sid] | _ => [] end.
Proof. unfold releases. rewrite omap_app. by destruct t. Qed.

Lemma pool_step_ok s p s' p' gs :
  pool_ok s p gs → pool_step false s p s' p' → ∃ gs', pool_ok s' p' gs'.
Proof.
  intros Hp Hstep. destruct Hstep as [s' l t t' r -> Ht|q|a Ha Hr|sid ttl| |Hf|t Ht|reg s' Hreg].
  - pose proof (po_threads _ _ _ Hp) as H2. apply Forall2_app_inv_r in H2 as (gl & gs0 & Hl & H2 & ->).
    apply Forall2_cons_inv_r in H2 as (g & gr & Hg & Hgr & ->).
    destruct (thread_kept s s' l t t' r gl g gr) as [g' Hk]; eauto using Forall2_length.
  - exists (gs ++ [GIdle]). apply pool_ok_new; try done; [apply acquire_ok|].
    rewrite releases_new, app_nil_r. apply Hp.
  - exists (gs ++ [GReleasing]). apply pool_ok_new; try done.
    + split; [apply release_ok|done].
    + rewrite releases_new. apply NoDup_app. split; [apply Hp|]. split; [|apply NoDup_singleton].
      intros sid Hsid ->%list_elem_of_singleton. done.
  - exists (gs ++ [GIdle]). apply pool_ok_new; try done.
    rewrite releases_new, app_nil_r. apply Hp.
  - exists (gs ++ [GIdle]). apply pool_ok_new; try done; [split; [apply check_quiet|done]|].
    rewrite releases_new, app_nil_r. apply Hp.
  - done.
  - exists gs. by destruct Hp.
  - exists gs. by destruct Hp.
Qed.

(** ** Counting sessions *)

Lemma omap_sublist {A B C} (R : A → B → Prop) (f : A → option C) (h : B → option C) l k :
  Forall2 R l k → (∀ x y z, R x y → f x = Some z → h y = Some z) →
  sublist (omap f l) (omap h k).
Proof.
  intros HR Hf. induction HR as [|x y l k Hxy _ IH]; [done|]. cbn [omap list_omap].
  destruct (f x) as [z|] eqn:Hx.
  - rewrite (Hf x y z) by done. by apply sublist_skip.
  - destruct (h y); [by apply sublist_cons|done].
Qed.

Lemma sum_slots i gs :
  sum (slots i) gs =
  (Z.of_nat (length (omap (held_of i) gs)) - Z.of_nat (length (omap (released_of i) gs)))%Z.
Proof.
  unfold sum. induction gs as [|g gs IH]; [done|]. cbn [foldr omap list_omap]. rewrite IH.
  destruct g; cbn; try lia; destruct (String.eqb _ _); cbn [length]; lia.
Qed.

Lemma held_sids i gs : sublist (omap (held_of i) gs) (omap sid_of gs).
Proof.
  apply (omap_sublist eq); [by apply Forall2_same_length_lookup; naive_solver|].
  intros x ? z <-. destruct x; cbn; try done. by destruct (String.eqb _ _).
Qed.

Lemma live_held i s p gs : pool_ok s p gs → sublist (live i p) (omap (held_of i) gs).
Proof.
  intros Hp. eapply (omap_sublist (λ t g, thread_ok gs g t)).
  - apply Forall2_flip, Hp.
  - intros t g sid Hok Ht. destruct t as [[[a|]|?|?|?|?]|?|?|?|?]; try done. cbn in Ht, Hok. subst g.
    cbn. destruct (String.eqb _ _); [|done]. by destruct (negb _).
Qed.

Lemma acq_released i sid p : ¬ acq_ok (GReleased i sid) p.
Proof.
  induction p as [[a|]|j d k _|k _|u k IH|B f k IH]; cbn; try naive_solver.
  intros Hok. apply (IH (f (fresh_realtime 0 []))), Hok. intros r Hr. by apply elem_of_nil in Hr.
Qed.

Lemma released_releases i s p gs : pool_ok s p gs → sublist (omap (released_of i) gs) (releases p).
Proof.
  intros Hp. eapply (omap_sublist (thread_ok gs)); [apply Hp|].
  intros g t sid Hok Hg. destruct g; try done. cbn in Hg. destruct (String.eqb _ _); [|done].
  injection Hg as ->. destruct t; cbn in *; try naive_solver. by apply acq_released in Hok.
Qed.

Lemma released_held i s p gs sid :
  pool_ok s p gs → sid ∈ omap (released_of i) gs → sid ∈ omap (held_of i) gs.
Proof.
  intros Hp (g & Hg & Hr)%list_elem_of_omap. destruct g as [| | | | | |j sid']; try done. cbn in Hr.
  destruct (String.eqb_spec j i) as [->|]; [|done]. injection Hr as ->.
  apply list_elem_of_lookup in Hg as [n Hn].
  destruct (Forall2_lookup_l _ _ _ _ _ (po_threads _ _ _ Hp) Hn) as (t & _ & Ht).
  apply list_elem_of_omap. exists (GHeld i sid). cbn. rewrite String.eqb_refl. split; [|done].
  destruct t; cbn in Ht; try naive_solver. by apply acq_released in Ht.
Qed.

(** The sessions on a worker are counted, and have a slot each. *)
Lemma live_slots i s p gs :
  pool_ok s p gs → NoDup (live i p) ∧ (Z.of_nat (length (live i p)) <= sum (slots i) gs)%Z.
Proof.
  intros Hp. pose proof (live_held i s p gs Hp) as Hlive.
  assert (NoDup (omap (held_of i) gs)) as Hheld.
  { eapply sublist_NoDup; [apply (po_fresh _ _ _ Hp)|apply held_sids]. }
  assert (NoDup (live i p)) as Hnd by by eapply sublist_NoDup. split; [done|].
  pose proof (released_releases i s p gs Hp) as Hrel.
  assert (length (live i p ++ omap (released_of i) gs) <= length (omap (held_of i) gs)) as Hle.
  { apply submseteq_length, NoDup_submseteq.
    - apply NoDup_app. split; [done|]. split.
      + intros sid Hin Hr. apply (sublist_subseteq _ _ Hrel) in Hr. revert Hin Hr. clear.
        unfold live. intros (t & _ & Ht)%list_elem_of_omap Hr.
        destruct t as [[[a|]|?|?|?|?]|?|?|?|?]; try done.
        destruct (_ && _) eqn:Hb; [|done]. injection Ht as <-.
        apply andb_true_iff in Hb as [_ Hb]. apply mem_str_spec in Hr. by rewrite Hr in Hb.
      + by eapply sublist_NoDup; [apply (po_releases _ _ _ Hp)|].
    - intros sid [?|?]%elem_of_app; [by eapply elem_of_sublist|by eapply released_held]. }
  rewrite length_app in Hle. rewrite sum_slots. lia.
Qed.

Lemma pool_ok_fresh t reg : (∀ i, 0 <= cap i)%Z → reg_ok cap (fresh_realtime t reg) →
  pool_ok (fresh_realtime t reg) [] [].
Proof.
  intros Hcap Hreg. split; try done; try constructor.
  intros sid ?. by apply elem_of_nil in H0.
Qed.

Lemma pool_steps_ok x y gs :
  pool_ok x.1 x.2 gs → pool_steps false x y → ∃ gs', pool_ok y.1 y.2 gs'.
Proof.
  intros Hp Hsteps. revert gs Hp. induction Hsteps as [x|x y z Hxy _ IH]; intros gs Hp; [by exists gs|].
  destruct (pool_step_ok _ _ _ _ _ Hp Hxy) as [gs' Hgs']. by eapply IH.
Qed.

(** C27: However gateways that acquire, extend and release sessions, each abandoned at any of
    its Redis commands, interleave with each other, with checks of the workers and with the
    clock, the sessions a worker is serving are distinct, are all counted by its counter, and
    are no more than its capacity. *)
Theorem realtime_capacity t reg s p i :
  (∀ i, 0 <= cap i)%Z → reg_ok cap (fresh_realtime t reg) →
  pool_steps false (fresh_realtime t reg, []) (s, p) →
  NoDup (live i p) ∧ (Z.of_nat (length (live i p)) <= cap i)%Z ∧
  (Z.of_nat (length (live i p)) <= count_of i s)%Z.
Proof.
  intros Hcap Hreg Hsteps.
  destruct (pool_steps_ok (fresh_realtime t reg, []) (s, p) [] (pool_ok_fresh _ _ Hcap Hreg) Hsteps) as [gs Hp].
  destruct (live_slots i s p gs Hp) as [Hnd Hle].
  pose proof (po_slots _ _ _ Hp i). pose proof (slots_le_weight i gs).
  pose proof (po_counts _ _ _ Hp i). cbn [fst snd] in *. split; [done|]. lia.
Qed.
End pool.

(** ** Schedules

    A schedule says which step is taken next; [play] takes them. *)

Inductive action : Type :=
  | ARun (n : nat)
  | AAcquire (q : SessionRequest)
  | ARelease (sid : string)
  | AExtend (sid : string) (ttl : Z)
  | AReconcile
  | AClock (t : timestamp).

Definition act `{SessionIds} (a : action) (x : Realtime * list thread)
    : option (Realtime * list thread) :=
  let '(s, p) := x in
  match a with
  | ARun n =>
      t ← p !! n;
      '(s', t') ← thread_step t s;
      Some (s', take n p ++ t' :: drop (S n) p)
  | AAcquire q => Some (s, p ++ [Acquiring (acquire_worker q)])
  | ARelease sid =>
      if mem_str sid (map wa_session_id (granted p)) && negb (mem_str sid (releases p))
      then Some (s, p ++ [Releasing sid (release_worker sid)]) else None
  | AExtend sid ttl => Some (s, p ++ [Extending (extend_session_ttl sid ttl)])
  | AReconcile => Some (s, p ++ [Reconciling reconcile_orphaned_sessions])
  | AClock t => if (rt_now s <=? t)%Z then Some (set_clock t (rt_drawn s) s, p) else None
  end.

Fixpoint play `{SessionIds} (l : list action) (x : Realtime * list thread)
    : option (Realtime * list thread) :=
  match l with
  | [] => Some x
  | a :: l => x' ← act a x; play l x'
  end.

Definition sweep_free (a : action) : bool := match a with AReconcile => false | _ => true end.

Lemma act_step `{SessionIds} cap sweeps a x y :
  sweeps = true ∨ sweep_free a = true → act a x = Some y →
  pool_step cap sweeps x.1 x.2 y.1 y.2.
Proof.
  destruct x as [s p]. intros Hsw Ha. destruct a as [n|q|sid|sid ttl| |t]; cbn in Ha.
  - apply bind_Some in Ha as (th & Hn & Ha). apply bind_Some in Ha as ([s' th'] & Hst & Ha).
    injection Ha as <-. eapply pool_run; [|exact Hst]. symmetry. by apply take_drop_middle.
  - injection Ha as <-. apply pool_acquire.
  - destruct (mem_str _ _) eqn:Hm; [|done]. destruct (mem_str _ (releases p)) eqn:Hr; [done|].
    injection Ha as <-. apply mem_str_spec, list_elem_of_fmap in Hm as (a & -> & Ha).
    apply pool_release; [done|]. intros Hin%mem_str_spec. congruence.
  - injection Ha as <-. apply pool_extend.
  - injection Ha as <-. apply pool_reconcile. by destruct Hsw.
  - destruct (_ <=? _)%Z eqn:Ht; [|done]. injection Ha as <-. apply pool_clock. lia.
Qed.

Lemma play_steps `{SessionIds} cap sweeps l x y :
  sweeps = true ∨ forallb sweep_free l = true → play l x = Some y → pool_steps cap sweeps x y.
Proof.
  revert x. induction l as [|a l IH]; intros x Hsw Hp; cbn in *.
  - injection Hp as <-. apply rtc_refl.
  - apply bind_Some in Hp as (x' & Ha & Hp). eapply rtc_l.
    + eapply act_step; [|done]. destruct Hsw as [?|Hsw]; [by left|right]. by apply andb_true_iff in Hsw as [? _].
    + apply IH; [|done]. destruct Hsw as [?|Hsw]; [by left|right]. by apply andb_true_iff in Hsw as [_ ?].
Qed.

(** ** A worker with one slot *)

Module SessionDemo.

#[local] Instance demo_ids : SessionIds := {| session_id := pretty |}.

Definition slot_engine : EngineRecord :=
  new_record "rt-0" "parakeet" "transcribe" "ready" ["realtime"] 1 (Some "ws://rt-0:9000")
    None None.

Definition any_session : SessionRequest := {|
  sq_language := "en"; sq_model := None; sq_client_ip := "10.0.0.1"; sq_engine_id := None;
  sq_valid_engine_ids := None |}.

Definition one_slot (i : string) : Z := 1.
Definition idle_pool : Realtime * list thread := (fresh_realtime 0 [slot_engine], []).

(** Thread [n] acquires a session. *)
Definition acquires (n : nat) : list action := AAcquire any_session :: repeat (ARun n) 9.

(** A release that stops after its [HINCRBY]; the slot goes to another session, which is kept
    alive; the released session's key expires, and its slot is given back again. *)
Definition overbooking : list action :=
  acquires 0 ++ [ARelease "0"; ARun 1; ARun 1] ++ acquires 2 ++
  [AClock (seconds 200); AExtend "1" 300; ARun 3; AClock (seconds 301); AReconcile] ++
  repeat (ARun 4) 7 ++ acquires 5.

(** Two gateways after one slot, of which one gets it, releases it, and a third gets it. *)
Definition contention : list action :=
  [AAcquire any_session; AAcquire any_session; ARun 0; ARun 1; ARun 1; ARun 0; ARun 0; ARun 1;
   ARun 1] ++ repeat (ARun 0) 6 ++ ARelease "1" :: repeat (ARun 2) 7 ++ acquires 3.

(** The capacity of a worker is not safe from the sweep for orphaned sessions: a gateway
    that stops between the [HINCRBY] of a release and its removal of the session from the
    indexes leaves a session whose slot is given back again when its key has expired, and a
    worker with one slot then serves two sessions. *)
Theorem sweep_overbooks :
  ∃ s p, pool_steps one_slot true idle_pool (s, p) ∧
    one_slot "rt-0" = 1%Z ∧ live "rt-0" p = ["1"; "2"] ∧ count_of "rt-0" s = 1%Z ∧
    (∀ sid, sid ∈ live "rt-0" p → sid ∉ releases p ∧ session_hash sid s ≠ []).
Proof.
  destruct (play overbooking idle_pool) as [[s p]|] eqn:Hp; [|exfalso; revert Hp; by vm_compute].
  exists s, p. split; [by eapply play_steps; [left|]|].
  assert (live "rt-0" p = ["1"; "2"] ∧ count_of "rt-0" s = 1%Z ∧ releases p = ["0"] ∧
          session_hash "1" s ≠ [] ∧ session_hash "2" s ≠ []) as (-> & -> & -> & H1 & H2).
  { revert Hp. vm_compute. intros [= <- <-]. by split_and!. }
  split_and!; [done..|]. intros sid Hsid. set_unfold in Hsid.
  destruct Hsid as [->| [->|[]]]; (split; [|done]); by intros ?%list_elem_of_singleton.
Qed.

(** An acquisition that stops after its [HINCRBY] keeps the slot: no sweep gives it back. *)
Lemma reservation_leaks :
  ∃ s p, pool_steps one_slot true idle_pool (s, p) ∧ live "rt-0" p = [] ∧
    run reconcile_orphaned_sessions s = (s, 0) ∧ (run (acquire_worker any_session) s).2 = None.
Proof.
  destruct (play [AAcquire any_session; ARun 0; ARun 0; ARun 0] idle_pool) as [[s p]|] eqn:Hp;
    [|exfalso; revert Hp; by vm_compute].
  exists s, p. split; [by eapply play_steps; [left|]|]. vm_compute in Hp.
  injection Hp as <- <-. by vm_compute.
Qed.

Lemma realtime_capacity_witness :
  ∃ s p, play contention idle_pool = Some (s, p) ∧ live "rt-0" p = ["2"] ∧
    (Z.of_nat (length (live "rt-0" p)) <= one_slot "rt-0")%Z.
Proof.
  destruct (play contention idle_pool) as [[s p]|] eqn:Hp; [|exfalso; revert Hp; by vm_compute].
  exists s, p. split; [done|]. split; [revert Hp; vm_compute; by intros [= <- <-]|].
  apply (realtime_capacity one_slot 0 [slot_engine] s p "rt-0").
  - done.
  - by intros r ->%list_elem_of_singleton.
  - apply (play_steps one_slot false contention); [by right|exact Hp].
Defined.

Lemma acquire_release_witness :
  ∃ s1 a, run (acquire_worker any_session) idle_pool.1 = (s1, Some a) ∧ count_of "rt-0" s1 = 1%Z ∧
    ∀ j, count_of j (run (release_worker (wa_session_id a)) s1).1 = count_of j idle_pool.1.
Proof.
  assert (∃ s1 a, run (acquire_worker any_session) idle_pool.1 = (s1, Some a)) as (s1 & a & Hrun)
    by (do 2 eexists; vm_compute; reflexivity).
  exists s1, a. split; [done|].
  assert (wa_instance a = "rt-0" ∧ wa_session_id a = "0" ∧ count_of "rt-0" s1 = 1%Z) as (Hi & Hsid & Hc)
    by (vm_compute in Hrun; injection Hrun as <- <-; done).
  split; [done|]. pose proof (acquire_release any_session idle_pool.1) as Ht. rewrite Hrun in Ht.
  cbv zeta in Ht. destruct (run (release_worker _) s1) as [s2 st].
  destruct Ht as (_ & Ht & _); [by rewrite Hi| | |exact Ht].
  - apply not_elem_of_empty.
  - intros j. apply not_elem_of_empty.
Defined.

(** A session whose gateway is gone for five minutes. *)
Definition orphaned : Realtime :=
  let s := (run (acquire_worker any_session) idle_pool.1).1 in set_clock (seconds 301) 1 s.

Lemma reconcile_outcome_witness :
  count_of "rt-0" orphaned = 1%Z ∧ (run reconcile_orphaned_sessions orphaned).2 = 1 ∧
  count_of "rt-0" (run reconcile_orphaned_sessions orphaned).1 = 0%Z.
Proof.
  split; [vm_compute; reflexivity|].
  assert (one_host orphaned) as Hone.
  { intros sid i j Hi Hj _ _. assert (rt_instances orphaned = {["rt-0"]}) as Hr by (vm_compute; reflexivity).
    rewrite Hr in Hi, Hj. set_solver. }
  pose proof (reconcile_outcome orphaned Hone) as Ht.
  destruct (run reconcile_orphaned_sessions orphaned) as [s' n]. cbv zeta in Ht.
  destruct Ht as (_ & -> & _ & Hc & _). cbn [fst snd]. rewrite Hc. by split; vm_compute.
Defined.

End SessionDemo.
