(* ===== verification/Streams.v ===== *)
(** * Task queues and cancellation flags

    Models the producer side of [dalston/common/streams.py]: appending a task
    to the stream of its queue, at most once for a dedupe key, and the flag
    that tells engines a job is cancelled.  A message id is the position of the
    message in its stream. *)

From S2P Require Import Prelude PyValue Models Catalog Registry Selector Dag Store Effects.

Definition JOB_CANCELLED_TTL_SECONDS : Z := 86400.
Definition DEDUPE_TTL_SECONDS : Z := 86400.

Definition stream (queue : string) (r : Redis) : list StreamMessage :=
  default [] (r_streams r !! queue).

Definition xadd (queue : string) (m : StreamMessage) (r : Redis) : Redis :=
  put_streams (<[queue := stream queue r ++ [m]]> (r_streams r)) r.

Definition task_message (now : timestamp) (task_id job_id : UUID) (timeout_s : Z)
    : StreamMessage := {|
  sm_task_id := task_id; sm_job_id := job_id; sm_enqueued_at := now;
  sm_timeout_at := (now + seconds timeout_s)%Z |}.

(** [XGROUP CREATE ... MKSTREAM] creates the stream when it is missing. *)
Definition ensure_stream_group (queue : string) : M () :=
  redis (λ r, match r_streams r !! queue with
              | Some _ => r
              | None => put_streams (<[queue := []]> (r_streams r)) r
              end).

Definition add_task (queue : string) (task_id job_id : UUID) (timeout_s : Z) : M nat :=
  ensure_stream_group queue ;;
  t ← now;
  effect (λ w, (set_redis (xadd queue (task_message t task_id job_id timeout_s) (w_redis w)) w,
                length (stream queue (w_redis w)))).

(** The Lua script: [SET NX EX] on the dedupe key and [XADD], atomically. *)
Definition enqueue_once (queue : string) (m : StreamMessage) (key : UUID * nat) (ttl : Z)
    (now : timestamp) (r : Redis) : Redis * option nat :=
  match set_nx now key () ttl (r_dedupe r) with
  | (d, true) => (xadd queue m (put_dedupe d r), Some (length (stream queue r)))
  | (_, false) => (r, None)
  end.

Definition add_task_once (queue : string) (task_id job_id : UUID) (timeout_s : Z)
    (dedupe_key : UUID * nat) : M (option nat) :=
  ensure_stream_group queue ;;
  t ← now;
  effect (λ w,
    let '(r, id) := enqueue_once queue (task_message t task_id job_id timeout_s) dedupe_key
                      DEDUPE_TTL_SECONDS (w_now w) (w_redis w) in
    (set_redis r w, id)).

Definition mark_job_cancelled (job_id : UUID) : M () :=
  t ← now;
  redis (λ r, put_cancelled
    (<[job_id := ((), Some (t + seconds JOB_CANCELLED_TTL_SECONDS)%Z)]> (r_cancelled r)) r).

Definition is_job_cancelled (job_id : UUID) : M bool :=
  gets (λ w, bool_decide (is_Some (rget (w_now w) (r_cancelled (w_redis w)) job_id))).

(** ** Lemmas *)

(** The messages of a task in a queue. *)
Definition messages_for (task_id : UUID) (queue : string) (r : Redis) : nat :=
  length (List.filter (λ m, N.eqb (sm_task_id m) task_id) (stream queue r)).

Lemma stream_xadd queue m r queue' :
  stream queue' (xadd queue m r) =
  if String.eqb queue queue' then stream queue r ++ [m] else stream queue' r.
Proof.
  unfold stream, xadd; cbn. destruct (String.eqb_spec queue queue') as [->|Hq].
  - by rewrite lookup_insert_eq.
  - by rewrite lookup_insert_ne.
Qed.

Lemma enqueue_once_spec queue m key ttl now r :
  let '(r', id) := enqueue_once queue m key ttl now r in
  match rget now (r_dedupe r) key with
  | Some _ => r' = r ∧ id = None
  | None => stream queue r' = stream queue r ++ [m] ∧ is_Some id ∧
      ((0 < ttl)%Z → is_Some (rget now (r_dedupe r') key))
  end.
Proof.
  unfold enqueue_once, set_nx. destruct (rget now (r_dedupe r) key) eqn:Hk; [done|].
  split_and!; [|done|].
  - rewrite stream_xadd, String.eqb_refl. done.
  - intros Httl. cbn. unfold rget. rewrite lookup_insert_eq. cbn.
    unfold seconds. destruct (Z.ltb_spec now (now + ttl * 1000000)); [done|lia].
Qed.
