(* ===== verification/RateLimiter.v ===== *)
(** * Rate limiter

    Models [dalston/gateway/services/rate_limiter.py]: the sliding window of
    requests kept by a Lua script in a sorted set, the counters of concurrent
    jobs and sessions, and the decrement guarded by a key per job.  Times are
    microseconds; the tenants' windows are independent. *)

From S2P Require Import Prelude PyValue Models Catalog Registry Selector Dag Store Effects.

Definition CONCURRENT_COUNTER_TTL_SECONDS : Z := 86400.
Definition WINDOW_SECONDS : Z := 60.

Record RateLimitResult := {
  rl_allowed : bool;
  rl_limit : Z;
  rl_remaining : Z;
  rl_reset_seconds : option Z;
}.

(** ** The sliding window *)

(** Lua's [tostring(now)] keeps 14 significant digits: for a Unix time in
    seconds, which has ten digits before the point, four decimals. *)
Definition lua_tostring (now : timestamp) : Z := ((now + 50) / 100)%Z.

(** [ZREMRANGEBYSCORE key 0 window_start] *)
Definition zremrangebyscore (hi : timestamp) (l : list window_entry) : list window_entry :=
  List.filter (λ x, negb ((0 <=? we_score x)%Z && (we_score x <=? hi)%Z)) l.

(** [ZADD key score member]: a member is there once. *)
Fixpoint zadd (member : Z) (score : timestamp) (l : list window_entry) : list window_entry :=
  match l with
  | [] => [{| we_member := member; we_score := score |}]
  | x :: l => if (we_member x =? member)%Z then {| we_member := member; we_score := score |} :: l
              else x :: zadd member score l
  end.

(** [SLIDING_WINDOW_SCRIPT] on the entries of the key. *)
Definition sliding_window (limit : Z) (now : timestamp) (l : list window_entry)
    : list window_entry * (bool * Z) :=
  let l := zremrangebyscore (now - seconds WINDOW_SECONDS) l in
  let current_count := Z.of_nat (length l) in
  if (current_count <? limit)%Z
  then (zadd (lua_tostring now) now l, (true, limit - current_count - 1))%Z
  else (l, (false, 0%Z)).

(** The script on the key: an expired key is empty; [EXPIRE] on success, and
    the expiry the key had otherwise. *)
Definition run_window (limit : Z) (now : timestamp) (tenant : UUID)
    (m : keyspace UUID (list window_entry)) : keyspace UUID (list window_entry) * (bool * Z) :=
  let expiry := match m !! tenant with Some (_, e) => if alive now e then e else None | None => None end in
  let '(l, r) := sliding_window limit now (default [] (rget now m tenant)) in
  (<[tenant := (l, if r.1 then Some (now + seconds (WINDOW_SECONDS + 1))%Z else expiry)]> m, r).

Definition check_request_rate (requests_per_minute : Z) (tenant : UUID) : M RateLimitResult :=
  t ← Effects.now;
  '(allowed, remaining) ← effect (λ w,
    let '(m, r) := run_window requests_per_minute t tenant (r_requests (w_redis w)) in
    (set_redis (put_requests m (w_redis w)) w, r));
  mret {| rl_allowed := allowed; rl_limit := requests_per_minute; rl_remaining := remaining;
          rl_reset_seconds := Some WINDOW_SECONDS |}.

(** ** Concurrent counters *)

(** [int(current) if current else 0] *)
Definition counter (now : timestamp) (m : keyspace UUID Z) (k : UUID) : Z :=
  default 0%Z (rget now m k).

Definition check_counter (limit n : Z) : RateLimitResult := {|
  rl_allowed := (n <? limit)%Z; rl_limit := limit; rl_remaining := Z.max 0 (limit - n);
  rl_reset_seconds := None |}.

Definition check_concurrent_jobs (max_concurrent_jobs : Z) (tenant : UUID) : M RateLimitResult :=
  gets (λ w, check_counter max_concurrent_jobs (counter (w_now w) (r_jobs (w_redis w)) tenant)).

Definition check_concurrent_sessions (max_concurrent_sessions : Z) (tenant : UUID)
    : M RateLimitResult :=
  gets (λ w, check_counter max_concurrent_sessions
               (counter (w_now w) (r_sessions (w_redis w)) tenant)).

(** [INCR; EXPIRE] in a transaction, and [DECR; EXPIRE] with the new value. *)
Definition bump (now : timestamp) (k : UUID) (n : Z) (m : keyspace UUID Z) : keyspace UUID Z * Z :=
  let '(m, v) := add_counter now k n m in
  (expire now k CONCURRENT_COUNTER_TTL_SECONDS m, v).

Definition set_zero (now : timestamp) (k : UUID) (m : keyspace UUID Z) : keyspace UUID Z :=
  <[k := (0, Some (now + seconds CONCURRENT_COUNTER_TTL_SECONDS))%Z]> m.

Definition increment_concurrent_jobs (tenant : UUID) : M () :=
  t ← Effects.now; redis (λ r, put_jobs (bump t tenant 1 (r_jobs r)).1 r).

Definition decrement_concurrent_jobs (tenant : UUID) : M () :=
  t ← Effects.now;
  result ← effect (λ w,
    let '(m, v) := bump t tenant (-1) (r_jobs (w_redis w)) in
    (set_redis (put_jobs m (w_redis w)) w, v));
  when (result <? 0)%Z (redis (λ r, put_jobs (set_zero t tenant (r_jobs r)) r)).

Definition decrement_concurrent_jobs_once (job_id tenant : UUID) : M bool :=
  t ← Effects.now;
  was_set ← effect (λ w,
    let '(g, b) := set_nx t job_id () CONCURRENT_COUNTER_TTL_SECONDS
                     (r_decremented (w_redis w)) in
    (set_redis (put_decremented g (w_redis w)) w, b));
  if negb was_set then mret false
  else
    result ← effect (λ w,
      let '(m, v) := bump t tenant (-1) (r_jobs (w_redis w)) in
      (set_redis (put_jobs m (w_redis w)) w, v));
    when (result <? 0)%Z (redis (λ r, put_jobs (set_zero t tenant (r_jobs r)) r)) ;;
    mret true.

Definition increment_concurrent_sessions (tenant : UUID) : M () :=
  t ← Effects.now; redis (λ r, put_sessions (bump t tenant 1 (r_sessions r)).1 r).

Definition decrement_concurrent_sessions (tenant : UUID) : M () :=
  t ← Effects.now;
  result ← effect (λ w,
    let '(m, v) := bump t tenant (-1) (r_sessions (w_redis w)) in
    (set_redis (put_sessions m (w_redis w)) w, v));
  when (result <? 0)%Z (redis (λ r, put_sessions (set_zero t tenant (r_sessions r)) r)).

(** ** The window over time

    [requests limit l ts]: the script run at the times [ts] one after the
    other; the answers in order. *)

Fixpoint requests (limit : Z) (m : keyspace UUID (list window_entry)) (tenant : UUID)
    (ts : list timestamp) : keyspace UUID (list window_entry) * list (timestamp * bool) :=
  match ts with
  | [] => (m, [])
  | t :: ts =>
      let '(m1, r) := run_window limit t tenant m in
      let '(m2, rs) := requests limit m1 tenant ts in
      (m2, (t, r.1) :: rs)
  end.

(** The times of the admitted requests, and how many of a list of times are
    after [lo] and not after [hi]. *)
Definition admitted (rs : list (timestamp * bool)) : list timestamp :=
  map fst (List.filter snd rs).
Definition within (lo hi : timestamp) (l : list timestamp) : nat :=
  length (List.filter (λ t, (lo <? t) && (t <=? hi))%Z l).
Definition after (lo : timestamp) (l : list timestamp) : nat :=
  length (List.filter (λ t, lo <? t)%Z l).

(** ** Lemmas *)

Lemma filter_length_mono {A} (f g : A → bool) l :
  (∀ x, x ∈ l → f x = true → g x = true) →
  length (List.filter f l) ≤ length (List.filter g l).
Proof.
  induction l as [|x l IH]; intros H; cbn; [done|].
  assert (length (List.filter f l) ≤ length (List.filter g l)) as Hl.
  { apply IH. intros y Hy. apply H. by right. }
  specialize (H x ltac:(left)). destruct (f x), (g x); cbn; lia.
Qed.

Lemma zadd_fresh member score l :
  (∀ x, x ∈ l → we_member x ≠ member) →
  zadd member score l = l ++ [{| we_member := member; we_score := score |}].
Proof.
  induction l as [|x l IH]; intros H; cbn; [done|].
  destruct (Z.eqb_spec (we_member x) member) as [Heq|_].
  - by destruct (H x ltac:(left)).
  - f_equal. apply IH. intros y Hy. apply H. by right.
Qed.

(** What the key holds, when the admitted requests are [hist], none later than
    [last]: the recent ones, and an expiry late enough not to lose them. *)
Record window_inv (limit : Z) (tenant : UUID) (m : keyspace UUID (list window_entry))
    (hist : list timestamp) (last : timestamp) : Prop := {
  wi_hist : ∀ h, h ∈ hist → (0 <= h <= last)%Z;
  wi_bound : ∀ lo hi, (hi - lo <= seconds WINDOW_SECONDS)%Z →
    (Z.of_nat (within lo hi hist) <= limit)%Z;
  wi_entries : match m !! tenant with
    | None => hist = []
    | Some (l, e) =>
        (∀ x, x ∈ l → we_member x = lua_tostring (we_score x) ∧ we_score x ∈ hist) ∧
        (∀ lo, (last - seconds WINDOW_SECONDS <= lo)%Z →
           after lo (map we_score l) = after lo hist) ∧
        (∀ x, e = Some x → ∀ h, h ∈ hist → (h + seconds (WINDOW_SECONDS + 1) <= x)%Z)
    end;
}.

(** The live entries the script sees at [t], once trimmed. *)
Lemma window_live limit tenant m hist last t :
  window_inv limit tenant m hist last → (last <= t)%Z →
  let l := zremrangebyscore (t - seconds WINDOW_SECONDS) (default [] (rget t m tenant)) in
  (∀ x, x ∈ l → we_member x = lua_tostring (we_score x) ∧ we_score x ∈ hist) ∧
  (∀ lo, (t - seconds WINDOW_SECONDS <= lo)%Z → after lo (map we_score l) = after lo hist) ∧
  Z.of_nat (length l) = Z.of_nat (after (t - seconds WINDOW_SECONDS) hist).
Proof.
  intros [Hh _ He] Hlt. cbv zeta.
  assert (∀ l lo, (t - seconds WINDOW_SECONDS <= lo)%Z → (∀ x, x ∈ l → we_score x ∈ hist) →
    after lo (map we_score (zremrangebyscore (t - seconds WINDOW_SECONDS) l))
    = after lo (map we_score l)) as Htrim.
  { intros l lo Hlo Hin. unfold after, zremrangebyscore.
    induction l as [|x l IH]; cbn; [done|].
    specialize (IH ltac:(intros; apply Hin; by right)).
    pose proof (Hh _ (Hin x ltac:(left))).
    destruct (Z.leb_spec 0 (we_score x)), (Z.leb_spec (we_score x) (t - seconds WINDOW_SECONDS));
      cbn; try lia; destruct (Z.ltb_spec lo (we_score x)); cbn; lia. }
  assert (∀ l, (∀ x, x ∈ l → we_score x ∈ hist) →
    length (zremrangebyscore (t - seconds WINDOW_SECONDS) l)
    = after (t - seconds WINDOW_SECONDS) (map we_score l)) as Hlen.
  { intros l Hin. unfold after, zremrangebyscore.
    induction l as [|x l IH]; cbn; [done|].
    specialize (IH ltac:(intros; apply Hin; by right)).
    pose proof (Hh _ (Hin x ltac:(left))).
    destruct (Z.leb_spec 0 (we_score x)), (Z.leb_spec (we_score x) (t - seconds WINDOW_SECONDS)),
      (Z.ltb_spec (t - seconds WINDOW_SECONDS) (we_score x)); cbn; lia. }
  assert (∀ lo, (t - seconds WINDOW_SECONDS <= lo)%Z → (∀ h, h ∈ hist → (h <= lo)%Z) →
    after lo hist = 0) as Hold.
  { intros lo _ Hall. unfold after. clear -Hall. induction hist as [|h l IH]; cbn; [done|].
    pose proof (Hall h ltac:(left)). destruct (Z.ltb_spec lo h); [lia|].
    apply IH. intros x Hx. apply Hall. by right. }
  unfold rget. destruct (m !! tenant) as [[l e]|] eqn:Hm; try rewrite Hm in He.
  2:{ subst hist. split_and!; [intros x Hx; inversion Hx|done|done]. }
  destruct He as (Hmem & Haft & Hexp). destruct (alive t e) eqn:Hal; cbn [from_option]; unfold id.
  - split_and!.
    + intros x Hx. apply Hmem. by apply elem_of_filter_b in Hx as [Hx _].
    + intros lo Hlo. rewrite Htrim by naive_solver. apply Haft. lia.
    + rewrite Hlen by naive_solver. rewrite Haft; [done|lia].
  - destruct e as [x|]; [|done]. cbn in Hal. apply Z.ltb_ge in Hal.
    assert (∀ lo, (t - seconds WINDOW_SECONDS <= lo)%Z → after lo hist = 0) as H0.
    { intros lo Hlo. apply Hold; [done|]. intros h Hin. pose proof (Hexp x eq_refl h Hin).
      unfold seconds, WINDOW_SECONDS in *. lia. }
    split_and!; [intros y Hy; inversion Hy| |]; intros; rewrite H0; done || lia.
Qed.

Lemma after_cons lo t l : after lo (t :: l) = (if (lo <? t)%Z then 1 else 0) + after lo l.
Proof. unfold after. cbn. by destruct (lo <? t)%Z. Qed.

Lemma after_app lo l1 l2 : after lo (l1 ++ l2) = after lo l1 + after lo l2.
Proof. unfold after. by rewrite List.filter_app, length_app. Qed.

(** One request: the invariant goes on, with [t] added when it is admitted. *)
Lemma window_step limit tenant m hist last t :
  window_inv limit tenant m hist last → (last <= t)%Z → (0 <= t)%Z →
  (∀ h, h ∈ hist → lua_tostring h ≠ lua_tostring t) →
  let '(m', r) := run_window limit t tenant m in
  window_inv limit tenant m' (if r.1 : bool then t :: hist else hist) t.
Proof.
  intros Hinv Hlt H0 Hfresh.
  destruct (window_live _ _ _ _ _ _ Hinv Hlt) as (Hmem & Haft & Hlen).
  destruct Hinv as [Hh Hb He]. unfold run_window, sliding_window.
  set (l := zremrangebyscore _ _) in *. rewrite Hlen.
  destruct (Z.ltb_spec (Z.of_nat (after (t - seconds WINDOW_SECONDS) hist)) limit) as [Hc|Hc]; cbn.
  - assert (zadd (lua_tostring t) t l
      = l ++ [{| we_member := lua_tostring t; we_score := t |}]) as ->.
    { apply zadd_fresh. intros x Hx. destruct (Hmem x Hx) as [-> Hin]. by apply Hfresh. }
    split.
    + intros h [->|Hin]%elem_of_cons; [lia|]. specialize (Hh h Hin). lia.
    + intros lo hi Hw. unfold within. cbn.
      destruct (Z.ltb_spec lo t), (Z.leb_spec t hi); cbn; try apply Hb; try done.
      assert (within lo hi hist ≤ after (t - seconds WINDOW_SECONDS) hist) as Hle.
      { apply filter_length_mono. intros x _. rewrite andb_true_iff, !Z.ltb_lt, Z.leb_le.
        unfold seconds, WINDOW_SECONDS in *. lia. }
      unfold within in Hle. lia.
    + rewrite lookup_insert_eq. split_and!.
      * intros x [Hx|Hx]%elem_of_app; [destruct (Hmem x Hx); split; [done|by right]|].
        apply list_elem_of_singleton in Hx as ->. split; [done|by left].
      * intros lo Hlo. rewrite map_app, after_app, Haft by done. cbn [map we_score].
        rewrite !after_cons. change (after lo []) with 0. lia.
      * intros x [= <-] h [->|Hin]%elem_of_cons; [lia|]. specialize (Hh h Hin). lia.
  - split.
    + intros h Hin. specialize (Hh h Hin). lia.
    + done.
    + rewrite lookup_insert_eq. split_and!; [done|done|].
      intros x Hx h Hin. destruct (m !! tenant) as [[l' e]|]; [|done].
      destruct (alive t e); [|done]. by apply He.
Qed.

Lemma requests_inv limit tenant ts : ∀ m hist last,
  window_inv limit tenant m hist last →
  StronglySorted Z.le (last :: ts) → Forall (λ t, 0 <= t)%Z ts →
  NoDup (map lua_tostring (ts ++ hist)) →
  let '(m', rs) := requests limit m tenant ts in
  ∃ hist' last', window_inv limit tenant m' hist' last' ∧ hist' ≡ₚ admitted rs ++ hist.
Proof.
  induction ts as [|t ts IH]; intros m hist last Hinv Hs H0 Hnd; cbn; [by exists hist, last|].
  apply StronglySorted_inv in Hs as [Hs Hlast]. apply Forall_cons in Hlast as [Hlt _].
  apply Forall_cons in H0 as [H0 Hts]. cbn in Hnd. apply NoDup_cons in Hnd as [Hnt Hnd].
  change (map ?f ?l) with (f <$> l) in *.
  pose proof (window_step limit tenant m hist last t Hinv Hlt H0) as Hstep.
  destruct (run_window limit t tenant m) as [m1 r].
  specialize (Hstep ltac:(intros h Hh Heq; apply Hnt; rewrite <-Heq; apply list_elem_of_fmap_2;
    apply elem_of_app; by right)).
  specialize (IH m1 _ t Hstep Hs Hts).
  destruct (requests limit m1 tenant ts) as [m2 rs].
  destruct IH as (hist' & last' & Hi & Hp).
  { change (map ?f ?l) with (f <$> l). rewrite fmap_app in *. destruct r.1; cbn [fmap list_fmap];
      [|done]. rewrite <-Permutation_middle. by constructor. }
  exists hist', last'. split; [done|]. rewrite Hp. unfold admitted. cbn.
  destruct r.1; cbn; [|done]. by rewrite <-Permutation_middle.
Qed.

Lemma within_perm lo hi l l' : l ≡ₚ l' → within lo hi l = within lo hi l'.
Proof.
  unfold within. induction 1 as [|x l l' _ IH|x y l|l1 l2 l3 _ IH1 _ IH2]; cbn.
  - done.
  - destruct (_ && _); cbn; congruence.
  - by destruct (_ && _), (_ && _).
  - congruence.
Qed.


(** Within one tick there is no limit: the sorted set keeps one member for
    all the requests of the tick, so with a limit of two or more any number of
    simultaneous requests is admitted. *)
Theorem window_same_tick limit tenant t n :
  (2 <= limit)%Z → (0 <= t)%Z →
  (requests limit ∅ tenant (repeat t n)).2 = repeat (t, true) n.
Proof.
  intros Hlim H0.
  set (e := {| we_member := lua_tostring t; we_score := t |}).
  assert (∀ n m, m !! tenant = Some ([e], Some (t + seconds (WINDOW_SECONDS + 1))%Z) →
    (requests limit m tenant (repeat t n)).2 = repeat (t, true) n) as Hgo.
  { clear n. induction n as [|n IH]; intros m Hm; [done|].
    assert (run_window limit t tenant m = (<[tenant := ([e], Some (t + seconds (WINDOW_SECONDS + 1))%Z)]> m,
      (true, limit - 2)%Z)) as Hrun.
    { unfold run_window, sliding_window, rget. rewrite Hm. unfold alive.
      destruct (Z.ltb_spec t (t + seconds (WINDOW_SECONDS + 1)));
        [|unfold seconds, WINDOW_SECONDS in *; lia].
      cbn. destruct (Z.leb_spec 0 t); [|lia].
      destruct (Z.leb_spec t (t - seconds WINDOW_SECONDS));
        [unfold seconds, WINDOW_SECONDS in *; lia|]. cbn.
      destruct (Z.ltb_spec (Z.of_nat 1) limit); [|lia]. rewrite Z.eqb_refl. cbn.
      replace (limit - Z.of_nat 1 - 1)%Z with (limit - 2)%Z by lia. done. }
    cbn [repeat requests]. rewrite Hrun. specialize (IH (<[tenant := ([e], Some (t + seconds (WINDOW_SECONDS + 1))%Z)]> m)).
    rewrite lookup_insert_eq in IH. specialize (IH eq_refl).
    destruct (requests _ _ _ _) as [m2 rs]. cbn [fst snd] in *. by rewrite IH. }
  destruct n as [|n]; [done|]. cbn [repeat requests]. unfold run_window, sliding_window, rget.
  rewrite lookup_empty. cbn. destruct (Z.ltb_spec (Z.of_nat 0) limit); [|lia]. cbn.
  specialize (Hgo n (<[tenant := ([e], Some (t + seconds (WINDOW_SECONDS + 1))%Z)]> ∅)).
  rewrite lookup_insert_eq in Hgo. specialize (Hgo eq_refl).
  fold e. destruct (requests _ _ _ _) as [m2 rs]. cbn [fst snd] in *. by rewrite Hgo.
Qed.


Lemma window_same_tick_witness :
  (2 <= 2)%Z ∧ (requests 2 ∅ 7%N (repeat (seconds 5) 4)).2 = repeat (seconds 5, true) 4.
Proof. split; [lia|]. apply window_same_tick; vm_compute; congruence. Defined.
