(* ===== verification/Scheduler.v ===== *)
(** * Task scheduler

    Models [dalston/orchestrator/scheduler.py]: the checks of [queue_task], the
    metadata and its lifetime, the request document with its resolved artifact
    bindings, and the append to the engine's stream; and the timeout computed
    from the audio duration and the engine's real-time factor. *)

From S2P Require Import Prelude PyValue Models Catalog Registry Selector Dag Store.
From S2P Require Import Effects Streams Transcript.

(** ** The environment of the orchestrator *)

Record Settings := {
  engine_unavailable_behavior : string;
  engine_wait_timeout_seconds : Z;
  task_stale_timeout_s : Z;
  speech_regions_env : string;
}.

(** What the orchestrator reads but never changes: settings, registry, catalog
    and model table; the responses engines wrote to S3; pydantic's validation of
    a stage's configuration and of the documents a transcript is assembled
    from; and the ids [uuid4] will return. *)
Class Env := {
  settings : Settings;
  registry_records : registry;
  catalog : EngineCatalog;
  model_rows : option (list ModelRow);
  task_response : UUID → UUID → option (dict json);
  stage_config_valid : string → dict json → bool;
  pydantic :: Pydantic;
  fresh_uuid : nat → UUID;
}.

Definition MIN_TIMEOUT_S : Z := 60.
Definition DEFAULT_RTF : pyfloat := float_of_Z 1.
Definition TIMEOUT_SAFETY_FACTOR : pyfloat := float_of_Z 3.
Definition TASK_UNKNOWN_DURATION_TIMEOUT_S : Z := 3600.

(** ** Timeouts *)

(** The factor to estimate with: the preferred hardware's, else the other's. *)
Definition choose_rtf (rtf_gpu rtf_cpu : option pyfloat) (use_gpu : bool) : pyfloat :=
  let rtf := if use_gpu && bool_decide (is_Some rtf_gpu) then rtf_gpu
             else match rtf_cpu with Some r => Some r | None => rtf_gpu end in
  match rtf with
  | None => DEFAULT_RTF
  | Some r => if fle r fzero then DEFAULT_RTF else r
  end.

(** The duration as a positive float: [None] for [None] and for a duration
    that is not positive. *)
Definition positive_duration (d : json) : res pyexn (option pyfloat) :=
  match d with
  | JNull => Ok None
  | JInt z => Ok (if (z <=? 0)%Z then None else Some (float_of_Z z))
  | JFloat f => Ok (if fle f fzero then None else Some f)
  | JBool b => Ok (if b then Some (float_of_Z 1) else None)
  | _ => Raise TypeError
  end.

Definition calculate_task_timeout (audio_duration_s : json) (rtf_gpu rtf_cpu : option pyfloat)
    (use_gpu : bool) : res pyexn Z :=
  duration ← positive_duration audio_duration_s;
  match duration with
  | None => Ok TASK_UNKNOWN_DURATION_TIMEOUT_S
  | Some d =>
      estimated ← f_int (fmul (fmul d (choose_rtf rtf_gpu rtf_cpu use_gpu)) TIMEOUT_SAFETY_FACTOR);
      Ok (Z.max estimated MIN_TIMEOUT_S)
  end.

(** ** Artifact bindings *)

Definition _matches_selector (ref : ArtifactReference) (s : ArtifactSelector) : bool :=
  if negb (bool_decide (ar_producer_stage ref = Some (sel_producer_stage s))) then false
  else if negb (String.eqb (ar_kind ref) (sel_kind s)) then false
  else if bool_decide (is_Some (sel_channel s)) && negb (bool_decide (ar_channel ref = sel_channel s))
       then false
  else if bool_decide (is_Some (sel_role s)) && negb (bool_decide (ar_role ref = sel_role s))
       then false
  else true.

(** The first artifact of the index the selector matches. *)
Definition match_artifact (index : dict ArtifactReference) (s : ArtifactSelector) : option string :=
  fst <$> find_first (λ kv, _matches_selector kv.2 s) index.

Fixpoint resolve_from (index : dict ArtifactReference) (bindings : list RequestBinding)
    (resolved : dict string) : res pyexn (dict string) :=
  match bindings with
  | [] => Ok resolved
  | b :: bindings =>
      match match_artifact index (rb_selector b) with
      | Some id => resolve_from index bindings (dset (rb_slot b) id resolved)
      | None => if sel_required (rb_selector b) then Raise ValueError
                else resolve_from index bindings resolved
      end
  end.

Definition _resolve_input_bindings (bindings : list RequestBinding)
    (index : dict ArtifactReference) : res pyexn (dict string) :=
  resolve_from index bindings [].

(** ** Stage names *)

Fixpoint all_digits (s : string) : bool :=
  match s with
  | EmptyString => true
  | String c s => let n := Ascii.nat_of_ascii c in (48 <=? n) && (n <=? 57) && all_digits s
  end.

Fixpoint str_drop (n : nat) (s : string) : string :=
  match n, s with
  | S n, String _ s => str_drop n s
  | _, _ => s
  end.

(** [re.sub(r"_ch\d+$", "", stage)], for names without line breaks. *)
Fixpoint base_stage (s : string) : string :=
  match s with
  | EmptyString => EmptyString
  | String c s' =>
      if String.prefix "_ch" s && negb (String.eqb (str_drop 3 s) "") && all_digits (str_drop 3 s)
      then EmptyString
      else String c (base_stage s')
  end.

(** The text before the last occurrence of [sep]. *)
Fixpoint before_last (sep s : string) : option string :=
  match s with
  | EmptyString => None
  | String c s' =>
      match before_last sep s' with
      | Some p => Some (String c p)
      | None => if String.prefix sep s then Some EmptyString else None
      end
  end.

(** [stage.rsplit("_ch", 1)[0] if "_ch" in stage else stage] *)
Definition rsplit_ch (stage : string) : string := default stage (before_last "_ch" stage).

Section scheduler.
Context `{E : Env}.

(** ** Error details *)

Definition _build_engine_info (running unhealthy : list string) (e : CatalogEntry) : EngineInfo := {|
  ei_id := ce_engine_id e;
  ei_supports_word_timestamps := cap_supports_word_timestamps (ce_capabilities e);
  ei_status := if mem_str (ce_engine_id e) running then "running"
               else if mem_str (ce_engine_id e) unhealthy then "unhealthy" else "available" |}.

Definition build_engine_suggestion (stage : string) (available : list EngineInfo) : option string :=
  match available with
  | [] => Some ("No engines configured for stage '" +:+ stage +:+ "'. Check your deployment.")
  | _ =>
      match List.filter (λ e, negb (String.eqb (ei_status e) "running")) available with
      | [] => None
      | not_running => Some ("Start " +:+ join ", " (map ei_id (take 2 not_running)))
      end
  end.

Definition _build_error_details (now : timestamp) (stage : string)
    (language word_timestamps : json) : ErrorDetails :=
  let running := map er_engine_id (List.filter (is_available now) registry_records) in
  let unhealthy := map er_engine_id
    (List.filter (λ e, negb (is_available now e)) registry_records) in
  let available := map (_build_engine_info running unhealthy)
    (get_engines_for_stage catalog stage) in
  {| ed_required :=
       [("stage", JStr stage)]
       ++ (if truthy language then [("language", language)] else [])
       ++ (if is_null word_timestamps then [] else [("word_timestamps", word_timestamps)]);
     ed_available_engines := available;
     ed_suggestion := build_engine_suggestion stage available |}.

(** ** The request document *)

(** [AudioMedia(artifact_id=..., **audio_metadata)], dumped without nulls. *)
Definition audio_media (artifact_id : string) (md : dict json) : res pyexn (dict json) :=
  match dget "format" md, dget "duration" md, dget "sample_rate" md, dget "channels" md with
  | Some (JStr f), Some d, Some (JInt sr), Some (JInt ch) =>
      match (match d with JInt z => Some (float_of_Z z) | JFloat x => Some x | _ => None end) with
      | Some x =>
          if fle fzero x && (0 <? sr)%Z && (1 <=? ch)%Z then
            bd ← field_opt_int "bit_depth" md;
            Ok ([("artifact_id", JStr artifact_id); ("format", JStr f); ("duration", JFloat x);
                 ("sample_rate", JInt sr); ("channels", JInt ch)]
                ++ match bd with Some b => [("bit_depth", JInt b)] | None => [] end)
          else Raise ValueError
      | None => Raise ValueError
      end
  | _, _, _, _ => Raise ValueError
  end.

Fixpoint validate_bindings (l : list json) : res pyexn (list RequestBinding) :=
  match l with
  | [] => Ok []
  | v :: l =>
      match validate_binding v with
      | Some b => bs ← validate_bindings l; Ok (b :: bs)
      | None => Raise ValueError
      end
  end.

Definition source_artifact_id (job_id : UUID) : string := uuid_str job_id +:+ ":source:audio".

Definition source_artifact (job_id : UUID) (uri : string) : ArtifactReference := {|
  ar_artifact_id := source_artifact_id job_id; ar_kind := "audio"; ar_storage_locator := uri;
  ar_media_type := None; ar_channel := None; ar_role := Some "source";
  ar_producer_task_id := None; ar_producer_stage := Some "gateway" |}.

(** The document of [write_task_request], from the job's artifact index. *)
Definition task_request (task : Task) (index : dict ArtifactReference)
    (previous_responses : dict json) (audio_metadata : option (dict json))
    : res pyexn TaskRequest :=
  bindings ← validate_bindings (t_input_bindings task);
  '(index, resolved, payload) ←
    (if String.eqb (t_stage task) "prepare" then
       let id := source_artifact_id (t_job_id task) in
       match given (t_request_uri task) with
       | None => Raise ValueError
       | Some uri =>
           payload ← match audio_metadata with
                     | Some ((_ :: _) as md) =>
                         media ← audio_media id md; Ok (Some [("media", JObj media)])
                     | _ => Ok None
                     end;
           Ok (dset id (source_artifact (t_job_id task) uri) index, [("audio", id)], payload)
       end
     else
       resolved ← _resolve_input_bindings bindings index;
       Ok (index, resolved, None));
  let config := dwithout "request_bindings" (t_config task) in
  if stage_config_valid (rsplit_ch (t_stage task)) config then
    Ok {| rq_payload := payload; rq_previous_responses := previous_responses;
          rq_config := config; rq_request_bindings := bindings;
          rq_resolved_artifact_ids := resolved; rq_artifact_index := index |}
  else Raise ValueError.

Definition _load_job_artifact_index (job_id : UUID) : M (dict ArtifactReference) :=
  gets (λ w, default [] (r_artifacts (w_redis w) !! job_id)).

Definition write_task_request (task : Task) (previous_responses : dict json)
    (audio_metadata : option (dict json)) : M TaskRequest :=
  index ← _load_job_artifact_index (t_job_id task);
  doc ← lift_py (task_request task index previous_responses audio_metadata);
  effect_ (λ w, set_s3 (<[t_id task := doc]> (w_requests w)) (w_transcripts w) w) ;;
  mret doc.

Definition get_task_response (job_id task_id : UUID) : option (dict json) :=
  task_response job_id task_id.

(** ** [queue_task] *)

(** Bindings kept in the configuration stand in for missing ones. *)
Definition with_config_bindings (task : Task) : Task :=
  match t_input_bindings task, dget "request_bindings" (t_config task) with
  | [], Some (JList l) => {|
      t_id := t_id task; t_job_id := t_job_id task; t_stage := t_stage task;
      t_engine_id := t_engine_id task; t_status := t_status task;
      t_dependencies := t_dependencies task; t_input_bindings := l;
      t_config := t_config task; t_request_uri := t_request_uri task;
      t_response_uri := t_response_uri task; t_retries := t_retries task;
      t_max_retries := t_max_retries task; t_required := t_required task |}
  | _, _ => task
  end.

(** The language requirement; ["auto"] means none. *)
Definition task_language (config : dict json) : res pyexn json :=
  let l := jget "language" config in
  if truthy l then
    match l with
    | JStr s => Ok (if String.eqb (lower s) "auto" then JNull else l)
    | _ => Raise AttributeError
    end
  else Ok l.

(** The behavior when no engine is available, and how long to wait. *)
Definition wait_policy (config : dict json) : string * Z :=
  if truthy (jget "_on_demand_wait" config) then ("wait", task_stale_timeout_s settings)
  else (engine_unavailable_behavior settings, engine_wait_timeout_seconds settings).

Definition unavailable_error (now : timestamp) (task : Task) (language : json) : engine_error :=
  EngineUnavailableError
    ("Engine '" +:+ t_engine_id task +:+ "' is not available. No healthy engine registered "
     +:+ "for stage '" +:+ t_stage task +:+ "'.")
    (t_engine_id task) (t_stage task)
    (Some (_build_error_details now (t_stage task) language
             (jget "word_timestamps" (t_config task)))).

Definition profile_error (task : Task) (profile : string) : engine_error :=
  CatalogValidationError
    ("Runtime '" +:+ t_engine_id task +:+ "' declares execution_profile '" +:+ profile
     +:+ "' and cannot be queued on the distributed container path. Use the lite pipeline for "
     +:+ "inproc/venv engine_ids.")
    (Some (t_stage task)) None None.

Definition task_metadata (now : timestamp) (task : Task) (profile : string)
    (waiting : bool) (wait_timeout : Z) : dict json :=
  [("job_id", JStr (uuid_str (t_job_id task))); ("stage", JStr (t_stage task));
   ("engine_id", JStr (t_engine_id task)); ("queue_id", JStr (t_engine_id task));
   ("execution_profile", JStr profile); ("enqueued_at", JInt now)]
  ++ (if waiting
      then [("waiting_for_engine", JStr "true"); ("wait_enqueued_at", JInt now);
            ("wait_timeout_s", JStr (str_Z wait_timeout));
            ("wait_deadline_at", JInt (now + seconds wait_timeout))]
      else []).

(** Where the duration comes from: the probe's metadata, else the task's
    configuration. *)
Definition audio_duration_of (audio_metadata : option (dict json)) (config : dict json) : json :=
  match audio_metadata with
  | Some md => match dget "duration" md with Some d => d | None => jget "audio_duration" config end
  | None => jget "audio_duration" config
  end.

Definition retry_factor (max_retries : nat) : Z :=
  if Nat.eqb max_retries 0 then 1 else Z.of_nat max_retries + 1.

(** The catalog's execution profile of the task's engine. *)
Definition task_profile (task : Task) : string :=
  match get_engine catalog (t_engine_id task) with
  | Some e => ce_execution_profile e
  | None => "container"
  end.

(** The part of [queue_task] after the checks: metadata, request document,
    stream. *)
Definition enqueue_task (task : Task) (previous_responses : dict json)
    (audio_metadata : option (dict json)) (enqueue_idempotency_key : option (UUID * nat))
    (t : timestamp) (waiting : bool) (wait_timeout : Z) : M () :=
  let queue := t_engine_id task in
  redis (λ r, put_metadata
    (hset t (t_id task) (task_metadata t task (task_profile task) waiting wait_timeout)
       (r_metadata r)) r) ;;
  when waiting (redis (λ r, put_waiting ({[t_id task]} ∪ r_waiting r) r)) ;;
  let caps := ce_capabilities <$> get_engine catalog (t_engine_id task) in
  timeout ← lift_py (calculate_task_timeout (audio_duration_of audio_metadata (t_config task))
                       (caps ≫= cap_rtf_gpu) (caps ≫= cap_rtf_cpu) true);
  let base_timeout := (if waiting then timeout + wait_timeout else timeout)%Z in
  let metadata_ttl := (base_timeout * retry_factor (t_max_retries task) + 3600)%Z in
  redis (λ r, put_metadata (expire t (t_id task) metadata_ttl (r_metadata r)) r) ;;
  doc ← write_task_request task previous_responses audio_metadata;
  redis (λ r, put_metadata
    (hset t (t_id task)
       [("request_bindings_json", JList (map dump_binding (rq_request_bindings doc)));
        ("resolved_artifact_ids_json",
           JObj (map (λ '(k, v), (k, JStr v)) (rq_resolved_artifact_ids doc)))]
       (r_metadata r)) r) ;;
  message_id ← match enqueue_idempotency_key with
               | Some key => add_task_once queue (t_id task) (t_job_id task) base_timeout key
               | None => fmap Some (add_task queue (t_id task) (t_job_id task) base_timeout)
               end;
  match message_id with
  | None => mret ()
  | Some n =>
      redis (λ r, put_metadata
        (hset t (t_id task) [("stream_message_id", JInt (Z.of_nat n))] (r_metadata r)) r)
  end.

Definition queue_task (task : Task) (previous_responses : dict json)
    (audio_metadata : option (dict json)) (enqueue_idempotency_key : option (UUID * nat)) : M () :=
  let task := with_config_bindings task in
  language ← lift_py (task_language (t_config task));
  when (negb (String.eqb (task_profile task) "container"))
    (raise (EngineExn (profile_error task (task_profile task)))) ;;
  let '(behavior, wait_timeout) := wait_policy (t_config task) in
  t ← now;
  let waiting := negb (is_engine_available t registry_records (t_engine_id task)) in
  when waiting
    (if String.eqb behavior "fail_fast"
     then raise (EngineExn (unavailable_error t task language))
     else publish_event (EngineNeeded (t_engine_id task) (t_stage task) (t_job_id task)
            (t_id task) (if truthy language then Some language else None))) ;;
  enqueue_task task previous_responses audio_metadata enqueue_idempotency_key t waiting wait_timeout.
End scheduler.
