(* ===== verification/Groups.v ===== *)
(** * Consumers of the task streams

    The consumer side of [dalston/common/streams.py] and
    [dalston/common/streams_sync.py]: what a group's commands do to its pending
    entries list, and the functions that read, claim and acknowledge tasks.  A
    message id is the position of the message in its stream.

    Blocking reads return what is there when they are called.  A stream and its
    group are created together, so the [NOGROUP] answers are the empty ones. *)

From S2P Require Import Prelude PyValue Models Catalog Registry Selector Dag Store.
From S2P Require Import Effects Streams Transcript Scheduler.

Definition STALE_THRESHOLD_MS : Z := 600000.

(** ** The commands, on one group of a stream of [len] messages *)

Definition deliver (consumer : string) (now : timestamp) (i : nat) (g : StreamGroup)
    : StreamGroup := {|
  g_next := g_next g;
  g_pel := <[i := {| pe_consumer := consumer; pe_delivered_at := now; pe_deliveries := 1 |}]>
             (g_pel g);
  g_deleted := g_deleted g |}.

(** A message delivered again, to [consumer]. *)
Definition redeliver (consumer : string) (now : timestamp) (i : nat) (g : StreamGroup)
    : StreamGroup := {|
  g_next := g_next g;
  g_pel := alter (λ e, {| pe_consumer := consumer; pe_delivered_at := now;
                          pe_deliveries := S (pe_deliveries e) |}) i (g_pel g);
  g_deleted := g_deleted g |}.

(** [XACK] *)
Definition xack (i : nat) (g : StreamGroup) : StreamGroup := {|
  g_next := g_next g; g_pel := delete i (g_pel g); g_deleted := g_deleted g |}.

(** [XDEL], and trimming by [MAXLEN]: the entry goes, its pending record stays. *)
Definition xdel (len i : nat) (g : StreamGroup) : StreamGroup :=
  if i <? len
  then {| g_next := g_next g; g_pel := g_pel g; g_deleted := {[i]} ∪ g_deleted g |}
  else g.

Definition stored (len i : nat) (g : StreamGroup) : bool :=
  (i <? len) && negb (bool_decide (i ∈ g_deleted g)).

(** The messages not delivered yet, in order. *)
Definition new_ids (len : nat) (g : StreamGroup) : list nat :=
  List.filter (λ i, stored len i g) (seq (g_next g) (len - g_next g)).

Definition pending_ids (len : nat) (g : StreamGroup) : list nat :=
  List.filter (λ i, bool_decide (is_Some (g_pel g !! i))) (seq 0 len).

(** [XREADGROUP ... >]: delivers up to [count] new messages. *)
Definition xreadgroup (consumer : string) (count : nat) (now : timestamp) (len : nat)
    (g : StreamGroup) : list nat * StreamGroup :=
  let ids := take count (new_ids len g) in
  let g' := foldl (λ g i, deliver consumer now i g) g ids in
  (ids, {| g_next := match last ids with Some i => S i | None => g_next g end;
           g_pel := g_pel g'; g_deleted := g_deleted g |}).

(** The oldest pending message of a consumer, which [XREADGROUP ... 0 COUNT 1]
    delivers again when its entry still exists. *)
Definition own_pending (consumer : string) (len : nat) (g : StreamGroup) : option nat :=
  find_first (λ i, match g_pel g !! i with
                   | Some e => String.eqb (pe_consumer e) consumer
                   | None => false
                   end) (pending_ids len g).

(** One message of [XCLAIM] or [XAUTOCLAIM]: taken over when its entry exists,
    dropped from the pending list when it does not. *)
Definition claim_one (consumer : string) (now : timestamp) (len i : nat) (g : StreamGroup)
    : StreamGroup * bool :=
  match g_pel g !! i with
  | None => (g, false)
  | Some _ => if stored len i g then (redeliver consumer now i g, true) else (xack i g, false)
  end.

(** [XCLAIM] with a minimum idle time of 0. *)
Fixpoint xclaim (consumer : string) (now : timestamp) (len : nat) (ids : list nat)
    (g : StreamGroup) : list nat * StreamGroup :=
  match ids with
  | [] => ([], g)
  | i :: ids =>
      let '(g1, taken) := claim_one consumer now len i g in
      let '(l, g2) := xclaim consumer now len ids g1 in
      (if taken then i :: l else l, g2)
  end.

(** Milliseconds since the last delivery. *)
Definition idle_ms (now : timestamp) (e : PendingEntry) : Z :=
  ((now - pe_delivered_at e) / 1000)%Z.

(** [XAUTOCLAIM]: goes through the pending entries [ids], examining at most
    [attempts] and claiming (or dropping) at most [count]; the cursor is the
    entry to go on from. *)
Fixpoint autoclaim (consumer : string) (min_idle : Z) (now : timestamp) (len : nat)
    (count attempts : nat) (ids : list nat) (g : StreamGroup) {struct ids}
    : option nat * list nat * StreamGroup :=
  match ids with
  | [] => (None, [], g)
  | i :: rest =>
      match attempts, count with
      | S attempts', S count' =>
          match g_pel g !! i with
          | None => autoclaim consumer min_idle now len count attempts' rest g
          | Some e =>
              if stored len i g && (idle_ms now e <? min_idle)%Z
              then autoclaim consumer min_idle now len count attempts' rest g
              else
                let '(g1, taken) := claim_one consumer now len i g in
                let '(cursor, l, g2) :=
                  autoclaim consumer min_idle now len count' attempts' rest g1 in
                (cursor, if taken then i :: l else l, g2)
          end
      | _, _ => (Some i, [], g)
      end
  end.

Definition xautoclaim (consumer : string) (min_idle : Z) (start : option nat) (count : nat)
    (now : timestamp) (len : nat) (g : StreamGroup) : option nat * list nat * StreamGroup :=
  autoclaim consumer min_idle now len count (count * 10)
    (List.filter (λ i, default 0 start <=? i) (pending_ids len g)) g.

(** ** The groups of the task streams *)

Definition group_of (queue : string) (r : Redis) : StreamGroup :=
  default empty_group (r_groups r !! queue).

Definition set_group (queue : string) (g : StreamGroup) (r : Redis) : Redis :=
  put_groups (<[queue := g]> (r_groups r)) r.

Definition stream_len (queue : string) (r : Redis) : nat := length (stream queue r).

(** [XRANGE id id]: the message, unless it was deleted. *)
Definition xrange (queue : string) (i : nat) (r : Redis) : option StreamMessage :=
  if stored (stream_len queue r) i (group_of queue r) then stream queue r !! i else None.

(** A command on the group of a queue. *)
Definition group_cmd {A} (queue : string)
    (f : timestamp → nat → StreamGroup → A * StreamGroup) : M A :=
  effect (λ w,
    let r := w_redis w in
    let '(a, g) := f (w_now w) (stream_len queue r) (group_of queue r) in
    (set_redis (set_group queue g r) w, a)).

(** ** Reading and claiming *)

(** [StreamMessage]: a message as a consumer gets it. *)
Record Delivery := {
  dl_id : nat;
  dl_message : StreamMessage;
  dl_delivery_count : nat;
}.

Definition _parse_message (queue : string) (count : nat) (i : nat) : M (option Delivery) :=
  gets (λ w, (λ m, {| dl_id := i; dl_message := m; dl_delivery_count := count |})
               <$> xrange queue i (w_redis w)).

Definition read_task (queue consumer : string) : M (option Delivery) :=
  ensure_stream_group queue ;;
  ids ← group_cmd queue (λ t len g, xreadgroup consumer 1 t len g);
  match ids with
  | i :: _ => _parse_message queue 1 i
  | [] => mret None
  end.

Definition read_own_pending (queue consumer : string) : M (option Delivery) :=
  o ← group_cmd queue (λ t len g,
        match own_pending consumer len g with
        | Some i => (Some i, if stored len i g then redeliver consumer t i g else g)
        | None => (None, g)
        end);
  match o with
  | Some i => _parse_message queue 2 i
  | None => mret None
  end.

(** The delivery count that [XPENDING] shows for a message. *)
Definition pending_deliveries (queue : string) (i : nat) (r : Redis) : nat :=
  match g_pel (group_of queue r) !! i with Some e => pe_deliveries e | None => 1 end.

Definition claimed_messages (queue : string) (ids : list nat) : M (list Delivery) :=
  gets (λ w, omap (λ i,
    (λ m, {| dl_id := i; dl_message := m;
             dl_delivery_count := pending_deliveries queue i (w_redis w) |})
      <$> xrange queue i (w_redis w)) ids).

Definition claim_stale_tasks (queue consumer : string) (min_idle_ms : Z) (count : nat)
    : M (list Delivery) :=
  ids ← group_cmd queue (λ t len g,
          let '(_, l, g') := xautoclaim consumer min_idle_ms None count t len g in (l, g'));
  claimed_messages queue ids.

Definition claim_tasks_by_id (queue consumer : string) (message_ids : list nat)
    : M (list Delivery) :=
  match message_ids with
  | [] => mret []
  | _ =>
      ids ← group_cmd queue (λ t len g, xclaim consumer t len message_ids g);
      claimed_messages queue ids
  end.

Definition ack_task (queue : string) (message_id : nat) : M () :=
  redis (λ r, set_group queue (xack message_id (group_of queue r)) r).

Definition delete_message (queue : string) (message_id : nat) : M () :=
  redis (λ r, set_group queue (xdel (stream_len queue r) message_id (group_of queue r)) r).

(** ** Inspection *)

Record PendingTask := {
  pt_message_id : nat;
  pt_task_id : option UUID;     (* [None]: "unknown" *)
  pt_consumer : string;
  pt_idle_ms : Z;
  pt_delivery_count : nat;
}.

Definition pending_task (queue : string) (now : timestamp) (r : Redis) (i : nat)
    : option PendingTask :=
  (λ e, {| pt_message_id := i; pt_task_id := sm_task_id <$> xrange queue i r;
           pt_consumer := pe_consumer e; pt_idle_ms := idle_ms now e;
           pt_delivery_count := pe_deliveries e |}) <$> g_pel (group_of queue r) !! i.

Definition pending_tasks (queue : string) (now : timestamp) (r : Redis) : list PendingTask :=
  omap (pending_task queue now r)
    (take 1000 (pending_ids (stream_len queue r) (group_of queue r))).

Definition get_pending (queue : string) : M (list PendingTask) :=
  gets (λ w, pending_tasks queue (w_now w) (w_redis w)).

Definition discover_streams : M (list string) :=
  gets (λ w, (map_to_list (r_streams (w_redis w))).*1).

(** The heartbeat of an instance: its hash exists, is not offline and is
    fresh.  The instance's hash is its record of the registry. *)
Definition engine_alive `{Env} (now : timestamp) (instance : string) : bool :=
  match find_first (λ r, String.eqb (er_instance r) instance) registry_records with
  | Some r => is_healthy now r
  | None => false
  end.

Definition is_engine_alive `{Env} (instance : string) : M bool :=
  gets (λ w, engine_alive (w_now w) instance).

(** [for task in pending]: collects up to [count] tasks of dead engines. *)
Fixpoint claimable `{Env} (min_idle_ms : Z) (count : nat) (pending : list PendingTask)
    : M (list nat) :=
  match pending, count with
  | p :: pending', S count' =>
      if (pt_idle_ms p <? min_idle_ms)%Z then claimable min_idle_ms count pending'
      else
        alive ← is_engine_alive (pt_consumer p);
        if (alive : bool) then claimable min_idle_ms count pending'
        else l ← claimable min_idle_ms count' pending'; mret (pt_message_id p :: l)
  | _, _ => mret []
  end.

Definition claim_stale_from_dead_engines `{Env} (queue consumer : string) (min_idle_ms : Z)
    (count : nat) : M (list Delivery) :=
  pending ← get_pending queue;
  ids ← claimable min_idle_ms count pending;
  claim_tasks_by_id queue consumer ids.

(** ** No command loses a message

    A message that exists is outstanding while it is undelivered or pending.
    Reading and claiming keep it so; only [XACK] ends it. *)

Definition outstanding (i : nat) (g : StreamGroup) : Prop :=
  g_next g ≤ i ∨ is_Some (g_pel g !! i).

(** [g'] follows [g] without having lost a message. *)
Record keeps (g g' : StreamGroup) : Prop := {
  kp_deleted : g_deleted g' = g_deleted g;
  kp_outstanding : ∀ i, i ∉ g_deleted g → outstanding i g → outstanding i g';
}.

#[export] Instance keeps_pre : PreOrder keeps.
Proof.
  split; [done|]. intros g1 g2 g3 [Hd1 Ho1] [Hd2 Ho2]. split; [congruence|].
  intros i Hi Ho. apply Ho2; [by rewrite Hd1|auto].
Qed.

Lemma stored_spec len i g : stored len i g = true ↔ i < len ∧ i ∉ g_deleted g.
Proof.
  unfold stored. rewrite andb_true_iff, negb_true_iff, bool_decide_eq_false, Nat.ltb_lt. done.
Qed.

Lemma new_ids_sorted len g : StronglySorted lt (new_ids len g).
Proof.
  unfold new_ids. generalize (g_next g), (len - g_next g). intros n m. revert n.
  induction m as [|m IH]; intros n; cbn; [constructor|].
  destruct (stored len n g); [|apply IH]. constructor; [apply IH|].
  apply List.Forall_forall. intros x [[Hx _]%in_seq _]%filter_In. lia.
Qed.

Lemma sorted_take_last (l : list nat) k x y :
  StronglySorted lt l → last (take k l) = Some x → y ∈ l → y ≤ x → y ∈ take k l.
Proof.
  intros Hl Hx Hy Hyx. rewrite <-(take_drop k l), elem_of_app in Hy.
  destruct Hy as [Hy|Hy]; [done|]. exfalso.
  rewrite <-(take_drop k l) in Hl. apply last_Some in Hx as [p Hp]. rewrite Hp in Hl.
  rewrite <-app_assoc in Hl. clear Hp. induction p as [|z p IH]; cbn in Hl.
  - apply StronglySorted_inv in Hl as [_ Hl]. rewrite Forall_forall in Hl. specialize (Hl y Hy). lia.
  - apply IH. by apply StronglySorted_inv in Hl as [Hl _].
Qed.

Lemma foldl_deliver_pel consumer now ids g i :
  is_Some (g_pel (foldl (λ g i, deliver consumer now i g) g ids) !! i) ↔
  i ∈ ids ∨ is_Some (g_pel g !! i).
Proof.
  revert g. induction ids as [|j ids IH]; intros g; cbn [foldl].
  - split; [by right|]. by intros [?%elem_of_nil|].
  - rewrite IH. cbn. rewrite elem_of_cons. destruct (decide (j = i)) as [->|Hj].
    + rewrite lookup_insert_eq. naive_solver.
    + rewrite lookup_insert_ne by done. naive_solver.
Qed.

Lemma xreadgroup_keeps consumer count now len g :
  g_next g ≤ len → keeps g (xreadgroup consumer count now len g).2.
Proof.
  intros Hlen. unfold xreadgroup. cbn [snd]. split; [done|]. intros i Hi Ho.
  unfold outstanding; cbn. rewrite foldl_deliver_pel.
  destruct Ho as [Hn|Hp]; [|auto]. destruct (last _) as [x|] eqn:Hx; [|auto].
  destruct (decide (S x ≤ i)); [by left|]. right. left.
  eapply sorted_take_last; [apply new_ids_sorted|done| |lia].
  assert (x ∈ new_ids len g) as Hxn.
  { apply last_Some in Hx as [p Hp]. rewrite <-(take_drop count (new_ids len g)), Hp. set_solver. }
  unfold new_ids in *. rewrite list_elem_of_In, filter_In, in_seq in *.
  rewrite stored_spec. destruct Hxn as [Hxn _]. split; [lia|split; [lia|done]].
Qed.

Lemma redeliver_keeps consumer now i g : keeps g (redeliver consumer now i g).
Proof.
  split; [done|]. intros j Hj [Hn|Hp]; [by left|right]. cbn. by rewrite lookup_alter_is_Some.
Qed.

Lemma claim_one_keeps consumer now len i g :
  g_next g ≤ len → (is_Some (g_pel g !! i) → i < len) → keeps g (claim_one consumer now len i g).1.
Proof.
  intros Hlen Hi. unfold claim_one. destruct (g_pel g !! i) as [e|] eqn:He; [|done].
  destruct (stored len i g) eqn:Hs; [apply redeliver_keeps|]. split; [done|].
  intros j Hj [Hn|Hp]; [by left|right]. cbn. rewrite lookup_delete_ne; [done|]. intros ->.
  apply not_true_iff_false in Hs. apply Hs, stored_spec. split; [by apply Hi|done].
Qed.

(** A group whose numbers fit its stream. *)
Record group_ok (len : nat) (g : StreamGroup) : Prop := {
  go_next : g_next g ≤ len;
  go_pel : ∀ i, is_Some (g_pel g !! i) → i < g_next g;
  go_deleted : ∀ i, i ∈ g_deleted g → i < len;
}.

Lemma claim_one_ok consumer now len len' i g :
  group_ok len g → group_ok len (claim_one consumer now len' i g).1.
Proof.
  intros [Hn Hp Hd]. unfold claim_one. destruct (g_pel g !! i) as [e|] eqn:He; [|done].
  destruct (stored len' i g); split; cbn; try done; intros j Hj; apply Hp.
  - by rewrite lookup_alter_is_Some in Hj.
  - destruct (decide (i = j)) as [->|Hij]; [by eexists|]. by rewrite lookup_delete_ne in Hj.
Qed.

Lemma claim_one_step consumer now len i g :
  group_ok len g →
  keeps g (claim_one consumer now len i g).1 ∧ group_ok len (claim_one consumer now len i g).1.
Proof.
  intros Hg. split; [|by apply claim_one_ok]. destruct Hg as [Hn Hp _].
  apply claim_one_keeps; [done|]. intros Hi%Hp. lia.
Qed.

Lemma xclaim_step consumer now len ids g :
  group_ok len g →
  keeps g (xclaim consumer now len ids g).2 ∧ group_ok len (xclaim consumer now len ids g).2.
Proof.
  revert g. induction ids as [|i ids IH]; intros g Hg; cbn; [done|].
  destruct (claim_one_step consumer now len i g Hg) as [Hk Hg1].
  destruct (claim_one consumer now len i g) as [g1 b]. cbn in *.
  destruct (IH g1 Hg1) as [Hk2 Hg2]. destruct (xclaim consumer now len ids g1) as [l g2]. cbn in *.
  split; [by etrans|done].
Qed.

Lemma autoclaim_step consumer min_idle now len count attempts ids g :
  group_ok len g →
  keeps g (autoclaim consumer min_idle now len count attempts ids g).2 ∧
  group_ok len (autoclaim consumer min_idle now len count attempts ids g).2.
Proof.
  revert count attempts g. induction ids as [|i ids IH]; intros count attempts g Hg; cbn; [done|].
  destruct attempts as [|attempts], count as [|count]; try done.
  destruct (g_pel g !! i) as [e|] eqn:He; [|by apply IH].
  destruct (stored len i g && _); [by apply IH|].
  destruct (claim_one_step consumer now len i g Hg) as [Hk Hg1].
  destruct (claim_one consumer now len i g) as [g1 b]. cbn in *.
  destruct (IH count attempts g1 Hg1) as [Hk2 Hg2].
  destruct (autoclaim _ _ _ _ _ _ _ _) as [[c l] g2]. cbn in *. split; [by etrans|done].
Qed.

Lemma xreadgroup_ok consumer count now len g :
  group_ok len g → group_ok len (xreadgroup consumer count now len g).2.
Proof.
  intros [Hn Hp Hd]. unfold xreadgroup. set (ids := take _ _).
  assert (∀ x, x ∈ ids → g_next g ≤ x < len) as Hids.
  { intros x Hx. assert (x ∈ new_ids len g) as Hx'.
    { rewrite <-(take_drop count (new_ids len g)). set_solver. }
    unfold new_ids in Hx'. rewrite list_elem_of_In, filter_In, in_seq in Hx'. lia. }
  assert (∀ x y, last ids = Some x → y ∈ ids → y ≤ x) as Hmax.
  { intros x y Hx Hy. unfold ids in *. pose proof (new_ids_sorted len g) as Hs.
    rewrite <-(take_drop count) in Hs. apply last_Some in Hx as [p Hp']. rewrite Hp' in Hs, Hy.
    rewrite <-app_assoc in Hs. clear -Hs Hy. induction p as [|z p IH]; cbn in *; [set_solver|].
    apply StronglySorted_inv in Hs as [Hs Hz]. apply elem_of_cons in Hy as [->|Hy]; [|by apply IH].
    rewrite Forall_forall in Hz. assert (z < x); [|lia]. apply Hz. set_solver. }
  split; cbn; [| |done].
  - destruct (last ids) as [x|] eqn:Hx; [|done]. apply last_Some in Hx as [p Hx].
    assert (x ∈ ids) as Hx' by (rewrite Hx; set_solver). specialize (Hids _ Hx'). lia.
  - intros i. rewrite foldl_deliver_pel. intros [Hi|Hi%Hp].
    + destruct (last ids) as [x|] eqn:Hx; [specialize (Hmax _ _ eq_refl Hi); lia|].
      apply last_None in Hx. rewrite Hx in Hi. by apply elem_of_nil in Hi.
    + destruct (last ids) as [x|] eqn:Hx; [|done]. apply last_Some in Hx as [p Hx].
      assert (x ∈ ids) as Hx' by (rewrite Hx; set_solver). specialize (Hids _ Hx'). lia.
Qed.

(** ** Worlds whose queues lose nothing *)

Definition groups_ok (r : Redis) : Prop := ∀ q, group_ok (stream_len q r) (group_of q r).

(** Streams only grow, and no group loses a message. *)
Record queues_keep (r r' : Redis) : Prop := {
  qk_streams : ∀ q, ∃ l, stream q r' = stream q r ++ l;
  qk_ok : groups_ok r';
  qk_keeps : ∀ q, keeps (group_of q r) (group_of q r');
}.

Definition work (w w' : world) : Prop :=
  groups_ok (w_redis w) → queues_keep (w_redis w) (w_redis w').

#[export] Instance work_pre : PreOrder work.
Proof.
  split.
  - intros w Hw. split; [|done|done]. intros q. exists []. by rewrite app_nil_r.
  - intros w1 w2 w3 H1 H2 Hw. destruct (H1 Hw) as [Hs1 Ho1 Hk1], (H2 Ho1) as [Hs2 Ho2 Hk2].
    split; [|done|intros q; etrans; [apply Hk1|apply Hk2]]. intros q.
    destruct (Hs1 q) as [l1 E1], (Hs2 q) as [l2 E2]. exists (l1 ++ l2). by rewrite E2, E1, app_assoc.
Qed.

Lemma same_queues_work w w' :
  r_streams (w_redis w') = r_streams (w_redis w) →
  r_groups (w_redis w') = r_groups (w_redis w) → work w w'.
Proof.
  intros Hs Hg Hw. assert (∀ q, stream q (w_redis w') = stream q (w_redis w)) as Hs'
    by (intros q; unfold stream; by rewrite Hs).
  assert (∀ q, group_of q (w_redis w') = group_of q (w_redis w)) as Hg'
    by (intros q; unfold group_of; by rewrite Hg).
  split.
  - intros q. exists []. by rewrite Hs', app_nil_r.
  - intros q. unfold stream_len. rewrite Hs', Hg'. apply Hw.
  - intros q. by rewrite Hg'.
Qed.

#[export] Instance work_budget : BudgetFree work.
Proof. intros w b _. by apply same_queues_work. Qed.

Lemma group_of_set queue g r queue' :
  group_of queue' (set_group queue g r) = if String.eqb queue queue' then g else group_of queue' r.
Proof.
  unfold group_of, set_group; cbn. destruct (String.eqb_spec queue queue') as [->|Hq].
  - by rewrite lookup_insert_eq.
  - by rewrite lookup_insert_ne.
Qed.

(** A command that is a step of its group is one of the queues. *)
Lemma group_cmd_work {A} queue (f : timestamp → nat → StreamGroup → A * StreamGroup) :
  (∀ t len g, group_ok len g → keeps g (f t len g).2 ∧ group_ok len (f t len g).2) →
  rel work (group_cmd queue f).
Proof.
  intros Hf. apply rel_effect; [typeclasses eauto..|]. intros w Hw.
  destruct (Hf (w_now w) _ _ (Hw queue)) as [Hk Ho]. cbv zeta. destruct (f _ _ _) as [a g].
  cbn in *. split.
  - intros q. exists []. by rewrite app_nil_r.
  - intros q. rewrite group_of_set. destruct (String.eqb_spec queue q) as [<-|]; [done|apply Hw].
  - intros q. rewrite group_of_set. by destruct (String.eqb_spec queue q) as [<-|].
Qed.

Lemma stream_xadd_work w queue m : work w (set_redis (xadd queue m (w_redis w)) w).
Proof.
  intros Hw. split; [| |done].
  - intros q. cbn. rewrite stream_xadd. destruct (String.eqb_spec queue q) as [->|Hq];
      [by eexists|exists []; by rewrite app_nil_r].
  - intros q. cbn. unfold stream_len. rewrite stream_xadd. change (group_of q (xadd _ _ _))
      with (group_of q (w_redis w)). destruct (Hw q) as [Hn Hp Hd]. unfold stream_len in *.
    split; [|done|intros i Hi%Hd]; (destruct (String.eqb_spec queue q) as [->|Hq]; [|done]);
      rewrite length_app; lia.
Qed.

Lemma ensure_stream_group_work q : rel work (ensure_stream_group q).
Proof.
  unfold ensure_stream_group, redis. apply rel_effect_; [typeclasses eauto..|]. intros w.
  destruct (r_streams (w_redis w) !! q) as [l|] eqn:Hq; [by apply same_queues_work|].
  intros Hw. assert (∀ q', stream q' (put_streams (<[q:=[]]> (r_streams (w_redis w))) (w_redis w))
    = stream q' (w_redis w)) as Hs.
  { intros q'. unfold stream; cbn. destruct (decide (q = q')) as [->|Hne].
    - by rewrite lookup_insert_eq, Hq.
    - by rewrite lookup_insert_ne. }
  split; [|intros q'; cbn; unfold stream_len; rewrite Hs; apply Hw|done].
  intros q'. exists []. cbn. by rewrite Hs, app_nil_r.
Qed.

(** A Redis command on other keys. *)
Lemma redis_work f :
  (∀ r, r_streams (f r) = r_streams r) → (∀ r, r_groups (f r) = r_groups r) →
  rel work (redis f).
Proof.
  intros Hs Hg. unfold redis. apply rel_effect_; [typeclasses eauto..|]. intros w.
  apply same_queues_work; cbn; auto.
Qed.
#[export] Hint Resolve ensure_stream_group_work redis_work : steps.

(** An effect on anything but the queues. *)
Ltac work_effect :=
  first [apply rel_effect_ | apply rel_effect];
  [typeclasses eauto | typeclasses eauto | intros ?; by apply same_queues_work].

Lemma publish_work e : rel work (publish_event e).
Proof. unfold publish_event. steps; work_effect. Qed.
Lemma commit_work : rel work commit.
Proof. unfold commit. work_effect. Qed.

Lemma add_task_work q t j s : rel work (add_task q t j s).
Proof.
  unfold add_task, now. steps. apply rel_effect; [typeclasses eauto..|]. intros w.
  apply stream_xadd_work.
Qed.
#[export] Hint Resolve publish_work commit_work add_task_work : steps.

Lemma read_task_work q c : rel work (read_task q c).
Proof.
  unfold read_task, _parse_message. steps. apply group_cmd_work. intros t len g Hg.
  split; [apply xreadgroup_keeps; apply Hg|by apply xreadgroup_ok].
Qed.

Lemma redeliver_ok c t len i g : group_ok len g → group_ok len (redeliver c t i g).
Proof. intros [Hn Hp Hd]. split; [done| |done]. intros j. cbn. rewrite lookup_alter_is_Some. apply Hp. Qed.

Lemma read_own_pending_work q c : rel work (read_own_pending q c).
Proof.
  unfold read_own_pending, _parse_message. steps. apply group_cmd_work. intros t len g Hg.
  destruct (own_pending c len g) as [i|]; [|done]. cbn. destruct (stored len i g); [|done].
  split; [apply redeliver_keeps|by apply redeliver_ok].
Qed.

Lemma claim_stale_tasks_work q c ms n : rel work (claim_stale_tasks q c ms n).
Proof.
  unfold claim_stale_tasks, claimed_messages. steps. apply group_cmd_work. intros t len g Hg.
  unfold xautoclaim. set (ids := List.filter _ _).
  destruct (autoclaim_step c ms t len n (n * 10) ids g Hg) as [Hk Ho].
  by destruct (autoclaim _ _ _ _ _ _ _ _) as [[cu l] g'].
Qed.

Lemma claim_tasks_by_id_work q c ids : rel work (claim_tasks_by_id q c ids).
Proof.
  unfold claim_tasks_by_id, claimed_messages. steps. apply group_cmd_work. intros t len g Hg.
  by apply xclaim_step.
Qed.
#[export] Hint Resolve read_task_work read_own_pending_work claim_stale_tasks_work
  claim_tasks_by_id_work : steps.

Lemma claimable_work `{Env} ms n pending : rel work (claimable ms n pending).
Proof.
  revert n. induction pending as [|p pending IH]; intros [|n]; cbn; [steps..|].
  unfold is_engine_alive. steps.
Qed.
#[export] Hint Resolve claimable_work : steps.

Lemma claim_dead_work `{Env} q c ms n : rel work (claim_stale_from_dead_engines q c ms n).
Proof. unfold claim_stale_from_dead_engines, get_pending. steps. Qed.
#[export] Hint Resolve claim_dead_work : steps.

(** ** One message through an operation *)

(** Message [i] of a queue is [m] and still to be dealt with. *)
Record held (queue : string) (i : nat) (m : StreamMessage) (r : Redis) : Prop := {
  hd_message : stream queue r !! i = Some m;
  hd_stored : i ∉ g_deleted (group_of queue r);
  hd_outstanding : outstanding i (group_of queue r);
}.

Definition holds (queue : string) (i : nat) (m : StreamMessage) (w : world) : Prop :=
  groups_ok (w_redis w) ∧ held queue i m (w_redis w).

Definition hold_step (queue : string) (i : nat) (m : StreamMessage) (w w' : world) : Prop :=
  holds queue i m w → holds queue i m w'.

#[export] Instance hold_step_pre q i m : PreOrder (hold_step q i m).
Proof. split; [by intros w Hw|]. intros w1 w2 w3 H1 H2 Hw. by apply H2, H1. Qed.
#[export] Instance hold_step_budget q i m : BudgetFree (hold_step q i m).
Proof. by intros w b _ Hw. Qed.

Lemma work_hold q i m w w' : work w w' → hold_step q i m w w'.
Proof.
  intros Hw [Ho [Hm Hs Hd]]. destruct (Hw Ho) as [Hst Ho' Hk]. split; [done|].
  destruct (Hst q) as [l E], (Hk q) as [Hdel Hout]. split.
  - rewrite E. by apply lookup_app_l_Some.
  - by rewrite Hdel.
  - by apply Hout.
Qed.

Lemma rel_work_hold {A} q i m (x : M A) : rel work x → rel (hold_step q i m) x.
Proof. apply rel_mono. intros w w'. apply work_hold. Qed.

Lemma ack_ok_group q j r : groups_ok r → groups_ok (set_group q (xack j (group_of q r)) r).
Proof.
  intros Hr q'. rewrite group_of_set. change (stream_len q' (set_group _ _ _)) with (stream_len q' r).
  destruct (String.eqb_spec q q') as [<-|]; [|apply Hr]. destruct (Hr q) as [Hn Hp Hd]. split; [done| |done].
  intros k Hk. apply Hp. cbn in Hk. destruct (decide (j = k)) as [->|Hjk];
    [rewrite lookup_delete_eq in Hk; by destruct Hk|by rewrite lookup_delete_ne in Hk].
Qed.

Lemma ack_hold_ne q j q' i m : q ≠ q' ∨ j ≠ i → rel (hold_step q' i m) (ack_task q j).
Proof.
  intros Hne. unfold ack_task, redis. apply rel_effect_; [typeclasses eauto..|].
  intros w [Ho [Hm Hs Hd]]. split; [by apply ack_ok_group|]. split; [done|..]; cbn;
    rewrite group_of_set; destruct (String.eqb_spec q q') as [<-|]; try done; destruct Hne as [|Hj]; try done.
  destruct Hd as [Hd|Hd]; [by left|right]. cbn. by rewrite lookup_delete_ne.
Qed.

(** What precedes an acknowledgement: the message is held unless it succeeded. *)
Lemma then_ack q i m q' j (x : M ()) w :
  rel work x → holds q i m w →
  holds q i m ((x ;; ack_task q' j) w).1 ∨
  ∃ w2, x w = (w2, Ok ()) ∧ w_durable ((x ;; ack_task q' j) w).1 = w_durable w2.
Proof.
  intros Hx Hw. pose proof (rel_work_hold q i m x Hx w Hw) as Hh. unfold mbind, M_bind.
  destruct (x w) as [w2 [[]|e]]; cbn in *; [|by left]. right. exists w2. split; [done|].
  unfold ack_task, redis, effect_, effect, tick, mbind, M_bind.
  by destruct (w_budget w2) as [[|]|].
Qed.
