(* ===== verification/Engine.v ===== *)
(** * The engine's loop

    Models [_poll_and_process] and [_process_task] of
    [dalston/engine_sdk/runner.py]: where the next message comes from, when it
    is skipped, what is published about it and when it is acknowledged.  What
    the engine computes is a parameter; a process that dies between two effects
    stands for the engine's crash. *)

From S2P Require Import Prelude PyValue Models Catalog Registry Selector Dag Store.
From S2P Require Import Effects Streams Transcript Scheduler Groups.

(** How the work on one request ends. *)
Inductive EngineOutcome : Type :=
  | LoadFails (error : string)       (* materialising the inputs, before [task.started] *)
  | Defers                           (* [TaskDeferredError] from [process] *)
  | Fails (error : string)
  | Completes (artifacts : list ArtifactReference).

(** The engine: its identity, what it does with a request, and the texts of
    the exceptions of its libraries. *)
Class EngineProcess := {
  engine_id : string;
  instance : string;
  run_request : TaskRequest → EngineOutcome;
  download_error : UUID → string;
}.

(** The wait markers of a task's metadata. *)
Definition WAIT_FIELDS : list string :=
  ["waiting_for_engine"; "wait_deadline_at"; "wait_timeout_s"; "wait_enqueued_at"].

Definition metadata_not_found (task_id : UUID) : string :=
  "Task metadata not found in Redis: " +:+ uuid_str task_id.

Section engine.
Context `{Env, EngineProcess}.

Definition _clear_waiting_engine_marker (task_id : UUID) : M () :=
  t ← now;
  redis (λ r, put_metadata (hdel t task_id WAIT_FIELDS (r_metadata r)) r) ;;
  redis (λ r, put_waiting (r_waiting r ∖ {[task_id]}) r).

(** The durable stream first, then the channel. *)
Definition publish_engine_event (e : event) : M () :=
  effect_ (λ w, set_events (w_pubsub w) (w_durable w ++ [e]) w) ;;
  effect_ (λ w, set_events (w_pubsub w ++ [e]) (w_durable w) w).

(** [hgetall]; [None] when there is no metadata. *)
Definition _get_task_metadata (task_id : UUID) : M (option (dict json)) :=
  gets (λ w, match hgetall (w_now w) task_id (r_metadata (w_redis w)) with
             | [] => None
             | d => Some d
             end).

(** The response document, then the produced artifacts: their ids in the
    task's metadata, their references in the job's index.  The documents of
    responses are the environment's [task_response]. *)
Definition _save_task_output (task_id job_id : UUID) (artifacts : list ArtifactReference) : M () :=
  effect_ (λ w, w) ;;
  t ← now;
  match artifacts with
  | [] => mret ()
  | _ =>
      redis (λ r, put_metadata
        (hset t task_id [("produced_artifact_ids_json",
            JList (map (λ a, JStr (ar_artifact_id a)) artifacts))] (r_metadata r)) r) ;;
      for_each (λ a, redis (λ r, {|
        r_jobs := r_jobs r; r_decremented := r_decremented r; r_sessions := r_sessions r;
        r_requests := r_requests r; r_cancelled := r_cancelled r; r_dedupe := r_dedupe r;
        r_streams := r_streams r; r_metadata := r_metadata r; r_waiting := r_waiting r;
        r_enrichments := r_enrichments r;
        r_artifacts := <[job_id := dset (ar_artifact_id a) a
                                     (default [] (r_artifacts r !! job_id))]> (r_artifacts r);
        r_groups := r_groups r; r_events := r_events r; r_dlq := r_dlq r;
        r_locks := r_locks r |})) artifacts
  end.

(** Whether the work was deferred. *)
Definition _process_task (task_id job_id : UUID) : M bool :=
  doc ← gets (λ w, w_requests w !! task_id);
  match doc with
  | None => publish_engine_event (TaskFailedEvent task_id (download_error task_id)) ;; mret false
  | Some doc =>
      match run_request doc with
      | LoadFails error => publish_engine_event (TaskFailedEvent task_id error) ;; mret false
      | Defers => publish_engine_event (TaskStarted task_id) ;; mret true
      | Fails error =>
          publish_engine_event (TaskStarted task_id) ;;
          publish_engine_event (TaskFailedEvent task_id error) ;; mret false
      | Completes artifacts =>
          publish_engine_event (TaskStarted task_id) ;;
          _save_task_output task_id job_id artifacts ;;
          publish_engine_event (TaskCompletedEvent task_id) ;; mret false
      end
  end.

(** A stale task of a dead engine, else an own deferred one, else a new one. *)
Definition next_message : M (option Delivery) :=
  stale ← claim_stale_from_dead_engines engine_id instance STALE_THRESHOLD_MS 1;
  match stale with
  | d :: _ => mret (Some d)
  | [] =>
      own ← read_own_pending engine_id instance;
      match own with
      | Some d => mret (Some d)
      | None => read_task engine_id instance
      end
  end.

Definition process_delivery (d : Delivery) : M () :=
  let task_id := sm_task_id (dl_message d) in
  let job_id := sm_job_id (dl_message d) in
  cancelled ← is_job_cancelled job_id;
  if (cancelled : bool) then
    _clear_waiting_engine_marker task_id ;;
    ack_task engine_id (dl_id d)
  else
    md ← _get_task_metadata task_id;
    match md with
    | None =>
        publish_engine_event (TaskFailedEvent task_id (metadata_not_found task_id)) ;;
        ack_task engine_id (dl_id d)
    | Some md =>
        if truthy (jget "blocked_reason" md) then ack_task engine_id (dl_id d)
        else
          _clear_waiting_engine_marker task_id ;;
          deferred ← _process_task task_id job_id;
          if (deferred : bool) then mret () else ack_task engine_id (dl_id d)
    end.

Definition _poll_and_process : M () :=
  message ← next_message;
  match message with
  | None => mret ()
  | Some d => process_delivery d
  end.
End engine.

(** ** A message is acknowledged once its end is on record *)

Section acknowledgement.
Context `{Env, EngineProcess}.

(** The events that end the attempt of a task. *)
Definition attempt_ended (task_id : UUID) (e : event) : Prop :=
  e = TaskCompletedEvent task_id ∨ ∃ error, e = TaskFailedEvent task_id error.

Definition reported (task_id : UUID) (w w' : world) : Prop :=
  ∃ es e, w_durable w' = w_durable w ++ es ∧ e ∈ es ∧ attempt_ended task_id e.

(** The durable stream only grows. *)
Definition log_grows (w w' : world) : Prop := ∃ es, w_durable w' = w_durable w ++ es.
#[local] Instance log_grows_pre : PreOrder log_grows.
Proof.
  split; [intros w; exists []; by rewrite app_nil_r|].
  intros w1 w2 w3 [l1 E1] [l2 E2]. exists (l1 ++ l2). by rewrite E2, E1, app_assoc.
Qed.
#[local] Instance log_grows_budget : BudgetFree log_grows.
Proof. intros w b _. exists []. by rewrite app_nil_r. Qed.

Lemma reported_after id w1 w2 w3 : log_grows w1 w2 → reported id w2 w3 → reported id w1 w3.
Proof.
  intros [l E] (es & e & Ew & He & Hend). exists (l ++ es), e. split; [|set_solver].
  by rewrite Ew, E, app_assoc.
Qed.
Lemma reported_before id w1 w2 w3 : reported id w1 w2 → log_grows w2 w3 → reported id w1 w3.
Proof.
  intros (es & e & Ew & He & Hend) [l E]. exists (es ++ l), e. split; [|set_solver].
  by rewrite E, Ew, app_assoc.
Qed.

Lemma redis_log f : rel log_grows (redis f).
Proof. unfold redis. apply rel_effect_; [typeclasses eauto..|]. intros w. exists []. by rewrite app_nil_r. Qed.
#[local] Hint Resolve redis_log : steps.

Lemma publish_engine_work e : rel work (publish_engine_event e).
Proof. unfold publish_engine_event. steps; work_effect. Qed.
Lemma publish_engine_log e : rel log_grows (publish_engine_event e).
Proof.
  unfold publish_engine_event. steps; (apply rel_effect_; [typeclasses eauto..|]); intros w;
    [by eexists|exists []; by rewrite app_nil_r].
Qed.

Lemma publish_engine_ok e w w' :
  publish_engine_event e w = (w', Ok ()) → w_durable w' = w_durable w ++ [e].
Proof.
  unfold publish_engine_event, effect_, effect, tick, mbind, M_bind.
  destruct (w_budget w) as [[|[|n]]|] eqn:Hb; cbn; rewrite ?Hb; by intros [= <-].
Qed.
#[local] Hint Resolve publish_engine_work publish_engine_log : steps.

Lemma clear_marker_work id : rel work (_clear_waiting_engine_marker id).
Proof. unfold _clear_waiting_engine_marker, now. steps. Qed.
Lemma clear_marker_log id : rel log_grows (_clear_waiting_engine_marker id).
Proof. unfold _clear_waiting_engine_marker, now. steps. Qed.
Lemma save_output_work id job l : rel work (_save_task_output id job l).
Proof. unfold _save_task_output, now. steps; work_effect. Qed.
Lemma save_output_log id job l : rel log_grows (_save_task_output id job l).
Proof.
  unfold _save_task_output, now. steps.
  apply rel_effect_; [typeclasses eauto..|]. intros w. exists []. by rewrite app_nil_r.
Qed.
#[local] Hint Resolve clear_marker_work clear_marker_log save_output_work save_output_log : steps.

Lemma process_task_work id job : rel work (_process_task id job).
Proof. unfold _process_task. steps. Qed.

Lemma process_task_reports id job w w' :
  _process_task id job w = (w', Ok false) → reported id w w'.
Proof.
  assert (∀ w1 w2 e, attempt_ended id e → publish_engine_event e w1 = (w2, Ok ()) → reported id w1 w2)
    as Hp.
  { intros w1 w2 e He E%publish_engine_ok. exists [e], e. split; [done|set_solver]. }
  assert (∀ w1 w2 e b, attempt_ended id e →
    (publish_engine_event e ;; mret b) w1 = (w2, Ok false) → reported id w1 w2) as Hp'.
  { intros w1 w2 e b He H1. apply bind_ok in H1 as ([] & w3 & H1 & H2). injection H2 as <- _. eauto. }
  assert (∀ e w1 w2, publish_engine_event e w1 = (w2, Ok ()) → log_grows w1 w2) as Hl.
  { intros e w1 w2 E%publish_engine_ok. by eexists. }
  unfold _process_task. intros Hr. apply bind_ok in Hr as (doc & w1 & [= <- <-] & Hr).
  destruct (w_requests w !! id) as [doc|]; [|by apply Hp' in Hr; [|right; eauto]].
  destruct (run_request doc).
  - apply Hp' in Hr; [done|right; eauto].
  - apply bind_ok in Hr as ([] & w1 & _ & [=]).
  - apply bind_ok in Hr as ([] & w1 & H1%Hl & Hr).
    eapply reported_after; [exact H1|]. apply Hp' in Hr; [done|right; eauto].
  - apply bind_ok in Hr as ([] & w1 & H1%Hl & Hr). apply bind_ok in Hr as ([] & w2 & H2 & Hr).
    apply (rel_run _ _ _ _ _ (save_output_log _ _ _)) in H2.
    eapply reported_after; [exact H1|]. eapply reported_after; [exact H2|].
    apply Hp' in Hr; [done|by left].
Qed.

(** What taking a message leaves alone. *)
Record same_rest (w w' : world) : Prop := {
  sr_now : w_now w' = w_now w;
  sr_cancelled : r_cancelled (w_redis w') = r_cancelled (w_redis w);
  sr_metadata : r_metadata (w_redis w') = r_metadata (w_redis w);
  sr_durable : w_durable w' = w_durable w;
}.
#[local] Instance same_rest_pre : PreOrder same_rest.
Proof. split; [done|]. intros w1 w2 w3 [] []. split; congruence. Qed.
#[local] Instance same_rest_budget : BudgetFree same_rest.
Proof. by intros w b _. Qed.

Lemma group_cmd_rest {A} q (f : timestamp → nat → StreamGroup → A * StreamGroup) :
  rel same_rest (group_cmd q f).
Proof.
  apply rel_effect; [typeclasses eauto..|]. intros w. cbv zeta. by destruct (f _ _ _).
Qed.
Lemma ensure_group_rest q : rel same_rest (ensure_stream_group q).
Proof.
  apply rel_redis; [typeclasses eauto..|]. intros w. by case_match.
Qed.
#[local] Hint Resolve group_cmd_rest ensure_group_rest : steps.

Lemma claimable_rest ms n pending : rel same_rest (claimable ms n pending).
Proof.
  revert n. induction pending as [|p pending IH]; intros [|n]; cbn; [steps..|].
  unfold is_engine_alive. steps.
Qed.
#[local] Hint Resolve claimable_rest : steps.

Lemma next_message_rest : rel same_rest next_message.
Proof.
  unfold next_message, claim_stale_from_dead_engines, claim_tasks_by_id, claimed_messages,
    get_pending, read_own_pending, read_task, _parse_message. steps.
Qed.
Lemma next_message_work : rel work next_message.
Proof. unfold next_message. steps. Qed.

Lemma parse_message_ok q n i w w' d :
  _parse_message q n i w = (w', Ok (Some d)) →
  w' = w ∧ stream q (w_redis w) !! dl_id d = Some (dl_message d).
Proof.
  unfold _parse_message, gets. intros [= -> Hd]. split; [done|].
  apply fmap_Some in Hd as (m & Hm & ->). unfold xrange in Hm. by case_match.
Qed.

Lemma claim_ok q c ids w w' d l :
  claim_tasks_by_id q c ids w = (w', Ok (d :: l)) →
  stream q (w_redis w') !! dl_id d = Some (dl_message d).
Proof.
  destruct ids as [|i ids]; [done|]. unfold claim_tasks_by_id. intros Hr.
  apply bind_ok in Hr as (ids' & w1 & _ & Hr). unfold claimed_messages, gets in Hr.
  injection Hr as <- Hl. assert (d ∈ d :: l) as Hd by left. rewrite <-Hl in Hd.
  apply list_elem_of_omap in Hd as (k & _ & Hk). apply fmap_Some in Hk as (m & Hm & ->).
  unfold xrange in Hm. by case_match.
Qed.

Lemma next_message_ok w w' d :
  next_message w = (w', Ok (Some d)) →
  stream engine_id (w_redis w') !! dl_id d = Some (dl_message d).
Proof.
  unfold next_message. intros Hr. apply bind_ok in Hr as (stale & w1 & H1 & Hr).
  destruct stale as [|d' l].
  - apply bind_ok in Hr as (own & w2 & H2 & Hr). destruct own as [d'|].
    + injection Hr as -> ->. unfold read_own_pending in H2.
      apply bind_ok in H2 as ([i|] & w3 & _ & H2); [|done].
      by apply parse_message_ok in H2 as [-> ?].
    + unfold read_task in Hr. apply bind_ok in Hr as ([] & w3 & _ & Hr).
      apply bind_ok in Hr as ([|i ids] & w4 & _ & Hr); [done|].
      by apply parse_message_ok in Hr as [-> ?].
  - injection Hr as -> ->. unfold claim_stale_from_dead_engines in H1.
    apply bind_ok in H1 as (p & w2 & _ & H1). apply bind_ok in H1 as (ids & w3 & _ & H1).
    by eapply claim_ok.
Qed.

Lemma process_delivery_ne q i m d :
  dl_id d ≠ i → rel (hold_step q i m) (process_delivery d).
Proof.
  intros Hd. pose proof (ack_hold_ne engine_id (dl_id d) q i m (or_intror Hd)).
  pose proof (λ id, rel_work_hold q i m _ (clear_marker_work id)).
  pose proof (λ id job, rel_work_hold q i m _ (process_task_work id job)).
  pose proof (λ e, rel_work_hold q i m _ (publish_engine_work e)).
  unfold process_delivery, is_job_cancelled, _get_task_metadata. steps.
Qed.

(** A process that dies before it acknowledges leaves the message. *)
Lemma bind_held q i m (x : M ()) (k : () → M ()) w :
  rel work x → holds q i m w →
  holds q i m ((x ≫= k) w).1 ∨
  ∃ w1, x w = (w1, Ok ()) ∧ holds q i m w1 ∧ (x ≫= k) w = k () w1.
Proof.
  intros Hx Hw. pose proof (rel_work_hold q i m x Hx w Hw) as Hh. unfold mbind, M_bind, rel_at in *.
  destruct (x w) as [w1 [[]|e]]; [right; by exists w1|by left].
Qed.

(** The work on a message, from the point where it is known to be current. *)
Lemma attempt_outcome q i m w :
  holds q i m w →
  let w' := ((deferred ← _process_task (sm_task_id m) (sm_job_id m);
              if (deferred : bool) then mret () else ack_task engine_id i) w).1 in
  holds q i m w' ∨ reported (sm_task_id m) w w'.
Proof.
  intros Hw. cbv zeta.
  pose proof (rel_work_hold q i m _ (process_task_work (sm_task_id m) (sm_job_id m)) w Hw) as Hh.
  unfold rel_at, mbind, M_bind in *.
  destruct (_process_task (sm_task_id m) (sm_job_id m) w) as [w1 [[]|e]] eqn:H1; [by left| |by left].
  right. eapply reported_before; [by apply (process_task_reports _ _ _ _ H1)|].
  apply (redis_log (λ r, set_group engine_id (xack i (group_of engine_id r)) r)).
Qed.

Lemma delivery_outcome q i m w d :
  holds q i m w → dl_id d = i → dl_message d = m →
  let w' := (process_delivery d w).1 in
  holds q i m w' ∨
  is_Some (rget (w_now w) (r_cancelled (w_redis w)) (sm_job_id m)) ∨
  truthy (jget "blocked_reason" (hgetall (w_now w) (sm_task_id m) (r_metadata (w_redis w)))) = true ∨
  reported (sm_task_id m) w w'.
Proof.
  intros Hw Hi Hm. cbv zeta. unfold process_delivery. rewrite Hm, Hi.
  rewrite (bind_run (is_job_cancelled _) _ w w _ eq_refl).
  destruct (bool_decide _) eqn:Hc; [apply bool_decide_eq_true in Hc; auto|].
  unfold _get_task_metadata. rewrite (bind_run (gets _) _ w w _ eq_refl).
  destruct (hgetall _ _ _) as [|f md] eqn:Emd.
  - destruct (then_ack q i m engine_id i (publish_engine_event
      (TaskFailedEvent (sm_task_id m) (metadata_not_found (sm_task_id m)))) w) as [|(w2 & H2 & E)];
      [apply publish_engine_work|done|by left|].
    do 3 right. apply publish_engine_ok in H2. rewrite H2 in E.
    eexists _, _. split; [exact E|]. split; [left|]. right. by eexists.
  - destruct (truthy _) eqn:Hb; [by auto|].
    edestruct (bind_held q i m) as [Hh|(w1 & H1 & Hw1 & ->)];
      [apply clear_marker_work|exact Hw|by left; exact Hh|].
    destruct (attempt_outcome q i m w1 Hw1) as [|Hr]; [by left|do 3 right].
    eapply reported_after; [|exact Hr]. by apply (rel_run _ _ _ _ _ (clear_marker_log _) H1).
Qed.

End acknowledgement.

(** ** Engines leave each other's messages alone *)

Section owners.
Context `{Env, EngineProcess}.

(** A pending entry of the engine's queue, unchanged. *)
Definition entry_kept (i : nat) (e : PendingEntry) (w w' : world) : Prop :=
  i < g_next (group_of engine_id (w_redis w)) ∧
  g_pel (group_of engine_id (w_redis w)) !! i = Some e →
  i < g_next (group_of engine_id (w_redis w')) ∧
  g_pel (group_of engine_id (w_redis w')) !! i = Some e.
#[local] Instance entry_kept_pre i e : PreOrder (entry_kept i e).
Proof. split; [by intros w Hw|]. intros w1 w2 w3 H1 H2 Hw. by apply H2, H1. Qed.
#[local] Instance entry_kept_budget i e : BudgetFree (entry_kept i e).
Proof. by intros w b _ Hw. Qed.

Lemma same_groups_kept i e w w' :
  r_groups (w_redis w') = r_groups (w_redis w) → entry_kept i e w w'.
Proof. unfold entry_kept, group_of. by intros ->. Qed.

Lemma redis_kept i e f : (∀ r, r_groups (f r) = r_groups r) → rel (entry_kept i e) (redis f).
Proof.
  intros Hf. unfold redis. apply rel_effect_; [typeclasses eauto..|]. intros w.
  apply same_groups_kept; cbn; auto.
Qed.
#[local] Hint Resolve redis_kept : steps.

(** Commands that touch only some messages. *)
Lemma group_cmd_kept {A} i e (f : timestamp → nat → StreamGroup → A * StreamGroup) w :
  (i < g_next (group_of engine_id (w_redis w)) →
   g_pel (group_of engine_id (w_redis w)) !! i = Some e →
   let g' := (f (w_now w) (stream_len engine_id (w_redis w)) (group_of engine_id (w_redis w))).2 in
   i < g_next g' ∧ g_pel g' !! i = Some e) →
  rel_at (entry_kept i e) w (group_cmd engine_id f).
Proof.
  intros Hf. unfold rel_at, group_cmd, effect, tick, mbind, M_bind.
  destruct (w_budget w) as [[|n]|]; [done|..]; cbn; cbv zeta;
    (destruct (f _ _ _) as [a g]; intros [H1 H2]; cbn in *;
     rewrite group_of_set, String.eqb_refl; auto).
Qed.

Lemma ensure_group_kept i e q : rel (entry_kept i e) (ensure_stream_group q).
Proof.
  unfold ensure_stream_group. apply redis_kept. intros r. by case_match.
Qed.
#[local] Hint Resolve ensure_group_kept : steps.

Lemma xclaim_other c t len ids g i :
  i ∉ ids → g_pel (xclaim c t len ids g).2 !! i = g_pel g !! i ∧ g_next (xclaim c t len ids g).2 = g_next g.
Proof.
  revert g. induction ids as [|j ids IH]; intros g Hi; cbn; [done|].
  apply not_elem_of_cons in Hi as [Hij Hi].
  assert (g_pel (claim_one c t len j g).1 !! i = g_pel g !! i ∧
          g_next (claim_one c t len j g).1 = g_next g) as [H1 H2].
  { unfold claim_one. destruct (g_pel g !! j); [|done].
    destruct (stored len j g); cbn; [by rewrite lookup_alter_ne|by rewrite lookup_delete_ne]. }
  destruct (claim_one c t len j g) as [g1 b]. cbn in *. destruct (IH g1 Hi) as [H3 H4].
  destruct (xclaim c t len ids g1) as [l g2]. cbn in *. by rewrite H3, H4, H1, H2.
Qed.

Lemma claimable_ok ms n ps w w' ids :
  claimable ms n ps w = (w', Ok ids) →
  w' = w ∧ ∀ i, i ∈ ids → ∃ p, p ∈ ps ∧ pt_message_id p = i ∧ (ms <= pt_idle_ms p)%Z ∧
    engine_alive (w_now w) (pt_consumer p) = false.
Proof.
  revert n ids. induction ps as [|p ps IH]; intros [|n] ids; cbn;
    try (intros [= <- <-]; split; [done|]; by intros i ?%elem_of_nil).
  destruct (Z.ltb_spec (pt_idle_ms p) ms) as [|Hms].
  - intros Hr. apply IH in Hr as [-> Hr]. split; [done|].
    intros i (p' & Hp & Hrest)%Hr. exists p'. split; [by right|done].
  - unfold is_engine_alive. intros Hr. apply bind_ok in Hr as (b & w1 & [= <- <-] & Hr).
    destruct (engine_alive _ _) eqn:Ha.
    + apply IH in Hr as [-> Hr]. split; [done|].
      intros i (p' & Hp & Hrest)%Hr. exists p'. split; [by right|done].
    + apply bind_ok in Hr as (l & w1 & Hr & [= <- <-]). apply IH in Hr as [-> Hr].
      split; [done|]. intros i [->|(p' & Hp & Hrest)%Hr]%elem_of_cons.
      * exists p. split_and!; [left|done..].
      * exists p'. split; [by right|done].
Qed.

Lemma pending_tasks_entry q t r p :
  p ∈ pending_tasks q t r →
  ∃ e, g_pel (group_of q r) !! pt_message_id p = Some e ∧
    pt_consumer p = pe_consumer e ∧ pt_idle_ms p = idle_ms t e.
Proof.
  unfold pending_tasks. intros (i & _ & Hp)%list_elem_of_omap. unfold pending_task in Hp.
  apply fmap_Some in Hp as (e & He & ->). by exists e.
Qed.

Lemma xclaim_subset c t len ids g : (xclaim c t len ids g).1 ⊆ ids.
Proof.
  revert g. induction ids as [|i ids IH]; intros g; cbn; [done|].
  destruct (claim_one c t len i g) as [g1 b]. specialize (IH g1).
  destruct (xclaim c t len ids g1) as [l g2]. cbn in *. destruct b; set_solver.
Qed.

Lemma claim_ids_kept i e c ids w :
  i ∉ ids →
  rel_at (entry_kept i e) w (claim_tasks_by_id engine_id c ids) ∧
  ∀ w' l, claim_tasks_by_id engine_id c ids w = (w', Ok l) → i ∉ map dl_id l.
Proof.
  intros Hi. unfold claim_tasks_by_id.
  destruct ids as [|j ids']; [split; [apply (rel_ret (entry_kept i e) [])|intros w' l [= <- <-]; apply not_elem_of_nil]|].
  set (ids := j :: ids') in *. split.
  - apply rel_at_bind; [typeclasses eauto| |intros l1 w1 _; apply rel_at_rel, rel_gets; typeclasses eauto].
    apply group_cmd_kept. intros H1 H2.
    destruct (xclaim_other c (w_now w) (stream_len engine_id (w_redis w)) ids
      (group_of engine_id (w_redis w)) i Hi) as [E1 E2]. cbn zeta. by rewrite E1, E2.
  - intros w' l Hr. apply bind_ok in Hr as (l1 & w1 & Hg & Hr). injection Hr as _ <-.
    apply effect_inv in Hg as [b Hg]. cbv zeta in Hg.
    pose proof (xclaim_subset c (w_now (set_budget b w)) (stream_len engine_id (w_redis (set_budget b w)))
      ids (group_of engine_id (w_redis (set_budget b w)))) as Hsub.
    destruct (xclaim _ _ _ _ _) as [l2 g2]. injection Hg as _ <-. cbn in Hsub.
    intros (d & -> & Hd)%list_elem_of_fmap. apply list_elem_of_omap in Hd as (k & Hk & Hd).
    apply fmap_Some in Hd as (m & _ & ->). cbn in Hi. set_solver.
Qed.

(** The engine has no business with message [i], another engine's entry. *)
Definition respected (t : timestamp) (e : PendingEntry) : Prop :=
  (idle_ms t e < STALE_THRESHOLD_MS)%Z ∨ engine_alive t (pe_consumer e) = true.

Lemma claim_dead_kept i e w :
  i < g_next (group_of engine_id (w_redis w)) → g_pel (group_of engine_id (w_redis w)) !! i = Some e →
  respected (w_now w) e →
  rel_at (entry_kept i e) w
    (claim_stale_from_dead_engines engine_id instance STALE_THRESHOLD_MS 1) ∧
  ∀ w' l, claim_stale_from_dead_engines engine_id instance STALE_THRESHOLD_MS 1 w = (w', Ok l) →
    i ∉ map dl_id l.
Proof.
  intros Hi He Hr. unfold claim_stale_from_dead_engines, get_pending.
  set (ps := pending_tasks engine_id (w_now w) (w_redis w)).
  assert (∀ w1 ids, claimable STALE_THRESHOLD_MS 1 ps w = (w1, Ok ids) → w1 = w ∧ i ∉ ids) as Hc.
  { intros w1 ids [-> Hids]%claimable_ok. split; [done|].
    intros (p & Hp & <- & Hms & Hdead)%Hids.
    apply pending_tasks_entry in Hp as (e' & He' & Hcon & Hidle). rewrite He in He'.
    injection He' as <-. rewrite Hcon in Hdead. rewrite Hidle in Hms. destruct Hr as [Hr|Hr]; [lia|congruence]. }
  assert (rel (entry_kept i e) (claimable STALE_THRESHOLD_MS 1 ps)) as Hk.
  { generalize ps, 1. intros l. induction l as [|p l IH]; intros [|n]; cbn; [steps..|].
    unfold is_engine_alive. steps. }
  split.
  - apply (rel_at_gets (entry_kept i e)). fold ps. apply rel_at_bind; [typeclasses eauto|apply Hk|].
    intros ids w1 [-> Hids]%Hc. by apply claim_ids_kept.
  - intros w' l Hl. apply bind_ok in Hl as (ps' & w1 & [= <- <-] & Hl).
    apply bind_ok in Hl as (ids & w1 & [-> Hids]%Hc & Hl). by eapply claim_ids_kept.
Qed.

Lemma own_pending_spec c len g i :
  own_pending c len g = Some i → ∃ e, g_pel g !! i = Some e ∧ pe_consumer e = c.
Proof.
  unfold own_pending. intros [_ Hi]%find_first_Some. destruct (g_pel g !! i) as [e|]; [|done].
  exists e. split; [done|]. by apply String.eqb_eq.
Qed.

Lemma parse_message_id q n i w w' d : _parse_message q n i w = (w', Ok (Some d)) → dl_id d = i.
Proof. intros [= _ (m & _ & ->)%fmap_Some]. done. Qed.

Lemma read_own_kept i e w :
  pe_consumer e ≠ instance → g_pel (group_of engine_id (w_redis w)) !! i = Some e →
  rel_at (entry_kept i e) w (read_own_pending engine_id instance) ∧
  ∀ w' d, read_own_pending engine_id instance w = (w', Ok (Some d)) → dl_id d ≠ i.
Proof.
  intros Hc He. unfold read_own_pending.
  assert (∀ len, own_pending instance len (group_of engine_id (w_redis w)) ≠ Some i) as Hne.
  { intros len (e' & He' & Hc')%own_pending_spec. congruence. }
  split.
  - apply rel_at_bind; [typeclasses eauto| |].
    + apply group_cmd_kept. intros H1 H2. specialize (Hne (stream_len engine_id (w_redis w))).
      destruct (own_pending _ _ _) as [j|]; [|done]. cbn. destruct (stored _ _ _); [|done].
      cbn. split; [done|]. rewrite lookup_alter_ne; [done|]. intros ->. done.
    + intros o w1 _. destruct o; apply rel_at_rel; [apply rel_gets|apply rel_ret]; typeclasses eauto.
  - intros w' d Hr. apply bind_ok in Hr as (o & w1 & Hg & Hr). destruct o as [j|]; [|done].
    apply parse_message_id in Hr as ->. apply effect_inv in Hg as [b Hg]. cbv zeta in Hg.
    intros ->. specialize (Hne (stream_len engine_id (w_redis w))). cbn in Hg.
    destruct (own_pending _ _ _) as [k|]; [|done]. by injection Hg as _ ->.
Qed.

Lemma read_task_kept i e w :
  i < g_next (group_of engine_id (w_redis w)) →
  rel_at (entry_kept i e) w (read_task engine_id instance) ∧
  ∀ w' d, read_task engine_id instance w = (w', Ok (Some d)) → dl_id d ≠ i.
Proof.
  intros Hi. assert (∀ c n t len g, i < g_next g → i ∉ (xreadgroup c n t len g).1) as Hnew.
  { intros c n t len g Hlt Hin. cbn in Hin. assert (i ∈ new_ids len g) as Hin'.
    { rewrite <-(take_drop n (new_ids len g)). set_solver. }
    unfold new_ids in Hin'. rewrite list_elem_of_In, filter_In, in_seq in Hin'. lia. }
  unfold read_task. split.
  - apply rel_at_bind; [typeclasses eauto|by apply ensure_group_kept|]. intros [] w1 Hw1.
    apply rel_at_bind; [typeclasses eauto| |intros [|j ids] w2 _; apply rel_at_rel; [apply rel_ret|apply rel_gets]; typeclasses eauto].
    apply group_cmd_kept. intros H1 H2. specialize (Hnew instance 1 (w_now w1) (stream_len engine_id (w_redis w1)) _ H1).
    cbn zeta. unfold xreadgroup in *. cbn in *. set (ids := take _ _) in *. split.
    + destruct (last ids) as [x|] eqn:Hx; [|done]. apply last_Some in Hx as [p Hx].
      assert (x ∈ new_ids (stream_len engine_id (w_redis w1)) (group_of engine_id (w_redis w1))) as Hx'.
      { rewrite <-(take_drop 1 (new_ids _ _)). fold ids. rewrite Hx. set_solver. }
      unfold new_ids in Hx'. rewrite list_elem_of_In, filter_In, in_seq in Hx'. lia.
    + clearbody ids. clear -Hnew H2. revert H2. generalize (group_of engine_id (w_redis w1)).
      induction ids as [|j ids IH]; intros g Hg; cbn; [done|].
      apply not_elem_of_cons in Hnew as [Hij Hnew]. apply IH; [done|]. cbn. by rewrite lookup_insert_ne.
  - intros w' d Hr. apply bind_ok in Hr as ([] & w1 & H1 & Hr).
    apply bind_ok in Hr as ([|j ids] & w2 & Hg & Hr); [done|]. apply parse_message_id in Hr as ->.
    apply effect_inv in Hg as [b Hg]. cbv zeta in Hg. cbn in Hg.
    assert (g_next (group_of engine_id (w_redis w1)) = g_next (group_of engine_id (w_redis w))) as Hn.
    { unfold ensure_stream_group, redis in H1. apply effect_inv in H1 as [b' H1]. injection H1 as <-.
      unfold group_of. cbn. by destruct (r_streams (w_redis w) !! engine_id). }
    injection Hg as _ Hids. intros ->. apply (Hnew instance 1 (w_now w1) (stream_len engine_id (w_redis w1))
      (group_of engine_id (w_redis w1))); [by rewrite Hn|].
    unfold xreadgroup. cbn. rewrite Hids. left.
Qed.

Lemma next_message_kept i e w :
  i < g_next (group_of engine_id (w_redis w)) → g_pel (group_of engine_id (w_redis w)) !! i = Some e →
  respected (w_now w) e → pe_consumer e ≠ instance →
  rel_at (entry_kept i e) w next_message ∧
  ∀ w' d, next_message w = (w', Ok (Some d)) → dl_id d ≠ i.
Proof.
  intros Hi He Hr Hc. destruct (claim_dead_kept i e w Hi He Hr) as [Hk Hids]. unfold next_message.
  assert (∀ w1 l, claim_stale_from_dead_engines engine_id instance STALE_THRESHOLD_MS 1 w = (w1, Ok l) →
    i < g_next (group_of engine_id (w_redis w1)) ∧ g_pel (group_of engine_id (w_redis w1)) !! i = Some e)
    as Hw1. { intros w1 l Hl. unfold rel_at in Hk. rewrite Hl in Hk. by apply Hk. }
  assert (∀ w1 w2 d, i < g_next (group_of engine_id (w_redis w1)) →
    g_pel (group_of engine_id (w_redis w1)) !! i = Some e →
    read_own_pending engine_id instance w1 = (w2, Ok d) →
    i < g_next (group_of engine_id (w_redis w2))) as Hown.
  { intros w1 w2 d H1 H2 Hd. destruct (read_own_kept i e w1 Hc H2) as [Hk2 _].
    unfold rel_at in Hk2. rewrite Hd in Hk2. by apply Hk2. }
  split.
  - apply rel_at_bind; [typeclasses eauto|done|]. intros [|d l] w1 [H1 H2]%Hw1;
      [|apply rel_at_rel, rel_ret; typeclasses eauto].
    apply rel_at_bind; [typeclasses eauto|by apply read_own_kept|].
    intros [d|] w2 Hd; [apply rel_at_rel, rel_ret; typeclasses eauto|].
    eapply Hown in Hd; [|done..]. by apply read_task_kept.
  - intros w' d Hn. apply bind_ok in Hn as (stale & w1 & Hcl & Hn). destruct stale as [|d' l].
    + apply Hw1 in Hcl as [H1 H2]. apply bind_ok in Hn as (own & w2 & Ho & Hn).
      destruct own as [d'|].
      * injection Hn as -> ->. by eapply (read_own_kept i e).
      * eapply Hown in Ho; [|done..]. by eapply (read_task_kept i e).
    + injection Hn as -> ->. apply Hids in Hcl. cbn in Hcl. set_solver.
Qed.

Lemma ack_kept i e q j : q ≠ engine_id ∨ j ≠ i → rel (entry_kept i e) (ack_task q j).
Proof.
  intros Hne. unfold ack_task, redis. apply rel_effect_; [typeclasses eauto..|].
  intros w [H1 H2]. cbn. rewrite group_of_set.
  destruct (String.eqb_spec q engine_id) as [->|]; [|done]. destruct Hne as [|Hj]; [done|].
  cbn. by rewrite lookup_delete_ne.
Qed.

Lemma publish_engine_kept i e ev : rel (entry_kept i e) (publish_engine_event ev).
Proof.
  unfold publish_engine_event. steps; (apply rel_effect_; [typeclasses eauto..|]); intros w;
    by apply same_groups_kept.
Qed.
#[local] Hint Resolve publish_engine_kept : steps.

Lemma process_delivery_kept i e d : dl_id d ≠ i → rel (entry_kept i e) (process_delivery d).
Proof.
  intros Hd. pose proof (ack_kept i e engine_id (dl_id d) (or_intror Hd)).
  unfold process_delivery, _process_task, _save_task_output, _clear_waiting_engine_marker,
    is_job_cancelled, _get_task_metadata, now. steps.
  all: apply rel_effect_; [typeclasses eauto..|]; intros w; by apply same_groups_kept.
Qed.

End owners.

(** ** Sound groups stay sound *)

Section sound.
Context `{Env, EngineProcess}.

Definition ok_step (w w' : world) : Prop := groups_ok (w_redis w) → groups_ok (w_redis w').
#[local] Instance ok_step_pre : PreOrder ok_step.
Proof. split; [by intros w Hw|]. intros w1 w2 w3 H1 H2 Hw. by apply H2, H1. Qed.
#[local] Instance ok_step_budget : BudgetFree ok_step.
Proof. by intros w b _ Hw. Qed.

Lemma rel_work_ok {A} (m : M A) : rel work m → rel ok_step m.
Proof. apply rel_mono. intros w w' Hw Ho. by apply Hw. Qed.

Lemma poll_ok : rel ok_step _poll_and_process.
Proof.
  pose proof (rel_work_ok _ next_message_work).
  pose proof (λ id, rel_work_ok _ (clear_marker_work id)).
  pose proof (λ id job, rel_work_ok _ (process_task_work id job)).
  pose proof (λ e, rel_work_ok _ (publish_engine_work e)).
  assert (∀ q j, rel ok_step (ack_task q j)).
  { intros q j. unfold ack_task, redis. apply rel_effect_; [typeclasses eauto..|].
    intros w Ho. by apply ack_ok_group. }
  unfold _poll_and_process, process_delivery, is_job_cancelled, _get_task_metadata. steps.
Qed.
End sound.
