(* ===== verification/PostProcessor.v ===== *)
(** * Post-processing enrichments

    Models [dalston/orchestrator/post_processor.py]: the PII detection and audio
    redaction tasks added to a completed job, their scheduling, the status kept
    in Redis and the patch of the transcript; and the gathering of previous
    responses of [handlers.py] that both modules use. *)

From S2P Require Import Prelude PyValue Models Catalog Registry Selector Dag Store.
From S2P Require Import Effects Streams Scheduler.

(** ** Tasks *)

Inductive EnrichmentStatus : Type := EPending | ERunning | ECompleted | EFailed.

Definition enrichment_value (s : EnrichmentStatus) : string :=
  match s with
  | EPending => "pending" | ERunning => "running"
  | ECompleted => "completed" | EFailed => "failed"
  end.

Definition VALID_PII_REDACTION_MODES : list string := ["silence"; "beep"].
Definition ENRICHMENT_TTL_SECONDS : Z := 86400.

(** [_PII_INPUT_STAGE_RE]: transcribe, align or diarize, with a channel suffix
    or without. *)
Definition is_pii_input_stage (stage : string) : bool :=
  mem_str (base_stage stage) ["transcribe"; "align"; "diarize"].

Definition needs_post_processing (job : JobModel) : bool :=
  truthy (jget_or "pii_detection" (JBool false) (j_parameters job)).

Definition is_post_processing_task (t : TaskModel) : bool :=
  truthy (jget_or "post_processing" (JBool false) (tm_config t)).

(** The redaction mode, ["silence"] when it is not a valid one. *)
Definition redaction_mode (params : dict json) : res pyexn json :=
  let m := jget_or "pii_redaction_mode" (JStr "silence") params in
  valid ← jin_strs m VALID_PII_REDACTION_MODES;
  Ok (if (valid : bool) then m else JStr "silence").

Definition post_task (id job_id : UUID) (stage : string) (deps : list UUID)
    (bindings : list json) (config : dict json) : Task := {|
  t_id := id; t_job_id := job_id; t_stage := stage; t_engine_id := default_engine stage;
  t_status := TPending; t_dependencies := deps; t_input_bindings := bindings;
  t_config := config; t_request_uri := None; t_response_uri := None; t_retries := 0;
  t_max_retries := POST_PROCESSOR_MAX_RETRIES; t_required := false |}.

Definition build_post_processing_tasks (uuid4 : nat → UUID) (job : JobModel)
    (stage_loaded_model_ids : dict json) : res pyexn (list Task) :=
  let params := j_parameters job in
  let detect_config :=
    [("entity_types", jget "pii_entity_types" params);
     ("confidence_threshold",
        jget_or "pii_confidence_threshold" (JFloat DEFAULT_PII_CONFIDENCE_THRESHOLD) params);
     ("post_processing", JBool true)]
    ++ match dget "pii_detect" stage_loaded_model_ids with
       | Some m => [("loaded_model_id", m)]
       | None => []
       end in
  let detect := post_task (uuid4 0) (j_id job) "pii_detect" [] [] detect_config in
  if truthy (jget_or "redact_pii_audio" (JBool false) params) then
    mode ← redaction_mode params;
    Ok [detect;
        post_task (uuid4 1) (j_id job) "audio_redact" [uuid4 0] (_audio_input_binding None)
          [("redaction_mode", mode);
           ("buffer_ms", jget_or "pii_buffer_ms" (JInt DEFAULT_PII_BUFFER_MS) params);
           ("post_processing", JBool true)]]
  else Ok [detect].

(** ** Inserting tasks *)

(** One [INSERT] into [tasks]: the primary key and [uq_tasks_job_id_stage]. *)
Definition insert_task (m : TaskModel) : M () :=
  d ← gets w_db;
  match db_tasks d !! tm_id m with
  | Some _ => raise IntegrityError
  | None =>
      if existsb (λ t, String.eqb (tm_stage t) (tm_stage m)) (tasks_of (tm_job_id m) d)
      then raise UqTasksJobIdStage
      else put_task m
  end.

Definition insert_tasks (key : string) (ts : list Task) : M () :=
  for_each (λ t, insert_task (model_of_task key t)) ts.

(** The ids the next calls of [uuid4] return, and how many were used. *)
Definition draw_uuids `{Env} {A} (f : (nat → UUID) → res exn A) (used : A → nat) : M A :=
  n ← gets w_uuids;
  x ← lift (f (λ i, fresh_uuid (n + i)));
  modify (set_uuids (n + used x)) ;;
  mret x.

Section post_processor.
Context `{E : Env}.

(** ** [_gather_previous_responses] of [handlers.py] *)

Definition add_response (t : TaskModel) (acc : dict json) : dict json :=
  match get_task_response (tm_job_id t) (tm_id t) with
  | Some output =>
      match dget "data" output with
      | Some data =>
          let acc := dset (tm_stage t) data acc in
          let base := base_stage (tm_stage t) in
          if String.eqb base (tm_stage t) then acc else dset base data acc
      | None => acc
      end
  | None => acc
  end.

Definition find_task (id : UUID) (tasks : list TaskModel) : option TaskModel :=
  find_first (λ t, N.eqb (tm_id t) id) tasks.

Definition _gather_previous_responses (deps : list UUID) (tasks : list TaskModel) : dict json :=
  foldl (λ acc id, match find_task id tasks with Some t => add_response t acc | None => acc end)
    [] deps.

(** ** Enrichment status *)

Definition mark_enrichment_status (job_id : UUID) (stage : string) (s : EnrichmentStatus) : M () :=
  t ← now;
  redis (λ r, put_enrichments
    (hset t job_id [(stage, enrichment_value s)] (r_enrichments r)) r).

Definition enrichments_done (d : dict string) : bool :=
  forallb (λ v, mem_str v [enrichment_value ECompleted; enrichment_value EFailed]) (dvals d).

Definition check_post_processing_completion (job_id : UUID) : M bool :=
  gets (λ w, match rget (w_now w) (r_enrichments (w_redis w)) job_id with
             | None => true
             | Some d => enrichments_done d
             end).

(** ** [schedule_post_processing] *)

Definition pii_overrides (params : dict json) : dict json :=
  let m := jget "model_pii_detect" params in
  if truthy m then [("pii_detect", m)] else [].

Definition schedule_post_processing (job : JobModel) : M (list Task) :=
  tasks ← draw_uuids (λ uuid4, lift_res PyExn
            (build_post_processing_tasks uuid4 job (pii_overrides (j_parameters job)))) length;
  match tasks with
  | [] => mret []
  | first :: _ =>
      insert_tasks "input_bindings" tasks ;;
      commit ;;
      t ← now;
      redis (λ r, put_enrichments
        (hset t (j_id job) (map (λ x, (t_stage x, enrichment_value EPending)) tasks)
           (r_enrichments r)) r) ;;
      redis (λ r, put_enrichments
        (expire t (j_id job) ENRICHMENT_TTL_SECONDS (r_enrichments r)) r) ;;
      row ← get_task (t_id first);
      match row with
      | Some m => put_task (tm_set_status TReady m) ;; commit
      | None => mret ()
      end ;;
      all ← job_tasks (j_id job);
      let deps := map tm_id (List.filter
        (λ m, is_pii_input_stage (tm_stage m) && bool_decide (tm_status m = TCompleted)) all) in
      catch (queue_task first (_gather_previous_responses deps all) None None)
        (except_any (λ e,
           redis (λ r, put_enrichments
             (hset t (j_id job) [(t_stage first, enrichment_value EFailed)] (r_enrichments r)) r) ;;
           raise e)) ;;
      mret tasks
  end.

(** ** [update_transcript_with_pii] *)

(** [if k in src: md[k] = src[k]] *)
Definition copy_key (k : string) (src : json) (md : dict json) : res pyexn (dict json) :=
  b ← json_has k src;
  if (b : bool) then v ← json_index k src; Ok (dset k v md) else Ok md.

(** The metadata patched into the transcript. *)
Definition pii_metadata (engine_id : string) (pii_data redact_data : json)
    : res pyexn (dict json) :=
  entities ← json_get_or "pii_entities" (JList []) pii_data;
  n ← json_len entities;
  let md := [("detection_engine", JStr engine_id); ("entities_detected", JInt n)] in
  if truthy redact_data then
    md ← copy_key "redaction_map" redact_data (dset "audio_redacted" (JBool true) md);
    md ← copy_key "redacted_audio_artifact_id" redact_data md;
    copy_key "entities_redacted" redact_data md
  else Ok md.

Definition patch_transcript (transcript : dict json) (engine_id : string)
    (pii_data redact_data : json) : res pyexn (dict json * dict json) :=
  transcript ← copy_key "redacted_text" pii_data transcript;
  transcript ← copy_key "pii_entities" pii_data transcript;
  md ← pii_metadata engine_id pii_data redact_data;
  Ok (dset "pii_metadata" (JObj md) transcript, md).

Definition completed_post_task (stage : string) (tasks : list TaskModel) : option TaskModel :=
  find_first (λ t, String.eqb (tm_stage t) stage && is_post_processing_task t
                   && bool_decide (tm_status t = TCompleted)) tasks.

Definition response_data (t : TaskModel) : option json :=
  get_task_response (tm_job_id t) (tm_id t) ≫= dget "data".

Definition metadata_count (md : dict json) : Z :=
  match jget "entities_detected" md with JInt n => n | _ => 0 end.

Definition update_transcript_with_pii (job_id : UUID) : M () :=
  all ← job_tasks job_id;
  match completed_post_task "pii_detect" all with
  | None => mret ()
  | Some detect =>
      match response_data detect with
      | None => mret ()
      | Some pii_data =>
          let redact_data := default JNull
            (completed_post_task "audio_redact" all ≫= response_data) in
          transcripts ← gets w_transcripts;
          match transcripts !! job_id with
          | None => mret ()
          | Some transcript =>
              match patch_transcript transcript (tm_engine_id detect) pii_data redact_data with
              | Raise _ => mret ()
              | Ok (transcript', md) =>
                  effect_ (λ w, set_s3 (w_requests w)
                    (<[job_id := transcript']> (w_transcripts w)) w) ;;
                  job ← get_job job_id;
                  match job with
                  | Some j =>
                      put_job (j_set_pii (metadata_count md)
                                 (dget "redacted_audio_artifact_id" md) j) ;;
                      commit
                  | None => mret ()
                  end
              end
          end
      end
  end.
End post_processor.
