(* ===== verification/Handlers.v ===== *)
(** * Event handlers of the orchestrator

    Models [dalston/orchestrator/handlers.py]: one definition per handler and
    helper, each the whole of its Python function but logging, tracing and
    metrics, in the monad of [Effects.v]. *)

From S2P Require Import Prelude PyValue Models Catalog Registry Selector Dag Store.
From S2P Require Import Effects Streams RateLimiter Transcript Scheduler PostProcessor.

Definition _is_non_retryable_task_error (error : string) : bool :=
  let lowered := lower error in
  contains "is not found or cannot be loaded" lowered
  && existsb (λ marker, contains marker lowered) ["libcublas"; "libcudnn"; "libcuda"; "libnvrtc"].

(** ** Result statistics ([dalston/orchestrator/stats.py]) *)

(** [len(s.split())] *)
Fixpoint count_words (in_word : bool) (s : string) : Z :=
  match s with
  | EmptyString => 0
  | String c s =>
      if ascii_is_space c then count_words false s
      else ((if in_word then 0 else 1) + count_words true s)%Z
  end.

Definition extract_stats_from_transcript (transcript : dict json) : res pyexn JobResultStats :=
  segment_count ← json_len (jget_or "segments" (JList []) transcript);
  speakers ← json_len (jget_or "speakers" (JList []) transcript);
  let metadata := jget_or "metadata" (JObj []) transcript in
  raw ← json_get_or "speaker_count" (JInt speakers) metadata;
  positive ← jpositive raw;
  let text := jget_or "text" (JStr "") transcript in
  '(words, chars) ←
    (if truthy text then
       match text with
       | JStr s => Ok (count_words false s, Z.of_nat (String.length (strip s)))
       | _ => Raise AttributeError
       end
     else Ok (0, 0)%Z);
  language ← json_get_or "language" JNull metadata;
  Ok {| st_language_code := if (0 <? words)%Z then language else JNull;
        st_word_count := words; st_segment_count := segment_count;
        st_speaker_count := if (positive : bool) then raw else JNull;
        st_character_count := chars |}.

Section handlers.
Context `{E : Env}.

(** ** Rate-limit counter *)

(** [SET NX] guard, [DECR], and a floor at zero. *)
Definition _decrement_concurrent_jobs (job_id tenant_id : UUID) : M bool :=
  t ← now;
  was_set ← effect (λ w,
    let '(g, b) := set_nx t job_id () CONCURRENT_COUNTER_TTL_SECONDS
                     (r_decremented (w_redis w)) in
    (set_redis (put_decremented g (w_redis w)) w, b));
  if negb was_set then mret false
  else
    result ← effect (λ w,
      let '(c, n) := add_counter t tenant_id (-1) (r_jobs (w_redis w)) in
      (set_redis (put_jobs c (w_redis w)) w, n));
    when (result <? 0)%Z
      (redis (λ r, put_jobs (<[tenant_id := (0%Z, None)]> (r_jobs r)) r)) ;;
    mret true.

(** ** Failing a job *)

(** [job.status = FAILED; job.error = e; job.completed_at = now; commit] *)
Definition fail_job (job : JobModel) (e : error_text) : M () :=
  t ← now;
  put_job (j_update job JFailed (Some e) (j_started_at job) (Some t)) ;;
  commit.

(** ... followed by the counter and the event, as [handle_job_created] and
    [handle_task_completed] do it. *)
Definition fail_job_and_publish (job : JobModel) (e : error_text) : M () :=
  fail_job job e ;;
  _decrement_concurrent_jobs (j_id job) (j_tenant_id job) ;;
  publish_event (JobFailedEvent (j_id job) e).

(** [job = await db.get(JobModel, job_id); if job: ...] *)
Definition fail_current_job (job_id : UUID) (e : error_text) : M () :=
  o ← get_job job_id;
  match o with Some job => fail_job_and_publish job e | None => mret () end.

Definition _ensure_job_failed_side_effects (task : TaskModel) (error : error_text) : M () :=
  o ← get_job (tm_job_id task);
  match o with
  | None => mret ()
  | Some job =>
      when (negb (bool_decide (j_status job ∈ [JFailed; JCancelled])))
        (fail_job job (ETaskFailed (tm_stage task) error)) ;;
      _decrement_concurrent_jobs (j_id job) (j_tenant_id job) ;;
      o' ← get_job (tm_job_id task);
      publish_event (JobFailedEvent (j_id job) (text_or (o' ≫= j_error) error))
  end.

(** ** [handle_job_created] *)

Definition audio_metadata_of (job : JobModel) : option (dict json) :=
  (λ f, [("format", JStr f); ("duration", default JNull (j_audio_duration job));
         ("sample_rate", default JNull (JInt <$> j_audio_sample_rate job));
         ("channels", default JNull (JInt <$> j_audio_channels job));
         ("bit_depth", default JNull (JInt <$> j_audio_bit_depth job))])
  <$> j_audio_format job.

Definition lift_dag (m : res dag_exn (list Task)) : res exn (list Task) :=
  lift_res (λ e, match e with
                 | DagSelection (SelectorPyError e) | DagPython e => PyExn e
                 | DagSelection e => SelExn e
                 end) m.

(** Queues one root task; the result says whether the loop goes on. *)
Definition queue_initial_task (job_id : UUID) (audio_metadata : option (dict json))
    (task : Task) : M bool :=
  match t_dependencies task with
  | _ :: _ => mret true
  | [] =>
      row ← get_task (t_id task);
      t ← now;
      match row with
      | Some m =>
          put_task (tm_update m TReady (tm_error m) (tm_retries m) (Some t) (tm_started_at m)
                      (tm_completed_at m)) ;;
          commit
      | None => mret ()
      end ;;
      catch
        (queue_task task []
           (if String.eqb (t_stage task) "prepare" then audio_metadata else None) None ;;
         mret true)
        (except_engine (λ e,
           fail_current_job job_id (_serialize_engine_error e) ;;
           mret false))
  end.

(** Builds the DAG; a selection error fails the job. *)
Definition build_tasks (job : JobModel) : M (option (list Task)) :=
  t ← now;
  catch
    (fmap Some (draw_uuids (λ uuid4, lift_dag
       (build_task_dag t registry_records catalog model_rows (speech_regions_env settings)
          uuid4 (j_id job) (j_audio_uri job) (j_parameters job))) length))
    (λ e, match e with
          | SelExn x => Some (fail_job_and_publish job (ESel x) ;; mret None)
          | _ => None
          end).

(** Saves the tasks and marks the job running; a duplicate [(job, stage)]
    means another orchestrator was faster. *)
Definition save_tasks (job : JobModel) (tasks : list Task) : M bool :=
  t ← now;
  catch
    (insert_tasks "request_bindings" tasks ;;
     put_job (j_update job JRunning (j_error job) (Some t) (j_completed_at job)) ;;
     commit ;;
     mret true)
    (λ e, match e with
          | UqTasksJobIdStage => Some (rollback ;; mret false)
          | IntegrityError => Some (rollback ;; raise IntegrityError)
          | _ => None
          end).

Definition handle_job_created (job_id : UUID) : M () :=
  o ← get_job job_id;
  match o with
  | None => mret ()
  | Some job =>
      if bool_decide (j_status job ∈ [JCancelling; JCancelled; JRunning]) then mret ()
      else
        existing ← job_tasks job_id;
        match existing with
        | _ :: _ => mret ()
        | [] =>
            built ← build_tasks job;
            match built with
            | None => mret ()
            | Some tasks =>
                saved ← save_tasks job tasks;
                when saved
                  (for_while (queue_initial_task job_id (audio_metadata_of job)) tasks ;;
                   mret ())
            end
        end
  end.

(** ** [handle_task_started] *)

(** [UPDATE tasks SET status = RUNNING ... WHERE id = .. AND status = READY] *)
Definition handle_task_started (task_id : UUID) : M () :=
  o ← get_task task_id;
  match o with
  | Some m =>
      if bool_decide (tm_status m = TReady) then
        t ← now;
        put_task (tm_update m TRunning (tm_error m) (tm_retries m) (tm_ready_at m) (Some t)
                    (tm_completed_at m)) ;;
        commit
      else mret ()
  | None => mret ()
  end.

(** ** Job completion *)

(** Unpacks the envelope of a combo engine: the keys of [stages_completed]
    that the data has. *)
Fixpoint unpack_stages (keys : list json) (data : dict json)
    (outputs : dict json) (stages : list string) : res pyexn (dict json * list string) :=
  match keys with
  | [] => Ok (outputs, stages)
  | JStr k :: keys =>
      match dget k data with
      | Some v => unpack_stages keys data (dset k v outputs)
                    (if mem_str k stages then stages else stages ++ [k])
      | None => unpack_stages keys data outputs stages
      end
  | (JList _ | JObj _) :: _ => Raise TypeError
  | _ :: keys => unpack_stages keys data outputs stages
  end.

Definition collect_output (t : TaskModel) (acc : dict json * list string)
    : res pyexn (dict json * list string) :=
  let '(outputs, stages) := acc in
  if bool_decide (tm_status t = TCompleted) then
    match response_data t with
    | Some (JObj data) =>
        if dhas "stages_completed" data then
          keys ← json_iter (jget "stages_completed" data);
          unpack_stages keys data outputs stages
        else Ok (dset (tm_stage t) (JObj data) outputs, stages ++ [tm_stage t])
    | Some data => Ok (dset (tm_stage t) data outputs, stages ++ [tm_stage t])
    | None => Ok (outputs, stages)
    end
  else Ok acc.

(** The path for the job's mode of speaker detection, and the document written. *)
Definition assemble (job : JobModel) (outputs : dict json) (stages : list string)
    : res pyexn (dict json) :=
  let parameters := j_parameters job in
  let mode := jget_or "speaker_detection" (JStr "none") parameters in
  let requested := match dget "timestamps_granularity" parameters with
                   | Some g => JBool (jeq_str g "word")
                   | None => jget_or "word_timestamps" (JBool true) parameters
                   end in
  let known := jget "known_speaker_names" parameters in
  let job_id := pretty (j_id job) in
  r ← (if jeq_str mode "per_channel"
       then assemble_per_channel_transcript job_id outputs
              (jget_or "num_channels" (JInt 2) parameters) requested known (Some stages)
       else assemble_transcript job_id outputs mode requested known (Some stages));
  Ok (transcript_document r).

Definition _assemble_linear_transcript (job : JobModel) (all_tasks : list TaskModel) : M () :=
  '(outputs, stages) ← lift_py (res_foldl (λ acc t, collect_output t acc) ([], []) all_tasks);
  transcript ← lift_py (assemble job outputs stages);
  effect_ (λ w, set_s3 (w_requests w) (<[j_id job := transcript]> (w_transcripts w)) w).

(** Sets the statistics when the transcript is there and well formed. *)
Definition _populate_job_result_stats (job_id : UUID) : M () :=
  transcripts ← gets w_transcripts;
  o ← get_job job_id;
  match transcripts !! job_id, o with
  | Some tr, Some j =>
      match extract_stats_from_transcript tr with
      | Ok s => put_job (j_set_stats s j)
      | Raise _ => mret ()
      end
  | _, _ => mret ()
  end.

(** [mark_owner_artifacts_available] of [gateway/services/artifacts.py]. *)
Definition mark_available (job_id : UUID) (t : timestamp) (a : ArtifactRow) : ArtifactRow :=
  if N.eqb (af_owner_job a) job_id && bool_decide (af_purge_after a = None) then
    {| af_owner_job := af_owner_job a; af_ttl_seconds := af_ttl_seconds a;
       af_available_at := Some t;
       af_purge_after := (λ ttl, t + seconds ttl)%Z <$> af_ttl_seconds a |}
  else a.

Definition mark_owner_artifacts_available (job_id : UUID) (t : timestamp) : M () :=
  modify_db (λ d, db_put_artifacts (mark_available job_id t <$> db_artifacts d) d).

Definition all_terminal (tasks : list TaskModel) : bool :=
  forallb (λ t, task_terminal (tm_status t)) tasks.

Definition any_required_failed (tasks : list TaskModel) : bool :=
  existsb (λ t, bool_decide (tm_status t = TFailed) && tm_required t) tasks.

Definition set_job_status (job_id : UUID) (st : JobStatus) (e : option error_text) : M () :=
  o ← get_job job_id;
  match o with
  | Some j => put_job (j_update j st e (j_started_at j) (j_completed_at j))
  | None => mret ()
  end.

Definition set_completed_at (job_id : UUID) (t : timestamp) : M () :=
  o ← get_job job_id;
  match o with
  | Some j => put_job (j_update j (j_status j) (j_error j) (j_started_at j) (Some t))
  | None => mret ()
  end.

(** The outcome of a job whose pipeline tasks are all terminal, written to
    the session; the commit comes later. *)
Definition decide_outcome (job : JobModel) (all_tasks : list TaskModel) (any_failed : bool) : M () :=
  if any_failed then
    set_job_status (j_id job) JFailed
      (Some (text_or (j_error job) (EText "One or more required tasks failed")))
  else
    set_job_status (j_id job) JCompleted (j_error job) ;;
    catch (_assemble_linear_transcript job all_tasks)
      (except_any (λ e, set_job_status (j_id job) JFailed (Some (EAssembly e)))).

Definition _check_job_completion (job_id : UUID) : M () :=
  all_tasks ← job_tasks job_id;
  let pipeline_tasks := List.filter (λ t, negb (is_post_processing_task t)) all_tasks in
  if negb (all_terminal pipeline_tasks) then mret ()
  else
    let any_failed := any_required_failed pipeline_tasks in
    o ← get_job job_id;
    match o with
    | None => mret ()
    | Some job =>
        if job_terminal (j_status job) then mret ()
        else
          decide_outcome job all_tasks any_failed ;;
          o ← get_job job_id;
          let failed := match o with
                        | Some j => bool_decide (j_status j = JFailed) | None => false end in
          when (negb failed) (_populate_job_result_stats job_id) ;;
          t ← now;
          set_completed_at job_id t ;;
          mark_owner_artifacts_available job_id t ;;
          commit ;;
          _decrement_concurrent_jobs job_id (j_tenant_id job) ;;
          o ← get_job job_id;
          (if failed then
             publish_event (JobFailedEvent job_id (text_or (o ≫= j_error) (EText "Unknown error")))
           else publish_event (JobCompletedEvent job_id)) ;;
          if negb any_failed && needs_post_processing job then
            catch (schedule_post_processing job ;; mret ()) (except_any (λ _, mret ()))
          else mret ()
    end.

(** ** Cancellation *)

Definition _check_job_cancellation_complete (job_id : UUID) : M () :=
  o ← get_job job_id;
  match o with
  | None => mret ()
  | Some job =>
      if negb (bool_decide (j_status job = JCancelling)) then mret ()
      else
        all_tasks ← job_tasks job_id;
        if existsb (λ t, bool_decide (tm_status t = TRunning)) all_tasks then mret ()
        else
          t ← now;
          put_job (j_update job JCancelled (j_error job) (j_started_at job) (Some t)) ;;
          commit ;;
          _decrement_concurrent_jobs job_id (j_tenant_id job) ;;
          publish_event (JobCancelledEvent job_id)
  end.

(** Marks as cancelled the tasks whose status is in [from]. *)
Definition cancel_task (from : list TaskStatus) (x : TaskModel) : M () :=
  o ← get_task (tm_id x);
  match o with
  | Some m => when (bool_decide (tm_status m ∈ from)) (put_task (tm_set_status TCancelled m))
  | None => mret ()
  end.

Definition cancel_tasks (from : list TaskStatus) (tasks : list TaskModel) : M () :=
  for_each (cancel_task from) tasks.

Definition handle_job_cancel_requested (job_id : UUID) : M () :=
  mark_job_cancelled job_id ;;
  all_tasks ← job_tasks job_id;
  cancel_tasks [TPending; TReady] all_tasks ;;
  commit ;;
  _check_job_cancellation_complete job_id.

(** ** [handle_task_completed] *)

(** The duration of the first channel file of the prepare stage's output. *)
Definition prepared_duration (output : option (dict json)) : res pyexn (option json) :=
  match output ≫= dget "data" with
  | None => Ok None
  | Some data =>
      files ← json_get_or "channel_files" (JList []) data;
      if truthy files then
        match files with
        | JList (f :: _) =>
            b ← json_has "duration" f;
            if (b : bool) then v ← json_index "duration" f; Ok (Some v) else Ok None
        | JStr (String c _) => Ok None
        | JObj _ => Raise (KeyError "0")
        | _ => Raise TypeError
        end
      else Ok None
  end.

Definition update_audio_duration (task : TaskModel) : M () :=
  if String.eqb (tm_stage task) "prepare" then
    o ← get_job (tm_job_id task);
    match o with
    | Some job =>
        match j_audio_duration job with
        | Some _ => mret ()
        | None =>
            d ← lift_py (prepared_duration (get_task_response (tm_job_id task) (tm_id task)));
            match d with
            | Some v => put_job (j_set_duration v job) ;; commit
            | None => mret ()
            end
        end
    | None => mret ()
    end
  else mret ().

(** Advances one dependent: an atomic [UPDATE .. WHERE status = PENDING], then
    the queue; the result says whether the loop goes on. *)
Definition queue_dependent (job_id : UUID) (all_tasks : list TaskModel)
    (completed_ids : list UUID) (x : TaskModel) : M bool :=
  o ← get_task (tm_id x);
  match o with
  | None => mret true
  | Some m =>
      if negb (bool_decide (tm_status m = TPending)) then mret true
      else if negb (forallb (λ d, bool_decide (d ∈ completed_ids)) (tm_dependencies m))
           then mret true
      else
        t ← now;
        put_task (tm_update m TReady (tm_error m) (tm_retries m) (Some t) (tm_started_at m)
                    (tm_completed_at m)) ;;
        commit ;;
        let responses := _gather_previous_responses (tm_dependencies m) all_tasks in
        catch (queue_task (task_of_model m) responses None None ;; mret true)
          (except_engine (λ e,
             fail_current_job job_id (_serialize_engine_error e) ;;
             mret false))
  end.

(** The enrichment bookkeeping of a completed post-processing task. *)
Definition record_enrichment (task : TaskModel) : M () :=
  o ← get_task (tm_id task);
  match o with
  | Some m =>
      if is_post_processing_task m && bool_decide (tm_status m = TCompleted) then
        mark_enrichment_status (tm_job_id m) (tm_stage m) ECompleted ;;
        done ← check_post_processing_completion (tm_job_id m);
        when done (catch (update_transcript_with_pii (tm_job_id m)) (except_any (λ _, mret ())))
      else mret ()
  | None => mret ()
  end.

Definition complete_task (task : TaskModel) : M () :=
  if bool_decide (tm_status task ∈ [TCompleted; TSkipped]) then mret ()
  else
    t ← now;
    put_task (tm_update task TCompleted None (tm_retries task) (tm_ready_at task)
                (tm_started_at task) (Some t)) ;;
    commit.

Definition completed_ids_of (tasks : list TaskModel) : list UUID :=
  map tm_id (List.filter (λ t, bool_decide (tm_status t = TCompleted)) tasks).

Definition advance_job (job_id : UUID) : M () :=
  all_tasks ← job_tasks job_id;
  o ← get_job job_id;
  let cancelling := match o with
                    | Some job => bool_decide (j_status job = JCancelling) | None => false end in
  if cancelling then
    cancel_tasks [TPending] all_tasks ;;
    commit ;;
    _check_job_cancellation_complete job_id
  else
    finished ← for_while (queue_dependent job_id all_tasks (completed_ids_of all_tasks)) all_tasks;
    when finished (_check_job_completion job_id).

Definition handle_task_completed (task_id : UUID) : M () :=
  o ← get_task task_id;
  match o with
  | None => mret ()
  | Some task =>
      complete_task task ;;
      record_enrichment task ;;
      update_audio_duration task ;;
      advance_job (tm_job_id task)
  end.

(** ** Retries and failures *)

Definition _retry_enqueue_dedupe_key (task_id : UUID) (retry_count : nat) : UUID * nat :=
  (task_id, retry_count).

(** Queues the current attempt of a READY task, at most once; an engine error
    fails the task and its job. *)
Definition _ensure_retry_enqueued (task : TaskModel) : M () :=
  all_tasks ← job_tasks (tm_job_id task);
  catch
    (queue_task (task_of_model task)
       (_gather_previous_responses (tm_dependencies task) all_tasks) None
       (Some (_retry_enqueue_dedupe_key (tm_id task) (tm_retries task))))
    (except_engine (λ e,
       let error := _serialize_engine_error e in
       put_task (tm_update task TFailed (Some error) (tm_retries task) (tm_ready_at task)
                   (tm_started_at task) (tm_completed_at task)) ;;
       commit ;;
       _ensure_job_failed_side_effects task error)).

Definition handle_task_failed (task_id : UUID) (error : string) : M () :=
  o ← get_task task_id;
  match o with
  | None => mret ()
  | Some task =>
      match tm_status task with
      | TSkipped => handle_task_completed task_id
      | TFailed => _ensure_job_failed_side_effects task (text_or (tm_error task) (EText error))
      | TReady => _ensure_retry_enqueued task
      | TPending | TCompleted | TCancelled => mret ()
      | TRunning =>
          t ← now;
          if negb (_is_non_retryable_task_error error) && (tm_retries task <? tm_max_retries task)
          then
            let task' := tm_update task TReady (Some (EText error)) (S (tm_retries task)) (Some t)
                           (tm_started_at task) (tm_completed_at task) in
            put_task task' ;;
            commit ;;
            _ensure_retry_enqueued task'
          else if negb (tm_required task) then
            put_task (tm_update task TSkipped (Some (EText error)) (tm_retries task)
                        (tm_ready_at task) (tm_started_at task) (tm_completed_at task)) ;;
            commit ;;
            when (is_post_processing_task task)
              (mark_enrichment_status (tm_job_id task) (tm_stage task) EFailed) ;;
            handle_task_completed task_id
          else
            put_task (tm_update task TFailed (Some (EText error)) (tm_retries task)
                        (tm_ready_at task) (tm_started_at task) (tm_completed_at task)) ;;
            commit ;;
            _ensure_job_failed_side_effects task (EText error)
      end
  end.

Definition handle_task_wait_timeout (task_id : UUID) (error : string) : M () :=
  o ← get_task task_id;
  match o with
  | None => mret ()
  | Some task =>
      match tm_status task with
      | TSkipped => handle_task_completed task_id
      | TFailed => _ensure_job_failed_side_effects task (text_or (tm_error task) (EText error))
      | TReady | TPending =>
          t ← now;
          if negb (tm_required task) then
            put_task (tm_update task TSkipped (Some (EText error)) (tm_retries task)
                        (tm_ready_at task) (tm_started_at task) (Some t)) ;;
            commit ;;
            handle_task_completed task_id
          else
            put_task (tm_update task TFailed (Some (EText error)) (tm_retries task)
                        (tm_ready_at task) (tm_started_at task) (Some t)) ;;
            commit ;;
            _ensure_job_failed_side_effects task (EText error)
      | TRunning | TCompleted | TCancelled => mret ()
      end
  end.
End handlers.
