(* ===== verification/Scanner.v ===== *)
(** * Stale tasks and wait deadlines

    Models [dalston/orchestrator/scanner.py]: the leader lock it shares the
    shape of with the reconciler, the scan of the pending entries for tasks of
    dead engines and tasks past their deadline, and the deadlines of tasks that
    wait for an engine. *)

From S2P Require Import Prelude PyValue Models Catalog Registry Selector Dag Store.
From S2P Require Import Effects Streams Transcript Scheduler Groups Engine PostProcessor Handlers.

(** ** Leader election *)

Definition LEADER_LOCK_TTL_SECONDS : Z := 120.
Definition LEADER_LOCK_KEY : string := "dalston:scanner:leader".

Definition _acquire_leader_lock (key instance : string) : M bool :=
  t ← now;
  effect (λ w, let '(l, b) := set_nx t key instance LEADER_LOCK_TTL_SECONDS (r_locks (w_redis w)) in
               (set_redis (put_locks l (w_redis w)) w, b)).

(** Whether [instance] holds the lock: the test of the Lua scripts. *)
Definition holds_lock (t : timestamp) (key instance : string) (r : Redis) : bool :=
  bool_decide (rget t (r_locks r) key = Some instance).

Definition _release_leader_lock (key instance : string) : M () :=
  t ← now;
  catch (redis (λ r, if holds_lock t key instance r
                     then put_locks (delete key (r_locks r)) r else r))
    (except_any (λ _, mret ())).

Definition _extend_leader_lock (key instance : string) : M bool :=
  t ← now;
  catch (effect (λ w,
    let r := w_redis w in
    if holds_lock t key instance r
    then (set_redis (put_locks (expire t key LEADER_LOCK_TTL_SECONDS (r_locks r)) r) w, true)
    else (w, false)))
    (except_any (λ _, mret false)).

(** One round of a loop with leader election: whether this instance led it. *)
Definition leader_round (key instance : string) (body : M ()) : M bool :=
  acquired ← _acquire_leader_lock key instance;
  if (acquired : bool) then
    body ;;
    _release_leader_lock key instance ;;
    mret true
  else mret false.

(** [async with self._db_session_factory() as db]: a session of its own. *)
Definition in_session {A} (m : M A) : M A :=
  rollback ;; a ← m; rollback ;; mret a.

Section scanner.
Context `{Env}.

(** ** Stale tasks *)

(** Whether the message exists and its deadline has passed. *)
Definition _check_task_timeout (queue_id : string) (message_id : nat) (now : timestamp) : M bool :=
  gets (λ w, match xrange queue_id message_id (w_redis w) with
             | Some m => (sm_timeout_at m <? now)%Z
             | None => false
             end).

Definition fail_running (task_id : UUID) (error : string) : M bool :=
  o ← get_task task_id;
  match o with
  | None => mret false
  | Some task =>
      if negb (bool_decide (tm_status task = TRunning)) then mret false
      else
        t ← now;
        put_task (tm_update task TFailed (Some (EText error)) (tm_retries task) (tm_ready_at task)
                    (tm_started_at task) (Some t)) ;;
        commit ;;
        mret true
  end.

Definition _fail_task (task_id : option UUID) (error : string) : M bool :=
  match task_id with
  | None => mret false
  | Some id =>
      failed ← in_session (fail_running id error);
      if (failed : bool) then publish_event (TaskFailedEvent id error) ;; mret true
      else mret false
  end.

Definition dead_engine_error (consumer : string) : string :=
  "Engine '" +:+ consumer +:+ "' stopped heartbeating while processing task".
Definition timeout_error : string := "Task exceeded configured timeout".

(** One pending task: whether it is stale, and whether it was failed. *)
Definition scan_pending (queue_id : string) (t : timestamp) (p : PendingTask) : M (bool * bool) :=
  if (pt_idle_ms p <? STALE_THRESHOLD_MS)%Z then mret (false, false)
  else
    alive ← is_engine_alive (pt_consumer p);
    if negb alive then
      b ← _fail_task (pt_task_id p) (dead_engine_error (pt_consumer p)); mret (true, b)
    else
      timed_out ← _check_task_timeout queue_id (pt_message_id p) t;
      if (timed_out : bool) then b ← _fail_task (pt_task_id p) timeout_error; mret (true, b)
      else mret (true, false).

Fixpoint scan_all (queue_id : string) (t : timestamp) (pending : list PendingTask)
    : M (nat * nat) :=
  match pending with
  | [] => mret (0, 0)
  | p :: pending =>
      '(stale, failed) ← scan_pending queue_id t p;
      '(n, k) ← scan_all queue_id t pending;
      mret (Nat.b2n stale + n, Nat.b2n failed + k)
  end.

Definition _scan_stream (queue_id : string) : M (nat * nat) :=
  pending ← get_pending queue_id;
  t ← now;
  scan_all queue_id t pending.

(** ** Waiting for an engine *)

Definition _is_stream_message_pending (queue_id : string) (message_id : nat) : M bool :=
  gets (λ w, bool_decide (is_Some (g_pel (group_of queue_id (w_redis w)) !! message_id))).

Definition _clear_waiting_task_marker (task_id : UUID) : M () :=
  redis (λ r, put_waiting (r_waiting r ∖ {[task_id]}) r) ;;
  t ← now;
  redis (λ r, put_metadata (hdel t task_id WAIT_FIELDS (r_metadata r)) r).

(** [metadata.get(k)] as a text, where [""] and a missing field are falsy. *)
Definition meta_str (k : string) (md : dict json) : option string :=
  match dget k md with
  | Some (JStr s) => if String.eqb s "" then None else Some s
  | _ => None
  end.

(** Stream ids and times are stored as their numbers. *)
Definition meta_id (k : string) (md : dict json) : option nat :=
  match dget k md with Some (JInt n) => Some (Z.to_nat n) | _ => None end.
Definition meta_time (k : string) (md : dict json) : option timestamp :=
  match dget k md with Some (JInt t) => Some t | _ => None end.

Definition or_else (a b : option string) : option string :=
  match a with Some s => Some s | None => b end.

(** [if queue_id and message_id and await self._is_stream_message_pending(...)] *)
Definition claimed_meanwhile (queue_id : option string) (message_id : option nat) : M bool :=
  match queue_id, message_id with
  | Some q, Some i => _is_stream_message_pending q i
  | _, _ => mret false
  end.

Definition wait_timeout_error (engine_id wait_timeout_s : string) : string :=
  "Runtime '" +:+ engine_id +:+ "' did not become available within " +:+ wait_timeout_s
  +:+ " seconds".

(** The end of a wait: blocked first, then announced, then withdrawn. *)
Definition expire_wait (task : TaskModel) (md : dict json) (t : timestamp) : M () :=
  let queue_id := or_else (meta_str "queue_id" md) (meta_str "engine_id" md) in
  let message_id := meta_id "stream_message_id" md in
  let wait_timeout_s := default (str_Z (engine_wait_timeout_seconds settings))
                          (meta_str "wait_timeout_s" md) in
  let engine_id := default (tm_engine_id task) (meta_str "engine_id" md) in
  redis (λ r, put_metadata
    (hset t (tm_id task) [("blocked_reason", JStr "engine_wait_timeout"); ("blocked_at", JInt t)]
       (r_metadata r)) r) ;;
  publish_event (TaskWaitTimeout (tm_id task) (wait_timeout_error engine_id wait_timeout_s)) ;;
  match queue_id, message_id with
  | Some q, Some i => delete_message q i
  | _, _ => mret ()
  end ;;
  _clear_waiting_task_marker (tm_id task).

(** One task of the waiting set: whether its wait timed out. *)
Definition scan_waiting (t : timestamp) (task_id : UUID) : M bool :=
  md ← gets (λ w, hgetall (w_now w) task_id (r_metadata (w_redis w)));
  let forget := redis (λ r, put_waiting (r_waiting r ∖ {[task_id]}) r) ;; mret false in
  let clear := _clear_waiting_task_marker task_id ;; mret false in
  match md with
  | [] => forget
  | _ =>
      if negb (bool_decide (meta_str "waiting_for_engine" md = Some "true")) then forget
      else
        match meta_time "wait_deadline_at" md with
        | None => clear
        | Some wait_deadline =>
            if (t <=? wait_deadline)%Z then mret false
            else
              o ← get_task task_id;
              match o with
              | None => clear
              | Some task =>
                  if negb (bool_decide (tm_status task ∈ [TReady; TPending])) then clear
                  else
                    claimed ← claimed_meanwhile
                                (or_else (meta_str "queue_id" md) (meta_str "engine_id" md))
                                (meta_id "stream_message_id" md);
                    if (claimed : bool) then clear
                    else expire_wait task md t ;; mret true
              end
        end
  end.

Fixpoint count_true {A} (f : A → M bool) (l : list A) : M nat :=
  match l with
  | [] => mret 0
  | x :: l => b ← f x; n ← count_true f l; mret (Nat.b2n b + n)
  end.

Definition _scan_waiting_engine_timeouts : M nat :=
  ids ← gets (λ w, elements (r_waiting (w_redis w)));
  match ids with
  | [] => mret 0
  | _ => t ← now; in_session (count_true (scan_waiting t) ids)
  end.

Definition _scan : M () :=
  streams ← discover_streams;
  for_each (λ q, _scan_stream q ;; mret ()) streams ;;
  _scan_waiting_engine_timeouts ;;
  mret ().

Definition scan_round (instance : string) : M bool :=
  leader_round LEADER_LOCK_KEY instance _scan.
End scanner.
