(* ===== verification/Reconciler.v ===== *)
(** * Consistency of streams and rows

    Models [dalston/orchestrator/reconciler.py]: the sweep that compares the
    pending entries of the task streams with the rows of the database, re-queues
    what was lost and finishes jobs whose tasks have all ended.  The clean-up of
    the registry's instance set is not part of this state. *)

From S2P Require Import Prelude PyValue Models Catalog Registry Selector Dag Store.
From S2P Require Import Effects Streams Transcript Scheduler Groups Engine PostProcessor Handlers.
From S2P Require Import Scanner.

Definition ORPHAN_THRESHOLD_SECONDS : Z := 600.
Definition READY_TASK_RECOVERY_THRESHOLD_SECONDS : Z := 120.
Definition STUCK_RUNNING_JOB_THRESHOLD_SECONDS : Z := 60.
Definition RECONCILER_LOCK_KEY : string := "dalston:reconciler:leader".

(** The answers of object storage to [HEAD] on a task's response. *)
Inductive HeadResult : Type :=
  | HeadFound
  | HeadClientError (code : string)
  | HeadError.

Class Recovery := {
  head_response : UUID → UUID → HeadResult;
  REENQUEUE_TIMEOUT_S : Z;
}.

Definition _check_output_exists_in_s3 `{Recovery} (job_id task_id : UUID) : option bool :=
  match head_response job_id task_id with
  | HeadFound => Some true
  | HeadClientError code => if mem_str code ["404"; "NoSuchKey"] then Some false else None
  | HeadError => None
  end.

Section reconciler.
Context `{Env, Recovery}.

(** ** Orphaned rows: RUNNING, but pending in no stream *)

Definition before (t : timestamp) (o : option timestamp) : bool :=
  match o with Some x => (x <? t)%Z | None => false end.

Definition running_before (threshold : timestamp) (d : Db) : list TaskModel :=
  List.filter (λ t, bool_decide (tm_status t = TRunning) && before threshold (tm_started_at t))
    (map_to_list (db_tasks d)).*2.

Definition orphan_error : string :=
  "Task orphaned: not found in Redis PEL during reconciliation".

(** One running task: whether it was an orphan that could be settled. *)
Definition settle_orphan (pel_task_ids : list UUID) (task : TaskModel) : M bool :=
  if bool_decide (tm_id task ∈ pel_task_ids) then mret false
  else
    match _check_output_exists_in_s3 (tm_job_id task) (tm_id task) with
    | None => mret false
    | Some true =>
        t ← now;
        put_task (tm_update task TCompleted (tm_error task) (tm_retries task) (tm_ready_at task)
                    (tm_started_at task) (Some t)) ;;
        publish_event (TaskCompletedEvent (tm_id task)) ;;
        mret true
    | Some false =>
        t ← now;
        put_task (tm_update task TFailed (Some (EText orphan_error)) (tm_retries task)
                    (tm_ready_at task) (tm_started_at task) (Some t)) ;;
        publish_event (TaskFailedEvent (tm_id task) orphan_error) ;;
        mret true
    end.

Definition _reconcile_orphaned_db_tasks (pel_task_ids : list UUID) : M nat :=
  t ← now;
  running ← gets (λ w, running_before (t - seconds ORPHAN_THRESHOLD_SECONDS) (w_db w));
  n ← count_true (settle_orphan pel_task_ids) running;
  when (0 <? n) commit ;;
  mret n.

(** ** Orphaned entries: pending, but the task is over *)

Definition TERMINAL_TASK_STATES : list TaskStatus := [TCompleted; TFailed; TSkipped; TCancelled].

Definition task_over (id : UUID) (d : Db) : bool :=
  match db_tasks d !! id with
  | Some t => bool_decide (tm_status t ∈ TERMINAL_TASK_STATES)
  | None => false
  end.

(** Acknowledges the first pending entry of a task: whether there was one. *)
Definition ack_entry (queue : string) (task_id : UUID) : M bool :=
  pending ← get_pending queue;
  match find_first (λ p, bool_decide (pt_task_id p = Some task_id)) pending with
  | Some p => ack_task queue (pt_message_id p) ;; mret true
  | None => mret false
  end.

Definition ack_if_over (queue : string) (statuses : Db) (task_id : UUID) : M bool :=
  if task_over task_id statuses then ack_entry queue task_id else mret false.

Definition ack_orphans (stage : string * list PendingTask) : M () :=
  let '(queue, pending) := stage in
  statuses ← gets w_db;
  count_true (ack_if_over queue statuses)
    (remove_dups (omap pt_task_id pending)) ;;
  mret ().

Definition _reconcile_orphaned_pel_entries (pel : list (string * list PendingTask)) : M () :=
  for_each ack_orphans pel.

(** ** Stale entries of tasks that never started *)

(** The entries by task: a later one of a task takes its place. *)
Definition add_entry (d : list (UUID * PendingTask)) (p : PendingTask)
    : list (UUID * PendingTask) :=
  match pt_task_id p with
  | None => d
  | Some id =>
      if existsb (λ '(k, _), N.eqb k id) d
      then map (λ '(k, x), (k, if N.eqb k id then p else x)) d
      else d ++ [(id, p)]
  end.

Definition entries_by_task (pending : list PendingTask) : list (UUID * PendingTask) :=
  foldl add_entry [] pending.

Definition recover_stale (queue : string) (x : UUID * PendingTask) : M bool :=
  let '(task_id, entry) := x in
  if (pt_idle_ms entry <? ORPHAN_THRESHOLD_SECONDS * 1000)%Z then mret false
  else
    o ← get_task task_id;
    match o with
    | None => mret false
    | Some task =>
        if negb (bool_decide (tm_status task ∈ [TReady; TPending])) then mret false
        else
          alive ← is_engine_alive (pt_consumer entry);
          if (alive : bool) then mret false
          else
            add_task queue task_id (tm_job_id task) REENQUEUE_TIMEOUT_S ;;
            ack_task queue (pt_message_id entry) ;;
            mret true
    end.

Definition recover_stage (stage : string * list PendingTask) : M () :=
  let '(queue, pending) := stage in
  count_true (recover_stale queue) (entries_by_task pending) ;; mret ().

Definition _reconcile_stale_ready_tasks (pel : list (string * list PendingTask)) : M () :=
  for_each recover_stage pel.

(** ** READY tasks whose message was consumed *)

(** [metadata.get("queue_id") or metadata.get("stage") or
    metadata.get("engine_id") or task.engine_id]; [None]: an empty name. *)
Definition recovery_queue (md : dict json) (task : TaskModel) : option string :=
  or_else (meta_str "queue_id" md) (or_else (meta_str "stage" md)
    (or_else (meta_str "engine_id" md) (given (Some (tm_engine_id task))))).

Definition _is_stream_message_delivered (queue : string) (message_id : nat) : M bool :=
  gets (λ w, message_id <? g_next (group_of queue (w_redis w))).

Definition requeue_ready (t : timestamp) (task : TaskModel) (md : dict json) (queue : string)
    (message_id : nat) : M () :=
  new_id ← add_task queue (tm_id task) (tm_job_id task) REENQUEUE_TIMEOUT_S;
  redis (λ r, put_metadata
    (hset t (tm_id task)
       [("queue_id", JStr queue); ("stream_message_id", JInt (Z.of_nat new_id));
        ("reconciler_requeued_at", JInt t);
        ("reconciler_previous_message_id", JInt (Z.of_nat message_id))]
       (r_metadata r)) r).

(** Queued too recently for recovery. *)
Definition enqueued_recently (t : timestamp) (md : dict json) : bool :=
  match meta_time "enqueued_at" md with
  | Some e => (t - seconds READY_TASK_RECOVERY_THRESHOLD_SECONDS <? e)%Z
  | None => false
  end.

Definition recover_ready (t : timestamp) (task : TaskModel) : M bool :=
  md ← gets (λ w, hgetall (w_now w) (tm_id task) (r_metadata (w_redis w)));
  match meta_id "stream_message_id" md, recovery_queue md task with
  | Some message_id, Some queue =>
      if enqueued_recently t md then mret false
      else
        pending ← _is_stream_message_pending queue message_id;
        if (pending : bool) then mret false
        else
          delivered ← _is_stream_message_delivered queue message_id;
          if negb delivered then mret false
          else requeue_ready t task md queue message_id ;; mret true
  | _, _ => mret false
  end.

Definition _reconcile_ready_tasks_with_consumed_messages : M nat :=
  t ← now;
  ready ← gets (λ w, List.filter (λ x, bool_decide (tm_status x = TReady))
                       (map_to_list (db_tasks (w_db w))).*2);
  count_true (recover_ready t) ready.

(** ** Jobs whose tasks have all ended *)

(** Every pipeline task is over, with a completion time at or before the
    threshold. *)
Definition stuck (threshold : timestamp) (tasks : list TaskModel) : bool :=
  let pipeline := List.filter (λ t, negb (is_post_processing_task t)) tasks in
  negb (bool_decide (pipeline = [])) &&
  forallb (λ t, bool_decide (tm_status t ∈ TERMINAL_TASK_STATES)) pipeline &&
  forallb (λ t, match tm_completed_at t with
                | Some c => (c <=? threshold)%Z
                | None => false
                end) pipeline.

Definition running_jobs_before (threshold : timestamp) (d : Db) : list JobModel :=
  List.filter (λ j, bool_decide (j_status j = JRunning) && before threshold (j_started_at j))
    (map_to_list (db_jobs d)).*2.

Definition finish_job (job_id : UUID) : M bool :=
  catch (_check_job_completion job_id ;; mret true) (except_any (λ _, mret false)).

Definition _reconcile_stuck_running_jobs : M nat :=
  t ← now;
  let threshold := (t - seconds STUCK_RUNNING_JOB_THRESHOLD_SECONDS)%Z in
  jobs ← gets (λ w, List.filter (λ j, stuck threshold (tasks_of (j_id j) (w_db w)))
                      (running_jobs_before threshold (w_db w)));
  count_true (λ j, finish_job (j_id j)) jobs.

(** ** One pass *)

Fixpoint pending_of (streams : list string) : M (list (string * list PendingTask)) :=
  match streams with
  | [] => mret []
  | q :: streams => p ← get_pending q; l ← pending_of streams; mret ((q, p) :: l)
  end.

Definition _reconcile : M () :=
  streams ← discover_streams;
  pel ← pending_of streams;
  in_session (_reconcile_orphaned_db_tasks (omap pt_task_id (pel.*2 ≫= id))) ;;
  in_session (_reconcile_orphaned_pel_entries pel) ;;
  in_session (_reconcile_stale_ready_tasks pel) ;;
  in_session _reconcile_ready_tasks_with_consumed_messages ;;
  in_session _reconcile_stuck_running_jobs ;;
  mret ().

Definition reconcile_round (instance : string) : M bool :=
  leader_round RECONCILER_LOCK_KEY instance _reconcile.
End reconciler.
