(* ===== verification/Jobs.v ===== *)
(** * Jobs service of the gateway

    Models the operations of [dalston/gateway/services/jobs.py] that change
    jobs (creation, cancellation, deletion), the two cancellation routes
    ([gateway/api/v1/transcription.py], [gateway/api/console.py]) and the
    topological order in which a job's tasks are listed. *)

From S2P Require Import Prelude PyValue Models Catalog Registry Selector Dag Store.
From S2P Require Import Effects Streams RateLimiter Scheduler PostProcessor Handlers.

(** ** Creation and lookup *)

(** [create_job]: a pending job; a duplicate id violates the primary key. *)
Definition create_job (job : JobModel) : M () :=
  o ← Effects.get_job (j_id job);
  match o with
  | Some _ => raise IntegrityError
  | None =>
      put_job (j_set_purge None None
        (j_set job JPending (j_audio_duration job) None None None None None None)) ;;
      commit
  end.

(** The row of a job, for its tenant when one is given. *)
Definition get_job (job_id : UUID) (tenant_id : option UUID) : M (option JobModel) :=
  o ← Effects.get_job job_id;
  mret (match o, tenant_id with
        | Some j, Some t => if N.eqb (j_tenant_id j) t then Some j else None
        | _, _ => o
        end).

(** ** Cancellation *)

Record CancelResult := {
  cr_status : JobStatus;
  cr_running_task_count : nat;
}.

Definition cancellable (s : JobStatus) : bool :=
  match s with JPending | JRunning => true | _ => false end.

Definition running_count (tasks : list TaskModel) : nat :=
  length (List.filter (λ t, bool_decide (tm_status t = TRunning)) tasks).

Definition cancel_job (job_id : UUID) (tenant_id : option UUID) : M (option CancelResult) :=
  o ← get_job job_id tenant_id;
  match o with
  | None => mret None
  | Some job =>
      if negb (cancellable (j_status job)) then raise (PyExn ValueError)
      else
        tasks ← job_tasks job_id;
        cancel_tasks [TPending; TReady] tasks ;;
        t ← now;
        let n := running_count tasks in
        let st := if 0 <? n then JCancelling else JCancelled in
        put_job (j_update job st (j_error job) (j_started_at job)
                   (if 0 <? n then j_completed_at job else Some t)) ;;
        commit ;;
        mret (Some {| cr_status := st; cr_running_task_count := n |})
  end.

(** [POST /v1/audio/transcriptions/{id}/cancel] *)
Definition cancel_route (job_id tenant_id : UUID) : M (option CancelResult) :=
  o ← cancel_job job_id (Some tenant_id);
  match o with
  | None => mret None
  | Some r =>
      publish_event (JobCancelRequested job_id) ;;
      when (bool_decide (cr_status r = JCancelled))
        (decrement_concurrent_jobs_once job_id tenant_id ;; mret ()) ;;
      mret (Some r)
  end.

(** [POST /api/console/jobs/{id}/cancel] *)
Definition console_cancel_route (job_id : UUID) : M (option CancelResult) :=
  o ← cancel_job job_id None;
  match o with
  | None => mret None
  | Some r => publish_event (JobCancelRequested job_id) ;; mret (Some r)
  end.

(** ** Deletion *)

(** Deletes the tasks of a terminal job and the job. *)
Definition delete_job (job_id : UUID) (tenant_id : option UUID) : M (option JobModel) :=
  o ← get_job job_id tenant_id;
  match o with
  | None => mret None
  | Some job =>
      if negb (job_terminal (j_status job)) then raise (PyExn ValueError)
      else
        modify_db (λ d, {| db_jobs := delete job_id (db_jobs d);
                           db_tasks := base.filter (λ kt, tm_job_id kt.2 ≠ job_id) (db_tasks d);
                           db_artifacts := db_artifacts d |}) ;;
        commit ;;
        mret (Some job)
  end.

(** ** [_topological_sort_tasks] *)

Definition str_le (a b : string) : bool :=
  match String.compare a b with Gt => false | _ => true end.

(** [sorted(l, key=lambda t: t.stage)] *)
Definition by_stage (l : list TaskModel) : list TaskModel :=
  stable_sort (λ a b, negb (str_le (tm_stage b) (tm_stage a))) l.

Definition in_list (tasks : list TaskModel) (k : UUID) : bool :=
  existsb (λ x, N.eqb (tm_id x) k) tasks.

Definition depends_on (t : TaskModel) (k : UUID) : bool := existsb (N.eqb k) (tm_dependencies t).

(** [in_degree] before the loop: the dependencies that are in the list. *)
Definition initial_degrees (tasks : list TaskModel) : gmap UUID Z :=
  foldr (λ t m, <[tm_id t := Z.of_nat (length (List.filter (in_list tasks) (tm_dependencies t)))]> m)
    ∅ tasks.

Definition degree (m : gmap UUID Z) (k : UUID) : Z := default 0%Z (m !! k).

(** The inner loop: every dependent of [current] loses a degree; the ones that
    reach zero are returned. *)
Fixpoint relax (current : UUID) (tasks : list TaskModel) (m : gmap UUID Z)
    : gmap UUID Z * list TaskModel :=
  match tasks with
  | [] => (m, [])
  | t :: tasks =>
      if depends_on t current then
        let n := (degree m (tm_id t) - 1)%Z in
        let '(m', ready) := relax current tasks (<[tm_id t := n]> m) in
        (m', if (n =? 0)%Z then t :: ready else ready)
      else relax current tasks m
  end.

(** The outer loop; every round appends a task, so [length tasks] rounds are
    enough ([kahn_enough]). *)
Fixpoint kahn (fuel : nat) (tasks ready result : list TaskModel) (m : gmap UUID Z)
    : list TaskModel :=
  match fuel, ready with
  | S fuel, current :: ready =>
      let '(m', next) := relax (tm_id current) tasks m in
      kahn fuel tasks (by_stage (ready ++ by_stage next)) (result ++ [current]) m'
  | _, _ => result
  end.

Definition _topological_sort_tasks (tasks : list TaskModel) : list TaskModel :=
  let m := initial_degrees tasks in
  kahn (length tasks) tasks
    (by_stage (List.filter (λ t, (degree m (tm_id t) =? 0)%Z) tasks)) [] m.

(** ** Correctness of the sort *)

(** Every task comes after its dependencies in the list [all]. *)
Fixpoint deps_first (all seen : list UUID) (l : list TaskModel) : Prop :=
  match l with
  | [] => True
  | t :: l => (∀ d, d ∈ tm_dependencies t → d ∈ all → d ∈ seen)
              ∧ deps_first all (tm_id t :: seen) l
  end.

(** A list of tasks with distinct ids and dependencies, as the primary keys of
    the two tables guarantee. *)
Definition task_list (ts : list TaskModel) : Prop :=
  NoDup (tm_id <$> ts) ∧ Forall (λ t, NoDup (tm_dependencies t)) ts.

Definition acyclic (ts : list TaskModel) : Prop :=
  ∃ rank : UUID → nat, ∀ t d, t ∈ ts → d ∈ tm_dependencies t → rank d < rank (tm_id t).

Lemma in_list_spec ts k : in_list ts k = true ↔ k ∈ tm_id <$> ts.
Proof.
  unfold in_list. rewrite existsb_exists, list_elem_of_fmap. setoid_rewrite list_elem_of_In.
  split; intros (x & H1 & H2); exists x; [apply N.eqb_eq in H2; naive_solver|].
  subst. split; [done|by apply N.eqb_eq].
Qed.

Lemma depends_on_spec t k : depends_on t k = true ↔ k ∈ tm_dependencies t.
Proof.
  unfold depends_on. rewrite existsb_exists, list_elem_of_In. split.
  - by intros (x & Hx & ->%N.eqb_eq).
  - intros H. exists k. split; [done|apply N.eqb_refl].
Qed.

Lemma by_stage_perm l : by_stage l ≡ₚ l.
Proof. apply stable_sort_perm. Qed.

Lemma degree_insert m k n k' :
  degree (<[k := n]> m) k' = if decide (k = k') then n else degree m k'.
Proof.
  unfold degree. case_decide as Hk; [subst; by rewrite lookup_insert_eq|].
  by rewrite lookup_insert_ne.
Qed.

Lemma relax_spec cur ts m :
  NoDup (tm_id <$> ts) →
  (∀ k, degree (relax cur ts m).1 k =
        (degree m k - if existsb (λ t, N.eqb (tm_id t) k && depends_on t cur) ts then 1 else 0)%Z) ∧
  (relax cur ts m).2 =
    List.filter (λ t, depends_on t cur && (degree m (tm_id t) =? 1)%Z) ts.
Proof.
  revert m. induction ts as [|t ts IH]; intros m; cbn.
  { intros _. split; [intros; lia|done]. }
  intros [Ht Hnd]%NoDup_cons.
  assert (existsb (λ x, N.eqb (tm_id x) (tm_id t) && depends_on x cur) ts = false) as Hnt.
  { apply not_true_iff_false. rewrite existsb_exists. intros (x & Hx & Heq).
    apply andb_true_iff in Heq as [Heq%N.eqb_eq _]. apply Ht. rewrite <-Heq.
    apply list_elem_of_fmap_2. by apply list_elem_of_In. }
  destruct (depends_on t cur) eqn:Hd; cbn.
  - destruct (IH (<[tm_id t := (degree m (tm_id t) - 1)%Z]> m) Hnd) as [H1 H2].
    destruct (relax _ _ _) as [m' ready]. cbn in *. split.
    + intros k. rewrite H1, degree_insert. rewrite andb_true_r.
      destruct (N.eqb_spec (tm_id t) k) as [<-|Hk]; cbn.
      * rewrite decide_True by done. rewrite Hnt. lia.
      * by rewrite decide_False by done.
    + rewrite H2.
      assert (List.filter (λ x, depends_on x cur &&
          (degree (<[tm_id t := (degree m (tm_id t) - 1)%Z]> m) (tm_id x) =? 1)%Z) ts
        = List.filter (λ x, depends_on x cur && (degree m (tm_id x) =? 1)%Z) ts) as ->.
      { apply filter_ext_in. intros x Hx. rewrite degree_insert. case_decide as Heq; [|done].
        exfalso. apply Ht. rewrite Heq. apply list_elem_of_fmap_2. by apply list_elem_of_In. }
      destruct (Z.eqb_spec (degree m (tm_id t) - 1) 0), (Z.eqb_spec (degree m (tm_id t)) 1);
        done || lia.
  - destruct (IH m Hnd) as [H1 H2]. split; [|done]. intros k. rewrite H1.
    by rewrite andb_false_r.
Qed.

Lemma deps_first_app all seen l t :
  deps_first all seen (l ++ [t]) ↔
  deps_first all seen l ∧ ∀ d, d ∈ tm_dependencies t → d ∈ all → d ∈ seen ∨ d ∈ tm_id <$> l.
Proof.
  revert seen. induction l as [|x l IH]; intros seen; cbn.
  - split; [intros [H _]; split; [done|auto]|].
    intros [_ H]. split; [|done]. intros d Hd Ha. destruct (H d Hd Ha) as [|Hn]; [done|inversion Hn].
  - rewrite IH. setoid_rewrite elem_of_cons. naive_solver.
Qed.

(** Removing one element from what is counted. *)
Lemma count_remove (P : UUID → bool) c (l : list UUID) :
  NoDup l →
  Z.of_nat (length (List.filter (λ d, P d && negb (N.eqb d c)) l)) =
  (Z.of_nat (length (List.filter P l)) - if existsb (N.eqb c) l && P c then 1 else 0)%Z.
Proof.
  induction 1 as [|d l Hd Hl IH]; cbn; [done|].
  destruct (N.eqb_spec d c) as [->|Hdc].
  - rewrite N.eqb_refl, andb_false_r. cbn.
    assert (existsb (N.eqb c) l = false) as Hc.
    { apply not_true_iff_false. rewrite existsb_exists. intros (x & Hx & ->%N.eqb_eq).
      by apply Hd, list_elem_of_In. }
    rewrite Hc in IH. cbn in IH. rewrite IH. destruct (P c); cbn; lia.
  - rewrite (proj2 (N.eqb_neq c d)) by congruence. rewrite andb_true_r. cbn [negb orb].
    destruct (P d); cbn [length]; rewrite ?Nat2Z.inj_succ, IH; lia.
Qed.

(** The dependencies a task still waits for. *)
Definition waiting_for (ts result : list TaskModel) (t : TaskModel) : list UUID :=
  List.filter (λ d, in_list ts d && negb (in_list result d)) (tm_dependencies t).

Record kahn_inv (ts ready result : list TaskModel) (m : gmap UUID Z) : Prop := {
  ki_sub : ∀ t, t ∈ result ++ ready → t ∈ ts;
  ki_nodup : NoDup (tm_id <$> result ++ ready);
  ki_degree : ∀ t, t ∈ ts → degree m (tm_id t) = Z.of_nat (length (waiting_for ts result t));
  ki_ready : ∀ t, t ∈ ts → t ∈ result ++ ready ↔ degree m (tm_id t) = 0%Z;
  ki_order : deps_first (tm_id <$> ts) [] result;
}.

Lemma NoDup_ids_inj (ts : list TaskModel) t1 t2 :
  NoDup (tm_id <$> ts) → t1 ∈ ts → t2 ∈ ts → tm_id t1 = tm_id t2 → t1 = t2.
Proof.
  induction ts as [|x ts IH]; intros Hnd H1 H2 Heq; [inversion H1|].
  cbn in Hnd. apply NoDup_cons in Hnd as [Hx Hnd]. rewrite elem_of_cons in H1, H2.
  destruct H1 as [->|H1], H2 as [->|H2]; [done| | |by apply IH].
  - destruct Hx. rewrite Heq. by apply list_elem_of_fmap_2.
  - destruct Hx. rewrite <-Heq. by apply list_elem_of_fmap_2.
Qed.

Lemma existsb_id (ts : list TaskModel) t c :
  NoDup (tm_id <$> ts) → t ∈ ts →
  existsb (λ x, N.eqb (tm_id x) (tm_id t) && depends_on x c) ts = depends_on t c.
Proof.
  intros Hnd Ht. apply eq_bool_prop_intro. rewrite !Is_true_true, existsb_exists. split.
  - intros (x & Hx & Heq). apply andb_true_iff in Heq as [Heq%N.eqb_eq Hd].
    rewrite <-list_elem_of_In in Hx. by rewrite <-(NoDup_ids_inj ts x t).
  - intros Hd. exists t. rewrite <-list_elem_of_In, N.eqb_refl. done.
Qed.

Lemma filter_ids_NoDup (f : TaskModel → bool) (ts : list TaskModel) :
  NoDup (tm_id <$> ts) → NoDup (tm_id <$> List.filter f ts).
Proof.
  induction ts as [|x ts IH]; cbn; [done|]. intros [Hx Hnd]%NoDup_cons.
  destruct (f x); [|by apply IH]. cbn. constructor; [|by apply IH].
  intros (t & Heq & [Ht _]%elem_of_filter_b)%list_elem_of_fmap. apply Hx. rewrite Heq.
  by apply list_elem_of_fmap_2.
Qed.

Lemma elem_of_waiting_for ts result t d :
  d ∈ waiting_for ts result t ↔
  d ∈ tm_dependencies t ∧ d ∈ tm_id <$> ts ∧ d ∉ tm_id <$> result.
Proof.
  unfold waiting_for. rewrite elem_of_filter_b, andb_true_iff, negb_true_iff, in_list_spec.
  by rewrite <-(in_list_spec result), not_true_iff_false.
Qed.

Lemma waiting_for_none ts result t :
  waiting_for ts result t = [] ↔
  ∀ d, d ∈ tm_dependencies t → d ∈ tm_id <$> ts → d ∈ tm_id <$> result.
Proof.
  split.
  - intros Hw d Hd Hts. destruct (decide (d ∈ tm_id <$> result)) as [|Hr]; [done|].
    assert (d ∈ waiting_for ts result t) as Hin by by apply elem_of_waiting_for.
    rewrite Hw in Hin. by apply elem_of_nil in Hin.
  - intros H. destruct (waiting_for ts result t) as [|d l] eqn:Hw; [done|].
    assert (d ∈ waiting_for ts result t) as Hd by (rewrite Hw; left).
    apply elem_of_waiting_for in Hd as (Hd & Hts & Hr). by destruct Hr; apply H.
Qed.

(** Appending [c] takes it off what its dependents wait for. *)
Lemma waiting_for_step ts result c t :
  NoDup (tm_dependencies t) → c ∈ ts → tm_id c ∉ tm_id <$> result →
  Z.of_nat (length (waiting_for ts (result ++ [c]) t)) =
  (Z.of_nat (length (waiting_for ts result t)) - if depends_on t (tm_id c) then 1 else 0)%Z.
Proof.
  intros Hnd Hc Hcres. rewrite <-in_list_spec in Hcres. unfold waiting_for.
  rewrite (filter_ext (λ d, in_list ts d && negb (in_list (result ++ [c]) d))
    (λ d, (in_list ts d && negb (in_list result d)) && negb (N.eqb d (tm_id c)))).
  - rewrite (count_remove (λ d, in_list ts d && negb (in_list result d))) by done.
    unfold depends_on. f_equal.
    assert (in_list ts (tm_id c) = true) as -> by (apply in_list_spec; by apply list_elem_of_fmap_2).
    apply not_true_is_false in Hcres. rewrite Hcres. cbn. by rewrite andb_true_r.
  - intros d. unfold in_list. rewrite existsb_app. cbn. rewrite orb_false_r, negb_orb, andb_assoc.
    by rewrite (N.eqb_sym (tm_id c) d).
Qed.

Lemma kahn_inv_step ts c ready result m :
  task_list ts → kahn_inv ts (c :: ready) result m →
  kahn_inv ts (by_stage (ready ++ by_stage (relax (tm_id c) ts m).2)) (result ++ [c])
    (relax (tm_id c) ts m).1.
Proof.
  intros [Hnd Hdeps] [Hsub Hnod Hdeg Hready Hord]. rewrite Forall_forall in Hdeps.
  destruct (relax_spec (tm_id c) ts m Hnd) as [Hr1 Hr2]. rewrite Hr2. clear Hr2.
  set (next := List.filter _ ts).
  assert (c ∈ ts) as Hc by (apply Hsub; set_solver).
  assert (by_stage (ready ++ by_stage next) ≡ₚ ready ++ next) as Hp
    by by rewrite !by_stage_perm.
  assert ((result ++ [c]) ++ by_stage (ready ++ by_stage next) ≡ₚ (result ++ c :: ready) ++ next)
    as Hall by (rewrite Hp; solve_Permutation || (rewrite <-!app_assoc; done)).
  assert (∀ t, t ∈ next → t ∈ ts ∧ degree m (tm_id t) = 1%Z) as Hnext.
  { intros t [Ht Hb]%elem_of_filter_b. apply andb_true_iff in Hb as [_ He%Z.eqb_eq]. done. }
  assert (tm_id c ∉ tm_id <$> result) as Hcres.
  { rewrite fmap_app in Hnod. apply NoDup_app in Hnod as (_ & Hdis & _).
    intros Hin. by apply (Hdis _ Hin); left. }
  assert (∀ t, t ∈ ts → degree (relax (tm_id c) ts m).1 (tm_id t)
    = (degree m (tm_id t) - if depends_on t (tm_id c) then 1 else 0)%Z) as Hdeg'.
  { intros t Ht. by rewrite Hr1, existsb_id. }
  split.
  - intros t. rewrite Hall. intros [Ht|Ht]%elem_of_app; [by apply Hsub|by apply Hnext].
  - rewrite Hall, fmap_app. apply NoDup_app. split_and!; [done| |by apply filter_ids_NoDup].
    intros k (t & -> & Ht)%list_elem_of_fmap (t' & Heq & Ht')%list_elem_of_fmap.
    destruct (Hnext _ Ht') as (Hin & H1).
    assert (t = t') as -> by (apply (NoDup_ids_inj ts); [done|by apply Hsub|done|done]).
    apply Hready in Ht; [lia|done].
  - intros t Ht. rewrite Hdeg', Hdeg by done. symmetry. apply waiting_for_step; auto.
  - intros t Ht. rewrite Hall, Hdeg' by done. rewrite elem_of_app, Hready by done.
    unfold next. rewrite elem_of_filter_b, andb_true_iff, Z.eqb_eq.
    destruct (depends_on t (tm_id c)) eqn:Hd; [|naive_solver lia].
    assert (degree m (tm_id t) ≠ 0%Z) as Hn0; [|naive_solver lia].
    rewrite Hdeg by done. intros Hz. apply depends_on_spec in Hd. apply Hcres.
    apply (waiting_for_none ts result t); [|done|by apply list_elem_of_fmap_2].
    destruct (waiting_for ts result t); [done|cbn in Hz; lia].
  - apply deps_first_app. split; [done|]. intros d Hd Hin. right.
    assert (degree m (tm_id c) = 0%Z) as H0 by (apply Hready; [done|set_solver]).
    rewrite Hdeg in H0 by done. apply (waiting_for_none ts result c); [|done..].
    destruct (waiting_for ts result c); [done|cbn in H0; lia].
Qed.

Lemma initial_degrees_spec ts t :
  NoDup (tm_id <$> ts) → t ∈ ts →
  degree (initial_degrees ts) (tm_id t) = Z.of_nat (length (waiting_for ts [] t)).
Proof.
  intros Hnd Ht. unfold waiting_for, in_list at 2. cbn.
  rewrite (filter_ext (λ d, in_list ts d && true) (in_list ts)) by (intros; apply andb_true_r).
  unfold initial_degrees. set (f := λ t, Z.of_nat (length (List.filter (in_list ts) (tm_dependencies t)))).
  change (degree (foldr (λ t m, <[tm_id t := f t]> m) ∅ ts) (tm_id t) = f t).
  generalize f. clear f. intros f. revert Hnd Ht. induction ts as [|x ts IH]; intros Hnd Ht; cbn;
    [inversion Ht|].
  cbn in Hnd. apply NoDup_cons in Hnd as [Hx Hnd]. rewrite degree_insert.
  apply elem_of_cons in Ht as [->|Ht]; [by rewrite decide_True|].
  rewrite decide_False; [by apply IH|]. intros Heq. apply Hx. rewrite Heq.
  by apply list_elem_of_fmap_2.
Qed.

Lemma kahn_inv_init ts :
  task_list ts →
  kahn_inv ts (by_stage (List.filter (λ t, (degree (initial_degrees ts) (tm_id t) =? 0)%Z) ts)) []
    (initial_degrees ts).
Proof.
  intros [Hnd _]. split; cbn [app].
  - intros t. rewrite by_stage_perm, elem_of_filter_b. tauto.
  - rewrite by_stage_perm. clear -Hnd. generalize (initial_degrees ts). intros m.
    induction ts as [|x ts IH]; cbn; [constructor|].
    cbn in Hnd. apply NoDup_cons in Hnd as [Hx Hnd]. destruct (_ =? _)%Z; [|by apply IH].
    cbn. constructor; [|by apply IH].
    intros (t & Heq & [Ht _]%elem_of_filter_b)%list_elem_of_fmap. apply Hx. rewrite Heq.
    by apply list_elem_of_fmap_2.
  - intros t Ht. by apply initial_degrees_spec.
  - intros t Ht. rewrite by_stage_perm, elem_of_filter_b, Z.eqb_eq. tauto.
  - done.
Qed.

Lemma kahn_inv_length ts ready result m :
  kahn_inv ts ready result m → length (result ++ ready) ≤ length ts.
Proof.
  intros [Hsub Hnd _ _ _]. apply submseteq_length, NoDup_submseteq; [|exact Hsub].
  by eapply NoDup_fmap_1.
Qed.

(** Enough rounds empty the ready list; more of them change nothing. *)
Lemma kahn_enough ts fuel : ∀ ready result m,
  task_list ts → kahn_inv ts ready result m → length ts ≤ fuel + length result →
  (∃ m', kahn_inv ts [] (kahn fuel ts ready result m) m') ∧
  ∀ n, kahn (fuel + n) ts ready result m = kahn fuel ts ready result m.
Proof.
  induction fuel as [|fuel IH]; intros ready result m Hts Hinv Hlen.
  - pose proof (kahn_inv_length _ _ _ _ Hinv) as Hl. rewrite length_app in Hl.
    destruct ready; [|cbn in *; lia]. split; [by exists m|]. by intros [|n].
  - destruct ready as [|c ready]; [split; [by exists m|done]|].
    pose proof (kahn_inv_step ts c ready result m Hts Hinv) as Hstep. cbn.
    destruct (relax (tm_id c) ts m) as [m' next]. cbn in Hstep.
    apply IH; [done|done|]. rewrite length_app. cbn. lia.
Qed.

Lemma kahn_complete ts result m :
  NoDup (tm_id <$> ts) → kahn_inv ts [] result m → acyclic ts → result ≡ₚ ts.
Proof.
  intros Hnd [Hsub Hnod Hdeg Hready _] [rank Hrank]. rewrite app_nil_r in *.
  assert (∀ n t, t ∈ ts → rank (tm_id t) < n → t ∈ result) as Hall.
  { induction n as [|n IH]; intros t Ht Hr; [lia|].
    apply Hready; [done|]. rewrite Hdeg by done.
    assert (waiting_for ts result t = []) as ->; [|done].
    destruct (waiting_for ts result t) as [|d l] eqn:Hw; [done|exfalso].
    assert (d ∈ waiting_for ts result t) as Hd by (rewrite Hw; left).
    apply elem_of_filter_b in Hd as [Hd Hb]. apply andb_true_iff in Hb as [Hin Hres].
    apply in_list_spec, list_elem_of_fmap in Hin as (t' & -> & Ht').
    apply negb_true_iff, not_true_iff_false in Hres. apply Hres, in_list_spec.
    apply list_elem_of_fmap_2, IH; [done|]. specialize (Hrank t _ Ht Hd). lia. }
  apply NoDup_Permutation; [by eapply NoDup_fmap_1|by eapply NoDup_fmap_1|].
  intros t. split; [apply Hsub|]. intros Ht. by apply (Hall (S (rank (tm_id t)))); [|lia].
Qed.

(** The listing order of a job's tasks.  For tasks with distinct ids and
    links, every listed task comes after its dependencies, nothing is listed
    twice, the loop ends within one round per task, and unless the links form
    a cycle every task is listed. *)
Theorem topological_sort_correct ts :
  task_list ts →
  deps_first (tm_id <$> ts) [] (_topological_sort_tasks ts) ∧
  NoDup (tm_id <$> _topological_sort_tasks ts) ∧
  (∀ t, t ∈ _topological_sort_tasks ts → t ∈ ts) ∧
  (∀ n, kahn (length ts + n) ts
     (by_stage (List.filter (λ t, (degree (initial_degrees ts) (tm_id t) =? 0)%Z) ts)) []
     (initial_degrees ts) = _topological_sort_tasks ts) ∧
  (acyclic ts → _topological_sort_tasks ts ≡ₚ ts).
Proof.
  intros Hts. pose proof (kahn_inv_init ts Hts) as Hinit. unfold _topological_sort_tasks.
  destruct (kahn_enough ts (length ts) _ _ _ Hts Hinit) as [(m & Hinv) Hmore]; [cbn; lia|].
  pose proof Hinv as [Hsub Hnd _ _ Hord]. rewrite app_nil_r in *.
  split_and!; [done..|]. intros Hac. by eapply kahn_complete; [apply Hts| |].
Qed.

Module JobsDemo.
Definition row (id : UUID) (stage : string) (deps : list UUID) : TaskModel := {|
  tm_id := id; tm_job_id := 7; tm_stage := stage; tm_engine_id := "e"; tm_status := TPending;
  tm_dependencies := deps; tm_config := []; tm_request_uri := None; tm_response_uri := None;
  tm_retries := 0; tm_max_retries := 2; tm_required := true; tm_error := None;
  tm_ready_at := None; tm_started_at := None; tm_completed_at := None |}.

Definition rows : list TaskModel :=
  [row 4 "diarize" [1%N]; row 3 "align" [2%N]; row 2 "transcribe" [1%N]; row 1 "prepare" []].
End JobsDemo.

Lemma topological_sort_correct_witness :
  map tm_stage (_topological_sort_tasks JobsDemo.rows) =
    ["prepare"; "diarize"; "transcribe"; "align"] ∧
  _topological_sort_tasks JobsDemo.rows ≡ₚ JobsDemo.rows.
Proof.
  split; [vm_compute; reflexivity|].
  apply topological_sort_correct.
  - split; [|repeat constructor]; try (apply (bool_decide_unpack _); vm_compute; exact I);
      intros H; inversion H.
  - exists (λ k, match k with 1%N => 0 | 2%N => 1 | 3%N => 2 | _ => 3 end). intros t d Ht Hd.
    unfold JobsDemo.rows in Ht.
    repeat (apply elem_of_cons in Ht as [->|Ht]; [cbn in Hd; repeat (apply elem_of_cons in Hd as
      [->|Hd]; [vm_compute; lia|]); inversion Hd|]). inversion Ht.
Defined.
