(* ===== verification/Slots.v ===== *)
(** * Concurrency slots

    The contract of the counters of concurrent jobs, shared by the gateway
    ([RateLimiter.v]) and the orchestrator ([Handlers.v]): an abstract
    specification of slots and the refinement of it by both implementations. *)

From S2P Require Import Prelude PyValue Models Catalog Registry Selector Dag Store.
From S2P Require Import Effects Streams RateLimiter Scheduler PostProcessor Handlers.

(** ** Specification *)

(** Slots in use per tenant, and the jobs whose slot was given back. *)
Record slots := {
  sl_count : UUID → Z;
  sl_done : gset UUID;
}.

Inductive slot_op : Type :=
  | Acquire (tenant : UUID)
  | GatewayRelease (job tenant : UUID)
  | OrchestratorRelease (job tenant : UUID).

Definition set_count (k : UUID) (n : Z) (f : UUID → Z) : UUID → Z :=
  λ k', if N.eqb k k' then n else f k'.

(** A job's slot is given back once, and no count goes below zero. *)
Definition spec_release (job tenant : UUID) (s : slots) : slots * bool :=
  if bool_decide (job ∈ sl_done s) then (s, false)
  else ({| sl_count := set_count tenant (Z.max 0 (sl_count s tenant - 1)) (sl_count s);
           sl_done := {[job]} ∪ sl_done s |}, true).

Definition spec_op (o : slot_op) (s : slots) : slots * bool :=
  match o with
  | Acquire k => ({| sl_count := set_count k (sl_count s k + 1) (sl_count s);
                     sl_done := sl_done s |}, true)
  | GatewayRelease j k | OrchestratorRelease j k => spec_release j k s
  end.

(** ** Implementations *)

Definition impl_op (o : slot_op) : M bool :=
  match o with
  | Acquire k => increment_concurrent_jobs k ;; mret true
  | GatewayRelease j k => decrement_concurrent_jobs_once j k
  | OrchestratorRelease j k => _decrement_concurrent_jobs j k
  end.

(** Runs operations at their times: the world, and the answers. *)
Fixpoint impl_ops (ops : list (timestamp * slot_op)) (w : world) : world * list bool :=
  match ops with
  | [] => (w, [])
  | (t, o) :: ops =>
      match impl_op o (set_now t w) with
      | (w', Ok b) => let '(w'', bs) := impl_ops ops w' in (w'', b :: bs)
      | (w', Raise _) => (w', [])
      end
  end.

Fixpoint spec_ops (ops : list (timestamp * slot_op)) (s : slots) : slots * list bool :=
  match ops with
  | [] => (s, [])
  | (t, o) :: ops =>
      let '(s', b) := spec_op o s in
      let '(s'', bs) := spec_ops ops s' in (s'', b :: bs)
  end.

(** ** The relation *)

Section refinement.
Context (T : timestamp).

(** An expiry no time of the day after [T] reaches. *)
Definition lasts (e : option timestamp) : Prop :=
  match e with None => True | Some x => (T + seconds CONCURRENT_COUNTER_TTL_SECONDS <= x)%Z end.

Definition in_day (t : timestamp) : Prop :=
  (T <= t < T + seconds CONCURRENT_COUNTER_TTL_SECONDS)%Z.

Record refines (r : Redis) (s : slots) : Prop := {
  rf_count : ∀ k, match r_jobs r !! k with
                  | None => sl_count s k = 0%Z
                  | Some (v, e) => v = sl_count s k ∧ (0 <= v)%Z ∧ lasts e
                  end;
  rf_done : ∀ j, match r_decremented r !! j with
                 | None => j ∉ sl_done s
                 | Some (_, e) => j ∈ sl_done s ∧ lasts e
                 end;
}.

Lemma lasts_alive t e : in_day t → lasts e → alive t e = true.
Proof. unfold in_day, lasts, alive. destruct e; [|done]. intros. apply Z.ltb_lt. lia. Qed.

Lemma lasts_fresh t : in_day t → lasts (Some (t + seconds CONCURRENT_COUNTER_TTL_SECONDS)%Z).
Proof. unfold in_day. cbn. lia. Qed.

Lemma count_nonneg r s k : refines r s → (0 <= sl_count s k)%Z.
Proof. intros [Hc _]. specialize (Hc k). destruct (r_jobs r !! k) as [[v e]|]; lia. Qed.

(** [INCR] and [DECR] on a related counter. *)
Lemma add_counter_spec r s t k n :
  refines r s → in_day t →
  ∃ e, add_counter t k n (r_jobs r) = (<[k := ((sl_count s k + n)%Z, e)]> (r_jobs r),
                                       (sl_count s k + n)%Z) ∧ lasts e.
Proof.
  intros [Hc _] Ht. specialize (Hc k). unfold add_counter.
  destruct (r_jobs r !! k) as [[v e]|].
  - destruct Hc as (-> & _ & He). rewrite (lasts_alive _ _ Ht He). by exists e.
  - rewrite Hc. by exists None.
Qed.

Lemma bump_spec r s t k n :
  refines r s → in_day t →
  ∃ e, bump t k n (r_jobs r) = (<[k := ((sl_count s k + n)%Z, e)]> (r_jobs r),
                                (sl_count s k + n)%Z) ∧ lasts e.
Proof.
  intros Hr Ht. destruct (add_counter_spec r s t k n Hr Ht) as (e & He & Hl).
  unfold bump. rewrite He. unfold expire, rget. rewrite lookup_insert_eq.
  rewrite (lasts_alive _ _ Ht Hl), insert_insert_eq. eexists. split; [done|].
  by apply lasts_fresh.
Qed.

(** Writing a count keeps the relation. *)
Lemma refines_count r s k n e :
  refines r s → (0 <= n)%Z → lasts e →
  refines (put_jobs (<[k := (n, e)]> (r_jobs r)) r)
    {| sl_count := set_count k n (sl_count s); sl_done := sl_done s |}.
Proof.
  intros [Hc Hd] Hn He. split; [|exact Hd]. intros k'. cbn. unfold set_count.
  destruct (N.eqb_spec k k') as [<-|Hk].
  - by rewrite lookup_insert_eq.
  - rewrite lookup_insert_ne by done. apply Hc.
Qed.

Lemma refines_guard r s j e :
  refines r s → lasts e →
  refines (put_decremented (<[j := ((), e)]> (r_decremented r)) r)
    {| sl_count := sl_count s; sl_done := {[j]} ∪ sl_done s |}.
Proof.
  intros [Hc Hd] He. split; [exact Hc|]. intros j'. cbn.
  destruct (decide (j = j')) as [<-|Hj].
  - rewrite lookup_insert_eq. split; [set_solver|done].
  - rewrite lookup_insert_ne by done. specialize (Hd j').
    destruct (r_decremented r !! j') as [[u x]|]; set_solver.
Qed.

(** The guard of a job: set once. *)
Lemma guard_spec r s t j :
  refines r s → in_day t →
  set_nx t j () CONCURRENT_COUNTER_TTL_SECONDS (r_decremented r) =
  if bool_decide (j ∈ sl_done s) then (r_decremented r, false)
  else (<[j := ((), Some (t + seconds CONCURRENT_COUNTER_TTL_SECONDS)%Z)]> (r_decremented r), true).
Proof.
  intros [_ Hd] Ht. specialize (Hd j). unfold set_nx, rget.
  destruct (r_decremented r !! j) as [[[] e]|].
  - destruct Hd as [Hj He]. rewrite (lasts_alive _ _ Ht He). by rewrite bool_decide_eq_true_2.
  - by rewrite bool_decide_eq_false_2.
Qed.

Definition refines_world (w : world) (s : slots) : Prop :=
  refines (w_redis w) s ∧ w_budget w = None.

(** What both releases do after the guard: a decrement with [dec], and a
    floor at zero written with [zero]. *)
Lemma release_refines w s j k
    (dec : timestamp → UUID → keyspace UUID Z → keyspace UUID Z * Z)
    (zero : timestamp → UUID → keyspace UUID Z → keyspace UUID Z) :
  (∀ r s t, refines r s → in_day t → ∃ e,
     dec t k (r_jobs r) = (<[k := ((sl_count s k - 1)%Z, e)]> (r_jobs r), (sl_count s k - 1)%Z)
     ∧ lasts e) →
  (∀ m t, in_day t → ∃ e, zero t k m = <[k := (0%Z, e)]> m ∧ lasts e) →
  refines_world w s → in_day (w_now w) →
  ∃ w', (t ← Effects.now;
    was_set ← effect (λ w,
      let '(g, b) := set_nx t j () CONCURRENT_COUNTER_TTL_SECONDS (r_decremented (w_redis w)) in
      (set_redis (put_decremented g (w_redis w)) w, b));
    if negb was_set then mret false
    else
      result ← effect (λ w,
        let '(c, n) := dec t k (r_jobs (w_redis w)) in
        (set_redis (put_jobs c (w_redis w)) w, n));
      when (result <? 0)%Z (redis (λ r, put_jobs (zero t k (r_jobs r)) r)) ;;
      mret true) w = (w', Ok (spec_release j k s).2)
    ∧ refines_world w' (spec_release j k s).1.
Proof.
  intros Hdec Hzero [Hr Hb] Ht. unfold Effects.now, spec_release.
  unfold mbind at 1, M_bind at 1, gets at 1. unfold mbind at 1, M_bind at 1.
  rewrite effect_run by done. rewrite (guard_spec _ s) by done.
  case_bool_decide as Hj; cbn.
  { eexists. split; [done|]. split; [|done]. split; apply Hr. }
  set (e0 := Some _). assert (lasts e0) as He0 by by apply lasts_fresh.
  pose proof (refines_guard _ _ j e0 Hr He0) as Hr1.
  set (r1 := put_decremented _ _) in *. set (s1 := {| sl_count := _ |}) in Hr1.
  unfold mbind at 1, M_bind at 1. rewrite effect_run by done. cbn.
  destruct (Hdec r1 s1 (w_now w) Hr1 Ht) as (e1 & He & Hl1). cbn in He. rewrite He. cbn.
  pose proof (count_nonneg _ _ k Hr) as Hpos.
  unfold when. destruct (Z.ltb_spec (sl_count s k - 1) 0).
  - unfold mbind at 1, M_bind at 1. rewrite redis_run by done. cbn. eexists. split; [done|].
    split; [|done]. cbn. destruct (Hzero (<[k := ((sl_count s k - 1)%Z, e1)]> (r_jobs (w_redis w)))
      (w_now w) Ht) as (e2 & -> & Hl2).
    rewrite insert_insert_eq. replace (Z.max 0 (sl_count s k - 1)) with 0%Z by lia.
    by apply (refines_count r1 s1).
  - eexists. split; [done|]. split; [|done]. cbn.
    replace (Z.max 0 (sl_count s k - 1)) with (sl_count s k - 1)%Z by lia.
    apply (refines_count r1 s1); [done|lia|done].
Qed.

(** Every operation refines its specification. *)
Lemma op_refines o w s :
  refines_world w s → in_day (w_now w) →
  ∃ w', impl_op o w = (w', Ok (spec_op o s).2) ∧ refines_world w' (spec_op o s).1.
Proof.
  intros Hw Ht. destruct o as [k|j k|j k]; cbn [impl_op spec_op].
  - destruct Hw as [Hr Hb]. destruct (bump_spec _ _ (w_now w) k 1 Hr Ht) as (e & He & Hl).
    unfold increment_concurrent_jobs, Effects.now, mbind, M_bind, gets.
    rewrite redis_run by done. eexists. split; [done|]. split; [|done]. cbn. rewrite He. cbn.
    apply refines_count; [done| |done]. pose proof (count_nonneg _ _ k Hr). lia.
  - apply (release_refines w s j k (λ t k m, bump t k (-1) m) set_zero); [| |done|done].
    + intros r s' t. apply bump_spec.
    + intros m t Ht'. eexists. split; [done|]. by apply lasts_fresh.
  - apply (release_refines w s j k (λ t k m, add_counter t k (-1) m)
      (λ _ k m, <[k := (0%Z, None)]> m)); [| |done|done].
    + intros r s' t. apply add_counter_spec.
    + intros m t _. by exists None.
Qed.
End refinement.


(** ** Concrete worlds *)

Definition empty_redis : Redis := {|
  r_jobs := ∅; r_decremented := ∅; r_sessions := ∅; r_requests := ∅; r_cancelled := ∅;
  r_dedupe := ∅; r_streams := ∅; r_metadata := ∅; r_waiting := ∅; r_enrichments := ∅;
  r_artifacts := ∅; r_groups := ∅; r_events := empty_group; r_dlq := []; r_locks := ∅ |}.

Definition empty_db : Db := {| db_jobs := ∅; db_tasks := ∅; db_artifacts := ∅ |}.

Definition empty_world : world := {|
  w_now := Demo.now; w_budget := None; w_db := empty_db; w_disk := empty_db;
  w_redis := empty_redis; w_pubsub := []; w_durable := []; w_requests := ∅;
  w_transcripts := ∅; w_uuids := 0 |}.

(** Two jobs of a tenant; the first is released by both sides. *)
Definition demo_ops : list (timestamp * slot_op) :=
  [(1, Acquire 7%N); (2, Acquire 7%N); (3, GatewayRelease 1%N 7%N);
   (4, OrchestratorRelease 1%N 7%N); (5, OrchestratorRelease 2%N 7%N)]%Z.


