(* ===== verification/Access.v ===== *)
(** * Who may do what

    Models [gateway/security/permissions.py], [principal.py] and [manager.py], and
    the operations that check them before they read or change a job, a session or a
    webhook endpoint: the [*_authorized] methods of [gateway/services/jobs.py],
    [realtime_sessions.py] and [webhook_endpoints.py], and the route that cancels a
    job.  A refusal is an exception ([security_error]); [None] is "not found". *)

From S2P Require Import Prelude PyValue Times Models Catalog Registry Store Pagination Webhooks Endpoints SessionRecords Effects Auth Jobs RateLimiter Slots.

(** ** Permissions *)

Inductive Permission : Type :=
  | JOB_CREATE | JOB_READ | JOB_READ_OWN | JOB_UPDATE | JOB_UPDATE_OWN | JOB_DELETE
  | JOB_DELETE_OWN | JOB_CANCEL | JOB_CANCEL_OWN
  | SESSION_CREATE | SESSION_READ | SESSION_READ_OWN
  | WEBHOOK_CREATE | WEBHOOK_READ | WEBHOOK_UPDATE | WEBHOOK_DELETE
  | MODEL_READ | MODEL_WRITE | MODEL_PULL | MODEL_DELETE | MODEL_SYNC
  | API_KEY_CREATE | API_KEY_REVOKE | API_KEY_LIST
  | SETTINGS_READ | SETTINGS_WRITE | AUDIT_READ | CONSOLE_ACCESS.

#[export] Instance Permission_eq_dec : EqDecision Permission.
Proof. solve_decision. Defined.

Definition permission_value (p : Permission) : string :=
  match p with
  | JOB_CREATE => "job:create" | JOB_READ => "job:read" | JOB_READ_OWN => "job:read:own"
  | JOB_UPDATE => "job:update" | JOB_UPDATE_OWN => "job:update:own"
  | JOB_DELETE => "job:delete" | JOB_DELETE_OWN => "job:delete:own"
  | JOB_CANCEL => "job:cancel" | JOB_CANCEL_OWN => "job:cancel:own"
  | SESSION_CREATE => "session:create" | SESSION_READ => "session:read"
  | SESSION_READ_OWN => "session:read:own"
  | WEBHOOK_CREATE => "webhook:create" | WEBHOOK_READ => "webhook:read"
  | WEBHOOK_UPDATE => "webhook:update" | WEBHOOK_DELETE => "webhook:delete"
  | MODEL_READ => "model:read" | MODEL_WRITE => "model:write" | MODEL_PULL => "model:pull"
  | MODEL_DELETE => "model:delete" | MODEL_SYNC => "model:sync"
  | API_KEY_CREATE => "api_key:create" | API_KEY_REVOKE => "api_key:revoke"
  | API_KEY_LIST => "api_key:list" | SETTINGS_READ => "settings:read"
  | SETTINGS_WRITE => "settings:write" | AUDIT_READ => "audit:read"
  | CONSOLE_ACCESS => "console:access"
  end.

(** [set(Permission)] *)
Definition all_permissions : list Permission :=
  [JOB_CREATE; JOB_READ; JOB_READ_OWN; JOB_UPDATE; JOB_UPDATE_OWN; JOB_DELETE; JOB_DELETE_OWN;
   JOB_CANCEL; JOB_CANCEL_OWN; SESSION_CREATE; SESSION_READ; SESSION_READ_OWN; WEBHOOK_CREATE;
   WEBHOOK_READ; WEBHOOK_UPDATE; WEBHOOK_DELETE; MODEL_READ; MODEL_WRITE; MODEL_PULL;
   MODEL_DELETE; MODEL_SYNC; API_KEY_CREATE; API_KEY_REVOKE; API_KEY_LIST; SETTINGS_READ;
   SETTINGS_WRITE; AUDIT_READ; CONSOLE_ACCESS].

Definition SCOPE_PERMISSIONS (s : Scope) : list Permission :=
  match s with
  | JOBS_READ => [JOB_READ; JOB_READ_OWN; SESSION_READ; SESSION_READ_OWN; MODEL_READ]
  | JOBS_WRITE => [JOB_CREATE; JOB_UPDATE_OWN; JOB_DELETE_OWN; JOB_CANCEL_OWN]
  | REALTIME => [SESSION_CREATE]
  | WEBHOOKS => [WEBHOOK_CREATE; WEBHOOK_READ; WEBHOOK_UPDATE; WEBHOOK_DELETE]
  | ADMIN => all_permissions
  end.

(** ** Principals *)

Inductive PrincipalType : Type := PT_API_KEY | PT_SESSION_TOKEN | PT_SYSTEM.

Record Principal := {
  pr_type : PrincipalType;
  pr_id : UUID;
  pr_tenant_id : UUID;
  pr_scopes : list Scope;
  pr_key_prefix : option string;
  pr_parent_key_id : option UUID;
}.

Definition from_api_key (k : APIKey) : Principal := {|
  pr_type := PT_API_KEY; pr_id := ak_id k; pr_tenant_id := ak_tenant_id k;
  pr_scopes := ak_scopes k; pr_key_prefix := Some (ak_prefix k); pr_parent_key_id := None |}.

Definition from_session_token (t : SessionToken) : Principal := {|
  pr_type := PT_SESSION_TOKEN; pr_id := sk_parent_key_id t; pr_tenant_id := sk_tenant_id t;
  pr_scopes := sk_scopes t; pr_key_prefix := None; pr_parent_key_id := Some (sk_parent_key_id t) |}.

Definition system_principal (tenant_id : UUID) : Principal := {|
  pr_type := PT_SYSTEM; pr_id := 0%N; pr_tenant_id := tenant_id; pr_scopes := [ADMIN];
  pr_key_prefix := None; pr_parent_key_id := None |}.

Definition get_principal (i : APIKey + SessionToken) : Principal :=
  match i with inl k => from_api_key k | inr t => from_session_token t end.

Definition is_admin (p : Principal) : bool := bool_decide (ADMIN ∈ pr_scopes p).

(** ** The security manager *)

Inductive security_mode : Type := mode_none | mode_api_key | mode_user.

Definition is_none (m : security_mode) : bool := match m with mode_none => true | _ => false end.

Section manager.
Context (mode : security_mode).
Implicit Types (p : Principal) (id : UUID) (w : world).

Definition has_permission p (perm : Permission) : bool :=
  is_none mode || is_admin p ||
  existsb (λ s, bool_decide (perm ∈ SCOPE_PERMISSIONS s)) (pr_scopes p).

Definition require_permission p (perm : Permission) : res security_error () :=
  if has_permission p perm then Ok () else Raise (AuthorizationError (permission_value perm)).

Definition can_access_resource p (tenant_id : UUID) (created_by : option UUID) : bool :=
  is_none mode ||
  N.eqb (pr_tenant_id p) tenant_id &&
  (is_admin p || bool_decide (Some (pr_id p) = created_by)).

Definition require_resource_access p (tenant_id : UUID) (resource_type : string) id
    (created_by : option UUID) : res security_error () :=
  if can_access_resource p tenant_id created_by then Ok ()
  else Raise (ResourceNotFoundError resource_type id).

(** ** Jobs *)

(** A check, in the monad of the operations on jobs. *)
Definition guard (r : res security_error ()) : M () :=
  match r with Ok _ => mret () | Raise e => raise (SecurityExn e) end.

Definition get_job_authorized p id : M (option JobModel) :=
  guard (require_permission p JOB_READ_OWN) ;;
  o ← Jobs.get_job id (Some (pr_tenant_id p));
  mret (match o with
        | Some j => if can_access_resource p (j_tenant_id j) (j_created_by_key_id j)
                    then Some j else None
        | None => None
        end).

(** The job found and checked, before it is changed. *)
Definition checked_job p (perm : Permission) id : M () :=
  guard (require_permission p perm) ;;
  o ← Jobs.get_job id (Some (pr_tenant_id p));
  match o with
  | None => raise (SecurityExn (ResourceNotFoundError "job" id))
  | Some j => guard (require_resource_access p (j_tenant_id j) "job" id (j_created_by_key_id j))
  end.

Definition delete_job_authorized p id : M (option JobModel) :=
  checked_job p JOB_DELETE_OWN id ;; delete_job id (Some (pr_tenant_id p)).

Definition cancel_job_authorized p id : M (option CancelResult) :=
  checked_job p JOB_CANCEL_OWN id ;; cancel_job id (Some (pr_tenant_id p)).

(** Whose rows a listing shows. *)
Definition owner_filter p : option UUID := if is_admin p then None else Some (pr_id p).

Definition list_jobs_authorized p (limit : nat) (cursor : option (timestamp * UUID))
    (status : option JobStatus) (since : option timestamp) (db : Db)
    : res security_error (list JobModel * bool) :=
  res_bind (require_permission p JOB_READ_OWN) (λ _,
  Ok (list_jobs (pr_tenant_id p) limit status (owner_filter p) false since cursor db)).

(** [POST /v1/audio/transcriptions/{id}/cancel], with its authorization. *)
Definition cancel_transcription p id : M (option CancelResult) :=
  o ← cancel_job_authorized p id;
  match o with
  | None => mret None
  | Some r =>
      publish_event (JobCancelRequested id) ;;
      when (bool_decide (cr_status r = JCancelled))
        (decrement_concurrent_jobs_once id (pr_tenant_id p) ;; mret ()) ;;
      mret (Some r)
  end.

(** [POST /api/console/jobs/{id}/cancel], with its authorization. *)
Definition cancel_console_job p id : M (option CancelResult) :=
  guard (require_permission p CONSOLE_ACCESS) ;; console_cancel_route id.

(** ** Realtime sessions *)

Definition get_session_authorized p id (db : sessions) : res security_error (option RealtimeSession) :=
  res_bind (require_permission p SESSION_READ_OWN) (λ _,
  Ok (match db !! id with
      | Some s => if can_access_resource p (rs_tenant_id s) (rs_created_by_key_id s)
                  then Some s else None
      | None => None
      end)).

Definition list_sessions_authorized p (status : option string) (since until : option timestamp)
    (limit : nat) (cursor : option (timestamp * UUID)) (asc : bool) (db : sessions)
    : res security_error (list RealtimeSession * bool) :=
  res_bind (require_permission p SESSION_READ_OWN) (λ _,
  Ok (list_sessions (pr_tenant_id p) status since until limit cursor asc (owner_filter p) false db)).

(** [Ok None]: the session is active. *)
Definition delete_session_authorized p id (db : sessions)
    : res security_error (option (sessions * bool)) :=
  res_bind (require_permission p SESSION_READ_OWN) (λ _,
  match db !! id with
  | None => Raise (ResourceNotFoundError "session" id)
  | Some s =>
      res_bind (require_resource_access p (rs_tenant_id s) "session" id (rs_created_by_key_id s))
        (λ _, Ok (delete_session id (pr_tenant_id p) db))
  end).

(** ** Webhook endpoints

    These check the owner themselves: an endpoint without one passes. *)
Definition may_use_endpoint p (e : WebhookEndpoint) : bool :=
  is_admin p ||
  match we_created_by_key_id e with Some k => N.eqb k (pr_id p) | None => true end.

Definition get_endpoint_authorized p id (db : WebhookDB) : res security_error (option WebhookEndpoint) :=
  res_bind (require_permission p WEBHOOK_READ) (λ _,
  Ok (match get_endpoint id (pr_tenant_id p) db with
      | Some e => if may_use_endpoint p e then Some e else None
      | None => None
      end)).

Definition list_endpoints_authorized p (is_active : option bool) (db : WebhookDB)
    : res security_error (list WebhookEndpoint) :=
  res_bind (require_permission p WEBHOOK_READ) (λ _,
  Ok (list_endpoints (pr_tenant_id p) is_active (owner_filter p) false db)).

Definition checked_endpoint p (perm : Permission) id (db : WebhookDB) : res security_error () :=
  res_bind (require_permission p perm) (λ _,
  match get_endpoint id (pr_tenant_id p) db with
  | None => Raise (ResourceNotFoundError "webhook_endpoint" id)
  | Some e => if may_use_endpoint p e then Ok ()
              else Raise (ResourceNotFoundError "webhook_endpoint" id)
  end).

Definition update_endpoint_authorized (url_error : string → option string) p id
    (url : option string) (events : option (list string)) (description : option string)
    (is_active : option bool) (db : WebhookDB)
    : res security_error (res endpoint_error (WebhookDB * option WebhookEndpoint)) :=
  res_bind (checked_endpoint p WEBHOOK_UPDATE id db) (λ _,
  Ok (change_endpoint url_error id (pr_tenant_id p) url events description is_active db)).

Definition delete_endpoint_authorized p id (db : WebhookDB)
    : res security_error (res endpoint_error (WebhookDB * bool)) :=
  res_bind (checked_endpoint p WEBHOOK_DELETE id db) (λ _,
  Ok (delete_endpoint id (pr_tenant_id p) db)).

(** [POST /v1/webhooks/{id}/rotate-secret]: [None] is a 404. *)
Definition rotate_webhook_secret (secret : string) p id (db : WebhookDB)
    : res security_error (WebhookDB * option WebhookEndpoint) :=
  res_bind (get_endpoint_authorized p id db) (λ o,
  Ok (match o with
      | None => (db, None)
      | Some _ => rotate_secret secret id (pr_tenant_id p) db
      end)).
End manager.

(** ** Permissions of a principal *)

Lemma all_permissions_complete perm : perm ∈ all_permissions.
Proof. apply (bool_decide_unpack _). by destruct perm. Qed.

Lemma has_permission_spec mode p perm :
  has_permission mode p perm = true ↔
  mode = mode_none ∨ ∃ s, s ∈ pr_scopes p ∧ perm ∈ SCOPE_PERMISSIONS s.
Proof.
  unfold has_permission, is_admin. rewrite !orb_true_iff, existsb_exists, bool_decide_eq_true.
  split.
  - intros [[Hn|Ha]|(s & Hs & Hp)].
    + left. by destruct mode.
    + right. exists ADMIN. split; [done|]. apply all_permissions_complete.
    + right. exists s. by rewrite list_elem_of_In, <-(bool_decide_eq_true (perm ∈ _)).
  - intros [->|(s & Hs & Hp)]; [by left; left|]. right. exists s.
    by rewrite <-list_elem_of_In, bool_decide_eq_true.
Qed.

Lemma can_access_spec mode p tenant_id created_by :
  mode ≠ mode_none →
  can_access_resource mode p tenant_id created_by = true ↔
  pr_tenant_id p = tenant_id ∧ (ADMIN ∈ pr_scopes p ∨ created_by = Some (pr_id p)).
Proof.
  intros Hm. unfold can_access_resource, is_admin.
  assert (is_none mode = false) as -> by by destruct mode.
  rewrite orb_false_l, andb_true_iff, orb_true_iff, !bool_decide_eq_true, N.eqb_eq. naive_solver.
Qed.

(** A token can do nothing that the key it was made from cannot. *)
Lemma token_within_parent sha256 mode now raw_token k ttl scopes token_type single_use s s' t :
  create_session_token sha256 now raw_token (inl k) ttl scopes token_type single_use s = Ok (s', t) →
  let p := from_session_token t in let q := from_api_key k in
  pr_id p = pr_id q ∧ pr_tenant_id p = pr_tenant_id q ∧
  (∀ perm, has_permission mode p perm = true → has_permission mode q perm = true) ∧
  (∀ tenant_id created_by, can_access_resource mode p tenant_id created_by = true →
     can_access_resource mode q tenant_id created_by = true).
Proof.
  unfold create_session_token. destruct (forallb _ _) eqn:Hs; [|done]. intros [= _ <-]. cbn -[has_permission].
  rewrite forallb_forall in Hs.
  assert (∀ x, x ∈ default [REALTIME] scopes → ADMIN ∈ ak_scopes k ∨ x ∈ ak_scopes k) as Hsub.
  { intros x Hx%list_elem_of_In. specialize (Hs x Hx). cbn in Hs. unfold key_has_scope in Hs.
    by rewrite orb_true_iff, !bool_decide_eq_true in Hs. }
  split_and!; [done..| |].
  - intros perm. rewrite !has_permission_spec. cbn. intros [->|(x & Hx & Hp)]; [by left|right].
    destruct (Hsub x Hx) as [Ha|Hk]; [|by exists x].
    exists ADMIN. split; [done|apply all_permissions_complete].
  - intros tenant_id created_by. unfold can_access_resource, is_admin. cbn.
    rewrite !orb_true_iff, !andb_true_iff, !orb_true_iff, !bool_decide_eq_true.
    intros [?|[? [Ha|?]]]; [by left|right..]; split; try done; [left|by right].
    by destruct (Hsub ADMIN Ha).
Qed.

(** The admin scope of a token counts for permissions and not for the sockets. *)
Example admin_token t :
  sk_scopes t = [ADMIN] →
  token_has_scope REALTIME t = false ∧
  has_permission mode_api_key (from_session_token t) SESSION_CREATE = true.
Proof. intros Ht. unfold token_has_scope, has_permission, is_admin. cbn. by rewrite Ht. Qed.

(** ** Jobs *)

Section jobs.
Context (mode : security_mode) (p : Principal).

(** What a principal can see under an id. *)
Definition readable (id : UUID) (db : Db) : option JobModel :=
  match db_jobs db !! id with
  | Some j =>
      if N.eqb (j_tenant_id j) (pr_tenant_id p) &&
         can_access_resource mode p (j_tenant_id j) (j_created_by_key_id j)
      then Some j else None
  | None => None
  end.

Lemma get_job_run id t w :
  Jobs.get_job id (Some t) w =
    (w, Ok (match db_jobs (w_db w) !! id with
            | Some j => if N.eqb (j_tenant_id j) t then Some j else None
            | None => None
            end)).
Proof.
  unfold Jobs.get_job. rewrite (bind_run _ _ w w (db_jobs (w_db w) !! id)) by done.
  by destruct (db_jobs (w_db w) !! id).
Qed.

Definition refused {A} (perm : Permission) : res exn A :=
  Raise (SecurityExn (AuthorizationError (permission_value perm))).
Definition not_found {A} (id : UUID) : res exn A :=
  Raise (SecurityExn (ResourceNotFoundError "job" id)).

Lemma checked_job_run perm id w :
  checked_job mode p perm id w =
    (w, if has_permission mode p perm
        then match readable id (w_db w) with
             | Some _ => Ok ()
             | None => not_found id
             end
        else refused perm).
Proof.
  unfold checked_job, require_permission. destruct (has_permission _ _ _); [|done].
  rewrite (bind_run _ _ w w ()) by done. erewrite bind_run by apply get_job_run.
  unfold readable, require_resource_access. destruct (db_jobs (w_db w) !! id) as [j|]; [|done].
  destruct (N.eqb _ _); [|done]. by destruct (can_access_resource _ _ _ _).
Qed.

Lemma get_job_authorized_run id w :
  get_job_authorized mode p id w =
    (w, if has_permission mode p JOB_READ_OWN then Ok (readable id (w_db w))
        else refused JOB_READ_OWN).
Proof.
  unfold get_job_authorized, require_permission. destruct (has_permission _ _ _); [|done].
  rewrite (bind_run _ _ w w ()) by done. erewrite bind_run by apply get_job_run.
  unfold readable. destruct (db_jobs (w_db w) !! id) as [j|]; [|done].
  by destruct (N.eqb _ _).
Qed.

(** C29: Jobs are guarded.  Reading, deleting and cancelling a job are refused to a principal
    without the permission, whether the job exists or not; a job that the principal cannot
    access is answered exactly as one that does not exist, and neither changes anything;
    otherwise the operation is the unguarded one on the principal's tenant.  Without the
    development mode, an accessible job is of the principal's tenant, and is the
    principal's own unless it has the admin scope. *)
Theorem jobs_guarded id w :
  let o := readable id (w_db w) in
  get_job_authorized mode p id w =
    (w, if has_permission mode p JOB_READ_OWN then Ok o
        else refused JOB_READ_OWN) ∧
  delete_job_authorized mode p id w =
    (if has_permission mode p JOB_DELETE_OWN
     then match o with
          | Some _ => delete_job id (Some (pr_tenant_id p)) w
          | None => (w, not_found id)
          end
     else (w, refused JOB_DELETE_OWN)) ∧
  cancel_transcription mode p id w =
    (if has_permission mode p JOB_CANCEL_OWN
     then match o with
          | Some _ => cancel_route id (pr_tenant_id p) w
          | None => (w, not_found id)
          end
     else (w, refused JOB_CANCEL_OWN)) ∧
  ∀ j, o = Some j → mode ≠ mode_none →
    j_tenant_id j = pr_tenant_id p ∧
    (ADMIN ∈ pr_scopes p ∨ j_created_by_key_id j = Some (pr_id p)).
Proof.
  split; [|split; [|split]].
  - apply get_job_authorized_run.
  - unfold delete_job_authorized, mbind, M_bind. rewrite checked_job_run.
    destruct (has_permission _ _ _); [|done]. by destruct (readable id (w_db w)).
  - unfold cancel_transcription, cancel_job_authorized, cancel_route, mbind, M_bind.
    rewrite checked_job_run.
    destruct (has_permission _ _ _); [|done]. by destruct (readable id (w_db w)).
  - unfold readable. intros j Hj Hm. destruct (db_jobs (w_db w) !! id) as [j'|]; [|done].
    destruct (N.eqb _ _ && _) eqn:Ha; [|done]. injection Hj as ->.
    apply andb_true_iff in Ha as [_ Ha]. apply can_access_spec in Ha as [? ?]; done.
Qed.

(** ** Listings *)

Lemma page_all {A} `{Row A} asc limit (rows : list A) :
  length rows ≤ limit → page asc limit None rows = (stable_sort (comes_before asc) rows, false).
Proof.
  intros Hl. unfold page.
  assert (List.filter (past_cursor asc None) rows = rows) as ->
    by (clear; induction rows; cbn; congruence).
  assert (length (stable_sort (comes_before asc) rows) ≤ limit) as Hs
    by by rewrite stable_sort_perm.
  rewrite take_ge by lia. by rewrite (proj2 (Nat.ltb_ge _ _)).
Qed.

Lemma owned_spec owner :
  owned (owner_filter p) false owner = true ↔
  ADMIN ∈ pr_scopes p ∨ owner = Some (pr_id p).
Proof.
  unfold owner_filter, is_admin. case_bool_decide as Ha; cbn; [naive_solver|].
  rewrite orb_false_r, bool_decide_eq_true. naive_solver.
Qed.

(** What is listed is what can be opened.  Outside of the development mode, a page that is
    long enough for all rows has exactly the jobs that the principal gets under their ids, and
    likewise the realtime sessions. *)
Theorem listings_agree limit w ss :
  mode ≠ mode_none → keyed (w_db w) → map_Forall (λ id s, rs_id s = id) ss →
  has_permission mode p JOB_READ_OWN = true → has_permission mode p SESSION_READ_OWN = true →
  length (all_jobs (w_db w)) ≤ limit → length (map snd (map_to_list ss)) ≤ limit →
  (∃ l, list_jobs_authorized mode p limit None None None (w_db w) = Ok (l, false) ∧
     ∀ j, j ∈ l ↔ (get_job_authorized mode p (j_id j) w).2 = Ok (Some j)) ∧
  (∃ l, list_sessions_authorized mode p None None None limit None false ss = Ok (l, false) ∧
     ∀ s, s ∈ l ↔ get_session_authorized mode p (rs_id s) ss = Ok (Some s)).
Proof.
  intros Hm Hk Hks Hj Hs Hlj Hls. split.
  - eexists. split.
    + unfold list_jobs_authorized, require_permission. rewrite Hj. cbn [res_bind]. f_equal.
      apply page_all. etrans; [apply List.filter_length_le|done].
    + intros j. rewrite elem_of_stable_sort, elem_of_filter_b, get_job_authorized_run, Hj.
      unfold job_matches. cbn [snd]. rewrite !andb_true_r, andb_true_iff, N.eqb_eq, owned_spec.
      unfold readable, all_jobs. rewrite list_elem_of_fmap. split.
      * intros [([k j'] & -> & Hin%elem_of_map_to_list) [Ht Ho]]. cbn in *.
        rewrite (Hk k j' Hin), Hin, Ht, N.eqb_refl.
        by rewrite (proj2 (can_access_spec mode p _ _ Hm) (conj eq_refl Ho)).
      * destruct (db_jobs (w_db w) !! j_id j) as [j'|] eqn:Hin; [|done].
        destruct (N.eqb_spec (j_tenant_id j') (pr_tenant_id p)); [|done].
        destruct (can_access_resource _ _ _ _) eqn:Ha; [|done]. intros [= ->].
        apply (can_access_spec mode p _ _ Hm) in Ha as [? ?]. split; [|done].
        exists (j_id j, j). by rewrite elem_of_map_to_list.
  - eexists. split.
    + unfold list_sessions_authorized, require_permission. rewrite Hs. cbn [res_bind]. f_equal.
      apply page_all. etrans; [apply List.filter_length_le|done].
    + intros s. rewrite elem_of_stable_sort, elem_of_filter_b.
      unfold get_session_authorized, require_permission. rewrite Hs. cbn [res_bind].
      unfold session_matches. rewrite !andb_true_r, andb_true_iff, N.eqb_eq, owned_spec.
      rewrite list_elem_of_fmap. split.
      * intros [([k s'] & -> & Hin%elem_of_map_to_list) [Ht Ho]]. cbn in *.
        rewrite (Hks k s' Hin), Hin, Ht.
        by rewrite (proj2 (can_access_spec mode p _ _ Hm) (conj eq_refl Ho)).
      * destruct (ss !! rs_id s) as [s'|] eqn:Hin; [|done].
        destruct (can_access_resource _ _ _ _) eqn:Ha; [|done]. intros [= ->].
        apply (can_access_spec mode p _ _ Hm) in Ha as [? ?]. split; [|done].
        exists (rs_id s, s). by rewrite elem_of_map_to_list.
Qed.

(** A webhook endpoint without an owner is not listed, and can be read, changed and deleted by
    every key of the tenant with the scope for webhooks. *)
Lemma unowned_endpoint e db :
  has_permission mode p WEBHOOK_READ = true → is_admin p = false →
  get_endpoint (we_id e) (pr_tenant_id p) db = Some e → we_created_by_key_id e = None →
  get_endpoint_authorized mode p (we_id e) db = Ok (Some e) ∧
  (has_permission mode p WEBHOOK_DELETE = true →
   delete_endpoint_authorized mode p (we_id e) db =
     Ok (delete_endpoint (we_id e) (pr_tenant_id p) db)) ∧
  ∀ is_active l, list_endpoints_authorized mode p is_active db = Ok l → e ∉ l.
Proof.
  intros Hr Ha Hg Hn.
  assert (may_use_endpoint p e = true) as Hu by (unfold may_use_endpoint; by rewrite Hn, orb_true_r).
  split_and!.
  - unfold get_endpoint_authorized, require_permission. rewrite Hr. cbn [res_bind]. by rewrite Hg, Hu.
  - intros Hd. unfold delete_endpoint_authorized, checked_endpoint, require_permission.
    rewrite Hd. cbn [res_bind]. by rewrite Hg, Hu.
  - intros act l. unfold list_endpoints_authorized, require_permission. rewrite Hr. cbn [res_bind].
    intros [= <-]. unfold list_endpoints. rewrite elem_of_stable_sort, elem_of_filter_b.
    intros [_ Ho]. apply andb_true_iff in Ho as [_ Ho]. unfold owner_filter in Ho. rewrite Ha in Ho.
    cbn in Ho. rewrite Hn in Ho. done.
Qed.
End jobs.

(** ** Two keys of a tenant *)

Module AccessDemo.

Definition owned_job (id owner tenant_id : UUID) : JobModel := {|
  j_id := id; j_tenant_id := tenant_id; j_status := JPending; j_audio_uri := "s3://b/a.wav";
  j_audio_format := None; j_audio_duration := None; j_audio_sample_rate := None;
  j_audio_channels := None; j_audio_bit_depth := None; j_parameters := [];
  j_error := None; j_started_at := None; j_completed_at := None; j_stats := None;
  j_pii_entities_detected := None; j_pii_redacted_audio_uri := None;
  j_created_at := 0; j_created_by_key_id := Some owner;
  j_retention := 30; j_purge_after := None; j_purged_at := None |}.

Definition db : Db := {|
  db_jobs := list_to_map [(1, owned_job 1 7 1); (2, owned_job 2 8 1); (3, owned_job 3 7 2)]%N;
  db_tasks := ∅; db_artifacts := ∅ |}.

Definition w : world := set_disk db (set_db db empty_world).

Definition user : Principal := {|
  pr_type := PT_API_KEY; pr_id := 7; pr_tenant_id := 1; pr_scopes := [JOBS_READ; JOBS_WRITE];
  pr_key_prefix := Some "dk_1234567"; pr_parent_key_id := None |}.

Definition admin : Principal := from_api_key {|
  ak_id := 9; ak_key_hash := ""; ak_prefix := "dk_admin00"; ak_name := "admin"; ak_tenant_id := 1;
  ak_scopes := [ADMIN]; ak_rate_limit := None; ak_created_at := 0; ak_last_used_at := None;
  ak_expires_at := DEFAULT_EXPIRES_AT; ak_revoked_at := None |}.

(** The user sees its own job only; another's and a missing one look the same. *)
Example seen :
  map (λ id, (readable mode_api_key user id db, readable mode_api_key admin id db)) [1; 2; 3; 4]%N =
  [(Some (owned_job 1 7 1), Some (owned_job 1 7 1)); (None, Some (owned_job 2 8 1));
   (None, None); (None, None)].
Proof. vm_compute. done. Qed.

(** An administrator of one tenant cancels a job of another through the console. *)
Example console_crosses_tenants :
  (cancel_console_job mode_api_key admin 3 w).2 =
    Ok (Some {| cr_status := JCancelled; cr_running_task_count := 0 |}) ∧
  (cancel_transcription mode_api_key admin 3 w).2 = not_found 3.
Proof. vm_compute. done. Qed.

Lemma db_keyed : keyed db.
Proof.
  intros k j Hj%elem_of_list_to_map_2.
  repeat (apply elem_of_cons in Hj as [[= -> ->]|Hj]; [done|]). by apply elem_of_nil in Hj.
Qed.
End AccessDemo.

Lemma jobs_guarded_witness :
  (cancel_transcription mode_api_key AccessDemo.user 2 AccessDemo.w) = (AccessDemo.w, not_found 2) ∧
  pr_tenant_id AccessDemo.user = 1%N ∧
  (ADMIN ∈ pr_scopes AccessDemo.user ∨
   j_created_by_key_id (AccessDemo.owned_job 1 7 1) = Some (pr_id AccessDemo.user)).
Proof.
  destruct (jobs_guarded mode_api_key AccessDemo.user 2 AccessDemo.w) as (_ & _ & Hc & _).
  destruct (jobs_guarded mode_api_key AccessDemo.user 1 AccessDemo.w) as (_ & _ & _ & Ha).
  split; [exact Hc|]. split; [reflexivity|].
  apply (Ha (AccessDemo.owned_job 1 7 1)); [reflexivity|discriminate].
Defined.

Lemma listings_agree_witness :
  ∃ l, list_jobs_authorized mode_api_key AccessDemo.user 3 None None None AccessDemo.db = Ok (l, false) ∧
    ∀ j, j ∈ l ↔ (get_job_authorized mode_api_key AccessDemo.user (j_id j) AccessDemo.w).2 = Ok (Some j).
Proof.
  apply (listings_agree mode_api_key AccessDemo.user 3 AccessDemo.w ∅).
  - discriminate.
  - exact AccessDemo.db_keyed.
  - apply map_Forall_empty.
  - reflexivity.
  - reflexivity.
  - apply Nat.leb_le. vm_compute. reflexivity.
  - apply Nat.leb_le. vm_compute. reflexivity.
Defined.
