(* ===== verification/ModelRegistry.v ===== *)
(** * The registry of models

    Models [gateway/services/model_registry.py], [hf_resolver.py] and the routes of
    [gateway/api/v1/models.py] that change it: the table of models, their files in
    object storage, downloads from HuggingFace, removal, synchronisation of the table
    with the storage, and the metadata of models.  [Selector] chooses among the models
    that this table calls ready.

    An operation is a coroutine of [Asyncio] on the state [Registry]: every command on
    the database or on S3 is one step, between which the others get in, and at which a
    request may be cancelled.  A session's writes take effect when it commits.  The
    network is down when the state says so; the world outside changes that at any time, so
    that any call may fail, before or after its effect.  HuggingFace is the class [ModelHub],
    at one revision of each repository.  The progress that a download reports while it runs
    is a move of the world.  Left out: temporary directories, logs and the audit. *)

From S2P Require Import Prelude PyValue Times Models Catalog Registry Selector Store Auth Access Asyncio.

(** ** Rows *)

(** The columns that describe a model. *)
Record ModelCard := {
  mc_name : option string;
  mc_engine_id : string;
  mc_loaded_model_id : string;
  mc_stage : string;
  mc_source : option string;
  mc_languages : option (list string);
  mc_word_timestamps : bool;
  mc_punctuation : bool;
  mc_capitalization : bool;
  mc_native_streaming : bool;
  mc_min_vram_gb : option pyfloat;
  mc_min_ram_gb : option pyfloat;
  mc_supports_cpu : bool;
}.

(** The columns of its download. *)
Record Download := {
  dl_path : option string;
  dl_size_bytes : option Z;
  dl_expected_total_bytes : option Z;
  dl_downloaded_bytes : option Z;
  dl_progress_updated_at : option timestamp;
  dl_downloaded_at : option timestamp;
}.

Record ModelRegistryModel := {
  mg_id : string;
  mg_card : ModelCard;
  mg_status : string;
  mg_download : Download;
  mg_library_name : option string;
  mg_model_metadata : dict json;
  mg_metadata_source : string;
  mg_last_used_at : option timestamp;
}.

(** The row that a statement leaves, by the columns it sets. *)
Definition set_status (status : string) (m : ModelRegistryModel) : ModelRegistryModel := {|
  mg_id := mg_id m; mg_card := mg_card m; mg_status := status; mg_download := mg_download m;
  mg_library_name := mg_library_name m; mg_model_metadata := mg_model_metadata m;
  mg_metadata_source := mg_metadata_source m; mg_last_used_at := mg_last_used_at m |}.
Definition set_download (d : Download → Download) (m : ModelRegistryModel) : ModelRegistryModel := {|
  mg_id := mg_id m; mg_card := mg_card m; mg_status := mg_status m; mg_download := d (mg_download m);
  mg_library_name := mg_library_name m; mg_model_metadata := mg_model_metadata m;
  mg_metadata_source := mg_metadata_source m; mg_last_used_at := mg_last_used_at m |}.
Definition set_metadata (d : dict json) (m : ModelRegistryModel) : ModelRegistryModel := {|
  mg_id := mg_id m; mg_card := mg_card m; mg_status := mg_status m; mg_download := mg_download m;
  mg_library_name := mg_library_name m; mg_model_metadata := d;
  mg_metadata_source := mg_metadata_source m; mg_last_used_at := mg_last_used_at m |}.
Definition set_card (card : ModelCard) (source : string) (m : ModelRegistryModel) : ModelRegistryModel := {|
  mg_id := mg_id m; mg_card := card; mg_status := mg_status m; mg_download := mg_download m;
  mg_library_name := mg_library_name m; mg_model_metadata := mg_model_metadata m;
  mg_metadata_source := source; mg_last_used_at := mg_last_used_at m |}.
Definition set_last_used (t : timestamp) (m : ModelRegistryModel) : ModelRegistryModel := {|
  mg_id := mg_id m; mg_card := mg_card m; mg_status := mg_status m; mg_download := mg_download m;
  mg_library_name := mg_library_name m; mg_model_metadata := mg_model_metadata m;
  mg_metadata_source := mg_metadata_source m; mg_last_used_at := Some t |}.

(** What [Selector] reads of a row. *)
Definition model_row (m : ModelRegistryModel) : ModelRow := {|
  mr_id := mg_id m; mr_engine_id := mc_engine_id (mg_card m);
  mr_loaded_model_id := mc_loaded_model_id (mg_card m); mr_stage := mc_stage (mg_card m);
  mr_status := mg_status m; mr_source := mc_source (mg_card m);
  mr_languages := mc_languages (mg_card m); mr_size_bytes := dl_size_bytes (mg_download m) |}.

(** ** HuggingFace *)

(** What the hub says of a repository. *)
Record ModelInfo := {
  hi_pipeline_tag : option string;
  hi_library_name : option string;
  hi_tags : list string;
  hi_languages : list string;                   (* a single language is a list of one *)
  hi_downloads : Z;
  hi_likes : Z;
}.

(** The hub: what it says, the sizes it knows, and what [snapshot_download] leaves in the
    directory, path by path.  [set_order]: the order in which Python goes through a set. *)
Class ModelHub := {
  model_info : string → option ModelInfo;
  sibling_sizes : string → list (option Z);
  snapshot : string → option (list (string * string));
  set_order : list string → list string;
}.

Definition LIBRARY_TO_RUNTIME : dict string :=
  [("ctranslate2", "faster-whisper"); ("nemo", "nemo"); ("nemo-asr", "nemo"); ("transformers", "hf-asr");
   ("vllm", "vllm-asr"); ("whisper.cpp", "whisper-cpp"); ("whisper", "whisper")].

Definition MODEL_TO_RUNTIME : dict string :=
  [("mistralai/Voxtral-Mini-3B-2507", "vllm-asr"); ("mistralai/Voxtral-Small-24B-2507", "vllm-asr");
   ("mistralai/Voxtral-Mini-4B-Realtime-2602", "vllm-asr"); ("Qwen/Qwen2-Audio-7B-Instruct", "vllm-asr")].

Definition TAG_TO_RUNTIME : dict string :=
  [("faster-whisper", "faster-whisper"); ("ctranslate2", "faster-whisper"); ("nemo", "nemo");
   ("whisper", "faster-whisper"); ("whisper.cpp", "whisper-cpp")].

Definition ASR_PIPELINE_TAGS : list string :=
  ["automatic-speech-recognition"; "audio-to-text"; "speech-recognition"].

(** [pipeline_tag.lower() in ASR_PIPELINE_TAGS] *)
Definition asr_pipeline (info : ModelInfo) : bool :=
  match hi_pipeline_tag info with Some tag => mem_str (lower tag) ASR_PIPELINE_TAGS | None => false end.

(** The engine that the library names; ["transformers"] only for speech recognition. *)
Definition engine_of_library (info : ModelInfo) : option string :=
  match given (hi_library_name info) with
  | Some library_name =>
      engine_id ← dget (lower library_name) LIBRARY_TO_RUNTIME;
      if String.eqb (lower library_name) "transformers" && negb (asr_pipeline info) then None
      else Some engine_id
  | None => None
  end.

(** The engine of the first tag, in the order given, that names one. *)
Fixpoint engine_of_tags (tags : list string) : option string :=
  match tags with
  | [] => None
  | tag :: tags =>
      match dget (lower tag) TAG_TO_RUNTIME with
      | Some engine_id => Some engine_id
      | None => engine_of_tags tags
      end
  end.

Definition engine_of_info `{ModelHub} (info : ModelInfo) : option string :=
  match engine_of_library info with
  | Some engine_id => Some engine_id
  | None =>
      match engine_of_tags (set_order (remove_dups (hi_tags info))) with
      | Some engine_id => Some engine_id
      | None => if asr_pipeline info then Some "hf-asr" else None
      end
  end.

Record HFModelMetadata := {
  hm_model_id : string;
  hm_info : ModelInfo;
  hm_resolved_engine_id : option string;
}.

(** [get_supported_engine_ids] *)
Definition get_supported_engine_ids : list string :=
  stable_sort String.ltb
    (remove_dups (dvals MODEL_TO_RUNTIME ++ dvals LIBRARY_TO_RUNTIME ++ dvals TAG_TO_RUNTIME ++ ["hf-asr"])).

(** ** The state *)

Record Registry := {
  rg_now : timestamp;
  rg_models : gmap string ModelRegistryModel;   (* the table [models] *)
  rg_languages : gset (string * string);        (* the table [model_languages] *)
  rg_jobs : list JobModel;
  rg_objects : gmap string string;              (* S3: the content of each key *)
  rg_s3_up : bool;
  rg_hub_up : bool;
  rg_cancelled : gset nat;
}.

Definition rg_set_models (f : gmap string ModelRegistryModel → gmap string ModelRegistryModel) (s : Registry)
    : Registry := {|
  rg_now := rg_now s; rg_models := f (rg_models s); rg_languages := rg_languages s; rg_jobs := rg_jobs s;
  rg_objects := rg_objects s; rg_s3_up := rg_s3_up s; rg_hub_up := rg_hub_up s;
  rg_cancelled := rg_cancelled s |}.
Definition rg_set_languages (f : gset (string * string) → gset (string * string)) (s : Registry) : Registry := {|
  rg_now := rg_now s; rg_models := rg_models s; rg_languages := f (rg_languages s); rg_jobs := rg_jobs s;
  rg_objects := rg_objects s; rg_s3_up := rg_s3_up s; rg_hub_up := rg_hub_up s;
  rg_cancelled := rg_cancelled s |}.
Definition rg_set_objects (f : gmap string string → gmap string string) (s : Registry) : Registry := {|
  rg_now := rg_now s; rg_models := rg_models s; rg_languages := rg_languages s; rg_jobs := rg_jobs s;
  rg_objects := f (rg_objects s); rg_s3_up := rg_s3_up s; rg_hub_up := rg_hub_up s;
  rg_cancelled := rg_cancelled s |}.

Abbreviation io := (co Registry).

(** One command, at which the others get in before: what it does, and what it gives. *)
Definition command {A} (f : Registry → Registry) (r : Registry → res task_exn A) : io A :=
  switch;; Run f (λ s, Ret (r s)).

(** A call of S3 or of the hub.  It raises when the network is down, before or after its
    effect. *)
Definition remote {A} (up : Registry → bool) (f : Registry → Registry) (r : Registry → res task_exn A) : io A :=
  a ← command (λ s, if up s then f s else s) (λ s, if up s then r s else Raise (Failure "connection"));
  b ← command id (λ s, Ok (up s));
  if (b : bool) then mret a else raise "connection".

Definition s3_call {A} := remote (A := A) rg_s3_up.
Definition hub_call {A} := remote (A := A) rg_hub_up.

(** ** The database *)

Inductive write :=
  | Insert (m : ModelRegistryModel) (languages : list string)
  | Update (id : string) (f : ModelRegistryModel → ModelRegistryModel)
  | Delete (id : string).

(** [None]: a key that is there already.  The languages of a model go with its row. *)
Definition apply_write (s : Registry) (x : write) : option Registry :=
  match x with
  | Insert m languages =>
      if bool_decide (is_Some (rg_models s !! mg_id m)) then None
      else if bool_decide (NoDup languages) &&
              forallb (λ l, bool_decide ((mg_id m, l) ∉ rg_languages s)) languages then
        Some (rg_set_languages (λ t, list_to_set (map (pair (mg_id m)) languages) ∪ t)
          (rg_set_models <[mg_id m := m]> s))
      else None
  | Update id f => Some (rg_set_models (alter f id) s)
  | Delete id =>
      Some (rg_set_languages (filter (λ x, x.1 ≠ id)) (rg_set_models (delete id) s))
  end.
Definition apply_writes (xs : list write) (s : Registry) : option Registry :=
  foldl (λ o x, s ← o; apply_write s x) (Some s) xs.

(** [await db.commit()] *)
Definition commit (xs : list write) : io () :=
  command (λ s, default s (apply_writes xs s))
    (λ s, if apply_writes xs s then Ok () else Raise (Failure "IntegrityError")).

(** A query, by a session that has not committed [xs] yet. *)
Definition query {A} (xs : list write) (f : Registry → A) : io A :=
  command id (λ s, Ok (f (default s (apply_writes xs s)))).

Definition get_model (model_id : string) : io (option ModelRegistryModel) :=
  query [] (λ s, rg_models s !! model_id).

(** [await db.refresh(model)] *)
Definition refresh (model_id : string) : io ModelRegistryModel :=
  o ← get_model model_id;
  match o with Some m => mret m | None => raise "Could not refresh instance" end.

(** [update(...).where(id == model_id).values(...)], and the commit *)
Definition update_row (model_id : string) (f : timestamp → ModelRegistryModel → ModelRegistryModel) : io () :=
  now ← query [] rg_now;
  commit [Update model_id (f now)].

(** ** Queries *)

Inductive model_exn :=
  | ModelNotFoundError (model_id : string)
  | ModelNotDownloadedError (model_id : string)
  | ModelInUseError (model_id : string) (job_count : nat).

Definition get_model_or_raise (model_id : string) : io (res model_exn ModelRegistryModel) :=
  o ← get_model model_id;
  mret (match o with Some m => Ok m | None => Raise (ModelNotFoundError model_id) end).

Definition all_models (s : Registry) : list ModelRegistryModel := (map_to_list (rg_models s)).*2.

(** [scalar_one_or_none]: more than one row raises. *)
Definition get_model_by_loaded_model_id (loaded_model_id : string) : io (option ModelRegistryModel) :=
  l ← query [] (λ s, List.filter (λ m, String.eqb (mc_loaded_model_id (mg_card m)) loaded_model_id) (all_models s));
  match l with
  | [] => mret None
  | [m] => mret (Some m)
  | _ => raise "MultipleResultsFound"
  end.

Definition allows (filter : option string) (v : string) : bool :=
  match filter with Some x => String.eqb v x | None => true end.
Definition list_models (stage engine_id status : option string) : io (list ModelRegistryModel) :=
  query [] (λ s, stable_sort (λ a b, String.ltb (mg_id a) (mg_id b))
    (List.filter (λ m, allows stage (mc_stage (mg_card m)) && allows engine_id (mc_engine_id (mg_card m)) &&
                       allows status (mg_status m)) (all_models s))).

Definition ensure_ready (model_id : string) : io (res model_exn ModelRegistryModel) :=
  r ← get_model_or_raise model_id;
  mret (m ← r; if String.eqb (mg_status m) "ready" then Ok m else Raise (ModelNotDownloadedError model_id)).

Definition touch_model (model_id : string) : io () := update_row model_id set_last_used.

(** [_calculate_download_progress]: a percentage. *)
Definition _calculate_download_progress (downloaded_bytes expected_total_bytes : option Z) : res pyexn (option Z) :=
  match downloaded_bytes, expected_total_bytes with
  | Some d, Some e =>
      if (e <=? 0)%Z then Ok None
      else
        progress ← f_int (fmul (fdiv (float_of_Z d) (float_of_Z e)) (float_of_Z 100));
        Ok (Some (Z.max 0 (Z.min 100 progress)))
  | _, _ => Ok None
  end.

(** ** Object storage *)

(** [s.endswith(suffix)] *)
Definition str_ends (suffix s : string) : bool :=
  String.eqb (String.substring (String.length s - String.length suffix) (String.length suffix) s) suffix.

Definition COMPLETE_MARKER : string := ".complete".

Section storage.
Context `{ModelHub} (s3_bucket : string).

Definition s3_prefix (model_id : string) : string := "models/" +:+ model_id +:+ "/".
Definition marker_of (model_id : string) : string := s3_prefix model_id +:+ COMPLETE_MARKER.
Definition s3_uri (model_id : string) : string := "s3://" +:+ s3_bucket +:+ "/" +:+ s3_prefix model_id.

Definition put_object (key content : string) : io () := s3_call (rg_set_objects <[key := content]>) (λ _, Ok ()).

Definition upload_file (model_id : string) (f : string * string) : io () :=
  put_object (s3_prefix model_id +:+ f.1) f.2.
Definition _upload_model_to_s3 (files : list (string * string)) (model_id : string) : io string :=
  cfor (upload_file model_id) files;;
  put_object (marker_of model_id) "";;
  mret (s3_uri model_id).

(** Any exception counts as "not there". *)
Definition _is_model_in_s3 (model_id : string) : io bool :=
  ctry (s3_call id (λ s, if rg_objects s !! marker_of model_id then Ok true else Raise (Failure "404")))
    (λ _, mret false).

(** The keys and sizes under a prefix, in the order of the keys. *)
Definition listing (prefix : string) (objects : gmap string string) : list (string * Z) :=
  map (λ x, (x.1, Z.of_nat (String.length x.2)))
    (stable_sort (λ a b, String.ltb a.1 b.1)
      (List.filter (λ x, String.prefix prefix x.1) (map_to_list objects))).
Definition list_objects (prefix : string) : io (list (string * Z)) :=
  s3_call id (λ s, Ok (listing prefix (rg_objects s))).

Definition total_size (l : list (string * Z)) : option Z :=
  let total_size := foldr Z.add 0%Z (List.filter (λ x, negb (str_ends COMPLETE_MARKER x.1)) l).*2 in
  if (0 <? total_size)%Z then Some total_size else None.
Definition _get_model_size_in_s3 (model_id : string) : io (option Z) :=
  l ← list_objects (s3_prefix model_id);
  mret (total_size l).

(** [delete_objects] takes at most a thousand keys. *)
Fixpoint batches (n : nat) (fuel : nat) (l : list string) : list (list string) :=
  match fuel, l with
  | S fuel, _ :: _ => take n l :: batches n fuel (drop n l)
  | _, _ => []
  end.
Definition delete_keys (keys : list string) (m : gmap string string) : gmap string string :=
  foldr delete m keys.
Definition _delete_model_from_s3 (model_id : string) : io () :=
  objects ← list_objects (s3_prefix model_id);
  let objects_to_delete := objects.*1 in
  cfor (λ batch, s3_call (rg_set_objects (delete_keys batch)) (λ _, Ok ()))
    (batches 1000 (length objects_to_delete) objects_to_delete).

(** ** Downloads *)

(** [set_model_status]: what it does to the download. *)
Definition status_download (status : string) (now : timestamp) (d : Download) : Download :=
  if String.eqb status "not_downloaded" then
    {| dl_path := None; dl_size_bytes := None; dl_expected_total_bytes := None; dl_downloaded_bytes := None;
       dl_progress_updated_at := Some now; dl_downloaded_at := None |}
  else if String.eqb status "downloading" then
    {| dl_path := dl_path d; dl_size_bytes := dl_size_bytes d; dl_expected_total_bytes := None;
       dl_downloaded_bytes := Some 0%Z; dl_progress_updated_at := Some now;
       dl_downloaded_at := dl_downloaded_at d |}
  else
    {| dl_path := dl_path d; dl_size_bytes := dl_size_bytes d;
       dl_expected_total_bytes := dl_expected_total_bytes d; dl_downloaded_bytes := dl_downloaded_bytes d;
       dl_progress_updated_at := Some now; dl_downloaded_at := dl_downloaded_at d |}.
Definition set_model_status (model_id status : string) : io () :=
  update_row model_id (λ now m, set_status status (set_download (status_download status now) m)).

Definition progress_download (downloaded_bytes : Z) (expected_total_bytes : option Z) (now : timestamp)
    (d : Download) : Download := {|
  dl_path := dl_path d; dl_size_bytes := dl_size_bytes d; dl_expected_total_bytes := expected_total_bytes;
  dl_downloaded_bytes := Some downloaded_bytes; dl_progress_updated_at := Some now;
  dl_downloaded_at := dl_downloaded_at d |}.
Definition _update_download_progress (model_id : string) (downloaded_bytes : Z) (expected_total_bytes : option Z)
    : io () :=
  update_row model_id (λ now, set_download (progress_download downloaded_bytes expected_total_bytes now)).

(** The statements of [pull_model]: at its start, when it has succeeded, when it has failed. *)
Definition pull_started (m : ModelRegistryModel) : ModelRegistryModel :=
  set_status "downloading" (set_download (λ d, {|
    dl_path := dl_path d; dl_size_bytes := dl_size_bytes d; dl_expected_total_bytes := None;
    dl_downloaded_bytes := Some 0%Z; dl_progress_updated_at := dl_progress_updated_at d;
    dl_downloaded_at := dl_downloaded_at d |}) m).
Definition pull_done (uri : string) (size_bytes : Z) (now : timestamp) (m : ModelRegistryModel) : ModelRegistryModel :=
  set_status "ready" (set_download (λ _, {|
    dl_path := Some uri; dl_size_bytes := Some size_bytes; dl_expected_total_bytes := Some size_bytes;
    dl_downloaded_bytes := Some size_bytes; dl_progress_updated_at := Some now;
    dl_downloaded_at := Some now |}) m).
Definition pull_failed (error : string) (now : timestamp) (m : ModelRegistryModel) : ModelRegistryModel :=
  set_status "failed" (set_metadata [("error", JStr error)] (set_download (λ d, {|
    dl_path := dl_path d; dl_size_bytes := dl_size_bytes d;
    dl_expected_total_bytes := dl_expected_total_bytes d; dl_downloaded_bytes := dl_downloaded_bytes d;
    dl_progress_updated_at := Some now; dl_downloaded_at := dl_downloaded_at d |}) m)).

(** [model.source or model.loaded_model_id] *)
Definition hf_repo_id (card : ModelCard) : string := default (mc_loaded_model_id card) (given (mc_source card)).

(** The sum of the sizes that are known; [None] if none is, or the hub cannot be asked. *)
Definition get_model_total_size_bytes (repo : string) : io (option Z) :=
  ctry
    (sizes ← hub_call id (λ _, Ok (sibling_sizes repo));
     let known_sizes := List.filter (λ z, (0 <=? z)%Z) (omap id sizes) in
     mret (match known_sizes with [] => None | _ => Some (foldr Z.add 0%Z known_sizes) end))
    (λ _, mret None).

Definition size_of (files : list (string * string)) : Z :=
  foldr (λ f n, Z.of_nat (String.length f.2) + n)%Z 0%Z files.

Definition download (model_id repo : string) : io () :=
  expected_total_bytes ← get_model_total_size_bytes repo;
  _update_download_progress model_id 0 expected_total_bytes;;
  files ← hub_call id (λ _, match snapshot repo with
    | Some files => Ok files
    | None => Raise (Failure "RepositoryNotFoundError")
    end);
  uri ← _upload_model_to_s3 files model_id;
  update_row model_id (pull_done uri (size_of files)).

Definition pull_model (model_id : string) (force : bool) : io (res model_exn ModelRegistryModel) :=
  o ← get_model_or_raise model_id;
  match o with
  | Raise e => mret (Raise e)
  | Ok model =>
      if String.eqb (mg_status model) "ready" && negb force then mret (Ok model)
      else
        model ← (if String.eqb (mg_status model) "downloading" then mret model
                 else commit [Update model_id pull_started];; refresh model_id);
        ctry (download model_id (hf_repo_id (mg_card model)))
          (λ error, update_row model_id (pull_failed error);; raise error);;
        model ← refresh model_id;
        mret (Ok model)
  end.

(** ** Removal *)

Definition ACTIVE_MODEL_SELECTOR_KEYS : list string :=
  ["model_transcribe"; "model_diarize"; "model_align"; "model_pii_detect"].

Definition status_value (s : JobStatus) : string :=
  match s with
  | JPending => "pending" | JRunning => "running" | JCompleted => "completed"
  | JFailed => "failed" | JCancelling => "cancelling" | JCancelled => "cancelled"
  end.

Definition uses_model (model_id : string) (j : JobModel) : bool :=
  mem_str (status_value (j_status j)) ["pending"; "processing"] &&
  existsb (λ key, jeq_str (jget key (j_parameters j)) model_id) ACTIVE_MODEL_SELECTOR_KEYS.
Definition _check_model_in_use (model_id : string) : io nat :=
  query [] (λ s, length (List.filter (uses_model model_id) (rg_jobs s))).

Definition removed (m : ModelRegistryModel) : ModelRegistryModel :=
  set_status "not_downloaded" (set_download (λ d, {|
    dl_path := None; dl_size_bytes := None; dl_expected_total_bytes := dl_expected_total_bytes d;
    dl_downloaded_bytes := dl_downloaded_bytes d; dl_progress_updated_at := dl_progress_updated_at d;
    dl_downloaded_at := None |}) m).

Definition remove_model (model_id : string) (purge : bool) : io (res model_exn ()) :=
  o ← get_model_or_raise model_id;
  match o with
  | Raise e => mret (Raise e)
  | Ok model =>
      job_count ← _check_model_in_use model_id;
      if 0 <? job_count then mret (Raise (ModelInUseError model_id job_count))
      else
        (match dl_path (mg_download model) with
         | Some path => if String.prefix "s3://" path then _delete_model_from_s3 model_id else mret ()
         | None => mret ()
         end);;
        commit [if (purge : bool) then Delete model_id else Update model_id removed];;
        mret (Ok ())
  end.

(** ** Synchronisation *)

Definition synced_ready (model_id : string) (size_bytes : option Z) (m : ModelRegistryModel) : ModelRegistryModel :=
  set_status "ready" (set_download (λ d, {|
    dl_path := Some (s3_uri model_id); dl_size_bytes := size_bytes;
    dl_expected_total_bytes := dl_expected_total_bytes d; dl_downloaded_bytes := dl_downloaded_bytes d;
    dl_progress_updated_at := dl_progress_updated_at d; dl_downloaded_at := dl_downloaded_at d |}) m).
Definition synced_gone (m : ModelRegistryModel) : ModelRegistryModel :=
  set_status "not_downloaded" (set_download (λ d, {|
    dl_path := None; dl_size_bytes := None;
    dl_expected_total_bytes := dl_expected_total_bytes d; dl_downloaded_bytes := dl_downloaded_bytes d;
    dl_progress_updated_at := dl_progress_updated_at d; dl_downloaded_at := dl_downloaded_at d |}) m).

(** One model: the statement, if there is one. *)
Definition sync_one (m : ModelRegistryModel) : io (list write) :=
  in_s3 ← _is_model_in_s3 (mg_id m);
  let ready := String.eqb (mg_status m) "ready" in
  if (in_s3 : bool) && negb ready then
    size_bytes ← _get_model_size_in_s3 (mg_id m);
    mret [Update (mg_id m) (synced_ready (mg_id m) size_bytes)]
  else mret (if negb in_s3 && ready then [Update (mg_id m) synced_gone] else []).

(** The statements for all models, which the session commits at the end. *)
Fixpoint sync_all (models : list ModelRegistryModel) : io (list (list write)) :=
  match models with
  | [] => mret []
  | m :: models => xs ← sync_one m; rest ← sync_all models; mret (xs :: rest)
  end.

(** The numbers of models that were updated and that were not. *)
Definition sync_from_s3 : io (nat * nat) :=
  models ← list_models None None None;
  xs ← sync_all models;
  commit (concat xs);;
  let updated := length (concat xs) in
  mret (updated, length models - updated).

(** ** Registration and metadata *)

Definition no_download : Download := {|
  dl_path := None; dl_size_bytes := None; dl_expected_total_bytes := None; dl_downloaded_bytes := None;
  dl_progress_updated_at := None; dl_downloaded_at := None |}.

(** [ModelRegistryModel(..., status="not_downloaded")]; the source of the metadata is that of a
    YAML file, also by default. *)
Definition new_model (model_id : string) (card : ModelCard) (library_name : option string) (metadata : dict json)
    : ModelRegistryModel := {|
  mg_id := model_id; mg_card := card; mg_status := "not_downloaded"; mg_download := no_download;
  mg_library_name := library_name; mg_model_metadata := metadata; mg_metadata_source := "yaml";
  mg_last_used_at := None |}.

Definition register_model (model_id : string) (card : ModelCard) (library_name : option string)
    (metadata : dict json) : io ModelRegistryModel :=
  commit [Insert (new_model model_id card library_name metadata) (default [] (mc_languages card))];;
  refresh model_id.

Record ModelYAMLEntry := {
  ye_id : string;
  ye_card : ModelCard;
}.

(** One entry: what the session writes, and what it counts: created, updated or preserved. *)
Inductive seeded := Created | Updated | Preserved.
Definition seed_one (pending : list write) (entry : ModelYAMLEntry) : io (list write * seeded) :=
  existing ← query pending (λ s, rg_models s !! ye_id entry);
  mret (match existing with
        | None =>
            ([Insert (new_model (ye_id entry) (ye_card entry) None []) (default [] (mc_languages (ye_card entry)))],
             Created)
        | Some m =>
            if String.eqb (mg_metadata_source m) "user" then ([], Preserved)
            else ([Update (ye_id entry) (set_card (ye_card entry) "yaml")], Updated)
        end).
Fixpoint seed_all (pending : list write) (entries : list ModelYAMLEntry) : io (list write * list seeded) :=
  match entries with
  | [] => mret (pending, [])
  | entry :: entries =>
      '(xs, n) ← seed_one pending entry;
      '(ys, ns) ← seed_all (pending ++ xs) entries;
      mret (ys, n :: ns)
  end.
Definition seed_from_yamls (entries : list ModelYAMLEntry) : io (list seeded) :=
  '(xs, ns) ← seed_all [] entries;
  commit xs;;
  mret ns.

(** A field that a client may edit; [None] is null. *)
Inductive edit :=
  | EditName (v : option string)
  | EditLanguages (v : option (list string))
  | EditWordTimestamps (v : option bool)
  | EditPunctuation (v : option bool)
  | EditCapitalization (v : option bool)
  | EditNativeStreaming (v : option bool)
  | EditMinVram (v : option pyfloat)
  | EditMinRam (v : option pyfloat)
  | EditSupportsCpu (v : option bool).

(** [setattr(model, key, value)]; [None] when the column must not be null. *)
Definition apply_edit (c : ModelCard) (e : edit) : option ModelCard :=
  let card name langs wt p cap ns vram ram cpu := {|
    mc_name := name; mc_engine_id := mc_engine_id c; mc_loaded_model_id := mc_loaded_model_id c;
    mc_stage := mc_stage c; mc_source := mc_source c; mc_languages := langs; mc_word_timestamps := wt;
    mc_punctuation := p; mc_capitalization := cap; mc_native_streaming := ns; mc_min_vram_gb := vram;
    mc_min_ram_gb := ram; mc_supports_cpu := cpu |} in
  let '(name, langs, wt, p) := (mc_name c, mc_languages c, mc_word_timestamps c, mc_punctuation c) in
  let '(cap, ns, vram) := (mc_capitalization c, mc_native_streaming c, mc_min_vram_gb c) in
  let '(ram, cpu) := (mc_min_ram_gb c, mc_supports_cpu c) in
  match e with
  | EditName v => Some (card v langs wt p cap ns vram ram cpu)
  | EditLanguages v => Some (card name v wt p cap ns vram ram cpu)
  | EditWordTimestamps v => b ← v; Some (card name langs b p cap ns vram ram cpu)
  | EditPunctuation v => b ← v; Some (card name langs wt b cap ns vram ram cpu)
  | EditCapitalization v => b ← v; Some (card name langs wt p b ns vram ram cpu)
  | EditNativeStreaming v => b ← v; Some (card name langs wt p cap b vram ram cpu)
  | EditMinVram v => Some (card name langs wt p cap ns v ram cpu)
  | EditMinRam v => Some (card name langs wt p cap ns vram v cpu)
  | EditSupportsCpu v => b ← v; Some (card name langs wt p cap ns vram ram b)
  end.
Definition apply_edits (c : ModelCard) (es : list edit) : option ModelCard :=
  foldl (λ o e, c ← o; apply_edit c e) (Some c) es.

(** Whether an edit changes what was read: only such columns are written. *)
Definition differs (c : ModelCard) (e : edit) : bool :=
  match e with
  | EditName v => bool_decide (v ≠ mc_name c)
  | EditLanguages v => bool_decide (v ≠ mc_languages c)
  | EditWordTimestamps v => bool_decide (v ≠ Some (mc_word_timestamps c))
  | EditPunctuation v => bool_decide (v ≠ Some (mc_punctuation c))
  | EditCapitalization v => bool_decide (v ≠ Some (mc_capitalization c))
  | EditNativeStreaming v => bool_decide (v ≠ Some (mc_native_streaming c))
  | EditMinVram v => bool_decide (v ≠ mc_min_vram_gb c)
  | EditMinRam v => bool_decide (v ≠ mc_min_ram_gb c)
  | EditSupportsCpu v => bool_decide (v ≠ Some (mc_supports_cpu c))
  end.

(** [model] is the row that was read, [m] the row when the session commits. *)
Definition edited (model : ModelRegistryModel) (updates : list edit) (m : ModelRegistryModel)
    : ModelRegistryModel :=
  let made := List.filter (differs (mg_card model)) updates in
  set_card (default (mg_card m) (apply_edits (mg_card m) made))
    (if String.eqb (mg_metadata_source model) "user" then mg_metadata_source m else "user") m.

Definition update_model (model_id : string) (updates : list edit) : io (res model_exn ModelRegistryModel) :=
  o ← get_model_or_raise model_id;
  match o with
  | Raise e => mret (Raise e)
  | Ok model =>
      match apply_edits (mg_card model) updates with
      | None => raise "IntegrityError"
      | Some _ =>
          commit [Update model_id (edited model updates)];;
          model ← refresh model_id;
          mret (Ok model)
      end
  end.

(** ** Models of the hub *)

Definition get_model_info (model_id : string) : io (option ModelInfo) :=
  ctry (hub_call id (λ _, match model_info model_id with
      | Some info => Ok (Some info)
      | None => Raise (Failure "RepositoryNotFoundError")
      end)) (λ _, mret None).

Definition resolve_engine_id (model_id : string) : io (option string) :=
  match dget model_id MODEL_TO_RUNTIME with
  | Some engine_id => mret (Some engine_id)
  | None =>
      info ← get_model_info model_id;
      mret (info ≫= engine_of_info)
  end.

Definition get_model_metadata (model_id : string) : io (option HFModelMetadata) :=
  o ← get_model_info model_id;
  match o with
  | None => mret None
  | Some info =>
      engine_id ← resolve_engine_id model_id;
      mret (Some {| hm_model_id := model_id; hm_info := info; hm_resolved_engine_id := engine_id |})
  end.

(** The row of a model of the hub, as [register_model] is called for it. *)
Definition hf_card (model_id engine_id : string) (info : ModelInfo) : ModelCard := {|
  mc_name := None; mc_engine_id := engine_id; mc_loaded_model_id := model_id; mc_stage := "transcribe";
  mc_source := Some model_id;
  mc_languages := match hi_languages info with [] => None | l => Some l end;
  mc_word_timestamps := false; mc_punctuation := false; mc_capitalization := false;
  mc_native_streaming := false; mc_min_vram_gb := None; mc_min_ram_gb := None; mc_supports_cpu := true |}.
Definition hf_metadata (info : ModelInfo) : dict json :=
  [("pipeline_tag", match hi_pipeline_tag info with Some t => JStr t | None => JNull end);
   ("tags", JList (map JStr (take 50 (hi_tags info)))); ("downloads", JInt (hi_downloads info));
   ("likes", JInt (hi_likes info)); ("auto_registered", JBool true)].
Definition register_hf (model_id engine_id : string) (info : ModelInfo) : io ModelRegistryModel :=
  register_model model_id (hf_card model_id engine_id info) (hi_library_name info) (hf_metadata info).

(** Without [auto_register], the row is made and not stored. *)
Definition resolve_hf_model (model_id : string) (auto_register : bool) : io (option ModelRegistryModel) :=
  existing ← get_model model_id;
  match existing with
  | Some m => mret (Some m)
  | None =>
      if negb (contains "/" model_id) then mret None
      else
        metadata ← get_model_metadata model_id;
        match metadata with
        | None => mret None
        | Some metadata =>
            match hm_resolved_engine_id metadata with
            | None => mret None
            | Some engine_id =>
                if (auto_register : bool)
                then m ← register_hf model_id engine_id (hm_info metadata); mret (Some m)
                else mret (Some (new_model model_id (hf_card model_id engine_id (hm_info metadata))
                                   (hi_library_name (hm_info metadata)) []))
            end
        end
  end.

Definition get_or_resolve_model (model_id : string) (auto_register : bool) : io (option ModelRegistryModel) :=
  o ← get_model model_id;
  match o with Some m => mret (Some m) | None => resolve_hf_model model_id auto_register end.

(** ** Routes *)

Section routes.
Context (mode : security_mode).

Inductive http_error :=
  | Forbidden (e : security_error)              (* 403 *)
  | NotFound                                    (* 404 *)
  | Conflict (e : model_exn).                   (* 409 *)

Definition allowed {A} (p : Principal) (perm : Permission) (c : io (res http_error A)) : io (res http_error A) :=
  match require_permission mode p perm with
  | Raise e => mret (Raise (Forbidden e))
  | Ok _ => c
  end.

Record PullModelResponse := {
  pr_message : string;
  pr_status : string;
}.
Definition pull_response (message status : string) : PullModelResponse := {|
  pr_message := message; pr_status := status |}.

(** [POST /v1/models/{id}/pull]; whether a download was started, too. *)
Definition pull_model_route (p : Principal) (model_id : string) (force : bool)
    : io (res http_error (PullModelResponse * bool)) :=
  allowed p MODEL_PULL (
    o ← get_model_or_raise model_id;
    match o with
    | Raise _ => mret (Raise NotFound)
    | Ok model =>
        if String.eqb (mg_status model) "ready" && negb force
        then mret (Ok (pull_response "Model already downloaded" "ready", false))
        else if String.eqb (mg_status model) "downloading" && negb force
        then mret (Ok (pull_response "Model download already in progress" "downloading", false))
        else
          (if String.eqb (mg_status model) "downloading"
           then set_model_status model_id "not_downloaded" else mret ());;
          set_model_status model_id "downloading";;
          mret (Ok (pull_response "Download started" "downloading", true))
    end).

Definition _pull_model_background (model_id : string) (force : bool) : io () :=
  ctry (pull_model model_id force;; mret ()) (λ _, mret ()).

(** The request, and the task it leaves in the background. *)
Definition pull_request (p : Principal) (model_id : string) (force : bool) : io () :=
  r ← pull_model_route p model_id force;
  match r with
  | Ok (_, true) => _pull_model_background model_id force
  | _ => mret ()
  end.

(** [DELETE /v1/models/{id}] *)
Definition remove_model_route (p : Principal) (model_id : string) (purge : bool) : io (res http_error ()) :=
  allowed p MODEL_DELETE (
    r ← remove_model model_id purge;
    mret (match r with
          | Ok _ => Ok ()
          | Raise (ModelInUseError _ _ as e) => Raise (Conflict e)
          | Raise _ => Raise NotFound
          end)).

(** [POST /v1/models/sync] *)
Definition sync_models_route (p : Principal) : io (res http_error (nat * nat)) :=
  allowed p MODEL_SYNC (r ← sync_from_s3; mret (Ok r)).

(** [PATCH /v1/models/{id}] *)
Definition update_model_route (p : Principal) (model_id : string) (updates : list edit)
    : io (res http_error ModelRegistryModel) :=
  allowed p MODEL_WRITE (
    r ← update_model model_id updates;
    mret (match r with Ok m => Ok m | Raise _ => Raise NotFound end)).

(** [POST /v1/models/hf/resolve] *)
Definition resolve_hf_model_route (p : Principal) (model_id : string) (auto_register : bool)
    : io (res http_error HFModelMetadata) :=
  allowed p MODEL_PULL (
    o ← get_model_metadata model_id;
    match o with
    | None => mret (Raise NotFound)
    | Some metadata =>
        (match given (hm_resolved_engine_id metadata) with
         | Some engine_id =>
             if (auto_register : bool) then
               existing ← get_model model_id;
               existing ← (match existing with
                           | Some m => mret (Some m)
                           | None => get_model_by_loaded_model_id model_id
                           end);
               match existing with
               | Some _ => mret ()
               | None => register_hf model_id engine_id (hm_info metadata);; mret ()
               end
             else mret ()
         | None => mret ()
         end);;
        mret (Ok metadata)
    end).
End routes.
End storage.
