(* ===== verification/ModelRegistrySpec.v ===== *)
(** * Models that are ready

    Theorems about [ModelRegistry].  However the operations on the registry interleave,
    are cancelled or die, and whatever calls to S3 and to the hub fail: a model that is
    said to be ready has all its files in object storage, as long as nobody removes it.
    Then what synchronisation and removal do when nothing interferes, and the runs in which
    they interfere. *)

From S2P Require Import Prelude PyValue Times Models Catalog Registry Selector Store Auth Access Asyncio ModelRegistry.

(** ** The loop *)

(** What others do to the state: the network, the clock, the jobs, the progress of a
    download, a request that is cancelled. *)
Inductive registry_move :=
  | SetS3 (up : bool)
  | SetHub (up : bool)
  | SetClock (t : timestamp)
  | SetJobs (l : list JobModel)
  | Progress (model_id : string) (downloaded : Z) (expected : option Z)
  | CancelTask (i : nat).

Definition registry_outside (m : registry_move) (s : Registry) : Registry :=
  let env now jobs s3 hub cancelled := {|
    rg_now := now; rg_models := rg_models s; rg_languages := rg_languages s; rg_jobs := jobs;
    rg_objects := rg_objects s; rg_s3_up := s3; rg_hub_up := hub; rg_cancelled := cancelled |} in
  match m with
  | SetS3 up => env (rg_now s) (rg_jobs s) up (rg_hub_up s) (rg_cancelled s)
  | SetHub up => env (rg_now s) (rg_jobs s) (rg_s3_up s) up (rg_cancelled s)
  | SetClock t => env t (rg_jobs s) (rg_s3_up s) (rg_hub_up s) (rg_cancelled s)
  | SetJobs l => env (rg_now s) l (rg_s3_up s) (rg_hub_up s) (rg_cancelled s)
  | Progress model_id d e =>
      rg_set_models (alter (set_download (progress_download d e (rg_now s))) model_id) s
  | CancelTask i => env (rg_now s) (rg_jobs s) (rg_s3_up s) (rg_hub_up s) ({[i]} ∪ rg_cancelled s)
  end.

#[export] Instance registry_loop : EventLoop Registry := {|
  move := registry_move;
  outside m s := Some (registry_outside m s);
  cancelled i s := bool_decide (i ∈ rg_cancelled s) |}.

Section registry.
Context `{ModelHub} (s3_bucket : string) (mode : security_mode).

(** The operations of clients, of administrators and of the gateway as it starts. *)
Inductive operation :=
  | PullRequest (p : Principal) (model_id : string) (force : bool)
  | RemoveRequest (p : Principal) (model_id : string) (purge : bool)
  | SyncRequest (p : Principal)
  | EditRequest (p : Principal) (model_id : string) (updates : list edit)
  | ResolveRequest (p : Principal) (model_id : string) (auto_register : bool)
  | Resolve (model_id : string) (auto_register : bool)
  | Touch (model_id : string)
  | Seed (entries : list ModelYAMLEntry).

Definition task_of (op : operation) : io () :=
  match op with
  | PullRequest p model_id force => pull_request s3_bucket mode p model_id force
  | RemoveRequest p model_id purge => remove_model_route mode p model_id purge;; mret ()
  | SyncRequest p => sync_models_route s3_bucket mode p;; mret ()
  | EditRequest p model_id updates => update_model_route mode p model_id updates;; mret ()
  | ResolveRequest p model_id auto_register => resolve_hf_model_route mode p model_id auto_register;; mret ()
  | Resolve model_id auto_register => get_or_resolve_model model_id auto_register;; mret ()
  | Touch model_id => touch_model model_id
  | Seed entries => seed_from_yamls entries;; mret ()
  end.

(** Operations that begin at any time. *)
Definition registry_start (ops : list operation) (s : Registry) : Loop := {|
  l_state := s; l_tasks := map (λ op, switch;; task_of op) ops |}.

(** ** One model *)

Section model.
Context (id0 repo : string).

Definition COMPLETE (files : list (string * string)) : list (string * string) := files ++ [(COMPLETE_MARKER, "")].

Definition marked (s : Registry) : Prop := is_Some (rg_objects s !! marker_of id0).
Definition stored (files : list (string * string)) (s : Registry) : Prop :=
  ∀ p c, (p, c) ∈ files → rg_objects s !! (s3_prefix id0 +:+ p) = Some c.

Definition row_ok (s : Registry) (m : ModelRegistryModel) : Prop :=
  hf_repo_id (mg_card m) = repo ∧
  (mg_status m = "ready" → marked s ∧ dl_path (mg_download m) = Some (s3_uri s3_bucket id0)).

Record inv (s : Registry) : Prop := {
  inv_ids id m : rg_models s !! id = Some m → mg_id m = id;
  inv_row m : rg_models s !! id0 = Some m → row_ok s m;
  inv_files p c : rg_objects s !! (s3_prefix id0 +:+ p) = Some c →
    ∃ files, snapshot repo = Some files ∧ (p, c) ∈ COMPLETE files;
  inv_marked : marked s → ∃ files, snapshot repo = Some files ∧ stored files s;
}.

(** What is stored of the model stays. *)
Definition grows (s s' : Registry) : Prop :=
  ∀ p c, rg_objects s !! (s3_prefix id0 +:+ p) = Some c → rg_objects s' !! (s3_prefix id0 +:+ p) = Some c.

#[local] Instance grows_refl : Reflexive grows.
Proof. by intros s p c. Qed.
#[local] Instance grows_trans : Transitive grows.
Proof. intros s1 s2 s3 H1 H2 p c Hp. by apply H2, H1. Qed.

Definition R (s s' : Registry) : Prop := inv s → inv s' ∧ grows s s'.

#[local] Instance R_refl : Reflexive R.
Proof. by intros s. Qed.
#[local] Instance R_trans : Transitive R.
Proof. intros s1 s2 s3 H1 H2 Hi. destruct (H1 Hi) as [Hi2 ?]. destruct (H2 Hi2). split; [done|by etrans]. Qed.

Definition stable (P : Registry → Prop) : Prop := ∀ s s', grows s s' → P s → P s'.

Lemma stable_marked : stable marked.
Proof. intros s s' Hg [v Hv]. exists v. unfold marker_of in *. by apply Hg. Qed.
Lemma stable_stored files : stable (stored files).
Proof. intros s s' Hg Hs p c Hp. by apply Hg, Hs. Qed.
Lemma stable_pure (P : Prop) : stable (λ _, P).
Proof. by intros s s' _. Qed.
Hint Resolve stable_marked stable_stored stable_pure : core.

(** ** Triples *)

(** From [P], with the others at every [await]: the invariant stays, with whatever else is stable,
    and what is returned is [Q]. *)
Definition hoare {A} (P : Registry → Prop) (c : io A) (Q : A → Registry → Prop) : Prop :=
  ∀ F i s0 s, stable F → inv s0 → inv s → grows s0 s → P s → F s →
    wp R R (cancelled i) c (λ r s0 s, inv s0 ∧ inv s ∧ grows s0 s ∧ F s ∧
      match r with Ok a => Q a s | Raise _ => True end) s0 s.

Definition top (s : Registry) : Prop := True.

Lemma hoare_ret {A} (P : Registry → Prop) (a : A) (Q : A → Registry → Prop) :
  (∀ s, P s → Q a s) → hoare P (mret a) Q.
Proof. intros HQ F i s0 s HF H0 Hs Hg HP Hf. cbn. split_and!; [done..|by apply HQ]. Qed.
Lemma hoare_raise {A} P t (Q : A → Registry → Prop) : hoare P (raise t) Q.
Proof. intros F i s0 s HF H0 Hs Hg HP Hf. cbn. by split_and!. Qed.

Lemma hoare_mono {A} (P P' : Registry → Prop) (c : io A) (Q Q' : A → Registry → Prop) :
  hoare P' c Q' → (∀ s, P s → P' s) → (∀ a s, Q' a s → Q a s) → hoare P c Q.
Proof.
  intros Hc HP HQ F i s0 s HF H0 Hs Hg Hp Hf. eapply wp_mono; [apply (Hc F); [done..|by apply HP|done]|].
  intros r s1 s2 (? & ? & ? & ? & Hr). split_and!; [done..|]. destruct r; auto.
Qed.

(** What is stable and holds before [c] holds after it. *)
Lemma hoare_bind {A B} (P : Registry → Prop) (c : io A) (f : A → io B) M Q :
  stable P → hoare P c M → (∀ a, hoare (λ s, P s ∧ M a s) (f a) Q) → hoare P (c ≫= f) Q.
Proof.
  intros HP Hc Hf F i s0 s HF H0 Hs Hg Hp Hfs. apply wp_bind. eapply wp_mono.
  - apply (Hc (λ s, F s ∧ P s)); [|done..]. intros s1 s2 H12 [? ?]. split; [by eapply HF|by eapply HP].
  - intros [a|e] s1 s2 (H1 & H2 & H12 & [HF2 HP2] & Ha); [by apply Hf|by split_and!].
Qed.

Lemma hoare_seq {A B} (P : Registry → Prop) (c : io A) (f : A → io B) M Q :
  stable P → hoare top c M → (∀ a, hoare (λ s, P s ∧ M a s) (f a) Q) → hoare P (c ≫= f) Q.
Proof. intros HP Hc. apply hoare_bind; [done|]. by eapply hoare_mono. Qed.

Lemma hoare_try {A} P (c : io A) h Q :
  hoare P c Q → (∀ t, hoare top (h t) Q) → hoare P (ctry c h) Q.
Proof.
  intros Hc Hh F i s0 s HF H0 Hs Hg HP Hf. apply wp_try. eapply wp_mono; [by apply Hc|].
  intros [a|[t|]] s1 s2 (H1 & H2 & H12 & HF2 & Ha); [by split_and!|by apply Hh|by split_and!].
Qed.

Lemma hoare_command {A} (P : Registry → Prop) f (r : Registry → res task_exn A) (Q : A → Registry → Prop) :
  stable P → (∀ s, inv s → P s → inv (f s) ∧ grows s (f s) ∧ ∀ a, r s = Ok a → Q a (f s)) →
  hoare P (command f r) Q.
Proof.
  intros HP Hf F i s0 s HF H0 Hs Hg Hp HFs. cbn. split; [by intros|]. intros s' HR.
  destruct (HR Hs) as [Hs' Hg']. split; intros _; [intros _| split_and!; [done|done|done|by eapply HF|done]].
  cbn. destruct (Hf s' Hs') as (Hi & Hgr & HQ); [by eapply HP|].
  assert (F (f s')) by (apply (HF s); [by transitivity s'|done]). split_and!; [done..|].
  destruct (r s') as [a|e]; [by apply HQ|done].
Qed.

Lemma hoare_remote {A} up (P : Registry → Prop) f (r : Registry → res task_exn A) (Q : A → Registry → Prop) :
  stable P → (∀ a, stable (Q a)) →
  (∀ s, inv s → P s → inv (f s) ∧ grows s (f s) ∧ ∀ a, r s = Ok a → Q a (f s)) →
  hoare P (remote up f r) Q.
Proof.
  intros HP HQ Hf. eapply (hoare_bind _ _ _ Q); [done| |].
  - apply hoare_command; [done|]. intros s Hs Hp. destruct (up s); [by apply Hf|by split_and!].
  - intros a. eapply (hoare_seq _ _ _ (λ _, top)).
    + intros s s' Hg [? ?]. split; [by eapply HP|by eapply HQ].
    + by apply hoare_command.
    + intros [|]; [|apply hoare_raise]. apply hoare_ret. by intros s [[_ ?] _].
Qed.

Lemma hoare_query {A} xs (f : Registry → A) (Q : A → Registry → Prop) :
  (∀ s, inv s → Q (f (default s (apply_writes xs s))) s) → hoare top (query xs f) Q.
Proof. intros HQ. apply hoare_command; [done|]. intros s Hs Hp. split_and!; [done..|]. intros a [= <-]. auto. Qed.

Lemma hoare_for {A} (P : Registry → Prop) (f : A → io ()) l :
  stable P → (∀ x, x ∈ l → hoare P (f x) (λ _, top)) → hoare P (cfor f l) (λ _, top).
Proof.
  intros HP. induction l as [|x l IH]; intros Hl; [by apply hoare_ret|]. cbn.
  apply (hoare_bind P _ _ (λ _, top)); [done|apply Hl; left|].
  intros _. eapply hoare_mono; [apply IH|by intros ? []|done]. intros y Hy. apply Hl. by right.
Qed.

(** ** Writes *)

(** The rows that a statement on this model may leave. *)
Definition good_row (s : Registry) (m m' : ModelRegistryModel) : Prop :=
  (hf_repo_id (mg_card m) = repo → hf_repo_id (mg_card m') = repo) ∧
  (mg_status m' ≠ "ready" ∨
   mg_status m' = mg_status m ∧ dl_path (mg_download m') = dl_path (mg_download m) ∨
   marked s ∧ dl_path (mg_download m') = Some (s3_uri s3_bucket id0)).

Definition good_write (s : Registry) (x : write) : Prop :=
  match x with
  | Insert m _ => mg_id m = id0 → hf_repo_id (mg_card m) = repo ∧ mg_status m ≠ "ready"
  | Update id f => ∀ m, mg_id (f m) = mg_id m ∧ (id = id0 → good_row s m (f m))
  | Delete _ => True
  end.

Lemma stable_good x : stable (λ s, good_write s x).
Proof.
  intros s s' Hg. destruct x as [m l|id f|id]; cbn; [done| |done]. intros Hx m. destruct (Hx m) as [? Hr].
  split; [done|]. intros Hid. destruct (Hr Hid) as [? [?|[?|[? ?]]]]; (split; [done|]); [by left|by right; left|].
  right; right. split; [by eapply stable_marked|done].
Qed.

Lemma apply_write_ok s s' x :
  inv s → good_write s x → apply_write s x = Some s' → inv s' ∧ rg_objects s' = rg_objects s.
Proof.
  intros [Hids Hrow Hfiles Hmarked] Hx.
  assert (∀ models, (∀ id m, models !! id = Some m → mg_id m = id) →
    (∀ m, models !! id0 = Some m → row_ok s m) →
    ∀ t, inv (rg_set_languages t (rg_set_models (λ _, models) s))) as Hkeep.
  { intros models H1 H2 t. split; [exact H1| |exact Hfiles|exact Hmarked].
    intros m Hm. cbn in Hm. by apply H2. }
  destruct x as [m l|id f|id]; cbn.
  - case_bool_decide as Hnew; [done|]. destruct (_ && _); [|done]. intros [= <-]. split; [|done].
    apply (Hkeep (<[mg_id m := m]> (rg_models s))).
    + intros id m'. destruct (decide (id = mg_id m)) as [->|].
      * rewrite lookup_insert_eq. by intros [= <-].
      * rewrite lookup_insert_ne by done. apply Hids.
    + intros m'. destruct (decide (id0 = mg_id m)) as [Hid|].
      * rewrite Hid, lookup_insert_eq. intros [= <-]. destruct (Hx (eq_sym Hid)). by split.
      * rewrite lookup_insert_ne by done. apply Hrow.
  - intros [= <-]. split; [|done]. refine (Hkeep (alter f id (rg_models s)) _ _ (λ t, t)).
    + intros id' m'. destruct (decide (id' = id)) as [->|].
      * rewrite lookup_alter_eq. intros (m & Hm & ->)%fmap_Some_1. destruct (Hx m) as [-> _]. by apply Hids.
      * rewrite lookup_alter_ne by done. apply Hids.
    + intros m'. destruct (decide (id0 = id)) as [<-|].
      * rewrite lookup_alter_eq. intros Hm'. apply fmap_Some_1 in Hm' as (m & Hm & ->).
        destruct (Hrow _ Hm) as [Hrepo Hready]. destruct (Hx m) as [_ [Hr Hst]]; [done|]. split; [by apply Hr|].
        intros Hs. destruct Hst as [?|[[Hst Hp]|Hst]]; [done| |done]. rewrite Hp. apply Hready. congruence.
      * rewrite lookup_alter_ne by done. apply Hrow.
  - intros [= <-]. split; [|done]. apply (Hkeep (delete id (rg_models s))).
    + intros id' m' [_ ?]%lookup_delete_Some. by apply Hids.
    + intros m' [_ ?]%lookup_delete_Some. by apply Hrow.
Qed.

Lemma good_write_objects s s' x : rg_objects s' = rg_objects s → good_write s x → good_write s' x.
Proof. intros He. apply stable_good. intros p c. by rewrite He. Qed.

Lemma apply_writes_ok xs s s' :
  inv s → Forall (good_write s) xs → apply_writes xs s = Some s' → inv s' ∧ rg_objects s' = rg_objects s.
Proof.
  unfold apply_writes. revert s. induction xs as [|x xs IH]; intros s Hs Hxs; cbn [foldl].
  { by intros [= <-]. }
  inversion_clear Hxs. intros Hr. change (foldl (λ o x, s ← o; apply_write s x) (apply_write s x) xs = Some s') in Hr.
  destruct (apply_write s x) as [s1|] eqn:Hx.
  - destruct (apply_write_ok _ _ _ Hs ltac:(done) Hx) as [Hs1 Ho]. rewrite <- Ho. apply IH; [done| |done].
    eapply Forall_impl; [done|]. intros y. by apply good_write_objects.
  - exfalso. revert Hr. clear. by induction xs.
Qed.

Lemma commit_ok (P : Registry → Prop) xs :
  stable P → (∀ s, P s → Forall (good_write s) xs) → hoare P (commit xs) (λ _, top).
Proof.
  intros HP Hxs. apply hoare_command; [done|]. intros s Hs Hp.
  destruct (apply_writes xs s) as [s'|] eqn:Hx; cbn; [|by split_and!].
  destruct (apply_writes_ok _ _ _ Hs (Hxs _ Hp) Hx) as [? Ho].
  assert (grows s s') by (intros p c; by rewrite Ho). by split_and!.
Qed.

Lemma update_row_ok (P : Registry → Prop) id f :
  stable P → (∀ s now m, P s → mg_id (f now m) = mg_id m ∧ (id = id0 → good_row s m (f now m))) →
  hoare P (update_row id f) (λ _, top).
Proof.
  intros HP Hf. apply (hoare_seq P _ _ (λ _, top)); [done|by apply hoare_query|]. intros now.
  apply commit_ok; [intros ??? []; split; [by eapply HP|done]|].
  intros s [Hs _]. constructor; [|done]. intros m. by apply Hf.
Qed.

(** A statement that neither makes a model ready nor moves one that is. *)
Definition harmless (f : ModelRegistryModel → ModelRegistryModel) : Prop :=
  ∀ m, mg_id (f m) = mg_id m ∧ (hf_repo_id (mg_card (f m)) = hf_repo_id (mg_card m)) ∧
    (mg_status (f m) ≠ "ready" ∨
     mg_status (f m) = mg_status m ∧ dl_path (mg_download (f m)) = dl_path (mg_download m)).

Lemma harmless_good s id f : harmless f → good_write s (Update id f).
Proof. intros Hf m. destruct (Hf m) as (? & Hr & Hs). split; [done|]. intros _. split; [congruence|tauto]. Qed.

Lemma update_harmless id f : (∀ now, harmless (f now)) → hoare top (update_row id f) (λ _, top).
Proof.
  intros Hf. apply update_row_ok; [done|]. intros s now m _. by apply (harmless_good s id (f now)).
Qed.

Definition known (id : string) (m : ModelRegistryModel) : Prop :=
  mg_id m = id ∧ (id = id0 → hf_repo_id (mg_card m) = repo).

Lemma get_model_ok id : hoare top (get_model id) (λ o _, ∀ m, o = Some m → known id m).
Proof.
  apply hoare_query. intros s [Hids Hrow _ _] m Hm. cbn in Hm. split; [by apply Hids|]. intros ->. by apply Hrow.
Qed.

Lemma refresh_ok id : hoare top (refresh id) (λ m _, known id m).
Proof.
  eapply hoare_seq; [done|apply get_model_ok|]. intros [m|]; [|apply hoare_raise].
  apply hoare_ret. intros s [_ Hm]. by apply Hm.
Qed.

Lemma get_model_or_raise_ok id :
  hoare top (get_model_or_raise id) (λ r _, match r with Ok m => known id m | Raise _ => True end).
Proof.
  eapply hoare_seq; [done|apply get_model_ok|]. intros o. apply hoare_ret. intros s [_ Hm].
  destruct o; [by apply Hm|done].
Qed.

(** ** Object storage *)

(** What happens to the keys of other models. *)
Lemma others_objects s f :
  inv s → (∀ p, f (rg_objects s) !! (s3_prefix id0 +:+ p) = rg_objects s !! (s3_prefix id0 +:+ p)) →
  inv (rg_set_objects f s) ∧ grows s (rg_set_objects f s).
Proof.
  intros [Hids Hrow Hfiles Hmarked] Hf.
  assert (marked (rg_set_objects f s) ↔ marked s) as Hm by (unfold marked, marker_of; cbn; by rewrite Hf).
  split; [split|]; cbn.
  - done.
  - intros m Hm'. destruct (Hrow _ Hm') as [? Hr]. split; [done|]. by rewrite Hm.
  - intros p c. rewrite Hf. apply Hfiles.
  - rewrite Hm. intros (files & ? & Hst)%Hmarked. exists files. split; [done|]. intros p c Hp. cbn. rewrite Hf. by apply Hst.
  - intros p c. cbn. by rewrite Hf.
Qed.

Context (Hpaths : ∀ files, snapshot repo = Some files → NoDup (COMPLETE files).*1).

Lemma NoDup_fst_eq {A} (l : list (string * A)) k a b : NoDup l.*1 → (k, a) ∈ l → (k, b) ∈ l → a = b.
Proof.
  intros Hnd Ha%(elem_of_list_to_map_1 (M := gmap string)) Hb%(elem_of_list_to_map_1 (M := gmap string)); [|done..].
  congruence.
Qed.

Lemma put_grows s files p c :
  inv s → snapshot repo = Some files → (p, c) ∈ COMPLETE files → (p = COMPLETE_MARKER → stored files s) →
  let s' := rg_set_objects <[s3_prefix id0 +:+ p := c]> s in inv s' ∧ grows s s'.
Proof.
  intros [Hids Hrow Hfiles Hmarked] Hsnap Hp Hst s'.
  assert (∀ p', rg_objects s' !! (s3_prefix id0 +:+ p') =
    if decide (p' = p) then Some c else rg_objects s !! (s3_prefix id0 +:+ p')) as Hlook.
  { intros p'. cbn. case_decide as Hpp; [by rewrite Hpp, lookup_insert_eq|].
    apply lookup_insert_ne. by intros ->%(inj (String.append _)). }
  assert (grows s s') as Hg.
  { intros p' c' Hp'. rewrite Hlook. case_decide as Hpp; [|done]. subst p'.
    destruct (Hfiles _ _ Hp') as (files' & Hs' & Hin). rewrite Hsnap in Hs'. injection Hs' as <-.
    f_equal. by eapply NoDup_fst_eq; [apply Hpaths| |]. }
  split; [|done]. split.
  - exact Hids.
  - intros m Hm. destruct (Hrow _ Hm) as [? Hr]. split; [done|]. intros Hready.
    destruct (Hr Hready). split; [by eapply stable_marked|done].
  - intros p' c'. rewrite Hlook. case_decide; [|apply Hfiles]. intros [= <-]. subst. by exists files.
  - intros Hm. destruct (decide (p = COMPLETE_MARKER)) as [Hpm|Hpm].
    + exists files. split; [done|]. eapply stable_stored; [done|auto].
    + destruct Hmarked as (files' & ? & ?).
      * unfold marked, marker_of in *. rewrite Hlook in Hm. by rewrite decide_False in Hm.
      * exists files'. split; [done|]. by eapply stable_stored.
Qed.

Lemma put_ok (P : Registry → Prop) files p c :
  stable P → snapshot repo = Some files → (p, c) ∈ COMPLETE files →
  (∀ s, P s → p = COMPLETE_MARKER → stored files s) →
  hoare P (put_object (s3_prefix id0 +:+ p) c) (λ _ s, rg_objects s !! (s3_prefix id0 +:+ p) = Some c).
Proof.
  intros HP Hsnap Hp Hst. apply hoare_remote; [done|intros _ s s' Hg; apply Hg|].
  intros s Hs Hps. destruct (put_grows s files p c) as [? ?]; [done..|by apply Hst|].
  split_and!; [done..|]. intros _ _. apply lookup_insert_eq.
Qed.

(** Another model: no path of one is a path of the other. *)
Definition apart (id : string) : Prop := ∀ p q, s3_prefix id +:+ p ≠ s3_prefix id0 +:+ q.

Lemma put_other id p c : apart id → hoare top (put_object (s3_prefix id +:+ p) c) (λ _, top).
Proof.
  intros Hid. apply hoare_remote; [done..|]. intros s Hs _.
  destruct (others_objects s <[s3_prefix id +:+ p := c]>) as [? ?]; [done| |by split_and!].
  intros q. apply lookup_insert_ne, Hid.
Qed.

Lemma upload_files files (sent rest : list (string * string)) :
  snapshot repo = Some files → sent ++ rest = files →
  hoare (stored sent) (cfor (upload_file id0) rest) (λ _, stored files).
Proof.
  intros Hsnap. revert sent. induction rest as [|[p c] rest IH]; intros sent Heq.
  { apply hoare_ret. rewrite app_nil_r in Heq. by rewrite Heq. }
  assert ((p, c) ∈ files) as Hin by (subst; set_solver).
  change (cfor (upload_file id0) ((p, c) :: rest)) with
    (put_object (s3_prefix id0 +:+ p) c ≫= λ _, cfor (upload_file id0) rest).
  eapply hoare_bind; [apply (stable_stored sent)| |].
  - apply (put_ok (stored sent) files p c); [apply stable_stored|done|unfold COMPLETE; set_solver|].
    intros s _ ->. exfalso. pose proof (Hpaths _ Hsnap) as Hnd. unfold COMPLETE in Hnd.
    rewrite fmap_app in Hnd. apply NoDup_app in Hnd as (_ & Hnd & _). eapply Hnd; [|by left].
    by apply (list_elem_of_fmap_2 fst) in Hin.
  - intros []. eapply hoare_mono; [apply (IH (sent ++ [(p, c)]))| |done].
    + by rewrite <- app_assoc.
    + intros s [Hd Hp] q d [Hq|[= -> ->]%list_elem_of_singleton]%elem_of_app; [by apply Hd|done].
Qed.

Lemma upload_ok id card files :
  (id = id0 → hf_repo_id card = repo) → (id ≠ id0 → apart id) → snapshot (hf_repo_id card) = Some files →
  hoare top (_upload_model_to_s3 s3_bucket files id)
    (λ uri s, uri = s3_uri s3_bucket id ∧ (id = id0 → marked s)).
Proof.
  intros Hrepo Hapart Hsnap. destruct (decide (id = id0)) as [->|Hid].
  - rewrite (Hrepo eq_refl) in Hsnap. eapply hoare_bind; [done| |].
    + eapply hoare_mono; [apply (upload_files files [])|by intros s _ ?? ?%elem_of_nil|done]; done.
    + intros []. apply (hoare_bind (λ s, top s ∧ stored files s) _ _ (λ _, marked)).
      * intros s s' Hg [_ Hst]. split; [done|by eapply stable_stored].
      * eapply (hoare_mono _ (stored files)); [unfold marker_of; apply (put_ok (stored files) files COMPLETE_MARKER "")| |].
        -- apply stable_stored.
        -- done.
        -- unfold COMPLETE. set_solver.
        -- done.
        -- by intros s [].
        -- intros [] s Hs. by exists "".
      * intros []. apply hoare_ret. by intros s [_ ?].
  - apply (hoare_bind top _ _ (λ _, top)); [done| |].
    + apply hoare_for; [done|]. intros [p c] _. by apply put_other, Hapart.
    + intros []. apply (hoare_bind _ _ _ (λ _, top)); [done|eapply hoare_mono; [by apply put_other, Hapart|done..]|].
      intros []. by apply hoare_ret.
Qed.

(** ** Downloads *)

Lemma hub_ok {A} (r : Registry → res task_exn A) Q :
  (∀ s a, r s = Ok a → Q a) → hoare top (hub_call id r) (λ a _, Q a).
Proof. intros Hr. apply hoare_remote; [done..|]. intros s Hs _. split_and!; [done..|]. apply Hr. Qed.

Lemma total_size_ok r : hoare top (get_model_total_size_bytes r) (λ _, top).
Proof.
  apply hoare_try; [|intros t; by apply hoare_ret].
  eapply hoare_seq; [done|by apply (hub_ok _ (λ _, True))|]. intros sizes. by apply hoare_ret.
Qed.

Ltac harmless := let m := fresh in intros m; split_and!; [done|done|first [by right|by left]].

Lemma progress_ok id d e : hoare top (_update_download_progress id d e) (λ _, top).
Proof. apply update_harmless. intros now. harmless. Qed.

Lemma status_ok id status : status ≠ "ready" → hoare top (set_model_status id status) (λ _, top).
Proof. intros Hst. apply update_harmless. intros now. harmless. Qed.

Lemma download_ok id card :
  (id = id0 → hf_repo_id card = repo) → (id ≠ id0 → apart id) →
  hoare top (download s3_bucket id (hf_repo_id card)) (λ _, top).
Proof.
  intros Hrepo Hapart. eapply hoare_seq; [done|apply total_size_ok|]. intros e.
  eapply hoare_seq; [done|apply progress_ok|]. intros [].
  eapply hoare_seq; [done|apply (hub_ok _ (λ files, snapshot (hf_repo_id card) = Some files))|].
  { intros s files. destruct (snapshot (hf_repo_id card)); by intros [= ->]. }
  intros files F i s0 s HF H0 Hs Hg [_ Hsnap] Hf. revert F i s0 s HF H0 Hs Hg Hf.
  assert (hoare top (uri ← _upload_model_to_s3 s3_bucket files id; update_row id (pull_done uri (size_of files)))
    (λ _, top)) as Hup; [|intros; by apply Hup].
  eapply hoare_seq; [done|by apply (upload_ok id card)|]. intros uri.
  apply update_row_ok.
  { intros s s' Hg (_ & -> & Hm). split_and!; [done..|]. intros ->. eapply stable_marked; [done|by apply Hm]. }
  intros s now m (_ & -> & Hm). split; [done|]. intros ->. split; [done|]. right; right. split; [by apply Hm|done].
Qed.

(** What is read from the database and is independent of the state. *)
Lemma hoare_pure {A B} (P : Registry → Prop) (c : io A) (f : A → io B) (M : A → Prop) Q :
  hoare top c (λ a _, M a) → (∀ a, M a → hoare top (f a) Q) → hoare P (c ≫= f) Q.
Proof.
  intros Hc Hf. eapply (hoare_mono _ top); [|done..]. eapply hoare_seq; [done|exact Hc|].
  intros a F i s0 s HF H0 Hs Hg [_ Ha] HFs. by apply (Hf a Ha F).
Qed.

Lemma pull_model_ok id force :
  (id ≠ id0 → apart id) → hoare top (pull_model s3_bucket id force) (λ _, top).
Proof.
  intros Hapart. eapply hoare_pure; [apply get_model_or_raise_ok|]. intros [model|e] Hk; [|by apply hoare_ret].
  destruct (_ && _); [by apply hoare_ret|]. apply (hoare_pure _ _ _ (known id)).
  { destruct (String.eqb _ _); [by apply hoare_ret|].
    apply (hoare_pure _ _ _ (λ _, True)); [|intros _ _; apply refresh_ok].
    apply commit_ok; [done|]. intros s _. constructor; [|done]. apply harmless_good. harmless. }
  intros m [_ Hrepo]. apply (hoare_pure _ _ _ (λ _, True)).
  - apply hoare_try; [by apply download_ok|]. intros t.
    apply (hoare_pure _ _ _ (λ _, True)); [|intros; apply hoare_raise].
    apply update_harmless. intros now. harmless.
  - intros _ _. apply (hoare_pure _ _ _ (known id)); [apply refresh_ok|]. intros m' _. by apply hoare_ret.
Qed.

Lemma allowed_ok {A} p perm (c : io (res http_error A)) :
  hoare top c (λ _, top) → hoare top (allowed mode p perm c) (λ _, top).
Proof. intros Hc. unfold allowed. destruct (require_permission _ _ _); [done|by apply hoare_ret]. Qed.

Lemma pull_request_ok p id force :
  (id ≠ id0 → apart id) → hoare top (pull_request s3_bucket mode p id force) (λ _, top).
Proof.
  intros Hapart. apply (hoare_pure _ _ _ (λ _, True)).
  - apply allowed_ok, (hoare_pure _ _ _ (λ _, True)); [eapply hoare_mono; [apply get_model_or_raise_ok|done..]|].
    intros [m|e] _; [|by apply hoare_ret]. destruct (_ && _); [by apply hoare_ret|].
    destruct (_ && _); [by apply hoare_ret|]. apply (hoare_pure _ _ _ (λ _, True)).
    + destruct (String.eqb _ _); [by apply status_ok|by apply hoare_ret].
    + intros _ _. apply (hoare_pure _ _ _ (λ _, True)); [by apply status_ok|]. intros _ _. by apply hoare_ret.
  - intros [[r [|]]|e] _; [|by apply hoare_ret..]. apply hoare_try; [|intros t; by apply hoare_ret].
    apply (hoare_pure _ _ _ (λ _, True)); [by apply pull_model_ok|]. intros _ _. by apply hoare_ret.
Qed.

(** ** Removal of another model *)

Lemma delete_keys_other keys (m : gmap string string) k :
  k ∉ keys → delete_keys keys m !! k = m !! k.
Proof.
  induction keys as [|k' keys IH]; [done|]. intros [? ?]%not_elem_of_cons. cbn.
  rewrite lookup_delete_ne by done. by apply IH.
Qed.

Lemma elem_of_batches n fuel l batch k : batch ∈ batches n fuel l → k ∈ batch → k ∈ l.
Proof.
  revert l. induction fuel as [|fuel IH]; intros [|x l]; [by intros ?%elem_of_nil..|]. cbn [batches].
  intros [->|Hb]%elem_of_cons Hk; [by eapply subseteq_take|].
  eapply subseteq_drop. by eapply IH.
Qed.

Lemma prefix_app a b : String.prefix a b = true → ∃ c, b = a +:+ c.
Proof.
  revert b. induction a as [|x a IH]; intros b; [by exists b|]. destruct b as [|y b]; [done|]. cbn.
  destruct (ascii_dec x y) as [->|]; [|done]. intros [c ->]%IH. by exists c.
Qed.

Lemma list_objects_ok prefix :
  hoare top (list_objects prefix) (λ l _, ∀ k, k ∈ l.*1 → ∃ p, k = prefix +:+ p).
Proof.
  apply hoare_remote; [done|by intros ???? |]. intros s Hs _. split_and!; [done..|]. intros l [= <-] k Hk.
  apply list_elem_of_fmap in Hk as ([k' z] & -> & Hk). apply list_elem_of_fmap in Hk as ([k2 v] & [= -> _] & Hk).
  rewrite elem_of_stable_sort in Hk. apply list_elem_of_In, filter_In in Hk as [_ Hp]. by apply prefix_app.
Qed.

Lemma remove_other p id purge :
  id ≠ id0 → apart id → hoare top (remove_model_route mode p id purge) (λ _, top).
Proof.
  intros Hid Hapart. apply allowed_ok, (hoare_pure _ _ _ (λ _, True)); [|intros; by apply hoare_ret].
  apply (hoare_pure _ _ _ (λ _, True)); [eapply hoare_mono; [apply get_model_or_raise_ok|done..]|].
  intros [m|e] _; [|by apply hoare_ret]. apply (hoare_pure _ _ _ (λ _, True)); [by apply hoare_query|].
  intros n _. destruct (0 <? n); [by apply hoare_ret|]. apply (hoare_pure _ _ _ (λ _, True)).
  - destruct (dl_path _) as [path|]; [|by apply hoare_ret]. destruct (String.prefix _ _); [|by apply hoare_ret].
    eapply hoare_pure; [apply list_objects_ok|]. intros l Hl. apply hoare_for; [done|]. intros batch Hb.
    apply hoare_remote; [done..|]. intros s Hs _. destruct (others_objects s (delete_keys batch)) as [? ?]; [done| |by split_and!].
    intros q. apply delete_keys_other. intros Hk. eapply elem_of_batches, Hl in Hk as [c Hc]; [|done]. by eapply Hapart.
  - intros _ _. apply (hoare_pure _ _ _ (λ _, True)); [|intros; by apply hoare_ret].
    apply commit_ok; [done|]. intros s _. constructor; [|done]. destruct purge; [done|]. apply harmless_good. harmless.
Qed.

(** ** Synchronisation and metadata *)

Definition good_writes (xs : list write) (s : Registry) : Prop := Forall (good_write s) xs.

Lemma stable_good_writes xs : stable (good_writes xs).
Proof. intros s s' Hg Hx. eapply Forall_impl; [exact Hx|]. intros x. by apply stable_good. Qed.

Lemma in_s3_ok id : hoare top (_is_model_in_s3 id) (λ b s, b = true → id = id0 → marked s).
Proof.
  apply hoare_try; [|intros t; by apply hoare_ret]. apply hoare_remote; [done| |].
  - intros b s s' Hg Hm Hb Hid. eapply stable_marked; [done|by apply Hm].
  - intros s Hs _. split_and!; [done..|]. intros b Hb _ ->. revert Hb. change (marked (Datatypes.id s)) with (marked s). unfold marked.
    destruct (rg_objects s !! marker_of id0); [intros _; by eexists|by intros [=]].
Qed.

Lemma sync_one_ok m : hoare top (sync_one s3_bucket m) good_writes.
Proof.
  eapply hoare_seq; [done|apply in_s3_ok|]. intros b. unfold sync_one. destruct b; cbn [andb negb]; [destruct (negb _)|].
  -
    apply (hoare_bind _ _ _ (λ _, top)).
    + intros s s' Hg [_ Hm]. split; [done|]. intros _ Hid. eapply stable_marked; [done|by apply Hm].
    + eapply (hoare_mono _ top); [|done..]. eapply hoare_seq; [done|apply list_objects_ok|].
      intros l. apply (hoare_ret _ _ (λ _, top)). done.
    + intros size. apply hoare_ret. intros s [[_ Hm] _]. constructor; [|done]. intros m'. split; [done|].
      intros Hid. split; [done|]. right; right. split; [by apply Hm|]. cbn. by rewrite Hid.
  - apply hoare_ret. intros s _. constructor.
  - apply hoare_ret. intros s _. destruct (String.eqb _ _); [|constructor]. constructor; [|done]. apply harmless_good. harmless.
Qed.

Lemma sync_all_ok l : hoare top (sync_all s3_bucket l) (λ xs, good_writes (concat xs)).
Proof.
  induction l as [|m l IH]; [apply hoare_ret; intros s _; constructor|].
  eapply hoare_seq; [done|apply sync_one_ok|]. intros xs. eapply hoare_seq; [|apply IH|].
  - intros s s' Hg [_ Hx]. split; [done|by eapply stable_good_writes].
  - intros rest. apply hoare_ret. intros s [[_ Hx] Hr]. cbn. by apply Forall_app.
Qed.

Lemma sync_ok p : hoare top (sync_models_route s3_bucket mode p) (λ _, top).
Proof.
  apply allowed_ok, (hoare_pure _ _ _ (λ _, True)); [|intros; by apply hoare_ret].
  apply (hoare_pure _ _ _ (λ _, True)); [by apply hoare_query|]. intros l _.
  eapply hoare_seq; [done|apply sync_all_ok|]. intros xs. apply (hoare_bind _ _ _ (λ _, top)).
  - intros s s' Hg [_ Hx]. split; [done|by eapply stable_good_writes].
  - apply commit_ok; [|by intros s []]. intros s s' Hg [_ Hx]. split; [done|by eapply stable_good_writes].
  - intros []. by apply hoare_ret.
Qed.

(** What a YAML file, or a client, says of this model: its repository does not change. *)
Definition entry_ok (entry : ModelYAMLEntry) : Prop := ye_id entry = id0 → hf_repo_id (ye_card entry) = repo.

Lemma seed_one_ok pending entry :
  entry_ok entry → (∀ s, good_writes pending s) →
  hoare top (seed_one pending entry) (λ r _, ∀ s, good_writes r.1 s).
Proof.
  intros He Hp. eapply hoare_pure; [by apply (hoare_query _ _ (λ _ _, True))|]. intros [m|] _.
  - destruct (String.eqb _ _); apply hoare_ret; intros _ _ s; [constructor|]. constructor; [|done].
    intros m'. split; [done|]. intros Hid. split; [intros _; by apply He|by right; left].
  - apply hoare_ret. intros _ _ s. constructor; [|done]. intros Hid. split; [by apply He|done].
Qed.

Lemma seed_all_ok entries pending :
  Forall entry_ok entries → (∀ s, good_writes pending s) →
  hoare top (seed_all pending entries) (λ r _, ∀ s, good_writes r.1 s).
Proof.
  revert pending. induction entries as [|entry entries IH]; intros pending He Hp; [by apply hoare_ret|].
  inversion_clear He. eapply hoare_pure; [by apply seed_one_ok|]. intros [xs n] Hx.
  eapply hoare_pure; [apply IH; [done|]|].
  - intros s. apply Forall_app. split; [apply Hp|apply Hx].
  - intros [ys ns] Hy. by apply hoare_ret.
Qed.

Lemma seed_ok entries : Forall entry_ok entries → hoare top (seed_from_yamls entries) (λ _, top).
Proof.
  intros He. eapply hoare_pure; [apply seed_all_ok; [done|intros s; constructor]|]. intros [xs ns] Hx.
  apply (hoare_pure _ _ _ (λ _, True)); [|intros; by apply hoare_ret].
  apply commit_ok; [done|]. intros s _. apply Hx.
Qed.

Lemma apply_edits_repo c es c' : apply_edits c es = Some c' → hf_repo_id c' = hf_repo_id c.
Proof.
  unfold apply_edits. revert c. induction es as [|e es IH]; intros c; cbn [foldl]; [by intros [= ->]|].
  intros Hf. change (foldl (λ o e, c ← o; apply_edit c e) (apply_edit c e) es = Some c') in Hf.
  destruct (apply_edit c e) as [c1|] eqn:He.
  - rewrite (IH _ Hf). destruct e as [?|?|[?|]|[?|]|[?|]|[?|]|?|?|[?|]]; first [discriminate He|by injection He as <-].
  - exfalso. revert Hf. clear. by induction es.
Qed.

Lemma edited_harmless model updates : harmless (edited model updates).
Proof.
  intros m. split_and!; [done| |by right]. unfold edited. cbn.
  destruct (apply_edits _ _) eqn:He; [by eapply apply_edits_repo|done].
Qed.

Lemma edit_ok p id updates : hoare top (update_model_route mode p id updates) (λ _, top).
Proof.
  apply allowed_ok, (hoare_pure _ _ _ (λ _, True)); [|intros; by apply hoare_ret].
  apply (hoare_pure _ _ _ (λ _, True)); [eapply hoare_mono; [apply get_model_or_raise_ok|done..]|].
  intros [m|e] _; [|by apply hoare_ret]. destruct (apply_edits _ _); [|apply hoare_raise].
  apply (hoare_pure _ _ _ (λ _, True)); [|intros _ _; apply (hoare_pure _ _ _ (known id)); [apply refresh_ok|intros; by apply hoare_ret]].
  apply commit_ok; [done|]. intros s _. constructor; [|done]. apply harmless_good, edited_harmless.
Qed.

Lemma info_ok id : hoare top (get_model_info id) (λ _, top).
Proof. apply hoare_try; [|intros t; by apply hoare_ret]. apply (hub_ok _ (λ _, True)). done. Qed.

Lemma resolve_engine_ok id : hoare top (resolve_engine_id id) (λ _, top).
Proof.
  unfold resolve_engine_id. destruct (dget _ _); [by apply hoare_ret|].
  apply (hoare_pure _ _ _ (λ _, True)); [apply info_ok|]. intros; by apply hoare_ret.
Qed.

Lemma metadata_ok id : hoare top (get_model_metadata id) (λ _, top).
Proof.
  apply (hoare_pure _ _ _ (λ _, True)); [apply info_ok|]. intros [info|] _; [|by apply hoare_ret].
  apply (hoare_pure _ _ _ (λ _, True)); [apply resolve_engine_ok|]. intros; by apply hoare_ret.
Qed.

Lemma register_hf_ok id engine_id info :
  (id = id0 → given (Some id) = Some repo) → hoare top (register_hf id engine_id info) (λ _, top).
Proof.
  intros Hid. apply (hoare_pure _ _ _ (λ _, True)); [|intros; eapply hoare_mono; [apply refresh_ok|done..]].
  apply commit_ok; [done|]. intros s _. constructor; [|done]. intros Heq. cbn in Heq. split; [|done].
  unfold hf_repo_id. cbn [mg_card new_model hf_card mc_source mc_loaded_model_id]. by rewrite Hid.
Qed.

Lemma by_loaded_ok l : hoare top (get_model_by_loaded_model_id l) (λ _, top).
Proof.
  apply (hoare_pure _ _ _ (λ _, True)); [by apply hoare_query|].
  intros [|m [|]] _; [by apply hoare_ret..|apply hoare_raise].
Qed.

Lemma resolve_route_ok p id auto :
  (id = id0 → given (Some id) = Some repo) → hoare top (resolve_hf_model_route mode p id auto) (λ _, top).
Proof.
  intros Hid. apply allowed_ok, (hoare_pure _ _ _ (λ _, True)); [apply metadata_ok|].
  intros [md|] _; [|by apply hoare_ret]. apply (hoare_pure _ _ _ (λ _, True)); [|intros; by apply hoare_ret].
  destruct (given (hm_resolved_engine_id md)); [|by apply hoare_ret]. destruct auto; [|by apply hoare_ret].
  apply (hoare_pure _ _ _ (λ _, True)); [eapply hoare_mono; [apply get_model_ok|done..]|].
  intros o _. apply (hoare_pure _ _ _ (λ _, True)).
  { destruct o; [by apply hoare_ret|apply by_loaded_ok]. }
  intros [m|] _; [by apply hoare_ret|].
  apply (hoare_pure _ _ _ (λ _, True)); [by apply register_hf_ok|intros; by apply hoare_ret].
Qed.

Lemma resolve_ok id auto :
  (id = id0 → given (Some id) = Some repo) → hoare top (get_or_resolve_model id auto) (λ _, top).
Proof.
  intros Hid. apply (hoare_pure _ _ _ (λ _, True)); [eapply hoare_mono; [apply get_model_ok|done..]|].
  intros [m|] _; [by apply hoare_ret|].
  apply (hoare_pure _ _ _ (λ _, True)); [eapply hoare_mono; [apply get_model_ok|done..]|].
  intros [m|] _; [by apply hoare_ret|]. destruct (negb _); [by apply hoare_ret|].
  apply (hoare_pure _ _ _ (λ _, True)); [apply metadata_ok|]. intros [md|] _; [|by apply hoare_ret].
  destruct (hm_resolved_engine_id md); [|by apply hoare_ret]. destruct auto; [|by apply hoare_ret].
  apply (hoare_pure _ _ _ (λ _, True)); [by apply register_hf_ok|]. intros; by apply hoare_ret.
Qed.

(** ** Operations that keep the model *)

(** No removal of this model; its repository is what every source says; other models that are
    downloaded or removed have paths of their own. *)
Definition operation_ok (op : operation) : Prop :=
  match op with
  | PullRequest _ id _ => id ≠ id0 → apart id
  | RemoveRequest _ id _ => id ≠ id0 ∧ apart id
  | ResolveRequest _ id _ | Resolve id _ => id = id0 → given (Some id) = Some repo
  | Seed entries => Forall entry_ok entries
  | SyncRequest _ | EditRequest _ _ _ | Touch _ => True
  end.

Lemma task_ok op : operation_ok op → hoare top (task_of op) (λ _, top).
Proof.
  assert (∀ A (c : io A), hoare top c (λ _, top) → hoare top (c;; mret ()) (λ _, top)) as Hdone.
  { intros A c Hc. apply (hoare_pure _ _ _ (λ _, True)); [exact Hc|intros; by apply hoare_ret]. }
  destruct op; cbn [operation_ok task_of]; intros Hop.
  - by apply pull_request_ok.
  - destruct Hop. by apply Hdone, remove_other.
  - apply Hdone, sync_ok.
  - apply Hdone, edit_ok.
  - by apply Hdone, resolve_route_ok.
  - by apply Hdone, resolve_ok.
  - apply update_harmless. intros now. harmless.
  - by apply Hdone, seed_ok.
Qed.

Lemma outside_ok m s : R s (registry_outside m s).
Proof.
  intros [H1 H2 H3 H4]. split; [|by destruct m; intros p c].
  destruct m as [up|up|t|l|id d e|i]; try (split; [exact H1|exact H2|exact H3|exact H4]).
  split; [| |exact H3|exact H4]; cbn.
  - intros id' m. destruct (decide (id' = id)) as [->|].
    + rewrite lookup_alter_eq. intros (m' & Hm' & ->)%fmap_Some_1. exact (H1 _ _ Hm').
    + rewrite lookup_alter_ne by done. apply H1.
  - intros m. destruct (decide (id0 = id)) as [<-|].
    + rewrite lookup_alter_eq. intros (m' & Hm' & ->)%fmap_Some_1. exact (H2 _ Hm').
    + rewrite lookup_alter_ne by done. apply H2.
Qed.

Lemma task_waits i op s :
  operation_ok op → inv s → waits R R (cancelled i) (switch;; task_of op) (λ _ _, True) s.
Proof.
  intros Hop Hs s' Hs'. destruct (Hs' Hs) as [Hi _]. split; intros _; [intros _|by split].
  eapply wp_mono; [by apply (task_ok op Hop (λ _, True))|].
  intros r s1 s2 (H1 & H2 & H12 & _). split; [|done]. by intros _.
Qed.

Lemma registry_inv ops s l :
  Forall operation_ok ops → inv s → loop_reach (registry_start ops s) l → inv (l_state l).
Proof.
  intros Hops Hs Hl.
  apply (reach_inv (λ _, R) (λ _, R) (λ _ _ _, True)) with (I := inv) (l := registry_start ops s);
    [by intros; etrans|done|done|by intros i m s1 s2 [= <-]; apply outside_ok|done| | | |done|done].
  - intros i c Hc. cbn in Hc. rewrite list_lookup_fmap in Hc. apply fmap_Some in Hc as (op & Hop & ->).
    rewrite Forall_lookup in Hops. apply task_waits; [by eapply Hops|done].
  - intros i s1 s2 HR Hi. by apply HR.
  - intros m s1 s2 [= <-] Hi. by apply outside_ok.
Qed.
End model.

(** ** Ready models *)

(** The registry has never heard of a model, and nothing is stored under its name. *)
Definition unheard (id : string) (s : Registry) : Prop :=
  (∀ id' m, rg_models s !! id' = Some m → mg_id m = id') ∧ rg_models s !! id = None ∧
  ∀ p, rg_objects s !! (s3_prefix id +:+ p) = None.

Lemma unheard_inv id repo s : unheard id s → inv id repo s.
Proof.
  intros (Hids & Hrow & Hfiles). split; [done|by rewrite Hrow| |].
  - intros p c. by rewrite Hfiles.
  - intros [v Hv]. unfold marker_of in Hv. by rewrite Hfiles in Hv.
Qed.


(** ** Operations alone *)

(** Without interference: nothing gets in, nobody cancels. *)
Fixpoint alone {A} (c : io A) (s : Registry) : Registry * res task_exn A :=
  match c with
  | Ret r => (s, r)
  | Run f k => alone (k s) (f s)
  | Await _ k => alone (k (Ok ())) s
  end.

Lemma alone_bind {A B} (c : io A) (f : A → io B) s :
  alone (c ≫= f) s =
  match alone c s with (s', Ok a) => alone (f a) s' | (s', Raise e) => (s', Raise e) end.
Proof. revert s. induction c as [[a|e]|g k IH|ready k IH]; intros s; [done..|apply IH|apply IH]. Qed.

Lemma alone_try {A} (c : io A) h s :
  alone (ctry c h) s =
  match alone c s with (s', Raise (Failure t)) => alone (h t) s' | r => r end.
Proof. revert s. induction c as [[a|[t|]]|g k IH|ready k IH]; intros s; [done..|apply IH|apply IH]. Qed.

Lemma alone_command {A} f (r : Registry → res task_exn A) s : alone (command f r) s = (f s, r s).
Proof. done. Qed.

Lemma alone_s3 {A} f (r : Registry → res task_exn A) s :
  rg_s3_up s = true → rg_s3_up (f s) = true → alone (s3_call f r) s = (f s, r s).
Proof.
  intros Hup Hup'. unfold s3_call, remote. rewrite alone_bind, alone_command, Hup.
  destruct (r s); [|done]. rewrite alone_bind, alone_command. unfold id. by rewrite Hup'.
Qed.

Lemma alone_s3_down {A} f (r : Registry → res task_exn A) s :
  rg_s3_up s = false → alone (s3_call f r) s = (s, Raise (Failure "connection")).
Proof. intros Hup. unfold s3_call, remote. by rewrite alone_bind, alone_command, Hup. Qed.

Lemma alone_query {A} (f : Registry → A) s : alone (query [] f) s = (s, Ok (f s)).
Proof. done. Qed.

(** *** Synchronisation *)

Definition in_s3 (s : Registry) (model_id : string) : bool :=
  rg_s3_up s && bool_decide (is_Some (rg_objects s !! marker_of model_id)).

(** What becomes of a row. *)
Definition synced (s : Registry) (m : ModelRegistryModel) : ModelRegistryModel :=
  let ready := String.eqb (mg_status m) "ready" in
  if in_s3 s (mg_id m) && negb ready then
    synced_ready s3_bucket (mg_id m) (total_size (listing (s3_prefix (mg_id m)) (rg_objects s))) m
  else if negb (in_s3 s (mg_id m)) && ready then synced_gone m
  else m.
Definition out_of_sync (s : Registry) (m : ModelRegistryModel) : bool :=
  xorb (in_s3 s (mg_id m)) (String.eqb (mg_status m) "ready").

Lemma synced_id s m : mg_id (synced s m) = mg_id m.
Proof. unfold synced. by repeat case_match. Qed.

Lemma alone_in_s3 id s : alone (_is_model_in_s3 id) s = (s, Ok (in_s3 s id)).
Proof.
  unfold _is_model_in_s3, in_s3. rewrite alone_try. destruct (rg_s3_up s) eqn:Hup.
  - rewrite alone_s3 by done. unfold Datatypes.id. case_bool_decide as Hm.
    + by destruct Hm as [v ->].
    + rewrite (proj2 (eq_None_not_Some _) Hm). done.
  - by rewrite alone_s3_down.
Qed.

(** A statement for a model is applied to its row alone. *)
Definition sync_statement (s : Registry) (m : ModelRegistryModel) (xs : list write) : Prop :=
  match xs with
  | [] => out_of_sync s m = false
  | [Update id f] => out_of_sync s m = true ∧ id = mg_id m ∧ f m = synced s m
  | _ => False
  end.

Lemma alone_sync_one m s :
  ∃ xs, alone (sync_one s3_bucket m) s = (s, Ok xs) ∧ sync_statement s m xs ∧ (xs = [] → synced s m = m).
Proof.
  unfold sync_one, sync_statement, out_of_sync, synced. rewrite alone_bind, alone_in_s3.
  destruct (in_s3 s (mg_id m)) eqn:Hin; destruct (String.eqb (mg_status m) "ready") eqn:Hr; cbn [negb andb xorb].
  - exists []. by split_and!.
  - rewrite alone_bind. unfold _get_model_size_in_s3, list_objects. rewrite alone_bind, alone_s3;
      [|by apply andb_true_iff in Hin as [? _]..].
    eexists. split_and!; [reflexivity|by split_and!|done].
  - eexists. split_and!; [reflexivity|by split_and!|done].
  - exists []. by split_and!.
Qed.

Lemma alone_sync_all l s :
  ∃ xs, alone (sync_all s3_bucket l) s = (s, Ok xs) ∧
    Forall2 (λ m x, sync_statement s m x ∧ (x = [] → synced s m = m)) l xs.
Proof.
  induction l as [|m l (xs & Hxs & Hl)]; [by exists []|].
  destruct (alone_sync_one m s) as (x & Hx & Hm). exists (x :: xs). split; [|by constructor].
  cbn [sync_all]. by rewrite alone_bind, Hx, alone_bind, Hxs.
Qed.

Lemma apply_synced s0 l xs s :
  Forall2 (λ m x, sync_statement s0 m x ∧ (x = [] → synced s0 m = m)) l xs →
  NoDup (map mg_id l) → (∀ m, m ∈ l → rg_models s !! mg_id m = Some m) →
  ∃ s', apply_writes (concat xs) s = Some s' ∧ rg_objects s' = rg_objects s ∧ rg_s3_up s' = rg_s3_up s ∧
    rg_languages s' = rg_languages s ∧
    (∀ m, m ∈ l → rg_models s' !! mg_id m = Some (synced s0 m)) ∧
    (∀ id, id ∉ map mg_id l → rg_models s' !! id = rg_models s !! id) ∧
    length (concat xs) = length (List.filter (out_of_sync s0) l).
Proof.
  intros Hxs. revert s. induction Hxs as [|m x l xs [Hx Hnil] Hxs IH]; intros s Hnd Hrows.
  { exists s. split_and!; [done..|by intros m ?%elem_of_nil|done|done]. }
  inversion_clear Hnd as [|? ? Hm Hnd'].
  destruct x as [|[|id f|] [|]]; cbn in Hx; try done.
  - destruct (IH s) as (s' & Ha & Ho & Hu & Hlang & Hin & Hout & Hlen); [done|by intros; apply Hrows; right|].
    exists s'. cbn [concat app List.filter]. rewrite Hx. split_and!; [done..| | |done].
    + intros m' [->|Hm']%elem_of_cons; [|by apply Hin]. rewrite Hout by done. rewrite Hnil by done. apply Hrows. by left.
    + intros id [? ?]%not_elem_of_cons. by apply Hout.
  - destruct Hx as (Hsync & -> & Hf).
    destruct (IH (rg_set_models (alter f (mg_id m)) s)) as (s' & Ha & Ho & Hu & Hlang & Hin & Hout & Hlen); [done| |].
    { intros m' Hm'. cbn. rewrite lookup_alter_ne; [apply Hrows; by right|].
      intros Heq. apply Hm. rewrite Heq. by apply (list_elem_of_fmap_2 mg_id). }
    exists s'. cbn [concat app List.filter]. rewrite Hsync. split_and!; [exact Ha|done..| | |cbn; by rewrite Hlen].
    + intros m' [->|Hm']%elem_of_cons; [|by apply Hin]. rewrite Hout by done. cbn.
      rewrite lookup_alter_eq, (Hrows m) by left. cbn. by rewrite Hf.
    + intros id [? ?]%not_elem_of_cons. rewrite Hout by done. cbn. by apply lookup_alter_ne.
Qed.

Definition keyed (s : Registry) : Prop := ∀ id m, rg_models s !! id = Some m → mg_id m = id.

Lemma all_models_elem s m : keyed s → m ∈ all_models s ↔ rg_models s !! mg_id m = Some m.
Proof.
  intros Hk. unfold all_models. rewrite list_elem_of_fmap. split.
  - intros ([id m'] & -> & Hm%elem_of_map_to_list). cbn. by rewrite (Hk _ _ Hm).
  - intros Hm. exists (mg_id m, m). split; [done|by apply elem_of_map_to_list].
Qed.

Lemma all_models_NoDup s : keyed s → NoDup (map mg_id (all_models s)).
Proof.
  intros Hk. unfold all_models. rewrite map_map.
  replace (map (λ x, mg_id x.2) (map_to_list (rg_models s))) with ((map_to_list (rg_models s)).*1).
  - apply NoDup_fst_map_to_list.
  - apply map_ext_in. intros [id m] Hx%list_elem_of_In%elem_of_map_to_list. cbn. by rewrite (Hk _ _ Hx).
Qed.

Lemma length_filter_perm {A} (f : A → bool) l k : l ≡ₚ k → length (List.filter f l) = length (List.filter f k).
Proof. induction 1; cbn; [done|by case_match; cbn; congruence|by repeat case_match|congruence]. Qed.

Lemma alone_sync s :
  keyed s →
  ∃ s', alone (sync_from_s3 s3_bucket) s =
      (s', Ok (length (List.filter (out_of_sync s) (all_models s)),
               size (rg_models s) - length (List.filter (out_of_sync s) (all_models s)))) ∧
    rg_objects s' = rg_objects s ∧ rg_s3_up s' = rg_s3_up s ∧ rg_languages s' = rg_languages s ∧
    ∀ id, rg_models s' !! id = synced s <$> rg_models s !! id.
Proof.
  intros Hk. unfold sync_from_s3, list_models. rewrite alone_bind, alone_query.
  set (l := stable_sort _ _).
  assert (l ≡ₚ all_models s) as Hperm.
  { unfold l. rewrite stable_sort_perm. cbn [allows andb].
    replace (List.filter _ (all_models s)) with (all_models s); [done|].
    induction (all_models s) as [|m k IH]; [done|]. cbn. by rewrite <- IH. }
  destruct (alone_sync_all l s) as (xs & Hxs & Hall). rewrite alone_bind, Hxs.
  destruct (apply_synced s l xs s Hall) as (s' & Ha & Ho & Hu & Hlang & Hin & Hout & Hlen).
  { rewrite Hperm. by apply all_models_NoDup. }
  { intros m. rewrite Hperm. by apply all_models_elem. }
  exists s'. rewrite alone_bind. unfold commit. rewrite alone_command, Ha. cbn [default].
  split_and!; [|done..|].
  - cbn. rewrite Hlen, (length_filter_perm _ _ _ Hperm), (Permutation_length Hperm).
    unfold all_models. rewrite length_fmap, length_map_to_list. done.
  - intros id. destruct (rg_models s !! id) as [m|] eqn:Hm; cbn.
    + pose proof (Hk _ _ Hm) as Hid. rewrite <- Hid. apply Hin. rewrite Hperm, all_models_elem by done. by rewrite Hid.
    + rewrite Hout; [done|]. intros Hx. apply list_elem_of_fmap in Hx as (m & -> & Hx).
      rewrite Hperm, all_models_elem in Hx by done. congruence.
Qed.

Lemma synced_ready_iff s m : mg_status (synced s m) = "ready" ↔ in_s3 s (mg_id m) = true.
Proof.
  unfold synced. destruct (in_s3 s (mg_id m)), (String.eqb_spec (mg_status m) "ready"); cbn; naive_solver.
Qed.

Lemma none_kept {A} (f : A → bool) l : (∀ x, x ∈ l → f x = false) → List.filter f l = [].
Proof.
  induction l as [|x l IH]; [done|]. intros Hl. cbn. rewrite Hl by left. apply IH. intros y Hy. apply Hl. by right.
Qed.

Lemma synced_settled s s' m :
  rg_objects s' = rg_objects s → rg_s3_up s' = rg_s3_up s → out_of_sync s' (synced s m) = false.
Proof.
  intros Ho Hu. unfold out_of_sync. rewrite synced_id.
  assert (in_s3 s' (mg_id m) = in_s3 s (mg_id m)) as -> by (unfold in_s3; by rewrite Ho, Hu).
  pose proof (synced_ready_iff s m) as Hr.
  destruct (in_s3 s (mg_id m)), (String.eqb_spec (mg_status (synced s m)) "ready"); naive_solver.
Qed.

(** Synchronisation.  With S3 within reach, afterwards a model is ready exactly if its marker is in
    S3; only rows that are out of step change, as many as it says, to the path of their files or
    to none, and a second synchronisation finds nothing to do.  When S3 cannot be reached, every
    model that is ready is taken for one that was never downloaded. *)
Theorem registry_synced s :
  keyed s →
  let '(s', r) := alone (sync_from_s3 s3_bucket) s in
  (∃ updated, r = Ok (updated, size (rg_models s) - updated)) ∧
  (alone (sync_from_s3 s3_bucket) s').2 = Ok (0, size (rg_models s)) ∧
  (∀ id, is_Some (rg_models s' !! id) ↔ is_Some (rg_models s !! id)) ∧
  ∀ id m m', rg_models s !! id = Some m → rg_models s' !! id = Some m' →
    mg_card m' = mg_card m ∧
    if rg_s3_up s then
      (mg_status m' = "ready" ↔ rg_objects s !! marker_of id ≠ None) ∧
      (m' = m ∨
       mg_status m ≠ "ready" ∧ mg_status m' = "ready" ∧ dl_path (mg_download m') = Some (s3_uri s3_bucket id) ∨
       mg_status m = "ready" ∧ mg_status m' = "not_downloaded" ∧ dl_path (mg_download m') = None)
    else
      (mg_status m = "ready" → mg_status m' = "not_downloaded" ∧ dl_path (mg_download m') = None) ∧
      (mg_status m ≠ "ready" → m' = m).
Proof.
  intros Hk. destruct (alone_sync s Hk) as (s' & -> & Ho & Hu & _ & Hrows).
  assert (keyed s') as Hk'.
  { intros id m'. rewrite Hrows. intros (m1 & Hm1 & ->)%fmap_Some. rewrite synced_id. by apply Hk. }
  split_and!; [by eexists| |intros id; by rewrite Hrows, fmap_is_Some|].
  - destruct (alone_sync s' Hk') as (s2 & -> & _). cbn.
    assert (List.filter (out_of_sync s') (all_models s') = []) as ->.
    { apply none_kept. intros m1 Hm1. rewrite all_models_elem in Hm1 by done.
      rewrite Hrows in Hm1. apply fmap_Some in Hm1 as (m0 & Hm0 & ->). by apply synced_settled. }
    cbn. rewrite Nat.sub_0_r, <- !size_dom. do 3 f_equal. apply set_eq. intros i. by rewrite !elem_of_dom, Hrows, fmap_is_Some.
  - intros id m m' Hm. rewrite Hrows, Hm. intros [= <-]. rewrite <- (Hk _ _ Hm).
    split; [unfold synced; by repeat case_match|]. pose proof (synced_ready_iff s m) as Hready.
    unfold synced, in_s3 in *. destruct (rg_s3_up s); cbn in *.
    + pose proof (not_eq_None_Some (rg_objects s !! marker_of (mg_id m))) as Hnone. revert Hready Hnone.
      destruct (bool_decide_reflect (is_Some (rg_objects s !! marker_of (mg_id m)))),
        (String.eqb_spec (mg_status m) "ready"); cbn; intros; split; naive_solver.
    + destruct (String.eqb_spec (mg_status m) "ready"); naive_solver.
Qed.

(** *** Removal *)

Lemma concat_batches n fuel l : 0 < n → length l ≤ fuel → concat (batches n fuel l) = l.
Proof.
  intros Hn. revert l. induction fuel as [|fuel IH]; intros [|x l] Hl; cbn in Hl; [done|lia|done|].
  cbn [batches concat]. rewrite IH; [apply take_drop|]. rewrite length_drop. cbn. lia.
Qed.

Lemma lookup_delete_keys keys (m : gmap string string) k :
  delete_keys keys m !! k = if decide (k ∈ keys) then None else m !! k.
Proof.
  induction keys as [|k' keys IH]; [done|]. cbn. destruct (decide (k = k')) as [->|Hne].
  - rewrite lookup_delete_eq, decide_True by left. done.
  - rewrite lookup_delete_ne by done. change (foldr delete m keys) with (delete_keys keys m).
    rewrite IH. repeat case_decide; set_solver.
Qed.

Lemma alone_delete_batches bs s :
  rg_s3_up s = true →
  ∃ f, alone (cfor (λ batch, s3_call (rg_set_objects (delete_keys batch)) (λ _, Ok ())) bs) s =
    (rg_set_objects f s, Ok ()) ∧
    ∀ k, f (rg_objects s) !! k = if decide (k ∈ concat bs) then None else rg_objects s !! k.
Proof.
  revert s. induction bs as [|b bs IH]; intros s Hup.
  { exists Datatypes.id. split; [by destruct s|]. intros k. by rewrite decide_False by apply not_elem_of_nil. }
  set (c := λ batch, s3_call (rg_set_objects (delete_keys batch)) (λ _, Ok ())) in *.
  change (cfor c (b :: bs)) with (c b ≫= λ _, cfor c bs). rewrite alone_bind. unfold c at 1. rewrite alone_s3 by done.
  destruct (IH (rg_set_objects (delete_keys b) s) Hup) as (f & -> & Hf).
  exists (λ m, f (delete_keys b m)). split; [done|]. intros k. specialize (Hf k). cbn in Hf. rewrite Hf.
  rewrite lookup_delete_keys. cbn [concat]. repeat case_decide; set_solver.
Qed.

Lemma listing_keys prefix objects k :
  k ∈ (listing prefix objects).*1 ↔ String.prefix prefix k = true ∧ is_Some (objects !! k).
Proof.
  unfold listing. rewrite list_elem_of_fmap. split.
  - intros ([k' z] & -> & Hk). apply list_elem_of_fmap in Hk as ([k2 v] & [= -> _] & Hk).
    rewrite elem_of_stable_sort in Hk. apply list_elem_of_In, filter_In in Hk as [Hk Hp].
    apply list_elem_of_In, elem_of_map_to_list in Hk. split; [done|by exists v].
  - intros [Hp [v Hv]]. exists (k, Z.of_nat (String.length v)). split; [done|].
    apply list_elem_of_fmap. exists (k, v). split; [done|]. rewrite elem_of_stable_sort.
    apply list_elem_of_In, filter_In. split; [|done]. by apply list_elem_of_In, elem_of_map_to_list.
Qed.

Lemma alone_delete id s :
  rg_s3_up s = true →
  ∃ f, alone (_delete_model_from_s3 id) s = (rg_set_objects f s, Ok ()) ∧
    ∀ k, f (rg_objects s) !! k = if String.prefix (s3_prefix id) k then None else rg_objects s !! k.
Proof.
  intros Hup. unfold _delete_model_from_s3, list_objects. rewrite alone_bind, alone_s3 by done.
  change (Datatypes.id s) with s.
  destruct (alone_delete_batches (batches 1000 (length (listing (s3_prefix id) (rg_objects s)).*1)
    (listing (s3_prefix id) (rg_objects s)).*1) s Hup) as (f & -> & Hf).
  exists f. split; [done|]. intros k. rewrite Hf, concat_batches by (done || lia).
  case_decide as Hk; rewrite listing_keys in Hk.
  - by destruct Hk as [-> _].
  - destruct (String.prefix _ _); [|done]. apply eq_None_not_Some. naive_solver.
Qed.

Lemma alone_commit_delete id s :
  alone (commit [Delete id]) s =
  (rg_set_languages (filter (λ x, x.1 ≠ id)) (rg_set_models (delete id) s), Ok ()).
Proof. done. Qed.
Lemma alone_commit_update id f s : alone (commit [Update id f]) s = (rg_set_models (alter f id) s, Ok ()).
Proof. done. Qed.

(** The jobs that protect a model. *)
Definition protects (id : string) (j : JobModel) : Prop :=
  j_status j = JPending ∧ ∃ key, key ∈ ACTIVE_MODEL_SELECTOR_KEYS ∧ jget key (j_parameters j) = JStr id.

Lemma uses_model_iff id j : uses_model id j = true ↔ protects id j.
Proof.
  unfold uses_model, protects. rewrite andb_true_iff, existsb_exists. split.
  - intros [Hst (key & Hk%list_elem_of_In & Hv)]. split; [by destruct (j_status j)|]. exists key. split; [done|].
    destruct (jget key _); try done. cbn in Hv. by apply String.eqb_eq in Hv as ->.
  - intros [-> (key & Hk & Hv)]. split; [done|]. exists key. rewrite Hv. split; [by apply list_elem_of_In|apply String.eqb_refl].
Qed.

(** The files of a model are removed if its row says where they are. *)
Definition in_storage (m : ModelRegistryModel) : bool :=
  match dl_path (mg_download m) with Some path => String.prefix "s3://" path | None => false end.

End registry.

(** ** Runs *)

Module RegistryDemo.
Definition demo_id : string := "org/model".
Definition demo_files : list (string * string) := [("config.json", "{}"); ("model.bin", "weights")].
#[local] Instance demo_hub : ModelHub := {|
  model_info _ := None; sibling_sizes _ := [];
  snapshot repo := if String.eqb repo demo_id then Some demo_files
                   else if String.eqb repo "other" then Some [("model.bin", "other weights")] else None;
  set_order l := l |}.

Definition demo_card (repo : string) : ModelCard := {|
  mc_name := None; mc_engine_id := "faster-whisper"; mc_loaded_model_id := repo; mc_stage := "transcribe";
  mc_source := Some repo; mc_languages := Some ["en"]; mc_word_timestamps := true; mc_punctuation := true;
  mc_capitalization := true; mc_native_streaming := false; mc_min_vram_gb := None; mc_min_ram_gb := None;
  mc_supports_cpu := true |}.
Definition admin : Principal := {|
  pr_type := PT_API_KEY; pr_id := 1%N; pr_tenant_id := 1%N; pr_scopes := [ADMIN]; pr_key_prefix := None;
  pr_parent_key_id := None |}.
Definition demo_registry (jobs : list JobModel) : Registry := {|
  rg_now := 0; rg_models := ∅; rg_languages := ∅; rg_jobs := jobs; rg_objects := ∅; rg_s3_up := true;
  rg_hub_up := true; rg_cancelled := ∅ |}.

Definition demo_ops : list operation :=
  [Seed [{| ye_id := demo_id; ye_card := demo_card demo_id |}; {| ye_id := "org"; ye_card := demo_card "other" |}];
   PullRequest admin demo_id false; PullRequest admin demo_id true; RemoveRequest admin demo_id false;
   PullRequest admin "org" false; RemoveRequest admin "org" false].
Definition go (i n : nat) : list (choice (S := Registry)) := repeat (Resume i) n.
Definition demo_run (ops : list operation) (xs : list (choice (S := Registry))) : Registry :=
  l_state (follow (registry_start "bucket" mode_api_key ops (demo_registry [])) xs).

Definition row_of (id : string) (s : Registry) : option (string * option string) :=
  m ← rg_models s !! id; Some (mg_status m, dl_path (mg_download m)).
Definition files_of (id : string) (s : Registry) : list string := (listing (s3_prefix id) (rg_objects s)).*1.

(** S3 and the hub fail during a download, which the next one makes good. *)
Example demo_download :
  let s1 := demo_run demo_ops (go 0 60 ++ go 1 12 ++ [Outside (SetS3 false)] ++ go 1 20) in
  let s2 := demo_run demo_ops (go 0 60 ++ go 1 12 ++ [Outside (SetS3 false)] ++ go 1 20 ++
              [Outside (SetS3 true)] ++ go 2 60) in
  row_of demo_id s1 = Some ("failed", None) ∧
  row_of demo_id s2 = Some ("ready", Some "s3://bucket/models/org/model/") ∧
  files_of demo_id s2 =
    ["models/org/model/.complete"; "models/org/model/config.json"; "models/org/model/model.bin"].
Proof. vm_compute. by split_and!. Qed.

(** A removal during a download that replaces an older one: the model ends up ready, with its marker,
    and without the files that were uploaded before. *)
Example removal_breaks_pull :
  let s := demo_run demo_ops (go 0 60 ++ go 1 60 ++ go 2 12 ++ go 3 60 ++ go 2 60) in
  row_of demo_id s = Some ("ready", Some "s3://bucket/models/org/model/") ∧
  files_of demo_id s = ["models/org/model/.complete"; "models/org/model/model.bin"].
Proof. vm_compute. by split_and!. Qed.

(** The removal of [org] removes the files of [org/model]. *)
Example nested_removal :
  let s := demo_run demo_ops (go 0 60 ++ go 1 60 ++ go 4 60 ++ go 5 60) in
  row_of demo_id s = Some ("ready", Some "s3://bucket/models/org/model/") ∧ files_of demo_id s = [].
Proof. vm_compute. by split_and!. Qed.

(** A failed download leaves its error in the metadata of a model that is ready. *)
Example error_stays :
  let s := demo_run demo_ops (go 0 60 ++ go 1 12 ++ [Outside (SetS3 false)] ++ go 1 20 ++
             [Outside (SetS3 true)] ++ go 2 60) in
  mg_model_metadata <$> rg_models s !! demo_id = Some [("error", JStr "connection")].
Proof. vm_compute. reflexivity. Qed.

Definition demo_job (status : JobStatus) : JobModel := {|
  j_id := 7%N; j_tenant_id := 1%N; j_status := status; j_audio_uri := "s3://bucket/a.wav"; j_audio_format := None;
  j_audio_duration := None; j_audio_sample_rate := None; j_audio_channels := None; j_audio_bit_depth := None;
  j_parameters := [("model_transcribe", JStr demo_id)]; j_error := None; j_started_at := None;
  j_completed_at := None; j_stats := None; j_pii_entities_detected := None; j_pii_redacted_audio_uri := None;
  j_created_at := 0; j_created_by_key_id := None; j_retention := 0; j_purge_after := None;
  j_purged_at := None |}.
Definition ready_registry (status : JobStatus) : Registry := {|
  rg_now := 0; rg_models := rg_models (demo_run demo_ops (go 0 60 ++ go 1 60)); rg_languages := ∅;
  rg_jobs := [demo_job status]; rg_objects := rg_objects (demo_run demo_ops (go 0 60 ++ go 1 60));
  rg_s3_up := true; rg_hub_up := true; rg_cancelled := ∅ |}.

(** A pending job protects its model; a job that runs does not. *)
Example running_job :
  (alone (remove_model demo_id false) (ready_registry JPending)).2 = Ok (Raise (ModelInUseError demo_id 1)) ∧
  (alone (remove_model demo_id false) (ready_registry JRunning)).2 = Ok (Ok ()) ∧
  files_of demo_id (alone (remove_model demo_id false) (ready_registry JRunning)).1 = [].
Proof. vm_compute. by split_and!. Qed.

(** The engine of a model depends on the order in which Python goes through a set. *)
Example tags_ambiguous :
  engine_of_tags ["nemo"; "whisper"] = Some "nemo" ∧ engine_of_tags ["whisper"; "nemo"] = Some "faster-whisper".
Proof. by split. Qed.

(** ** Witnesses *)

Definition ready_ops : list operation :=
  [Seed [{| ye_id := demo_id; ye_card := demo_card demo_id |}]; PullRequest admin demo_id false; SyncRequest admin].
Definition ready_run : Loop :=
  follow (registry_start "bucket" mode_api_key ready_ops (demo_registry [])) (go 0 60 ++ go 1 60).

Lemma demo_paths files : snapshot demo_id = Some files → NoDup (COMPLETE files).*1.
Proof. intros [= <-]. apply (bool_decide_unpack _). vm_compute. exact I. Qed.
Lemma demo_operations : Forall (operation_ok demo_id demo_id) ready_ops.
Proof.
  constructor; [constructor; [done|constructor]|]. constructor; [by intros []|].
  constructor; [exact I|constructor].
Qed.
Lemma demo_unheard : unheard demo_id (demo_registry []).
Proof. split_and!; [|done|done]. intros id m Hm. cbn in Hm. by rewrite lookup_empty in Hm. Qed.
Lemma ready_reached : loop_reach (registry_start "bucket" mode_api_key ready_ops (demo_registry [])) ready_run.
Proof. apply follow_reach. Qed.
Lemma demo_chosen : ∃ r,
  _find_best_downloaded_model (map model_row (all_models (l_state ready_run))) "faster-whisper" "transcribe" [] =
    Some r ∧ mr_id r = demo_id.
Proof. vm_compute. by eexists. Qed.


Lemma ready_keyed : keyed (ready_registry JRunning).
Proof.
  intros id m Hm. assert (map_Forall (λ id m, mg_id m = id) (rg_models (ready_registry JRunning))) as Hall;
    [|by apply Hall].
  apply (bool_decide_unpack _). vm_compute. exact I.
Qed.
Lemma registry_synced_witness :
  keyed (ready_registry JRunning) ∧
  let '(_, r) := alone (sync_from_s3 "bucket") (ready_registry JRunning) in
  ∃ updated, r = Ok (updated, size (rg_models (ready_registry JRunning)) - updated).
Proof.
  split; [exact ready_keyed|]. pose proof (registry_synced "bucket" (ready_registry JRunning) ready_keyed) as Hs.
  destruct (alone (sync_from_s3 "bucket") (ready_registry JRunning)) as [s' r]. exact (proj1 Hs).
Defined.

End RegistryDemo.
