(* ===== verification/Invariants.v ===== *)
(** * Invariants of the handlers

    What every handler preserves, wherever it stops: well-formed rows, bounded
    retries, dependencies of scheduled tasks done; and the statuses a row can
    reach.  Proved along the relation [step] of worlds; [System.v] turns it into
    theorems about sequences of events. *)

From S2P Require Import Prelude PyValue Models Catalog Registry Selector Dag Store.
From S2P Require Import Effects Streams Scheduler PostProcessor Handlers.

(** ** Status orders *)

Definition task_status_reach (s s' : TaskStatus) : bool :=
  match s with
  | TPending => true
  | TReady | TRunning => negb (bool_decide (s' = TPending))
  | TFailed => bool_decide (s' ∈ [TFailed; TCompleted])
  | TCancelled => bool_decide (s' ∈ [TCancelled; TCompleted])
  | TCompleted => bool_decide (s' = TCompleted)
  | TSkipped => bool_decide (s' = TSkipped)
  end.

Definition job_status_reach (s s' : JobStatus) : bool :=
  match s with
  | JPending => true
  | JRunning => negb (bool_decide (s' = JPending))
  | JCancelling => bool_decide (s' ∈ [JCancelling; JCompleted; JFailed; JCancelled])
  | JCompleted => bool_decide (s' ∈ [JCompleted; JFailed])
  | JCancelled => bool_decide (s' ∈ [JCancelled; JFailed])
  | JFailed => bool_decide (s' = JFailed)
  end.

Lemma task_status_reach_refl s : task_status_reach s s = true.
Proof. by destruct s. Qed.
Lemma task_status_reach_trans s1 s2 s3 :
  task_status_reach s1 s2 = true → task_status_reach s2 s3 = true →
  task_status_reach s1 s3 = true.
Proof. by destruct s1, s2, s3. Qed.
Lemma job_status_reach_refl s : job_status_reach s s = true.
Proof. by destruct s. Qed.
Lemma job_status_reach_trans s1 s2 s3 :
  job_status_reach s1 s2 = true → job_status_reach s2 s3 = true →
  job_status_reach s1 s3 = true.
Proof. by destruct s1, s2, s3. Qed.

(** ** Rows and databases *)

(** [t'] is a later version of the row [t]. *)
Record task_reach (t t' : TaskModel) : Prop := {
  tr_job : tm_job_id t' = tm_job_id t;
  tr_stage : tm_stage t' = tm_stage t;
  tr_engine : tm_engine_id t' = tm_engine_id t;
  tr_deps : tm_dependencies t' = tm_dependencies t;
  tr_config : tm_config t' = tm_config t;
  tr_required : tm_required t' = tm_required t;
  tr_max : tm_max_retries t' = tm_max_retries t;
  tr_retries : tm_retries t ≤ tm_retries t';
  tr_status : task_status_reach (tm_status t) (tm_status t') = true;
}.

#[export] Instance task_reach_pre : PreOrder task_reach.
Proof.
  split.
  - intros t. split; [done..|]. apply task_status_reach_refl.
  - intros t1 t2 t3 [] []. split; try congruence; [lia|].
    by eapply task_status_reach_trans.
Qed.

Definition has_tasks (job_id : UUID) (d : Db) : Prop :=
  ∃ k t, db_tasks d !! k = Some t ∧ tm_job_id t = job_id.

(** Columns of a job that are written once, with its row. *)
Definition j_columns (j : JobModel) : dict json * option timestamp := (j_parameters j, j_purge_after j).

(** [j'] is a later version of the row [j]; the status of a job only moves
    forward once the job has tasks. *)
Definition job_reach (tasks : Prop) (j j' : JobModel) : Prop :=
  j_tenant_id j' = j_tenant_id j ∧ j_columns j' = j_columns j ∧
  (tasks → job_status_reach (j_status j) (j_status j') = true).

Record db_reach (d d' : Db) : Prop := {
  dr_tasks : ∀ k t, db_tasks d !! k = Some t →
    ∃ t', db_tasks d' !! k = Some t' ∧ task_reach t t';
  dr_jobs : ∀ k j, db_jobs d !! k = Some j →
    ∃ j', db_jobs d' !! k = Some j' ∧ job_reach (has_tasks k d) j j';
}.

Lemma has_tasks_reach k d d' : db_reach d d' → has_tasks k d → has_tasks k d'.
Proof.
  intros Hr (k' & t & Ht & <-). destruct (dr_tasks _ _ Hr _ _ Ht) as (t' & Ht' & Hr').
  exists k', t'. split; [done|]. by destruct Hr'.
Qed.

#[export] Instance db_reach_pre : PreOrder db_reach.
Proof.
  split.
  - intros d. split; [by intros k t Ht; exists t|].
    intros k j Hj. exists j. split_and!; try done. split_and!; [done..|].
    intros _. apply job_status_reach_refl.
  - intros d1 d2 d3 H1 H2. split.
    + intros k t Ht. destruct (dr_tasks _ _ H1 _ _ Ht) as (t2 & Ht2 & Hr1).
      destruct (dr_tasks _ _ H2 _ _ Ht2) as (t3 & Ht3 & Hr2).
      exists t3. split; [done|]. by etrans.
    + intros k j Hj. destruct (dr_jobs _ _ H1 _ _ Hj) as (j2 & Hj2 & Ht1 & Hp1 & Hs1).
      destruct (dr_jobs _ _ H2 _ _ Hj2) as (j3 & Hj3 & Ht2 & Hp2 & Hs2).
      exists j3. split; [done|]. split_and!; try congruence. intros Hh.
      eapply job_status_reach_trans; [by apply Hs1|].
      apply Hs2. by eapply has_tasks_reach.
Qed.

Definition is_completed (d : Db) (k : UUID) : Prop :=
  ∃ t, db_tasks d !! k = Some t ∧ tm_status t = TCompleted.

Record db_inv (d : Db) : Prop := {
  inv_task_key : ∀ k t, db_tasks d !! k = Some t → tm_id t = k;
  inv_job_key : ∀ k j, db_jobs d !! k = Some j → j_id j = k;
  inv_retries : ∀ k t, db_tasks d !! k = Some t → tm_retries t ≤ tm_max_retries t;
  inv_deps : ∀ k t, db_tasks d !! k = Some t → tm_status t ∈ [TReady; TRunning] →
    ∀ dep, dep ∈ tm_dependencies t → is_completed d dep;
  inv_unique : ∀ k1 k2 t1 t2, db_tasks d !! k1 = Some t1 → db_tasks d !! k2 = Some t2 →
    tm_job_id t1 = tm_job_id t2 → tm_stage t1 = tm_stage t2 → k1 = k2;
  inv_purge : ∀ k j, db_jobs d !! k = Some j → j_purge_after j = None;
}.

Lemma is_completed_reach d d' k : db_reach d d' → is_completed d k → is_completed d' k.
Proof.
  intros Hr (t & Ht & Hs). destruct (dr_tasks _ _ Hr _ _ Ht) as (t' & Ht' & Hr').
  exists t'. split; [done|]. destruct Hr' as [_ _ _ _ _ _ _ _ Hst].
  rewrite Hs in Hst. by apply bool_decide_eq_true in Hst.
Qed.

(** ** Worlds *)

Record good (w : world) : Prop := {
  good_db : db_inv (w_db w);
  good_disk : db_inv (w_disk w);
  good_reach : db_reach (w_disk w) (w_db w);
}.

(** Along [step] a good world stays good, and both views move forward. *)
Definition step (w w' : world) : Prop :=
  good w → good w' ∧ db_reach (w_disk w) (w_disk w') ∧ db_reach (w_db w) (w_db w').

(** The same, for handlers that roll back: only the committed view. *)
Definition disk_step (w w' : world) : Prop :=
  good w → good w' ∧ db_reach (w_disk w) (w_disk w').

#[export] Instance step_pre : PreOrder step.
Proof.
  split; [by intros w Hg|]. intros w1 w2 w3 H1 H2 Hg.
  destruct (H1 Hg) as (Hg2 & ? & ?), (H2 Hg2) as (Hg3 & ? & ?). split_and!; [done|by etrans..].
Qed.
#[export] Instance disk_step_pre : PreOrder disk_step.
Proof.
  split; [by intros w Hg|]. intros w1 w2 w3 H1 H2 Hg.
  destruct (H1 Hg) as (Hg2 & ?), (H2 Hg2) as (Hg3 & ?). split; [done|by etrans].
Qed.

Lemma step_disk_step w w' : step w w' → disk_step w w'.
Proof. intros H Hg. destruct (H Hg) as (? & ? & ?). done. Qed.

(** Worlds that differ in neither view of the database, in the clock, nor in
    the rate-limit keys: what queueing and publishing do. *)
Record io (w w' : world) : Prop := {
  io_db : w_db w' = w_db w;
  io_disk : w_disk w' = w_disk w;
  io_now : w_now w' = w_now w;
  io_jobs : r_jobs (w_redis w') = r_jobs (w_redis w);
  io_decremented : r_decremented (w_redis w') = r_decremented (w_redis w);
}.

#[export] Instance io_pre : PreOrder io.
Proof. split; [done|]. intros w1 w2 w3 [] []. split; congruence. Qed.

Lemma same_db_step w w' : w_db w' = w_db w → w_disk w' = w_disk w → step w w'.
Proof. intros Hd Hk [??]. split_and!; [split|..]; by rewrite ?Hd, ?Hk. Qed.

Lemma io_step w w' : io w w' → step w w'.
Proof. intros []. by apply same_db_step. Qed.

#[export] Instance io_budget : BudgetFree io.
Proof. by intros w b _. Qed.
#[export] Instance step_budget : BudgetFree step.
Proof. intros w b _. by apply same_db_step. Qed.
#[export] Instance disk_step_budget : BudgetFree disk_step.
Proof. intros w b _. apply step_disk_step. by apply same_db_step. Qed.

Lemma rel_io_step {A} (m : M A) : rel io m → rel step m.
Proof. apply rel_mono, io_step. Qed.

Lemma rel_step_disk {A} (m : M A) : rel step m → rel disk_step m.
Proof. apply rel_mono, step_disk_step. Qed.

#[export] Hint Resolve rel_tick : steps.

(** ** Queueing and publishing touch no row *)

(** An effect that leaves the database and the rate-limit keys alone. *)
Ltac io_effect := effect_step; by split.

Lemma publish_io e : rel io (publish_event e).
Proof. unfold publish_event. steps; io_effect. Qed.

Lemma ensure_stream_group_io q : rel io (ensure_stream_group q).
Proof. unfold ensure_stream_group. effect_step. by case_match. Qed.
#[export] Hint Resolve publish_io ensure_stream_group_io : steps.

Lemma add_task_io q t j s : rel io (add_task q t j s).
Proof. unfold add_task, now. steps. io_effect. Qed.

Lemma add_task_once_io q t j s k : rel io (add_task_once q t j s k).
Proof.
  unfold add_task_once, now. steps. effect_step.
  unfold enqueue_once. by destruct (set_nx _ _ _ _ _) as [d []].
Qed.
#[export] Hint Resolve add_task_io add_task_once_io : steps.

Section queue.
Context `{E : Env}.

Lemma queue_task_io task pr md key : rel io (queue_task task pr md key).
Proof.
  unfold queue_task, enqueue_task, now, write_task_request, _load_job_artifact_index, lift_py.
  destruct (wait_policy _) as [behavior timeout]. steps; io_effect.
Qed.

Lemma decrement_step j t : rel step (_decrement_concurrent_jobs j t).
Proof.
  unfold _decrement_concurrent_jobs, now. steps; effect_step.
  - destruct (set_nx _ _ _ _ _). by apply same_db_step.
  - destruct (add_counter _ _ _ _). by apply same_db_step.
  - by apply same_db_step.
Qed.

Lemma queue_task_step task pr md key : rel step (queue_task task pr md key).
Proof. apply rel_io_step, queue_task_io. Qed.

Lemma publish_step e : rel step (publish_event e).
Proof. apply rel_io_step, publish_io. Qed.

Lemma redis_step f : rel step (redis f).
Proof. effect_step. by apply same_db_step. Qed.

Lemma s3_step f g : rel step (effect_ (λ w, set_s3 (f w) (g w) w)).
Proof. effect_step. by apply same_db_step. Qed.
End queue.
#[export] Hint Resolve queue_task_io decrement_step queue_task_step publish_step redis_step
  s3_step : steps.

(** ** Writing rows *)

Lemma db_put_task_reach d t t' :
  db_tasks d !! tm_id t' = Some t → task_reach t t' → db_reach d (db_put_task t' d).
Proof.
  intros Ht Hr. split; cbn.
  - intros k x Hx. destruct (decide (tm_id t' = k)) as [<-|Hk].
    + rewrite lookup_insert_eq. exists t'. split; [done|]. congruence.
    + rewrite lookup_insert_ne by done. by exists x.
  - intros k j Hj. exists j. split_and!; try done. split_and!; [done..|].
    intros _. apply job_status_reach_refl.
Qed.

Lemma db_put_task_inv d t t' :
  db_inv d → db_tasks d !! tm_id t' = Some t → task_reach t t' →
  tm_retries t' ≤ tm_max_retries t' →
  (tm_status t' ∈ [TReady; TRunning] → ∀ dep, dep ∈ tm_dependencies t' → is_completed d dep) →
  db_inv (db_put_task t' d).
Proof.
  intros Hi Ht Hr Hn Hd. pose proof (db_put_task_reach d t t' Ht Hr) as Hdr.
  assert (∀ k x, <[tm_id t' := t']> (db_tasks d) !! k = Some x →
    (k = tm_id t' ∧ x = t') ∨ (k ≠ tm_id t' ∧ db_tasks d !! k = Some x)) as Hl.
  { intros k x. destruct (decide (tm_id t' = k)) as [<-|Hk].
    - rewrite lookup_insert_eq. intros [= <-]. by left.
    - rewrite lookup_insert_ne by done. intros. right. by split. }
  split; cbn.
  - intros k x [[-> ->]|[_ Hx]]%Hl; [done|]. by eapply inv_task_key.
  - apply inv_job_key, Hi.
  - intros k x [[-> ->]|[_ Hx]]%Hl; [done|]. by eapply inv_retries.
  - intros k x Hx Hs dep Hdep. eapply is_completed_reach; [exact Hdr|].
    apply Hl in Hx as [[-> ->]|[_ Hx]]; [by apply Hd|]. by eapply inv_deps.
  - intros k1 k2 t1 t2 Hx1%Hl Hx2%Hl Hj Hs. destruct Hr.
    destruct Hx1 as [[-> ->]|[_ Hx1]], Hx2 as [[-> ->]|[_ Hx2]];
      [done|eapply (inv_unique _ Hi)..]; eauto; congruence.
  - apply Hi.
Qed.

Lemma put_task_step w t t' :
  db_tasks (w_db w) !! tm_id t' = Some t → task_reach t t' →
  tm_retries t' ≤ tm_max_retries t' →
  (tm_status t' ∈ [TReady; TRunning] →
     ∀ dep, dep ∈ tm_dependencies t' → is_completed (w_db w) dep) →
  step w (set_db (db_put_task t' (w_db w)) w).
Proof.
  intros Ht Hr Hn Hd [Hdb Hdisk Hreach].
  pose proof (db_put_task_reach _ _ _ Ht Hr). split_and!; [split|..]; cbn; try done.
  - by eapply db_put_task_inv.
  - by etrans.
Qed.

Lemma db_put_job_reach d j j' :
  db_jobs d !! j_id j' = Some j → job_reach (has_tasks (j_id j') d) j j' →
  db_reach d (db_put_job j' d).
Proof.
  intros Hj Hr. split; cbn; [by intros k t Ht; exists t|].
  intros k x Hx. destruct (decide (j_id j' = k)) as [<-|Hk].
  - rewrite lookup_insert_eq. exists j'. split; [done|]. by simplify_eq.
  - rewrite lookup_insert_ne by done. exists x. split; [done|]. split_and!; [done..|].
    intros _. apply job_status_reach_refl.
Qed.

Lemma db_put_job_inv d j' : db_inv d → j_purge_after j' = None → db_inv (db_put_job j' d).
Proof.
  intros Hi Hp. split; cbn; try apply Hi.
  - intros k x. destruct (decide (j_id j' = k)) as [<-|Hk].
    + rewrite lookup_insert_eq. by intros [= <-].
    + rewrite lookup_insert_ne by done. apply Hi.
  - intros k x. destruct (decide (j_id j' = k)) as [<-|Hk].
    + rewrite lookup_insert_eq. by intros [= <-].
    + rewrite lookup_insert_ne by done. apply Hi.
Qed.

(** A row that keeps its fixed columns has no purge date. *)
Lemma columns_purge d j j' :
  db_inv d → db_jobs d !! j_id j' = Some j → j_columns j' = j_columns j → j_purge_after j' = None.
Proof. intros Hi Hj [= _ ->]. by apply (inv_purge d Hi (j_id j')). Qed.

Lemma put_job_step w j j' :
  db_jobs (w_db w) !! j_id j' = Some j → job_reach (has_tasks (j_id j') (w_db w)) j j' →
  step w (set_db (db_put_job j' (w_db w)) w).
Proof.
  intros Hj Hr [Hdb Hdisk Hreach]. pose proof (db_put_job_reach _ _ _ Hj Hr).
  split_and!; [split|..]; cbn; try done; [|by etrans].
  apply db_put_job_inv; [done|]. eapply columns_purge; [exact Hdb|exact Hj|apply Hr].
Qed.

Lemma put_artifacts_step w a : step w (set_db (db_put_artifacts a (w_db w)) w).
Proof.
  intros [[] Hdisk Hreach].
  assert (db_reach (w_db w) (db_put_artifacts a (w_db w))) as Hr.
  { split; cbn; [by intros k t Ht; exists t|]. intros k j Hj. exists j.
    split_and!; [done..|]. split_and!; [done..|]. intros _. apply job_status_reach_refl. }
  split_and!; [split|..]; try done; [by etrans].
Qed.

Lemma commit_step : rel step commit.
Proof.
  unfold commit. effect_step. intros [Hdb Hdisk Hreach].
  split_and!; [by split|done..].
Qed.
#[export] Hint Resolve commit_step : steps.

(** The key of a row is its identifier. *)
Lemma task_key w k t : good w → db_tasks (w_db w) !! k = Some t → tm_id t = k.
Proof. intros [Hi _ _]. by apply inv_task_key. Qed.

Lemma job_key w k j : good w → db_jobs (w_db w) !! k = Some j → j_id j = k.
Proof. intros [Hi _ _]. by apply inv_job_key. Qed.

(** To relate a world it may be assumed good. *)
Lemma rel_at_good {A} w (m : M A) : (good w → rel_at step w m) → rel_at step w m.
Proof. intros H Hg. by apply H. Qed.

Lemma tm_update_reach m st err n ready started completed :
  tm_retries m ≤ n → task_status_reach (tm_status m) st = true →
  task_reach m (tm_update m st err n ready started completed).
Proof. by split. Qed.

(** Writing an update of the current row of a task. *)
Lemma put_update_step w m st err n ready started completed :
  db_tasks (w_db w) !! tm_id m = Some m → tm_retries m ≤ n → n ≤ tm_max_retries m →
  task_status_reach (tm_status m) st = true →
  (st ∈ [TReady; TRunning] → ∀ dep, dep ∈ tm_dependencies m → is_completed (w_db w) dep) →
  rel_at step w (put_task (tm_update m st err n ready started completed)).
Proof. intros Hm Hn Hx Hs Hd. eapply put_task_step; eauto using tm_update_reach. Qed.

(** ... where the new status is neither READY nor RUNNING. *)
Lemma put_end_step w m st err ready started completed :
  good w → db_tasks (w_db w) !! tm_id m = Some m → st ∉ [TReady; TRunning] →
  task_status_reach (tm_status m) st = true →
  rel_at step w (put_task (tm_update m st err (tm_retries m) ready started completed)).
Proof.
  intros [Hi _ _] Hm Hst Hs. apply put_update_step; try done. by eapply inv_retries.
Qed.

(** Writing an update of the current row of a job. *)
Lemma put_job_update_step w j st dur err started completed stats pii uri :
  db_jobs (w_db w) !! j_id j = Some j → job_status_reach (j_status j) st = true →
  rel_at step w (put_job (j_set j st dur err started completed stats pii uri)).
Proof. intros Hj Hs. eapply put_job_step; cbn; eauto. by split. Qed.

(** ** What a run that succeeds did *)

(** The session's view is untouched. *)
Definition same_session (w w' : world) : Prop := w_db w' = w_db w.
#[export] Instance same_session_pre : PreOrder same_session.
Proof. unfold same_session. split; [done|]. intros ???. congruence. Qed.
#[export] Instance same_session_budget : BudgetFree same_session.
Proof. done. Qed.

Lemma io_same_session w w' : io w w' → same_session w w'.
Proof. by intros []. Qed.

Lemma commit_same : rel same_session commit.
Proof. unfold commit. by effect_step. Qed.
Lemma redis_same f : rel same_session (redis f).
Proof. by effect_step. Qed.

Lemma draw_uuids_ok `{Env} {A} f (used : A → nat) w w' x :
  draw_uuids f used w = (w', Ok x) →
  f (λ i, fresh_uuid (w_uuids w + i)) = Ok x ∧ w' = set_uuids (w_uuids w + used x) w.
Proof.
  unfold draw_uuids. cbn. unfold mbind, M_bind, gets, lift, modify.
  destruct (f _) as [y|e]; [|done]. by intros [= <- <-].
Qed.

Lemma draw_uuids_step `{Env} {A} f (used : A → nat) : rel step (draw_uuids f used).
Proof.
  unfold draw_uuids. steps. intros w. unfold rel_at. by apply same_db_step.
Qed.
#[export] Hint Resolve draw_uuids_step : steps.

Lemma insert_task_ok m w w' r :
  insert_task m w = (w', Ok r) →
  db_tasks (w_db w) !! tm_id m = None ∧ w' = set_db (db_put_task m (w_db w)) w.
Proof.
  unfold insert_task. intros (d & w1 & [= <- <-] & H)%bind_ok.
  destruct (db_tasks (w_db w) !! tm_id m); [done|]. destruct (existsb _ _); [done|].
  by injection H as <-.
Qed.

(** After a successful insertion every row is there as it was built, and the
    other rows are unchanged. *)
Lemma insert_tasks_ok key ts w w' r :
  insert_tasks key ts w = (w', Ok r) →
  w_disk w' = w_disk w ∧ db_jobs (w_db w') = db_jobs (w_db w) ∧
  (∀ t, t ∈ ts → db_tasks (w_db w') !! t_id t = Some (model_of_task key t)) ∧
  (∀ k m, db_tasks (w_db w) !! k = Some m → db_tasks (w_db w') !! k = Some m).
Proof.
  unfold insert_tasks. revert w. induction ts as [|t ts IH]; intros w; cbn.
  - intros [= <- _]. split_and!; [done..| |done]. intros t Ht. inversion Ht.
  - intros (a & w1 & [Hnew ->]%insert_task_ok & H)%bind_ok.
    apply IH in H as (Hd & Hj & Hts & Hold). cbn in *.
    assert (∀ k m, db_tasks (w_db w) !! k = Some m → db_tasks (w_db w') !! k = Some m) as Hk.
    { intros k m Hm. apply Hold. rewrite lookup_insert_ne; [done|]. congruence. }
    split_and!; [done..| |done].
    intros x [->|Hx]%elem_of_cons; [|by apply Hts]. apply Hold. by rewrite lookup_insert_eq.
Qed.

(** ** Handlers along [step] *)

(** Reads the state, or runs a part whose relation is known. *)
Ltac at_gets := apply (rel_at_gets step); cbv beta.
Ltac at_bind := apply rel_at_bind; [typeclasses eauto| |].

Section handlers_step.
Context `{E : Env}.

Lemma fail_job_step w job e :
  db_jobs (w_db w) !! j_id job = Some job → rel_at step w (fail_job job e).
Proof.
  intros Hj. unfold fail_job, now. at_gets. at_bind.
  - apply put_job_update_step; [done|by destruct (j_status job)].
  - intros _ w' _. apply rel_at_rel, commit_step.
Qed.

Lemma fail_job_and_publish_step w job e :
  db_jobs (w_db w) !! j_id job = Some job → rel_at step w (fail_job_and_publish job e).
Proof.
  intros Hj. unfold fail_job_and_publish. at_bind; [by apply fail_job_step|].
  intros _ w' _. apply rel_at_rel. steps.
Qed.

Lemma fail_current_job_step job_id e :
  rel step (fail_current_job job_id e).
Proof.
  intros w. apply rel_at_good. intros Hg. unfold fail_current_job, get_job. at_gets.
  destruct (db_jobs (w_db w) !! job_id) as [job|] eqn:Hj; [|by apply rel_at_rel; steps].
  apply fail_job_and_publish_step. by rewrite (job_key _ _ _ Hg Hj).
Qed.

Lemma ensure_failed_step task e : rel step (_ensure_job_failed_side_effects task e).
Proof.
  intros w. apply rel_at_good. intros Hg. unfold _ensure_job_failed_side_effects, get_job. at_gets.
  destruct (db_jobs (w_db w) !! tm_job_id task) as [job|] eqn:Hj; [|by apply rel_at_rel; steps].
  at_bind; [|intros _ w' _; apply rel_at_rel; steps].
  unfold when. case_match; [|by apply rel_at_rel; steps].
  apply fail_job_step. by rewrite (job_key _ _ _ Hg Hj).
Qed.

Lemma cancel_tasks_step from tasks :
  (∀ s, s ∈ from → s ∈ [TPending; TReady]) → rel step (cancel_tasks from tasks).
Proof.
  intros Hfrom. unfold cancel_tasks. apply rel_for_each; [typeclasses eauto|]. intros x w.
  apply rel_at_good. intros Hg. unfold cancel_task, get_task. at_gets.
  destruct (db_tasks (w_db w) !! tm_id x) as [m|] eqn:Hm; [|by apply rel_at_rel; steps].
  unfold when. case_bool_decide as Hs; [|by apply rel_at_rel; steps].
  apply Hfrom in Hs. apply put_end_step; [done| | |].
  - by rewrite (task_key _ _ _ Hg Hm).
  - set_solver.
  - clear -Hs. destruct (tm_status m); try done; set_solver.
Qed.

Lemma check_cancellation_step job_id : rel step (_check_job_cancellation_complete job_id).
Proof.
  intros w. apply rel_at_good. intros Hg. unfold _check_job_cancellation_complete, get_job. at_gets.
  destruct (db_jobs (w_db w) !! job_id) as [job|] eqn:Hj; [|by apply rel_at_rel; steps].
  case_bool_decide as Hs; cbn [negb]; [|by apply rel_at_rel; steps].
  unfold job_tasks. at_gets. case_match; [by apply rel_at_rel; steps|].
  unfold now. at_gets. at_bind; [|intros _ w' _; apply rel_at_rel; steps].
  apply put_job_update_step; [by rewrite (job_key _ _ _ Hg Hj)|by rewrite Hs].
Qed.

Lemma insert_task_step m :
  tm_status m = TPending → tm_retries m ≤ tm_max_retries m → rel step (insert_task m).
Proof.
  intros Hs Hn w. apply rel_at_good. intros [Hi Hdisk Hreach]. unfold insert_task. at_gets.
  destruct (db_tasks (w_db w) !! tm_id m) eqn:Hm; [by apply rel_at_rel; steps|].
  destruct (existsb _ _) eqn:Hu; [by apply rel_at_rel; steps|].
  assert (∀ k x, db_tasks (w_db w) !! k = Some x → tm_job_id x = tm_job_id m →
    tm_stage x ≠ tm_stage m) as Hfresh.
  { intros k x Hx Hj Heq. apply not_true_iff_false in Hu. apply Hu, existsb_exists.
    exists x. split; [|by apply String.eqb_eq]. apply list_elem_of_In. unfold tasks_of.
    apply elem_of_filter_b. split; [|by apply N.eqb_eq].
    apply list_elem_of_fmap. exists (k, x). split; [done|]. by apply elem_of_map_to_list. }
  assert (db_reach (w_db w) (db_put_task m (w_db w))) as Hr.
  { split; cbn.
    - intros k x Hx. exists x. split; [|done]. rewrite lookup_insert_ne; [done|congruence].
    - intros k j Hj. exists j. split; [done|]. split_and!; [done..|].
      intros _. apply job_status_reach_refl. }
  assert (∀ k x, <[tm_id m := m]> (db_tasks (w_db w)) !! k = Some x →
    (k = tm_id m ∧ x = m) ∨ (k ≠ tm_id m ∧ db_tasks (w_db w) !! k = Some x)) as Hl.
  { intros k x. destruct (decide (tm_id m = k)) as [<-|Hk].
    - rewrite lookup_insert_eq. intros [= <-]. by left.
    - rewrite lookup_insert_ne by done. intros. right. by split. }
  intros _. split_and!; [split; [|done|]|..]; [|by etrans|done|done].
  split; cbn.
  - intros k x [[-> ->]|[_ Hx]]%Hl; [done|]. by eapply (inv_task_key _ Hi).
  - apply inv_job_key, Hi.
  - intros k x [[-> ->]|[_ Hx]]%Hl; [done|]. by eapply (inv_retries _ Hi).
  - intros k x Hx Hst dep Hdep. eapply is_completed_reach; [exact Hr|].
    apply Hl in Hx as [[-> ->]|[_ Hx]]; [rewrite Hs in Hst; set_solver|]. by eapply (inv_deps _ Hi).
  - intros k1 k2 t1 t2 [[-> ->]|[_ Hx1]]%Hl [[-> ->]|[_ Hx2]]%Hl Hj Hstage;
      [done| | |by eapply (inv_unique _ Hi)].
    + by destruct (Hfresh _ _ Hx2).
    + by destruct (Hfresh _ _ Hx1).
  - apply Hi.
Qed.

Lemma for_each_Forall {A} R `{!PreOrder R} (P : A → Prop) (f : A → M ()) l :
  Forall P l → (∀ x, P x → rel R (f x)) → rel R (for_each f l).
Proof.
  induction 1 as [|x l Hx Hl IH]; intros Hf; cbn; [by apply rel_ret|].
  apply rel_bind; auto.
Qed.

Lemma insert_tasks_step key tasks :
  Forall (λ t, t_status t = TPending ∧ t_retries t ≤ t_max_retries t) tasks →
  rel step (insert_tasks key tasks).
Proof.
  intros Ht. eapply for_each_Forall; [typeclasses eauto|exact Ht|].
  intros t [Hs Hn]. by apply insert_task_step.
Qed.
End handlers_step.
#[export] Hint Resolve ensure_failed_step check_cancellation_step fail_current_job_step : steps.

Section post_step.
Context `{E : Env}.

Lemma post_tasks_fresh u job ids ts :
  build_post_processing_tasks u job ids = Ok ts →
  Forall (λ t, t_status t = TPending ∧ t_retries t ≤ t_max_retries t) ts ∧
  ∃ t ts', ts = t :: ts' ∧ t_dependencies t = [].
Proof.
  unfold build_post_processing_tasks. destruct (truthy _); intros H; inv_ok;
    (split; [repeat constructor; cbn; lia|by eexists _, _]).
Qed.

Lemma schedule_post_processing_step job : rel step (schedule_post_processing job).
Proof.
  intros w. unfold schedule_post_processing. at_bind; [apply draw_uuids_step|].
  intros tasks w1 [Hts _]%draw_uuids_ok.
  destruct (build_post_processing_tasks _ _ _) as [ts|] eqn:Hb; [|done].
  injection Hts as <-. apply post_tasks_fresh in Hb as (Hf & first & rest & -> & Hdeps).
  at_bind; [by apply insert_tasks_step|].
  intros [] w2 (_ & _ & Hin & _)%insert_tasks_ok.
  specialize (Hin first ltac:(set_solver)).
  at_bind; [apply commit_step|]. intros [] w3 H3.
  apply (rel_run _ _ _ _ _ commit_same) in H3.
  unfold now. at_gets.
  at_bind; [apply redis_step|]. intros [] w4 H4. apply (rel_run _ _ _ _ _ (redis_same _)) in H4.
  at_bind; [apply redis_step|]. intros [] w5 H5. apply (rel_run _ _ _ _ _ (redis_same _)) in H5.
  assert (db_tasks (w_db w5) !! t_id first = Some (model_of_task "input_bindings" first)) as Hrow
    by (unfold same_session in *; by rewrite H5, H4, H3).
  apply Forall_cons in Hf as [[Hst Hret] _].
  unfold get_task. at_gets. rewrite Hrow.
  at_bind.
  - at_bind; [|intros _ w' _; apply commit_step].
    apply put_update_step; cbn; [done|done|done|by rewrite Hst|].
    intros _ dep. rewrite Hdeps. intros Hdep. inversion Hdep.
  - intros _ w6 _. apply rel_at_rel. unfold job_tasks. steps.
    apply rel_catch; [typeclasses eauto|steps|]. unfold except_any.
    intros e m' He. destruct e; simplify_eq; steps.
Qed.

Lemma put_pii_step job_id n uri :
  rel step (job ← get_job job_id;
            match job with
            | Some j => put_job (j_set_pii n uri j) ;; commit
            | None => mret ()
            end).
Proof.
  intros w. apply rel_at_good. intros Hg. unfold get_job. at_gets.
  destruct (db_jobs (w_db w) !! job_id) as [j|] eqn:Hj; [|by apply rel_at_rel; steps].
  at_bind; [|intros _ w' _; apply commit_step].
  apply put_job_update_step; [by rewrite (job_key _ _ _ Hg Hj)|apply job_status_reach_refl].
Qed.
#[local] Hint Resolve put_pii_step : steps.

Lemma update_transcript_step job_id : rel step (update_transcript_with_pii job_id).
Proof. unfold update_transcript_with_pii, job_tasks. steps. Qed.
End post_step.
#[export] Hint Resolve schedule_post_processing_step update_transcript_step : steps.

Section completion_step.
Context `{E : Env}.

(** Updating the current row of a job, when the status may reach the new one. *)
Lemma with_job_step job_id (f : JobModel → JobModel) :
  (∀ j, j_id (f j) = j_id j ∧ j_tenant_id (f j) = j_tenant_id j ∧
        j_columns (f j) = j_columns j) →
  ∀ w, (∀ j, db_jobs (w_db w) !! job_id = Some j →
             job_status_reach (j_status j) (j_status (f j)) = true) →
  rel_at step w (o ← get_job job_id;
                 match o with Some j => put_job (f j) | None => mret () end).
Proof.
  intros Hf w Hs. apply rel_at_good. intros Hg. unfold get_job. at_gets.
  destruct (db_jobs (w_db w) !! job_id) as [j|] eqn:Hj; [|by apply rel_at_rel; steps].
  destruct (Hf j) as (Hi & Ht & Hp). eapply put_job_step.
  - by rewrite Hi, (job_key _ _ _ Hg Hj).
  - split_and!; [done..|]. intros _. by apply Hs.
Qed.

Lemma set_failed_step job_id e : rel step (set_job_status job_id JFailed e).
Proof.
  intros w. apply (with_job_step job_id (λ j, j_update j JFailed e _ _)); [done|].
  intros j _. by destruct (j_status j).
Qed.

Lemma stamp_step job_id t : rel step (set_completed_at job_id t).
Proof.
  intros w. apply (with_job_step job_id (λ j, j_update j (j_status j) _ _ _)); [done|].
  intros j _. apply job_status_reach_refl.
Qed.

Lemma mark_artifacts_step job_id t : rel step (mark_owner_artifacts_available job_id t).
Proof. intros w. apply put_artifacts_step. Qed.

Lemma stats_step job_id : rel step (_populate_job_result_stats job_id).
Proof.
  intros w. apply rel_at_good. intros Hg. unfold _populate_job_result_stats, get_job.
  at_gets. at_gets. case_match; [|by apply rel_at_rel; steps].
  case_match eqn:Hj; [|by apply rel_at_rel; steps]. case_match; [|by apply rel_at_rel; steps].
  apply put_job_update_step; [by rewrite (job_key _ _ _ Hg Hj)|apply job_status_reach_refl].
Qed.

Lemma assemble_step job tasks : rel step (_assemble_linear_transcript job tasks).
Proof. unfold _assemble_linear_transcript, lift_py. steps. Qed.
#[local] Hint Resolve set_failed_step stamp_step mark_artifacts_step stats_step assemble_step
  : steps.

Lemma rel_except_any R `{!PreOrder R} {A} (m : M A) k :
  rel R m → (∀ e, rel R (k e)) → rel R (catch m (except_any k)).
Proof.
  intros Hm Hk. apply rel_catch; [typeclasses eauto|done|].
  intros e m'. unfold except_any. destruct e; intros; simplify_eq; apply Hk.
Qed.

Lemma rel_except_engine R `{!PreOrder R} {A} (m : M A) k :
  rel R m → (∀ e, rel R (k e)) → rel R (catch m (except_engine k)).
Proof.
  intros Hm Hk. apply rel_catch; [typeclasses eauto|done|].
  intros e m'. unfold except_engine. destruct e; intros; simplify_eq; apply Hk.
Qed.

Lemma decide_outcome_step w job tasks b :
  db_jobs (w_db w) !! j_id job = Some job → job_terminal (j_status job) = false →
  rel_at step w (decide_outcome job tasks b).
Proof.
  intros Hj Hs. unfold decide_outcome. destruct b; [apply rel_at_rel; steps|].
  at_bind.
  - apply (with_job_step (j_id job) (λ j, j_update j JCompleted _ _ _)); [done|].
    intros j Hj'. rewrite Hj in Hj'. injection Hj' as <-. by destruct (j_status job).
  - intros _ w' _. apply rel_at_rel. apply (rel_except_any step); intros; steps.
Qed.

Lemma check_completion_step job_id : rel step (_check_job_completion job_id).
Proof.
  intros w. apply rel_at_good. intros Hg. unfold _check_job_completion, job_tasks, get_job.
  at_gets. case_match; [by apply rel_at_rel; steps|]. at_gets.
  destruct (db_jobs (w_db w) !! job_id) as [job|] eqn:Hj; [|by apply rel_at_rel; steps].
  destruct (job_terminal (j_status job)) eqn:Hs; [by apply rel_at_rel; steps|].
  at_bind; [apply decide_outcome_step; [by rewrite (job_key _ _ _ Hg Hj)|done]|].
  intros _ w1 _. apply rel_at_rel. unfold now. steps.
  all: try (apply (rel_except_any step); intros; steps).
Qed.
End completion_step.
#[export] Hint Resolve check_completion_step : steps.

(** ** The handlers *)

Lemma rel_at_for_while {A} R `{!PreOrder R} (C : world → Prop) (f : A → M bool) l w :
  (∀ w w', C w → R w w' → C w') → (∀ x w, C w → rel_at R w (f x)) →
  C w → rel_at R w (for_while f l).
Proof.
  intros HC Hf. revert w. induction l as [|x l IH]; intros w Hw; cbn; [apply rel_ret; done|].
  apply rel_at_bind; [done|by apply Hf|]. intros go w' Hr.
  assert (R w w') as Hww by (specialize (Hf x w Hw); unfold rel_at in Hf; by rewrite Hr in Hf).
  destruct go; [by eapply IH, HC|by apply rel_ret].
Qed.

Section events_step.
Context `{E : Env}.

Lemma complete_task_step w task :
  good w → db_tasks (w_db w) !! tm_id task = Some task →
  rel_at step w (complete_task task).
Proof.
  intros Hg Ht. unfold complete_task. case_bool_decide as Hs; [by apply rel_at_rel; steps|].
  unfold now. at_gets. at_bind; [|intros _ w' _; apply commit_step].
  apply put_end_step; [done..|set_solver|]. destruct (tm_status task); try done; set_solver.
Qed.

Lemma record_enrichment_step task : rel step (record_enrichment task).
Proof.
  unfold record_enrichment, mark_enrichment_status, get_task, now,
    check_post_processing_completion.
  steps. apply (rel_except_any step); intros; steps.
Qed.

Lemma update_audio_duration_step task : rel step (update_audio_duration task).
Proof.
  intros w. apply rel_at_good. intros Hg. unfold update_audio_duration, get_job.
  case_match; [|by apply rel_at_rel; steps]. at_gets.
  destruct (db_jobs (w_db w) !! _) as [job|] eqn:Hj; [|by apply rel_at_rel; steps].
  destruct (j_audio_duration job); [by apply rel_at_rel; steps|].
  at_bind; [by apply rel_at_rel; unfold lift_py; steps|].
  intros d w' Hd. assert (w' = w) as -> by (unfold lift_py, lift in Hd; congruence).
  destruct d as [v|]; [|by apply rel_at_rel; steps].
  at_bind; [|intros _ w' _; apply commit_step].
  apply put_job_update_step; [by rewrite (job_key _ _ _ Hg Hj)|apply job_status_reach_refl].
Qed.

Definition all_completed (ids : list UUID) (w : world) : Prop :=
  good w ∧ ∀ k, k ∈ ids → is_completed (w_db w) k.

Lemma all_completed_step ids w w' : all_completed ids w → step w w' → all_completed ids w'.
Proof.
  intros [Hg Hi] Hs. destruct (Hs Hg) as (Hg' & _ & Hr). split; [done|].
  intros k Hk. eapply is_completed_reach; eauto.
Qed.

Lemma queue_dependent_step job_id tasks ids x w :
  all_completed ids w → rel_at step w (queue_dependent job_id tasks ids x).
Proof.
  intros [Hg Hids]. unfold queue_dependent, get_task. at_gets.
  destruct (db_tasks (w_db w) !! tm_id x) as [m|] eqn:Hm; [|by apply rel_at_rel; steps].
  case_bool_decide as Hs; cbn [negb]; [|by apply rel_at_rel; steps].
  destruct (forallb _ _) eqn:Hd; cbn [negb]; [|by apply rel_at_rel; steps].
  unfold now. at_gets. at_bind.
  - apply put_update_step; [by rewrite (task_key _ _ _ Hg Hm)|done| |by rewrite Hs|].
    + destruct Hg as [Hi _ _]. by eapply inv_retries.
    + intros _ dep Hdep. apply Hids. rewrite forallb_forall in Hd.
      rewrite list_elem_of_In in Hdep. by apply Hd, bool_decide_eq_true in Hdep.
  - intros _ w1 _. apply rel_at_rel. apply rel_bind; [typeclasses eauto|apply commit_step|].
    intros _. apply (rel_except_engine step); intros; steps.
Qed.

Lemma advance_job_step job_id : rel step (advance_job job_id).
Proof.
  intros w. apply rel_at_good. intros Hg. unfold advance_job, job_tasks, get_job.
  at_gets. at_gets. case_match.
  - apply rel_at_rel. apply rel_bind; [typeclasses eauto| |intros; steps].
    apply cancel_tasks_step. set_solver.
  - at_bind; [|intros b w' _; apply rel_at_rel; steps].
    apply (rel_at_for_while _ (all_completed (completed_ids_of (tasks_of job_id (w_db w))))).
    + apply all_completed_step.
    + intros x w'. apply queue_dependent_step.
    + split; [done|]. intros k Hk. unfold completed_ids_of in Hk.
      change (map ?f ?l) with (f <$> l) in Hk.
      apply list_elem_of_fmap in Hk as (t & -> & Ht).
      apply elem_of_filter_b in Ht as [Ht Hst]. apply bool_decide_eq_true in Hst.
      apply elem_of_filter_b in Ht as [Ht _].
      apply list_elem_of_fmap in Ht as ([k t'] & -> & Ht). apply elem_of_map_to_list in Ht.
      exists t'. split; [|done]. cbn. by rewrite (task_key _ _ _ Hg Ht).
Qed.

Lemma handle_task_completed_step task_id : rel step (handle_task_completed task_id).
Proof.
  intros w. apply rel_at_good. intros Hg. unfold handle_task_completed, get_task. at_gets.
  destruct (db_tasks (w_db w) !! task_id) as [task|] eqn:Ht; [|by apply rel_at_rel; steps].
  at_bind; [apply complete_task_step; [done|by rewrite (task_key _ _ _ Hg Ht)]|].
  intros _ w' _. apply rel_at_rel. pose proof (record_enrichment_step task).
  pose proof (update_audio_duration_step task). pose proof (advance_job_step (tm_job_id task)).
  steps.
Qed.
#[local] Hint Resolve handle_task_completed_step : steps.

Lemma handle_task_started_step task_id : rel step (handle_task_started task_id).
Proof.
  intros w. apply rel_at_good. intros Hg. unfold handle_task_started, get_task. at_gets.
  destruct (db_tasks (w_db w) !! task_id) as [m|] eqn:Hm; [|by apply rel_at_rel; steps].
  case_bool_decide as Hs; [|by apply rel_at_rel; steps].
  unfold now. at_gets. at_bind; [|intros _ w' _; apply commit_step].
  destruct Hg as [Hi ? ?]. assert (tm_id m = task_id) as Hk by (by eapply (inv_task_key _ Hi)).
  apply put_update_step; [by rewrite Hk|done|by eapply (inv_retries _ Hi)|by rewrite Hs|].
  intros _. eapply inv_deps; [exact Hi|exact Hm|rewrite Hs; set_solver].
Qed.

(** The retry of a task whose current row is [task]; what follows the error of
    the queue rewrites it. *)
Lemma ensure_retry_enqueued_step w task :
  good w → db_tasks (w_db w) !! tm_id task = Some task → tm_status task = TReady →
  rel_at step w (_ensure_retry_enqueued task).
Proof.
  intros Hg Ht Hs. unfold _ensure_retry_enqueued, job_tasks. at_gets.
  unfold rel_at, catch.
  set (q := queue_task _ _ _ _). pose proof (queue_task_io (task_of_model task)
    (_gather_previous_responses (tm_dependencies task) (tasks_of (tm_job_id task) (w_db w)))
    None (Some (_retry_enqueue_dedupe_key (tm_id task) (tm_retries task))) w) as Hq.
  fold q in Hq. unfold rel_at in Hq. destruct (q w) as [w1 r]. cbn [fst] in Hq.
  pose proof (io_step _ _ Hq) as Hstep. destruct r as [a|e]; [done|].
  destruct e; cbn; try done.
  trans w1; [done|]. destruct (Hstep Hg) as (Hg1 & _ & _).
  assert (db_tasks (w_db w1) !! tm_id task = Some task) as Ht1 by (by rewrite (io_db _ _ Hq)).
  refine (_ : rel_at step w1 _). at_bind; [|intros _ w' _; apply rel_at_rel; steps].
  apply put_end_step; [done..|set_solver|by rewrite Hs].
Qed.

(** A final status written to the current row, then [k]. *)
Lemma end_then_step w task st err done (k : M ()) :
  good w → db_tasks (w_db w) !! tm_id task = Some task → st ∉ [TReady; TRunning] →
  task_status_reach (tm_status task) st = true → rel step k →
  rel_at step w (put_task (tm_update task st err (tm_retries task) (tm_ready_at task)
                             (tm_started_at task) done) ;; commit ;; k).
Proof.
  intros Hg Ht Hst Hs Hk. at_bind; [by apply put_end_step|].
  intros _ w' _. apply rel_at_rel. steps.
Qed.

Lemma handle_task_failed_step task_id error : rel step (handle_task_failed task_id error).
Proof.
  intros w. apply rel_at_good. intros Hg. unfold handle_task_failed, get_task. at_gets.
  destruct (db_tasks (w_db w) !! task_id) as [task|] eqn:Ht; [|by apply rel_at_rel; steps].
  assert (db_tasks (w_db w) !! tm_id task = Some task) as Ht' by (by rewrite (task_key _ _ _ Hg Ht)).
  destruct (tm_status task) eqn:Hs; try (apply rel_at_rel; steps; fail).
  - by apply ensure_retry_enqueued_step.
  - unfold now. at_gets. case_match eqn:Hr.
    + at_bind.
      * apply put_update_step; [done|lia| |by rewrite Hs|].
        -- apply andb_true_iff in Hr as [_ Hr]. apply Nat.ltb_lt in Hr. lia.
        -- intros _. destruct Hg as [Hi _ _]. eapply inv_deps; [exact Hi|exact Ht|].
           rewrite Hs. set_solver.
      * intros [] w1 H1. at_bind; [apply commit_step|]. intros [] w2 H2.
        apply (rel_run _ _ _ _ _ commit_same) in H2. injection H1 as <-.
        apply rel_at_good. intros Hg2.
        apply ensure_retry_enqueued_step; [done| |done].
        unfold same_session in H2. rewrite H2. cbn. by rewrite lookup_insert_eq.
    + case_match; apply end_then_step; try done; try set_solver; try (by rewrite Hs); [|steps].
      unfold mark_enrichment_status, now. steps.
Qed.

Lemma handle_task_wait_timeout_step task_id error :
  rel step (handle_task_wait_timeout task_id error).
Proof.
  intros w. apply rel_at_good. intros Hg. unfold handle_task_wait_timeout, get_task. at_gets.
  destruct (db_tasks (w_db w) !! task_id) as [task|] eqn:Ht; [|by apply rel_at_rel; steps].
  assert (db_tasks (w_db w) !! tm_id task = Some task) as Ht' by (by rewrite (task_key _ _ _ Hg Ht)).
  destruct (tm_status task) eqn:Hs; try (apply rel_at_rel; steps; fail);
    unfold now; at_gets; case_match; apply end_then_step;
    try done; try set_solver; try (by rewrite Hs); steps.
Qed.

Lemma handle_job_cancel_requested_step job_id : rel step (handle_job_cancel_requested job_id).
Proof.
  unfold handle_job_cancel_requested, mark_job_cancelled, job_tasks, now. steps.
  apply cancel_tasks_step. set_solver.
Qed.
End events_step.

(** ** [handle_job_created] *)

(** Worlds whose session has the same tasks. *)
Definition same_tasks (w w' : world) : Prop := db_tasks (w_db w') = db_tasks (w_db w).
#[export] Instance same_tasks_pre : PreOrder same_tasks.
Proof. unfold same_tasks. split; [done|]. intros ???. congruence. Qed.
#[export] Instance same_tasks_budget : BudgetFree same_tasks.
Proof. done. Qed.

Lemma publish_same_tasks e : rel same_tasks (publish_event e).
Proof. unfold publish_event. steps; by effect_step. Qed.
Lemma commit_same_tasks : rel same_tasks commit.
Proof. unfold commit. by effect_step. Qed.
Lemma redis_same_tasks f : rel same_tasks (redis f).
Proof. by effect_step. Qed.
Lemma put_job_same_tasks j : rel same_tasks (put_job j).
Proof. done. Qed.
#[export] Hint Resolve publish_same_tasks commit_same_tasks redis_same_tasks put_job_same_tasks
  : steps.

Lemma decrement_same_tasks `{Env} j t : rel same_tasks (_decrement_concurrent_jobs j t).
Proof.
  unfold _decrement_concurrent_jobs, now. steps; effect_step.
  - by destruct (set_nx _ _ _ _ _).
  - by destruct (add_counter _ _ _ _).
Qed.
#[export] Hint Resolve decrement_same_tasks : steps.

Lemma fail_current_same_tasks `{Env} j e : rel same_tasks (fail_current_job j e).
Proof. unfold fail_current_job, fail_job_and_publish, fail_job, get_job, now. steps. Qed.
#[export] Hint Resolve fail_current_same_tasks : steps.

(** Along [ready_step] a task that is pending or ready stays one of the two. *)
Definition waiting_row (k : UUID) (deps : list UUID) (w : world) : Prop :=
  ∃ m, db_tasks (w_db w) !! k = Some m ∧ tm_dependencies m = deps ∧
       tm_status m ∈ [TPending; TReady].

Definition ready_step (w w' : world) : Prop :=
  step w w' ∧ ∀ k deps, waiting_row k deps w → waiting_row k deps w'.

#[export] Instance ready_step_pre : PreOrder ready_step.
Proof.
  split; [by split|]. intros w1 w2 w3 [H1 K1] [H2 K2]. split; [by etrans|eauto].
Qed.

Lemma same_tasks_ready w w' : step w w' → same_tasks w w' → ready_step w w'.
Proof.
  intros Hs Ht. split; [done|]. intros k deps (m & Hm & Hd & Hst). exists m.
  unfold same_tasks in Ht. by rewrite Ht.
Qed.

Lemma rel_ready {A} (m : M A) : rel step m → rel same_tasks m → rel ready_step m.
Proof. intros H1 H2 w. apply same_tasks_ready; [apply H1|apply H2]. Qed.

Lemma tasks_of_nil job_id d : tasks_of job_id d = [] → ¬ has_tasks job_id d.
Proof.
  intros Hn (k & t & Ht & Hj). assert (t ∈ tasks_of job_id d) as Hin; [|rewrite Hn in Hin; inversion Hin].
  apply elem_of_filter_b. split; [|by apply N.eqb_eq].
  apply list_elem_of_fmap. exists (k, t). split; [done|]. by apply elem_of_map_to_list.
Qed.

Section created_step.
Context `{E : Env}.

Lemma queue_initial_step job_id md task w :
  good w → waiting_row (t_id task) (t_dependencies task) w →
  rel_at ready_step w (queue_initial_task job_id md task).
Proof.
  intros Hg (m & Hm & Hd & Hs). unfold queue_initial_task.
  destruct (t_dependencies task) eqn:Hdeps; [|by apply rel_at_rel, rel_ret; typeclasses eauto].
  unfold get_task, now. apply (rel_at_gets ready_step). rewrite Hm. apply (rel_at_gets ready_step).
  apply rel_at_bind; [typeclasses eauto| |].
  - apply rel_at_bind; [typeclasses eauto| |intros _ w' _; apply rel_at_rel, rel_ready; steps].
    split.
    + apply put_update_step; [by rewrite (task_key _ _ _ Hg Hm)|done| | |].
      * destruct Hg as [Hi _ _]. by eapply inv_retries.
      * destruct (tm_status m); try done; set_solver.
      * rewrite Hd. intros _ dep Hdep. inversion Hdep.
    + intros k deps (m' & Hm' & Hd' & Hs'). unfold waiting_row. cbn.
      destruct (decide (tm_id m = k)) as [<-|Hk].
      * rewrite (task_key _ _ _ Hg Hm) in Hm'. assert (m' = m) as -> by congruence.
        rewrite lookup_insert_eq. eexists. split; [done|]. split; [done|]. cbn. set_solver.
      * rewrite lookup_insert_ne by done. by exists m'.
  - intros _ w1 _. apply rel_at_rel, rel_ready.
    + apply (rel_except_engine step); intros; steps.
    + apply rel_catch; [typeclasses eauto| |].
      * apply rel_bind; [typeclasses eauto| |intros; steps].
        eapply rel_mono; [|apply queue_task_io]. intros w2 w3 [Hio _ _ _ _].
        unfold same_tasks. by rewrite Hio.
      * intros e m'. destruct e; cbn; intros; simplify_eq; steps.
Qed.

Lemma queue_initial_loop_step job_id md tasks w :
  good w → (∀ t, t ∈ tasks → waiting_row (t_id t) (t_dependencies t) w) →
  rel_at step w (for_while (queue_initial_task job_id md) tasks).
Proof.
  intros Hg Hr. assert (rel_at ready_step w (for_while (queue_initial_task job_id md) tasks))
    as [Hs _]; [|done].
  revert w Hg Hr. induction tasks as [|t tasks IH]; intros w Hg Hr; cbn;
    [apply rel_ret; typeclasses eauto|].
  assert (rel_at ready_step w (queue_initial_task job_id md t)) as Hq
    by (apply queue_initial_step; [done|apply Hr; set_solver]).
  apply rel_at_bind; [typeclasses eauto|done|]. intros go w' Hw'. unfold rel_at in Hq.
  rewrite Hw' in Hq. destruct Hq as [Hst Hrow]. destruct (Hst Hg) as (Hg' & _).
  destruct go; [|apply rel_ret; typeclasses eauto].
  apply IH; [done|]. intros x Hx. apply Hrow, Hr. set_solver.
Qed.

Lemma build_tasks_step w job :
  db_jobs (w_db w) !! j_id job = Some job → rel_at step w (build_tasks job).
Proof.
  intros Hj. unfold build_tasks, now. at_gets. unfold rel_at, catch.
  set (d := draw_uuids _ _). pose proof (draw_uuids_step (λ uuid4, lift_dag
    (build_task_dag (w_now w) registry_records catalog model_rows (speech_regions_env settings)
       uuid4 (j_id job) (j_audio_uri job) (j_parameters job))) length w) as Hd.
  fold d in Hd. unfold rel_at in Hd. unfold fmap, M_fmap.
  assert (∀ w1 e, d w = (w1, Raise e) → w1 = w) as Hraise.
  { intros w1 e. unfold d, draw_uuids, mbind, M_bind, gets, lift, modify.
    destruct (lift_dag _); [done|]. by intros [= <- _]. }
  destruct (d w) as [w1 [ts|e]]; [done|]. assert (w1 = w) as -> by (by eapply Hraise).
  destruct e; cbn; try done. refine (_ : rel_at step w _).
  at_bind; [by apply fail_job_and_publish_step|]. intros _ w' _. apply rel_at_rel. steps.
Qed.

Lemma build_tasks_ok w job w' ts :
  build_tasks job w = (w', Ok (Some ts)) →
  Forall (fresh_task (j_id job)) ts ∧ w' = set_uuids (w_uuids w + length ts) w.
Proof.
  unfold build_tasks, now, catch. unfold mbind, M_bind, fmap, M_fmap, gets.
  destruct (draw_uuids _ _ _) as [w1 [ts'|e]] eqn:Hd.
  - intros [= <- <-]. apply draw_uuids_ok in Hd as [Hb ->]. split; [|done].
    unfold lift_dag in Hb. destruct (build_task_dag _ _ _ _ _ _ _ _ _) eqn:Hb'; [|done].
    injection Hb as <-. by eapply build_task_dag_fresh.
  - destruct e; try done. destruct (fail_job_and_publish _ _ _) as [w2 []]; done.
Qed.

Lemma rollback_step : rel disk_step rollback.
Proof. intros w [Hi Hk Hr]. unfold rollback; cbn. by split; [split|]. Qed.

Lemma rel_at_catch {A} R `{!PreOrder R} w (m : M A) h :
  rel_at R w m → (∀ e m', h e = Some m' → rel R m') → rel_at R w (catch m h).
Proof.
  intros Hm Hh. unfold rel_at, catch in *. destruct (m w) as [w' [a|e]]; [done|].
  destruct (h e) as [m'|] eqn:He; [|done]. etrans; [exact Hm|]. by eapply Hh.
Qed.

(** Marking a job running is no step of its status when the job was done, but
    it is one of a job without committed tasks. *)
Lemma put_running_step w j j' :
  db_jobs (w_db w) !! j_id j' = Some j → j_tenant_id j' = j_tenant_id j →
  j_columns j' = j_columns j → ¬ has_tasks (j_id j') (w_disk w) →
  rel_at disk_step w (put_job j').
Proof.
  intros Hj Ht Hp Hno [Hi Hk Hr]. cbn. split; [|done].
  split; [by apply db_put_job_inv; [|eapply columns_purge; [exact Hi|exact Hj|done]]|done|].
  split; cbn; [apply (dr_tasks _ _ Hr)|].
  intros k x Hx. destruct (dr_jobs _ _ Hr _ _ Hx) as (x' & Hx' & Htx & Hpx & Hsx).
  destruct (decide (j_id j' = k)) as [<-|Hne].
  - rewrite lookup_insert_eq. exists j'. split; [done|].
    rewrite Hj in Hx'. injection Hx' as <-. split_and!; [congruence|by rewrite Hp|done].
  - rewrite lookup_insert_ne by done. by exists x'.
Qed.

(** Saving the tasks of a job that had none. *)
Lemma save_tasks_step w job ts :
  db_jobs (w_db w) !! j_id job = Some job → ¬ has_tasks (j_id job) (w_disk w) →
  Forall (fresh_task (j_id job)) ts →
  rel_at disk_step w (save_tasks job ts).
Proof.
  intros Hj Hno Hts. unfold save_tasks, now. apply (rel_at_gets disk_step).
  apply rel_at_catch; [typeclasses eauto| |].
  - apply rel_at_bind; [typeclasses eauto| |].
    + apply step_disk_step. apply insert_tasks_step. eapply Forall_impl; [exact Hts|].
      intros t (_ & ? & -> & -> & _). cbn. split; [done|lia].
    + intros [] w1 (Hd & Hjobs & _ & _)%insert_tasks_ok.
      apply rel_at_bind; [typeclasses eauto| |].
      * apply (put_running_step _ job); [by rewrite Hjobs|done|done|by rewrite Hd].
      * intros _ w2 _. apply rel_at_rel, rel_step_disk. steps.
  - intros e m'. pose proof rollback_step. destruct e; intros; simplify_eq; steps.
Qed.

Lemma save_tasks_ok w job ts w' :
  Forall (fresh_task (j_id job)) ts → save_tasks job ts w = (w', Ok true) →
  ∀ t, t ∈ ts → waiting_row (t_id t) (t_dependencies t) w'.
Proof.
  intros Hts. unfold save_tasks, now. intros (now & w0 & [= <- <-] & H)%bind_ok.
  unfold catch in H. cbv beta in H.
  match type of H with (match ?x with _ => _ end = _) =>
    destruct x as [w1 [b|e]] eqn:Hm end.
  - injection H as -> ->. apply bind_ok in Hm as ([] & w2 & Hi & Hm).
    apply bind_ok in Hm as ([] & w3 & Hp & Hm). injection Hp as <-.
    apply bind_ok in Hm as ([] & w4 & Hc & Hm). injection Hm as <-.
    apply insert_tasks_ok in Hi as (_ & _ & Hrows & _).
    apply (rel_run _ _ _ _ _ commit_same_tasks) in Hc. unfold same_tasks in Hc. cbn in Hc.
    intros t Ht. exists (model_of_task "request_bindings" t). rewrite Hc.
    split; [by apply Hrows|]. split; [done|]. rewrite Forall_forall in Hts.
    destruct (Hts t Ht) as (_ & Hst & _). cbn. rewrite Hst. set_solver.
  - destruct e; try done.
Qed.

Lemma handle_job_created_step job_id : rel disk_step (handle_job_created job_id).
Proof.
  intros w. assert (good w → rel_at disk_step w (handle_job_created job_id)) as H;
    [|intros Hg; by apply H]. intros Hg.
  pose proof (rel_step_disk (mret ()) (rel_ret step ())) as Hret.
  unfold handle_job_created, get_job, job_tasks. apply (rel_at_gets disk_step).
  destruct (db_jobs (w_db w) !! job_id) as [job|] eqn:Hj; [|apply Hret].
  pose proof (job_key _ _ _ Hg Hj) as Hk. subst job_id.
  case_bool_decide; [apply Hret|]. apply (rel_at_gets disk_step).
  destruct (tasks_of (j_id job) (w_db w)) eqn:Hno; [|apply Hret].
  apply tasks_of_nil in Hno.
  apply rel_at_bind; [typeclasses eauto|by apply step_disk_step, build_tasks_step|].
  intros [ts|] w1 Hb; [|apply Hret]. apply build_tasks_ok in Hb as [Hfresh ->].
  set (w1 := set_uuids _ w).
  assert (rel_at disk_step w1 (save_tasks job ts)) as Hsave.
  { apply save_tasks_step; [done| |done]. intros Hh. apply Hno.
    destruct Hg as [_ _ Hr]. by eapply has_tasks_reach. }
  apply rel_at_bind; [typeclasses eauto|done|]. intros saved w2 Hw2.
  unfold rel_at in Hsave. rewrite Hw2 in Hsave. destruct (Hsave ltac:(by destruct Hg)) as [Hg2 _].
  destruct saved; [|apply Hret]. cbn [when].
  apply rel_at_bind; [typeclasses eauto| |intros _ w3 _; apply Hret].
  apply step_disk_step, queue_initial_loop_step; [done|]. by eapply save_tasks_ok.
Qed.
End created_step.
