(* ===== verification/Recovery.v ===== *)
(** * What recovery preserves

    The scanner and the reconciler keep the invariants of the rows, and the
    reconciler acknowledges messages without losing work.  Theorems about
    [Scanner] and [Reconciler] that quantify over every world and every point
    at which the process may die. *)

From S2P Require Import Prelude PyValue Models Catalog Registry Selector Dag Store.
From S2P Require Import Effects Streams Transcript Scheduler Groups Engine PostProcessor Handlers.
From S2P Require Import Scanner Reconciler Invariants.

(** ** Loops and sessions along a relation *)

Lemma rel_count_true R `{!PreOrder R} {A} (f : A → M bool) l :
  (∀ x, rel R (f x)) → rel R (count_true f l).
Proof.
  intros Hf. induction l as [|x l IH]; cbn; [by apply rel_ret|].
  apply rel_bind; [done|auto|]. intros b. apply rel_bind; [done..|]. intros n. by apply rel_ret.
Qed.

(** A session starts from what is on disk and leaves nothing else. *)
Lemma rel_in_session {A} (m : M A) : rel disk_step m → rel disk_step (in_session m).
Proof.
  intros Hm. unfold in_session. apply rel_bind; [typeclasses eauto|apply rollback_step|].
  intros _. apply rel_bind; [typeclasses eauto|done|]. intros a.
  apply rel_bind; [typeclasses eauto|apply rollback_step|]. intros _. apply rel_ret. typeclasses eauto.
Qed.

Section rows.
Context `{Env}.

Lemma lock_step key instance : rel step (_acquire_leader_lock key instance).
Proof.
  unfold _acquire_leader_lock, now. steps. effect_step.
  destruct (set_nx _ _ _ _ _). by apply same_db_step.
Qed.

Lemma unlock_step key instance : rel step (_release_leader_lock key instance).
Proof.
  unfold _release_leader_lock, now. steps.
  apply (rel_except_any step); intros; steps.
Qed.
#[local] Hint Resolve lock_step unlock_step : steps.

Lemma leader_round_step key instance body :
  rel disk_step body → rel disk_step (leader_round key instance body).
Proof.
  intros Hb. unfold leader_round.
  pose proof (rel_step_disk _ (lock_step key instance)).
  pose proof (rel_step_disk _ (unlock_step key instance)). steps.
Qed.

(** ** The scanner *)

Lemma fail_running_step id error : rel step (fail_running id error).
Proof.
  intros w. apply rel_at_good. intros Hg. unfold fail_running, get_task. at_gets.
  destruct (db_tasks (w_db w) !! id) as [task|] eqn:Ht; [|by apply rel_at_rel; steps].
  case_bool_decide as Hs; cbn [negb]; [|by apply rel_at_rel; steps].
  unfold now. at_gets. at_bind; [|intros _ w' _; apply rel_at_rel; steps].
  apply put_end_step; [done|by rewrite (task_key _ _ _ Hg Ht)|set_solver|by rewrite Hs].
Qed.

Lemma fail_task_step id error : rel disk_step (_fail_task id error).
Proof.
  unfold _fail_task. destruct id as [id|]; [|steps].
  pose proof (rel_in_session _ (rel_step_disk _ (fail_running_step id error))).
  pose proof (λ e, rel_step_disk _ (publish_step e)). steps.
Qed.

Lemma scan_all_step q t pending : rel disk_step (scan_all q t pending).
Proof.
  pose proof fail_task_step. induction pending as [|p pending IH]; cbn; [steps|].
  unfold scan_pending, is_engine_alive, _check_task_timeout. steps.
Qed.

Lemma expire_wait_step task md t : rel step (expire_wait task md t).
Proof. unfold expire_wait, _clear_waiting_task_marker, delete_message, now. steps. Qed.

Lemma scan_waiting_step t id : rel step (scan_waiting t id).
Proof.
  pose proof expire_wait_step.
  unfold scan_waiting, _clear_waiting_task_marker, get_task, claimed_meanwhile,
    _is_stream_message_pending, now. steps.
Qed.

Lemma scan_step : rel disk_step _scan.
Proof.
  pose proof scan_all_step. unfold _scan, _scan_stream, _scan_waiting_engine_timeouts, discover_streams, get_pending, now.
  steps. apply rel_in_session, rel_step_disk, rel_count_true; [typeclasses eauto|].
  apply scan_waiting_step.
Qed.

(** ** The reconciler *)

Context `{Recovery}.

(** Only the row of task [k] changes. *)
Definition same_but (k : UUID) (w w' : world) : Prop :=
  ∀ k', k' ≠ k → db_tasks (w_db w') !! k' = db_tasks (w_db w) !! k'.
#[local] Instance same_but_pre k : PreOrder (same_but k).
Proof. split; [done|]. intros w1 w2 w3 H1 H2 k' Hk. by rewrite H2, H1. Qed.
#[local] Instance same_but_budget k : BudgetFree (same_but k).
Proof. done. Qed.

Lemma settle_same_but pel task : rel (same_but (tm_id task)) (settle_orphan pel task).
Proof.
  assert (∀ t', tm_id t' = tm_id task → rel (same_but (tm_id task)) (put_task t')) as Hp.
  { intros t' Ht w k' Hk. cbn. by rewrite lookup_insert_ne by congruence. }
  assert (∀ e, rel (same_but (tm_id task)) (publish_event e)) as He.
  { intros e. unfold publish_event. steps; by effect_step. }
  unfold settle_orphan, now. steps.
Qed.

Lemma settle_step pel task w :
  good w → db_tasks (w_db w) !! tm_id task = Some task → tm_status task = TRunning →
  rel_at step w (settle_orphan pel task).
Proof.
  intros Hg Ht Hs. unfold settle_orphan. case_bool_decide; [by apply rel_at_rel; steps|].
  unfold now. destruct (_check_output_exists_in_s3 _ _) as [[]|]; [..|by apply rel_at_rel; steps];
    at_gets; (at_bind; [|intros _ w' _; apply rel_at_rel; steps]);
    (apply put_end_step; [done..|set_solver|by rewrite Hs]).
Qed.

Lemma settle_all_step pel l w :
  NoDup (map tm_id l) → good w →
  (∀ t, t ∈ l → db_tasks (w_db w) !! tm_id t = Some t ∧ tm_status t = TRunning) →
  rel_at step w (count_true (settle_orphan pel) l).
Proof.
  revert w. induction l as [|task l IH]; intros w Hnd Hg Hl; cbn; [by apply rel_at_rel; steps|].
  apply NoDup_cons in Hnd as [Hni Hnd]. destruct (Hl task) as [Ht Hs]; [left|].
  at_bind; [by apply settle_step|]. intros b w1 H1.
  pose proof (settle_step pel task w Hg Ht Hs) as Hst. unfold rel_at in Hst. rewrite H1 in Hst.
  destruct (Hst Hg) as [Hg1 _]. apply (rel_run _ _ _ _ _ (settle_same_but pel task)) in H1.
  at_bind; [|intros n w2 _; apply rel_at_rel; steps]. apply IH; [done..|].
  intros t Htl. destruct (Hl t) as [Htt Hts]; [by right|]. split; [|done].
  rewrite H1; [done|]. intros E. apply Hni. rewrite <-E. apply list_elem_of_fmap. by exists t.
Qed.

Lemma rows_NoDup d :
  db_inv d → NoDup (map tm_id (map_to_list (db_tasks d)).*2).
Proof.
  intros Hi. replace (map tm_id (map_to_list (db_tasks d)).*2) with (map_to_list (db_tasks d)).*1;
    [apply NoDup_fst_map_to_list|].
  rewrite map_map. apply map_ext_in. intros [k t] Hkt%list_elem_of_In%elem_of_map_to_list.
  symmetry. by eapply inv_task_key.
Qed.

Lemma rows_current d t :
  db_inv d → t ∈ (map_to_list (db_tasks d)).*2 → db_tasks d !! tm_id t = Some t.
Proof.
  intros Hi ([k t'] & -> & Hkt%elem_of_map_to_list)%list_elem_of_fmap. cbn.
  by rewrite (inv_task_key _ Hi k t').
Qed.

Lemma NoDup_map_filter {A B} (f : A → B) (p : A → bool) l :
  NoDup (map f l) → NoDup (map f (List.filter p l)).
Proof.
  induction l as [|x l IH]; cbn; [done|]. intros [Hx Hl]%NoDup_cons.
  destruct (p x); cbn; [|by apply IH]. apply NoDup_cons. split; [|by apply IH].
  intros Hin. apply Hx. apply list_elem_of_fmap in Hin as (y & -> & Hy).
  apply elem_of_filter_b in Hy as [Hy _]. apply list_elem_of_fmap. by exists y.
Qed.

Lemma orphaned_db_step pel : rel step (_reconcile_orphaned_db_tasks pel).
Proof.
  intros w. apply rel_at_good. intros Hg. unfold _reconcile_orphaned_db_tasks, now. at_gets. at_gets.
  at_bind; [|intros n w' _; apply rel_at_rel; steps].
  apply settle_all_step; [apply NoDup_map_filter, rows_NoDup, Hg|done|].
  intros t [Ht Hp]%elem_of_filter_b. apply andb_true_iff in Hp as [Hs%bool_decide_eq_true _].
  split; [by apply rows_current; [apply Hg|]|done].
Qed.

Lemma ack_orphans_step stage : rel step (ack_orphans stage).
Proof.
  destruct stage as [q pending]. unfold ack_orphans. steps.
  apply rel_count_true; [typeclasses eauto|]. intros id.
  unfold ack_if_over, ack_entry, get_pending, ack_task. steps.
Qed.

Lemma add_task_step q t j s : rel step (add_task q t j s).
Proof. apply rel_io_step, add_task_io. Qed.
#[local] Hint Resolve add_task_step : steps.

Lemma recover_stage_step stage : rel step (recover_stage stage).
Proof.
  destruct stage as [q pending]. unfold recover_stage. steps.
  apply rel_count_true; [typeclasses eauto|]. intros [id p].
  unfold recover_stale, get_task, is_engine_alive, ack_task. steps.
Qed.

Lemma recover_ready_step t task : rel step (recover_ready t task).
Proof.
  unfold recover_ready, requeue_ready, _is_stream_message_pending, _is_stream_message_delivered.
  steps.
Qed.

Lemma finish_job_step job_id : rel step (finish_job job_id).
Proof.
  unfold finish_job. apply (rel_except_any step); intros; steps.
Qed.

Lemma pending_of_step l : rel step (pending_of l).
Proof. unfold pending_of, get_pending. induction l; cbn; steps. Qed.

Lemma reconcile_step : rel disk_step _reconcile.
Proof.
  pose proof (λ l, rel_step_disk _ (pending_of_step l)).
  pose proof (λ l, rel_in_session _ (rel_step_disk _ (orphaned_db_step l))).
  assert (∀ l, rel disk_step (in_session (_reconcile_orphaned_pel_entries l))).
  { intros l. apply rel_in_session, rel_step_disk. unfold _reconcile_orphaned_pel_entries.
    pose proof ack_orphans_step. steps. }
  assert (∀ l, rel disk_step (in_session (_reconcile_stale_ready_tasks l))).
  { intros l. apply rel_in_session, rel_step_disk. unfold _reconcile_stale_ready_tasks.
    pose proof recover_stage_step. steps. }
  assert (rel disk_step (in_session _reconcile_ready_tasks_with_consumed_messages)).
  { apply rel_in_session, rel_step_disk. unfold _reconcile_ready_tasks_with_consumed_messages, now.
    steps. apply rel_count_true; [typeclasses eauto|]. intros x. apply recover_ready_step. }
  assert (rel disk_step (in_session _reconcile_stuck_running_jobs)).
  { apply rel_in_session, rel_step_disk. unfold _reconcile_stuck_running_jobs, now.
    steps. apply rel_count_true; [typeclasses eauto|]. intros x. apply finish_job_step. }
  unfold _reconcile, discover_streams. steps.
Qed.
End rows.

(** ** The job's end touches no queue but to add to it *)

Section queues.
Context `{Env}.

Lemma modify_work f : (∀ w, w_redis (f w) = w_redis w) → rel work (modify f).
Proof. intros Hf w. unfold rel_at; cbn. apply same_queues_work; by rewrite Hf. Qed.

Lemma add_task_once_work q t j s k : rel work (add_task_once q t j s k).
Proof.
  unfold add_task_once, now. steps. apply rel_effect; [typeclasses eauto..|]. intros w.
  unfold enqueue_once. destruct (set_nx _ _ _ _ _) as [d []]; [|by apply same_queues_work].
  etrans; [|apply (stream_xadd_work (set_redis (put_dedupe d (w_redis w)) w))].
  by apply same_queues_work.
Qed.
#[local] Hint Resolve add_task_once_work : steps.

Ltac work_steps :=
  repeat first
    [ progress steps
    | apply (rel_except_any work); intros
    | apply (rel_except_engine work); intros
    | work_effect
    | apply modify_work; done
    | solve [apply redis_work; intros; by repeat case_match] ].

Lemma queue_task_work task pr md key : rel work (queue_task task pr md key).
Proof.
  unfold queue_task, enqueue_task, now, write_task_request, _load_job_artifact_index, lift_py.
  destruct (wait_policy _) as [behavior timeout]. work_steps.
Qed.
#[local] Hint Resolve queue_task_work : steps.

Lemma decrement_work j t : rel work (_decrement_concurrent_jobs j t).
Proof.
  unfold _decrement_concurrent_jobs, now. steps; (apply rel_effect_ || apply rel_effect);
    try typeclasses eauto; intros w; repeat case_match; simplify_eq; by apply same_queues_work.
Qed.
#[local] Hint Resolve decrement_work : steps.

Lemma insert_tasks_work key ts : rel work (insert_tasks key ts).
Proof. unfold insert_tasks, insert_task, put_task, modify_db. work_steps. Qed.

Lemma schedule_work job : rel work (schedule_post_processing job).
Proof.
  pose proof insert_tasks_work.
  unfold schedule_post_processing, draw_uuids, get_task, job_tasks, put_task, modify_db, now.
  work_steps.
Qed.
#[local] Hint Resolve schedule_work : steps.

Lemma check_completion_work job_id : rel work (_check_job_completion job_id).
Proof.
  unfold _check_job_completion, decide_outcome, set_job_status, set_completed_at,
    _populate_job_result_stats, _assemble_linear_transcript, mark_owner_artifacts_available,
    job_tasks, get_job, put_job, modify_db, lift_py, now. work_steps.
Qed.
End queues.

(** ** The reconciler loses no work *)

(** A task has a message in a queue, undelivered or pending. *)
Definition covered (queue : string) (task_id : UUID) (r : Redis) : Prop :=
  ∃ i m, held queue i m r ∧ sm_task_id m = task_id.

(** Rows and queues stay sound, streams grow, and a covered task stays covered
    until it is over. *)
Record recovered (queue : string) (task_id : UUID) (w w' : world) : Prop := {
  rv_good : good w';
  rv_ok : groups_ok (w_redis w');
  rv_reach : db_reach (w_disk w) (w_disk w');
  rv_grow : ∀ q, ∃ l, stream q (w_redis w') = stream q (w_redis w) ++ l;
  rv_cover : covered queue task_id (w_redis w) →
    covered queue task_id (w_redis w') ∨ task_over task_id (w_disk w') = true;
}.

Definition recovering (queue : string) (task_id : UUID) (w w' : world) : Prop :=
  good w → groups_ok (w_redis w) → recovered queue task_id w w'.

Lemma task_over_spec id d :
  task_over id d = true ↔ ∃ t, db_tasks d !! id = Some t ∧ tm_status t ∈ TERMINAL_TASK_STATES.
Proof.
  unfold task_over. destruct (db_tasks d !! id) as [t|]; [|naive_solver].
  rewrite bool_decide_eq_true. naive_solver.
Qed.

Lemma task_over_reach id d d' : db_reach d d' → task_over id d = true → task_over id d' = true.
Proof.
  rewrite !task_over_spec. intros Hr (t & Ht & Hs).
  destruct (dr_tasks _ _ Hr _ _ Ht) as (t' & Ht' & [_ _ _ _ _ _ _ _ Hst]).
  exists t'. split; [done|]. revert Hs Hst. unfold TERMINAL_TASK_STATES.
  destruct (tm_status t), (tm_status t'); cbn; try done; set_solver.
Qed.

Section recovering.
Context `{Env, Recovery} (queue : string) (task_id : UUID).
Abbreviation rec := (recovering queue task_id).

#[local] Instance recovering_pre : PreOrder rec.
Proof.
  split.
  - intros w Hg Ho. split; [done..| |by left]. intros q. exists []. by rewrite app_nil_r.
  - intros w1 w2 w3 H1 H2 Hg Ho. destruct (H1 Hg Ho) as [Hg2 Ho2 Hr2 Hs2 Hc2].
    destruct (H2 Hg2 Ho2) as [Hg3 Ho3 Hr3 Hs3 Hc3]. split; [done..|by etrans| |].
    + intros q. destruct (Hs2 q) as [l1 E1], (Hs3 q) as [l2 E2]. exists (l1 ++ l2).
      by rewrite E2, E1, app_assoc.
    + intros [Hc|Ht]%Hc2; [by apply Hc3|right]. by eapply task_over_reach.
Qed.

Lemma recovering_intro w w' : disk_step w w' → work w w' → rec w w'.
Proof.
  intros Hd Hw Hg Ho. destruct (Hd Hg) as [Hg' Hr]. pose proof (Hw Ho) as [Hs Ho' Hk].
  split; [done..|]. intros (i & m & Hh & Ht). left. exists i, m. split; [|done].
  by apply (work_hold queue i m w w' Hw).
Qed.

Lemma rel_recovering {A} (m : M A) : rel disk_step m → rel work m → rel rec m.
Proof. intros Hd Hw w. apply recovering_intro; [apply Hd|apply Hw]. Qed.

(** Acknowledging a message of another queue, of another task, of a task that
    is over, or of a task covered by another message. *)
Lemma ack_recovering q j w :
  (q = queue → ∀ m, stream q (w_redis w) !! j = Some m → sm_task_id m = task_id →
     task_over task_id (w_disk w) = true ∨
     ∃ i m', i ≠ j ∧ held queue i m' (w_redis w) ∧ sm_task_id m' = task_id) →
  rel_at rec w (ack_task q j).
Proof.
  intros Hj. unfold rel_at. destruct (ack_task q j w) as [w' r] eqn:Hw. cbn. intros Hg Ho.
  pose proof (rel_run _ _ _ _ _ (rel_step_disk _ (redis_step _)) Hw Hg) as [Hg' Hr].
  assert (w' = w ∨ ∃ b, w' = set_redis (set_group q (xack j (group_of q (w_redis w))) (w_redis w)) (set_budget b w))
    as Hcase.
  { revert Hw. unfold ack_task, redis, effect_, effect, tick, mbind, M_bind.
    destruct (w_budget w) as [[|n]|] eqn:Hb; cbn; intros [= <- <-]; [by left|right..]; [by eexists|].
    exists None. destruct w; cbn in *; by subst. }
  assert (∀ i m, (queue ≠ q ∨ i ≠ j) → held queue i m (w_redis w) → held queue i m (w_redis w')) as Hkeep.
  { intros i m Hne Hh. assert (q ≠ queue ∨ j ≠ i) as Hne' by naive_solver.
    pose proof (ack_hold_ne q j queue i m Hne' w (conj Ho Hh)) as Hh'. unfold rel_at in Hh'.
    rewrite Hw in Hh'. apply Hh'. }
  split; [done|destruct Hcase as [->|[b ->]]; [done|by apply ack_ok_group]|done| |].
  - intros q'. exists []. rewrite app_nil_r. by destruct Hcase as [->|[b ->]].
  - intros (i & m & Hh & Ht). destruct (decide (queue = q)) as [<-|Hq];
      [|left; exists i, m; split; [apply Hkeep|]; auto].
    destruct (decide (i = j)) as [->|Hij]; [|left; exists i, m; split; [apply Hkeep|]; auto].
    destruct (Hj eq_refl m (hd_message _ _ _ _ Hh) Ht) as [Hover|(i' & m' & Hne & Hh' & Ht')];
      [right; by eapply task_over_reach|]. left. exists i', m'. split; [apply Hkeep|]; auto.
Qed.

(** Loops whose steps rely on a condition of the world. *)
Lemma rel_at_count_cond (R F : world → world → Prop) `{!PreOrder R} (C : world → Prop)
    {A} (f : A → M bool) l w :
  C w → (∀ x w, x ∈ l → C w → rel_at R w (f x)) → (∀ x, rel F (f x)) →
  (∀ w w', F w w' → C w → C w') → rel_at R w (count_true f l).
Proof.
  intros HC Hf HF Hstable. revert w HC. induction l as [|x l IH]; intros w HC; cbn;
    [by apply rel_at_rel, rel_ret|].
  apply rel_at_bind; [done|apply Hf; [left|done]|]. intros b w1 H1.
  apply (rel_run F) in H1; [|done]. apply rel_at_bind; [done| |].
  - apply IH; [|by eapply Hstable]. intros y w2 Hy. apply Hf. by right.
  - intros n w2 _. by apply rel_at_rel, rel_ret.
Qed.

Lemma rel_at_for_each_cond (R F : world → world → Prop) `{!PreOrder R} (C : world → Prop)
    {A} (f : A → M ()) l w :
  C w → (∀ x w, x ∈ l → C w → rel_at R w (f x)) → (∀ x, rel F (f x)) →
  (∀ w w', F w w' → C w → C w') → rel_at R w (for_each f l).
Proof.
  intros HC Hf HF Hstable. revert w HC. induction l as [|x l IH]; intros w HC; cbn;
    [by apply rel_at_rel, rel_ret|].
  apply rel_at_bind; [done|apply Hf; [left|done]|]. intros [] w1 H1.
  apply (rel_run F) in H1; [|done]. apply IH; [|by eapply Hstable].
  intros y w2 Hy. apply Hf. by right.
Qed.

(** What was read of the pending entries: the tasks of their messages. *)
Definition entry_read (q : string) (p : PendingTask) (r : Redis) : Prop :=
  ∀ id, pt_task_id p = Some id →
    ∃ m, stream q r !! pt_message_id p = Some m ∧ sm_task_id m = id.

Definition sweep_ok (pel : list (string * list PendingTask)) (w : world) : Prop :=
  good w ∧ groups_ok (w_redis w) ∧
  ∀ q ps p, (q, ps) ∈ pel → p ∈ ps → entry_read q p (w_redis w).

Lemma sweep_ok_stable pel w w' : rec w w' → sweep_ok pel w → sweep_ok pel w'.
Proof.
  intros Hr (Hg & Ho & Hpel). destruct (Hr Hg Ho) as [Hg' Ho' _ Hs _]. split_and!; [done..|].
  intros q ps p Hq Hp id Hid. destruct (Hpel q ps p Hq Hp id Hid) as (m & Hm & Hmid).
  destruct (Hs q) as [l E]. exists m. split; [|done]. rewrite E. by apply lookup_app_l_Some.
Qed.

Lemma pending_tasks_read q t r p : p ∈ pending_tasks q t r → entry_read q p r.
Proof.
  unfold pending_tasks. intros (i & _ & Hp)%list_elem_of_omap id Hid. unfold pending_task in Hp.
  apply fmap_Some in Hp as (e & _ & ->). cbn in *. apply fmap_Some in Hid as (m & Hm & ->).
  exists m. split; [|done]. unfold xrange in Hm. by case_match.
Qed.

Lemma pending_of_ok l w w' pel :
  pending_of l w = (w', Ok pel) →
  w' = w ∧ ∀ q ps p, (q, ps) ∈ pel → p ∈ ps → entry_read q p (w_redis w).
Proof.
  revert pel. induction l as [|q0 l IH]; intros pel Hr; cbn in Hr.
  - injection Hr as <- <-. split; [done|]. by intros q ps p ?%elem_of_nil.
  - apply bind_ok in Hr as (ps0 & w1 & [= <- <-] & Hr).
    apply bind_ok in Hr as (pel0 & w1 & H1 & [= <- <-]). apply IH in H1 as [-> H1].
    split; [done|]. intros q ps p [[= -> ->]|Hq]%elem_of_cons Hp; [|by eapply H1].
    by apply (pending_tasks_read _ (w_now w)).
Qed.

Lemma in_session_recovering {A} (m : M A) w :
  rel_at rec (set_db (w_disk w) w) m → rel_at rec w (in_session m).
Proof.
  intros Hm. assert (rel rec rollback) as Hb.
  { apply rel_recovering; [apply rollback_step|by apply modify_work]. }
  unfold in_session. apply rel_at_bind; [typeclasses eauto|apply Hb|].
  intros [] w1 Hw1. assert (w1 = set_db (w_disk w) w) as -> by (by injection Hw1).
  apply rel_at_bind; [typeclasses eauto|done|]. intros a w2 _.
  apply rel_at_bind; [typeclasses eauto|apply Hb|]. intros _ w3 _.
  apply rel_at_rel, rel_ret. typeclasses eauto.
Qed.

(** Neither view of the database moves. *)
Definition frozen (w w' : world) : Prop := w_db w' = w_db w ∧ w_disk w' = w_disk w.
#[local] Instance frozen_pre : PreOrder frozen.
Proof. split; [done|]. intros w1 w2 w3 [] []. split; congruence. Qed.
#[local] Instance frozen_budget : BudgetFree frozen.
Proof. done. Qed.

Lemma ack_frozen q j : rel frozen (ack_task q j).
Proof. unfold ack_task. by apply rel_redis; try typeclasses eauto. Qed.
#[local] Hint Resolve ack_frozen : steps.

Lemma ack_if_over_frozen q d id : rel frozen (ack_if_over q d id).
Proof. unfold ack_if_over, ack_entry, get_pending. steps. Qed.

Lemma ack_if_over_recovering q id w :
  rel_at rec w (ack_if_over q (w_disk w) id).
Proof.
  unfold ack_if_over. destruct (task_over id (w_disk w)) eqn:Hover;
    [|apply rel_at_rel, rel_ret; typeclasses eauto].
  unfold ack_entry, get_pending. apply (rel_at_gets rec).
  destruct (find_first _ _) as [p|] eqn:Hf; [|apply rel_at_rel, rel_ret; typeclasses eauto].
  apply find_first_Some in Hf as [Hp Hid%bool_decide_eq_true].
  destruct (pending_tasks_read _ _ _ _ Hp id Hid) as (m & Hm & Hmid).
  apply rel_at_bind; [typeclasses eauto| |intros _ w1 _; apply rel_at_rel, rel_ret; typeclasses eauto].
  apply ack_recovering. intros -> m' Hm' Ht. left. congruence.
Qed.

Lemma ack_orphans_recovering stage w : w_db w = w_disk w → rel_at rec w (ack_orphans stage).
Proof.
  intros Hsync. destruct stage as [q ps]. unfold ack_orphans. apply (rel_at_gets rec). rewrite Hsync.
  apply rel_at_bind; [typeclasses eauto| |intros n w1 _; apply rel_at_rel, rel_ret; typeclasses eauto].
  apply (rel_at_count_cond rec frozen (λ w1, w_disk w1 = w_disk w)); [done| | |].
  - intros id w1 _ <-. apply ack_if_over_recovering.
  - intros id. apply ack_if_over_frozen.
  - intros w1 w2 [_ ->]. done.
Qed.

Lemma ack_orphans_frozen stage : rel frozen (ack_orphans stage).
Proof.
  destruct stage as [q ps]. unfold ack_orphans. steps.
  apply rel_count_true; [typeclasses eauto|]. apply ack_if_over_frozen.
Qed.

Lemma orphaned_entries_recovering pel w :
  w_db w = w_disk w → rel_at rec w (_reconcile_orphaned_pel_entries pel).
Proof.
  intros Hsync. unfold _reconcile_orphaned_pel_entries.
  apply (rel_at_for_each_cond rec frozen (λ w, w_db w = w_disk w)); [done| | |].
  - intros stage w1 _. apply ack_orphans_recovering.
  - apply ack_orphans_frozen.
  - intros w1 w2 [-> ->]. done.
Qed.

Lemma entries_by_task_elem ps id p :
  (id, p) ∈ entries_by_task ps → p ∈ ps ∧ pt_task_id p = Some id.
Proof.
  unfold entries_by_task. rewrite <-(app_nil_l ps) at 2.
  assert (∀ id p, (id, p) ∈ @nil (UUID * PendingTask) → p ∈ @nil PendingTask ∧ pt_task_id p = Some id) as Hnil
    by (by intros ? ? ?%elem_of_nil).
  revert Hnil. generalize (@nil PendingTask), (@nil (UUID * PendingTask)).
  induction ps as [|x ps IH]; intros seen d Hd; cbn [foldl].
  - rewrite app_nil_r. apply Hd.
  - rewrite (cons_middle x seen ps), app_assoc. apply IH. clear IH. intros id' p'. unfold add_entry.
    destruct (pt_task_id x) as [k|] eqn:Hx.
    + destruct (existsb _ _); intros Hin.
      * apply list_elem_of_fmap in Hin as ([k0 p0] & [= -> ->] & Hin).
        destruct (N.eqb_spec k0 k) as [->|]; [split; [set_solver|done]|].
        apply Hd in Hin. set_solver.
      * apply elem_of_app in Hin as [Hin|[= -> ->]%list_elem_of_singleton]; [apply Hd in Hin|]; set_solver.
    + intros Hin%Hd. set_solver.
Qed.

(** A task added to a stream is covered by its new message. *)
Lemma add_task_held q id job s w w' n :
  add_task q id job s w = (w', Ok n) → groups_ok (w_redis w) →
  stream_len q (w_redis w) ≤ n ∧ ∃ m, held q n m (w_redis w') ∧ sm_task_id m = id.
Proof.
  intros Ha Ho. unfold add_task in Ha. apply bind_ok in Ha as ([] & w1 & H1 & Ha).
  destruct (rel_run _ _ _ _ _ (ensure_stream_group_work q) H1 Ho) as [Hs Ho1 _].
  apply bind_ok in Ha as (t & w2 & [= <- <-] & Ha). apply effect_inv in Ha as [b Ha].
  cbn in Ha. injection Ha as <- <-. destruct (Hs q) as [l E]. split.
  - unfold stream_len. rewrite E, length_app. lia.
  - exists (task_message (w_now w1) id job s). split; [|done].
    destruct (Ho1 q) as [Hn _ Hd]. unfold stream_len in *. split.
    + cbn. rewrite stream_xadd, String.eqb_refl. by apply list_lookup_middle.
    + cbn. change (group_of q (xadd _ _ _)) with (group_of q (w_redis w1)). intros Hin%Hd. lia.
    + left. exact Hn.
Qed.

Lemma recover_stale_recovering pel q ps x w :
  (q, ps) ∈ pel → x ∈ entries_by_task ps → sweep_ok pel w → rel_at rec w (recover_stale q x).
Proof.
  intros Hq Hx (Hg & Ho & Hpel). destruct x as [id p].
  apply entries_by_task_elem in Hx as [Hp Hid]. unfold recover_stale.
  assert (∀ {A} (a : A) w, rel_at rec w (mret a)) as Hret
    by (intros; apply rel_at_rel, rel_ret; typeclasses eauto).
  destruct (_ <? _)%Z; [apply Hret|]. unfold get_task. apply (rel_at_gets rec).
  destruct (db_tasks (w_db w) !! id) as [task|]; [|apply Hret].
  destruct (negb _); [apply Hret|]. unfold is_engine_alive. apply (rel_at_gets rec).
  destruct (engine_alive _ _); [apply Hret|].
  apply rel_at_bind; [typeclasses eauto| |].
  { apply rel_recovering; [apply rel_step_disk, add_task_step|apply add_task_work]. }
  intros n w1 Ha. destruct (add_task_held _ _ _ _ _ _ _ Ha Ho) as (Hn & m & Hm & Hmid).
  apply (rel_run _ _ _ _ _ (add_task_work _ _ _ _)) in Ha. destruct (Ha Ho) as [Hs _ _].
  destruct (Hpel q ps p Hq Hp id Hid) as (mj & Hmj & Hmjid). destruct (Hs q) as [l E].
  apply rel_at_bind; [typeclasses eauto| |intros _ w2 _; apply Hret].
  apply ack_recovering. intros <- m' Hm' Ht. right. exists n, m. split_and!; [|done|].
  - intros ->. apply lookup_lt_Some in Hmj. unfold stream_len in Hn. lia.
  - rewrite E in Hm'. rewrite (lookup_app_l_Some _ _ _ _ Hmj) in Hm'. congruence.
Qed.

Lemma stable_rel {A} (x : M A) pel w w' r :
  rel_at rec w x → x w = (w', r) → sweep_ok pel w → sweep_ok pel w'.
Proof. intros Hx E. unfold rel_at in Hx. rewrite E in Hx. by apply sweep_ok_stable. Qed.

Lemma count_stale_recovering pel q ps l w :
  (q, ps) ∈ pel → (∀ x, x ∈ l → x ∈ entries_by_task ps) → sweep_ok pel w →
  rel_at rec w (count_true (recover_stale q) l).
Proof.
  intros Hq. revert w. induction l as [|x l IH]; intros w Hl Hw; cbn;
    [apply rel_at_rel, rel_ret; typeclasses eauto|].
  assert (rel_at rec w (recover_stale q x)) as Hx
    by (eapply recover_stale_recovering; eauto; apply Hl; left).
  apply rel_at_bind; [typeclasses eauto|exact Hx|]. intros b w1 H1.
  apply rel_at_bind; [typeclasses eauto| |intros n w2 _; apply rel_at_rel, rel_ret; typeclasses eauto].
  apply IH; [intros y Hy; apply Hl; by right|]. by eapply stable_rel.
Qed.

Lemma stale_tasks_recovering pel w :
  sweep_ok pel w → rel_at rec w (_reconcile_stale_ready_tasks pel).
Proof.
  unfold _reconcile_stale_ready_tasks.
  assert (∀ l, (∀ x, x ∈ l → x ∈ pel) → sweep_ok pel w → rel_at rec w (for_each recover_stage l)) as Hl;
    [|by apply Hl].
  intros l. revert w. induction l as [|[q ps] l IH]; intros w Hl Hw; cbn;
    [apply rel_at_rel, rel_ret; typeclasses eauto|].
  assert (rel_at rec w (recover_stage (q, ps))) as Hx.
  { unfold recover_stage. apply rel_at_bind; [typeclasses eauto| |
      intros n w1 _; apply rel_at_rel, rel_ret; typeclasses eauto].
    eapply count_stale_recovering; eauto. apply Hl. left. }
  apply rel_at_bind; [typeclasses eauto|exact Hx|]. intros [] w1 H1.
  apply IH; [intros y Hy; apply Hl; by right|]. by eapply stable_rel.
Qed.

(** ** The sweep as a whole *)

Lemma orphaned_tasks_work pel : rel work (_reconcile_orphaned_db_tasks pel).
Proof.
  assert (∀ t, rel work (put_task t)) by (intros; by apply modify_work).
  unfold _reconcile_orphaned_db_tasks, now. steps. apply rel_count_true; [typeclasses eauto|].
  intros t. unfold settle_orphan, now. steps.
Qed.

Lemma ready_tasks_recovering : rel rec _reconcile_ready_tasks_with_consumed_messages.
Proof.
  apply rel_recovering; unfold _reconcile_ready_tasks_with_consumed_messages, now; steps;
    (apply rel_count_true; [typeclasses eauto|]); intros x.
  - apply rel_step_disk, recover_ready_step.
  - unfold recover_ready, requeue_ready, _is_stream_message_pending, _is_stream_message_delivered. steps.
Qed.

Lemma stuck_jobs_recovering : rel rec _reconcile_stuck_running_jobs.
Proof.
  apply rel_recovering; unfold _reconcile_stuck_running_jobs, now; steps;
    (apply rel_count_true; [typeclasses eauto|]); intros j.
  - apply rel_step_disk, finish_job_step.
  - unfold finish_job. pose proof (check_completion_work (j_id j)).
    apply (rel_except_any work); intros; steps.
Qed.

(** One phase, in a session of its own. *)
Lemma phase {A B} (m : M A) (k : A → M B) pel w :
  sweep_ok pel w →
  (∀ w, w_db w = w_disk w → sweep_ok pel w → rel_at rec w m) →
  (∀ a w, sweep_ok pel w → rel_at rec w (k a)) →
  rel_at rec w (in_session m ≫= k).
Proof.
  intros Hw Hm Hk. assert (rel_at rec w (in_session m)) as Hs.
  { apply in_session_recovering, Hm; [done|]. destruct Hw as ([Hdb Hdisk Hr] & Ho & Hpel).
    split_and!; [split|..]; done. }
  apply rel_at_bind; [typeclasses eauto|exact Hs|]. intros a w1 H1. apply Hk. by eapply stable_rel.
Qed.

Lemma reconcile_recovering : rel rec _reconcile.
Proof.
  intros w Hg Ho. revert Hg Ho.
  cut (good w → groups_ok (w_redis w) → rel_at rec w _reconcile); [by intros Hr Hg Ho; apply Hr|].
  intros Hg Ho. unfold _reconcile, discover_streams. apply (rel_at_gets rec).
  set (streams := _.*1). destruct (pending_of streams w) as [w1 r] eqn:Hp.
  assert (rel rec (pending_of streams)) as Hpr.
  { clear. generalize streams. intros l. induction l as [|q l IH]; cbn;
      [apply rel_ret; typeclasses eauto|]. unfold get_pending.
    repeat (apply rel_bind; [typeclasses eauto|apply rel_gets || exact IH; typeclasses eauto|intros ?]).
    apply rel_ret; typeclasses eauto. }
  apply rel_at_bind; [typeclasses eauto|apply Hpr|].
  intros pel w2 [-> Hread]%pending_of_ok.
  apply (phase _ _ pel); [by split_and!| |].
  { intros w3 _ _. apply rel_recovering; [apply rel_step_disk, orphaned_db_step|apply orphaned_tasks_work]. }
  intros n1 w3 Hw3. apply (phase _ _ pel); [done| |].
  { intros w4 Hs _. by apply orphaned_entries_recovering. }
  intros [] w4 Hw4. apply (phase _ _ pel); [done| |].
  { intros w5 _ Hw5. by apply stale_tasks_recovering. }
  intros [] w5 Hw5. apply (phase _ _ pel); [done|intros w6 _ _; apply ready_tasks_recovering|].
  intros n2 w6 Hw6. apply (phase _ _ pel); [done|intros w7 _ _; apply stuck_jobs_recovering|].
  intros n3 w7 _. apply rel_at_rel, rel_ret. typeclasses eauto.
Qed.
End recovering.

Lemma lock_work key instance : rel work (_acquire_leader_lock key instance).
Proof.
  unfold _acquire_leader_lock, now. steps. apply rel_effect; [typeclasses eauto..|]. intros w.
  destruct (set_nx _ _ _ _ _). by apply same_queues_work.
Qed.

Lemma unlock_work key instance : rel work (_release_leader_lock key instance).
Proof.
  unfold _release_leader_lock, now. steps. apply (rel_except_any work); intros; [|steps].
  apply redis_work; intros; by case_match.
Qed.

(** C9: the reconciler loses no work.  If a task has a message in a queue,
    undelivered or pending, then after a round of the reconciler, wherever it
    dies, the task still has one there or it is over in the database. *)
Theorem reconcile_keeps_work `{Env, Recovery} w b instance queue task_id :
  w_db w = w_disk w → db_inv (w_disk w) → groups_ok (w_redis w) →
  covered queue task_id (w_redis w) →
  let w' := (run_handler (reconcile_round instance) (set_budget b w)).1 in
  groups_ok (w_redis w') ∧
  (covered queue task_id (w_redis w') ∨ task_over task_id (w_disk w') = true).
Proof.
  intros Hsync Hi Ho Hc. cbv zeta.
  assert (rel (recovering queue task_id) (reconcile_round instance)) as Hr.
  { unfold reconcile_round, leader_round.
    apply rel_bind; [apply recovering_pre| |].
    - apply rel_recovering; [apply rel_step_disk, lock_step|apply lock_work].
    - intros [|]; [|apply rel_ret; apply recovering_pre].
      apply rel_bind; [apply recovering_pre|apply reconcile_recovering|]. intros _.
      apply rel_bind; [apply recovering_pre| |intros _; apply rel_ret; apply recovering_pre].
      apply rel_recovering; [apply rel_step_disk, unlock_step|apply unlock_work]. }
  specialize (Hr (set_budget b w)). unfold rel_at in Hr. unfold run_handler.
  destruct (reconcile_round instance (set_budget b w)) as [w' r].
  destruct Hr as [_ Ho' _ _ Hc']; [split; cbn; by rewrite ?Hsync|done|].
  split; [done|]. by apply Hc'.
Qed.
