(* ===== verification/System.v ===== *)
(** * The orchestrator as a transition system

    The dispatch of [dalston/orchestrator/distributed_main.py], the steps of the
    whole system (an event handled by some orchestrator that may die at any
    effect, the gateway's operations, rounds of the scanner and of the
    reconciler, the passing of time, other processes writing Redis), and what holds after any sequence of them. *)

From S2P Require Import Prelude PyValue Models Catalog Registry Selector Dag Store.
From S2P Require Import Effects Streams RateLimiter Transcript Scheduler PostProcessor Handlers.
From S2P Require Import Groups Engine Scanner Reconciler Jobs Slots Invariants Recovery.

(** ** Dispatch

    [_dispatch_event_dict] on a parsed event.  The webhook events create
    deliveries only, which are not part of this state; [engine.needed] has no
    handler. *)

Inductive dispatch_result : Type := Handled | UnknownEventType (t : string).

Definition dispatch `{Env} (e : event) : M dispatch_result :=
  match e with
  | JobCreated job_id => handle_job_created job_id ;; mret Handled
  | TaskStarted task_id => handle_task_started task_id ;; mret Handled
  | TaskCompletedEvent task_id => handle_task_completed task_id ;; mret Handled
  | TaskFailedEvent task_id error => handle_task_failed task_id error ;; mret Handled
  | TaskWaitTimeout task_id error => handle_task_wait_timeout task_id error ;; mret Handled
  | JobCancelRequested job_id => handle_job_cancel_requested job_id ;; mret Handled
  | JobCompletedEvent _ | JobFailedEvent _ _ | JobCancelledEvent _ => mret Handled
  | EngineNeeded _ _ _ _ _ => mret (UnknownEventType (event_type e))
  end.

(** ** Steps *)

(** Runs one operation in a session of its own, with a crash budget. *)
Definition run_with {A} (b : option nat) (m : M A) (w : world) : world :=
  (run_handler m (set_budget b w)).1.

Inductive sys_step (w : world) : world → Prop :=
  | sys_event (E : Env) e b : sys_step w (run_with b (dispatch e) w)
  | sys_submit j b : sys_step w (run_with b (create_job j) w)
  | sys_cancel job tenant b : sys_step w (run_with b (cancel_route job tenant) w)
  | sys_console_cancel job b : sys_step w (run_with b (console_cancel_route job) w)
  | sys_scan (E : Env) instance b : sys_step w (run_with b (scan_round instance) w)
  | sys_reconcile (E : Env) (R : Recovery) instance b :
      sys_step w (run_with b (reconcile_round instance) w)
  | sys_clock t : (w_now w <= t)%Z → sys_step w (set_now t w)
  | sys_redis r : sys_step w (set_redis r w).

(** Between two operations nothing is uncommitted. *)
Definition at_rest (w : world) : Prop := w_db w = w_disk w ∧ db_inv (w_disk w).

(** ** Gateway operations along the relations *)

Lemma jobs_get_step job_id tenant : rel step (Jobs.get_job job_id tenant).
Proof. unfold Jobs.get_job, Effects.get_job. steps. Qed.

Lemma jobs_get_ok job_id tenant w w' j :
  Jobs.get_job job_id tenant w = (w', Ok (Some j)) →
  w' = w ∧ db_jobs (w_db w) !! job_id = Some j.
Proof.
  unfold Jobs.get_job, Effects.get_job, mbind, M_bind, gets.
  destruct (db_jobs (w_db w) !! job_id) as [x|], tenant as [t|]; try case_match;
    by intros [= <- ->].
Qed.

Lemma create_job_step j : rel disk_step (create_job j).
Proof.
  intros w. unfold create_job, Effects.get_job. apply (rel_at_gets disk_step).
  destruct (db_jobs (w_db w) !! j_id j) as [x|] eqn:Hj;
    [by apply rel_at_rel, rel_step_disk; steps|].
  apply rel_at_bind; [typeclasses eauto| |intros _ w' _; apply rel_at_rel, rel_step_disk; steps].
  intros [Hi Hk Hr]. set (j' := j_set_purge _ _ _). cbn. split; [|done].
  split; [by apply db_put_job_inv|done|]. split; cbn; [apply (dr_tasks _ _ Hr)|].
  intros k y Hy. destruct (dr_jobs _ _ Hr _ _ Hy) as (y' & Hy' & Hreach).
  exists y'. split; [|done]. rewrite lookup_insert_ne; [done|]. intros <-. cbn in Hy'. congruence.
Qed.

(** Cancelling tasks leaves the jobs. *)
Definition same_jobs (w w' : world) : Prop := db_jobs (w_db w') = db_jobs (w_db w).
#[export] Instance same_jobs_pre : PreOrder same_jobs.
Proof. unfold same_jobs. split; [done|]. intros ???. congruence. Qed.

Lemma put_task_same_jobs t : rel same_jobs (put_task t).
Proof. done. Qed.
#[export] Hint Resolve put_task_same_jobs : steps.

Lemma cancel_tasks_jobs from tasks : rel same_jobs (cancel_tasks from tasks).
Proof. unfold cancel_tasks, cancel_task, get_task. steps. Qed.

Lemma cancel_job_step job_id tenant : rel step (cancel_job job_id tenant).
Proof.
  intros w. apply rel_at_good. intros Hg. unfold cancel_job.
  at_bind; [apply rel_at_rel, jobs_get_step|].
  intros [j|] w1 Hj; [|by apply rel_at_rel; steps]. apply jobs_get_ok in Hj as [-> Hj].
  destruct (cancellable (j_status j)) eqn:Hc; cbn [negb]; [|by apply rel_at_rel; steps].
  unfold job_tasks. at_gets. set (tasks := tasks_of job_id (w_db w)).
  assert (rel step (cancel_tasks [TPending; TReady] tasks)) as Hcancel
    by (apply cancel_tasks_step; set_solver).
  at_bind; [by apply rel_at_rel|]. intros [] w2 Hw2.
  apply (rel_run _ _ _ _ _ (cancel_tasks_jobs _ _)) in Hw2.
  unfold now. at_gets. at_bind; [|intros _ w' _; apply rel_at_rel; steps].
  apply put_job_update_step; [by rewrite (job_key _ _ _ Hg Hj), Hw2|].
  destruct (j_status j), (0 <? running_count tasks); done.
Qed.

Lemma decrement_once_step j t : rel step (decrement_concurrent_jobs_once j t).
Proof.
  unfold decrement_concurrent_jobs_once, Effects.now. steps; effect_step.
  - destruct (set_nx _ _ _ _ _). by apply same_db_step.
  - destruct (bump _ _ _ _). by apply same_db_step.
Qed.
#[export] Hint Resolve cancel_job_step decrement_once_step : steps.

Lemma dispatch_step `{Env} e : rel disk_step (dispatch e).
Proof.
  pose proof handle_job_created_step. pose proof handle_task_started_step.
  pose proof handle_task_completed_step. pose proof handle_task_failed_step.
  pose proof handle_task_wait_timeout_step. pose proof handle_job_cancel_requested_step.
  destruct e; cbn [dispatch]; try (apply rel_step_disk; steps; fail); steps.
Qed.

(** ** Any sequence of steps *)

Lemma run_with_rest {A} b (m : M A) w :
  rel disk_step m → at_rest w →
  at_rest (run_with b m w) ∧ db_reach (w_disk w) (w_disk (run_with b m w)).
Proof.
  intros Hm [Hr Hi]. unfold run_with, run_handler.
  specialize (Hm (set_budget b w)). unfold rel_at in Hm.
  assert (good (set_budget b w)) as Hg by (split; cbn; by rewrite ?Hr).
  destruct (m (set_budget b w)) as [w' r]. destruct (Hm Hg) as [[_ Hdisk _] Hreach]. done.
Qed.

Lemma sys_step_rest w w' :
  sys_step w w' → at_rest w → at_rest w' ∧ db_reach (w_disk w) (w_disk w').
Proof.
  destruct 1 as [E e b|j b|job tenant b|job b|E i b|E R i b|t Ht|r]; intros Hw; try (by destruct Hw).
  - by apply run_with_rest; [apply dispatch_step|].
  - by apply run_with_rest; [apply create_job_step|].
  - apply run_with_rest; [|done]. apply rel_step_disk. unfold cancel_route. steps.
  - apply run_with_rest; [|done]. apply rel_step_disk. unfold console_cancel_route. steps.
  - apply run_with_rest; [|done]. apply leader_round_step, scan_step.
  - apply run_with_rest; [|done]. apply leader_round_step, reconcile_step.
Qed.

Lemma sys_rest w w' :
  rtc sys_step w w' → at_rest w → at_rest w' ∧ db_reach (w_disk w) (w_disk w').
Proof.
  induction 1 as [w|w1 w2 w3 H12 H23 IH]; intros Hw; [done|].
  destruct (sys_step_rest _ _ H12 Hw) as [Hw2 Hr2]. destruct (IH Hw2) as [Hw3 Hr3].
  split; [done|]. by etrans.
Qed.



(** ** A concrete deployment *)

Module SysDemo.
Definition demo_settings : Settings := {|
  engine_unavailable_behavior := "fail_fast"; engine_wait_timeout_seconds := 300;
  task_stale_timeout_s := 1800; speech_regions_env := "" |}.

(** What every engine answers: a transcription of two words. *)
Definition response : json :=
  JObj [("text", JStr "hello world"); ("segments", JList [TranscriptDemo.seg "hello world" 0 2 []])].

Definition env_with (reg : registry) : Env := {|
  settings := demo_settings; registry_records := reg; catalog := [];
  model_rows := Some Demo.models;
  task_response := λ _ _, Some [("data", response)];
  stage_config_valid := λ _ _, true;
  pydantic := TranscriptDemo.demo;
  fresh_uuid := λ n, (100 + N.of_nat n)%N |}.

Definition env : Env := env_with Demo.reg.

Definition job (params : dict json) : JobModel := {|
  j_id := 1; j_tenant_id := 7; j_status := JPending; j_audio_uri := "s3://b/a.wav";
  j_audio_format := None; j_audio_duration := Some (JInt 60); j_audio_sample_rate := None;
  j_audio_channels := None; j_audio_bit_depth := None; j_parameters := params;
  j_error := None; j_started_at := None; j_completed_at := None; j_stats := None;
  j_pii_entities_detected := None; j_pii_redacted_audio_uri := None;
  j_created_at := 0; j_created_by_key_id := None;
  j_retention := 30; j_purge_after := None; j_purged_at := None |}.

(** Runs events, each in a session of its own. *)
Definition run_events (E : Env) (es : list event) (w : world) : world :=
  foldl (λ w e, run_with None (@dispatch E e) w) w es.

Definition submitted (params : dict json) : world :=
  run_with None (create_job (job params)) empty_world.

Definition plain : dict json := [("language", JStr "hr"); ("timestamps_granularity", JStr "segment")].

Definition status_of (k : UUID) (w : world) : option TaskStatus :=
  tm_status <$> db_tasks (w_disk w) !! k.
Definition job_status_of (k : UUID) (w : world) : option JobStatus :=
  j_status <$> db_jobs (w_disk w) !! k.

(** A job from submission to completion: tasks 100 (prepare) and 101 (transcribe). *)
Definition happy : list event :=
  [JobCreated 1; TaskStarted 100; TaskCompletedEvent 100; TaskStarted 101;
   TaskCompletedEvent 101].

Example happy_created :
  (status_of 100 (run_events env (take 1 happy) (submitted plain)),
   status_of 101 (run_events env (take 1 happy) (submitted plain)))
  = (Some TReady, Some TPending).
Proof. vm_compute. reflexivity. Qed.

(** What the engine of the prepare stage writes: its artifact. *)
Definition prepared_audio : ArtifactReference := {|
  ar_artifact_id := "a"; ar_kind := "audio"; ar_storage_locator := "s3://b/c.wav";
  ar_media_type := None; ar_channel := None; ar_role := Some "prepared";
  ar_producer_task_id := None; ar_producer_stage := Some "prepare" |}.

Definition engine_wrote (w : world) : world :=
  let r := w_redis w in
  set_redis {|
    r_jobs := r_jobs r; r_decremented := r_decremented r; r_sessions := r_sessions r;
    r_requests := r_requests r; r_cancelled := r_cancelled r; r_dedupe := r_dedupe r;
    r_streams := r_streams r; r_metadata := r_metadata r; r_waiting := r_waiting r;
    r_enrichments := r_enrichments r;
    r_artifacts := <[1%N := [("a", prepared_audio)]]> (r_artifacts r);
    r_groups := r_groups r; r_events := r_events r; r_dlq := r_dlq r; r_locks := r_locks r |} w.

(** The prepare task of the demonstration job is running, its output written. *)
Definition preparing (params : dict json) : world :=
  engine_wrote (run_events env (take 2 happy) (submitted params)).

Example happy_path :
  let w := run_events env (drop 2 happy) (preparing plain) in
  (status_of 100 w, status_of 101 w, job_status_of 1 w,
   length (stream "faster-whisper" (w_redis w))) =
  (Some TCompleted, Some TCompleted, Some JCompleted, 1).
Proof. vm_compute. reflexivity. Qed.

Lemma empty_rest : at_rest empty_world.
Proof.
  split; [done|]. split; cbn; intros *; rewrite ?lookup_empty; done.
Qed.

Lemma run_events_rtc E es w : rtc sys_step w (run_events E es w).
Proof.
  revert w. induction es as [|e es IH]; intros w; cbn; [done|].
  eapply rtc_l; [apply (sys_event w E e None)|apply IH].
Qed.

Lemma submitted_rtc E params es : rtc sys_step empty_world (run_events E es (submitted params)).
Proof. eapply rtc_l; [apply (sys_submit _ (job params) None)|apply run_events_rtc]. Qed.
Lemma preparing_rtc params es : rtc sys_step empty_world (run_events env es (preparing params)).
Proof.
  etrans; [apply (submitted_rtc env params (take 2 happy))|].
  eapply rtc_l; [apply sys_redis|apply run_events_rtc].
Qed.
End SysDemo.


