(* ===== verification/Retention.v ===== *)
(** * The retention of jobs

    The sweep of [Cleanup.v] on the jobs that the system of [System.v] makes. *)

From S2P Require Import Prelude PyValue Models Catalog Registry Selector Dag Store Pagination Webhooks Endpoints SessionRecords Cleanup.
From S2P Require Import Effects Streams RateLimiter Transcript Scheduler PostProcessor Handlers.
From S2P Require Import Groups Engine Scanner Reconciler Jobs Slots Invariants Recovery System.

(** No job is ever purged.  Whatever events, requests, scans and reconciliations there were,
    with whatever deaths, no row of a job has the date that the cleanup looks for: a sweep
    at any time, with any batch, changes nothing, whatever the retention of the jobs and however
    long ago they ended. *)
Theorem jobs_never_purged w a now batch failures :
  rtc sys_step empty_world w → ar_jobs a = db_jobs (w_disk w) →
  _purge_expired_jobs now batch failures a = (a, 0).
Proof.
  intros Hw Ha. destruct (sys_rest _ _ Hw SysDemo.empty_rest) as [[_ Hi] _].
  unfold _purge_expired_jobs, _purge_expired.
  assert (due_rows (A := JobModel) now batch a = []) as ->; [|done].
  destruct (due_rows now batch a) as [|id l] eqn:Hl; [done|].
  destruct (due_rows_due (A := JobModel) now batch a id) as (j & Hj & Hd); [rewrite Hl; by left|].
  cbn in Hj. rewrite Ha in Hj. unfold due in Hd. cbn in Hd. by rewrite (inv_purge _ Hi _ _ Hj) in Hd.
Qed.

(** The job of the demonstration has completed and was to be kept for thirty days. *)
Lemma jobs_never_purged_witness :
  let w := SysDemo.run_events SysDemo.env (drop 2 SysDemo.happy) (SysDemo.preparing SysDemo.plain) in
  let a := {| ar_jobs := db_jobs (w_disk w); ar_sessions := ∅; ar_objects := {[OwnerJob 1]}; ar_locks := ∅ |} in
  (λ j, (j_status j, j_retention j)) <$> ar_jobs a !! 1%N = Some (JCompleted, 30%Z) ∧
  _purge_expired_jobs (10 ^ 18) 100 (λ _, None) a = (a, 0).
Proof.
  cbv zeta. split; [vm_compute; reflexivity|].
  eapply jobs_never_purged; [apply SysDemo.preparing_rtc|reflexivity].
Defined.
