(* ===== verification/Queueing.v ===== *)
(** * What queueing a task does

    Theorems about [Scheduler.v]: timeouts, the resolution of input bindings,
    and the effects of [queue_task], failures included. *)

From S2P Require Import Prelude PyValue Models Catalog Registry Selector Dag Store.
From S2P Require Import Effects Streams RateLimiter Scheduler PostProcessor Handlers.
From S2P Require Import Jobs Slots Invariants System.

(** ** Timeouts *)

Lemma timeout_min d g c u t :
  calculate_task_timeout d g c u = Ok t → (MIN_TIMEOUT_S <= t)%Z.
Proof.
  unfold calculate_task_timeout. intros H. inv_ok.
  destruct x as [x|]; [inv_ok; lia|]. inv_ok. by vm_compute.
Qed.

(** Task timeouts.  Every timeout is at least a minute; without a positive
    duration it is an hour, whatever the engine; and the computation fails only
    on a duration that is not a number or an estimate that is not finite. *)
Theorem timeout_spec d g c u :
  (∀ t, calculate_task_timeout d g c u = Ok t → (60 <= t)%Z) ∧
  (positive_duration d = Ok None → calculate_task_timeout d g c u = Ok 3600%Z) ∧
  (∀ x, positive_duration d = Ok (Some x) →
     is_ok (calculate_task_timeout d g c u) =
     is_ok (f_int (fmul (fmul x (choose_rtf g c u)) TIMEOUT_SAFETY_FACTOR))).
Proof.
  split_and!.
  - intros t. apply timeout_min.
  - intros Hd. unfold calculate_task_timeout. by rewrite Hd.
  - intros x Hd. unfold calculate_task_timeout. rewrite Hd. cbn [mbind res_mbind res_bind].
    by destruct (f_int _).
Qed.

(** The examples of the documentation. *)
Example timeout_fast_gpu :
  calculate_task_timeout (JInt 3600) (Some (float_lit 1 20)) None true = Ok 540%Z.
Proof. vm_compute. reflexivity. Qed.
Example timeout_slow_cpu :
  calculate_task_timeout (JInt 60) None (Some (float_lit 4 5)) true = Ok 144%Z.
Proof. vm_compute. reflexivity. Qed.

Lemma timeout_spec_witness :
  positive_duration (JInt 0) = Ok None ∧
  calculate_task_timeout (JInt 0) None None true = Ok 3600%Z.
Proof. split; [reflexivity|]. apply timeout_spec. reflexivity. Defined.

(** ** Input bindings *)

Lemma match_artifact_Some index s id :
  match_artifact index s = Some id →
  ∃ ref, (id, ref) ∈ index ∧ _matches_selector ref s = true.
Proof.
  unfold match_artifact. destruct (find_first _ index) as [[k ref]|] eqn:Hf; [|done].
  intros [= <-]. apply find_first_Some in Hf as [Hin Hm]. by exists ref.
Qed.

Lemma match_artifact_None index s :
  match_artifact index s = None ↔ ∀ id ref, (id, ref) ∈ index → _matches_selector ref s = false.
Proof.
  unfold match_artifact. destruct (find_first _ index) as [[k ref]|] eqn:Hf; cbn.
  - apply find_first_Some in Hf as [Hin Hm]. split; [done|]. intros H.
    cbn in Hm. by rewrite (H k ref) in Hm.
  - split; [|done]. intros _ id ref Hin.
    by apply (proj1 (find_first_None (λ kv, _matches_selector kv.2 s) index) Hf (id, ref)).
Qed.

Lemma matches_selector_spec ref s :
  _matches_selector ref s = true ↔
  ar_producer_stage ref = Some (sel_producer_stage s) ∧ ar_kind ref = sel_kind s ∧
  (∀ c, sel_channel s = Some c → ar_channel ref = Some c) ∧
  (∀ r, sel_role s = Some r → ar_role ref = Some r).
Proof.
  unfold _matches_selector. case_bool_decide as Hp; cbn; [|naive_solver].
  destruct (String.eqb_spec (ar_kind ref) (sel_kind s)); cbn; [|naive_solver].
  destruct (sel_channel s) as [c|], (sel_role s) as [r|];
    repeat case_bool_decide; cbn; naive_solver.
Qed.

(** Resolution fails on the first required binding without a match. *)
Lemma resolve_from_ok index bindings acc :
  is_ok (resolve_from index bindings acc) =
  forallb (λ b, negb (sel_required (rb_selector b))
                || bool_decide (is_Some (match_artifact index (rb_selector b)))) bindings.
Proof.
  revert acc. induction bindings as [|b bs IH]; intros acc; cbn; [done|].
  destruct (match_artifact index (rb_selector b)) eqn:Hm; cbn.
  - rewrite orb_true_r. apply IH.
  - destruct (sel_required (rb_selector b)); cbn; [done|apply IH].
Qed.

(** With distinct slots the result is the slots that have a match. *)
Lemma resolve_from_get index bindings acc r slot :
  NoDup (rb_slot <$> bindings) → resolve_from index bindings acc = Ok r →
  dget slot r =
  match find_first (λ b, String.eqb (rb_slot b) slot) bindings with
  | Some b => match match_artifact index (rb_selector b) with
              | Some id => Some id | None => dget slot acc end
  | None => dget slot acc
  end.
Proof.
  revert acc. induction bindings as [|b bs IH]; intros acc Hnd; cbn; [by intros [= ->]|].
  cbn in Hnd. apply NoDup_cons in Hnd as [Hb Hnd].
  assert (rb_slot b = slot → find_first (λ b0, String.eqb (rb_slot b0) slot) bs = None) as Hlast.
  { intros <-. apply find_first_None. intros x Hx. apply String.eqb_neq. intros Heq.
    apply Hb. rewrite <-Heq. by apply list_elem_of_fmap_2. }
  destruct (match_artifact index (rb_selector b)) as [id|] eqn:Hm.
  - intros Hr. rewrite (IH _ Hnd Hr). destruct (String.eqb_spec (rb_slot b) slot) as [Heq|Hne].
    + rewrite Hlast, Hm by done. subst slot. by rewrite dget_dset_eq.
    + by rewrite dget_dset_ne.
  - destruct (sel_required (rb_selector b)); [done|]. intros Hr. rewrite (IH _ Hnd Hr).
    destruct (String.eqb_spec (rb_slot b) slot) as [Heq|Hne]; [|done].
    by rewrite Hlast, Hm.
Qed.

(** Binding resolution.  It succeeds exactly when every required binding
    has an artifact that matches its stage, kind, channel and role; the result
    then gives each slot with a match the first artifact of the index that
    matches, and no other slot. *)
Theorem bindings_resolution index bindings :
  NoDup (rb_slot <$> bindings) →
  (is_ok (_resolve_input_bindings bindings index) = true ↔
     ∀ b, b ∈ bindings → sel_required (rb_selector b) = true →
       ∃ id ref, (id, ref) ∈ index ∧ _matches_selector ref (rb_selector b) = true) ∧
  ∀ r, _resolve_input_bindings bindings index = Ok r →
    ∀ slot, dget slot r = find_first (λ b, String.eqb (rb_slot b) slot) bindings
                            ≫= (λ b, match_artifact index (rb_selector b)).
Proof.
  intros Hnd. unfold _resolve_input_bindings. split.
  - rewrite resolve_from_ok, forallb_forall. setoid_rewrite <-list_elem_of_In.
    split; intros H b Hb; specialize (H b Hb).
    + intros Hreq. rewrite Hreq in H. cbn in H. apply bool_decide_eq_true in H as [id Hid].
      apply match_artifact_Some in Hid as (ref & ? & ?). by exists id, ref.
    + destruct (sel_required (rb_selector b)); [|done]. cbn.
      destruct (H eq_refl) as (id & ref & Hin & Hm). apply bool_decide_eq_true.
      destruct (match_artifact index (rb_selector b)) eqn:Hn; [done|].
      by rewrite (proj1 (match_artifact_None _ _) Hn id ref Hin) in Hm.
  - intros r Hr slot. rewrite (resolve_from_get _ _ _ _ _ Hnd Hr).
    destruct (find_first _ bindings) as [b|]; [|done]. cbn.
    by destruct (match_artifact index (rb_selector b)).
Qed.

Definition demo_artifact (channel : N) : ArtifactReference := {|
  ar_artifact_id := "a"; ar_kind := "audio"; ar_storage_locator := "s3://b/c";
  ar_media_type := None; ar_channel := Some channel; ar_role := Some "prepared";
  ar_producer_task_id := None; ar_producer_stage := Some "prepare" |}.

Lemma bindings_resolution_witness :
  ∃ r, _resolve_input_bindings [audio_binding (Some 1%N)]
         [("c0", demo_artifact 0); ("c1", demo_artifact 1)] = Ok r ∧
       dget "audio" r = Some "c1".
Proof.
  eexists. split; [vm_compute; reflexivity|].
  rewrite (proj2 (bindings_resolution [("c0", demo_artifact 0); ("c1", demo_artifact 1)]
    [audio_binding (Some 1%N)] ltac:(repeat constructor; intros H; inversion H)) _ eq_refl).
  vm_compute. reflexivity.
Defined.

(** ** Admission *)

Section admission.
Context `{E : Env}.

(** Why a task cannot be queued now, if it cannot. *)
Definition admission (now : timestamp) (task : Task) (language : json) : option engine_error :=
  if negb (String.eqb (task_profile task) "container")
  then Some (profile_error task (task_profile task))
  else if negb (is_engine_available now registry_records (t_engine_id task))
          && String.eqb (wait_policy (t_config task)).1 "fail_fast"
  then Some (unavailable_error now task language)
  else None.

(** Operations that raise no engine error. *)
Definition no_engine_error {A} (m : M A) : Prop := ∀ w e, (m w).2 ≠ Raise (EngineExn e).

Lemma nee_bind {A B} (m : M A) (k : A → M B) :
  no_engine_error m → (∀ a, no_engine_error (k a)) → no_engine_error (m ≫= k).
Proof.
  intros Hm Hk w e. unfold mbind, M_bind. specialize (Hm w e).
  destruct (m w) as [w' [a|e']]; [apply Hk|]. intros [= ->]. by apply Hm.
Qed.
Lemma nee_ret {A} (a : A) : no_engine_error (mret a).
Proof. by intros w e. Qed.
Lemma nee_gets {A} (f : world → A) : no_engine_error (gets f).
Proof. by intros w e. Qed.
Lemma nee_tick : no_engine_error tick.
Proof. intros w e. unfold tick. by destruct (w_budget w) as [[|n]|]. Qed.
Lemma nee_effect {A} (f : world → world * A) : no_engine_error (effect f).
Proof.
  unfold effect. apply nee_bind; [apply nee_tick|]. intros _ w e. by destruct (f w).
Qed.
Lemma nee_lift_py {A} (m : res pyexn A) : no_engine_error (lift_py m).
Proof. by intros w e; destruct m. Qed.
Lemma nee_fmap {A B} (f : A → B) (m : M A) : no_engine_error m → no_engine_error (f <$> m).
Proof.
  intros Hm w e. specialize (Hm w e). unfold fmap, M_fmap.
  destruct (m w) as [w' [a|e']]; [done|]. intros [= ->]. by apply Hm.
Qed.
Lemma nee_when b m : no_engine_error m → no_engine_error (when b m).
Proof. by destruct b. Qed.

Ltac nee :=
  repeat first
    [ progress intros
    | lazymatch goal with
      | |- no_engine_error (mbind _ _) => apply nee_bind
      | |- no_engine_error (fmap _ _) => apply nee_fmap
      | |- no_engine_error (when _ _) => apply nee_when
      | |- no_engine_error (mret _) => apply nee_ret
      | |- no_engine_error (gets _) => apply nee_gets
      | |- no_engine_error (effect _) => apply nee_effect
      | |- no_engine_error (effect_ _) => apply nee_effect
      | |- no_engine_error (redis _) => apply nee_effect
      | |- no_engine_error (lift_py _) => apply nee_lift_py
      | |- no_engine_error (match _ with _ => _ end) => case_match
      end ].

Lemma publish_nee e : no_engine_error (publish_event e).
Proof. unfold publish_event. nee. Qed.

Lemma enqueue_task_nee task pr md key t waiting timeout :
  no_engine_error (enqueue_task task pr md key t waiting timeout).
Proof.
  unfold enqueue_task, write_task_request, _load_job_artifact_index, add_task, add_task_once,
    ensure_stream_group, now. nee.
Qed.

Lemma with_config_bindings_config task :
  t_config (with_config_bindings task) = t_config task.
Proof. unfold with_config_bindings. by repeat case_match. Qed.

Lemma queue_task_nee task pr md key w language e :
  task_language (t_config task) = Ok language →
  admission (w_now w) (with_config_bindings task) language = None →
  (queue_task task pr md key w).2 ≠ Raise (EngineExn e).
Proof.
  intros Hl. unfold admission, queue_task. rewrite with_config_bindings_config, Hl.
  set (task' := with_config_bindings task).
  destruct (wait_policy (t_config task)) as [behavior timeout]. cbn [fst].
  rewrite !(bind_run (lift_py (Ok language)) _ w w language) by done.
  destruct (String.eqb (task_profile task') "container"); cbn [negb when]; [|done].
  rewrite !(bind_run (mret ()) _ w w ()), !(bind_run now _ w w (w_now w)) by done.
  destruct (is_engine_available _ _ _); cbn [negb when andb].
  - intros _. rewrite (bind_run (mret ()) _ w w ()) by done. apply enqueue_task_nee.
  - destruct (String.eqb behavior "fail_fast"); [done|]. intros _.
    apply nee_bind; [apply publish_nee|]. intros _. apply enqueue_task_nee.
Qed.

(** Admission control.  A task whose engine runs outside containers, or
    has no live instance while the policy is to fail fast, is refused with the
    error that says so and no effect of any kind; otherwise queueing never
    raises an engine error, whatever happens later. *)
Theorem queue_task_admission task pr md key w language :
  task_language (t_config task) = Ok language →
  match admission (w_now w) (with_config_bindings task) language with
  | Some e => queue_task task pr md key w = (w, Raise (EngineExn e))
  | None => ∀ e, (queue_task task pr md key w).2 ≠ Raise (EngineExn e)
  end.
Proof.
  intros Hl. destruct (admission _ _ _) as [e|] eqn:Ha;
    [|intros e; by apply (queue_task_nee _ _ _ _ _ language)].
  revert Ha. unfold admission, queue_task. rewrite with_config_bindings_config, Hl.
  set (task' := with_config_bindings task).
  destruct (wait_policy (t_config task)) as [behavior timeout]. cbn [fst].
  rewrite !(bind_run (lift_py (Ok language)) _ w w language) by done.
  destruct (String.eqb (task_profile task') "container"); cbn [negb when];
    [|intros [= <-]; by apply bind_raise_run].
  rewrite !(bind_run (mret ()) _ w w ()), !(bind_run now _ w w (w_now w)) by done.
  destruct (is_engine_available _ _ _); cbn [negb when andb]; [done|].
  destruct (String.eqb behavior "fail_fast"); [|done]. intros [= <-]. by apply bind_raise_run.
Qed.
End admission.

(** The demonstration engines, and one that is not there. *)
Definition demo_task (engine_id : string) : Task :=
  pending_task 100 1 "transcribe" engine_id [] [] [("language", JStr "hr")] None.

Lemma queue_task_admission_witness :
  task_language (t_config (demo_task "whisper-x")) = Ok (JStr "hr") ∧
  ∃ e, @queue_task SysDemo.env (demo_task "whisper-x") [] None None empty_world
       = (empty_world, Raise (EngineExn e)).
Proof.
  split; [reflexivity|].
  pose proof (@queue_task_admission SysDemo.env (demo_task "whisper-x") [] None None empty_world
    (JStr "hr") eq_refl) as H.
  destruct (admission _ _ _) as [e|] eqn:Ha in H;
    [exists e; exact H|vm_compute in Ha; discriminate Ha].
Defined.

(** ** Effects of a task that is queued *)

Lemma hset_live {K V} `{Countable K} t (k : K) f (m : keyspace K (dict V)) :
  is_Some (rget t (hset t k f m) k).
Proof.
  unfold hset, rget. destruct (m !! k) as [[d e]|]; [destruct (alive t e) eqn:Ha|];
    rewrite lookup_insert_eq; cbn; try rewrite Ha; eauto.
Qed.

Lemma expire_live {K A} `{Countable K} t (k : K) ttl (m : keyspace K A) :
  is_Some (rget t m k) → ∃ a, expire t k ttl m !! k = Some (a, Some (t + seconds ttl)%Z).
Proof. intros [a Ha]. unfold expire. rewrite Ha. rewrite lookup_insert_eq. eauto. Qed.

Lemma hset_keep {K V} `{Countable K} t (k : K) f (m : keyspace K (dict V)) d e :
  m !! k = Some (d, e) → alive t e = true → hset t k f m !! k = Some (dmerge d f, e).
Proof. intros Hm Ha. unfold hset. by rewrite Hm, Ha, lookup_insert_eq. Qed.

Lemma stream_ensure q q' r :
  stream q' (match r_streams r !! q with
             | Some _ => r
             | None => put_streams (<[q := []]> (r_streams r)) r
             end) = stream q' r.
Proof.
  destruct (r_streams r !! q) eqn:Hq; [done|]. unfold stream. cbn.
  destruct (decide (q = q')) as [<-|]; [by rewrite lookup_insert_eq, Hq|].
  by rewrite lookup_insert_ne.
Qed.

(** The messages of each queue once a task was appended to [q]. *)
Definition appended (q : string) (msg : StreamMessage) (r r' : Redis) : Prop :=
  ∀ q', stream q' r' = if String.eqb q q' then stream q r ++ [msg] else stream q' r.

Lemma add_task_ok q id job s w w' n :
  w_budget w = None → add_task q id job s w = (w', Ok n) →
  appended q (task_message (w_now w) id job s) (w_redis w) (w_redis w') ∧
  r_metadata (w_redis w') = r_metadata (w_redis w) ∧
  w_requests w' = w_requests w ∧ w_budget w' = None.
Proof.
  intros Hb. unfold add_task, now. intros H. inv_run.
  apply redis_ok in Hr; [|done]. subst w0. apply effect_ok in Hk0; [|done].
  injection Hk0 as <- <-. cbn. split_and!; [|by case_match|done|done].
  intros q'. rewrite stream_xadd, !stream_ensure. done.
Qed.

Lemma add_task_once_ok q id job s key w w' r :
  w_budget w = None → add_task_once q id job s key w = (w', Ok r) →
  match rget (w_now w) (r_dedupe (w_redis w)) key with
  | None => is_Some r ∧ appended q (task_message (w_now w) id job s) (w_redis w) (w_redis w')
  | Some _ => r = None ∧ ∀ q', stream q' (w_redis w') = stream q' (w_redis w)
  end ∧
  is_Some (rget (w_now w) (r_dedupe (w_redis w')) key) ∧
  r_metadata (w_redis w') = r_metadata (w_redis w) ∧
  w_requests w' = w_requests w ∧ w_budget w' = None.
Proof.
  intros Hb. unfold add_task_once, now. intros H. inv_run.
  apply redis_ok in Hr; [|done]. subst w0. apply effect_ok in Hk0; [|done]. cbn in Hk0.
  set (r1 := match r_streams (w_redis w) !! q with Some _ => _ | None => _ end) in *.
  assert (r_dedupe r1 = r_dedupe (w_redis w)) as Hd by (unfold r1; by destruct (r_streams (w_redis w) !! q)).
  assert (r_metadata r1 = r_metadata (w_redis w)) as Hm by (unfold r1; by destruct (r_streams (w_redis w) !! q)).
  pose proof (enqueue_once_spec q (task_message (w_now w) id job s) key DEDUPE_TTL_SECONDS
    (w_now w) r1) as Hs.
  unfold enqueue_once, set_nx in *. rewrite Hd in *.
  destruct (rget (w_now w) (r_dedupe (w_redis w)) key) eqn:Hk.
  - injection Hk0 as <- <-. cbn. rewrite Hd, Hk. split_and!; eauto.
    intros q'. apply (stream_ensure q q').
  - injection Hk0 as <- <-. cbn. split_and!; eauto.
    + assert (∀ q0 d, stream q0 (put_dedupe d r1) = stream q0 (w_redis w)) as Hst
        by (intros; apply stream_ensure).
      intros q'. by rewrite stream_xadd, !Hst.
    + unfold rget. rewrite lookup_insert_eq. cbn.
      destruct (Z.ltb_spec (w_now w) (w_now w + seconds DEDUPE_TTL_SECONDS));
        [eauto|unfold seconds, DEDUPE_TTL_SECONDS in *; lia].
Qed.

Section enqueue.
Context `{E : Env}.

(** Whether an idempotency key was used already. *)
Definition already_queued (key : option (UUID * nat)) (w : world) : bool :=
  match key with
  | None => false
  | Some k => bool_decide (is_Some (rget (w_now w) (r_dedupe (w_redis w)) k))
  end.

(** What [enqueue_task] leaves behind when it succeeds. *)
Record enqueued (task : Task) (pr : dict json) (md : option (dict json))
    (key : option (UUID * nat)) (w w' : world) : Prop := {
  eq_request : ∃ doc,
    task_request task (default [] (r_artifacts (w_redis w) !! t_job_id task)) pr md = Ok doc ∧
    w_requests w' = <[t_id task := doc]> (w_requests w);
  eq_stream : ∃ timeout expiry fields,
    (MIN_TIMEOUT_S <= timeout)%Z ∧
    (if already_queued key w then ∀ q, stream q (w_redis w') = stream q (w_redis w)
     else appended (t_engine_id task)
            (task_message (w_now w) (t_id task) (t_job_id task) timeout)
            (w_redis w) (w_redis w')) ∧
    r_metadata (w_redis w') !! t_id task = Some (fields, Some expiry) ∧
    (w_now w + seconds timeout < expiry)%Z;
}.

Lemma retry_factor_pos n : (1 <= retry_factor n)%Z.
Proof. unfold retry_factor. destruct (Nat.eqb_spec n 0); lia. Qed.

Lemma write_task_request_ok task pr md w w' doc :
  w_budget w = None → write_task_request task pr md w = (w', Ok doc) →
  task_request task (default [] (r_artifacts (w_redis w) !! t_job_id task)) pr md = Ok doc ∧
  w' = set_s3 (<[t_id task := doc]> (w_requests w)) (w_transcripts w) w.
Proof.
  intros Hb. unfold write_task_request, _load_job_artifact_index. intros H. inv_run.
  unfold lift_py, lift in Hr0. destruct (task_request _ _ _ _); [|done].
  injection Hr0 as <- <-. split; [done|]. unfold effect_ in Hr1.
  apply effect_ok in Hr1; [|done]. by injection Hr1 as <- <-.
Qed.

(** The append, with an idempotency key or without. *)
Lemma append_message_ok q id job s key w w' mid :
  w_budget w = None →
  match key with
  | Some key => add_task_once q id job s key
  | None => fmap Some (add_task q id job s)
  end w = (w', Ok mid) →
  w_requests w' = w_requests w ∧ w_budget w' = None ∧
  r_metadata (w_redis w') = r_metadata (w_redis w) ∧
  if already_queued key w then ∀ q', stream q' (w_redis w') = stream q' (w_redis w)
  else appended q (task_message (w_now w) id job s) (w_redis w) (w_redis w').
Proof.
  intros Hb H. destruct key as [key|]; cbn.
  - apply add_task_once_ok in H as (Hs & _ & ? & ? & ?); [|done].
    destruct (rget (w_now w) (r_dedupe (w_redis w)) key) as [x|] eqn:Hx.
    + rewrite bool_decide_eq_true_2 by eauto. by destruct Hs as [_ Hs].
    + rewrite bool_decide_eq_false_2 by (intros [? ?]; congruence). by destruct Hs as [_ Hs].
  - unfold fmap, M_fmap in H. destruct (add_task _ _ _ _ w) as [w8 [n|]] eqn:Ha; [|done].
    injection H as -> <-. by apply add_task_ok in Ha as (Hs & ? & ? & ?).
Qed.

(** The metadata and the waiting mark. *)
Lemma metadata_steps_ok t id fields waiting w w' u :
  w_budget w = None →
  (redis (λ r, put_metadata (hset t id fields (r_metadata r)) r) ;;
   when waiting (redis (λ r, put_waiting ({[id]} ∪ r_waiting r) r))) w = (w', Ok u) →
  ∃ wt, w' = set_redis (put_waiting wt
    (put_metadata (hset t id fields (r_metadata (w_redis w))) (w_redis w))) w.
Proof.
  intros Hb H. apply bind_ok in H as ([] & w1 & H1 & H2). apply redis_ok in H1; [|done]. subst w1.
  apply when_ok in H2 as [[_ H2]|[_ ->]]; [|by exists (r_waiting (w_redis w))].
  apply redis_ok in H2; [|done]. subst w'. by eexists.
Qed.

(** Regrouping the first steps of [enqueue_task]. *)
Lemma bind_assoc {A B C} (m : M A) (k1 : A → M B) (k2 : B → M C) w :
  (m ≫= λ a, k1 a ≫= k2) w = ((m ≫= k1) ≫= k2) w.
Proof. unfold mbind, M_bind. by destruct (m w) as [w' [a|e]]. Qed.

Lemma enqueue_task_ok task pr md key waiting wait w w' u :
  w_budget w = None → (0 <= wait)%Z →
  enqueue_task task pr md key (w_now w) waiting wait w = (w', Ok u) →
  enqueued task pr md key w w'.
Proof.
  intros Hb Hwait. unfold enqueue_task. rewrite (bind_assoc _ (λ _, when waiting _)). intros H.
  apply bind_ok in H as ([] & w2 & H2 & H). apply metadata_steps_ok in H2 as [wt ->]; [|done].
  apply bind_ok in H as (timeout & w3 & H3 & H).
  unfold lift_py, lift in H3. destruct (calculate_task_timeout _ _ _ _) as [t0|] eqn:Ht; [|done].
  injection H3 as <- <-. apply timeout_min in Ht.
  set (base := (if waiting then t0 + wait else t0)%Z) in *.
  assert (MIN_TIMEOUT_S <= base)%Z as Hbase by (unfold base; destruct waiting; lia).
  set (ttl := (base * retry_factor (t_max_retries task) + 3600)%Z) in *.
  assert (base < ttl)%Z as Httl.
  { pose proof (retry_factor_pos (t_max_retries task)). unfold ttl, MIN_TIMEOUT_S in *. nia. }
  apply bind_ok in H as ([] & w4 & H4 & H). apply redis_ok in H4; [|done]. cbn in H4.
  set (md0 := hset _ _ _ _) in H4.
  destruct (expire_live (w_now w) (t_id task) ttl md0 (hset_live _ _ _ _)) as [d0 Hd0].
  assert (alive (w_now w) (Some (w_now w + seconds ttl)%Z) = true) as Hal.
  { cbn. apply Z.ltb_lt. unfold seconds, MIN_TIMEOUT_S in *. lia. }
  apply bind_ok in H as (doc & w5 & H5 & H).
  apply write_task_request_ok in H5 as [Hdoc ->]; [|by subst w4].
  apply bind_ok in H as ([] & w6 & H6 & H). apply redis_ok in H6; [|by subst w4].
  pose proof (hset_keep (w_now w) (t_id task) [("request_bindings_json",
    JList (map dump_binding (rq_request_bindings doc))); ("resolved_artifact_ids_json",
    JObj (map (λ '(k, v), (k, JStr v)) (rq_resolved_artifact_ids doc)))] _ _ _ Hd0 Hal) as Hd1.
  apply bind_ok in H as (mid & w7 & H7 & H). subst w4 w6. cbn in Hdoc.
  apply append_message_ok in H7 as (Hq7 & Hb7 & Hm7 & Hs7); [|done].
  assert (∃ fields, r_metadata (w_redis w') !! t_id task
      = Some (fields, Some (w_now w + seconds ttl)%Z) ∧
    w_requests w' = w_requests w7 ∧ ∀ q, stream q (w_redis w') = stream q (w_redis w7))
    as (fields & Hf & Hqf & Hsf).
  { destruct mid as [n|]; [|injection H as <- _; rewrite Hm7; eauto].
    apply redis_ok in H; [|done]. subst w'. cbn. rewrite Hm7.
    erewrite hset_keep by done. eauto. }
  split; [exists doc; split; [done|by rewrite Hqf, Hq7]|].
  exists base, (w_now w + seconds ttl)%Z, fields. split_and!; [done| |done|unfold seconds; lia].
  change (already_queued key _) with (already_queued key w) in Hs7.
  destruct (already_queued key w); intros q; rewrite Hsf; apply (Hs7 q).
Qed.

(** ** Success *)

(** [m] returns from [w], keeping the artifact indices and planning no crash. *)
Definition succeeds {A} (m : M A) (w : world) : Prop :=
  ∃ w' a, m w = (w', Ok a) ∧ w_budget w' = None ∧
    r_artifacts (w_redis w') = r_artifacts (w_redis w).

Lemma succeeds_bind {A B} (m : M A) (k : A → M B) w :
  succeeds m w →
  (∀ a w', m w = (w', Ok a) → w_budget w' = None →
     r_artifacts (w_redis w') = r_artifacts (w_redis w) → succeeds (k a) w') →
  succeeds (m ≫= k) w.
Proof.
  intros (w1 & a & Hm & Hb & Ha) Hk. destruct (Hk a w1 Hm Hb Ha) as (w2 & b & H2 & Hb2 & Ha2).
  exists w2, b. rewrite (bind_run m k w w1 a) by done. split_and!; [done|done|congruence].
Qed.

Lemma succeeds_effect {A} (f : world → world * A) w :
  w_budget w = None → w_budget (f w).1 = None →
  r_artifacts (w_redis (f w).1) = r_artifacts (w_redis w) → succeeds (effect f) w.
Proof.
  intros Hb Hf Ha. destruct (f w) as [w' a] eqn:Hw. exists w', a.
  rewrite effect_run, Hw by done. done.
Qed.

Lemma succeeds_redis f w :
  w_budget w = None → (∀ r, r_artifacts (f r) = r_artifacts r) → succeeds (redis f) w.
Proof. intros Hb Hf. apply succeeds_effect; [done|done|]. apply Hf. Qed.

Lemma succeeds_ret {A} (a : A) w : w_budget w = None → succeeds (mret a) w.
Proof. intros Hb. by exists w, a. Qed.

Lemma succeeds_gets {A} (f : world → A) w : w_budget w = None → succeeds (gets f) w.
Proof. intros Hb. by exists w, (f w). Qed.

Lemma succeeds_lift_py {A} (m : res pyexn A) a w :
  w_budget w = None → m = Ok a → succeeds (lift_py m) w.
Proof. intros Hb ->. by exists w, a. Qed.

Lemma succeeds_add_task q id job s w : w_budget w = None → succeeds (add_task q id job s) w.
Proof.
  intros Hb. unfold add_task, ensure_stream_group, now.
  apply succeeds_bind; [apply succeeds_redis; [done|intros r; by case_match]|].
  intros _ w1 _ Hb1 _. apply succeeds_bind; [by apply succeeds_gets|].
  intros t w2 [= <- _] _ _. by apply succeeds_effect.
Qed.

Lemma succeeds_add_task_once q id job s key w :
  w_budget w = None → succeeds (add_task_once q id job s key) w.
Proof.
  intros Hb. unfold add_task_once, ensure_stream_group, now.
  apply succeeds_bind; [apply succeeds_redis; [done|intros r; by case_match]|].
  intros _ w1 _ Hb1 _. apply succeeds_bind; [by apply succeeds_gets|].
  intros t w2 [= <- _] _ _. unfold enqueue_once.
  apply succeeds_effect; [done|by destruct (set_nx _ _ _ _ _) as [? []]..].
Qed.

(** The timeout [enqueue_task] computes. *)
Definition queue_timeout (task : Task) (md : option (dict json)) : res pyexn Z :=
  let caps := ce_capabilities <$> get_engine catalog (t_engine_id task) in
  calculate_task_timeout (audio_duration_of md (t_config task))
    (caps ≫= cap_rtf_gpu) (caps ≫= cap_rtf_cpu) true.

Lemma enqueue_task_succeeds task pr md key t waiting wait w t0 doc :
  w_budget w = None → queue_timeout task md = Ok t0 →
  task_request task (default [] (r_artifacts (w_redis w) !! t_job_id task)) pr md = Ok doc →
  succeeds (enqueue_task task pr md key t waiting wait) w.
Proof.
  intros Hb Ht Hdoc. unfold enqueue_task.
  apply succeeds_bind; [by apply succeeds_redis|]. intros _ w1 _ Hb1 Ha1.
  apply succeeds_bind; [by destruct waiting; [apply succeeds_redis|apply succeeds_ret]|].
  intros _ w2 _ Hb2 Ha2.
  apply succeeds_bind; [by eapply succeeds_lift_py|]. intros x w3 H3 Hb3 Ha3.
  apply succeeds_bind; [by apply succeeds_redis|]. intros _ w4 _ Hb4 Ha4.
  apply succeeds_bind.
  { unfold write_task_request, _load_job_artifact_index.
    apply succeeds_bind; [by apply succeeds_gets|]. intros index w5 [= <- <-] _ _.
    apply succeeds_bind; [eapply succeeds_lift_py; [done|]|].
    { by rewrite Ha4, Ha3, Ha2, Ha1. }
    intros d w6 [= <- _] _ _. apply succeeds_bind; [by apply succeeds_effect|].
    intros _ w7 _ Hb7 _. by apply succeeds_ret. }
  intros d w5 _ Hb5 _. apply succeeds_bind; [by apply succeeds_redis|]. intros _ w6 _ Hb6 _.
  apply succeeds_bind.
  { destruct key as [key|]; [by apply succeeds_add_task_once|].
    destruct (succeeds_add_task (t_engine_id task) (t_id task) (t_job_id task)
      (if waiting then x + wait else x)%Z w6 Hb6) as (w7 & n & Hn & Hb7 & Ha7).
    exists w7, (Some n). unfold fmap, M_fmap. by rewrite Hn. }
  intros [n|] w7 _ Hb7 _; [by apply succeeds_redis|by apply succeeds_ret].
Qed.

(** Publishing changes the event logs only. *)
Lemma publish_ok e w :
  w_budget w = None → ∃ p d, publish_event e w = (set_events p d w, Ok ()).
Proof.
  intros Hb. unfold publish_event, effect_.
  rewrite (bind_run _ _ w (set_events (w_pubsub w ++ [e]) (w_durable w) w) ())
    by (by rewrite effect_run).
  destruct (mem_str _ _); cbn [when]; [|by eexists _, _].
  rewrite effect_run by done. by eexists _, _.
Qed.

Definition wait_settings_ok : Prop :=
  (0 <= task_stale_timeout_s settings)%Z ∧ (0 <= engine_wait_timeout_seconds settings)%Z.

(** What queueing a task now takes. *)
Record queueable (now : timestamp) (index : dict ArtifactReference) (task : Task)
    (pr : dict json) (md : option (dict json)) : Prop := {
  qa_language : ∃ language, task_language (t_config task) = Ok language ∧
    admission now (with_config_bindings task) language = None;
  qa_timeout : ∃ t, queue_timeout (with_config_bindings task) md = Ok t;
  qa_request : ∃ doc, task_request (with_config_bindings task) index pr md = Ok doc;
}.

Lemma queue_task_run task pr md key w :
  w_budget w = None → wait_settings_ok →
  queueable (w_now w) (default [] (r_artifacts (w_redis w) !! t_job_id (with_config_bindings task)))
    task pr md →
  ∃ w', queue_task task pr md key w = (w', Ok ()) ∧
    enqueued (with_config_bindings task) pr md key w w' ∧
    w_db w' = w_db w ∧ w_disk w' = w_disk w.
Proof.
  intros Hb [Hs1 Hs2] [(language & Hl & Hadm) [t0 Ht] [doc Hdoc]].
  pose proof (queue_task_io task pr md key w) as Hio. unfold rel_at in Hio.
  cut (∃ w', queue_task task pr md key w = (w', Ok ()) ∧
    enqueued (with_config_bindings task) pr md key w w').
  { intros (w' & Hw & He). exists w'. rewrite Hw in Hio. by destruct Hio. }
  clear Hio. unfold admission in Hadm. unfold queue_task.
  rewrite with_config_bindings_config in *. set (task' := with_config_bindings task) in *.
  assert (0 <= (wait_policy (t_config task)).2)%Z as Hwait
    by (unfold wait_policy; by destruct (truthy _)).
  destruct (wait_policy (t_config task)) as [behavior wait]. cbn [fst snd] in *.
  rewrite (bind_run (lift_py _) _ w w language) by (by rewrite Hl).
  destruct (String.eqb (task_profile task') "container"); cbn [negb when] in *; [|done].
  rewrite !(bind_run (mret ()) _ w w ()), !(bind_run now _ w w (w_now w)) by done.
  assert (∀ p d waiting, ∃ w', enqueue_task task' pr md key (w_now w) waiting wait
    (set_events p d w) = (w', Ok ()) ∧ enqueued task' pr md key w w') as Hq.
  { intros p d waiting.
    destruct (enqueue_task_succeeds task' pr md key (w_now w) waiting wait (set_events p d w)
      t0 doc Hb Ht Hdoc) as (w' & [] & Hw & _). exists w'. split; [done|].
    change (w_now w) with (w_now (set_events p d w)) in Hw.
    by apply enqueue_task_ok in Hw as [? ?]. }
  destruct (is_engine_available _ _ _); cbn [negb when andb] in *.
  - rewrite (bind_run (mret ()) _ w w ()) by done.
    destruct w as []. exact (Hq _ _ false).
  - destruct (String.eqb behavior "fail_fast"); [done|].
    destruct (publish_ok (EngineNeeded (t_engine_id task') (t_stage task') (t_job_id task')
      (t_id task') (if truthy language then Some language else None)) w Hb) as (p & d & Hp).
    rewrite (bind_run _ _ _ _ _ Hp). apply Hq.
Qed.

(** C10: queueing.  A task that passes admission, whose timeout can be computed
    and whose request document can be built is queued: the document is stored,
    one message with the task's timeout is appended to the stream of its
    engine (none when the idempotency key was used before), the metadata is
    there and outlives the timeout, and the database is not touched. *)
Theorem queue_task_enqueues task pr md key w language t0 doc :
  w_budget w = None → wait_settings_ok →
  task_language (t_config task) = Ok language →
  admission (w_now w) (with_config_bindings task) language = None →
  queue_timeout (with_config_bindings task) md = Ok t0 →
  task_request (with_config_bindings task)
    (default [] (r_artifacts (w_redis w) !! t_job_id (with_config_bindings task))) pr md = Ok doc →
  ∃ w', queue_task task pr md key w = (w', Ok ()) ∧
    enqueued (with_config_bindings task) pr md key w w' ∧
    w_db w' = w_db w ∧ w_disk w' = w_disk w.
Proof.
  intros Hb Hs Hl Hadm Ht Hdoc. apply queue_task_run; [done|done|]. split; eauto.
Qed.
End enqueue.

(** The demonstration task on a registered engine. *)
Lemma queue_task_enqueues_witness :
  ∃ w', @queue_task SysDemo.env (demo_task "nemo") [] None None empty_world = (w', Ok ()) ∧
    stream "nemo" (w_redis w') = [task_message Demo.now 100 1 3600] ∧ w_db w' = empty_db.
Proof.
  destruct (@queue_task_enqueues SysDemo.env (demo_task "nemo") [] None None empty_world
    (JStr "hr") 3600%Z
    {| rq_payload := None; rq_previous_responses := []; rq_config := [("language", JStr "hr")];
       rq_request_bindings := []; rq_resolved_artifact_ids := []; rq_artifact_index := [] |})
    as (w' & Hw & He & Hdb & _);
    [reflexivity|split; vm_compute; congruence|reflexivity|vm_compute; reflexivity..|].
  exists w'. split; [exact Hw|split; [|exact Hdb]].
  vm_compute in Hw. injection Hw as <-. vm_compute. reflexivity.
Defined.
