(* ===== verification/Retries.v ===== *)
(** * Retries under crashes and redelivery

    [handle_task_failed] commits the new attempt before it queues it, so an
    orchestrator can die in between; the event is then delivered again.  Shows
    that the attempt is counted once and queued once however often that
    happens. *)

From S2P Require Import Prelude PyValue Models Catalog Registry Selector Dag Store.
From S2P Require Import Effects Streams RateLimiter Scheduler PostProcessor Handlers.
From S2P Require Import Jobs Slots Invariants System Queueing.

Lemma with_config_bindings_ids task :
  t_id (with_config_bindings task) = t_id task ∧
  t_job_id (with_config_bindings task) = t_job_id task ∧
  t_engine_id (with_config_bindings task) = t_engine_id task.
Proof. unfold with_config_bindings. by repeat case_match. Qed.

(** ** Queueing at most once

    Along [once] the streams and the entry of an idempotency key change
    together, if at all. *)

Section once.
Context (q : string) (id : UUID) (key : UUID * nat).

Definition queued_now (w w' : world) : Prop :=
  rget (w_now w) (r_dedupe (w_redis w)) key = None ∧
  r_dedupe (w_redis w') !! key = Some ((), Some (w_now w + seconds DEDUPE_TTL_SECONDS)%Z) ∧
  ∃ msg, sm_task_id msg = id ∧ appended q msg (w_redis w) (w_redis w').

Definition queue_kept (w w' : world) : Prop :=
  r_dedupe (w_redis w') !! key = r_dedupe (w_redis w) !! key ∧
  ∀ q', stream q' (w_redis w') = stream q' (w_redis w).

Record once (w w' : world) : Prop := {
  on_now : w_now w' = w_now w;
  on_artifacts : r_artifacts (w_redis w') = r_artifacts (w_redis w);
  on_queue : queue_kept w w' ∨ queued_now w w';
}.

#[export] Instance once_pre : PreOrder once.
Proof.
  split; [by intros w; split; [..|left]|].
  intros w1 w2 w3 [Hn1 Ha1 Hq1] [Hn2 Ha2 Hq2]. split; [congruence..|].
  destruct Hq1 as [[Hk1 Hs1]|(Hk1 & He1 & msg1 & Hid1 & Hm1)],
    Hq2 as [[Hk2 Hs2]|(Hk2 & He2 & msg2 & Hid2 & Hm2)].
  - left. split; [congruence|]. intros q'. by rewrite Hs2.
  - right. split_and!; [by unfold rget in *; rewrite <-Hk1, <-Hn1|by rewrite <-Hn1|].
    exists msg2. split; [done|]. intros q'. by rewrite Hm2, !Hs1.
  - right. split_and!; [done|by rewrite Hk2|]. exists msg1. split; [done|].
    intros q'. by rewrite Hs2.
  - exfalso. unfold rget in Hk2. rewrite He1, Hn1 in Hk2. revert Hk2. cbn.
    destruct (Z.ltb_spec (w_now w1) (w_now w1 + seconds DEDUPE_TTL_SECONDS)); [done|].
    unfold seconds, DEDUPE_TTL_SECONDS in *. lia.
Qed.

#[export] Instance once_budget : BudgetFree once.
Proof. intros w b _. by split; [..|left]. Qed.

Lemma once_kept w w' :
  w_now w' = w_now w → r_artifacts (w_redis w') = r_artifacts (w_redis w) →
  r_dedupe (w_redis w') = r_dedupe (w_redis w) →
  (∀ q', stream q' (w_redis w') = stream q' (w_redis w)) → once w w'.
Proof. intros ?? Hd ?. split; [done..|]. left. split; [by rewrite Hd|done]. Qed.

Ltac once_effect := effect_step; by apply once_kept.

Lemma ensure_stream_group_once s : rel once (ensure_stream_group s).
Proof.
  unfold ensure_stream_group. effect_step.
  apply once_kept; cbn; [done|by case_match..|intros q'; apply stream_ensure].
Qed.

Lemma add_task_once_once j s : rel once (add_task_once q id j s key).
Proof.
  unfold add_task_once, now. apply rel_bind; [typeclasses eauto|apply ensure_stream_group_once|].
  intros _ w. apply (rel_at_gets once). revert w.
  cut (∀ t, rel once (effect (λ w, let '(r, n) := enqueue_once q (task_message t id j s) key
    DEDUPE_TTL_SECONDS (w_now w) (w_redis w) in (set_redis r w, n)))); [intros H w; apply H|].
  intros t. effect_step. unfold enqueue_once, set_nx.
  destruct (rget (w_now w) (r_dedupe (w_redis w)) key) eqn:Hk; [by apply once_kept|].
  split; [done..|]. right. split_and!; [done|apply lookup_insert_eq|].
  exists (task_message t id j s). split; [done|]. intros q'. cbn. by rewrite stream_xadd.
Qed.

Lemma publish_once e : rel once (publish_event e).
Proof. unfold publish_event. steps; once_effect. Qed.

Lemma queue_task_once `{E : Env} task pr md :
  t_engine_id task = q → t_id task = id → rel once (queue_task task pr md (Some key)).
Proof.
  intros Hq Hid. pose proof publish_once. pose proof add_task_once_once.
  destruct (with_config_bindings_ids task) as (Hi & _ & He).
  unfold queue_task, enqueue_task, now, write_task_request, _load_job_artifact_index, lift_py.
  destruct (wait_policy _) as [behavior timeout]. rewrite He, Hi, Hq, Hid.
  steps; once_effect.
Qed.
End once.

(** ** The failure of a running task *)

(** The request document can be built whatever the previous responses. *)
Lemma queueable_responses `{Env} now index task pr pr' md :
  queueable now index task pr md → queueable now index task pr' md.
Proof.
  intros [Hl Ht [doc Hd]]. split; [done|done|].
  unfold task_request in *. destruct (validate_bindings _) as [bs|]; [|done]. cbn in *.
  destruct (if String.eqb _ _ then _ else _) as [[[i r] p]|]; [|done]. cbn in *.
  destruct (stage_config_valid _ _); [by eexists|done].
Qed.

(** The row of the next attempt. *)
Definition retry_row (task : TaskModel) (error : string) (t : timestamp) : TaskModel :=
  tm_update task TReady (Some (EText error)) (S (tm_retries task)) (Some t)
    (tm_started_at task) (tm_completed_at task).

(** Deliveries of one failure event: the crash budget and the time of each. *)
Definition deliveries `{Env} (id : UUID) (error : string) (runs : list (option nat * timestamp))
    (w : world) : world :=
  foldl (λ w '(b, t), run_with b (handle_task_failed id error) (set_now t w)) w runs.

Section retry.
Context `{E : Env} (w0 : world) (id : UUID) (task : TaskModel) (error : string).

Definition retry_key : UUID * nat := _retry_enqueue_dedupe_key id (S (tm_retries task)).
Definition retry_index : dict ArtifactReference :=
  default [] (r_artifacts (w_redis w0) !! tm_job_id task).

(** The next attempt can be queued at [t]. *)
Definition retry_queueable (t : timestamp) : Prop :=
  queueable t retry_index (task_of_model (retry_row task error t)) [] None.

(** The event fails a running attempt that is not the last. *)
Record retryable : Prop := {
  rt_rest : at_rest w0;
  rt_row : db_tasks (w_disk w0) !! id = Some task;
  rt_running : tm_status task = TRunning;
  rt_left : tm_retries task < tm_max_retries task;
  rt_transient : _is_non_retryable_task_error error = false;
  rt_settings : wait_settings_ok;
  rt_key : rget (w_now w0) (r_dedupe (w_redis w0)) retry_key = None;
}.

Definition day_of (t : timestamp) : Prop :=
  (w_now w0 <= t < w_now w0 + seconds DEDUPE_TTL_SECONDS)%Z.

(** The message of the attempt was appended, by a delivery within the day. *)
Definition attempt_queued (w : world) : Prop :=
  (∃ e, r_dedupe (w_redis w) !! retry_key = Some ((), Some e) ∧
     (w_now w0 + seconds DEDUPE_TTL_SECONDS <= e)%Z) ∧
  ∃ msg, sm_task_id msg = id ∧ appended (tm_engine_id task) msg (w_redis w0) (w_redis w).

Definition attempt_row (w : world) : Prop :=
  ∃ t, db_tasks (w_disk w) !! id = Some (retry_row task error t).

(** Where a sequence of deliveries can leave the attempt. *)
Record progress (w : world) : Prop := {
  pg_rest : at_rest w;
  pg_artifacts : r_artifacts (w_redis w) = r_artifacts (w_redis w0);
  pg_phase :
    (db_tasks (w_disk w) !! id = Some task ∧ queue_kept retry_key w0 w) ∨
    (attempt_row w ∧ queue_kept retry_key w0 w) ∨ (attempt_row w ∧ attempt_queued w);
}.

Context (Hretry : retryable).

Lemma task_id : tm_id task = id.
Proof. destruct (rt_rest Hretry) as [_ Hi]. eapply inv_task_key; [done|apply Hretry]. Qed.

Lemma progress_start : progress w0.
Proof. split; [apply Hretry|done|]. left. split; [apply Hretry|done]. Qed.

(** The key stays unused while the queue is kept. *)
Lemma kept_unused w t :
  queue_kept retry_key w0 w → day_of t → rget t (r_dedupe (w_redis w)) retry_key = None.
Proof.
  intros [Hk _] Ht. pose proof (rt_key Hretry) as H. unfold rget in *. rewrite Hk.
  destruct (r_dedupe (w_redis w0) !! retry_key) as [[u [e|]]|]; [|done..].
  unfold day_of in Ht. cbn in *.
  destruct (Z.ltb_spec (w_now w0) e), (Z.ltb_spec t e); (done || lia).
Qed.

(** What [once] makes of the queue, from the start's point of view. *)
Lemma once_queued w w' :
  once (tm_engine_id task) id retry_key w w' → day_of (w_now w) →
  attempt_queued w → attempt_queued w'.
Proof.
  intros [_ _ Hq] Ht [(e & He & Hle) (msg & Hid & Hm)]. destruct Hq as [[Hk Hs]|(Hk & _ & _)].
  - split; [exists e; by rewrite Hk|]. exists msg. split; [done|]. intros q. by rewrite Hs.
  - exfalso. unfold rget in Hk. rewrite He in Hk. cbn in Hk. unfold day_of in Ht.
    destruct (Z.ltb_spec (w_now w) e); [done|lia].
Qed.

Lemma once_phase w w' :
  once (tm_engine_id task) id retry_key w w' → day_of (w_now w) →
  queue_kept retry_key w0 w ∨ attempt_queued w →
  queue_kept retry_key w0 w' ∨ attempt_queued w'.
Proof.
  intros Ho Ht [Hw|Hw]; [|right; by eapply once_queued].
  destruct Ho as [Hn _ [[Hk Hs]|(Hk & He & msg & Hid & Hm)]].
  - left. destruct Hw as [Hk0 Hs0]. split; [congruence|]. intros q. by rewrite Hs, Hs0.
  - right. split; [eexists; split; [done|]; unfold day_of in Ht; lia|].
    exists msg. split; [done|]. intros q. by rewrite Hm, !(proj2 Hw).
Qed.

(** Without a crash the attempt gets queued. *)
Lemma queue_attempt_run t pr w w' :
  queueable (w_now w) retry_index (task_of_model (retry_row task error t)) pr None →
  day_of (w_now w) → r_artifacts (w_redis w) = r_artifacts (w_redis w0) →
  w_budget w = None → queue_kept retry_key w0 w →
  (queue_task (task_of_model (retry_row task error t)) pr None (Some retry_key) w).1 = w' →
  ¬ queue_kept retry_key w0 w'.
Proof.
  intros Hq Ht Ha Hb Hp <- Hkept. set (row := task_of_model _) in *.
  destruct (with_config_bindings_ids row) as (_ & Hj & _).
  destruct (queue_task_run row pr None (Some retry_key) w Hb (rt_settings Hretry))
    as (w' & Hw' & [_ (timeout & expiry & fields & _ & Hs & _)] & _);
    [rewrite Hj, Ha; exact Hq|].
  rewrite Hw' in Hkept. unfold already_queued in Hs. rewrite (kept_unused w) in Hs by done.
  rewrite bool_decide_eq_false_2 in Hs by (by intros [? ?]).
  specialize (Hs (t_engine_id (with_config_bindings row))).
  rewrite String.eqb_refl, (proj2 Hkept), (proj2 Hp) in Hs.
  apply (f_equal length) in Hs. rewrite length_app in Hs. cbn in Hs. lia.
Qed.

(** Queueing the attempt: it is io, at most once, and does happen without a
    crash. *)
Lemma ensure_retry_run t w :
  retry_queueable (w_now w) → day_of (w_now w) → r_artifacts (w_redis w) = r_artifacts (w_redis w0) →
  let w' := (_ensure_retry_enqueued (retry_row task error t) w).1 in
  io w w' ∧ once (tm_engine_id task) id retry_key w w' ∧
  (w_budget w = None → queue_kept retry_key w0 w ∨ attempt_queued w → attempt_queued w').
Proof.
  intros Hq Ht Ha. unfold _ensure_retry_enqueued, job_tasks.
  set (row := retry_row task error t). change (tm_job_id row) with (tm_job_id task).
  rewrite (bind_run _ _ w w (tasks_of (tm_job_id task) (w_db w))) by done.
  set (pr := _gather_previous_responses _ _).
  pose proof (queueable_responses _ _ _ _ pr _ Hq) as Hq'.
  change (task_of_model (retry_row task error (w_now w))) with (task_of_model row) in Hq'.
  change (_retry_enqueue_dedupe_key (tm_id row) (tm_retries row))
    with (tm_id task, S (tm_retries task)). rewrite task_id.
  change (id, S (tm_retries task)) with retry_key.
  pose proof (queue_task_io (task_of_model row) pr None (Some retry_key) w) as Hio.
  pose proof (queue_task_once (tm_engine_id task) id retry_key (task_of_model row) pr None
    eq_refl task_id w) as Honce.
  destruct (qa_language _ _ _ _ _ Hq') as (language & Hl & Hadm).
  pose proof (λ e, queue_task_nee (task_of_model row) pr None (Some retry_key) w language e Hl Hadm)
    as Hnee.
  unfold rel_at in Hio, Honce. unfold catch.
  assert (∀ r : world * res exn (), r.1 = (queue_task (task_of_model row) pr None (Some retry_key) w).1 →
    io w r.1 ∧ once (tm_engine_id task) id retry_key w r.1 ∧
    (w_budget w = None → queue_kept retry_key w0 w ∨ attempt_queued w → attempt_queued r.1))
    as Hres.
  { intros r Hr. rewrite Hr. split_and!; [done|done|]. intros Hb [Hp|Hp]; [|by eapply once_queued].
    destruct (once_phase _ _ Honce Ht (or_introl Hp)) as [Hkept|]; [|done].
    exfalso. by apply (queue_attempt_run t pr w _ Hq' Ht Ha Hb Hp eq_refl). }
  destruct (queue_task _ _ _ _ w) as [w' [u|e]] eqn:Hw; [by apply (Hres (w', Ok u))|].
  destruct e; try (by apply (Hres (w', Raise _))). exfalso. by apply (Hnee e).
Qed.

(** What a delivery with crash budget [b] must achieve. *)
Definition delivered (b : option nat) (w' : world) : Prop :=
  r_artifacts (w_redis w') = r_artifacts (w_redis w0) ∧
  ((b ≠ None ∧ db_tasks (w_disk w') !! id = Some task ∧ queue_kept retry_key w0 w') ∨
   (attempt_row w' ∧ (queue_kept retry_key w0 w' ∨ attempt_queued w') ∧
    (b = None → attempt_queued w'))).

(** ... when the attempt is not committed yet, *)
Lemma delivery_running b w :
  w_budget w = b → w_db w = w_disk w → day_of (w_now w) → retry_queueable (w_now w) →
  r_artifacts (w_redis w) = r_artifacts (w_redis w0) →
  db_tasks (w_disk w) !! id = Some task → queue_kept retry_key w0 w →
  delivered b (run_handler (handle_task_failed id error) w).1.
Proof.
  intros Hb Hdb Ht Hq Ha Hrow Hk. unfold run_handler, handle_task_failed, get_task.
  rewrite (bind_run (gets _) _ w w (Some task)) by (unfold gets; by rewrite Hdb, Hrow).
  rewrite (rt_running Hretry), (bind_run now _ w w (w_now w)) by done.
  rewrite (rt_transient Hretry). destruct (Nat.ltb_spec (tm_retries task) (tm_max_retries task));
    [|pose proof (rt_left Hretry); lia]. cbn [negb andb]. fold (retry_row task error (w_now w)).
  set (w2 := set_db (db_put_task (retry_row task error (w_now w)) (w_db w)) w).
  rewrite (bind_run (put_task _) _ w w2 ()) by done.
  assert (b = Some 0 ∨ ∃ b', commit w2 = (set_disk (w_db w2) (set_budget b' w2), Ok ()) ∧
    (b = None → b' = None)) as [->|(b' & Hc & Hb')].
  { unfold commit, effect_, effect, mbind, M_bind, tick. cbn. rewrite Hb.
    destruct b as [[|n]|]; [by left|right; by exists (Some n)|right; exists None].
    split; [|done]. unfold w2. cbn. by rewrite <-Hb. }
  - rewrite (bind_raise_run commit _ _ w2 Crash)
      by (unfold commit, effect_, effect, mbind, M_bind, tick; cbn; by rewrite Hb).
    split; [done|]. by left.
  - rewrite (bind_run commit _ _ _ _ Hc). set (w3 := set_disk _ _).
    destruct (ensure_retry_run (w_now w) w3 Hq Ht Ha) as (Hio & Honce & Hdone).
    destruct (_ensure_retry_enqueued _ w3) as [w4 r]. cbn [fst] in *.
    split; [cbn; by rewrite (on_artifacts _ _ _ _ _ Honce)|]. right.
    split; [exists (w_now w); cbn; rewrite (io_disk _ _ Hio); cbn; by rewrite task_id, lookup_insert_eq|].
    split; [by apply (once_phase w3 w4 Honce Ht); left|].
    intros Hn. apply (Hdone (Hb' Hn)). by left.
Qed.

(** ... and when it is. *)
Lemma delivery_ready b w :
  w_budget w = b → w_db w = w_disk w → day_of (w_now w) → retry_queueable (w_now w) →
  r_artifacts (w_redis w) = r_artifacts (w_redis w0) →
  attempt_row w → queue_kept retry_key w0 w ∨ attempt_queued w →
  delivered b (run_handler (handle_task_failed id error) w).1.
Proof.
  intros Hb Hdb Ht Hq Ha [t Hrow] Hp. unfold run_handler, handle_task_failed, get_task.
  rewrite (bind_run (gets _) _ w w (Some (retry_row task error t)))
    by (unfold gets; by rewrite Hdb, Hrow).
  cbn [tm_status retry_row tm_update].
  destruct (ensure_retry_run t w Hq Ht Ha) as (Hio & Honce & Hdone).
  destruct (_ensure_retry_enqueued _ w) as [w4 r]. cbn [fst] in *.
  split; [cbn; by rewrite (on_artifacts _ _ _ _ _ Honce)|]. right.
  split; [exists t; cbn; by rewrite (io_disk _ _ Hio)|].
  split; [by apply (once_phase w w4 Honce Ht)|]. intros Hn. apply Hdone; [by rewrite Hb|done].
Qed.

(** One delivery. *)
Lemma delivery_progress b t w :
  progress w → day_of t → retry_queueable t →
  let w' := run_with b (handle_task_failed id error) (set_now t w) in
  progress w' ∧ (b = None → attempt_row w' ∧ attempt_queued w').
Proof.
  intros [Hrest Ha Hp] Ht Hq. cbv zeta.
  assert (at_rest (set_now t w)) as Hrest' by (by destruct Hrest).
  destruct (run_with_rest b (handle_task_failed id error) (set_now t w)) as [Hrest'' _];
    [by apply rel_step_disk, handle_task_failed_step|done|].
  assert (delivered b (run_with b (handle_task_failed id error) (set_now t w)))
    as [Ha' [(Hb & ? & ?)|(Hrow & Hw & Hn)]].
  { unfold run_with. destruct Hrest as [Hr _]. destruct Hp as [[Hrow Hk]|Hp].
    - by apply delivery_running.
    - apply delivery_ready; try done; naive_solver. }
  - split; [|done]. split; [done..|]. by left.
  - split; [|by intros ->; split; [|apply Hn]]. split; [done..|]. right.
    destruct Hw; [by left|by right].
Qed.

Lemma deliveries_progress runs w :
  Forall (λ r, day_of r.2 ∧ retry_queueable r.2) runs → progress w →
  progress (deliveries id error runs w).
Proof.
  intros Hruns. revert w. induction Hruns as [|[b t] runs [Ht Hq] _ IH]; intros w Hw; [done|].
  apply IH. by apply delivery_progress.
Qed.
End retry.


(** The demonstration job, its prepare task running: one delivery dies before
    the commit, one after it, one after the append. *)
Definition running_prepare : world :=
  SysDemo.run_events SysDemo.env (take 2 SysDemo.happy) (SysDemo.submitted SysDemo.plain).

Definition demo_runs : list (option nat * timestamp) :=
  map (λ n, (Some n, Demo.now)) [0; 1; 4; 7].

