(* ===== verification/Outcomes.v ===== *)
(** * What the handlers achieve

    The results of the handlers that return: dependents advance, jobs end,
    cancellation takes effect. *)

From S2P Require Import Prelude PyValue Models Catalog Registry Selector Dag Store.
From S2P Require Import Effects Streams RateLimiter Scheduler PostProcessor Handlers.
From S2P Require Import Jobs Slots Invariants System.

(** ** Sessions whose task rows are committed *)

Definition synced (w : world) : Prop := db_tasks (w_db w) = db_tasks (w_disk w).

(** Along [sync] committed task rows stay committed. *)
Definition sync (w w' : world) : Prop := synced w → synced w'.
#[export] Instance sync_pre : PreOrder sync.
Proof. split; [by intros w Hw|]. intros w1 w2 w3 H12 H23 H. auto. Qed.
#[export] Instance sync_budget : BudgetFree sync.
Proof. by intros w b _ H. Qed.

Lemma io_sync w w' : io w w' → sync w w'.
Proof. intros [Hd Hk _ _ _]. unfold sync, synced. by rewrite Hd, Hk. Qed.

Lemma commit_sync : rel sync commit.
Proof. by effect_step; intros H. Qed.
Lemma commit_synced w w' u : commit w = (w', Ok u) → synced w' ∧ w_db w' = w_db w ∧ w_disk w' = w_db w.
Proof.
  unfold commit, effect_, effect, mbind, M_bind, tick.
  by destruct (w_budget w) as [[|n]|]; intros [= <- <-].
Qed.
Lemma put_job_sync j : rel sync (put_job j).
Proof. by intros w H. Qed.
Lemma modify_artifacts_sync job_id t : rel sync (mark_owner_artifacts_available job_id t).
Proof. by intros w H. Qed.
Lemma redis_sync f : rel sync (redis f).
Proof. by effect_step; intros H. Qed.
Lemma s3_sync f g : rel sync (effect_ (λ w, set_s3 (f w) (g w) w)).
Proof. by effect_step; intros H. Qed.
#[export] Hint Resolve commit_sync put_job_sync modify_artifacts_sync redis_sync s3_sync : steps.

(** Worlds with the same database, committed and not. *)
Definition same_dbs (w w' : world) : Prop := w_db w' = w_db w ∧ w_disk w' = w_disk w.
#[export] Instance same_dbs_pre : PreOrder same_dbs.
Proof. split; [done|]. intros w1 w2 w3 [] []. split; congruence. Qed.
#[export] Instance same_dbs_budget : BudgetFree same_dbs.
Proof. done. Qed.

Section outcomes.
Context `{E : Env}.

Lemma publish_sync e : rel sync (publish_event e).
Proof. apply (rel_mono io), publish_io. apply io_sync. Qed.
Lemma queue_task_sync task pr md key : rel sync (queue_task task pr md key).
Proof. apply (rel_mono io), queue_task_io. apply io_sync. Qed.
Lemma decrement_sync j t : rel sync (_decrement_concurrent_jobs j t).
Proof.
  unfold _decrement_concurrent_jobs, now. steps; effect_step.
  - by destruct (set_nx _ _ _ _ _); intros ?.
  - by destruct (add_counter _ _ _ _); intros ?.
Qed.
#[local] Hint Resolve publish_sync queue_task_sync decrement_sync : steps.

Lemma fail_current_sync job_id e : rel sync (fail_current_job job_id e).
Proof. unfold fail_current_job, fail_job_and_publish, fail_job, now, Effects.get_job. steps. Qed.

Lemma update_transcript_sync job_id : rel sync (update_transcript_with_pii job_id).
Proof. unfold update_transcript_with_pii, job_tasks, Effects.get_job. steps. Qed.

Lemma record_enrichment_sync task : rel sync (record_enrichment task).
Proof.
  unfold record_enrichment, get_task, mark_enrichment_status, check_post_processing_completion, now.
  pose proof update_transcript_sync. steps. apply rel_catch; [typeclasses eauto|done|].
  intros e m' He. destruct e; cbn in He; simplify_eq; steps.
Qed.

Lemma update_duration_sync task : rel sync (update_audio_duration task).
Proof. unfold update_audio_duration, Effects.get_job, lift_py. steps. Qed.

Lemma decrement_dbs j t : rel same_dbs (_decrement_concurrent_jobs j t).
Proof.
  unfold _decrement_concurrent_jobs, now. steps; effect_step.
  - by destruct (set_nx _ _ _ _ _).
  - by destruct (add_counter _ _ _ _).
  - done.
Qed.

Lemma publish_dbs e : rel same_dbs (publish_event e).
Proof. apply (rel_mono io), publish_io. by intros w w' []. Qed.

(** ** Rows that left PENDING *)

(** The committed row of [k] is no longer pending. *)
Definition advanced (k : UUID) (w : world) : Prop :=
  ∃ t, db_tasks (w_disk w) !! k = Some t ∧ tm_status t ≠ TPending.

Definition job_failed (job_id : UUID) (w : world) : Prop :=
  ∃ j, db_jobs (w_disk w) !! job_id = Some j ∧ j_status j = JFailed.

Lemma advanced_reach k w w' :
  advanced k w → db_reach (w_disk w) (w_disk w') → advanced k w'.
Proof.
  intros (t & Ht & Hs) Hr. destruct (dr_tasks _ _ Hr _ _ Ht) as (t' & Ht' & Hr').
  exists t'. split; [done|]. intros Hp. destruct Hr' as [_ _ _ _ _ _ _ _ Hst].
  rewrite Hp in Hst. destruct (tm_status t); cbn in Hst; done.
Qed.

Lemma failed_reach job_id w w' :
  job_failed job_id w → has_tasks job_id (w_disk w) → db_reach (w_disk w) (w_disk w') →
  job_failed job_id w'.
Proof.
  intros (j & Hj & Hs) Hh Hr. destruct (dr_jobs _ _ Hr _ _ Hj) as (j' & Hj' & _ & _ & Hst).
  exists j'. split; [done|]. specialize (Hst Hh). rewrite Hs in Hst.
  by apply bool_decide_eq_true in Hst.
Qed.

(** [fail_current_job] fails a job that exists. *)
Lemma fail_current_ok job_id e w w' u :
  good w → fail_current_job job_id e w = (w', Ok u) →
  is_Some (db_jobs (w_db w) !! job_id) → job_failed job_id w'.
Proof.
  intros Hg H [j Hj]. unfold fail_current_job, Effects.get_job in H.
  apply bind_ok in H as (o & w1 & Ho & H). injection Ho as <- <-. rewrite Hj in H.
  unfold fail_job_and_publish, fail_job, now in H. inv_run. injection Hr as <- _.
  apply commit_synced in Hk1 as (_ & _ & Hdisk). cbn in Hdisk.
  apply (rel_run same_dbs) in Hr0 as [_ Hd1]; [|apply decrement_dbs].
  apply (rel_run same_dbs) in Hk0 as [_ Hd2]; [|apply publish_dbs].
  unfold job_failed. rewrite Hd2, Hd1, Hdisk. cbn. rewrite (job_key _ _ _ Hg Hj).
  rewrite lookup_insert_eq. by eexists.
Qed.

(** ** Dependents advance *)

(** The session's row of [k] is pending, with dependencies among [ids]. *)
Definition due (k : UUID) (ids : list UUID) (w : world) : Prop :=
  ∃ t, db_tasks (w_db w) !! k = Some t ∧
    (tm_status t = TPending → ∀ d, d ∈ tm_dependencies t → d ∈ ids).

Lemma due_step k ids w w' : good w → due k ids w → step w w' → due k ids w'.
Proof.
  intros Hg (t & Ht & Hd) Hs. destruct (Hs Hg) as (_ & _ & Hr).
  destruct (dr_tasks _ _ Hr _ _ Ht) as (t' & Ht' & Hr'). exists t'. split; [done|].
  destruct Hr' as [_ _ _ Hdep _ _ _ _ Hst]. intros Hp. rewrite Hp in Hst. rewrite Hdep. apply Hd.
  by destruct (tm_status t).
Qed.

Lemma advanced_step k w w' : good w → advanced k w → step w w' → advanced k w'.
Proof. intros Hg Ha Hs. destruct (Hs Hg) as (_ & Hr & _). by eapply advanced_reach. Qed.

(** One turn of the loop: it goes on with the dependent advanced, or stops
    with the job failed. *)
Lemma queue_dependent_ok job_id tasks ids x w w' b :
  all_completed ids w → synced w → is_Some (db_jobs (w_db w) !! job_id) →
  queue_dependent job_id tasks ids x w = (w', Ok b) →
  synced w' ∧ if b then due (tm_id x) ids w → advanced (tm_id x) w' else job_failed job_id w'.
Proof.
  intros [Hg Hids] Hsync Hjob H. unfold queue_dependent, get_task in H.
  apply bind_ok in H as (o & w1 & Ho & H). injection Ho as <- <-.
  destruct (db_tasks (w_db w) !! tm_id x) as [t|] eqn:Ht.
  2: { injection H as <- <-. split; [done|]. intros (t & Ht' & _). congruence. }
  destruct (bool_decide_reflect (tm_status t = TPending)) as [Hp|Hp]; cbn [negb] in H.
  2: { injection H as <- <-. split; [done|]. intros _. exists t. by rewrite <-Hsync. }
  assert (forallb (λ d, bool_decide (d ∈ ids)) (tm_dependencies t) = true ↔
    ∀ d, d ∈ tm_dependencies t → d ∈ ids) as Hall.
  { rewrite forallb_forall. setoid_rewrite bool_decide_eq_true. by setoid_rewrite list_elem_of_In. }
  destruct (forallb _ _); cbn [negb] in H.
  2: { injection H as <- <-. split; [done|]. intros (t' & Ht' & Hd). exfalso.
       rewrite Ht in Ht'. injection Ht' as <-. discriminate (proj2 Hall (Hd Hp)). }
  pose proof (proj1 Hall eq_refl) as Hd. clear Hall. unfold now in H.
  apply bind_ok in H as (tm & w1 & Hn & H). injection Hn as <- <-.
  apply bind_ok in H as ([] & w1 & Hput & H). apply bind_ok in H as ([] & w2 & Hc & H).
  assert (step w w1) as Hs1.
  { pose proof (put_update_step w t TReady (tm_error t) (tm_retries t) (Some (w_now w))
      (tm_started_at t) (tm_completed_at t)) as Hstep. unfold rel_at in Hstep.
    rewrite Hput in Hstep. apply Hstep; [by rewrite (task_key _ _ _ Hg Ht)|done| |by rewrite Hp|].
    - destruct Hg as [Hi _ _]. by eapply inv_retries.
    - intros _ dep Hdep. by apply Hids, Hd. }
  destruct (Hs1 Hg) as [Hg1 _].
  pose proof (rel_run _ _ _ _ _ commit_step Hc Hg1) as [Hg2 _].
  apply commit_synced in Hc as (Hsy & Hdb & Hdisk). injection Hput as <-.
  assert (advanced (tm_id x) w2) as Hadv.
  { eexists. rewrite Hdisk. cbn. rewrite (task_key _ _ _ Hg Ht), lookup_insert_eq. done. }
  assert (is_Some (db_jobs (w_db w2) !! job_id)) as Hjob2 by by rewrite Hdb.
  unfold catch in H. set (m := queue_task _ _ _ _ ;; mret true) in H.
  assert (rel io m) as Hio by (unfold m; steps).
  destruct (m w2) as [w3 [b'|e]] eqn:Hm; apply (rel_run _ _ _ _ _ Hio) in Hm as Hw3.
  - injection H as <- <-. split; [by apply (io_sync _ _ Hw3)|].
    assert (b' = true) as ->
      by (unfold m in Hm; apply bind_ok in Hm as (? & ? & _ & Hm); by injection Hm).
    intros _. eapply advanced_step; [exact Hg2|done|]. by apply io_step.
  - destruct e; try done. cbn in H. apply bind_ok in H as (u & w4 & Hf & H).
    injection H as <- <-. pose proof (io_step _ _ Hw3 Hg2) as [Hg3 _]. split.
    + apply (rel_run _ _ _ _ _ (fail_current_sync _ _) Hf). by apply (io_sync _ _ Hw3).
    + apply (fail_current_ok _ _ _ _ _ Hg3 Hf). by rewrite (io_db _ _ Hw3).
Qed.

(** The loop: every due task is advanced, or the job failed. *)
Lemma queue_dependents_ok job_id tasks ids l w w' b :
  all_completed ids w → synced w → is_Some (db_jobs (w_db w) !! job_id) →
  for_while (queue_dependent job_id tasks ids) l w = (w', Ok b) →
  synced w' ∧ if b then ∀ x, x ∈ l → due (tm_id x) ids w → advanced (tm_id x) w'
              else job_failed job_id w'.
Proof.
  revert w. induction l as [|x l IH]; intros w Hall Hsync Hjob H; cbn in H.
  { injection H as <- <-. split; [done|]. intros x Hx. by apply elem_of_nil in Hx. }
  apply bind_ok in H as (go & w1 & Hx & H).
  pose proof (queue_dependent_step job_id tasks ids x w Hall) as Hs. unfold rel_at in Hs.
  rewrite Hx in Hs. apply queue_dependent_ok in Hx as [Hsy Hx]; [|done..].
  destruct go; [|by injection H as <- <-].
  assert (all_completed ids w1) as Hall1 by by eapply all_completed_step.
  destruct Hall as [Hg _]. destruct (Hs Hg) as (Hg1 & _ & Hr).
  assert (is_Some (db_jobs (w_db w1) !! job_id)) as Hjob1.
  { destruct Hjob as [j Hj]. destruct (dr_jobs _ _ Hr _ _ Hj) as (j' & ? & _). eauto. }
  pose proof (rel_at_for_while step (all_completed ids) (queue_dependent job_id tasks ids) l w1
    (all_completed_step ids) (λ y v, queue_dependent_step job_id tasks ids y v) Hall1) as Hl.
  unfold rel_at in Hl. rewrite H in Hl. cbn [fst] in Hl.
  destruct (IH w1 Hall1 Hsy Hjob1 H) as [Hsy' Hb]. split; [done|].
  destruct b; [|done]. intros y [->|Hy]%elem_of_cons Hdue.
  - eapply advanced_step; [exact Hg1|by apply Hx|done].
  - apply Hb; [done|]. by apply (due_step _ _ w).
Qed.

(** ** Cancelling tasks *)

Lemma elem_of_tasks_of job_id d t :
  db_inv d → t ∈ tasks_of job_id d ↔ db_tasks d !! tm_id t = Some t ∧ tm_job_id t = job_id.
Proof.
  intros Hi. unfold tasks_of. rewrite elem_of_filter_b, N.eqb_eq, list_elem_of_fmap.
  split; intros [H1 H2]; (split; [|done]).
  - destruct H1 as ([k x] & -> & Hx). apply elem_of_map_to_list in Hx. cbn.
    by rewrite (inv_task_key _ Hi _ _ Hx).
  - exists (tm_id t, t). split; [done|]. by apply elem_of_map_to_list.
Qed.

Definition cancel_row (from : list TaskStatus) (t : TaskModel) : TaskModel :=
  if bool_decide (tm_status t ∈ from) then tm_set_status TCancelled t else t.

Lemma cancel_task_run from x w :
  (∀ k t, db_tasks (w_db w) !! k = Some t → tm_id t = k) →
  ∃ d, cancel_task from x w = (set_db d w, Ok ()) ∧ db_jobs d = db_jobs (w_db w) ∧
    db_artifacts d = db_artifacts (w_db w) ∧
    ∀ k, db_tasks d !! k =
      (if bool_decide (k = tm_id x) then cancel_row from else id) <$> db_tasks (w_db w) !! k.
Proof.
  intros Hk. unfold cancel_task, get_task.
  rewrite (bind_run (gets _) _ w w (db_tasks (w_db w) !! tm_id x)) by done.
  assert (w = set_db (w_db w) w) as Hself by by destruct w.
  destruct (db_tasks (w_db w) !! tm_id x) as [m|] eqn:Hm.
  2: { exists (w_db w). split_and!; [by rewrite <-Hself|done|done|]. intros k.
       case_bool_decide as Hkx; [by rewrite Hkx, Hm|]. by destruct (db_tasks (w_db w) !! k). }
  destruct (bool_decide_reflect (tm_status m ∈ from)) as [Hs|Hs]; cbn [when].
  - eexists. split_and!; [done..|]. intros k. cbn. rewrite (Hk _ _ Hm).
    case_bool_decide as Hkx; [|rewrite lookup_insert_ne by done; by destruct (db_tasks (w_db w) !! k)].
    subst k. rewrite lookup_insert_eq, Hm. cbn. unfold cancel_row.
    by rewrite bool_decide_eq_true_2.
  - exists (w_db w). split_and!; [by rewrite <-Hself|done|done|]. intros k.
    case_bool_decide as Hkx; [|by destruct (db_tasks (w_db w) !! k)].
    subst k. rewrite Hm. cbn. unfold cancel_row. by rewrite bool_decide_eq_false_2.
Qed.

(** [cancel_tasks] rewrites the rows it is given and nothing else. *)
Lemma cancel_tasks_run from l w :
  TCancelled ∉ from → (∀ k t, db_tasks (w_db w) !! k = Some t → tm_id t = k) →
  ∃ d, cancel_tasks from l w = (set_db d w, Ok ()) ∧ db_jobs d = db_jobs (w_db w) ∧
    db_artifacts d = db_artifacts (w_db w) ∧
    ∀ k, db_tasks d !! k =
         (if bool_decide (k ∈ tm_id <$> l) then cancel_row from else id) <$> db_tasks (w_db w) !! k.
Proof.
  intros Hfrom. revert w. induction l as [|x l IH]; intros w Hk.
  { exists (w_db w). split_and!; [by destruct w|done|done|]. intros k. cbn.
    by destruct (db_tasks (w_db w) !! k). }
  destruct (cancel_task_run from x w Hk) as (d1 & Hrun & Hj1 & Ha1 & Ht1).
  unfold cancel_tasks. cbn [for_each].
  rewrite (bind_run _ _ w _ () Hrun). destruct (IH (set_db d1 w)) as (d & Hrun2 & Hj & Ha & Ht).
  { intros k t. cbn. rewrite Ht1. destruct (db_tasks (w_db w) !! k) as [t'|] eqn:Ht'; [|done].
    intros [= <-]. pose proof (Hk _ _ Ht'). case_bool_decide; [|done]. unfold cancel_row.
    by case_bool_decide. }
  exists d. unfold cancel_tasks in Hrun2. rewrite Hrun2. cbn in *.
  split_and!; [done|congruence|congruence|]. intros k. rewrite Ht, Ht1, <-option_fmap_compose.
  destruct (db_tasks (w_db w) !! k) as [t|]; [|done]. cbn. f_equal.
  destruct (decide (k = tm_id x)) as [Hkx|Hkx].
  - rewrite (bool_decide_eq_true_2 (k = tm_id x)), (bool_decide_eq_true_2 (k ∈ tm_id x :: _))
      by (done || by rewrite Hkx; left).
    destruct (bool_decide (k ∈ _)); [|done]. cbn. unfold cancel_row.
    destruct (bool_decide_reflect (tm_status t ∈ from)); cbn; by rewrite bool_decide_eq_false_2.
  - rewrite (bool_decide_eq_false_2 (k = tm_id x)) by done. cbn.
    by rewrite (bool_decide_ext (k ∈ tm_id x :: _) (k ∈ tm_id <$> l))
      by (rewrite elem_of_cons; naive_solver).
Qed.

(** ** Advancing a job *)

(** A task of the job whose dependencies are all completed tasks of the job. *)
Definition unblocked (job_id k : UUID) (w : world) : Prop :=
  ∃ t, db_tasks (w_db w) !! k = Some t ∧ tm_job_id t = job_id ∧
    ∀ d, d ∈ tm_dependencies t →
      ∃ td, db_tasks (w_db w) !! d = Some td ∧ tm_job_id td = job_id ∧ tm_status td = TCompleted.

Lemma unblocked_step job_id k w w' : good w → unblocked job_id k w → step w w' → unblocked job_id k w'.
Proof.
  intros Hg (t & Ht & Hj & Hd) Hs. destruct (Hs Hg) as (_ & _ & Hr).
  destruct (dr_tasks _ _ Hr _ _ Ht) as (t' & Ht' & [Hj' _ _ Hdep _ _ _ _ _]).
  exists t'. split_and!; [done|congruence|]. rewrite Hdep. intros d Hin.
  destruct (Hd d Hin) as (td & Htd & Hjd & Hc).
  destruct (dr_tasks _ _ Hr _ _ Htd) as (td' & Htd' & [Hjd' _ _ _ _ _ _ _ Hst]).
  exists td'. split_and!; [done|congruence|]. rewrite Hc in Hst. by apply bool_decide_eq_true in Hst.
Qed.

Lemma elem_of_completed_ids job_id w d td :
  good w → db_tasks (w_db w) !! d = Some td → tm_job_id td = job_id → tm_status td = TCompleted →
  d ∈ completed_ids_of (tasks_of job_id (w_db w)).
Proof.
  intros Hg Htd Hj Hc. apply list_elem_of_fmap. exists td.
  pose proof (task_key _ _ _ Hg Htd) as Hk. split; [done|].
  apply elem_of_filter_b. split; [|by apply bool_decide_eq_true].
  apply elem_of_tasks_of; [apply Hg|]. by rewrite Hk.
Qed.

Lemma completed_ids_completed job_id w :
  good w → all_completed (completed_ids_of (tasks_of job_id (w_db w))) w.
Proof.
  intros Hg. split; [done|]. intros k (td & -> & Htd)%list_elem_of_fmap.
  apply elem_of_filter_b in Htd as [Htd Hc]. apply bool_decide_eq_true in Hc.
  apply elem_of_tasks_of in Htd as [Htd _]; [|apply Hg]. by exists td.
Qed.

Lemma advance_job_ok job_id k w w' u :
  good w → synced w → is_Some (db_jobs (w_db w) !! job_id) → unblocked job_id k w →
  advance_job job_id w = (w', Ok u) → advanced k w' ∨ job_failed job_id w'.
Proof.
  intros Hg Hsync Hjob (t & Ht & Hj & Hd) H. unfold advance_job, job_tasks, Effects.get_job in H.
  rewrite (bind_run (gets _) _ w w (tasks_of job_id (w_db w))) in H by done.
  rewrite (bind_run (gets _) _ w w (db_jobs (w_db w) !! job_id)) in H by done.
  assert (t ∈ tasks_of job_id (w_db w)) as Hin.
  { apply elem_of_tasks_of; [apply Hg|]. by rewrite (task_key _ _ _ Hg Ht). }
  set (all := tasks_of job_id (w_db w)) in *.
  destruct (match db_jobs (w_db w) !! job_id with Some _ => _ | None => _ end).
  - assert (rel step (cancel_tasks [TPending] all)) as Hcs by (apply cancel_tasks_step; set_solver).
    destruct (cancel_tasks_run [TPending] all w) as (d & Hrun & _ & _ & Hrows);
      [by rewrite list_elem_of_singleton|apply Hg|].
    rewrite (bind_run _ _ _ _ _ Hrun) in H. apply bind_ok in H as (u2 & w2 & Hc & H).
    destruct (rel_run _ _ _ _ _ Hcs Hrun Hg) as (Hg1 & _).
    destruct (rel_run _ _ _ _ _ commit_step Hc Hg1) as (Hg2 & _).
    apply commit_synced in Hc as (_ & _ & Hdisk). left.
    eapply (advanced_step _ w2); [done| |by apply (rel_run _ _ _ _ _ (check_cancellation_step _) H)].
    exists (cancel_row [TPending] t). rewrite Hdisk. cbn. rewrite Hrows, Ht.
    rewrite bool_decide_eq_true_2
      by (rewrite <-(task_key _ _ _ Hg Ht); by apply list_elem_of_fmap_2).
    split; [done|]. unfold cancel_row. case_bool_decide as Hp; [done|].
    rewrite list_elem_of_singleton in Hp. done.
  - pose proof (completed_ids_completed job_id w Hg) as Hall.
    apply bind_ok in H as (b & w1 & Hl & H).
    pose proof (rel_at_for_while step _ (queue_dependent job_id all (completed_ids_of all)) all w
      (all_completed_step _) (λ y v, queue_dependent_step job_id all _ y v) Hall) as Hs.
    unfold rel_at in Hs. rewrite Hl in Hs. destruct (Hs Hg) as (Hg1 & _).
    destruct (queue_dependents_ok _ _ _ _ _ _ _ Hall Hsync Hjob Hl) as [_ Hb].
    destruct b; cbn [when] in H; [|injection H as <- _; by right]. left.
    eapply (advanced_step _ w1); [done| |by apply (rel_run _ _ _ _ _ (check_completion_step _) H)].
    rewrite <-(task_key _ _ _ Hg Ht). apply Hb; [done|]. exists t.
    rewrite (task_key _ _ _ Hg Ht). split; [done|]. intros _ dep Hdep.
    destruct (Hd dep Hdep) as (td & Htd & Hjd & Hc). by eapply elem_of_completed_ids.
Qed.

Lemma complete_task_ok w task_id task w' u :
  good w → synced w → db_tasks (w_db w) !! task_id = Some task → tm_status task ≠ TSkipped →
  complete_task task w = (w', Ok u) → synced w' ∧ is_completed (w_db w') task_id.
Proof.
  intros Hg Hsync Htask Hskip H. unfold complete_task in H.
  destruct (bool_decide_reflect (tm_status task ∈ [TCompleted; TSkipped])) as [Hs|].
  - injection H as <-. split; [done|]. exists task. split; [done|]. set_solver.
  - rewrite (bind_run now _ w w (w_now w)) in H by done.
    apply bind_ok in H as ([] & w1 & Hput & Hc). injection Hput as <-.
    apply commit_synced in Hc as (Hsy & Hdb & _). split; [done|].
    eexists. rewrite Hdb. cbn. by rewrite (task_key _ _ _ Hg Htask), lookup_insert_eq.
Qed.
End outcomes.

(** C7: dependents advance.  When a task of a job is completed and its handler
    returns, every task of the job whose other dependencies were completed has
    left PENDING, unless the job has failed. *)
Theorem dependents_advance `{E : Env} w task_id task k t w' u :
  at_rest w → db_tasks (w_disk w) !! task_id = Some task → tm_status task ≠ TSkipped →
  is_Some (db_jobs (w_disk w) !! tm_job_id task) →
  db_tasks (w_disk w) !! k = Some t → tm_job_id t = tm_job_id task →
  (∀ d, d ∈ tm_dependencies t → ∃ td, db_tasks (w_disk w) !! d = Some td ∧
     tm_job_id td = tm_job_id task ∧ (d = task_id ∨ tm_status td = TCompleted)) →
  handle_task_completed task_id w = (w', Ok u) →
  (∃ t', db_tasks (w_disk w') !! k = Some t' ∧ tm_status t' ≠ TPending) ∨
  (∃ j, db_jobs (w_disk w') !! tm_job_id task = Some j ∧ j_status j = JFailed).
Proof.
  intros [Hrest Hi] Htask Hskip [j Hj] Hk Htj Hd H.
  assert (good w) as Hg by (by split; rewrite ?Hrest).
  rewrite <-Hrest in Htask, Hj, Hk, Hd.
  unfold handle_task_completed, get_task in H.
  rewrite (bind_run (gets _) _ w w (Some task)) in H by (unfold gets; by rewrite Htask).
  apply bind_ok in H as ([] & w1 & H1 & H). apply bind_ok in H as ([] & w2 & H2 & H).
  apply bind_ok in H as ([] & w3 & H3 & H).
  pose proof (complete_task_step w task Hg) as Hs1. unfold rel_at in Hs1. rewrite H1 in Hs1.
  rewrite (task_key _ _ _ Hg Htask) in Hs1. specialize (Hs1 Htask).
  destruct (Hs1 Hg) as (Hg1 & _ & Hr1). cbn [fst] in *.
  destruct (complete_task_ok w task_id task w1 ()) as [Hsync1 (task' & Htask' & Hc')];
    [done|by unfold synced; rewrite Hrest|done..|].
  assert (unblocked (tm_job_id task) k w1) as Hu.
  { destruct (dr_tasks _ _ Hr1 _ _ Hk) as (t1 & Ht1 & [Hj1 _ _ Hdep1 _ _ _ _ _]).
    exists t1. split_and!; [done|congruence|]. rewrite Hdep1. intros d Hin.
    destruct (Hd d Hin) as (td & Htd & Hjd & Hcd).
    destruct (dr_tasks _ _ Hr1 _ _ Htd) as (td' & Htd' & [Hjd' _ _ _ _ _ _ _ Hst]).
    exists td'. split_and!; [done|congruence|]. destruct Hcd as [->|Hcd]; [congruence|].
    rewrite Hcd in Hst. by apply bool_decide_eq_true in Hst. }
  pose proof (rel_run _ _ _ _ _ (record_enrichment_step task) H2) as Hs2.
  destruct (Hs2 Hg1) as (Hg2 & _ & Hr2).
  pose proof (rel_run _ _ _ _ _ (update_audio_duration_step task) H3) as Hs3.
  destruct (Hs3 Hg2) as (Hg3 & _ & Hr3).
  apply (rel_run _ _ _ _ _ (record_enrichment_sync task)) in H2.
  apply (rel_run _ _ _ _ _ (update_duration_sync task)) in H3.
  apply (advance_job_ok (tm_job_id task) k w3 w' u); [done|auto| | |done].
  - destruct (dr_jobs _ _ Hr1 _ _ Hj) as (j1 & Hj1 & _). destruct (dr_jobs _ _ Hr2 _ _ Hj1) as (j2 & Hj2 & _).
    destruct (dr_jobs _ _ Hr3 _ _ Hj2) as (j3 & Hj3 & _). eauto.
  - eapply (unblocked_step _ _ w2); [done| |done]. by eapply (unblocked_step _ _ w1).
Qed.

(** The demonstration job when its prepare task is done. *)
Lemma dependents_advance_witness :
  let w := SysDemo.preparing SysDemo.plain in
  SysDemo.status_of 101 w = Some TPending ∧
  ∃ w', @handle_task_completed SysDemo.env 100 w = (w', Ok ()) ∧
    ((∃ t', db_tasks (w_disk w') !! 101%N = Some t' ∧ tm_status t' ≠ TPending) ∨
     (∃ j, db_jobs (w_disk w') !! 1%N = Some j ∧ j_status j = JFailed)).
Proof.
  cbv zeta. set (w := SysDemo.preparing _). split; [vm_compute; reflexivity|].
  destruct (@handle_task_completed SysDemo.env 100 w) as [w' [[]|e]] eqn:H;
    [|vm_compute in H; discriminate H].
  exists w'. split; [reflexivity|].
  destruct (db_tasks (w_disk w) !! 100%N) as [task|] eqn:Ht; [|vm_compute in Ht; discriminate Ht].
  destruct (db_tasks (w_disk w) !! 101%N) as [t|] eqn:Ht'; [|vm_compute in Ht'; discriminate Ht'].
  assert (tm_job_id task = 1%N) as <- by (vm_compute in Ht; injection Ht as <-; reflexivity).
  apply (@dependents_advance SysDemo.env w 100 task 101 t w' ()); try assumption.
  - eapply sys_rest; [apply (SysDemo.preparing_rtc SysDemo.plain [])|apply SysDemo.empty_rest].
  - vm_compute in Ht. injection Ht as <-. discriminate.
  - vm_compute in Ht. injection Ht as <-. eexists. vm_compute. reflexivity.
  - vm_compute in Ht, Ht'. injection Ht as <-. injection Ht' as <-. reflexivity.
  - intros d Hd. exists task. vm_compute in Ht'. injection Ht' as <-. cbn in Hd.
    apply list_elem_of_singleton in Hd as ->. split; [exact Ht|split; [reflexivity|by left]].
Defined.
