(* ===== verification/Lifecycle.v ===== *)
(** * The end of a job

    What [_check_job_completion] and the cancellation handler leave behind, on
    every branch: the job's row, the published event, the tenant's slot. *)

From S2P Require Import Prelude PyValue Models Catalog Registry Selector Dag Store.
From S2P Require Import Effects Streams RateLimiter Scheduler PostProcessor Handlers.
From S2P Require Import Jobs Slots Invariants System Outcomes.

(** ** Operations that do not die *)

Section alive.
Context `{E : Env}.

(** With no crash planned, [m] does not crash, and plans none. *)
Definition survives {A} (m : M A) : Prop :=
  ∀ w, w_budget w = None → w_budget (m w).1 = None ∧ (m w).2 ≠ Raise Crash.

Lemma survives_bind {A B} (m : M A) (k : A → M B) :
  survives m → (∀ a, survives (k a)) → survives (m ≫= k).
Proof.
  intros Hm Hk w Hb. unfold mbind, M_bind. specialize (Hm w Hb).
  destruct (m w) as [w' [a|e]]; [apply Hk, Hm|]. cbn in *. split; [apply Hm|].
  intros [= ->]. by destruct Hm.
Qed.
Lemma survives_ret {A} (a : A) : survives (mret a).
Proof. by intros w Hb. Qed.
Lemma survives_gets {A} (f : world → A) : survives (gets f).
Proof. by intros w Hb. Qed.
Lemma survives_modify f : (∀ w, w_budget (f w) = w_budget w) → survives (modify f).
Proof. intros Hf w Hb. by cbn; rewrite Hf. Qed.
Lemma survives_raise {A} e : e ≠ Crash → survives (@raise A e).
Proof. intros He w Hb. split; [done|]. by intros [= ->]. Qed.
Lemma survives_lift {A} (m : res exn A) : m ≠ Raise Crash → survives (lift m).
Proof. by intros Hm w Hb. Qed.
Lemma survives_lift_py {A} (m : res pyexn A) : survives (lift_py m).
Proof. intros w Hb. by destruct m. Qed.
Lemma survives_effect {A} (f : world → world * A) :
  (∀ w, w_budget (f w).1 = w_budget w) → survives (effect f).
Proof.
  intros Hf w Hb. rewrite effect_run by done. specialize (Hf w).
  destruct (f w) as [w' a]. cbn in *. split; [congruence|done].
Qed.
Lemma survives_redis f : survives (redis f).
Proof. by apply survives_effect. Qed.
Lemma survives_when b m : survives m → survives (when b m).
Proof. intros Hm. destruct b; [done|apply survives_ret]. Qed.
Lemma survives_fmap {A B} (f : A → B) (m : M A) : survives m → survives (f <$> m).
Proof.
  intros Hm w Hb. specialize (Hm w Hb). unfold fmap, M_fmap.
  destruct (m w) as [w' [a|e]]; cbn in *; split; [apply Hm|done|apply Hm|].
  intros [= ->]. by destruct Hm.
Qed.
Lemma survives_for_each {A} (f : A → M ()) l : (∀ x, survives (f x)) → survives (for_each f l).
Proof.
  intros Hf. induction l as [|x l IH]; cbn; [apply survives_ret|]. by apply survives_bind.
Qed.
Lemma survives_catch {A} (m : M A) h :
  survives m → (∀ e m', h e = Some m' → survives m') → survives (catch m h).
Proof.
  intros Hm Hh w Hb. unfold catch. specialize (Hm w Hb).
  destruct (m w) as [w' [a|e]]; [done|]. destruct (h e) as [m'|] eqn:He; [|done].
  apply (Hh _ _ He). apply Hm.
Qed.

Lemma survives_except_any {A} (m : M A) k :
  survives m → (∀ e, e ≠ Crash → survives (k e)) → survives (catch m (except_any k)).
Proof.
  intros Hm Hk. apply survives_catch; [done|]. intros e m' He.
  destruct e; cbn in He; simplify_eq; by apply Hk.
Qed.

Ltac survive :=
  repeat first
    [ lazymatch goal with |- survives _ => fail | |- _ => progress intros end
    | solve [eauto using survives_ret, survives_gets, survives_lift_py, survives_redis]
    | lazymatch goal with
      | |- survives (mbind _ _) => apply survives_bind
      | |- survives (fmap _ _) => apply survives_fmap
      | |- survives (when _ _) => apply survives_when
      | |- survives (for_each _ _) => apply survives_for_each
      | |- survives (raise _) => by apply survives_raise
      | |- survives (catch _ (except_any _)) => apply survives_except_any
      | |- survives (modify _) => apply survives_modify
      | |- survives (effect _) => apply survives_effect
      | |- survives (effect_ _) => apply survives_effect
      | |- survives (match _ with _ => _ end) => case_match
      end ].

Lemma publish_survives e : survives (publish_event e).
Proof. unfold publish_event. survive; done. Qed.

Lemma add_task_survives q t j s : survives (add_task q t j s).
Proof. unfold add_task, ensure_stream_group, now. survive; done. Qed.

Lemma add_task_once_survives q t j s k : survives (add_task_once q t j s k).
Proof.
  unfold add_task_once, ensure_stream_group, now. survive. by destruct (enqueue_once _ _ _ _ _ _).
Qed.

Lemma queue_task_survives task pr md key : survives (queue_task task pr md key).
Proof.
  pose proof publish_survives. pose proof add_task_survives. pose proof add_task_once_survives.
  unfold queue_task, enqueue_task, write_task_request, _load_job_artifact_index, now.
  destruct (wait_policy _) as [behavior timeout]. survive; done.
Qed.

Lemma schedule_survives job : survives (schedule_post_processing job).
Proof.
  pose proof queue_task_survives.
  unfold schedule_post_processing, draw_uuids, insert_tasks, insert_task, put_task, modify_db,
    commit, job_tasks, get_task, now. survive; try done.
Qed.

(** ** Runs of the final steps *)

(** What [_decrement_concurrent_jobs] leaves: the guard, and otherwise only
    the counter changed. *)
Record released (job : UUID) (w w' : world) : Prop := {
  rl_db : w_db w' = w_db w;
  rl_disk : w_disk w' = w_disk w;
  rl_now : w_now w' = w_now w;
  rl_budget : w_budget w' = w_budget w;
  rl_durable : w_durable w' = w_durable w;
  rl_transcripts : w_transcripts w' = w_transcripts w;
  rl_cancelled : r_cancelled (w_redis w') = r_cancelled (w_redis w);
  rl_guard : is_Some (rget (w_now w) (r_decremented (w_redis w')) job);
}.

Lemma decrement_run job tenant w :
  w_budget w = None →
  ∃ w' b, _decrement_concurrent_jobs job tenant w = (w', Ok b) ∧ released job w w'.
Proof.
  intros Hb. unfold _decrement_concurrent_jobs, now.
  rewrite (bind_run (gets _) _ w w (w_now w)) by done. unfold set_nx.
  destruct (rget (w_now w) (r_decremented (w_redis w)) job) eqn:Hg.
  - eexists _, false. erewrite bind_run; [|rewrite effect_run, Hg by done; reflexivity].
    cbn. split; [done|]. by split; cbn; rewrite ?Hg.
  - erewrite bind_run; [|rewrite effect_run, Hg by done; reflexivity]. cbn [negb].
    assert (∀ r, r_decremented r = <[job := ((), Some (w_now w + seconds
      CONCURRENT_COUNTER_TTL_SECONDS)%Z)]> (r_decremented (w_redis w)) →
      is_Some (rget (w_now w) (r_decremented r) job)) as Hset.
    { intros r ->. unfold rget. rewrite lookup_insert_eq. cbn.
      destruct (Z.ltb_spec (w_now w) (w_now w + seconds CONCURRENT_COUNTER_TTL_SECONDS));
        [by eexists|unfold seconds, CONCURRENT_COUNTER_TTL_SECONDS in *; lia]. }
    destruct (add_counter (w_now w) tenant (-1) (r_jobs (w_redis w))) as [c n] eqn:Hc.
    erewrite bind_run; [|rewrite effect_run by done; cbn; rewrite Hc; reflexivity].
    destruct (n <? 0)%Z; cbn [when].
    + erewrite bind_run; [|by rewrite redis_run]. eexists _, true. split; [done|].
      split; try done. by apply Hset.
    + eexists _, true. split; [done|]. split; try done. by apply Hset.
Qed.

(** ** Cancellation *)

Definition cancelled_job (job : JobModel) (t : timestamp) : JobModel :=
  j_update job JCancelled (j_error job) (j_started_at job) (Some t).

Definition has_running (tasks : list TaskModel) : bool :=
  existsb (λ t, bool_decide (tm_status t = TRunning)) tasks.

Lemma has_running_spec job_id d :
  has_running (tasks_of job_id d) = true ↔
  ∃ k t, db_tasks d !! k = Some t ∧ tm_job_id t = job_id ∧ tm_status t = TRunning.
Proof.
  unfold has_running. rewrite existsb_exists. setoid_rewrite bool_decide_eq_true. split.
  - intros (t & Hin & Hs). apply list_elem_of_In in Hin. unfold tasks_of in Hin.
    apply elem_of_filter_b in Hin as [Hin Hj]. apply N.eqb_eq in Hj.
    apply list_elem_of_fmap in Hin as ([k x] & -> & Hx). apply elem_of_map_to_list in Hx. eauto.
  - intros (k & t & Ht & Hj & Hs). exists t. split; [|done]. apply list_elem_of_In.
    apply elem_of_filter_b. split; [|by apply N.eqb_eq]. apply list_elem_of_fmap.
    exists (k, t). split; [done|]. by apply elem_of_map_to_list.
Qed.

(** Cancelling what is not running keeps what is. *)
Lemma has_running_cancel job_id from d d' :
  TRunning ∉ from →
  (∀ k, db_tasks d' !! k = (λ t, if N.eqb (tm_job_id t) job_id then cancel_row from t else t)
     <$> db_tasks d !! k) →
  has_running (tasks_of job_id d') = has_running (tasks_of job_id d).
Proof.
  intros Hfrom Hd. apply eq_true_iff_eq. rewrite !has_running_spec. split.
  - intros (k & t' & Ht' & Hj & Hs). rewrite Hd in Ht'.
    destruct (db_tasks d !! k) as [t|] eqn:Ht; [|done]. injection Ht' as <-. exists k, t.
    destruct (N.eqb_spec (tm_job_id t) job_id); [|done]. unfold cancel_row in Hs.
    by case_bool_decide.
  - intros (k & t & Ht & Hj & Hs). exists k, t. split; [|done]. rewrite Hd, Ht. cbn.
    rewrite Hj, N.eqb_refl. unfold cancel_row. by rewrite Hs, bool_decide_eq_false_2.
Qed.

(** The end of a cancellation that found no running task. *)
Lemma cancellation_complete_run job_id job w :
  w_budget w = None → db_jobs (w_db w) !! job_id = Some job → j_status job = JCancelling →
  has_running (tasks_of job_id (w_db w)) = false →
  ∃ w', _check_job_cancellation_complete job_id w = (w', Ok ()) ∧
    w_db w' = db_put_job (cancelled_job job (w_now w)) (w_db w) ∧ w_disk w' = w_db w' ∧
    w_durable w' = w_durable w ++ [JobCancelledEvent job_id] ∧
    is_Some (rget (w_now w) (r_decremented (w_redis w')) job_id) ∧
    r_cancelled (w_redis w') = r_cancelled (w_redis w).
Proof.
  intros Hb Hj Hs Hr. unfold _check_job_cancellation_complete, Effects.get_job, job_tasks, now.
  rewrite (bind_run (gets _) _ w w (Some job)) by (unfold gets; by rewrite Hj).
  rewrite Hs. cbn [negb bool_decide]. rewrite bool_decide_eq_true_2 by done. cbn [negb].
  rewrite (bind_run (gets _) _ w w (tasks_of job_id (w_db w))) by done.
  unfold has_running in Hr. rewrite Hr, (bind_run (gets _) _ w w (w_now w)) by done.
  fold (cancelled_job job (w_now w)).
  set (w1 := set_db (db_put_job (cancelled_job job (w_now w)) (w_db w)) w).
  rewrite (bind_run (put_job _) _ w w1 ()), (bind_run commit _ w1 _ () (commit_run w1 Hb)) by done.
  set (w2 := set_disk _ w1).
  destruct (decrement_run job_id (j_tenant_id job) w2 Hb) as (w3 & b & H3 & [Hdb3 Hdk3 _ Hb3 Hd3 _ Hc3 Hg3]).
  rewrite (bind_run _ _ _ _ _ H3), publish_run by (done || by rewrite Hb3).
  eexists. split; [done|]. cbn. rewrite Hdb3, Hdk3, Hd3. done.
Qed.

(** C14: cancellation.  The handler of a cancellation request cancels exactly
    the pending and ready tasks of the job and flags the job for the engines;
    when no task is running the job ends CANCELLED, its slot is given back and
    the event is published, and otherwise its row is kept and nothing is
    published. *)
Theorem cancel_requested_outcome w job_id job :
  at_rest w → w_budget w = None → db_jobs (w_disk w) !! job_id = Some job →
  j_status job = JCancelling →
  ∃ w', handle_job_cancel_requested job_id w = (w', Ok ()) ∧ w_db w' = w_disk w' ∧
    (∀ k, db_tasks (w_disk w') !! k =
       (λ t, if N.eqb (tm_job_id t) job_id then cancel_row [TPending; TReady] t else t)
         <$> db_tasks (w_disk w) !! k) ∧
    is_Some (rget (w_now w) (r_cancelled (w_redis w')) job_id) ∧
    if has_running (tasks_of job_id (w_disk w)) then
      db_jobs (w_disk w') = db_jobs (w_disk w) ∧ w_durable w' = w_durable w
    else
      db_jobs (w_disk w') = <[j_id job := cancelled_job job (w_now w)]> (db_jobs (w_disk w)) ∧
      w_durable w' = w_durable w ++ [JobCancelledEvent job_id] ∧
      is_Some (rget (w_now w) (r_decremented (w_redis w')) job_id).
Proof.
  intros [Hrest Hi] Hb Hj Hs. rewrite <-Hrest in *.
  unfold handle_job_cancel_requested, mark_job_cancelled, now, job_tasks.
  set (w1 := set_redis (put_cancelled (<[job_id := ((),
    Some (w_now w + seconds JOB_CANCELLED_TTL_SECONDS)%Z)]> (r_cancelled (w_redis w))) (w_redis w)) w).
  rewrite (bind_run (gets w_now ≫= _) _ w w1 ())
    by (rewrite (bind_run (gets w_now) _ w w (w_now w)), redis_run by done; done).
  rewrite (bind_run (gets _) _ w1 w1 (tasks_of job_id (w_db w))) by done.
  set (all := tasks_of job_id (w_db w)).
  destruct (cancel_tasks_run [TPending; TReady] all w1) as (d & Hrun & Hdj & Hda & Hdt);
    [set_solver|by apply Hi|].
  assert (∀ k, db_tasks d !! k =
    (λ t, if N.eqb (tm_job_id t) job_id then cancel_row [TPending; TReady] t else t)
      <$> db_tasks (w_db w) !! k) as Hdt'.
  { intros k. rewrite Hdt. cbn. destruct (db_tasks (w_db w) !! k) as [t|] eqn:Ht; [|done].
    cbn. f_equal. pose proof (inv_task_key _ Hi _ _ Ht) as Hk.
    destruct (N.eqb_spec (tm_job_id t) job_id) as [He|He].
    - rewrite bool_decide_eq_true_2; [done|]. rewrite <-Hk. apply list_elem_of_fmap_2.
      apply elem_of_tasks_of; [done|]. by rewrite Hk.
    - rewrite bool_decide_eq_false_2; [done|]. intros (t' & -> & Ht')%list_elem_of_fmap.
      apply elem_of_tasks_of in Ht' as [Ht' ?]; [|done]. congruence. }
  rewrite (bind_run _ _ _ _ _ Hrun), (bind_run commit _ _ _ () (commit_run (set_db d w1) Hb)).
  set (w2 := set_disk _ _).
  assert (has_running (tasks_of job_id d) = has_running all) as Hrunning
    by (apply (has_running_cancel _ [TPending; TReady]); [set_solver|done]).
  assert (is_Some (rget (w_now w) (r_cancelled (w_redis w1)) job_id)) as Hflag.
  { cbn. unfold rget. rewrite lookup_insert_eq. cbn.
    destruct (Z.ltb_spec (w_now w) (w_now w + seconds JOB_CANCELLED_TTL_SECONDS));
      [by eexists|unfold seconds, JOB_CANCELLED_TTL_SECONDS in *; lia]. }
  destruct (has_running all) eqn:Hr.
  - exists w2. unfold _check_job_cancellation_complete, Effects.get_job, job_tasks.
    rewrite (bind_run (gets _) _ w2 w2 (Some job)) by (unfold gets; cbn; rewrite Hdj; cbn; by rewrite Hj).
    rewrite bool_decide_eq_true_2 by done. cbn [negb].
    rewrite (bind_run (gets _) _ w2 w2 (tasks_of job_id d)) by done.
    unfold has_running in Hrunning. rewrite Hrunning. done.
  - destruct (cancellation_complete_run job_id job w2 Hb) as (w' & Hw' & Hdb & Hdisk & Hev & Hg & Hc);
      [cbn; by rewrite Hdj|done|by cbn; rewrite Hrunning|].
    exists w'. rewrite Hw', Hdisk, Hdb. cbn. rewrite Hdj, Hc. done.
Qed.

(** ** Completion *)

(** The transcript of a job, from the responses of its tasks. *)
Definition linear_transcript (job : JobModel) (tasks : list TaskModel) : res pyexn (dict json) :=
  '(outputs, stages) ← res_foldl (λ acc t, collect_output t acc) ([], []) tasks;
  assemble job outputs stages.

(** How a job ends, given all its tasks. *)
Definition job_outcome (job : JobModel) (tasks : list TaskModel) : JobStatus * option error_text :=
  if any_required_failed (List.filter (λ t, negb (is_post_processing_task t)) tasks)
  then (JFailed, Some (text_or (j_error job) (EText "One or more required tasks failed")))
  else match linear_transcript job tasks with
       | Ok _ => (JCompleted, j_error job)
       | Raise e => (JFailed, Some (EAssembly (PyExn e)))
       end.

Definition outcome_event (job_id : UUID) (o : JobStatus * option error_text) : event :=
  match o with
  | (JFailed, e) => JobFailedEvent job_id (text_or e (EText "Unknown error"))
  | _ => JobCompletedEvent job_id
  end.

(** A world in which the session's row of the job has that outcome. *)
Record ending (job : JobModel) (o : JobStatus * option error_text) (w0 w : world) : Prop := {
  en_budget : w_budget w = None;
  en_now : w_now w = w_now w0;
  en_row : ∃ j, db_jobs (w_db w) !! j_id job = Some j ∧ j_id j = j_id job ∧
    j_status j = o.1 ∧ j_error j = o.2;
  en_transcript : o.1 = JCompleted →
    ∀ tr, linear_transcript job (tasks_of (j_id job) (w_db w0)) = Ok tr →
      w_transcripts w !! j_id job = Some tr;
}.

Lemma set_job_status_run job_id j st e w :
  db_jobs (w_db w) !! job_id = Some j →
  set_job_status job_id st e w =
    (set_db (db_put_job (j_update j st e (j_started_at j) (j_completed_at j)) (w_db w)) w, Ok ()).
Proof.
  intros Hj. unfold set_job_status, Effects.get_job.
  by rewrite (bind_run (gets _) _ w w (Some j)) by (unfold gets; by rewrite Hj).
Qed.

Lemma assemble_run job tasks w :
  w_budget w = None →
  _assemble_linear_transcript job tasks w =
    match linear_transcript job tasks with
    | Ok tr => (set_s3 (w_requests w) (<[j_id job := tr]> (w_transcripts w)) w, Ok ())
    | Raise e => (w, Raise (PyExn e))
    end.
Proof.
  intros Hb. unfold _assemble_linear_transcript, linear_transcript, lift_py, lift.
  unfold mbind at 1, M_bind at 1.
  destruct (res_foldl _ _ _) as [[outputs stages]|e]; cbn [lift_res]; [|done].
  unfold mbind at 1, M_bind at 1. cbn [mbind res_mbind res_bind].
  destruct (assemble _ _ _) as [tr|e]; cbn [lift_res]; [|done].
  unfold effect_. by rewrite effect_run.
Qed.

Lemma decide_outcome_run job tasks w :
  w_budget w = None → db_jobs (w_db w) !! j_id job = Some job → tasks = tasks_of (j_id job) (w_db w) →
  ∃ w', decide_outcome job tasks
      (any_required_failed (List.filter (λ t, negb (is_post_processing_task t)) tasks)) w = (w', Ok ()) ∧
    ending job (job_outcome job tasks) w w'.
Proof.
  intros Hb Hj ->. set (tasks := tasks_of _ _). unfold decide_outcome, job_outcome.
  destruct (any_required_failed _).
  { rewrite (set_job_status_run _ job) by done. eexists. split; [done|].
    split; [done|done| |done]. eexists. cbn. by rewrite lookup_insert_eq. }
  rewrite (bind_run _ _ _ _ _ (set_job_status_run _ job _ _ _ Hj)). unfold catch.
  set (w1 := set_db _ w). rewrite (assemble_run job tasks w1) by done.
  destruct (linear_transcript job tasks) as [tr|e] eqn:Htr.
  - eexists. split; [done|]. split; [done|done| |].
    + eexists. cbn. by rewrite lookup_insert_eq.
    + intros _ tr'. fold tasks. rewrite Htr. intros [= <-]. cbn. by rewrite lookup_insert_eq.
  - cbn [except_any].
    rewrite (set_job_status_run _ (j_update job JCompleted (j_error job) (j_started_at job)
      (j_completed_at job))) by (cbn; by rewrite lookup_insert_eq).
    eexists. split; [done|]. split; [done|done| |done]. eexists. cbn. by rewrite lookup_insert_eq.
Qed.

Lemma populate_run job o w0 w :
  ending job o w0 w →
  ∃ w', _populate_job_result_stats (j_id job) w = (w', Ok ()) ∧ ending job o w0 w'.
Proof.
  intros [Hb Hn (j & Hj & Hid & Hs & He) Ht]. unfold _populate_job_result_stats, Effects.get_job.
  rewrite (bind_run (gets _) _ w w (w_transcripts w)) by done.
  rewrite (bind_run (gets _) _ w w (Some j)) by (unfold gets; by rewrite Hj).
  assert (ending job o w0 w) as Hw by (split; eauto).
  destruct (w_transcripts w !! j_id job) as [tr|]; [|by exists w].
  destruct (extract_stats_from_transcript tr) as [st|e]; [|by exists w].
  eexists. split; [done|]. split; [exact Hb|exact Hn| |exact (en_transcript _ _ _ _ Hw)].
  cbn. rewrite Hid, lookup_insert_eq. by eexists.
Qed.

Lemma completed_at_run job o w0 w t :
  ending job o w0 w →
  ∃ w' j, set_completed_at (j_id job) t w = (w', Ok ()) ∧ ending job o w0 w' ∧
    db_jobs (w_db w') !! j_id job = Some j ∧ j_completed_at j = Some t.
Proof.
  intros [Hb Hn (j & Hj & Hid & Hs & He) Ht]. unfold set_completed_at, Effects.get_job.
  rewrite (bind_run (gets _) _ w w (Some j)) by (unfold gets; by rewrite Hj).
  eexists _, (j_update j (j_status j) (j_error j) (j_started_at j) (Some t)). split; [done|].
  assert (∀ d, d = db_put_job (j_update j (j_status j) (j_error j) (j_started_at j) (Some t))
    (w_db w) → db_jobs d !! j_id job
      = Some (j_update j (j_status j) (j_error j) (j_started_at j) (Some t))) as Hrow.
  { intros d ->. cbn. by rewrite Hid, lookup_insert_eq. }
  split_and!; [|by apply Hrow|done].
  split; [exact Hb|exact Hn| |exact Ht]. eexists. split; [by apply Hrow|done].
Qed.

(** *** Post-processing leaves the outcome alone *)

Record tail (job_id : UUID) (w w' : world) : Prop := {
  tl_db : db_jobs (w_db w') = db_jobs (w_db w);
  tl_disk : db_jobs (w_disk w) = db_jobs (w_db w) → db_jobs (w_disk w') = db_jobs (w_db w');
  tl_durable : ∃ l, w_durable w' = w_durable w ++ l;
  tl_transcripts : w_transcripts w' = w_transcripts w;
  tl_decremented : r_decremented (w_redis w') = r_decremented (w_redis w);
}.

#[export] Instance tail_pre job_id : PreOrder (tail job_id).
Proof.
  split; [by intros w; split; try done; exists []; rewrite app_nil_r|].
  intros w1 w2 w3 [H1 Hd1 [l1 Hl1] Ht1 Hr1] [H2 Hd2 [l2 Hl2] Ht2 Hr2].
  split; [congruence|auto| |congruence..]. exists (l1 ++ l2). by rewrite Hl2, Hl1, app_assoc.
Qed.
#[export] Instance tail_budget job_id : BudgetFree (tail job_id).
Proof. intros w b _. split; try done. exists []. by rewrite app_nil_r. Qed.

Lemma tail_of job_id w w' :
  db_jobs (w_db w') = db_jobs (w_db w) →
  (db_jobs (w_disk w) = db_jobs (w_db w) → db_jobs (w_disk w') = db_jobs (w_db w')) →
  w_durable w' = w_durable w → w_transcripts w' = w_transcripts w →
  r_decremented (w_redis w') = r_decremented (w_redis w) → tail job_id w w'.
Proof. intros. split; try done. exists []. by rewrite app_nil_r. Qed.

Ltac tail_effect := effect_step; by apply tail_of.

Lemma publish_tail job_id e : rel (tail job_id) (publish_event e).
Proof.
  unfold publish_event. steps; effect_step; [by apply tail_of|].
  split; try done. by exists [e].
Qed.

Lemma ensure_stream_group_tail job_id q : rel (tail job_id) (ensure_stream_group q).
Proof. unfold ensure_stream_group. effect_step. apply tail_of; cbn; try done. by case_match. Qed.

Lemma queue_task_tail job_id task pr md key : rel (tail job_id) (queue_task task pr md key).
Proof.
  pose proof (publish_tail job_id). pose proof (ensure_stream_group_tail job_id).
  unfold queue_task, enqueue_task, write_task_request, _load_job_artifact_index, add_task,
    add_task_once, lift_py, now.
  destruct (wait_policy _) as [behavior timeout]. steps; try tail_effect.
  effect_step. unfold enqueue_once. destruct (set_nx _ _ _ _ _) as [? []]; by apply tail_of.
Qed.

Lemma insert_task_tail job_id m : rel (tail job_id) (insert_task m).
Proof.
  unfold insert_task. steps. intros w. by apply tail_of.
Qed.

Lemma schedule_tail job_id job : rel (tail job_id) (schedule_post_processing job).
Proof.
  pose proof (queue_task_tail job_id). pose proof (insert_task_tail job_id).
  unfold schedule_post_processing, draw_uuids, insert_tasks, commit, job_tasks, get_task, now.
  steps; try tail_effect.
  - intros w. by apply tail_of.
  - intros w. by apply tail_of.
  - apply (rel_except_any (tail job_id)); steps; tail_effect.
Qed.

(** The last part of a completion never fails. *)
Lemma post_processing_run job_id job (b : bool) w :
  w_budget w = None →
  ∃ w', (if b then catch (schedule_post_processing job ;; mret ()) (except_any (λ _, mret ()))
         else mret ()) w = (w', Ok ()) ∧ tail job_id w w'.
Proof.
  intros Hb. destruct b; [|by exists w].
  assert (survives (schedule_post_processing job ;; mret ())) as Hsv
    by (apply survives_bind; [apply schedule_survives|intros _; apply survives_ret]).
  assert (rel (tail job_id) (schedule_post_processing job ;; mret ())) as Ht
    by (pose proof (schedule_tail job_id job); steps).
  specialize (Hsv w Hb). specialize (Ht w). unfold rel_at in Ht. unfold catch.
  destruct ((schedule_post_processing job ;; mret ()) w) as [w' [[]|e]]; cbn in *; [by exists w'|]. destruct Hsv as [_ Hsv].
  destruct e; try done; by exists w'.
Qed.

(** The event of an outcome, as the handler publishes it. *)
Lemma outcome_event_run job_id o j w :
  w_budget w = None → o.1 = JFailed ∨ o.1 = JCompleted → j_error j = o.2 →
  (if bool_decide (o.1 = JFailed)
   then publish_event (JobFailedEvent job_id (text_or (Some j ≫= j_error) (EText "Unknown error")))
   else publish_event (JobCompletedEvent job_id)) w =
  (set_events (w_pubsub w ++ [outcome_event job_id o]) (w_durable w ++ [outcome_event job_id o]) w,
   Ok ()).
Proof.
  intros Hb Ho He. destruct o as [st e]. cbn in *. destruct Ho as [Ho|Ho]; rewrite Ho; cbn.
  - rewrite bool_decide_eq_true_2, He by done. by rewrite publish_run.
  - rewrite bool_decide_eq_false_2 by done. by rewrite publish_run.
Qed.

(** From the dated row to the end of the handler. *)
Lemma finish_run job o w0 w j t (b : bool) :
  ending job o w0 w → o.1 = JFailed ∨ o.1 = JCompleted →
  db_jobs (w_db w) !! j_id job = Some j → j_error j = o.2 →
  ∃ w', (mark_owner_artifacts_available (j_id job) t ;;
         commit ;;
         _decrement_concurrent_jobs (j_id job) (j_tenant_id job) ;;
         o' ← Effects.get_job (j_id job);
         (if bool_decide (o.1 = JFailed) then
            publish_event (JobFailedEvent (j_id job)
              (text_or (o' ≫= j_error) (EText "Unknown error")))
          else publish_event (JobCompletedEvent (j_id job))) ;;
         if b then catch (schedule_post_processing job ;; mret ()) (except_any (λ _, mret ()))
         else mret ()) w = (w', Ok ()) ∧
    db_jobs (w_disk w') !! j_id job = Some j ∧
    outcome_event (j_id job) o ∈ w_durable w' ∧
    is_Some (rget (w_now w) (r_decremented (w_redis w')) (j_id job)) ∧
    w_transcripts w' = w_transcripts w.
Proof.
  intros Hen Ho Hj He. pose proof (en_budget _ _ _ _ Hen) as Hb.
  unfold mark_owner_artifacts_available, modify_db.
  set (w4 := set_db (db_put_artifacts (mark_available (j_id job) t <$> db_artifacts (w_db w))
    (w_db w)) w).
  rewrite (bind_run (modify _) _ w w4 ()) by done.
  rewrite (bind_run commit _ _ _ () (commit_run w4 Hb)). set (w5 := set_disk _ w4).
  destruct (decrement_run (j_id job) (j_tenant_id job) w5 Hb) as
    (w6 & b' & H6 & [Hdb Hdk Hn6 Hb6 Hdu Htr _ Hg]).
  rewrite (bind_run _ _ _ _ _ H6).
  rewrite (bind_run (Effects.get_job _) _ w6 w6 (Some j))
    by (unfold Effects.get_job, gets; rewrite Hdb; cbn; by rewrite Hj).
  assert (w_budget w6 = None) as Hb6' by by rewrite Hb6.
  rewrite (bind_run _ _ _ _ _ (outcome_event_run (j_id job) o j w6 Hb6' Ho He)).
  set (w7 := set_events _ _ w6).
  destruct (post_processing_run (j_id job) job b w7 Hb6') as (w8 & H8 & [Hdb8 Hdk8 [l Hl] Htr8 Hg8]).
  exists w8. rewrite H8. split; [done|]. split_and!.
  - rewrite Hdk8; [|cbn; by rewrite Hdb, Hdk]. rewrite Hdb8. cbn. rewrite Hdb. cbn. by rewrite Hj.
  - rewrite Hl. cbn. set_solver.
  - by rewrite Hg8.
  - rewrite Htr8. cbn. by rewrite Htr.
Qed.

Lemma job_outcome_status job tasks :
  (job_outcome job tasks).1 = JFailed ∨ (job_outcome job tasks).1 = JCompleted.
Proof.
  unfold job_outcome. destruct (any_required_failed _); [by left|].
  destruct (linear_transcript _ _); [by right|by left].
Qed.

Lemma job_outcome_completed job tasks :
  (job_outcome job tasks).1 = JCompleted → ∃ tr, linear_transcript job tasks = Ok tr.
Proof.
  unfold job_outcome. destruct (any_required_failed _); [done|].
  destruct (linear_transcript _ _); [by eexists|done].
Qed.

Definition ends (job : JobModel) (tasks : list TaskModel) : bool :=
  all_terminal (List.filter (λ t, negb (is_post_processing_task t)) tasks)
  && negb (job_terminal (j_status job)).

(** C6: completion.  Once all the pipeline tasks of a job that has not ended
    are terminal, the job ends with the outcome its tasks give: FAILED when a
    required one failed or the transcript cannot be assembled, COMPLETED
    otherwise with the transcript stored; the end is dated, its event published
    and the tenant's slot given back, whatever becomes of the enrichments.  In
    every other case nothing changes. *)
Theorem completion_outcome w job_id job :
  at_rest w → w_budget w = None → db_jobs (w_disk w) !! job_id = Some job →
  let tasks := tasks_of job_id (w_disk w) in
  if ends job tasks then
    ∃ w' j, _check_job_completion job_id w = (w', Ok ()) ∧
      db_jobs (w_disk w') !! job_id = Some j ∧ (j_status j, j_error j) = job_outcome job tasks ∧
      j_completed_at j = Some (w_now w) ∧
      outcome_event job_id (job_outcome job tasks) ∈ w_durable w' ∧
      is_Some (rget (w_now w) (r_decremented (w_redis w')) job_id) ∧
      (j_status j = JCompleted →
         ∃ tr, linear_transcript job tasks = Ok tr ∧ w_transcripts w' !! job_id = Some tr)
  else _check_job_completion job_id w = (w, Ok ()).
Proof.
  intros [Hrest Hi] Hb Hj. rewrite <-Hrest in *. cbv zeta.
  assert (j_id job = job_id) as <- by by eapply inv_job_key.
  set (tasks := tasks_of (j_id job) (w_db w)).
  unfold ends, _check_job_completion, job_tasks, Effects.get_job.
  rewrite (bind_run (gets _) _ w w tasks) by done.
  set (pipeline := List.filter _ tasks).
  destruct (all_terminal pipeline); cbn [negb andb]; [|done].
  rewrite (bind_run (gets _) _ w w (Some job)) by (unfold gets; by rewrite Hj).
  destruct (job_terminal (j_status job)); cbn [negb]; [done|].
  destruct (decide_outcome_run job tasks w Hb Hj eq_refl) as (w1 & H1 & He1).
  rewrite (bind_run _ _ _ _ _ H1). fold pipeline.
  set (o := job_outcome job tasks) in *.
  destruct (en_row _ _ _ _ He1) as (j1 & Hj1 & _ & Hs1 & _).
  rewrite (bind_run (gets _) _ w1 w1 (Some j1)) by (unfold gets; by rewrite Hj1).
  rewrite Hs1.
  assert (∃ w2, when (negb (bool_decide (o.1 = JFailed))) (_populate_job_result_stats (j_id job)) w1
    = (w2, Ok ()) ∧ ending job o w w2) as (w2 & H2 & He2).
  { destruct (bool_decide (o.1 = JFailed)); [by exists w1|]. by apply populate_run. }
  rewrite (bind_run _ _ _ _ _ H2). unfold now at 1.
  rewrite (bind_run (gets w_now) _ w2 w2 (w_now w)) by (unfold gets; by rewrite (en_now _ _ _ _ He2)).
  destruct (completed_at_run job o w w2 (w_now w) He2) as (w3 & j3 & H3 & He3 & Hj3 & Hc3).
  rewrite (bind_run _ _ _ _ _ H3).
  destruct (en_row _ _ _ _ He3) as (j & Hj' & _ & Hs3 & Her3). rewrite Hj3 in Hj'. injection Hj' as <-.
  destruct (finish_run job o w w3 j3 (w_now w)
    (negb (any_required_failed pipeline) && needs_post_processing job) He3
    (job_outcome_status _ _) Hj3 Her3) as (w' & Hw' & Hdisk & Hev & Hg & Htr).
  rewrite (en_now _ _ _ _ He3) in Hg.
  exists w', j3. split; [exact Hw'|]. split_and!; try done; [by rewrite Hs3, Her3; destruct o|].
  rewrite Hs3. intros Ho. destruct (job_outcome_completed _ _ Ho) as [tr Htr'].
  exists tr. split; [done|]. rewrite Htr. by apply (en_transcript _ _ _ _ He3).
Qed.

(** ** Final failures *)

(** The row of a job failed by one of its tasks, unless it has ended badly. *)
Definition job_failed_by (job : JobModel) (stage : string) (error : error_text) (t : timestamp)
    : JobModel :=
  if bool_decide (j_status job ∈ [JFailed; JCancelled]) then job
  else j_update job JFailed (Some (ETaskFailed stage error)) (j_started_at job) (Some t).

Lemma ensure_failed_run task job error w :
  w_budget w = None → w_disk w = w_db w → db_jobs (w_db w) !! tm_job_id task = Some job →
  j_id job = tm_job_id task →
  let job' := job_failed_by job (tm_stage task) error (w_now w) in
  ∃ w', _ensure_job_failed_side_effects task error w = (w', Ok ()) ∧
    db_tasks (w_disk w') = db_tasks (w_disk w) ∧
    db_jobs (w_disk w') !! tm_job_id task = Some job' ∧
    w_durable w' = w_durable w ++ [JobFailedEvent (tm_job_id task) (text_or (j_error job') error)] ∧
    is_Some (rget (w_now w) (r_decremented (w_redis w')) (tm_job_id task)).
Proof.
  intros Hb Hsync Hj Hid. cbv zeta. unfold _ensure_job_failed_side_effects, Effects.get_job.
  rewrite (bind_run (gets _) _ w w (Some job)) by (unfold gets; by rewrite Hj).
  set (job' := job_failed_by _ _ _ _).
  assert (∃ w1, when (negb (bool_decide (j_status job ∈ [JFailed; JCancelled])))
      (fail_job job (ETaskFailed (tm_stage task) error)) w = (w1, Ok ()) ∧ w_budget w1 = None ∧
      w_now w1 = w_now w ∧ w_durable w1 = w_durable w ∧ w_disk w1 = w_db w1 ∧
      db_tasks (w_disk w1) = db_tasks (w_disk w) ∧
      db_jobs (w_db w1) !! tm_job_id task = Some job')
    as (w1 & H1 & Hb1 & Hn1 & Hd1 & Hs1 & Ht1 & Hj1).
  { unfold job', job_failed_by. destruct (bool_decide _); cbn [negb when]; [by exists w|].
    unfold fail_job, now. rewrite (bind_run (gets _) _ w w (w_now w)) by done.
    set (j' := j_update _ _ _ _ _). set (w1 := set_db (db_put_job j' (w_db w)) w).
    rewrite (bind_run (put_job j') _ w w1 ()), (commit_run w1 Hb) by done.
    eexists. split; [done|]. cbn. rewrite Hsync, Hid. rewrite lookup_insert_eq. done. }
  rewrite (bind_run _ _ _ _ _ H1).
  destruct (decrement_run (j_id job) (j_tenant_id job) w1 Hb1) as
    (w2 & b & H2 & [Hdb Hdk Hn2 Hb2 Hdu _ _ Hg]).
  rewrite (bind_run _ _ _ _ _ H2).
  rewrite (bind_run (gets _) _ w2 w2 (Some job')) by (unfold gets; by rewrite Hdb, Hj1).
  rewrite Hid in *. rewrite publish_run by (done || by rewrite Hb2).
  eexists. split; [done|]. cbn. rewrite Hdk, Hdu, Hd1, Hs1, <-Hn1. rewrite Hs1 in Ht1. done.
Qed.

(** C15: a task that fails for good.  A running task that must not be retried
    (its retries are used up, or the error cannot heal) is FAILED when it is
    required: the job fails with it unless it had ended badly before, its slot
    is given back and the event is published.  An optional one is SKIPPED. *)
Theorem task_failure_final w id task job error :
  at_rest w → w_budget w = None → db_tasks (w_disk w) !! id = Some task →
  tm_status task = TRunning → db_jobs (w_disk w) !! tm_job_id task = Some job →
  _is_non_retryable_task_error error = true ∨ tm_max_retries task <= tm_retries task →
  let w' := (handle_task_failed id error w).1 in
  (∃ row, db_tasks (w_disk w') !! id = Some row ∧
     tm_status row = (if tm_required task then TFailed else TSkipped)) ∧
  (tm_required task = true →
   let job' := job_failed_by job (tm_stage task) (EText error) (w_now w) in
   (handle_task_failed id error w).2 = Ok () ∧
   db_jobs (w_disk w') !! tm_job_id task = Some job' ∧
   w_durable w' = w_durable w ++
     [JobFailedEvent (tm_job_id task) (text_or (j_error job') (EText error))] ∧
   is_Some (rget (w_now w) (r_decremented (w_redis w')) (tm_job_id task))).
Proof.
  intros [Hrest Hi] Hb Ht Hs Hj Hno. rewrite <-Hrest in *. cbv zeta.
  assert (tm_id task = id) as Hid by by eapply inv_task_key.
  assert (good w) as Hg by (by split; rewrite <-?Hrest).
  unfold handle_task_failed, get_task.
  rewrite (bind_run (gets _) _ w w (Some task)) by (unfold gets; by rewrite Ht).
  rewrite Hs, (bind_run now _ w w (w_now w)) by done.
  assert (negb (_is_non_retryable_task_error error) && (tm_retries task <? tm_max_retries task) = false)
    as ->. { destruct Hno as [->|Hle]; [done|]. rewrite (proj2 (Nat.ltb_ge _ _) Hle). apply andb_false_r. }
  destruct (tm_required task) eqn:Hreq; cbn [negb].
  - set (row := tm_update _ _ _ _ _ _ _).
    set (w1 := set_db (db_put_task row (w_db w)) w).
    rewrite (bind_run (put_task row) _ w w1 ()) by done.
    rewrite (bind_run commit _ _ _ () (commit_run w1 Hb)).
    destruct (ensure_failed_run task job (EText error) (set_disk (w_db w1) w1) Hb eq_refl Hj)
      as (w' & Hw' & Htk & Hjk & Hd & Hgd); [by eapply inv_job_key|].
    rewrite Hw'. cbn [fst snd]. split; [|done]. rewrite Htk. cbn. rewrite Hid, lookup_insert_eq.
    by eexists.
  - split; [|done]. set (row := tm_update _ _ _ _ _ _ _).
    set (w1 := set_db (db_put_task row (w_db w)) w).
    rewrite (bind_run (put_task _) _ w w1 ()) by done.
    rewrite (bind_run commit _ _ _ () (commit_run w1 Hb)). set (w2 := set_disk _ w1).
    assert (step w w1) as Hs1.
    { apply (put_end_step w task TSkipped _ (tm_ready_at task) (tm_started_at task) (tm_completed_at task));
        [done|by rewrite Hid|set_solver|by rewrite Hs]. }
    destruct (Hs1 Hg) as (Hg1 & _).
    destruct (rel_run _ _ _ _ _ commit_step (commit_run w1 Hb) Hg1) as (Hg2 & _).
    assert (rel step (when (is_post_processing_task task)
      (mark_enrichment_status (tm_job_id task) (tm_stage task) EFailed) ;;
      handle_task_completed id)) as Hrest2.
    { pose proof (handle_task_completed_step id). unfold mark_enrichment_status, now. steps. }
    destruct (Hrest2 w2 Hg2) as (_ & Hr & _).
    destruct (dr_tasks _ _ Hr id row) as (row' & Hrow' & [_ _ _ _ _ _ _ _ Hst]).
    { cbn. by rewrite Hid, lookup_insert_eq. }
    exists row'. split; [exact Hrow'|]. by apply bool_decide_eq_true in Hst.
Qed.
End alive.

(** ** Concrete jobs *)

(** The demonstration job: its last task is completed by an orchestrator that
    dies after the commit. *)
Definition unfinished : world :=
  set_budget None (run_with (Some 1) (@dispatch SysDemo.env (TaskCompletedEvent 101))
    (SysDemo.run_events SysDemo.env (take 2 (drop 2 SysDemo.happy)) (SysDemo.preparing SysDemo.plain))).

Lemma at_rest_budget b w : at_rest w → at_rest (set_budget b w).
Proof. by intros []. Qed.

Lemma unfinished_rest : at_rest unfinished.
Proof.
  apply at_rest_budget. eapply sys_rest; [|apply SysDemo.empty_rest].
  eapply rtc_r; [apply SysDemo.preparing_rtc|apply sys_event].
Qed.

Lemma completion_outcome_witness :
  SysDemo.job_status_of 1 unfinished = Some JRunning ∧
  ∃ w', @_check_job_completion SysDemo.env 1 unfinished = (w', Ok ()) ∧
    SysDemo.job_status_of 1 w' = Some JCompleted ∧ JobCompletedEvent 1 ∈ w_durable w'.
Proof.
  split; [vm_compute; reflexivity|].
  destruct (db_jobs (w_disk unfinished) !! 1%N) as [job|] eqn:Hj; [|vm_compute in Hj; discriminate Hj].
  pose proof (@completion_outcome SysDemo.env unfinished 1 job unfinished_rest eq_refl Hj) as H.
  cbv zeta in H. assert (ends job (tasks_of 1 (w_disk unfinished)) = true) as He
    by (vm_compute in Hj; injection Hj as <-; vm_compute; reflexivity).
  rewrite He in H. destruct H as (w' & j & Hw & Hrow & Ho & _ & Hev & _).
  assert (job_outcome (E:=SysDemo.env) job (tasks_of 1 (w_disk unfinished)) = (JCompleted, None)) as Hout
    by (vm_compute in Hj; injection Hj as <-; vm_compute; reflexivity).
  rewrite Hout in Ho, Hev. exists w'. split; [exact Hw|]. split; [|exact Hev].
  unfold SysDemo.job_status_of. rewrite Hrow. injection Ho as Hs _. cbn. by rewrite Hs.
Defined.

(** The demonstration job, cancelled while its prepare task runs. *)
Definition cancelling : world :=
  run_with None (cancel_route 1 7) (SysDemo.preparing SysDemo.plain).

Lemma cancel_requested_outcome_witness :
  SysDemo.status_of 100 cancelling = Some TRunning ∧
  ∃ w', handle_job_cancel_requested 1 cancelling = (w', Ok ()) ∧
    SysDemo.status_of 100 w' = Some TRunning ∧ SysDemo.status_of 101 w' = Some TCancelled ∧
    SysDemo.job_status_of 1 w' = Some JCancelling ∧ w_durable w' = w_durable cancelling.
Proof.
  split; [vm_compute; reflexivity|].
  assert (at_rest cancelling) as Hrest.
  { eapply sys_rest; [|apply SysDemo.empty_rest].
    eapply rtc_r; [apply (SysDemo.preparing_rtc SysDemo.plain [])|apply sys_cancel]. }
  destruct (db_jobs (w_disk cancelling) !! 1%N) as [job|] eqn:Hj; [|vm_compute in Hj; discriminate Hj].
  assert (w_budget cancelling = None) as Hb by (vm_compute; reflexivity).
  destruct (cancel_requested_outcome cancelling 1 job Hrest Hb Hj)
    as (w' & Hw & _ & Ht & _ & Hend); [vm_compute in Hj; injection Hj as <-; reflexivity|].
  exists w'. split; [exact Hw|]. unfold SysDemo.status_of, SysDemo.job_status_of. rewrite !Ht.
  assert (has_running (tasks_of 1 (w_disk cancelling)) = true) as Hr by (vm_compute; reflexivity).
  rewrite Hr in Hend. destruct Hend as [-> Hd].
  split; [vm_compute; reflexivity|]. split; [vm_compute; reflexivity|].
  split; [vm_compute; reflexivity|exact Hd].
Defined.

Lemma task_failure_final_witness :
  SysDemo.status_of 100 (SysDemo.preparing SysDemo.plain) = Some TRunning ∧
  let w' := (@handle_task_failed SysDemo.env 100
               "libcublas.so.12 is not found or cannot be loaded"
               (SysDemo.preparing SysDemo.plain)).1 in
  ∃ row, db_tasks (w_disk w') !! 100%N = Some row ∧ tm_status row = TFailed.
Proof.
  split; [vm_compute; reflexivity|]. cbv zeta. set (w := SysDemo.preparing SysDemo.plain).
  assert (at_rest w) as Hrest.
  { eapply sys_rest; [apply (SysDemo.preparing_rtc SysDemo.plain [])|apply SysDemo.empty_rest]. }
  destruct (db_tasks (w_disk w) !! 100%N) as [task|] eqn:Ht; [|vm_compute in Ht; discriminate Ht].
  destruct (db_jobs (w_disk w) !! tm_job_id task) as [job|] eqn:Hj;
    [|vm_compute in Ht; injection Ht as <-; vm_compute in Hj; discriminate Hj].
  assert (w_budget w = None) as Hb by (vm_compute; reflexivity).
  assert (tm_status task = TRunning ∧ tm_required task = true) as [Hs Hq]
    by (vm_compute in Ht; injection Ht as <-; split; reflexivity).
  destruct (@task_failure_final SysDemo.env w 100 task job
    "libcublas.so.12 is not found or cannot be loaded" Hrest Hb Ht Hs Hj) as [H _];
    [left; vm_compute; reflexivity|].
  rewrite Hq in H. exact H.
Defined.
