(* ===== verification/Divergences.v ===== *)
(** * Where behaviours part

    Pairs of paths of the program that are meant to do the same and do not:
    cancelling through the two APIs, storing input bindings in the two places
    that insert tasks; and runs that end in a state the program does not leave. *)

From S2P Require Import Prelude PyValue Models Catalog Registry Selector Dag Store.
From S2P Require Import Effects Streams RateLimiter Transcript Scheduler PostProcessor Handlers.
From S2P Require Import Jobs Slots Invariants System Outcomes Lifecycle.

(** ** Input bindings in storage *)

(** The bindings [queue_task] finds in a task read back from its row. *)
Definition stored_bindings (key : string) (t : Task) : list json :=
  t_input_bindings (with_config_bindings (task_of_model (model_of_task key t))).

(** Input bindings survive storage.  A task row has no column for them:
    what [handle_job_created] writes into the configuration is what
    [queue_task] reads back.  The entry [schedule_post_processing] writes is
    not read, and its bindings are lost. *)
Theorem bindings_storage t :
  dhas "request_bindings" (t_config t) = false →
  stored_bindings "request_bindings" t = t_input_bindings t ∧
  stored_bindings "input_bindings" t = [].
Proof.
  intros Hno. unfold stored_bindings, with_config_bindings, model_of_task, dhas in *.
  cbn [task_of_model t_input_bindings t_config tm_config].
  assert (dget "request_bindings" (t_config t) = None) as Hn
    by (destruct (dget "request_bindings" (t_config t)); done).
  destruct (t_input_bindings t) as [|b bs] eqn:Hb.
  - by rewrite !Hn.
  - rewrite dget_dset_eq, dget_dset_ne, Hn by done. done.
Qed.

(** The redaction task of a job, and what is left of its binding. *)
Definition redact_task : Task :=
  post_task 11 1 "audio_redact" [10%N] (_audio_input_binding None)
    [("redaction_mode", JStr "silence"); ("buffer_ms", JInt DEFAULT_PII_BUFFER_MS);
     ("post_processing", JBool true)].

Lemma bindings_storage_witness :
  length (t_input_bindings redact_task) = 1 ∧
  stored_bindings "request_bindings" redact_task = _audio_input_binding None ∧
  stored_bindings "input_bindings" redact_task = [].
Proof. split; [reflexivity|]. apply (bindings_storage redact_task). reflexivity. Defined.

(** ** Cancelling through the API and through the console *)

Lemma running_count_zero tasks : has_running tasks = false → running_count tasks = 0.
Proof.
  unfold has_running, running_count. induction tasks as [|t l IH]; cbn; [done|].
  by destruct (bool_decide _).
Qed.

Lemma jobs_get_run job_id tenant job w :
  db_jobs (w_db w) !! job_id = Some job → (∀ t, tenant = Some t → j_tenant_id job = t) →
  Jobs.get_job job_id tenant w = (w, Ok (Some job)).
Proof.
  intros Hj Ht. unfold Jobs.get_job, Effects.get_job.
  rewrite (bind_run (gets _) _ w w (Some job)) by (unfold gets; by rewrite Hj).
  destruct tenant as [t|]; [|done]. by rewrite (Ht t eq_refl), N.eqb_refl.
Qed.

(** A job with no running task is cancelled at once. *)
Lemma cancel_job_run job_id tenant job w :
  at_rest w → w_budget w = None → db_jobs (w_db w) !! job_id = Some job →
  (∀ t, tenant = Some t → j_tenant_id job = t) → cancellable (j_status job) = true →
  has_running (tasks_of job_id (w_db w)) = false →
  ∃ d, cancel_job job_id tenant w =
      (set_disk d (set_db d w), Ok (Some {| cr_status := JCancelled; cr_running_task_count := 0 |})) ∧
    db_jobs d !! job_id = Some (cancelled_job job (w_now w)) ∧
    (∀ k t, db_tasks d !! k = Some t → tm_id t = k).
Proof.
  intros [Hrest Hi] Hb Hj Ht Hc Hr. rewrite <-Hrest in Hi. unfold cancel_job.
  rewrite (bind_run _ _ _ _ _ (jobs_get_run job_id tenant job w Hj Ht)), Hc. cbn [negb].
  unfold job_tasks. rewrite (bind_run (gets _) _ w w (tasks_of job_id (w_db w))) by done.
  rewrite running_count_zero by done. cbn [Nat.ltb Nat.leb].
  destruct (cancel_tasks_run [TPending; TReady] (tasks_of job_id (w_db w)) w)
    as (d & Hrun & Hdj & _ & Hdt); [set_solver|apply Hi|].
  rewrite (bind_run _ _ _ _ _ Hrun). unfold now. set (w1 := set_db d w).
  rewrite (bind_run (gets w_now) _ w1 w1 (w_now w)) by done.
  fold (cancelled_job job (w_now w)). set (d2 := db_put_job (cancelled_job job (w_now w)) d).
  rewrite (bind_run (put_job _) _ w1 (set_db d2 w) ()) by done.
  rewrite (bind_run commit _ _ _ () (commit_run (set_db d2 w) Hb)).
  exists d2. split; [done|]. split.
  - cbn. by rewrite (inv_job_key _ Hi _ _ Hj), lookup_insert_eq.
  - intros k t. cbn. rewrite Hdt. destruct (db_tasks (w_db w) !! k) as [x|] eqn:Hx; [|done].
    intros [= <-]. etrans; [|exact (inv_task_key _ Hi _ _ Hx)].
    destruct (bool_decide (k ∈ _)); [|done]. unfold cancel_row. by case_bool_decide.
Qed.

(** The orchestrator has nothing to do for a job that is cancelled already. *)
Lemma cancel_requested_cancelled job_id job w :
  w_budget w = None → (∀ k t, db_tasks (w_db w) !! k = Some t → tm_id t = k) →
  db_jobs (w_db w) !! job_id = Some job → j_status job = JCancelled →
  ∃ w', handle_job_cancel_requested job_id w = (w', Ok ()) ∧
    r_jobs (w_redis w') = r_jobs (w_redis w) ∧
    r_decremented (w_redis w') = r_decremented (w_redis w) ∧ w_durable w' = w_durable w.
Proof.
  intros Hb Hk Hj Hs. unfold handle_job_cancel_requested, mark_job_cancelled, now, job_tasks.
  set (w1 := set_redis (put_cancelled (<[job_id := ((),
    Some (w_now w + seconds JOB_CANCELLED_TTL_SECONDS)%Z)]> (r_cancelled (w_redis w))) (w_redis w)) w).
  rewrite (bind_run (gets w_now ≫= _) _ w w1 ())
    by (rewrite (bind_run (gets w_now) _ w w (w_now w)), redis_run by done; done).
  rewrite (bind_run (gets _) _ w1 w1 (tasks_of job_id (w_db w))) by done.
  destruct (cancel_tasks_run [TPending; TReady] (tasks_of job_id (w_db w)) w1)
    as (d & Hrun & Hdj & _); [set_solver|apply Hk|].
  rewrite (bind_run _ _ _ _ _ Hrun), (bind_run commit _ _ _ () (commit_run (set_db d w1) Hb)).
  set (w2 := set_disk _ _). exists w2.
  unfold _check_job_cancellation_complete, Effects.get_job.
  rewrite (bind_run (gets _) _ w2 w2 (Some job)) by (unfold gets; cbn; rewrite Hdj; cbn; by rewrite Hj).
  rewrite Hs. done.
Qed.

Lemma decrement_once_guard job tenant w :
  w_budget w = None →
  ∃ w' b, decrement_concurrent_jobs_once job tenant w = (w', Ok b) ∧
    is_Some (rget (w_now w) (r_decremented (w_redis w')) job).
Proof.
  intros Hb. unfold decrement_concurrent_jobs_once, Effects.now.
  rewrite (bind_run (gets _) _ w w (w_now w)) by done. unfold set_nx.
  destruct (rget (w_now w) (r_decremented (w_redis w)) job) eqn:Hg.
  - eexists _, false. erewrite bind_run; [|rewrite effect_run, Hg by done; reflexivity].
    split; [done|]. change (is_Some (rget (w_now w) (r_decremented (w_redis w)) job)).
    by rewrite Hg.
  - erewrite bind_run; [|rewrite effect_run, Hg by done; reflexivity]. cbn [negb].
    assert (∀ r, r_decremented r = <[job := ((), Some (w_now w + seconds
      CONCURRENT_COUNTER_TTL_SECONDS)%Z)]> (r_decremented (w_redis w)) →
      is_Some (rget (w_now w) (r_decremented r) job)) as Hset.
    { intros r ->. unfold rget. rewrite lookup_insert_eq. cbn.
      destruct (Z.ltb_spec (w_now w) (w_now w + seconds CONCURRENT_COUNTER_TTL_SECONDS));
        [by eexists|unfold seconds, CONCURRENT_COUNTER_TTL_SECONDS in *; lia]. }
    destruct (bump (w_now w) tenant (-1) (r_jobs (w_redis w))) as [c n] eqn:Hc.
    erewrite bind_run; [|rewrite effect_run by done; cbn; rewrite Hc; reflexivity].
    destruct (n <? 0)%Z; cbn [when].
    + erewrite bind_run; [|by rewrite redis_run]. eexists _, true. split; [done|]. by apply Hset.
    + eexists _, true. split; [done|]. by apply Hset.
Qed.

(** The slot of a job cancelled at once.  The public route gives it back
    itself.  The console's route does not, and neither does the orchestrator
    when it handles the event, because the job is CANCELLED already: the
    counter and the guard are untouched and no end of the job is published. *)
Theorem cancellation_slots w job_id job :
  at_rest w → w_budget w = None → db_jobs (w_disk w) !! job_id = Some job →
  cancellable (j_status job) = true → has_running (tasks_of job_id (w_disk w)) = false →
  (∃ w' r, cancel_route job_id (j_tenant_id job) w = (w', Ok (Some r)) ∧
     is_Some (rget (w_now w) (r_decremented (w_redis w')) job_id)) ∧
  (∃ w1 r w2, console_cancel_route job_id w = (w1, Ok (Some r)) ∧ cr_status r = JCancelled ∧
     handle_job_cancel_requested job_id w1 = (w2, Ok ()) ∧
     r_jobs (w_redis w2) = r_jobs (w_redis w) ∧
     r_decremented (w_redis w2) = r_decremented (w_redis w) ∧
     w_durable w2 = w_durable w ++ [JobCancelRequested job_id]).
Proof.
  intros Hrest Hb Hj Hc Hr. rewrite <-(proj1 Hrest) in Hj, Hr. split.
  - unfold cancel_route.
    destruct (cancel_job_run job_id (Some (j_tenant_id job)) job w) as (d & Hrun & _);
      [done..|by intros t [= <-]|done|done|].
    rewrite (bind_run _ _ _ _ _ Hrun), (bind_run _ _ _ _ _ (publish_run (JobCancelRequested job_id)
      (set_disk d (set_db d w)) Hb eq_refl)).
    cbn [cr_status when bool_decide]. rewrite bool_decide_eq_true_2 by done. cbn [when].
    set (w1 := set_events _ _ _).
    destruct (decrement_once_guard job_id (j_tenant_id job) w1 Hb) as (w2 & b & H2 & Hg).
    rewrite (bind_run (decrement_concurrent_jobs_once _ _ ≫= _) _ w1 w2 ())
      by (by rewrite (bind_run _ _ _ _ _ H2)).
    by eexists _, _.
  - unfold console_cancel_route.
    destruct (cancel_job_run job_id None job w) as (d & Hrun & Hdj & Hdk); [done..|].
    rewrite (bind_run _ _ _ _ _ Hrun), (bind_run _ _ _ _ _ (publish_run (JobCancelRequested job_id)
      (set_disk d (set_db d w)) Hb eq_refl)).
    set (w1 := set_events _ _ _).
    destruct (cancel_requested_cancelled job_id (cancelled_job job (w_now w)) w1)
      as (w2 & H2 & Hjobs & Hdec & Hdur); [done..|].
    eexists w1, _, w2. split; [done|]. by rewrite Hjobs, Hdec, Hdur.
Qed.

(** The demonstration job just after its submission. *)
Lemma cancellation_slots_witness :
  let w := SysDemo.submitted SysDemo.plain in
  ∃ w1 r w2, console_cancel_route 1 w = (w1, Ok (Some r)) ∧ cr_status r = JCancelled ∧
    handle_job_cancel_requested 1 w1 = (w2, Ok ()) ∧
    r_decremented (w_redis w2) = r_decremented (w_redis w).
Proof.
  cbv zeta. set (w := SysDemo.submitted SysDemo.plain).
  assert (at_rest w) as Hrest.
  { eapply sys_rest; [apply (SysDemo.submitted_rtc SysDemo.env SysDemo.plain [])|apply SysDemo.empty_rest]. }
  assert (w_budget w = None) as Hb by (vm_compute; reflexivity).
  destruct (db_jobs (w_disk w) !! 1%N) as [job|] eqn:Hj; [|vm_compute in Hj; discriminate Hj].
  destruct (cancellation_slots w 1 job Hrest Hb Hj) as [_ (w1 & r & w2 & H1 & Hr & H2 & _ & Hd & _)].
  - vm_compute in Hj. injection Hj as <-. reflexivity.
  - vm_compute. reflexivity.
  - exists w1, r, w2. split; [exact H1|split; [exact Hr|split; [exact H2|exact Hd]]].
Defined.

(** ** Runs of the demonstration deployment *)

(** A running task that fails while its job is being cancelled is retried: the
    task is READY again, its engine will drop the message because the job is
    flagged, and no further event ends the job. *)
Lemma cancelling_task_retried :
  let w := SysDemo.run_events SysDemo.env [JobCancelRequested 1; TaskFailedEvent 100 "worker lost"]
             (run_with None (cancel_route 1 7) (SysDemo.preparing SysDemo.plain)) in
  (SysDemo.status_of 100 w, SysDemo.status_of 101 w, SysDemo.job_status_of 1 w,
   length (stream "audio-prepare" (w_redis w)),
   (is_job_cancelled 1 w).2) =
  (Some TReady, Some TCancelled, Some JCancelling, 2, Ok true).
Proof. vm_compute. reflexivity. Qed.

(** A job with enrichments; its engines, with the redactor or without, and
    what they answer. *)
Definition pii_params : dict json :=
  SysDemo.plain ++ [("pii_detection", JBool true); ("redact_pii_audio", JBool true)].

Definition pii_engines (redactor : bool) : registry :=
  Demo.reg ++ [Demo.engine "pii-presidio" "pii_detect" false (1, 10)%Z]
  ++ (if redactor then [Demo.engine "audio-redactor" "audio_redact" false (1, 10)%Z] else []).

Definition pii_env (redactor : bool) (response : json) : Env := {|
  settings := SysDemo.demo_settings; registry_records := pii_engines redactor; catalog := [];
  model_rows := Some (Demo.models ++ [Demo.model "presidio" "pii-presidio" "pii_detect" None]);
  task_response := λ _ _, Some [("data", response)];
  stage_config_valid := λ _ _, true;
  pydantic := TranscriptDemo.demo;
  fresh_uuid := λ n, (100 + N.of_nat n)%N |}.

(** The job up to the completion of its last pipeline task. *)
Definition pii_run (response : json) : world :=
  SysDemo.run_events (pii_env true response) (drop 2 SysDemo.happy)
    (SysDemo.engine_wrote
       (SysDemo.run_events (pii_env true response) (take 2 SysDemo.happy)
          (SysDemo.submitted pii_params))).

(** When the redaction engine has gone by the time its turn comes, the
    optional task fails the completed job. *)
Lemma optional_enrichment_fails_job :
  let completed := pii_run SysDemo.response in
  let failed := SysDemo.run_events (pii_env false SysDemo.response) [TaskStarted 102; TaskCompletedEvent 102]
                  completed in
  (SysDemo.job_status_of 1 completed, tm_required <$> db_tasks (w_disk completed) !! 103%N,
   SysDemo.job_status_of 1 failed, SysDemo.status_of 103 failed) =
  (Some JCompleted, Some false, Some JFailed, Some TReady).
Proof. vm_compute. reflexivity. Qed.

(** A transcript that cannot be assembled fails the job and still schedules
    its enrichments. *)
Lemma failed_job_enriched :
  let w := pii_run (JObj []) in
  (SysDemo.job_status_of 1 w, SysDemo.status_of 102 w) = (Some JFailed, Some TReady).
Proof. vm_compute. reflexivity. Qed.

(** A job that failed to build its tasks is started when [job.created] is
    delivered again: it runs although its failure was published and its slot
    given back. *)
Lemma failed_job_restarted :
  let failed := SysDemo.run_events (SysDemo.env_with []) [JobCreated 1]
                  (SysDemo.submitted SysDemo.plain) in
  let again := SysDemo.run_events SysDemo.env [JobCreated 1] failed in
  (SysDemo.job_status_of 1 failed, SysDemo.job_status_of 1 again,
   bool_decide (is_Some (rget (w_now failed) (r_decremented (w_redis failed)) 1%N)),
   SysDemo.status_of 100 again) =
  (Some JFailed, Some JRunning, true, Some TReady).
Proof. vm_compute. reflexivity. Qed.

(** [engine.needed] is published on the durable stream, whose dispatch does
    not know it. *)
Lemma engine_needed_unknown `{Env} engine stage job task language w :
  let e := EngineNeeded engine stage job task language in
  mem_str (event_type e) DURABLE_EVENT_TYPES = true ∧
  dispatch e w = (w, Ok (UnknownEventType "engine.needed")).
Proof. done. Qed.
