(* ===== verification/Sweeps.v ===== *)
(** * Tasks that fail behind the orchestrator's back

    What becomes of a task whose engine dies and of a task that fails before it
    starts, when the scanner, the engines, the reconciler and the handlers meet;
    and the theorems about engines and sweeps on concrete worlds. *)

From S2P Require Import Prelude PyValue Models Catalog Registry Selector Dag Store.
From S2P Require Import Effects Streams RateLimiter Transcript Scheduler PostProcessor Handlers.
From S2P Require Import Groups Engine Scanner Reconciler Jobs Slots Invariants Recovery.
From S2P Require Import System Outcomes Lifecycle.

(** ** The queues are not touched *)

Definition same_streams (w w' : world) : Prop := r_streams (w_redis w') = r_streams (w_redis w).
#[export] Instance same_streams_pre : PreOrder same_streams.
Proof. unfold same_streams. split; [done|]. intros ???. congruence. Qed.
#[export] Instance same_streams_budget : BudgetFree same_streams.
Proof. done. Qed.

Lemma publish_streams e : rel same_streams (publish_event e).
Proof. unfold publish_event. steps; by effect_step. Qed.
Lemma commit_streams : rel same_streams commit.
Proof. unfold commit. by effect_step. Qed.
Lemma put_task_streams t : rel same_streams (put_task t).
Proof. done. Qed.
Lemma put_job_streams j : rel same_streams (put_job j).
Proof. done. Qed.
Lemma rollback_streams : rel same_streams rollback.
Proof. done. Qed.
#[export] Hint Resolve publish_streams commit_streams put_task_streams put_job_streams
  rollback_streams : steps.

Section sweeps.
Context `{Env}.

Lemma decrement_streams j t : rel same_streams (_decrement_concurrent_jobs j t).
Proof.
  unfold _decrement_concurrent_jobs, now. steps; effect_step; repeat case_match; by simplify_eq.
Qed.
#[local] Hint Resolve decrement_streams : steps.

Lemma ensure_failed_streams task e : rel same_streams (_ensure_job_failed_side_effects task e).
Proof. unfold _ensure_job_failed_side_effects, get_job, fail_job, now. steps. Qed.

(** ** A dead engine's task *)

(** The scanner's part: the row, and the announcement. *)
Lemma fail_task_run id error task w :
  at_rest w → w_budget w = None → db_tasks (w_disk w) !! id = Some task →
  tm_status task = TRunning →
  let row := tm_update task TFailed (Some (EText error)) (tm_retries task) (tm_ready_at task)
               (tm_started_at task) (Some (w_now w)) in
  let d := db_put_task row (w_disk w) in
  _fail_task (Some id) error w =
    (set_events (w_pubsub w ++ [TaskFailedEvent id error]) (w_durable w ++ [TaskFailedEvent id error])
       (set_disk d (set_db d w)), Ok true).
Proof.
  intros [Hsync Hi] Hb Ht Hs. cbv zeta. set (row := tm_update _ _ _ _ _ _ _).
  set (w1 := set_disk (db_put_task row (w_disk w)) (set_db (db_put_task row (w_disk w)) w)).
  assert (in_session (fail_running id error) w = (w1, Ok true)) as Hf.
  { unfold in_session. rewrite (bind_run rollback _ w (set_db (w_disk w) w) ()) by done.
    rewrite (bind_run (fail_running id error) _ _ w1 true); [done|].
    set (w2 := set_db (w_disk w) w). unfold fail_running, get_task.
    rewrite (bind_run (gets _) _ w2 w2 (Some task)) by (unfold gets; cbn; by rewrite Ht).
    rewrite Hs, bool_decide_true by done. cbn [negb]. rewrite (bind_run now _ w2 w2 (w_now w)) by done.
    fold row. rewrite (bind_run (put_task row) _ w2 (set_db (db_put_task row (w_disk w)) w) ()) by done.
    by rewrite (bind_run commit _ _ _ () (commit_run (set_db (db_put_task row (w_disk w)) w) Hb)). }
  unfold _fail_task. rewrite (bind_run _ _ _ _ _ Hf). cbv beta iota.
  by rewrite (bind_run _ _ _ _ _ (publish_run (TaskFailedEvent id error) w1 Hb eq_refl)).
Qed.

(** The task of a dead engine is not queued again.  A running task whose
    pending entry has been idle for ten minutes while its engine stopped
    heartbeating is failed by the scanner, and the event it publishes fails the
    job: whatever retries the task has left, and even if it is optional.  No
    message is added to any queue. *)
Theorem dead_engine_fails_job w queue p id task job :
  at_rest w → w_budget w = None →
  pt_task_id p = Some id → (STALE_THRESHOLD_MS <= pt_idle_ms p)%Z →
  engine_alive (w_now w) (pt_consumer p) = false →
  db_tasks (w_disk w) !! id = Some task → tm_status task = TRunning →
  db_jobs (w_disk w) !! tm_job_id task = Some job →
  let error := dead_engine_error (pt_consumer p) in
  let w1 := run_with None (scan_pending queue (w_now w) p) w in
  let w2 := run_with None (dispatch (TaskFailedEvent id error)) w1 in
  w_durable w1 = w_durable w ++ [TaskFailedEvent id error] ∧
  (∃ row, db_tasks (w_disk w2) !! id = Some row ∧ tm_status row = TFailed ∧
     tm_retries row = tm_retries task) ∧
  db_jobs (w_disk w2) !! tm_job_id task =
    Some (job_failed_by job (tm_stage task) (EText error) (w_now w)) ∧
  r_streams (w_redis w2) = r_streams (w_redis w).
Proof.
  intros Hrest Hb Hp Hidle Hdead Ht Hs Hj. cbv zeta.
  assert (tm_id task = id) as Hid by (destruct Hrest as [_ Hi]; by eapply inv_task_key).
  unfold run_with at 2. unfold run_with, run_handler.
  replace (set_budget None w) with w by (destruct w; cbn in *; by subst).
  set (error := dead_engine_error _).
  pose proof (fail_task_run id error task w Hrest Hb Ht Hs) as Hf. cbv zeta in Hf.
  set (row := tm_update task TFailed _ _ _ _ _) in Hf.
  set (w0 := set_events _ _ _) in Hf.
  assert (scan_pending queue (w_now w) p w = (w0, Ok (true, true))) as Hscan.
  { unfold scan_pending. rewrite (proj2 (Z.ltb_ge _ _) Hidle).
    rewrite (bind_run (is_engine_alive _) _ w w _ eq_refl), Hdead, Hp. cbn [negb].
    by rewrite (bind_run _ _ _ _ _ Hf). }
  rewrite Hscan. cbn [fst]. split; [done|].
  replace (set_budget None (set_db (w_disk w0) w0)) with w0
    by (unfold w0; destruct w; cbn in *; by subst).
  assert (tm_id row = id) as Hrid by done.
  destruct (ensure_failed_run row job (text_or (tm_error row) (EText error)) w0 Hb eq_refl Hj)
    as (w' & Hw' & Htk & Hjk & _ & _); [by destruct Hrest as [_ Hi]; eapply inv_job_key|].
  assert (dispatch (TaskFailedEvent id error) w0 = (w', Ok Handled)) as Hd.
  { cbn [dispatch]. unfold handle_task_failed, get_task.
    rewrite (bind_run _ _ w0 w' ()); [done|].
    rewrite (bind_run (gets _) _ w0 w0 (Some row)); [exact Hw'|].
    unfold gets, w0. cbn. by rewrite Hid, lookup_insert_eq. }
  rewrite Hd. cbn [fst]. split_and!.
  - exists row. cbn. rewrite Htk. cbn. rewrite Hid, lookup_insert_eq. done.
  - exact Hjk.
  - cbn. apply (rel_run _ _ _ _ _ (ensure_failed_streams row _)) in Hw'. by rewrite Hw'.
Qed.
End sweeps.

(** ** An attempt that fails before it starts *)

(** The row as it was, or failed without a retry being counted. *)
Definition uncounted (task row : TaskModel) : Prop :=
  row = task ∨ (tm_status row = TFailed ∧ tm_retries row = tm_retries task ∧ tm_id row = tm_id task).

Definition row_uncounted (id : UUID) (task : TaskModel) (d : Db) : Prop :=
  ∃ row, db_tasks d !! id = Some row ∧ uncounted task row.

Definition uncounted_step (id : UUID) (task : TaskModel) (w w' : world) : Prop :=
  row_uncounted id task (w_db w) ∧ row_uncounted id task (w_disk w) →
  row_uncounted id task (w_db w') ∧ row_uncounted id task (w_disk w').

#[export] Instance uncounted_pre id task : PreOrder (uncounted_step id task).
Proof. split; [by intros w Hw|]. intros w1 w2 w3 H1 H2 Hw. by apply H2, H1. Qed.
#[export] Instance uncounted_budget id task : BudgetFree (uncounted_step id task).
Proof. by intros w b _ Hw. Qed.

(** Worlds with the same task rows. *)
Definition task_rows (w w' : world) : Prop :=
  db_tasks (w_db w') = db_tasks (w_db w) ∧ db_tasks (w_disk w') = db_tasks (w_disk w).

Lemma task_rows_uncounted id task w w' : task_rows w w' → uncounted_step id task w w'.
Proof. intros [H1 H2]. unfold uncounted_step, row_uncounted. by rewrite H1, H2. Qed.

Section uncounted.
Context (id : UUID) (task : TaskModel).
Abbreviation unc := (uncounted_step id task).

Lemma io_uncounted {A} (m : M A) : rel io m → rel unc m.
Proof.
  apply rel_mono. intros w w' []. apply task_rows_uncounted. split; congruence.
Qed.

Lemma commit_uncounted : rel unc commit.
Proof. unfold commit. effect_step. intros [H1 H2]. done. Qed.
Lemma put_job_uncounted j : rel unc (put_job j).
Proof. intros w. by apply task_rows_uncounted. Qed.
Lemma publish_uncounted e : rel unc (publish_event e).
Proof. apply io_uncounted, publish_io. Qed.

Lemma put_failed_uncounted row :
  tm_id row = id → uncounted task row → rel unc (put_task row).
Proof.
  intros Hid Hrow w [H1 H2]. split; [|done]. exists row. cbn. by rewrite Hid, lookup_insert_eq.
Qed.
#[local] Hint Resolve commit_uncounted put_job_uncounted publish_uncounted : steps.

Context `{Env}.

Lemma decrement_uncounted j t : rel unc (_decrement_concurrent_jobs j t).
Proof.
  unfold _decrement_concurrent_jobs, now. steps; effect_step; apply task_rows_uncounted;
    repeat case_match; by simplify_eq.
Qed.
#[local] Hint Resolve decrement_uncounted : steps.

Lemma ensure_failed_uncounted row e : rel unc (_ensure_job_failed_side_effects row e).
Proof. unfold _ensure_job_failed_side_effects, get_job, fail_job, now. steps. Qed.
#[local] Hint Resolve ensure_failed_uncounted : steps.

Lemma retry_enqueued_uncounted : tm_id task = id → rel unc (_ensure_retry_enqueued task).
Proof.
  intros Hid. unfold _ensure_retry_enqueued, job_tasks. steps.
  apply (rel_except_engine unc); [apply io_uncounted, queue_task_io|]. intros e.
  apply rel_bind; [typeclasses eauto|apply put_failed_uncounted; [done|by right]|]. steps.
Qed.

Lemma task_failed_uncounted error w :
  tm_id task = id → tm_status task = TReady → row_uncounted id task (w_db w) →
  rel_at unc w (handle_task_failed id error).
Proof.
  intros Hid Hs (row & Hrow & Hu). unfold handle_task_failed, get_task. apply (rel_at_gets unc).
  rewrite Hrow. destruct Hu as [->|(-> & _)]; [|apply rel_at_rel, ensure_failed_uncounted].
  rewrite Hs. by apply rel_at_rel, retry_enqueued_uncounted.
Qed.
End uncounted.

(** Failures of one task reported one after the other, to orchestrators that
    may see different registries and die at any effect. *)
Definition report_failures (id : UUID) (runs : list (Env * option nat * string)) (w : world) : world :=
  foldl (λ w '(E, b, error), run_with b (@dispatch E (TaskFailedEvent id error)) w) w runs.

(** An attempt that fails before [task.started] is not counted.  While a
    task is READY, however many failures are reported, its row stays as it is,
    with the same retries, or becomes FAILED because its engine cannot be
    queued for: the retry limit plays no part. *)
Theorem unstarted_failures_uncounted id task runs w :
  at_rest w → db_tasks (w_disk w) !! id = Some task → tm_status task = TReady →
  ∃ row, db_tasks (w_disk (report_failures id runs w)) !! id = Some row ∧ uncounted task row.
Proof.
  intros [Hsync Hi] Ht Hs. assert (tm_id task = id) as Hid by by eapply inv_task_key.
  assert (row_uncounted id task (w_disk w)) as Hrow by (exists task; split; [done|by left]).
  clear Ht Hi. revert w Hsync Hrow. induction runs as [|[[E b] error] runs IH]; intros w Hsync Hrow;
    [done|]. cbn [report_failures foldl]. apply IH.
  - unfold run_with, run_handler. by destruct (dispatch _ _).
  - unfold run_with, run_handler.
    assert (rel_at (uncounted_step id task) (set_budget b w) (@dispatch E (TaskFailedEvent id error))) as Hd.
    { cbn [dispatch]. apply rel_at_bind; [typeclasses eauto| |].
      - apply task_failed_uncounted; [done..|cbn; by rewrite Hsync].
      - intros _ w' _. apply rel_at_rel, rel_ret. typeclasses eauto. }
    unfold rel_at in Hd. destruct (dispatch _ _) as [w' r]. cbn in *.
    apply Hd. cbn. by rewrite Hsync.
Qed.

(** ** Concrete worlds *)

Module SweepDemo.
(** The engine of the demonstration's first task; [outcome] is what its work
    comes to. *)
Definition engine (name : string) (outcome : EngineOutcome) : EngineProcess := {|
  engine_id := name; instance := "engine-1"; run_request := λ _, outcome;
  download_error := λ _, "request not found" |}.

Definition recovery : Recovery := {|
  head_response := λ _ _, HeadClientError "404"; REENQUEUE_TIMEOUT_S := 3600 |}.

(** The demonstration job with its first task queued. *)
Definition queued : world :=
  SysDemo.run_events SysDemo.env (take 1 SysDemo.happy) (SysDemo.submitted SysDemo.plain).

Definition later (s : Z) (w : world) : world := set_now (w_now w + seconds s)%Z w.

Definition poll (E : EngineProcess) (w : world) : world :=
  (@_poll_and_process SysDemo.env E w).1.

Definition beat (t : timestamp) (r : EngineRecord) : EngineRecord :=
  er_set (er_status r) (Some t) (er_active_batch r) (er_active_realtime r) r.

(** Every engine heartbeats at time [t]. *)
Definition env_at (t : timestamp) : Env := SysDemo.env_with (map (beat t) Demo.reg).

Definition sweep (w : world) : world :=
  run_with None (@reconcile_round (env_at (w_now w)) recovery "orchestrator-1") w.

(** The engine cannot load the inputs of task 100; the orchestrator handles the
    failure; five minutes later the reconciler makes its round. *)
Definition failing_round (w : world) : world :=
  let w1 := poll (engine "audio-prepare" (LoadFails "no artifact")) w in
  let w2 := run_with None (@dispatch (env_at (w_now w1)) (TaskFailedEvent 100 "no artifact")) w1 in
  sweep (later 300 w2).

Definition retries_of (k : UUID) (w : world) : option nat :=
  tm_retries <$> db_tasks (w_disk w) !! k.

(** After ten failed attempts the task is READY, no retry is counted, and the
    job runs. *)
Lemma failing_rounds :
  let w := Nat.iter 10 failing_round queued in
  (SysDemo.status_of 100 w, retries_of 100 w, SysDemo.job_status_of 1 w,
   length (stream "audio-prepare" (w_redis w)))
  = (Some TReady, Some 0, Some JRunning, 11).
Proof. vm_compute. reflexivity. Qed.

(** An engine of that name takes the first task and defers it. *)
Definition taken : world := poll (engine "audio-prepare" Defers) queued.

(** The orchestrator learns that it started; the engine falls silent. *)
Definition abandoned : world :=
  later 700 (run_with None (@dispatch SysDemo.env (TaskStarted 100)) taken).

Lemma no_groups_ok r : r_groups r = ∅ → groups_ok r.
Proof.
  intros Hr q. unfold group_of. rewrite Hr, lookup_empty. split; cbn; [lia| |].
  - intros i. rewrite lookup_empty. by intros [? [=]].
  - intros i Hi. by apply not_elem_of_empty in Hi.
Qed.

Lemma queued_ok : groups_ok (w_redis queued).
Proof. apply no_groups_ok. vm_compute. reflexivity. Qed.

Lemma taken_ok : groups_ok (w_redis taken).
Proof.
  apply (@poll_ok SysDemo.env (engine "audio-prepare" Defers) queued), queued_ok.
Qed.

Lemma queued_rest : at_rest queued.
Proof. eapply sys_rest; [apply SysDemo.submitted_rtc|apply SysDemo.empty_rest]. Qed.

Lemma taken_rest : at_rest taken.
Proof.
  assert (w_db taken = w_db queued ∧ w_disk taken = w_disk queued) as [Hd Hk]
    by (split; vm_compute; reflexivity).
  destruct queued_rest as [H1 H2]. split; [by rewrite Hd, Hk|by rewrite Hk].
Qed.

Lemma later_rest t w : at_rest w → at_rest (later t w).
Proof. by intros []. Qed.

Lemma later_ok t w : groups_ok (w_redis w) → groups_ok (w_redis (later t w)).
Proof. done. Qed.

Lemma abandoned_rest : at_rest abandoned.
Proof.
  apply later_rest. apply run_with_rest; [apply dispatch_step|apply taken_rest].
Qed.

Lemma first_held m :
  stream "audio-prepare" (w_redis queued) !! 0 = Some m →
  holds "audio-prepare" 0 m queued.
Proof.
  intros Hm. split; [apply queued_ok|]. split; [exact Hm|..]; vm_compute; [|left; lia].
  intros Hin. discriminate Hin.
Qed.
End SweepDemo.

Import SweepDemo.



(** The reconciler finds the message that [taken] left pending, ten minutes
    later, and adds a new one before it acknowledges the old.  In the same
    round it finds the task READY with its recorded message consumed, and adds
    another. *)
Lemma reconcile_keeps_work_witness :
  length (stream "audio-prepare" (w_redis (sweep (later 700 taken)))) = 3 ∧
  let w' := (run_handler (@reconcile_round (env_at (w_now (later 700 taken))) recovery "orchestrator-1")
               (set_budget None (later 700 taken))).1 in
  covered "audio-prepare" 100 (w_redis w') ∨ task_over 100 (w_disk w') = true.
Proof.
  split; [vm_compute; reflexivity|].
  apply (@reconcile_keeps_work (env_at (w_now (later 700 taken))) recovery (later 700 taken) None
           "orchestrator-1" "audio-prepare" 100).
  - exact (proj1 (later_rest 700 taken taken_rest)).
  - exact (proj2 (later_rest 700 taken taken_rest)).
  - exact (later_ok 700 taken taken_ok).
  - destruct (stream "audio-prepare" (w_redis (later 700 taken)) !! 0) as [m|] eqn:Hm;
      [|vm_compute in Hm; discriminate Hm].
    exists 0, m. split; [|vm_compute in Hm; by injection Hm as <-].
    split; [exact Hm| |right; vm_compute; by eexists]. vm_compute. intros Hin. discriminate Hin.
Defined.

Lemma dead_engine_fails_job_witness :
  SysDemo.status_of 100 abandoned = Some TRunning ∧
  ∃ p task job, db_tasks (w_disk abandoned) !! 100%N = Some task ∧
    tm_retries task < tm_max_retries task ∧
    db_jobs (w_disk abandoned) !! tm_job_id task = Some job ∧
    let error := dead_engine_error (pt_consumer p) in
    let w1 := run_with None (@scan_pending SysDemo.env "audio-prepare" (w_now abandoned) p) abandoned in
    let w2 := run_with None (@dispatch SysDemo.env (TaskFailedEvent 100 error)) w1 in
    db_jobs (w_disk w2) !! tm_job_id task =
      Some (job_failed_by job (tm_stage task) (EText error) (w_now abandoned)).
Proof.
  split; [vm_compute; reflexivity|].
  destruct (pending_tasks "audio-prepare" (w_now abandoned) (w_redis abandoned)) as [|p l] eqn:Hp;
    [vm_compute in Hp; discriminate Hp|].
  destruct (db_tasks (w_disk abandoned) !! 100%N) as [task|] eqn:Ht; [|vm_compute in Ht; discriminate Ht].
  destruct (db_jobs (w_disk abandoned) !! 1%N) as [job|] eqn:Hj; [|vm_compute in Hj; discriminate Hj].
  assert (tm_job_id task = 1%N) as Hjob by (vm_compute in Ht; by injection Ht as <-).
  exists p, task, job. rewrite Hjob. split; [reflexivity|].
  split; [vm_compute in Ht; injection Ht as <-; vm_compute; lia|]. split; [exact Hj|].
  assert (pt_task_id p = Some 100%N ∧ (STALE_THRESHOLD_MS <= pt_idle_ms p)%Z ∧
    @engine_alive SysDemo.env (w_now abandoned) (pt_consumer p) = false) as (H1 & H2 & H3).
  { vm_compute in Hp. injection Hp as <- _. split; [reflexivity|].
    split; [vm_compute; discriminate|vm_compute; reflexivity]. }
  assert (tm_status task = TRunning) as Hs by (vm_compute in Ht; by injection Ht as <-).
  assert (db_jobs (w_disk abandoned) !! tm_job_id task = Some job) as Hj' by (rewrite Hjob; exact Hj).
  destruct (@dead_engine_fails_job SysDemo.env abandoned "audio-prepare" p 100 task job abandoned_rest
    eq_refl H1 H2 H3 Ht Hs Hj') as (_ & _ & H & _).
  rewrite Hjob in H. exact H.
Defined.

Lemma unstarted_failures_uncounted_witness :
  let runs := [(env_at (w_now queued), Some 3, "no artifact"); (env_at (w_now queued), None, "no artifact")] in
  SysDemo.status_of 100 (report_failures 100 runs queued) = Some TReady ∧
  ∃ task row, db_tasks (w_disk queued) !! 100%N = Some task ∧
    db_tasks (w_disk (report_failures 100 runs queued)) !! 100%N = Some row ∧ uncounted task row.
Proof.
  cbv zeta. split; [vm_compute; reflexivity|].
  destruct (db_tasks (w_disk queued) !! 100%N) as [task|] eqn:Ht; [|vm_compute in Ht; discriminate Ht].
  destruct (unstarted_failures_uncounted 100 task
    [(env_at (w_now queued), Some 3, "no artifact"); (env_at (w_now queued), None, "no artifact")]
    queued queued_rest Ht) as (row & Hrow & Hu).
  { vm_compute in Ht. by injection Ht as <-. }
  exists task, row. split; [reflexivity|]. split; [exact Hrow|exact Hu].
Defined.
