(* ===== verification/Consumer.v ===== *)
(** * The consumer of durable events

    Models the consumer side of [dalston/common/durable_events.py] (reading,
    claiming, acknowledging and dead-lettering the entries of the durable
    stream) and the event loop of [dalston/orchestrator/distributed_main.py]:
    the dispatch of an event, the decision taken on it, and the replay of stale
    events.

    The entries of the stream are the durable events of the world; an entry's
    id is its position.  The group exists from the start, so the [NOGROUP]
    answers, after which nothing is read, are not there. *)

From S2P Require Import Prelude PyValue Models Catalog Registry Selector Dag Store Events.
From S2P Require Import Effects Streams RateLimiter Transcript Scheduler PostProcessor Handlers.
From S2P Require Import Groups Engine Scanner Reconciler Jobs Slots Invariants Recovery System.

(** The fields of the entry an event was published as,
    [settings.events_max_deliveries], and the texts of exceptions. *)
Class EventConsumer := {
  entry_fields : nat → event → dict string;
  events_max_deliveries : nat;
  exn_text : exn → string;
}.

(** The dispatch raises [HandlerExecutionError] for what a handler raises. *)
Inductive dispatch_error : Type :=
  | RouteError (e : route_error)
  | HandlerExecutionError (message : string).

Inductive Decision : Type := DAck | DRetry | DDlq.

Section consumer.
Context `{E : Env, T : EventText, C : EventConsumer}.

(** ** Reading and claiming *)

(** A command on the group of the durable stream. *)
Definition events_cmd {A} (f : timestamp → nat → StreamGroup → A * StreamGroup) : M A :=
  effect (λ w,
    let '(a, g) := f (w_now w) (length (w_durable w)) (r_events (w_redis w)) in
    (set_redis (put_events g (w_redis w)) w, a)).

(** The fields of an entry that was not trimmed. *)
Definition read_entry (w : world) (i : nat) : option (dict string) :=
  if stored (length (w_durable w)) i (r_events (w_redis w))
  then entry_fields i <$> w_durable w !! i else None.

(** The envelopes of entries, with their delivery counts. *)
Definition envelopes (deliveries : world → nat → nat) (ids : list nat) (w : world)
    : list DurableEventEnvelope :=
  omap (λ i, (λ f, _parse_envelope i f (deliveries w i)) <$> read_entry w i) ids.

Definition read_new_events (consumer : string) (count : nat) : M (list DurableEventEnvelope) :=
  ids ← events_cmd (λ t len g, xreadgroup consumer count t len g);
  gets (envelopes (λ _ _, 1) ids).

Definition _lookup_delivery_count (w : world) (i : nat) : nat :=
  match g_pel (r_events (w_redis w)) !! i with Some e => pe_deliveries e | None => 1 end.

(** The loop over the cursor; it goes round at most [max_iterations] times. *)
Fixpoint claim_loop (consumer : string) (min_idle_ms : Z) (count max_iterations : nat)
    (cursor : option nat) : M (list DurableEventEnvelope) :=
  match max_iterations with
  | O => mret []
  | S max_iterations =>
      '(next_cursor, ids) ← events_cmd (λ t len g,
         let '(c, l, g') := xautoclaim consumer min_idle_ms cursor count t len g in ((c, l), g'));
      match ids with
      | [] => mret []
      | _ =>
          events ← gets (envelopes _lookup_delivery_count ids);
          match next_cursor with
          | None => mret events
          | Some _ =>
              rest ← claim_loop consumer min_idle_ms count max_iterations next_cursor;
              mret (events ++ rest)
          end
      end
  end.

Definition claim_stale_pending_events (consumer : string) (min_idle_ms : Z)
    (count max_iterations : nat) : M (list DurableEventEnvelope) :=
  claim_loop consumer min_idle_ms count max_iterations None.

(** ** Acknowledging and dead-lettering *)

Definition ack_event (message_id : nat) : M () :=
  redis (λ r, put_events (xack message_id (r_events r)) r).

Definition _build_dlq_entry (e : DurableEventEnvelope) (failure_reason : string)
    (error : option string) (consumer : string) (t : timestamp) : DlqEntry := {|
  dq_source_message_id := ev_message_id e;
  dq_event_type := default "unknown" (given (ev_event_type e));
  dq_failure_reason := failure_reason; dq_error := default "" error;
  dq_delivery_count := ev_delivery_count e; dq_consumer_id := consumer; dq_failed_at := t;
  dq_payload := ev_payload e; dq_raw_payload := ev_raw_payload e;
  dq_raw_fields := ev_raw_fields e |}.

Definition add_event_to_dlq (e : DurableEventEnvelope) (failure_reason : string)
    (error : option string) (consumer : string) : M nat :=
  t ← now;
  effect (λ w,
    let r := w_redis w in
    (set_redis (put_dlq (r_dlq r ++ [_build_dlq_entry e failure_reason error consumer t]) r) w,
     length (r_dlq r))).

(** [XADD] to the dead-letter stream, then [XACK]. *)
Definition move_event_to_dlq (e : DurableEventEnvelope) (failure_reason : string)
    (error : option string) (consumer : string) : M nat :=
  dlq_message_id ← add_event_to_dlq e failure_reason error consumer;
  ack_event (ev_message_id e) ;;
  mret dlq_message_id.

(** ** Dispatch *)

(** One event in a session of its own. *)
Definition _dispatch_event_dict (ev : dict json) : M (option dispatch_error) :=
  match route ev with
  | Raise e => mret (Some (RouteError e))
  | Ok e =>
      in_session (catch (dispatch e ;; mret None)
        (except_any (λ x, mret (Some (HandlerExecutionError (exn_text x))))))
  end.

(** The pub/sub variant: errors are dropped. *)
Definition _dispatch_event (data : string) : M () :=
  match json_loads data with
  | Ok (JObj ev) => _dispatch_event_dict ev ;; mret ()
  | _ => mret ()
  end.

(** Why an event failed, with the text of the error and whether it may be tried
    again; [None]: it was handled. *)
Definition failure_of (o : option dispatch_error) : option (string * string * bool) :=
  match o with
  | None => None
  | Some (RouteError (UnknownEventTypeError t)) =>
      Some (FAILURE_REASON_UNKNOWN_EVENT_TYPE, t, false)
  | Some (RouteError (EventSchemaError m)) => Some (FAILURE_REASON_INVALID_EVENT_SCHEMA, m, false)
  | Some (HandlerExecutionError m) => Some (FAILURE_REASON_HANDLER_EXCEPTION, m, true)
  end.

Definition attempt (e : DurableEventEnvelope) : M (option (string * string * bool)) :=
  match ev_failure_reason e with
  | Some reason =>
      mret (Some (default FAILURE_REASON_INVALID_EVENT_SCHEMA (given (Some reason)),
                  default "invalid_durable_event" (given (ev_error e)), false))
  | None =>
      match to_event_dict e with
      | None => mret (Some (FAILURE_REASON_DISPATCH_ERROR,
                            "Durable event envelope is missing required dispatch fields", true))
      | Some ev => o ← _dispatch_event_dict ev; mret (failure_of o)
      end
  end.

Definition _process_durable_event (consumer_id : string) (e : DurableEventEnvelope) : M Decision :=
  failure ← attempt e;
  match failure with
  | None => ack_event (ev_message_id e) ;; mret DAck
  | Some (reason, error, retryable) =>
      if retryable && (ev_delivery_count e <? events_max_deliveries) then mret DRetry
      else move_event_to_dlq e reason (Some error) consumer_id ;; mret DDlq
  end.

(** ** The event loop *)

Definition process_events (consumer_id : string) (events : list DurableEventEnvelope) : M () :=
  for_each (λ e, catch (_process_durable_event consumer_id e ;; mret ()) (except_any (λ _, mret ()))) events.

Definition _claim_and_replay_stale_events (consumer_id : string) (is_startup : bool) : M () :=
  stale ← claim_stale_pending_events consumer_id (if is_startup then 30000 else 300000) 100
            (if is_startup then 100 else 10);
  process_events consumer_id stale.

(** One turn of the loop; [claim_due]: five minutes have passed since the last
    claim. *)
Definition orchestrator_turn (consumer_id : string) (claim_due : bool) : M () :=
  catch
    (when claim_due (catch (_claim_and_replay_stale_events consumer_id false) (except_any (λ _, mret ()))) ;;
     events ← read_new_events consumer_id 10;
     process_events consumer_id events)
    (except_any (λ _, mret ())).
End consumer.

(** ** What handlers leave alone *)

(** Neither the group of the durable stream nor the dead letters; durable
    events are only added. *)
Record aside (w w' : world) : Prop := {
  as_events : r_events (w_redis w') = r_events (w_redis w);
  as_dlq : r_dlq (w_redis w') = r_dlq (w_redis w);
  as_durable : w_durable w `prefix_of` w_durable w';
  as_now : w_now w' = w_now w;
  as_budget : w_budget w = None → w_budget w' = None;
}.

#[export] Instance aside_pre : PreOrder aside.
Proof.
  split; [done|]. intros w1 w2 w3 [] []. split; [congruence..|by etrans|congruence|auto].
Qed.
#[export] Instance aside_budget : BudgetFree aside.
Proof. intros w b Hb. by split. Qed.

Ltac aside_effect :=
  effect_step; repeat case_match; simplify_eq; split; cbn;
  first [done | by apply prefix_app_r].

Lemma redis_aside f :
  (∀ r, r_events (f r) = r_events r) → (∀ r, r_dlq (f r) = r_dlq r) → rel aside (redis f).
Proof. intros He Hd. effect_step. split; cbn; auto. Qed.

Lemma modify_aside f : (∀ w, aside w (f w)) → rel aside (modify f).
Proof. intros Hf w. apply Hf. Qed.

Lemma publish_aside e : rel aside (publish_event e).
Proof. unfold publish_event. steps; aside_effect. Qed.
Lemma commit_aside : rel aside commit.
Proof. unfold commit. aside_effect. Qed.
Lemma rollback_aside : rel aside rollback.
Proof. by apply modify_aside. Qed.
Lemma put_task_aside t : rel aside (put_task t).
Proof. by apply modify_aside. Qed.
Lemma put_job_aside j : rel aside (put_job j).
Proof. by apply modify_aside. Qed.
Lemma ensure_group_aside q : rel aside (ensure_stream_group q).
Proof. unfold ensure_stream_group. apply redis_aside; intros r; by case_match. Qed.
#[export] Hint Resolve publish_aside commit_aside rollback_aside put_task_aside put_job_aside
  ensure_group_aside : steps.

Lemma add_task_aside q t j s : rel aside (add_task q t j s).
Proof. unfold add_task, now. steps. aside_effect. Qed.
Lemma add_task_once_aside q t j s k : rel aside (add_task_once q t j s k).
Proof.
  unfold add_task_once, now, enqueue_once. steps. aside_effect.
Qed.
#[export] Hint Resolve add_task_aside add_task_once_aside : steps.

Section handlers.
Context `{E : Env}.

Lemma queue_task_aside task pr md key : rel aside (queue_task task pr md key).
Proof.
  unfold queue_task, enqueue_task, now, write_task_request, _load_job_artifact_index, lift_py.
  destruct (wait_policy _) as [behavior timeout]. steps; aside_effect.
Qed.
Lemma decrement_aside j t : rel aside (_decrement_concurrent_jobs j t).
Proof. unfold _decrement_concurrent_jobs, now. steps; aside_effect. Qed.
#[local] Hint Resolve queue_task_aside decrement_aside : steps.

Lemma fail_job_and_publish_aside job e : rel aside (fail_job_and_publish job e).
Proof. unfold fail_job_and_publish, fail_job, now. steps. Qed.
#[local] Hint Resolve fail_job_and_publish_aside : steps.
Lemma fail_current_job_aside job_id e : rel aside (fail_current_job job_id e).
Proof. unfold fail_current_job, get_job. steps. Qed.
Lemma ensure_failed_aside task e : rel aside (_ensure_job_failed_side_effects task e).
Proof. unfold _ensure_job_failed_side_effects, get_job, fail_job, now. steps. Qed.
#[local] Hint Resolve fail_current_job_aside ensure_failed_aside : steps.

Lemma insert_tasks_aside key ts : rel aside (insert_tasks key ts).
Proof. unfold insert_tasks, insert_task. steps. Qed.
Lemma draw_uuids_aside {A} f (used : A → nat) : rel aside (draw_uuids f used).
Proof. unfold draw_uuids. steps. by apply modify_aside. Qed.
#[local] Hint Resolve insert_tasks_aside draw_uuids_aside : steps.

(** Goes through a handler that catches exceptions. *)
Ltac aside_steps :=
  steps;
  repeat (first [apply (rel_except_engine aside) | apply (rel_except_any aside)]; steps).

Lemma handle_job_created_aside job_id : rel aside (handle_job_created job_id).
Proof.
  assert (∀ job, rel aside (build_tasks job)).
  { intros job. unfold build_tasks, now. steps. apply rel_catch; [typeclasses eauto|steps|].
    intros e m He. destruct e; simplify_eq; steps. }
  assert (∀ job ts, rel aside (save_tasks job ts)).
  { intros job ts. unfold save_tasks, now. steps. apply rel_catch; [typeclasses eauto|steps|].
    intros e m He. destruct e; simplify_eq; steps. }
  assert (∀ md t, rel aside (queue_initial_task job_id md t)).
  { intros md t. unfold queue_initial_task, get_task, now. aside_steps. }
  unfold handle_job_created, get_job, job_tasks. steps.
Qed.

Lemma cancel_tasks_aside from tasks : rel aside (cancel_tasks from tasks).
Proof. unfold cancel_tasks, cancel_task, get_task. steps. Qed.
Lemma check_cancellation_aside job_id : rel aside (_check_job_cancellation_complete job_id).
Proof. unfold _check_job_cancellation_complete, get_job, job_tasks, now. steps. Qed.
#[local] Hint Resolve cancel_tasks_aside check_cancellation_aside : steps.

Lemma handle_job_cancel_requested_aside job_id : rel aside (handle_job_cancel_requested job_id).
Proof.
  unfold handle_job_cancel_requested, mark_job_cancelled, job_tasks, now. steps.
  by apply redis_aside.
Qed.

Lemma mark_enrichment_aside job_id stage s : rel aside (mark_enrichment_status job_id stage s).
Proof. unfold mark_enrichment_status, now. steps. by apply redis_aside. Qed.
#[local] Hint Resolve mark_enrichment_aside : steps.

Lemma schedule_post_aside job : rel aside (schedule_post_processing job).
Proof.
  unfold schedule_post_processing, get_task, job_tasks, now.
  aside_steps; by apply redis_aside.
Qed.

Lemma update_transcript_aside job_id : rel aside (update_transcript_with_pii job_id).
Proof. unfold update_transcript_with_pii, get_job, job_tasks. steps. aside_effect. Qed.
#[local] Hint Resolve schedule_post_aside update_transcript_aside : steps.

Lemma check_completion_aside job_id : rel aside (_check_job_completion job_id).
Proof.
  assert (∀ st e, rel aside (set_job_status job_id st e)).
  { intros. unfold set_job_status, get_job. steps. }
  assert (∀ t, rel aside (mark_owner_artifacts_available job_id t)).
  { intros. by apply modify_aside. }
  unfold _check_job_completion, decide_outcome, set_job_status, set_completed_at,
    _populate_job_result_stats, _assemble_linear_transcript, lift_py, get_job, job_tasks, now.
  aside_steps; aside_effect.
Qed.
#[local] Hint Resolve check_completion_aside : steps.

Lemma handle_task_completed_aside task_id : rel aside (handle_task_completed task_id).
Proof.
  assert (∀ j ts ids x, rel aside (queue_dependent j ts ids x)).
  { intros. unfold queue_dependent, get_task, now. aside_steps. }
  unfold handle_task_completed, complete_task, record_enrichment, update_audio_duration,
    advance_job, check_post_processing_completion, lift_py, get_task, get_job, job_tasks, now.
  aside_steps.
Qed.
#[local] Hint Resolve handle_task_completed_aside : steps.

Lemma handle_task_failed_aside task_id error : rel aside (handle_task_failed task_id error).
Proof.
  assert (∀ task, rel aside (_ensure_retry_enqueued task)).
  { intros. unfold _ensure_retry_enqueued, job_tasks. aside_steps. }
  unfold handle_task_failed, get_task, now. steps.
Qed.

Lemma handle_task_wait_timeout_aside task_id error :
  rel aside (handle_task_wait_timeout task_id error).
Proof. unfold handle_task_wait_timeout, get_task, now. steps. Qed.

Lemma dispatch_aside e : rel aside (dispatch e).
Proof.
  pose proof handle_job_created_aside. pose proof handle_task_failed_aside.
  pose proof handle_task_wait_timeout_aside. pose proof handle_job_cancel_requested_aside.
  destruct e; cbn [dispatch]; unfold handle_task_started, get_task, now; steps.
Qed.
End handlers.

(** ** The decision on one event *)

Section decision.
Context `{E : Env, T : EventText, C : EventConsumer}.

Definition acked (i : nat) (w : world) : world :=
  set_redis (put_events (xack i (r_events (w_redis w))) (w_redis w)) w.

Definition dead_lettered (c : string) (v : DurableEventEnvelope) (reason error : string)
    (w : world) : world :=
  let r := w_redis w in
  acked (ev_message_id v)
    (set_redis (put_dlq (r_dlq r ++ [_build_dlq_entry v reason (Some error) c (w_now w)]) r) w).

Lemma in_session_aside {A} (m : M A) : rel aside m → rel aside (in_session m).
Proof. intros Hm. unfold in_session. steps. Qed.

Lemma attempt_aside v : rel aside (attempt v).
Proof.
  unfold attempt, _dispatch_event_dict. pose proof dispatch_aside. steps.
  apply in_session_aside, (rel_except_any aside); intros; steps.
Qed.

(** The dispatch of an event runs its handler in a session of its own. *)
Lemma dispatch_session ev e w w1 r :
  route ev = Ok e → w_db w = w_disk w → run_handler (dispatch e) w = (w1, r) → r ≠ Raise Crash →
  _dispatch_event_dict ev w =
  (w1, Ok match r with
          | Ok _ => None
          | Raise x => Some (HandlerExecutionError (exn_text x))
          end).
Proof.
  intros Hr Hw Hrun Hc. unfold _dispatch_event_dict. rewrite Hr. unfold in_session, run_handler in *.
  rewrite (bind_run _ _ _ w tt).
  2: { unfold rollback, modify. rewrite <-Hw. by destruct w. }
  destruct (dispatch e w) as [w2 r2] eqn:Hd. injection Hrun as <- <-.
  erewrite bind_run; [reflexivity|]. unfold catch. destruct r2 as [d|x].
  - by erewrite bind_run by done.
  - erewrite bind_raise_run by done. by destruct x.
Qed.

Lemma process_ack c v w w1 :
  attempt v w = (w1, Ok None) → w_budget w1 = None →
  _process_durable_event c v w = (acked (ev_message_id v) w1, Ok DAck).
Proof.
  intros Ha Hb. unfold _process_durable_event. rewrite (bind_run _ _ _ _ _ Ha).
  unfold ack_event, redis, effect_, effect, tick, mbind, M_bind. by rewrite Hb.
Qed.

Lemma process_failed c v w w1 reason error retryable :
  attempt v w = (w1, Ok (Some (reason, error, retryable))) → w_budget w1 = None →
  _process_durable_event c v w =
  if retryable && (ev_delivery_count v <? events_max_deliveries) then (w1, Ok DRetry)
  else (dead_lettered c v reason error w1, Ok DDlq).
Proof.
  intros Ha Hb. unfold _process_durable_event. rewrite (bind_run _ _ _ _ _ Ha).
  case_match; [done|].
  unfold move_event_to_dlq, add_event_to_dlq, ack_event, redis, effect_, effect, now, gets, tick,
    mbind, M_bind. by rewrite Hb; cbn; rewrite Hb.
Qed.

(** C11: the policy of durable events.  An entry that does not parse, or whose
    event has no handler or lacks its identifier, is dead-lettered with its
    reason and acknowledged, and no handler runs.  Otherwise the handler runs in
    a session of its own: when it returns the entry is acknowledged; when it
    raises, what it did not commit is lost, and the entry stays pending, to be
    claimed later, until it has been delivered [events_max_deliveries] times,
    when it is dead-lettered. *)
Theorem event_decision c i fields n w :
  w_budget w = None → w_db w = w_disk w →
  let v := _parse_envelope i fields n in
  match ev_failure_reason v with
  | Some reason =>
      reason ∈ [FAILURE_REASON_INVALID_PAYLOAD_JSON; FAILURE_REASON_INVALID_EVENT_SCHEMA] ∧
      ∃ error, _process_durable_event c v w = (dead_lettered c v reason error w, Ok DDlq)
  | None =>
      ∃ ev, to_event_dict v = Some ev ∧
      match route ev with
      | Raise (UnknownEventTypeError t) =>
          _process_durable_event c v w =
          (dead_lettered c v FAILURE_REASON_UNKNOWN_EVENT_TYPE t w, Ok DDlq)
      | Raise (EventSchemaError m) =>
          _process_durable_event c v w =
          (dead_lettered c v FAILURE_REASON_INVALID_EVENT_SCHEMA m w, Ok DDlq)
      | Ok e =>
          ∀ w1 r, run_handler (dispatch e) w = (w1, r) → r ≠ Raise Crash →
          _process_durable_event c v w =
          match r with
          | Ok _ => (acked i w1, Ok DAck)
          | Raise x =>
              if Nat.max n 1 <? events_max_deliveries then (w1, Ok DRetry)
              else (dead_lettered c v FAILURE_REASON_HANDLER_EXCEPTION (exn_text x) w1, Ok DDlq)
          end
      end
  end.
Proof.
  intros Hb Hw v. destruct (ev_failure_reason v) as [reason|] eqn:Hf.
  - assert (reason ∈ [FAILURE_REASON_INVALID_PAYLOAD_JSON; FAILURE_REASON_INVALID_EVENT_SCHEMA])
      as Hin.
    { unfold v, _parse_envelope in Hf. cbn in Hf. unfold parse_payload in Hf.
      repeat case_match; simplify_eq; set_solver. }
    split; [done|]. eexists. apply (process_failed c v w w reason _ false); [|done].
    unfold attempt. rewrite Hf. do 4 f_equal. set_unfold in Hin. by destruct Hin as [->|[->|[]]].
  - assert (∃ ev, to_event_dict v = Some ev) as [ev Hev].
    { unfold to_event_dict. rewrite Hf. unfold v, _parse_envelope in *. cbn in *.
      unfold parse_payload in *. repeat case_match; simplify_eq; eauto. }
    exists ev. split; [done|].
    assert (∀ o w1, _dispatch_event_dict ev w = (w1, Ok o) → attempt v w = (w1, Ok (failure_of o)))
      as Ha.
    { intros o w1 Hd. unfold attempt. rewrite Hf, Hev. by rewrite (bind_run _ _ _ _ _ Hd). }
    destruct (route ev) as [e|[m|t]] eqn:Hr.
    + intros w1 r Hrun Hc. pose proof (Ha _ _ (dispatch_session ev e w w1 r Hr Hw Hrun Hc)) as Hat.
      assert (w_budget w1 = None) as Hb1.
      { pose proof (as_budget _ _ (rel_run _ _ _ _ _ (attempt_aside v) Hat)). auto. }
      destruct r as [d|x]; [by apply (process_ack c v)|].
      by apply (process_failed c v w w1 _ _ true).
    + apply (process_failed c v w w _ _ false); [|done].
      apply (Ha (Some (RouteError (EventSchemaError m)))). unfold _dispatch_event_dict. by rewrite Hr.
    + apply (process_failed c v w w _ _ false); [|done].
      apply (Ha (Some (RouteError (UnknownEventTypeError t)))).
      unfold _dispatch_event_dict. by rewrite Hr.
Qed.
End decision.

(** ** The bus

    Any number of orchestrators consume the stream, interleaved between two
    events and dying anywhere; the rest of the system publishes events; old
    entries are trimmed. *)

Section bus.
Context `{T : EventText, C : EventConsumer}.

(** The envelope of a delivery of entry [i], which holds event [e]. *)
Definition delivered (w : world) (v : DurableEventEnvelope) : Prop :=
  ∃ i e n, w_durable w !! i = Some e ∧ v = _parse_envelope i (entry_fields i e) n.

Definition trim (i : nat) (w : world) : world :=
  set_redis (put_events (xdel (length (w_durable w)) i (r_events (w_redis w))) (w_redis w)) w.

(** Other components: they may do anything to the rest of the world. *)
Record elsewhere (w w' : world) : Prop := {
  el_events : r_events (w_redis w') = r_events (w_redis w);
  el_dlq : r_dlq (w_redis w') = r_dlq (w_redis w);
  el_durable : w_durable w `prefix_of` w_durable w';
}.

Inductive bus_step (w : world) : world → Prop :=
  | bus_process (E : Env) c v : delivered w v → bus_step w (_process_durable_event c v w).1
  | bus_read c n : bus_step w (read_new_events c n w).1
  | bus_claim c ms n rounds cursor : bus_step w (claim_loop c ms n rounds cursor w).1
  | bus_trim i : bus_step w (trim i w)
  | bus_other w' : elsewhere w w' → bus_step w w'.

(** Entry [i] was handled on the way from [w0] to [w]: its event was routed to
    a handler, which returned. *)
Definition handled (i : nat) (w0 w : world) : Prop :=
  ∃ (E : Env) c v wa wb,
    rtc bus_step w0 wa ∧ delivered wa v ∧ ev_message_id v = i ∧
    attempt v wa = (wb, Ok None) ∧ rtc bus_step (_process_durable_event c v wa).1 w.

Definition dead_letter (i : nat) (w : world) : Prop :=
  ∃ d, d ∈ r_dlq (w_redis w) ∧ dq_source_message_id d = i.

(** What a step of the bus may do to entry [i] alone: acknowledge it, when its
    handler returned ([done]) or it has a dead letter. *)
Record settle (i : nat) (done : Prop) (w w' : world) : Prop := {
  st_durable : w_durable w `prefix_of` w_durable w';
  st_dlq : r_dlq (w_redis w) `prefix_of` r_dlq (w_redis w');
  st_events : r_events (w_redis w') = r_events (w_redis w) ∨
    r_events (w_redis w') = xack i (r_events (w_redis w)) ∧ (done ∨ dead_letter i w');
}.

(** What the reading commands do: they lose nothing. *)
Record reads (w w' : world) : Prop := {
  rd_durable : w_durable w' = w_durable w;
  rd_dlq : r_dlq (w_redis w') = r_dlq (w_redis w);
  rd_events : group_ok (length (w_durable w)) (r_events (w_redis w)) →
    keeps (r_events (w_redis w)) (r_events (w_redis w')) ∧
    group_ok (length (w_durable w)) (r_events (w_redis w'));
}.

#[local] Instance reads_pre : PreOrder reads.
Proof.
  split; [done|]. intros w1 w2 w3 [Hd1 Hq1 He1] [Hd2 Hq2 He2].
  split; [congruence..|]. intros Hg. destruct (He1 Hg) as [Hk1 Hg1].
  rewrite Hd1 in He2. destruct (He2 Hg1) as [Hk2 Hg2]. split; [by etrans|done].
Qed.
#[local] Instance reads_budget : BudgetFree reads.
Proof. intros w b _. by split. Qed.

Lemma events_cmd_reads {A} (f : timestamp → nat → StreamGroup → A * StreamGroup) :
  (∀ t len g, group_ok len g → keeps g (f t len g).2 ∧ group_ok len (f t len g).2) →
  rel reads (events_cmd f).
Proof.
  intros Hf. unfold events_cmd. effect_step.
  specialize (Hf (w_now w) (length (w_durable w)) (r_events (w_redis w))).
  destruct (f _ _ _) as [a g]. by split.
Qed.

Lemma read_new_reads c n : rel reads (read_new_events c n).
Proof.
  unfold read_new_events. steps. apply events_cmd_reads. intros t len g Hg.
  split; [apply xreadgroup_keeps, Hg|by apply xreadgroup_ok].
Qed.

Lemma claim_loop_reads c ms n rounds cursor : rel reads (claim_loop c ms n rounds cursor).
Proof.
  assert (∀ cur, rel reads (events_cmd (λ t len g,
    let '(c', l, g') := xautoclaim c ms cur n t len g in ((c', l), g')))).
  { intros cur. apply events_cmd_reads. intros t len g Hg. unfold xautoclaim.
    set (ids := List.filter _ _). destruct (autoclaim_step c ms t len n (n * 10) ids g Hg).
    by destruct (autoclaim _ _ _ _ _ _ _ _) as [[cu l] g']. }
  revert cursor. induction rounds as [|rounds IH]; intros cursor; cbn; steps.
Qed.

(** An effect dies before its action or runs it. *)
Lemma effect_cases {A} (f : world → world * A) w :
  effect f w = (w, Raise Crash) ∨
  ∃ b, effect f w = (let '(w', a) := f (set_budget b w) in (w', Ok a)).
Proof.
  unfold effect, tick, mbind, M_bind. destruct (w_budget w) as [[|n]|] eqn:Hb; [by left|right..].
  - by exists (Some n).
  - exists None. by replace (set_budget None w) with w by (rewrite <-Hb; by destruct w).
Qed.

Lemma ack_settle i (done : Prop) w :
  done ∨ dead_letter i w → settle i done w (ack_event i w).1.
Proof.
  intros Hd. unfold ack_event, redis, effect_.
  destruct (effect_cases (λ w, (set_redis (put_events (xack i (r_events (w_redis w)))
    (w_redis w)) w, ())) w) as [->|[b ->]]; split; cbn; try done; [by left|right].
  split; [done|]. destruct Hd; [by left|by right].
Qed.

Lemma settle_aside i done w1 w2 w3 : aside w1 w2 → settle i done w2 w3 → settle i done w1 w3.
Proof.
  intros [He Hq Hp _ _] [Hp' Hq' He']. rewrite He in He'. rewrite Hq in Hq'.
  split; [by etrans|done|done].
Qed.

Lemma move_settle i done c v reason error w :
  ev_message_id v = i → settle i done w (move_event_to_dlq v reason error c w).1.
Proof.
  intros <-. unfold move_event_to_dlq, add_event_to_dlq, now.
  set (entry w := _build_dlq_entry v reason error c (w_now w)).
  set (add := λ w', (set_redis (put_dlq (r_dlq (w_redis w') ++ [entry w]) (w_redis w')) w',
                     length (r_dlq (w_redis w')))).
  change (settle (ev_message_id v) done w
    ((n ← effect add; ack_event (ev_message_id v) ;; mret (M:=M) n) w).1).
  destruct (effect_cases add w) as [Hadd|[b Hadd]].
  { rewrite (bind_raise_run _ _ _ _ _ Hadd). split; cbn; try done. by left. }
  cbn in Hadd. rewrite (bind_run _ _ _ _ _ Hadd). set (w1 := set_redis _ _).
  assert (settle (ev_message_id v) done w1 (ack_event (ev_message_id v) w1).1) as [H1 H2 H3].
  { apply ack_settle. right. exists (entry w). split; [cbn; set_solver|done]. }
  assert (∀ n, ((ack_event (ev_message_id v) ;; mret (M:=M) n) w1).1
    = (ack_event (ev_message_id v) w1).1) as ->.
  { intros n. unfold mbind, M_bind. by destruct (ack_event _ _) as [? []]. }
  split; [done| |done]. cbn in H2. etrans; [|done]. by apply prefix_app_r.
Qed.

Lemma process_settle `{E : Env} c v w :
  settle (ev_message_id v) ((attempt v w).2 = Ok None) w (_process_durable_event c v w).1.
Proof.
  unfold _process_durable_event. pose proof (attempt_aside v w) as Ha. unfold rel_at in Ha.
  destruct (attempt v w) as [w1 [[[[reason error] retryable]|]|x]] eqn:Hat; cbn [fst snd] in *.
  - rewrite (bind_run _ _ _ _ _ Hat). eapply settle_aside; [done|].
    case_match; [by split; [..|left]|].
    pose proof (move_settle _ (Ok (Some (reason, error, retryable)) = Ok (E:=exn) None) c v reason
      (Some error) w1 eq_refl) as Hm.
    unfold mbind, M_bind. by destruct (move_event_to_dlq _ _ _ _ _) as [? []].
  - rewrite (bind_run _ _ _ _ _ Hat). eapply settle_aside; [done|].
    pose proof (ack_settle (ev_message_id v) (Ok (A:=option (string * string * bool)) (E:=exn) None
      = Ok None) w1 (or_introl eq_refl)) as Hk.
    unfold mbind, M_bind. by destruct (ack_event _ _) as [? []].
  - rewrite (bind_raise_run _ _ _ _ _ Hat). eapply settle_aside; [done|]. by split; [..|left].
Qed.

(** Every entry is still to be delivered, pending, trimmed, dead-lettered or handled. *)
Record accounted (w0 w : world) : Prop := {
  ac_group : group_ok (length (w_durable w)) (r_events (w_redis w));
  ac_entries : ∀ i, i < length (w_durable w) → i ∉ g_deleted (r_events (w_redis w)) →
    outstanding i (r_events (w_redis w)) ∨ dead_letter i w ∨ handled i w0 w;
}.

Lemma handled_later i w0 w w' : handled i w0 w → rtc bus_step w w' → handled i w0 w'.
Proof. intros (E & c & v & wa & wb & ? & ? & ? & ? & ?) Hw. exists E, c, v, wa, wb. split_and!; try done. by etrans. Qed.

Lemma dead_letter_mono i w w' :
  r_dlq (w_redis w) `prefix_of` r_dlq (w_redis w') → dead_letter i w → dead_letter i w'.
Proof. intros [l Hl] (d & Hd & Hi). exists d. split; [rewrite Hl; set_solver|done]. Qed.

Lemma group_ok_mono len len' g : len ≤ len' → group_ok len g → group_ok len' g.
Proof. intros Hl [Hn Hp Hd]. split; [lia|done|]. intros i Hi%Hd. lia. Qed.

Lemma xack_ok len i g : group_ok len g → group_ok len (xack i g).
Proof.
  intros [Hn Hp Hd]. split; [done| |done]. intros j. cbn. intros [e He]. apply Hp.
  rewrite lookup_delete_Some in He. by eexists; apply He.
Qed.

Lemma xack_outstanding i j g : i ≠ j → outstanding j g → outstanding j (xack i g).
Proof. intros Hi [Hn|Hp]; [by left|right]. cbn. by rewrite lookup_delete_ne. Qed.

(** A step after which each entry that was outstanding still is, or is dead or handled. *)
Lemma accounted_step w0 w w' :
  accounted w0 w → bus_step w w' →
  w_durable w `prefix_of` w_durable w' →
  r_dlq (w_redis w) `prefix_of` r_dlq (w_redis w') →
  group_ok (length (w_durable w')) (r_events (w_redis w')) →
  g_deleted (r_events (w_redis w)) ⊆ g_deleted (r_events (w_redis w')) →
  (∀ i, i ∉ g_deleted (r_events (w_redis w')) →
     i < length (w_durable w) → outstanding i (r_events (w_redis w)) →
     outstanding i (r_events (w_redis w')) ∨ dead_letter i w' ∨ handled i w0 w') →
  (g_next (r_events (w_redis w')) ≤ length (w_durable w)) →
  accounted w0 w'.
Proof.
  intros [Hg He] Hstep Hp Hq Hg' Hd Ho Hn. split; [done|]. intros i Hi Hdel.
  destruct (decide (i < length (w_durable w))) as [Hold|Hnew]; [|left; left; lia].
  destruct (He i Hold) as [Hout|[Hdead|Hhand]]; [set_solver|by apply Ho|..]; right.
  - left. by eapply dead_letter_mono.
  - right. eapply handled_later; [done|by apply rtc_once].
Qed.

Lemma reads_accounted w0 w w' :
  accounted w0 w → bus_step w w' → reads w w' → accounted w0 w'.
Proof.
  intros Hacc Hstep [Hp Hq He]. pose proof Hacc as [Hg _]. destruct (He Hg) as [[Hd Hk] Hg'].
  eapply accounted_step; try done; rewrite ?Hp, ?Hq, ?Hd; try done; [|apply Hg'].
  intros i Hi _ Ho. left. by apply Hk.
Qed.

Lemma settle_accounted `{E : Env} w0 c v w :
  rtc bus_step w0 w → accounted w0 w → delivered w v →
  accounted w0 (_process_durable_event c v w).1.
Proof.
  intros Hrun Hacc Hv. pose proof (process_settle c v w) as [Hp Hq He].
  pose proof (bus_process w E c v Hv) as Hstep. set (w' := (_process_durable_event c v w).1) in *.
  pose proof Hacc as [Hg _]. pose proof (prefix_length _ _ Hp) as Hlen.
  eapply accounted_step; try done.
  - destruct He as [->|[-> _]]; [|apply xack_ok]; by eapply group_ok_mono.
  - by destruct He as [->|[-> _]].
  - intros i Hdel Hi Ho. destruct He as [->|[-> Hsettled]]; [by left|].
    destruct (decide (ev_message_id v = i)) as [<-|Hne]; [right|left; by apply xack_outstanding].
    destruct Hsettled as [Hat|Hdead]; [right|by left].
    exists E, c, v, w, (attempt v w).1. split_and!; try done.
    rewrite <-Hat. by destruct (attempt v w).
  - destruct He as [->|[-> _]]; apply Hg.
Qed.

Lemma accounted_bus w0 w w' :
  rtc bus_step w0 w → accounted w0 w → bus_step w w' → accounted w0 w'.
Proof.
  intros Hrun Hacc Hstep. pose proof Hstep as Hstep'.
  destruct Hstep as [E c v Hv|c n|c ms n rounds cursor|i|w' [He Hq Hp]].
  - by apply settle_accounted.
  - eapply reads_accounted; [done..|apply read_new_reads].
  - eapply reads_accounted; [done..|apply claim_loop_reads].
  - pose proof Hacc as [Hg _]. destruct Hg as [Hn Hpel Hd].
    eapply accounted_step; try done; cbn; unfold xdel; destruct (Nat.ltb_spec i (length (w_durable w)));
      cbn; try done; try set_solver; [|by left..].
    split; cbn; [done..|]. set_solver.
  - pose proof Hacc as [Hg _]. pose proof (prefix_length _ _ Hp).
    eapply accounted_step; try done; rewrite ?Hq, ?He; try done; [|by left|apply Hg].
    by eapply group_ok_mono.
Qed.

Lemma accounted_run w0 w : accounted w0 w0 → rtc bus_step w0 w → accounted w0 w.
Proof.
  intros H0 Hrun. revert w Hrun. apply rtc_ind_r; [done|].
  intros w1 w2 H1 Hstep Hacc. by eapply accounted_bus.
Qed.

(** ** The event loop on the bus *)

Lemma delivered_later w w' v : w_durable w `prefix_of` w_durable w' → delivered w v → delivered w' v.
Proof.
  intros [l Hl] (i & e & n & He & ->). exists i, e, n. split; [|done].
  rewrite Hl. by apply lookup_app_l_Some.
Qed.

Lemma read_entry_delivered w i n f :
  read_entry w i = Some f → delivered w (_parse_envelope i f n).
Proof.
  unfold read_entry. case_match; [|done]. intros (e & He & ->)%fmap_Some. by exists i, e, n.
Qed.

Lemma envelopes_delivered n ids w : Forall (delivered w) (envelopes n ids w).
Proof.
  apply Forall_forall. intros v (i & _ & (f & Hf & ->)%fmap_Some)%list_elem_of_omap.
  by apply read_entry_delivered.
Qed.

Lemma read_new_delivered c n w w' vs :
  read_new_events c n w = (w', Ok vs) → Forall (delivered w') vs.
Proof.
  unfold read_new_events. intros (ids & w1 & _ & [= <- <-])%bind_ok. apply envelopes_delivered.
Qed.

Lemma claim_loop_delivered c ms n rounds cursor w w' vs :
  claim_loop c ms n rounds cursor w = (w', Ok vs) → Forall (delivered w') vs.
Proof.
  revert cursor w vs. induction rounds as [|rounds IH]; intros cursor w vs; cbn [claim_loop].
  { by intros [= <- <-]. }
  intros ([next ids] & w1 & _ & H)%bind_ok. destruct ids as [|i ids]; [by injection H as <- <-|].
  apply bind_ok in H as (events & w2 & [= <- <-] & H).
  pose proof (envelopes_delivered _lookup_delivery_count (i :: ids) w1) as Hd.
  destruct next as [cur|]; [|by injection H as <- <-].
  apply bind_ok in H as (rest & w3 & Hrest & [= <- <-]). apply Forall_app. split; [|by eapply IH].
  pose proof (rel_run _ _ _ _ _ (claim_loop_reads c ms n rounds (Some cur)) Hrest) as [Hp _ _].
  eapply Forall_impl; [done|]. intros v. apply delivered_later. by rewrite Hp.
Qed.

Lemma process_events_bus `{E : Env} c vs w :
  Forall (delivered w) vs → rel_at (rtc bus_step) w (process_events c vs).
Proof.
  revert w. induction vs as [|v vs IH]; intros w Hvs.
  { apply rel_at_rel, rel_ret. typeclasses eauto. }
  apply Forall_cons in Hvs as [Hv Hvs]. cbn [process_events for_each].
  assert ((catch (_process_durable_event c v ;; mret ()) (except_any (λ _, mret ())) w).1
    = (_process_durable_event c v w).1) as Hw.
  { unfold catch, mbind, M_bind. destruct (_process_durable_event c v w) as [w1 [d|[]]]; done. }
  apply rel_at_bind; [typeclasses eauto| |].
  - unfold rel_at. rewrite Hw. by apply rtc_once, (bus_process _ E).
  - intros [] w' Hrun. rewrite Hrun in Hw. cbn in Hw. apply IH.
    pose proof (process_settle c v w) as [Hp _ _]. rewrite <-Hw in Hp.
    eapply Forall_impl; [done|]. intros u. by apply delivered_later.
Qed.

Lemma catch_bus {A} (m : M A) (k : exn → A) w :
  rel_at (rtc bus_step) w m → rel_at (rtc bus_step) w (catch m (except_any (λ e, mret (k e)))).
Proof. unfold rel_at, catch, except_any. by destruct (m w) as [w' [|[]]]. Qed.

(** A turn of the event loop, and the replay of stale events, are steps of the bus. *)
Lemma replay_bus `{E : Env} c startup w :
  rel_at (rtc bus_step) w (_claim_and_replay_stale_events c startup).
Proof.
  unfold _claim_and_replay_stale_events, claim_stale_pending_events.
  apply rel_at_bind; [typeclasses eauto|by apply rtc_once, bus_claim|].
  intros vs w' Hrun. apply process_events_bus. by eapply claim_loop_delivered.
Qed.

Lemma turn_bus `{E : Env} c due w : rel_at (rtc bus_step) w (orchestrator_turn c due).
Proof.
  unfold orchestrator_turn. apply (catch_bus _ (λ _, ())).
  apply rel_at_bind; [typeclasses eauto| |].
  - destruct due; [|apply rel_at_rel, rel_ret; typeclasses eauto].
    apply (catch_bus _ (λ _, ())), replay_bus.
  - intros _ w1 _. apply rel_at_bind; [typeclasses eauto|by apply rtc_once, bus_read|].
    intros vs w' Hrun. apply process_events_bus. by eapply read_new_delivered.
Qed.

End bus.

(** ** A concrete consumer *)

Module ConsumerDemo.
Definition demo : EventConsumer := {|
  entry_fields := λ _ e, @durable_fields EventDemo.demo "2026-01-01T00:00:00" [] None e;
  events_max_deliveries := 5;
  exn_text := λ _, "error" |}.

Definition turn (due : bool) (w : world) : world :=
  (@orchestrator_turn SysDemo.env EventDemo.demo demo "orchestrator-1" due w).1.

(** A submitted job, and a demand for an engine. *)
Definition published : world :=
  run_with None (publish_event (JobCreated 1) ;;
                 publish_event (EngineNeeded "nemo" "transcribe" 1 100 None))
    (SysDemo.submitted SysDemo.plain).

Definition process (i : nat) (w : world) : world * res exn Decision :=
  @_process_durable_event SysDemo.env EventDemo.demo demo "orchestrator-1"
    (@_parse_envelope EventDemo.demo i
       (match w_durable w !! i with Some e => @entry_fields demo i e | None => [] end) 1) w.
End ConsumerDemo.


Lemma event_decision_witness :
  w_budget ConsumerDemo.published = None ∧
  w_db ConsumerDemo.published = w_disk ConsumerDemo.published ∧
  (ConsumerDemo.process 0 ConsumerDemo.published).2 = Ok DAck ∧
  (ConsumerDemo.process 1 ConsumerDemo.published).2 = Ok DDlq.
Proof.
  split; [vm_compute; reflexivity|]. split; [vm_compute; reflexivity|].
  assert (w_budget ConsumerDemo.published = None) as Hb by (vm_compute; reflexivity).
  assert (w_db ConsumerDemo.published = w_disk ConsumerDemo.published) as Hw
    by (vm_compute; reflexivity).
  split; [vm_compute; reflexivity|].
  pose proof (@event_decision SysDemo.env EventDemo.demo ConsumerDemo.demo "orchestrator-1" 1
    (@entry_fields ConsumerDemo.demo 1 (EngineNeeded "nemo" "transcribe" 1 100 None)) 1
    ConsumerDemo.published Hb Hw) as (ev & Hev & Hp).
  vm_compute in Hev. injection Hev as <-.
  exact (f_equal snd Hp).
Defined.
